(* ===== verification/_CoqProject ===== *)
-Q . S2P
Prelude.v
Strings.v
Program.v
CircuitBreaker.v
Admission.v
IpAddress.v
Url.v
HostPolicy.v
Capture.v
Json.v
Proxy.v
Relay.v
Sitemap.v
Barrier.v
Classify.v
Evidence.v
SearchMeta.v
Hybrid.v
Sources.v
Acquire.v
Discovery.v
Research.v
ResearchState.v
Answer.v
BrowserPool.v
Valkey.v
ScrapeCache.v
Fetch.v
JobStore.v
Webhook.v
Monitor.v
Session.v
SessionStep.v
SessionRun.v
SessionSources.v
Durable.v
DurableRun.v
Snapshot.v
JobExecution.v
CrawlStream.v
Retry.v
Worker.v
TaskTracker.v
PathFilter.v
Politeness.v
ValkeyControl.v
RateLimit.v
Budget.v
Links.v
Dedup.v
CrawlCache.v
Crawler.v
CrawlRoutes.v
BatchScrape.v
JobBodies.v
