(* ===== verification/Prelude.v ===== *)
(** * GroktoCrawl: a verification library for the platform's core

    GroktoCrawl is a self-hosted web crawling and research service.  A request
    becomes a job in Valkey; a worker claims it, crawls, scrapes or researches,
    stores pages and progress, and announces the outcome by webhook; other
    requests stream a crawl or an answer, run research sessions step by step, or
    watch pages.  A separate scraper service fetches pages in tiers, in a
    sandbox whose network is an egress proxy and whose database is a socket with
    a few commands.  This library models the parts of the Python code that carry
    that logic and proves what makes them correct under every interleaving of
    their tasks, clients and failures.

    ** How the parts interact, and which file models them

    - [Strings], [Json], [Valkey], [Program]: the language and its environment.
      Strings are sequences of code points below 256; JSON documents are decoded
      values; Valkey is the class [Valkey] of its commands with the laws
      [ValkeyLaws] the code relies on, and [gmap_valkey] an implementation the
      witnesses run on; a program is a tree of what a coroutine awaits, with its
      runs and its weakest precondition.
    - [IpAddress], [Url], [HostPolicy] ([src/common/url.py] and the URL functions
      of [src/agent-svc/agent/crawler.py]): address and URL parsing as in the
      standard library, the SSRF policy on addresses and hosts, the guards of the
      crawler ([is_private_host]) and of webhooks
      ([validate_outbound_webhook_url]), and the dedup key [normalize_url].
    - [Capture] ([src/common/capture_destination.py]), [Proxy] and [Relay]
      ([src/capture-egress-svc/.../proxy.py]): which addresses the egress proxies
      may connect to, from the authority of a request to the socket; the head of
      a request and what is forwarded of it; the bytes that are relayed.
    - [CircuitBreaker] ([src/common/circuit_breaker.py]) and [Admission]
      ([src/common/admission.py]): protection of shared resources.
    - [RateLimit] ([rate_limiter.py], [src/common/retry.py]) and [Politeness]
      ([src/scraper-svc/scraper/politeness.py]): requests per window, backoff,
      robots.txt and the pacing of fetches.
    - [Fetch] ([src/scraper-svc/scraper/fetch.py] and parts of its neighbours),
      [ScrapeCache] ([cache.py]), [BrowserPool] ([browser_pool.py]),
      [ValkeyControl] ([valkey_control.py], [cookie_store.py]): the pipeline of a
      scrape, which asks the policies above, the cache and the tiers; its cache,
      its browsers, and the socket to the database.
    - [JobStore] ([src/agent-svc/agent/store.py] and the Lua scripts of
      [job_execution.py]): job records, results, counters and the webhook outbox.
    - [JobExecution] ([src/agent-svc/agent/job_execution.py]): running a claimed
      job under its lease, and recovery after a crash.
    - [Retry], [Worker] ([retry.py], [worker.py]): the retry loop around a job.
      [JobBodies] and [BatchScrape] ([worker.py]): what crawl jobs, research jobs,
      plan executions and batch scrapes do inside it.
    - [Webhook] ([webhook.py]): building, validating, sending and replaying
      outbox events.  [Monitor] ([monitor.py]): watched pages and searches.
    - [TaskTracker] ([tasks.py]): the background tasks of a process.
    - [CrawlStream], [CrawlRoutes] ([crawl_stream.py], [routes/crawl.py]): a crawl
      as an event stream inside a request, on [JobStore] and [JobExecution]; what a
      request asks of [Crawler], and the pages of a job in chunks.
    - [Session] ([session_store.py]): the keys of a research session and the
      scripts on them.  [SessionStep] ([session.py]): the session manager, as
      programs that call the store of [Session], the services and the selection
      of [Evidence]; [SessionRun] is a logic for such programs and what it shows
      of every step, [SessionSources] what a step writes and from where.
    - [Evidence] ([research/evidence.py]): the excerpts a model is shown.
      [SearchMeta] ([search_metadata.py]): the metadata kept of a search result.
      [Barrier] ([barrier_guard.py]): the test for challenge pages; [Classify]
      ([src/scraper-svc/scraper/barrier.py]): the scraper's grading of a page.
      [Hybrid] ([research/hybrid.py]): web and vector results merged.
      [Sources], [Discovery] ([research/sources.py], [discovery.py]): searching and
      fetching sources; [Acquire] ([research/acquisition.py]): the same for a list
      of results; [ResearchState] ([research/state.py]): the state shown of a run.  [Research] ([research/loop.py], [plan.py], [gaps.py]):
      the research loop over discovery, evidence, gap check and synthesis.
      [Answer] ([research/citations.py] and the answer pipelines of [loop.py]).
    - [Durable], [DurableRun], [Snapshot] ([experimental/durable_research.py] and
      the effects of [live_runner.py]): the ledger of a durable research run,
      its abstract machine and the simulation between them, and its backup.
      [Budget] ([experimental/calibration_budget.py]): the spending caps of an
      experiment.
    - [PathFilter], [Links], [Sitemap], [Dedup], [CrawlCache], [Crawler]
      ([crawler.py], [link_extractor.py], [sitemap_parser.py], [dedup.py],
      [crawl_cache.py]): the crawl engine, whose state machine composes them.

    A module's object is a Record of its fields, a method one Definition; an
    exception is [None], [Raise], [Throw] or a constructor.  Code between two
    awaits, one Lua script and one Valkey command are atomic; a coroutine is split
    at its awaits, and a run is either any sequence of the resulting steps
    ([run_ops]) or a program with any environment ([Program]), so a theorem about
    runs covers every schedule, every client, every answer and every crash.

    ** What the theorems show

    - Crawls ([Crawler], [Links], [PathFilter], [Url], [CrawlCache], [Sitemap]):
      limits on pages, depth, concurrency and retries hold in every interleaving;
      no page twice by URL or by content; no challenge page stored; no page out of
      scope; globs mean what is documented; the dedup key ignores fragments; the
      cache serves a page exactly until it is too old; sitemaps are read once and
      completely.
    - Requests for crawls ([CrawlStream], [CrawlRoutes]): a stream carries what the
      engine reported, once and in order, decodes to it, ends, and settles its job;
      the strictest cap of a request holds; chunks and replays give the pages.
    - Outbound requests ([IpAddress], [HostPolicy], [Capture], [Proxy], [Relay],
      [Webhook]): the SSRF guards accept exactly public hosts, see through IPv6
      encapsulations, agree with each other, stand before every webhook POST; the
      egress proxy dials only vetted addresses, forwards well-framed requests, and
      relays exactly within its budget.
    - Scrapes ([Fetch], [Classify], [ScrapeCache], [BrowserPool], [Politeness],
      [RateLimit], [ValkeyControl]): every request passes the policies in order,
      no challenge is served as a page, a page that passes is free of its signs, pages are read back from the cache as stored, browsers
      are bounded and waiters woken, robots.txt is obeyed and shared slots are
      spaced, and the socket neither writes nor reveals foreign keys.
    - Jobs ([JobStore], [JobExecution], [Worker], [JobBodies], [BatchScrape]): the
      store refines an abstract life cycle; terminal states are final; a job is
      claimed once; completion is fenced by the lease; a job always settles;
      recovery fails closed and re-dispatches only queued jobs; retries end; a
      batch equals its sequential reading, is bounded and ends; the bodies keep
      their protocols.
    - Webhooks and monitors ([JobStore], [Webhook], [Monitor]): the outcome and its
      event are written together, deliveries are leased, a replay delivers what is
      pending; nothing is announced twice.
    - Sessions ([Session], [SessionRun], [SessionSources]): indices once, commits
      once, exact counters, bounded reservations, no revival; a step leaves no
      lock or reservation behind however it ends, a serialized step that returns
      had the session to itself, an independent one is carried out once, a
      rejected one wrote nothing, and no challenge page becomes a reference.
    - Research ([Evidence], [SearchMeta], [Hybrid], [Sources], [Discovery],
      [Acquire], [Research], [ResearchState], [Answer]): excerpts are verbatim, disjoint, within budget, fair
      between sources and complete when they say so; only typed, bounded and
      public metadata is kept; discovery does not depend on the order of arrival,
      ends, and keeps to its credits, which hold for all passes of a request
      together; an answer is synthesized from evidence only and names exactly the
      retained sources; citations are exactly the markers that name a source, and
      both answer pipelines agree; acquisition settles every URL once; the state
      shown of a run is tidy and holds no body of a page or answer.
    - Durable runs ([DurableRun], [Snapshot], [Budget]): the ledger refines its
      abstract machine; an external call is made at most once; a stale owner is
      fenced off; a crashed run is recovered; a backup restores what it saved
      and refuses what was tampered with; spending stays within its caps.
    - Resources ([Admission], [CircuitBreaker], [TaskTracker]): budgets, FIFO
      grants, one probe, one live task per job.
    - Concrete runs ([..._loses_cancel], [..._leaks_budget], [batch_loses_urls],
      [close_leaves_clients_open], ...) show where the code does not do what it
      means to.

    ** Bounds and fuel

    Recursion is structural wherever it can be, and programs ([Fetch], [Research],
    [Answer], [SessionStep], [JobBodies]) are finite trees of calls.  Fuel is used
    where a loop is not structural, and shown enough by the theorem that the loop
    returns its result: the worker's loop runs on [attempt_bound]
    ([worker_attempts_bounded]); the windows and pages of [Evidence] on the length
    of the text; [Hybrid.blend] on the number of candidates; the inner loops of
    [Discovery] on the candidates and queries that are left, its run on a number
    that exists for every responsive environment; [Relay] on the bytes that are
    left; [CrawlRoutes.follow] on the chunks that are left.  [Sitemap] recurs on
    the code's own depth bound, and the validation and POST loops of webhooks count
    down from [MAX_RETRIES].  [stream_drains] and [batch_ends] bound the steps of
    state machines.  The number of lock attempts a session step's deadline leaves
    is an argument.  Integers are unbounded as in Python; addresses are kept at 32
    and 128 bits.

    ** What is not modelled, and why

    Clock readings are integers (microseconds, or the seconds the code
    truncates to), not floats; scores are integers in millionths.  Code points
    above 255, the re-encoding of empty arrays by Lua's cjson in request payloads,
    logs, metrics, timestamps inside documents, pacing sleeps and user callbacks
    are left out.  Store methods that read and then write ([complete_plain],
    [fail_plain], [resume_retry]) are one step, except [schedule_retry], whose two
    commands are also given apart.  Outside are: HTML extraction, browser
    automation and the site adapters of the scraper, document parsers and model
    calls, which are third-party code and heuristics; the vector services; the
    experimental research runtime around its ledger and budget; request and
    response schemas, HTTP wiring, the MCP server and the command line, which hold
    declarations; scripts, evaluations and test sites.  What they answer is an
    argument wherever the modelled code consumes it.  SHA-256, base64, cjson, IDNA,
    DUMP/RESTORE, JSON schema validation and float parsing are parameters, with the
    documented facts the theorems use as hypotheses. *)

From Stdlib Require Export Ascii ZArith Lia.
From stdpp Require Export base gmap strings list numbers relations option sorting.
#[global] Open Scope Z_scope.

(** ** Outcomes of fallible code

    A Python call either returns a value or raises; [Raise] carries what the
    caller's [except] clauses can tell apart. *)

Inductive outcome (A E : Type) : Type :=
| Ok (a : A)
| Raise (e : E).
Arguments Ok {A E} _.
Arguments Raise {A E} _.

Declare Scope py_scope.
Delimit Scope py_scope with py.

Notation "'try' x <- c1 ; c2" :=
  (match c1 with Ok x => c2 | Raise e => Raise e end)
    (at level 60, x name, c1 at next level, right associativity) : py_scope.

Definition is_ok {A E} (o : outcome A E) : bool :=
  match o with Ok _ => true | Raise _ => false end.

(** ** Time

    Clock readings ([time.time()], [time.monotonic()]) are integers counting
    microseconds, the resolution of Python's [datetime]. *)

Abbreviation usec := Z (only parsing).

Definition sec (n : Z) : usec := n * 1000000.

(** ** Runs

    A sequence of atomic operations applied in order; every interleaving of
    tasks whose operations are atomic is such a sequence. *)

Section Runs.
Context {S O : Type} (step : S -> O -> S).

Definition run_ops (s : S) (ops : list O) : S := fold_left step ops s.

Lemma run_ops_app s l1 l2 : run_ops s (l1 ++ l2) = run_ops (run_ops s l1) l2.
Proof. apply fold_left_app. Qed.

Lemma run_ops_snoc s l o : run_ops s (l ++ [o]) = step (run_ops s l) o.
Proof. by rewrite run_ops_app. Qed.

Lemma run_ops_invariant (P : S -> Prop) s ops :
  P s -> (forall s o, P s -> P (step s o)) -> P (run_ops s ops).
Proof.
  intros H0 Hstep. revert s H0.
  induction ops as [|o ops IH]; intros s H0; [done|]. by apply IH, Hstep.
Qed.

Lemma run_ops_relation (R : S -> S -> Prop) s ops :
  (forall s, R s s) -> (forall s1 s2 s3, R s1 s2 -> R s2 s3 -> R s1 s3) ->
  (forall s o, R s (step s o)) -> R s (run_ops s ops).
Proof.
  intros Hrefl Htrans Hstep. revert s.
  induction ops as [|o ops IH]; intros s; [done|]. cbn. eauto.
Qed.

End Runs.

(** ** Finite sums over task identifiers *)

Fixpoint total (f : nat -> Z) (n : nat) : Z :=
  match n with O => 0 | S n => total f n + f n end.

Lemma total_ext f g n :
  (forall i, (i < n)%nat -> f i = g i) -> total f n = total g n.
Proof.
  induction n as [|n IH]; intros H; cbn; [done|].
  rewrite H by lia. rewrite IH; [done|]. intros i Hi. apply H. lia.
Qed.

Lemma total_update f g n i :
  (i < n)%nat -> (forall j, j <> i -> f j = g j) ->
  total g n = total f n - f i + g i.
Proof.
  intros Hi H. induction n as [|n IH]; [lia|]. cbn.
  destruct (decide (i = n)) as [->|Hne].
  - rewrite (total_ext g f n); [lia|]. intros j Hj. symmetry. apply H. lia.
  - rewrite IH by lia. rewrite (H n) by congruence. lia.
Qed.

Lemma total_le f g n :
  (forall i, (i < n)%nat -> f i <= g i) -> total f n <= total g n.
Proof.
  induction n as [|n IH]; intros H; cbn; [done|].
  specialize (IH (fun i Hi => H i ltac:(lia))). specialize (H n). lia.
Qed.

Lemma total_zero f n : (forall i, (i < n)%nat -> f i = 0) -> total f n = 0.
Proof.
  intros H. rewrite (total_ext f (fun _ => 0)) by done.
  clear. induction n; cbn; lia.
Qed.

Lemma total_nonneg f n : (forall i, (i < n)%nat -> 0 <= f i) -> 0 <= total f n.
Proof.
  intros H. rewrite <- (total_zero (fun _ => 0) n) by done. by apply total_le.
Qed.

(** ** Lists *)

Lemma suffix_sublist {A} (l k : list A) : suffix l k -> l `sublist_of` k.
Proof. intros [k' ->]. by apply sublist_inserts_l. Qed.

Lemma fmap_sublist {A B} (f : A -> B) l k :
  l `sublist_of` k -> (f <$> l) `sublist_of` (f <$> k).
Proof. induction 1; cbn; by constructor. Qed.

Lemma NoDup_list_filter {A} (f : A -> bool) l : NoDup l -> NoDup (List.filter f l).
Proof.
  induction 1 as [|x l Hx _ IH]; cbn; [constructor|]. destruct (f x); [|done]. constructor; [|done].
  intros Hin. apply Hx. apply list_elem_of_In, List.filter_In in Hin as [Hin _]. by apply list_elem_of_In.
Qed.

Lemma elem_of_list_filter {A} (f : A -> bool) l x : x ∈ List.filter f l <-> f x = true /\ x ∈ l.
Proof. rewrite !list_elem_of_In, List.filter_In. tauto. Qed.

Lemma filter_all {A} (P : A -> Prop) `{!forall x, Decision (P x)} (l : list A) :
  (forall x, x ∈ l -> P x) -> filter P l = l.
Proof.
  induction l as [|x l IH]; intros Hl; [done|]. rewrite filter_cons_True by (apply Hl; by left).
  f_equal. apply IH. intros y Hy. apply Hl. by right.
Qed.

Lemma filter_none {A} (P : A -> Prop) `{!forall x, Decision (P x)} (l : list A) :
  (forall x, x ∈ l -> ~ P x) -> filter P l = [].
Proof.
  induction l as [|x l IH]; intros Hl; [done|]. rewrite filter_cons_False by (apply Hl; by left).
  apply IH. intros y Hy. apply Hl. by right.
Qed.

Lemma filter_ext_in {A} (P Q : A -> Prop) `{!forall x, Decision (P x)} `{!forall x, Decision (Q x)} (l : list A) :
  (forall x, x ∈ l -> P x <-> Q x) -> filter P l = filter Q l.
Proof.
  induction l as [|x l IH]; intros Hl; [done|]. rewrite !filter_cons, IH by (intros y Hy; apply Hl; by right).
  destruct (Hl x) as [H1 H2]; [by left|]. repeat case_decide; tauto || done.
Qed.

Lemma nodup_snoc {A} (l : list A) x : NoDup l -> x ∉ l -> NoDup (l ++ [x]).
Proof. intros H Hx. apply NoDup_app. split; [done|]. split; [|apply NoDup_singleton]. intros y Hy ->%list_elem_of_singleton. done. Qed.

Lemma elem_of_snoc {A} (l : list A) x y : y ∈ l ++ [x] <-> y ∈ l \/ y = x.
Proof. by rewrite elem_of_app, list_elem_of_singleton. Qed.

(** ** Tactics and hint databases *)

Create HintDb grok discriminated.

(** Case analysis on every [match]/[if] scrutinee, remembering equations. *)
Ltac case_all := repeat (case_match; simplify_eq/=).

(** Turn boolean tests of the modelled code into propositions. *)
Ltac bool_to_prop :=
  repeat match goal with
  | H : (_ && _) = true |- _ => apply andb_true_iff in H; destruct H
  | H : (_ || _) = false |- _ => apply orb_false_iff in H; destruct H
  | H : negb _ = true |- _ => apply negb_true_iff in H
  | H : negb _ = false |- _ => apply negb_false_iff in H
  | H : (_ <=? _) = true |- _ => apply Z.leb_le in H
  | H : (_ <=? _) = false |- _ => apply Z.leb_gt in H
  | H : (_ <? _) = true |- _ => apply Z.ltb_lt in H
  | H : (_ <? _) = false |- _ => apply Z.ltb_ge in H
  | H : (_ =? _) = true |- _ => apply Z.eqb_eq in H
  | H : (_ =? _) = false |- _ => apply Z.eqb_neq in H
  end.

Ltac crush := simplify_eq/=; bool_to_prop; try done; try lia; eauto with grok.
