(* ===== verification/Strings.v ===== *)
(** * Python string operations

    The [str] methods the URL code uses, on strings as sequences of code points
    below 256. *)

From stdpp Require Import pretty.
From S2P Require Import Prelude.

#[global] Arguments Ascii.eqb : simpl never.

Definition chr (c : ascii) : nat := nat_of_ascii c.

Definition is_upper (c : ascii) : bool := Nat.leb 65 (chr c) && Nat.leb (chr c) 90.
Definition is_lower (c : ascii) : bool := Nat.leb 97 (chr c) && Nat.leb (chr c) 122.
Definition is_digit (c : ascii) : bool := Nat.leb 48 (chr c) && Nat.leb (chr c) 57.
Definition is_alpha (c : ascii) : bool := is_upper c || is_lower c.

(** [str.lower]; code points 192-222 but 215 are the upper-case Latin letters
    outside ASCII. *)
Definition lower_char (c : ascii) : ascii :=
  if is_upper c || (Nat.leb 192 (chr c) && Nat.leb (chr c) 222 && negb (Nat.eqb (chr c) 215))
  then ascii_of_nat (chr c + 32) else c.

Fixpoint smap (f : ascii -> ascii) (s : string) : string :=
  match s with EmptyString => EmptyString | String c s => String (f c) (smap f s) end.

Definition lower (s : string) : string := smap lower_char s.

Fixpoint sfilter (f : ascii -> bool) (s : string) : string :=
  match s with
  | EmptyString => EmptyString
  | String c s => if f c then String c (sfilter f s) else sfilter f s
  end.

Fixpoint sforall (f : ascii -> bool) (s : string) : bool :=
  match s with EmptyString => true | String c s => f c && sforall f s end.

Fixpoint contains (c : ascii) (s : string) : bool :=
  match s with EmptyString => false | String d s => Ascii.eqb c d || contains c s end.

Definition is_empty (s : string) : bool := match s with EmptyString => true | _ => false end.

(** [s.partition(c)]: the parts around the first [c]. *)
Fixpoint partition (c : ascii) (s : string) : string * bool * string :=
  match s with
  | EmptyString => (EmptyString, false, EmptyString)
  | String d s =>
      if Ascii.eqb c d then (EmptyString, true, s)
      else let '(a, b, r) := partition c s in (String d a, b, r)
  end.

(** [s.rpartition(c)]: the parts around the last [c]; without one, everything is
    after it. *)
Fixpoint rpartition (c : ascii) (s : string) : string * bool * string :=
  match s with
  | EmptyString => (EmptyString, false, EmptyString)
  | String d s' =>
      let '(a, b, r) := rpartition c s' in
      if b then (String d a, true, r)
      else if Ascii.eqb c d then (EmptyString, true, s')
      else (EmptyString, false, s)
  end.

(** The part of [s] before the first character satisfying [f], and the rest. *)
Fixpoint break_at (f : ascii -> bool) (s : string) : string * string :=
  match s with
  | EmptyString => (EmptyString, EmptyString)
  | String c s' => if f c then (EmptyString, s)
                   else let '(a, r) := break_at f s' in (String c a, r)
  end.

(** [s.split(c)]. *)
Fixpoint split (c : ascii) (s : string) : list string :=
  match s with
  | EmptyString => [EmptyString]
  | String d s =>
      if Ascii.eqb c d then EmptyString :: split c s
      else match split c s with
           | [] => [String d EmptyString]
           | p :: ps => String d p :: ps
           end
  end.

Fixpoint starts_with (p s : string) : bool :=
  match p, s with
  | EmptyString, _ => true
  | String c p, String d s => Ascii.eqb c d && starts_with p s
  | _, EmptyString => false
  end.

Fixpoint ends_with (p s : string) : bool :=
  String.eqb p s || match s with EmptyString => false | String _ s => ends_with p s end.

(** [p in s]. *)
Fixpoint substring_of (p s : string) : bool :=
  starts_with p s || match s with EmptyString => false | String _ s => substring_of p s end.

Fixpoint lstrip (f : ascii -> bool) (s : string) : string :=
  match s with
  | EmptyString => EmptyString
  | String c s' => if f c then lstrip f s' else s
  end.

Fixpoint rstrip (f : ascii -> bool) (s : string) : string :=
  match s with
  | EmptyString => EmptyString
  | String c s' =>
      match rstrip f s' with
      | EmptyString => if f c then EmptyString else String c EmptyString
      | r => String c r
      end
  end.

(** [str.isspace] below 256. *)
Definition is_space (c : ascii) : bool :=
  let n := chr c in
  (Nat.leb 9 n && Nat.leb n 13) || (Nat.leb 28 n && Nat.leb n 32) || Nat.eqb n 133 || Nat.eqb n 160.

Definition strip (s : string) : string := rstrip is_space (lstrip is_space s).

Fixpoint slen (s : string) : nat :=
  match s with EmptyString => O | String _ s => S (slen s) end.

Fixpoint sdrop (n : nat) (s : string) : string :=
  match n, s with O, _ => s | S n, String _ s => sdrop n s | _, EmptyString => EmptyString end.

(** Decimal value of a string of digits. *)
Fixpoint digits_from (acc : Z) (s : string) : Z :=
  match s with
  | EmptyString => acc
  | String c s => digits_from (acc * 10 + Z.of_nat (chr c - 48)) s
  end.

Definition decimal (s : string) : Z := digits_from 0 s.

(** Python's [int(s)] in base ten: surrounding blanks, a sign, digits with single
    underscores between them; [None] for [ValueError]. *)
Fixpoint int_digits (acc : Z) (after_digit : bool) (s : string) : option Z :=
  match s with
  | EmptyString => if after_digit then Some acc else None
  | String c s =>
      if is_digit c then int_digits (acc * 10 + Z.of_nat (chr c - 48)) true s
      else if Ascii.eqb c "_" && after_digit then int_digits acc false s
      else None
  end.

Definition py_int (s : string) : option Z :=
  match strip s with
  | String c t =>
      if Ascii.eqb c "-" then Z.opp <$> int_digits 0 false t
      else if Ascii.eqb c "+" then int_digits 0 false t
      else int_digits 0 false (String c t)
  | EmptyString => None
  end.

Definition is_hex (c : ascii) : bool :=
  is_digit c || (Nat.leb 97 (chr c) && Nat.leb (chr c) 102) || (Nat.leb 65 (chr c) && Nat.leb (chr c) 70).

Definition hex_value (c : ascii) : Z :=
  if is_digit c then Z.of_nat (chr c - 48)
  else if is_lower c then Z.of_nat (chr c - 87) else Z.of_nat (chr c - 55).

Fixpoint hex_from (acc : Z) (s : string) : Z :=
  match s with
  | EmptyString => acc
  | String c s => hex_from (acc * 16 + hex_value c) s
  end.

(** [sep.join(l)]. *)
Fixpoint sjoin (sep : string) (l : list string) : string :=
  match l with
  | [] => EmptyString
  | [s] => s
  | s :: l => s +:+ sep +:+ sjoin sep l
  end.

(** [sorted] of strings: insertion sort by code points. *)
Fixpoint insert_str (s : string) (l : list string) : list string :=
  match l with
  | [] => [s]
  | t :: l' => if String.leb s t then s :: l else t :: insert_str s l'
  end.

Definition sorted_strs (l : list string) : list string := foldr insert_str [] l.

(** ** Facts *)

Lemma sapp_cons c s t : String c s +:+ t = String c (s +:+ t).
Proof. done. Qed.

Lemma sapp_nil t : EmptyString +:+ t = t.
Proof. done. Qed.

Lemma partition_app c s :
  let '(a, b, r) := partition c s in
  s = if b then a +:+ String c r else a.
Proof.
  induction s as [|d s IH]; cbn; [done|]. destruct (Ascii.eqb_spec c d) as [->|Hne]; [done|].
  destruct (partition c s) as [[a b] r]. destruct b; rewrite ?sapp_cons; by rewrite IH.
Qed.

Lemma smap_length f s : slen (smap f s) = slen s.
Proof. induction s; cbn; congruence. Qed.

Lemma lower_char_idemp c : lower_char (lower_char c) = lower_char c.
Proof. destruct c as [[] [] [] [] [] [] [] []]; reflexivity. Qed.

Lemma lower_idemp s : lower (lower s) = lower s.
Proof. unfold lower. induction s; cbn; [done|]. by rewrite lower_char_idemp, IHs. Qed.

Lemma slen_app s t : slen (s +:+ t) = (slen s + slen t)%nat.
Proof. induction s as [|c s IH]; [done|]. rewrite sapp_cons. cbn. by rewrite IH. Qed.

Lemma sapp_assoc s t u : (s +:+ t) +:+ u = s +:+ (t +:+ u).
Proof. induction s as [|c s IH]; [done|]. by rewrite !sapp_cons, IH. Qed.

Lemma sapp_empty s : s +:+ "" = s.
Proof. induction s as [|c s IH]; [done|]. by rewrite sapp_cons, IH. Qed.

Lemma ends_with_app s t : ends_with t (s +:+ t) = true.
Proof.
  induction s as [|ch s IH]; [rewrite sapp_nil; destruct t; cbn [ends_with]; by rewrite String.eqb_refl|].
  rewrite sapp_cons. cbn [ends_with]. rewrite IH. by rewrite orb_true_r.
Qed.

Lemma substring_app s t : String.substring 0 (slen (s +:+ t) - slen t) (s +:+ t) = s.
Proof.
  rewrite slen_app, Nat.add_sub. induction s as [|ch s IH]; [by destruct t|].
  rewrite sapp_cons. cbn. by rewrite IH.
Qed.

Lemma contains_app c s t : contains c (s +:+ t) = contains c s || contains c t.
Proof. induction s as [|d s IH]; [done|]. rewrite sapp_cons. cbn. by rewrite IH, orb_assoc. Qed.

Lemma sforall_app f s t : sforall f (s +:+ t) = sforall f s && sforall f t.
Proof. induction s as [|d s IH]; [done|]. rewrite sapp_cons. cbn. by rewrite IH, andb_assoc. Qed.

Lemma sfilter_app f s t : sfilter f (s +:+ t) = sfilter f s +:+ sfilter f t.
Proof. induction s as [|d s IH]; [done|]. rewrite sapp_cons. cbn. destruct (f d); by rewrite ?sapp_cons, IH. Qed.

Lemma contains_sfilter f c s : contains c s = false -> contains c (sfilter f s) = false.
Proof.
  induction s as [|d s IH]; cbn; [done|]. intros [H1 H2]%orb_false_iff.
  destruct (f d); cbn; rewrite ?H1; by apply IH.
Qed.

Lemma contains_lstrip f c s : contains c s = false -> contains c (lstrip f s) = false.
Proof.
  induction s as [|d s IH]; cbn; [done|]. intros H. destruct (f d); [|done].
  apply orb_false_iff in H as [_ H]. by apply IH.
Qed.

Lemma lstrip_app f s c t : f c = false -> lstrip f (s +:+ String c t) = lstrip f s +:+ String c t.
Proof.
  intros Hc. induction s as [|d s IH]; [rewrite sapp_nil; cbn; by rewrite Hc|].
  rewrite sapp_cons. cbn. by destruct (f d).
Qed.

Lemma partition_at c s t : contains c s = false -> partition c (s +:+ String c t) = (s, true, t).
Proof.
  induction s as [|d s IH]; intros H; [rewrite sapp_nil; cbn; by rewrite Ascii.eqb_refl|].
  rewrite sapp_cons. cbn in *. apply orb_false_iff in H as [-> H]. by rewrite IH.
Qed.

Lemma partition_absent c s : contains c s = false -> partition c s = (s, false, EmptyString).
Proof.
  induction s as [|d s IH]; intros H; [done|]. cbn in *. apply orb_false_iff in H as [-> H]. by rewrite IH.
Qed.

Lemma partition_found d s t : contains d s = true ->
  let '(a, _, r) := partition d s in partition d (s +:+ t) = (a, true, r +:+ t) /\ partition d s = (a, true, r).
Proof.
  induction s as [|e s IH]; intros H; [done|]. rewrite sapp_cons. cbn in *.
  destruct (Ascii.eqb d e); [done|]. cbn in H. specialize (IH H).
  destruct (partition d s) as [[a b] r]. destruct IH as [-> IH]. by injection IH as ->.
Qed.

Lemma partition_prefix c s : contains c s = false ->
  forall d t, let '(a, b, _) := partition d (s +:+ String c t) in
  contains d s = false -> d <> c -> b = true -> contains c a = true.
Proof.
  intros Hc d t. induction s as [|e s IH].
  - rewrite sapp_nil. cbn. destruct (Ascii.eqb_spec d c) as [->|Hne]; [done|].
    destruct (partition d t) as [[a b] r]. intros _ _ _. cbn. by rewrite Ascii.eqb_refl.
  - rewrite sapp_cons. cbn in *. apply orb_false_iff in Hc as [Hce Hc]. specialize (IH Hc).
    destruct (Ascii.eqb d e); [done|]. destruct (partition d (s +:+ String c t)) as [[a b] r].
    intros Hd Hne Hb. cbn. rewrite Hce. apply IH; done.
Qed.

Lemma sforall_contains f c s : f c = false -> contains c s = true -> sforall f s = false.
Proof.
  intros Hf. induction s as [|d s IH]; [done|]. cbn. destruct (Ascii.eqb_spec c d) as [->|Hne]; cbn.
  - by rewrite Hf.
  - intros H. by rewrite IH, andb_false_r.
Qed.

Lemma break_at_app f s c t : f c = true ->
  break_at f (s +:+ String c t) = let '(a, r) := break_at f s in (a, r +:+ String c t).
Proof.
  intros Hf. induction s as [|d s IH]; [rewrite sapp_nil; cbn; by rewrite Hf|].
  rewrite sapp_cons. cbn. destruct (f d); [done|]. rewrite IH. by destruct (break_at f s).
Qed.

Lemma break_at_contains f c s : contains c s = false -> contains c (snd (break_at f s)) = false.
Proof.
  induction s as [|d s IH]; [done|]. intros H. pose proof H as H'. cbn in *. apply orb_false_iff in H as [_ H].
  destruct (f d); [done|]. specialize (IH H). by destruct (break_at f s).
Qed.

(** The last occurrence of a separator splits a string in one way. *)
Lemma last_char_inj c s1 s2 t1 t2 : s1 +:+ String c t1 = s2 +:+ String c t2 ->
  contains c t1 = false -> contains c t2 = false -> t1 = t2.
Proof.
  revert s2. induction s1 as [|a s1 IH]; intros [|b s2] H H1 H2; cbn in H.
  - by injection H.
  - injection H as _ ->. rewrite contains_app in H1. apply orb_false_iff in H1 as [_ H1]. cbn in H1.
    by rewrite Ascii.eqb_refl in H1.
  - injection H as _ <-. rewrite contains_app in H2. apply orb_false_iff in H2 as [_ H2]. cbn in H2.
    by rewrite Ascii.eqb_refl in H2.
  - injection H as _ H. by apply (IH s2).
Qed.

Lemma split_absent c s : contains c s = false -> split c s = [s].
Proof. induction s as [|d s IH]; cbn; [done|]. intros [H1 H2]%orb_false_iff. by rewrite H1, IH. Qed.

Lemma split_at c s t : contains c s = false -> split c (s +:+ String c t) = s :: split c t.
Proof.
  induction s as [|d s IH]; intros H.
  - rewrite sapp_nil. cbn [split]. by rewrite Ascii.eqb_refl.
  - cbn in H. apply orb_false_iff in H as [H1 H2]. rewrite sapp_cons. cbn [split]. by rewrite H1, IH.
Qed.

(** ** Decimal notation *)

Lemma pretty_N_char_digit n : is_digit (pretty_N_char n) = true.
Proof. unfold pretty_N_char. by repeat case_match. Qed.

Lemma pretty_go_forall f x : (forall c, is_digit c = true -> f c = true) ->
  forall s, sforall f s = true -> sforall f (pretty_N_go x s) = true.
Proof.
  intros Hf. induction (N.lt_wf_0 x) as [x _ IH]. intros s Hs. destruct (decide (x = 0%N)) as [->|Hx]; [by rewrite pretty_N_go_0|].
  rewrite pretty_N_go_step by lia. apply IH; [apply N.div_lt; lia|]. cbn. by rewrite Hf, Hs by apply pretty_N_char_digit.
Qed.

Lemma pretty_N_forall f (n : N) : (forall c, is_digit c = true -> f c = true) -> sforall f (pretty n) = true.
Proof.
  intros Hf. unfold pretty, pretty_N. destruct (decide _); [cbn; by rewrite Hf|]. by apply pretty_go_forall.
Qed.

Lemma sforall_absent f c s : f c = false -> sforall f s = true -> contains c s = false.
Proof.
  intros Hf. induction s as [|d s IH]; cbn; [done|]. intros [Hd Hs]%andb_true_iff. rewrite IH by done.
  destruct (Ascii.eqb_spec c d) as [->|]; [congruence|done].
Qed.

(** A number is written with digits and a sign. *)
Lemma pretty_contains c (z : Z) : is_digit c = false -> c <> "-"%char -> contains c (pretty z) = false.
Proof.
  intros Hd Hm. set (f := fun d => negb (Ascii.eqb c d)).
  assert (HN : forall n : N, contains c (pretty n) = false).
  { intros n. apply (sforall_absent f); [unfold f; by rewrite Ascii.eqb_refl|]. apply pretty_N_forall.
    intros d H. unfold f. destruct (Ascii.eqb_spec c d) as [->|]; [congruence|done]. }
  destruct z as [|p|p].
  - cbn. destruct (Ascii.eqb_spec c "0") as [->|]; done.
  - apply HN.
  - change (contains c ("-" +:+ pretty (N.pos p)) = false). rewrite contains_app, HN. cbn.
    by destruct (Ascii.eqb_spec c "-") as [->|].
Qed.

(** [int(str(n))] is [n]. *)
Lemma pretty_N_char_value x : Z.of_nat (chr (pretty_N_char (x `mod` 10)) - 48) = Z.of_N (x `mod` 10).
Proof.
  pose proof (N.mod_lt x 10 ltac:(lia)). destruct (x `mod` 10)%N as [|p]; [done|].
  do 4 (destruct p as [p|p|]; try done; try lia).
Qed.

Lemma int_digits_go x b s : int_digits 0 b (pretty_N_go x s) = int_digits (Z.of_N x) (b || negb (N.eqb x 0)) s.
Proof.
  revert b s. induction (N.lt_wf_0 x) as [x _ IH]. intros b s. destruct (decide (x = 0%N)) as [->|Hx].
  { by rewrite pretty_N_go_0, orb_false_r. }
  rewrite pretty_N_go_step by lia. rewrite IH by (apply N.div_lt; lia). cbn [int_digits].
  rewrite pretty_N_char_digit. rewrite (proj2 (N.eqb_neq x 0)) by done. rewrite orb_true_r. f_equal.
  rewrite pretty_N_char_value, N2Z.inj_div, N2Z.inj_mod. pose proof (Z.div_mod (Z.of_N x) 10 ltac:(lia)). lia.
Qed.

Lemma digits_from_go x s : digits_from 0 (pretty_N_go x s) = digits_from (Z.of_N x) s.
Proof.
  revert s. induction (N.lt_wf_0 x) as [x _ IH]. intros s. destruct (decide (x = 0%N)) as [->|Hx]; [by rewrite pretty_N_go_0|].
  rewrite pretty_N_go_step by lia. rewrite IH by (apply N.div_lt; lia). cbn [digits_from]. f_equal.
  rewrite pretty_N_char_value, N2Z.inj_div, N2Z.inj_mod. pose proof (Z.div_mod (Z.of_N x) 10 ltac:(lia)). lia.
Qed.

(** A positive number is written with digits, at most [k] below [10 ^ k], and no leading zero. *)
Lemma pretty_go_length k x s : (x < 10 ^ N.of_nat k)%N -> (slen (pretty_N_go x s) <= k + slen s)%nat.
Proof.
  revert x s. induction k as [|k IH]; intros x s Hx.
  { assert (x = 0%N) as -> by (cbn in Hx; lia). by rewrite pretty_N_go_0. }
  destruct (decide (x = 0%N)) as [->|Hne]; [rewrite pretty_N_go_0; lia|]. rewrite pretty_N_go_step by lia.
  rewrite Nat2N.inj_succ, N.pow_succ_r in Hx by lia. etransitivity; [apply IH; apply N.Div0.div_lt_upper_bound; lia|]. cbn. lia.
Qed.

Lemma pretty_go_leading x s : (0 < x)%N -> starts_with "0" (pretty_N_go x s) = false.
Proof.
  revert s. induction (N.lt_wf_0 x) as [x _ IH]. intros s Hx. rewrite pretty_N_go_step by lia.
  destruct (decide (x `div` 10 = 0)%N) as [E|Hne]; [|apply IH; [apply N.div_lt; lia|by apply N.neq_0_lt_0]].
  rewrite E, pretty_N_go_0. cbn. rewrite andb_true_r. pose proof (N.div_mod x 10 ltac:(lia)) as Hd. rewrite E in Hd.
  pose proof (N.mod_lt x 10 ltac:(lia)). destruct (x `mod` 10)%N as [|p]; [lia|]. do 4 (destruct p as [p|p|]; try done; try lia).
Qed.

Lemma pretty_Z_pos p : pretty (Z.pos p) = pretty_N_go (N.pos p) EmptyString.
Proof. change (pretty (Z.pos p)) with (pretty (N.pos p)). unfold pretty, pretty_N. by destruct (decide _). Qed.

Lemma decimal_pretty z : 0 < z -> decimal (pretty z) = z.
Proof. destruct z as [|p|p]; [lia| |lia]. intros _. rewrite pretty_Z_pos. apply digits_from_go. Qed.

Lemma pretty_pos_digits z : 0 < z -> sforall is_digit (pretty z) = true /\ is_empty (pretty z) = false.
Proof.
  destruct z as [|p|p]; [lia| |lia]. intros _. split.
  - change (pretty (Z.pos p)) with (pretty (N.pos p)). by apply pretty_N_forall.
  - pose proof (decimal_pretty (Z.pos p) ltac:(lia)) as H. by destruct (pretty (Z.pos p)).
Qed.

Lemma lstrip_none f s : sforall (fun c => negb (f c)) s = true -> lstrip f s = s.
Proof. destruct s as [|c s]; cbn; [done|]. intros [H _]%andb_true_iff. apply negb_true_iff in H. by rewrite H. Qed.

Lemma rstrip_none f s : sforall (fun c => negb (f c)) s = true -> rstrip f s = s.
Proof.
  induction s as [|c s IH]; cbn; [done|]. intros [H Hs]%andb_true_iff. apply negb_true_iff in H. rewrite IH by done.
  destruct s; [by rewrite H|done].
Qed.

Lemma pretty_N_nonspace (n : N) : sforall (fun c => negb (is_space c)) (pretty n) = true.
Proof.
  apply pretty_N_forall. intros c Hc. unfold is_digit, is_space in *. apply andb_true_iff in Hc as [H1 H2].
  apply Nat.leb_le in H1, H2. rewrite !(proj2 (Nat.eqb_neq _ _)) by lia.
  rewrite (proj2 (Nat.leb_gt (chr c) 13)), (proj2 (Nat.leb_gt (chr c) 32)) by lia. by rewrite !andb_false_r.
Qed.

Lemma strip_pretty (n : N) : strip (pretty n) = pretty n.
Proof. unfold strip. by rewrite lstrip_none, rstrip_none by apply pretty_N_nonspace. Qed.

Lemma insert_str_perm s l : insert_str s l ≡ₚ s :: l.
Proof. induction l as [|t l IH]; cbn; [done|]. destruct (String.leb s t); [done|]. rewrite IH. constructor. Qed.
Lemma sorted_strs_perm l : sorted_strs l ≡ₚ l.
Proof. induction l as [|s l IH]; cbn; [done|]. by rewrite insert_str_perm, IH. Qed.
