(* ===== verification/Program.v ===== *)
(** * Programs that await

    A coroutine is a tree of what it awaits: it returns, raises, or asks a question
    and goes on with the answer.  [run] answers from an environment that may depend on
    everything that happened before, and records what happened; a coroutine that is
    interrupted has done a prefix of such a run.  [wp] is its weakest precondition: what
    holds of every question, of the value returned and of the exception raised, whatever
    is answered. *)

From S2P Require Import Prelude.

Section Program.
Context {Q : Type} {R : Q -> Type} {E : Type}.

Inductive prog (A : Type) : Type :=
| Ret (a : A)
| Throw (e : E)
| Ask (q : Q) (k : R q -> prog A).
Arguments Ret {A} _.
Arguments Throw {A} _.
Arguments Ask {A} _ _.

Fixpoint bind {A B : Type} (p : prog A) (f : A -> prog B) : prog B :=
  match p with
  | Ret a => f a
  | Throw e => Throw e
  | Ask q k => Ask q (fun r => bind (k r) f)
  end.

Definition ask (q : Q) : prog (R q) := Ask q Ret.

(** A question with its answer. *)
Inductive happened := Did (q : Q) (r : R q).

Fixpoint run {A : Type} (env : list happened -> forall q, R q) (h : list happened) (p : prog A) : outcome A E * list happened :=
  match p with
  | Ret a => (Ok a, h)
  | Throw e => (Raise e, h)
  | Ask q k => let r := env h q in run env (h ++ [Did q r]) (k r)
  end.

(** [wp P X Y p h]: after the history [h] every question of [p] satisfies [P], the value
    it returns [X] and the exception it raises [Y], each of the history at that point. *)
Fixpoint wp {A : Type} (P : list happened -> Q -> Prop) (X : A -> list happened -> Prop) (Y : E -> list happened -> Prop)
    (p : prog A) (h : list happened) : Prop :=
  match p with
  | Ret a => X a h
  | Throw e => Y e h
  | Ask q k => P h q /\ forall r, wp P X Y (k r) (h ++ [Did q r])
  end.

Lemma wp_then_bind {A B} P (X : B -> list happened -> Prop) Y (p : prog A) (f : A -> prog B) h :
  wp P (fun a h => wp P X Y (f a) h) Y p h -> wp P X Y (bind p f) h.
Proof. revert h. induction p as [a|e|q k IH]; intros h H; cbn in *; [done|done|]. destruct H as [H1 H2]. split; [done|]. intros r. by apply IH. Qed.

Lemma wp_conseq {A} P (X X' : A -> list happened -> Prop) (Y Y' : E -> list happened -> Prop) (p : prog A) h :
  (forall a h', X a h' -> X' a h') -> (forall e h', Y e h' -> Y' e h') -> wp P X Y p h -> wp P X' Y' p h.
Proof.
  intros HX HY. revert h. induction p as [a|e|q k IH]; intros h H; cbn in *; [auto|auto|]. destruct H as [H1 H2]. split; [done|]. intros r. by apply IH.
Qed.

Lemma wp_ask P q (X : R q -> list happened -> Prop) (Y : E -> list happened -> Prop) h : P h q -> (forall r, X r (h ++ [Did q r])) -> wp P X Y (ask q) h.
Proof. by split. Qed.

(** A run satisfies what the weakest precondition promises. *)
Lemma wp_exec {A} P (X : A -> list happened -> Prop) Y env (p : prog A) h : wp P X Y p h ->
  exists t, snd (run env h p) = h ++ t /\
    (forall i q r, t !! i = Some (Did q r) -> P (h ++ take i t) q) /\
    match fst (run env h p) with Ok a => X a (h ++ t) | Raise e => Y e (h ++ t) end.
Proof.
  revert h. induction p as [a|e|q k IH]; intros h H; cbn [run wp] in *.
  - exists []. rewrite app_nil_r. by split_and!.
  - exists []. rewrite app_nil_r. by split_and!.
  - destruct H as [H1 H2]. destruct (IH (env h q) _ (H2 (env h q))) as (t & E1 & E2 & E3).
    exists (Did q (env h q) :: t). rewrite <- app_assoc in E1, E3. split_and!; [done| |done].
    intros [|i] q' r' Hi; cbn in *; [simplify_eq; by rewrite app_nil_r|].
    specialize (E2 i q' r' Hi). by rewrite <- app_assoc in E2.
Qed.

(** Every question of a run from the beginning. *)
Lemma wp_trace {A} P (X : A -> list happened -> Prop) Y env (p : prog A) i q r : wp P X Y p [] ->
  snd (run env [] p) !! i = Some (Did q r) -> P (take i (snd (run env [] p))) q.
Proof. intros H Hi. destruct (wp_exec P X Y env p [] H) as (t & E1 & E2 & _). rewrite E1 in *. exact (E2 i q r Hi). Qed.

Lemma wp_result {A} P (X : A -> list happened -> Prop) Y env (p : prog A) : wp P X Y p [] ->
  match fst (run env [] p) with Ok a => X a (snd (run env [] p)) | Raise e => Y e (snd (run env [] p)) end.
Proof. intros H. destruct (wp_exec P X Y env p [] H) as (t & E1 & _ & E3). rewrite E1. exact E3. Qed.

(** ** Along a summary of the history

    The same with [note] folding what happened into a summary: the obligations of a
    program speak of the summary, and its lemmas need no lists. *)

Context {S : Type} (note : S -> happened -> S).

Fixpoint swp {A : Type} (P : S -> Q -> Prop) (X : A -> S -> Prop) (Y : E -> S -> Prop) (p : prog A) (s : S) : Prop :=
  match p with
  | Ret a => X a s
  | Throw e => Y e s
  | Ask q k => P s q /\ forall r, swp P X Y (k r) (note s (Did q r))
  end.

Lemma swp_bind {A B} P (X : B -> S -> Prop) Y (p : prog A) (f : A -> prog B) s :
  swp P (fun a s => swp P X Y (f a) s) Y p s -> swp P X Y (bind p f) s.
Proof. revert s. induction p as [a|e|q k IH]; intros s H; cbn in *; [done|done|]. destruct H as [H1 H2]. split; [done|]. intros r. by apply IH. Qed.

Lemma swp_conseq {A} P (X X' : A -> S -> Prop) (Y : E -> S -> Prop) (p : prog A) s :
  (forall a s', X a s' -> X' a s') -> swp P X Y p s -> swp P X' Y p s.
Proof.
  intros HX. revert s. induction p as [a|e|q k IH]; intros s H; cbn in *; [auto|auto|]. destruct H as [H1 H2]. split; [done|]. intros r. by apply IH.
Qed.

Lemma swp_wp {A} P (X : A -> S -> Prop) Y (p : prog A) s0 h : swp P X Y p (foldl note s0 h) ->
  wp (fun h q => P (foldl note s0 h) q) (fun a h => X a (foldl note s0 h)) (fun e h => Y e (foldl note s0 h)) p h.
Proof.
  revert h. induction p as [a|e|q k IH]; intros h H; cbn in *; [done|done|]. destruct H as [H1 H2]. split; [done|].
  intros r. apply IH. rewrite foldl_app. apply H2.
Qed.

End Program.

Arguments prog {Q} R E A.
Arguments Ret {Q R E A} _.
Arguments Throw {Q R E A} _.
Arguments Ask {Q R E A} _ _.
Arguments happened {Q} R.

Declare Scope program_scope.
Notation "'await' x <- p ; q" := (bind p (fun x => q))
  (at level 100, x binder, p at next level, right associativity) : program_scope.
Notation "p ;; q" := (bind p (fun _ => q)) (at level 100, q at level 200, right associativity) : program_scope.
