(* ===== verification/CircuitBreaker.v ===== *)
(** * The circuit breaker ([src/common/circuit_breaker.py])

    [CircuitBreaker] is the object's state and [check], [record_success] and
    [record_failure] its three methods.  Every method body runs inside
    [async with self._lock] and holds no [await] of its own, so concurrent
    callers produce exactly the sequences of whole method calls that
    [run_calls] ranges over; [now] is what [time.monotonic()] returned to the
    call.

    The theorems: the state invariant; a closed breaker opens exactly when
    [failure_threshold] failures are recorded with no success in between; while
    the breaker is not closed, at most one caller is let through until an
    outcome is recorded, whatever the timing; a failed probe re-opens for a
    full cooldown; a probe whose caller never reports an outcome blocks every
    later caller. *)

From S2P Require Import Prelude.

Inductive CircuitBreakerState := CLOSED | OPEN | HALF_OPEN.

#[export] Instance CircuitBreakerState_eq_dec : EqDecision CircuitBreakerState.
Proof. solve_decision. Defined.

(** [CircuitOpenError]: raised to fast-fail a request; the constructor tells
    which of the two [raise] statements of [check] it comes from. *)
Inductive CircuitOpenError :=
| CircuitIsOpen (remaining : usec)
| ProbeInProgress.

(** [CircuitOpenError.status_code]. *)
Definition CircuitOpenError_status_code : Z := 503.

Record CircuitBreaker := mkBreaker {
  failure_threshold : Z;
  cooldown : usec;
  state : CircuitBreakerState;
  consecutive_failures : Z;
  last_failure_time : usec;
  probe_in_progress : bool
}.

(** [CircuitBreaker.__init__]. *)
Definition init (threshold : Z) (cool : usec) : CircuitBreaker :=
  mkBreaker threshold cool CLOSED 0 0 false.

Definition set_state (cb : CircuitBreaker) (st : CircuitBreakerState)
    (probe : bool) : CircuitBreaker :=
  mkBreaker (failure_threshold cb) (cooldown cb) st
    (consecutive_failures cb) (last_failure_time cb) probe.

(** The [HALF_OPEN] block of [check], which the [OPEN] block falls through to. *)
Definition check_half_open (cb : CircuitBreaker)
    : CircuitBreaker * outcome unit CircuitOpenError :=
  if probe_in_progress cb then (cb, Raise ProbeInProgress)
  else (set_state cb HALF_OPEN true, Ok tt).

(** [CircuitBreaker.check]. *)
Definition check (now : usec) (cb : CircuitBreaker)
    : CircuitBreaker * outcome unit CircuitOpenError :=
  match state cb with
  | CLOSED => (cb, Ok tt)
  | OPEN =>
      let elapsed := now - last_failure_time cb in
      if cooldown cb <=? elapsed
      then check_half_open (set_state cb HALF_OPEN false)
      else (cb, Raise (CircuitIsOpen (cooldown cb - elapsed)))
  | HALF_OPEN => check_half_open cb
  end.

(** [CircuitBreaker.record_success]. *)
Definition record_success (cb : CircuitBreaker) : CircuitBreaker :=
  match state cb with
  | HALF_OPEN =>
      mkBreaker (failure_threshold cb) (cooldown cb) CLOSED 0
        (last_failure_time cb) false
  | CLOSED =>
      mkBreaker (failure_threshold cb) (cooldown cb) CLOSED 0
        (last_failure_time cb) (probe_in_progress cb)
  | OPEN => cb
  end.

(** [CircuitBreaker.record_failure]. *)
Definition record_failure (now : usec) (cb : CircuitBreaker) : CircuitBreaker :=
  let n := consecutive_failures cb + 1 in
  let counted := mkBreaker (failure_threshold cb) (cooldown cb) (state cb) n now
                   (probe_in_progress cb) in
  match state cb with
  | HALF_OPEN => set_state counted OPEN false
  | CLOSED =>
      if failure_threshold cb <=? n
      then set_state counted OPEN (probe_in_progress cb)
      else counted
  | OPEN => counted
  end.

(** ** Calls and runs *)

Inductive call :=
| Check (now : usec)
| Success
| Failure (now : usec).

Definition apply_call (cb : CircuitBreaker) (c : call) : CircuitBreaker :=
  match c with
  | Check now => fst (check now cb)
  | Success => record_success cb
  | Failure now => record_failure now cb
  end.

Definition run_calls : CircuitBreaker -> list call -> CircuitBreaker :=
  run_ops apply_call.

(** Whether a call is a [check] that lets its caller through. *)
Definition admits (cb : CircuitBreaker) (c : call) : bool :=
  match c with Check now => is_ok (snd (check now cb)) | _ => false end.

(** How many callers a run lets through. *)
Fixpoint admitted (cb : CircuitBreaker) (cs : list call) : Z :=
  match cs with
  | [] => 0
  | c :: cs => (if admits cb c then 1 else 0) + admitted (apply_call cb c) cs
  end.

Definition is_check (c : call) : bool :=
  match c with Check _ => true | _ => false end.

(** ** The invariant *)

Definition wf (cb : CircuitBreaker) : Prop :=
  0 <= consecutive_failures cb /\
  match state cb with
  | CLOSED => consecutive_failures cb < Z.max 1 (failure_threshold cb)
              /\ probe_in_progress cb = false
  | OPEN => failure_threshold cb <= consecutive_failures cb
            /\ 1 <= consecutive_failures cb /\ probe_in_progress cb = false
  | HALF_OPEN => failure_threshold cb <= consecutive_failures cb
                 /\ 1 <= consecutive_failures cb /\ probe_in_progress cb = true
  end.

Lemma wf_init t c : wf (init t c).
Proof. unfold wf, init; cbn. lia. Qed.

Lemma wf_apply cb c : wf cb -> wf (apply_call cb c).
Proof.
  destruct cb as [t c0 [] n l p]; destruct c as [now| |now];
    unfold wf, apply_call, check, check_half_open, record_success,
      record_failure, set_state; cbn; intros H; destruct_and!; simplify_eq;
    repeat (case_match; cbn in *); bool_to_prop; split_and!; first [done|lia].
Qed.

#[export] Hint Resolve wf_init wf_apply : grok.

Lemma apply_call_config cb c :
  failure_threshold (apply_call cb c) = failure_threshold cb /\
  cooldown (apply_call cb c) = cooldown cb.
Proof.
  destruct cb as [t c0 [] n l p]; destruct c as [now| |now];
    unfold apply_call, check, check_half_open, record_success, record_failure,
      set_state; cbn; repeat (case_match; cbn); done.
Qed.

(** In every run of checks and recorded outcomes from a fresh breaker, in
    any order and at any times, the breaker keeps its configuration and its
    state is consistent: closed with fewer consecutive failures than the
    threshold and no probe, or open with at least the threshold and no probe,
    or half-open with exactly one probe outstanding. *)
Theorem breaker_invariant t c cs :
  wf (run_calls (init t c) cs) /\
  failure_threshold (run_calls (init t c) cs) = t /\
  cooldown (run_calls (init t c) cs) = c.
Proof.
  split_and!; unfold run_calls.
  - apply run_ops_invariant; eauto with grok.
  - apply (run_ops_invariant _ (fun cb => failure_threshold cb = t)); [done|].
    intros s o <-. apply apply_call_config.
  - apply (run_ops_invariant _ (fun cb => cooldown cb = c)); [done|].
    intros s o <-. apply apply_call_config.
Qed.

(** ** Opening *)

(** The outcomes recorded while the breaker lets requests through. *)
Definition outcome_call (o : bool * usec) : call :=
  if fst o then Success else Failure (snd o).

(** [k] failures in a row somewhere in the outcomes; [n] failures were already
    counted when the list starts. *)
Fixpoint has_run (k n : Z) (os : list bool) : bool :=
  match os with
  | [] => false
  | true :: os => has_run k 0 os
  | false :: os => (k <=? n + 1) || has_run k (n + 1) os
  end.

Lemma open_stays_open cb os :
  state cb = OPEN -> state (run_calls cb (outcome_call <$> os)) = OPEN.
Proof.
  revert cb; induction os as [|[[] now] os IH]; intros cb H; cbn; auto.
  - apply IH. unfold record_success. by rewrite H.
  - apply IH. unfold record_failure. by rewrite H.
Qed.

Lemma closed_outcomes t c n l p os :
  state (run_calls (mkBreaker t c CLOSED n l p) (outcome_call <$> os)) =
  if has_run t n (fst <$> os) then OPEN else CLOSED.
Proof.
  revert n l; induction os as [|[[] now] os IH]; intros n l; cbn; [done|apply IH|].
  unfold record_failure; cbn. destruct (t <=? n + 1); cbn; [|apply IH].
  by apply open_stays_open.
Qed.

(** Starting closed, a breaker that sees any sequence of recorded outcomes
    ends open exactly when the sequence contains [failure_threshold] failures
    with no success between them, and closed otherwise. *)
Theorem opens_iff_threshold_run t c os :
  state (run_calls (init t c) (outcome_call <$> os)) =
  if has_run t 0 (fst <$> os) then OPEN else CLOSED.
Proof. apply closed_outcomes. Qed.

(** ** The probe *)

Lemma probe_blocks cb now :
  state cb = HALF_OPEN -> probe_in_progress cb = true ->
  check now cb = (cb, Raise ProbeInProgress).
Proof. intros Hs Hp. unfold check, check_half_open. by rewrite Hs, Hp. Qed.

Lemma probe_blocks_all cb nows :
  state cb = HALF_OPEN -> probe_in_progress cb = true ->
  admitted cb (Check <$> nows) = 0 /\ run_calls cb (Check <$> nows) = cb.
Proof.
  intros Hs Hp. induction nows as [|now nows [IH1 IH2]]; [done|].
  cbn. rewrite probe_blocks by done. cbn. by rewrite IH1.
Qed.

Lemma check_not_closed cb now :
  state cb <> CLOSED ->
  match snd (check now cb) with
  | Ok _ => state (fst (check now cb)) = HALF_OPEN /\
            probe_in_progress (fst (check now cb)) = true
  | Raise _ => fst (check now cb) = cb
  end.
Proof.
  intros Hs. destruct cb as [t c [] n l p]; cbn in *; [done| |];
    unfold check, check_half_open, set_state; cbn;
    repeat (case_match; cbn in *); simplify_eq; done.
Qed.

Lemma check_after_cooldown cb now :
  state cb = OPEN -> cooldown cb <= now - last_failure_time cb ->
  snd (check now cb) = Ok tt /\ state (fst (check now cb)) = HALF_OPEN /\
  probe_in_progress (fst (check now cb)) = true.
Proof.
  intros Hs Hel. unfold check, check_half_open. rewrite Hs.
  by rewrite (proj2 (Z.leb_le _ _) Hel).
Qed.

(** While the breaker is open or half-open, at most one of any number of
    concurrent callers is let through before an outcome is recorded, whatever
    times their checks read. *)
Theorem at_most_one_probe cb nows :
  state cb <> CLOSED -> 0 <= admitted cb (Check <$> nows) <= 1.
Proof.
  revert cb; induction nows as [|now nows IH]; intros cb Hs; [cbn; lia|].
  cbn. pose proof (check_not_closed cb now Hs) as Hc. unfold admits, apply_call.
  destruct (snd (check now cb)) eqn:E; cbn.
  - destruct Hc as [H1 H2]. destruct (probe_blocks_all _ nows H1 H2) as [-> _]. lia.
  - rewrite Hc. apply IH, Hs.
Qed.

Lemma at_most_one_probe_witness :
  let cb := run_calls (init 2 (sec 30)) [Failure 0; Failure 1] in
  state cb <> CLOSED /\
  0 <= admitted cb (Check <$> [5; sec 31; sec 31; sec 99]) <= 1.
Proof.
  intros cb. split; [by vm_compute|].
  apply (at_most_one_probe cb). by vm_compute.
Defined.

(** After the failure that opened the breaker, a check fast-fails (and
    changes nothing) until the cooldown has elapsed, and the first check after
    it is let through as the probe; a failing probe re-opens the breaker for a
    full cooldown from that failure and a succeeding one closes it with the
    counter reset. *)
Theorem open_cooldown_and_probe cb now :
  state cb = OPEN ->
  (now - last_failure_time cb < cooldown cb ->
     check now cb = (cb, Raise (CircuitIsOpen (cooldown cb - (now - last_failure_time cb))))) /\
  (cooldown cb <= now - last_failure_time cb ->
     snd (check now cb) = Ok tt /\
     state (fst (check now cb)) = HALF_OPEN /\
     (forall later, let failed := record_failure later (fst (check now cb)) in
        state failed = OPEN /\ last_failure_time failed = later /\
        (forall t, t - later < cooldown cb -> is_ok (snd (check t failed)) = false)) /\
     (let closed := record_success (fst (check now cb)) in
        state closed = CLOSED /\ consecutive_failures closed = 0)).
Proof.
  intros Hs. destruct cb as [t c st n l p]; cbn in *; subst st. split; intros Hel.
  - unfold check; cbn. by rewrite (proj2 (Z.leb_gt _ _)) by lia.
  - unfold check, check_half_open; cbn. rewrite (proj2 (Z.leb_le _ _)) by lia. cbn.
    split_and!; try done. intros later. split_and!; try done. intros t' Ht.
    unfold record_failure, set_state; cbn. by rewrite (proj2 (Z.leb_gt _ _)) by lia.
Qed.

Lemma open_cooldown_and_probe_witness :
  let cb := run_calls (init 1 (sec 30)) [Failure 7] in
  state cb = OPEN /\ snd (check (sec 31) cb) = Ok tt.
Proof.
  intros cb. split; [reflexivity|].
  refine (proj1 (proj2 (open_cooldown_and_probe cb (sec 31) _) _));
    [reflexivity|vm_compute; discriminate].
Defined.

(** If the caller that was let through as the probe never records an
    outcome (for example because it was cancelled), no later check is ever let
    through and the breaker never changes state, however much time passes:
    only a recorded outcome leaves this state. *)
Theorem lost_probe_blocks_forever cb now nows :
  state cb = OPEN -> cooldown cb <= now - last_failure_time cb ->
  let probing := fst (check now cb) in
  admitted probing (Check <$> nows) = 0 /\
  run_calls probing (Check <$> nows) = probing.
Proof.
  intros Hs Hel probing.
  destruct (check_after_cooldown cb now Hs Hel) as (_ & H1 & H2).
  by apply probe_blocks_all.
Qed.

Lemma lost_probe_blocks_forever_witness :
  let cb := run_calls (init 1 (sec 30)) [Failure 7] in
  admitted (fst (check (sec 31) cb)) (Check <$> [sec 32; sec 3200; sec 320000]) = 0.
Proof.
  intros cb. refine (proj1 (lost_probe_blocks_forever cb (sec 31) _ _ _));
    [reflexivity|vm_compute; discriminate].
Defined.
