(* ===== verification/Admission.v ===== *)
(** * Weighted admission control ([src/common/admission.py])

    [ClassState] is the controller's state for one resource class (its budget,
    the active weight, the FIFO queue of waiters) together with the futures the
    waiters share with the coroutines that await them: a waiter refers to its
    future by the task's identifier, so [drain] resolving it is what the
    awaiting task later sees.  [AdmissionController] holds one such state per
    class name.

    Second, the tasks.  [acquire] is split where it awaits: [acquire_sync] is
    the code up to the [await], [resume] the code after it.  A cancellation or
    an expired [asyncio.wait_for] reaches a waiting task in two moments, as in
    asyncio: [Interrupt] marks the task and cancels its future if it is still
    pending, and [Resume] runs the matching [except] clause; a future that
    [drain] had already resolved stays resolved.  Runs are arbitrary sequences
    of these events.

    The theorems: the weight of the tasks inside [resource] never exceeds the
    budget and the active counter is exactly what was charged; [drain] grants in
    FIFO order as far as the budget goes; the queue stays bounded; and two races
    that lose budget or wake-ups. *)

From S2P Require Import Prelude.

(** ** One resource class *)

Inductive Future := FPending | FDone | FCancelled.

Definition fut_done (f : option Future) : bool :=
  match f with Some FDone | Some FCancelled => true | _ => false end.

Record Waiter := mkWaiter { wid : nat; weight : Z }.

#[export] Instance Waiter_eq_dec : EqDecision Waiter.
Proof. solve_decision. Defined.

Record ClassState := mkClass {
  limit : Z;
  queue_capacity : Z;
  active : Z;
  queue : list Waiter;
  futs : gmap nat Future
}.

Definition set_active (c : ClassState) (a : Z) : ClassState :=
  mkClass (limit c) (queue_capacity c) a (queue c) (futs c).

Definition set_futs (c : ClassState) (f : gmap nat Future) : ClassState :=
  mkClass (limit c) (queue_capacity c) (active c) (queue c) f.

Inductive AdmissionRejected := WeightExceedsBudget | QueueFull | WaitTimedOut.

(** What the synchronous part of [acquire] ends in: the call returns, raises,
    or awaits its own waiter's future. *)
Inductive AcquireResult :=
| Acquired
| Rejected (e : AdmissionRejected)
| Await.

(** [AdmissionController.acquire] up to the await, for a known class and a
    positive weight; [me] identifies the caller's future. *)
Definition acquire_sync (c : ClassState) (me : nat) (w : Z)
    : ClassState * AcquireResult :=
  if limit c =? 0 then (set_active c (active c + w), Acquired)
  else if limit c <? w then (c, Rejected WeightExceedsBudget)
  else if match queue c with [] => active c + w <=? limit c | _ => false end
  then (set_active c (active c + w), Acquired)
  else if queue_capacity c <=? Z.of_nat (length (queue c))
  then (c, Rejected QueueFull)
  else (mkClass (limit c) (queue_capacity c) (active c)
          (queue c ++ [mkWaiter me w]) (<[me := FPending]> (futs c)), Await).

(** The loop of [_drain]. *)
Fixpoint drain_loop (lim act : Z) (q : list Waiter) (f : gmap nat Future)
    : Z * list Waiter * gmap nat Future :=
  match q with
  | [] => (act, [], f)
  | x :: q' =>
      if fut_done (f !! wid x) then drain_loop lim act q' f
      else if lim <? act + weight x then (act, q, f)
      else drain_loop lim (act + weight x) q' (<[wid x := FDone]> f)
  end.

(** [AdmissionController._drain]. *)
Definition drain (c : ClassState) : ClassState :=
  let '(a, q, f) := drain_loop (limit c) (active c) (queue c) (futs c) in
  mkClass (limit c) (queue_capacity c) a q f.

(** [AdmissionController._drop_waiter]: [deque.remove] of the first equal
    waiter, if it is there. *)
Fixpoint remove_first (x : Waiter) (q : list Waiter) : list Waiter :=
  match q with
  | [] => []
  | y :: q => if decide (x = y) then q else y :: remove_first x q
  end.

Definition drop_waiter (c : ClassState) (x : Waiter) : ClassState :=
  mkClass (limit c) (queue_capacity c) (active c) (remove_first x (queue c)) (futs c).

(** [AdmissionController.release], for a known class. *)
Definition release (c : ClassState) (w : Z) : ClassState :=
  if w <=? 0 then c else drain (set_active c (Z.max 0 (active c - w))).

(** The [except TimeoutError] clause of [acquire]. *)
Definition on_timeout (c : ClassState) (x : Waiter) : ClassState := drop_waiter c x.

(** The [except asyncio.CancelledError] clause of [acquire]. *)
Definition on_cancelled (c : ClassState) (x : Waiter) : ClassState :=
  let c' := match futs c !! wid x with
            | Some FDone => set_active c (active c - weight x)
            | _ => c
            end in
  drop_waiter c' x.

(** ** The controller *)

Definition RESOURCE_CLASSES : list string := ["lightweight_fetch"; "browser"; "llm"].

(** [DEFAULT_WEIGHTS] and [weight_for]. *)
Definition DEFAULT_WEIGHTS : gmap string Z :=
  <["lightweight_fetch" := 1]> (<["llm" := 4]> (<["browser" := 8]> ∅)).

Definition weight_for (weights : gmap string Z) (rc : string) : Z :=
  default 1 (weights !! rc).

Definition DEFAULT_QUEUE_CAPACITY : Z := 100.

Abbreviation AdmissionController := (gmap string ClassState).

(** [AdmissionController.__init__]. *)
Definition controller_init (limits : gmap string Z) (capacity : Z) : AdmissionController :=
  list_to_map ((fun c => (c, mkClass (Z.max 0 (default 0 (limits !! c))) capacity 0 [] ∅))
                 <$> RESOURCE_CLASSES).

(** [budget_for], [active] and [queue_depth] of a class, 0 for unknown ones. *)
Definition budget_for (k : AdmissionController) (rc : string) : Z :=
  from_option limit 0 (k !! rc).
Definition active_of (k : AdmissionController) (rc : string) : Z :=
  from_option active 0 (k !! rc).
Definition queue_depth (k : AdmissionController) (rc : string) : Z :=
  from_option (fun c => Z.of_nat (length (queue c))) 0 (k !! rc).

Inductive AcquireError := UnknownClass | WeightNotPositive.

(** [acquire]'s argument checks, then its synchronous part. *)
Definition acquire (k : AdmissionController) (rc : string) (me : nat) (w : Z)
    : outcome (AdmissionController * AcquireResult) AcquireError :=
  match k !! rc with
  | None => Raise UnknownClass
  | Some c =>
      if w <=? 0 then Raise WeightNotPositive
      else let '(c', r) := acquire_sync c me w in Ok (<[rc := c']> k, r)
  end.

(** [release] by class name. *)
Definition release_class (k : AdmissionController) (rc : string) (w : Z)
    : AdmissionController :=
  match k !! rc with None => k | Some c => <[rc := release c w]> k end.

(** ** Tasks *)

Inductive interrupt := ByTimer | ByCancel.

(** A task is waiting in [acquire], inside the body of [resource], or over;
    [Over] keeps the weight the controller still counts for it. *)
Inductive Task :=
| Waiting (w : Z) (has_timeout : bool) (intr : option interrupt)
| Holding (w : Z)
| Over (still_charged : Z).

Record Sys := mkSys { cls : ClassState; tasks : gmap nat Task; next : nat }.

Inductive event :=
| Start (w : Z) (has_timeout : bool)   (* a task enters [resource] *)
| Interrupt (t : nat) (k : interrupt)  (* a timer fires, or the task is cancelled *)
| Resume (t : nat)                     (* the loop runs the awaiting task *)
| Finish (t : nat).                    (* the body of [resource] ends *)

Definition start (s : Sys) (w : Z) (ht : bool) : Sys :=
  if w <=? 0 then s else
  let '(c, r) := acquire_sync (cls s) (next s) w in
  let t := match r with
           | Acquired => Holding w
           | Rejected _ => Over 0
           | Await => Waiting w ht None
           end in
  mkSys c (<[next s := t]> (tasks s)) (S (next s)).

Definition interrupt_task (s : Sys) (t : nat) (k : interrupt) : Sys :=
  match tasks s !! t with
  | Some (Waiting w ht None) =>
      if match k with ByTimer => ht | ByCancel => true end then
        let f := match futs (cls s) !! t with
                 | Some FPending => <[t := FCancelled]> (futs (cls s))
                 | _ => futs (cls s)
                 end in
        mkSys (set_futs (cls s) f) (<[t := Waiting w ht (Some k)]> (tasks s)) (next s)
      else s
  | _ => s
  end.

(** What the controller still counts for a task. *)
Definition charge (f : gmap nat Future) (ts : gmap nat Task) (t : nat) : Z :=
  match ts !! t with
  | Some (Holding w) => w
  | Some (Waiting w _ _) => match f !! t with Some FDone => w | _ => 0 end
  | Some (Over w) => w
  | None => 0
  end.

(** [acquire] after its await. *)
Definition resume (s : Sys) (t : nat) : Sys :=
  match tasks s !! t with
  | Some (Waiting w ht (Some ByTimer)) =>
      mkSys (on_timeout (cls s) (mkWaiter t w))
        (<[t := Over (charge (futs (cls s)) (tasks s) t)]> (tasks s)) (next s)
  | Some (Waiting w ht (Some ByCancel)) =>
      mkSys (on_cancelled (cls s) (mkWaiter t w)) (<[t := Over 0]> (tasks s)) (next s)
  | Some (Waiting w ht None) =>
      match futs (cls s) !! t with
      | Some FDone => mkSys (cls s) (<[t := Holding w]> (tasks s)) (next s)
      | _ => s
      end
  | _ => s
  end.

Definition finish (s : Sys) (t : nat) : Sys :=
  match tasks s !! t with
  | Some (Holding w) =>
      mkSys (release (cls s) w) (<[t := Over 0]> (tasks s)) (next s)
  | _ => s
  end.

Definition sys_step (s : Sys) (e : event) : Sys :=
  match e with
  | Start w ht => start s w ht
  | Interrupt t k => interrupt_task s t k
  | Resume t => resume s t
  | Finish t => finish s t
  end.

Definition sys_init (lim cap : Z) : Sys :=
  mkSys (mkClass (Z.max 0 lim) cap 0 [] ∅) ∅ 0.

Definition run (lim cap : Z) (es : list event) : Sys :=
  run_ops sys_step (sys_init lim cap) es.

(** The weight of the tasks inside the body of [resource]. *)
Definition held (s : Sys) : Z :=
  total (fun t => match tasks s !! t with Some (Holding w) => w | _ => 0 end) (next s).

Definition charged (s : Sys) : Z := total (charge (futs (cls s)) (tasks s)) (next s).
Arguments charged : simpl never.
Arguments charge : simpl never.

(** ** The invariant *)

Record waiter_ok (f : gmap nat Future) (ts : gmap nat Task) (x : Waiter) : Prop := {
  waiter_task : exists ht k, ts !! wid x = Some (Waiting (weight x) ht k);
  waiter_fut : f !! wid x <> Some FDone
}.

Definition task_ok (t : Task) : Prop :=
  match t with Waiting w _ _ | Holding w => 0 < w | Over w => 0 <= w end.

Record inv (s : Sys) : Prop := {
  inv_fresh : forall t, (next s <= t)%nat -> tasks s !! t = None;
  inv_tasks : forall t x, tasks s !! t = Some x -> task_ok x;
  inv_queue : forall x, x ∈ queue (cls s) -> waiter_ok (futs (cls s)) (tasks s) x;
  inv_nodup : NoDup (wid <$> queue (cls s));
  inv_active : active (cls s) = charged s;
  inv_limit : 0 < limit (cls s) -> active (cls s) <= limit (cls s)
}.

Lemma charge_nonneg s : inv s -> forall t, 0 <= charge (futs (cls s)) (tasks s) t.
Proof.
  intros I t. unfold charge. destruct (tasks s !! t) as [x|] eqn:E; [|lia].
  pose proof (inv_tasks s I t x E) as H. destruct x; cbn in *; case_all; lia.
Qed.

Lemma task_lt_next s t x : inv s -> tasks s !! t = Some x -> (t < next s)%nat.
Proof.
  intros I Ht. destruct (decide (t < next s)%nat) as [|Hge]; [done|].
  rewrite (inv_fresh s I) in Ht by lia. done.
Qed.

Lemma charge_insert_futs f ts t k u :
  u <> t -> charge (<[t := k]> f) ts u = charge f ts u.
Proof. intros. unfold charge. by rewrite lookup_insert_ne by done. Qed.

Lemma charge_insert_tasks f ts t x u :
  u <> t -> charge f (<[t := x]> ts) u = charge f ts u.
Proof. intros. unfold charge. by rewrite lookup_insert_ne by done. Qed.

Lemma charge_granted f ts t w ht k :
  ts !! t = Some (Waiting w ht k) -> charge (<[t := FDone]> f) ts t = w.
Proof. intros Ht. unfold charge. by rewrite Ht, lookup_insert_eq. Qed.

Lemma charge_waiting f ts t w ht k :
  ts !! t = Some (Waiting w ht k) -> f !! t <> Some FDone -> charge f ts t = 0.
Proof. intros Ht Hf. unfold charge. rewrite Ht. by destruct (f !! t) as [[]|]. Qed.

(** What [drain] does to the accounting and to the queue. *)
Lemma drain_loop_spec lim ts n q : forall a f a' q' f',
  (forall x, x ∈ q -> waiter_ok f ts x /\ (wid x < n)%nat) ->
  NoDup (wid <$> q) ->
  drain_loop lim a q f = (a', q', f') ->
  a' - a = total (charge f' ts) n - total (charge f ts) n /\
  (a <= lim -> a' <= lim) /\
  suffix q' q /\
  (forall x, x ∈ q' -> waiter_ok f' ts x).
Proof.
  induction q as [|x q IH]; intros a f a' q' f' Hok Hnd Hd; cbn in Hd.
  - simplify_eq. split_and!; try lia; try done; set_solver.
  - apply NoDup_cons in Hnd as [Hx Hnd].
    assert (Hq : forall y, y ∈ q -> waiter_ok f ts y /\ (wid y < n)%nat)
      by (intros y Hy; apply Hok; set_solver).
    destruct (fut_done (f !! wid x)) eqn:Ef.
    + destruct (IH _ _ _ _ _ Hq Hnd Hd) as (H1 & H2 & H3 & H4).
      split_and!; eauto using suffix_cons_r.
    + destruct (lim <? a + weight x) eqn:Elim.
      { simplify_eq. split_and!; try lia; [done|].
        intros y Hy. by apply Hok. }
      destruct (Hok x) as [[(ht & k & Ht) Hf] Hn]; [set_solver|].
      apply IH in Hd as (H1 & H2 & H3 & H4); [| |done].
      * split_and!; [| |by apply suffix_cons_r|done].
        -- rewrite (total_update (charge f ts) (charge (<[wid x:=FDone]> f) ts) n (wid x))
             in H1 by (eauto using charge_insert_futs, eq_sym).
           rewrite (charge_granted _ _ _ _ _ _ Ht), (charge_waiting _ _ _ _ _ _ Ht Hf) in H1.
           lia.
        -- bool_to_prop. intros. apply H2. lia.
      * intros y Hy. destruct (Hq y Hy) as [[H1 H2] H3]. split; [|done].
        split; [done|]. rewrite lookup_insert_ne; [done|].
        intros Heq. apply Hx. rewrite Heq. by apply list_elem_of_fmap_2.
Qed.

Lemma remove_first_spec x q :
  remove_first x q `sublist_of` q /\ (NoDup q -> x ∉ remove_first x q).
Proof.
  induction q as [|y q [IH1 IH2]]; cbn.
  - split; [constructor|set_solver].
  - case_decide as E.
    + subst y. split; [by constructor|]. by intros [? _]%NoDup_cons.
    + split; [by constructor|]. intros [? ?]%NoDup_cons. set_solver.
Qed.

Lemma wid_unique q x y :
  NoDup (wid <$> q) -> x ∈ q -> y ∈ q -> wid x = wid y -> x = y.
Proof.
  induction q as [|z q IH]; cbn; intros Hnd Hx Hy Heq; [set_solver|].
  apply NoDup_cons in Hnd as [Hz Hnd].
  rewrite list_elem_of_fmap in Hz.
  apply elem_of_cons in Hx as [->|Hx]; apply elem_of_cons in Hy as [->|Hy];
    try done; try (by apply IH); exfalso; apply Hz; eauto.
Qed.

(** A step that rewrites the state of one existing task [t], to [x], with the
    futures [f] differing at [t] only. *)
Lemma charged_update s f x t c' :
  inv s -> (t < next s)%nat ->
  futs c' = f -> (forall u, u <> t -> f !! u = futs (cls s) !! u) ->
  charged (mkSys c' (<[t := x]> (tasks s)) (next s)) =
  charged s - charge (futs (cls s)) (tasks s) t + charge f (<[t := x]> (tasks s)) t.
Proof.
  intros I Ht <- Hf. unfold charged; cbn.
  rewrite (total_update (charge (futs (cls s)) (tasks s))
             (charge (futs c') (<[t:=x]> (tasks s))) (next s) t); [lia|done|].
  intros u Hu. rewrite charge_insert_tasks by done.
  unfold charge. by rewrite Hf.
Qed.

(** The parts of the invariant that do not mention the accounting, after such a
    step whose queue no longer holds [t]. *)
Lemma inv_rewrite_task s t x c' :
  inv s -> (t < next s)%nat -> task_ok x ->
  queue c' `sublist_of` queue (cls s) ->
  (forall y, y ∈ queue c' -> wid y <> t) ->
  (forall u, u <> t -> futs c' !! u = futs (cls s) !! u) ->
  limit c' = limit (cls s) ->
  active c' = charged (mkSys c' (<[t := x]> (tasks s)) (next s)) ->
  (active c' <= active (cls s)) ->
  inv (mkSys c' (<[t := x]> (tasks s)) (next s)).
Proof.
  intros I Ht Hx Hsub Hq Hf Hlim Hact Hle. split; cbn.
  - intros u Hu. rewrite lookup_insert_ne by lia. by apply (inv_fresh s I).
  - intros u y. destruct (decide (u = t)) as [->|]; [rewrite lookup_insert_eq; congruence|].
    rewrite lookup_insert_ne by done. apply (inv_tasks s I).
  - intros y Hy. pose proof (Hq y Hy) as Hne.
    destruct (inv_queue s I y) as [H1 H2]; [by eapply elem_of_sublist|].
    split; [by rewrite lookup_insert_ne|by rewrite Hf].
  - eapply sublist_NoDup; [exact (inv_nodup s I)|]. by apply fmap_sublist.
  - exact Hact.
  - rewrite Hlim. intros Hpos. pose proof (inv_limit s I Hpos). lia.
Qed.

Lemma drop_waiter_queue s t w :
  inv s -> tasks s !! t = Some (Waiting w true None) \/
           (exists ht k, tasks s !! t = Some (Waiting w ht k)) ->
  forall y, y ∈ remove_first (mkWaiter t w) (queue (cls s)) -> wid y <> t.
Proof.
  intros I Ht y Hy Heq.
  destruct (remove_first_spec (mkWaiter t w) (queue (cls s))) as [Hsub Hnot].
  assert (Hin : y ∈ queue (cls s))
    by (by eapply elem_of_sublist).
  destruct (inv_queue s I y Hin) as [(ht & k & Hy') _]. rewrite Heq in Hy'.
  assert (y = mkWaiter t w) as ->.
  { destruct y as [t' w']; cbn in *; subst t'. f_equal.
    destruct Ht as [Ht|(? & ? & Ht)]; congruence. }
  apply Hnot in Hy; [done|]. eapply NoDup_fmap_1, (inv_nodup s I).
Qed.

Lemma inv_drain s : inv s -> inv (mkSys (drain (cls s)) (tasks s) (next s)).
Proof.
  intros I. unfold drain.
  destruct (drain_loop _ _ _ _) as [[a q] f] eqn:E.
  eapply (drain_loop_spec _ (tasks s) (next s)) in E as (H1 & H2 & H3 & H4).
  - split; cbn.
    + apply (inv_fresh s I).
    + apply (inv_tasks s I).
    + done.
    + eapply sublist_NoDup; [exact (inv_nodup s I)|].
      by apply fmap_sublist, suffix_sublist.
    + pose proof (inv_active s I) as Ha. unfold charged in *. cbn. lia.
    + intros Hpos. apply H2, (inv_limit s I Hpos).
  - intros x Hx. pose proof (inv_queue s I x Hx) as Hok. split; [done|].
    destruct (waiter_task _ _ _ Hok) as (ht & k & Ht). by eapply task_lt_next.
  - exact (inv_nodup s I).
Qed.

Lemma inv_init lim cap : inv (sys_init lim cap).
Proof.
  split; cbn.
  - intros. apply lookup_empty.
  - intros t x. by rewrite lookup_empty.
  - set_solver.
  - constructor.
  - done.
  - lia.
Qed.

Lemma acquire_sync_cases c me w c' r :
  acquire_sync c me w = (c', r) ->
  match r with
  | Acquired => c' = set_active c (active c + w) /\
                (0 < limit c -> active c + w <= limit c)
  | Rejected _ => c' = c
  | Await => c' = mkClass (limit c) (queue_capacity c) (active c)
                    (queue c ++ [mkWaiter me w]) (<[me := FPending]> (futs c)) /\
             Z.of_nat (length (queue c)) < queue_capacity c
  end.
Proof.
  unfold acquire_sync. intros H.
  repeat (case_match; simplify_eq; bool_to_prop); split; try done; lia.
Qed.

Lemma inv_start s w ht : inv s -> inv (start s w ht).
Proof.
  intros I. unfold start. destruct (w <=? 0) eqn:Ew; [done|]. bool_to_prop.
  destruct (acquire_sync (cls s) (next s) w) as [c r] eqn:E.
  apply acquire_sync_cases in E.
  assert (Hq : forall y, y ∈ queue (cls s) -> wid y <> next s).
  { intros y Hy Heq. destruct (inv_queue s I y Hy) as [(? & ? & Hy') _].
    rewrite Heq, (inv_fresh s I) in Hy' by lia. done. }
  assert (Hold : forall f x, (forall u, u <> next s -> f !! u = futs (cls s) !! u) ->
            total (charge f (<[next s := x]> (tasks s))) (next s) = charged s).
  { intros f x Hf. apply total_ext. intros i Hi. rewrite charge_insert_tasks by lia.
    unfold charge. rewrite Hf by lia. done. }
  assert (Hfresh : forall x t, (S (next s) <= t)%nat -> <[next s := x]> (tasks s) !! t = None).
  { intros x t Ht. rewrite lookup_insert_ne by lia. apply (inv_fresh s I). lia. }
  assert (Hok : forall x t y, task_ok x -> <[next s := x]> (tasks s) !! t = Some y -> task_ok y).
  { intros x t y Hx. rewrite lookup_insert. case_decide; [congruence|apply (inv_tasks s I)]. }
  assert (Hqok : forall f x y, (forall u, u <> next s -> f !! u = futs (cls s) !! u) ->
            y ∈ queue (cls s) -> waiter_ok f (<[next s := x]> (tasks s)) y).
  { intros f x y Hf Hy. pose proof (Hq y Hy). destruct (inv_queue s I y Hy) as [H1 H2].
    split; [by rewrite lookup_insert_ne|by rewrite Hf]. }
  pose proof (inv_active s I) as Ha. pose proof (inv_limit s I) as Hl.
  destruct r as [|e|].
  - destruct E as [-> Hfit]. split; cbn; eauto using inv_nodup; [intros t y; apply Hok; cbn; lia|].
    unfold charged; cbn. rewrite Hold by done. unfold charge at 1.
    rewrite lookup_insert_eq. lia.
  - subst c. split; cbn; eauto using inv_nodup; [intros t y; apply Hok; cbn; lia|].
    unfold charged; cbn. rewrite Hold by done. unfold charge at 1.
    rewrite lookup_insert_eq. lia.
  - destruct E as [-> _]. split; cbn; eauto; [intros t y; apply Hok; cbn; lia| | |].
    + intros y [Hy| ->%list_elem_of_singleton]%elem_of_app.
      * apply Hqok; [|done]. intros u Hu. by rewrite lookup_insert_ne.
      * split; cbn; rewrite lookup_insert_eq; eauto.
    + rewrite fmap_app. apply NoDup_app. split_and!.
      * exact (inv_nodup s I).
      * intros t (y & -> & Hy)%list_elem_of_fmap Heq%list_elem_of_singleton.
        by apply (Hq y).
      * apply NoDup_singleton.
    + unfold charged; cbn. rewrite Hold by (intros u Hu; by rewrite lookup_insert_ne).
      unfold charge at 1. rewrite !lookup_insert_eq. lia.
Qed.

Lemma inv_interrupt s t k : inv s -> inv (interrupt_task s t k).
Proof.
  intros I. unfold interrupt_task.
  destruct (tasks s !! t) as [[w ht []| |]|] eqn:Ht; try done.
  case_match; [|done].
  set (f := match futs (cls s) !! t with Some FPending => _ | _ => _ end).
  assert (Hf : forall u, u <> t -> f !! u = futs (cls s) !! u).
  { intros u Hu. subst f. destruct (futs (cls s) !! t) as [[]|]; by rewrite ?lookup_insert_ne. }
  assert (Hd : f !! t = Some FDone <-> futs (cls s) !! t = Some FDone).
  { subst f. destruct (futs (cls s) !! t) as [[]|] eqn:E; rewrite ?lookup_insert_eq, ?E; done. }
  pose proof (task_lt_next s t _ I Ht) as Hlt.
  split; cbn.
  - intros u Hu. rewrite lookup_insert_ne by lia. by apply (inv_fresh s I).
  - intros u y. rewrite lookup_insert. case_decide; [|apply (inv_tasks s I)].
    intros [= <-]. exact (inv_tasks s I t _ Ht).
  - intros y Hy. destruct (inv_queue s I y Hy) as [(ht' & k' & H1) H2].
    destruct (decide (wid y = t)) as [<-|Hne].
    + rewrite Ht in H1. simplify_eq. split; [rewrite lookup_insert_eq; eauto|]. by rewrite Hd.
    + split; [rewrite lookup_insert_ne; eauto|]. by rewrite Hf.
  - exact (inv_nodup s I).
  - rewrite (charged_update s f _ t) by done. rewrite (inv_active s I).
    unfold charge. rewrite lookup_insert_eq, Ht.
    destruct (f !! t) as [[]|] eqn:E1; destruct (futs (cls s) !! t) as [[]|] eqn:E2;
      try lia; naive_solver.
  - apply (inv_limit s I).
Qed.

Lemma inv_resume s t : inv s -> inv (resume s t).
Proof.
  intros I. unfold resume.
  destruct (tasks s !! t) as [[w ht k| |]|] eqn:Ht; try done.
  pose proof (task_lt_next s t _ I Ht) as Hlt.
  pose proof (inv_tasks s I t _ Ht) as Hw. cbn in Hw.
  pose proof (inv_active s I) as Ha.
  pose proof (charge_nonneg s I t) as Hc.
  pose proof (fun H => drop_waiter_queue s t w I (or_intror H)) as Hdrop.
  specialize (Hdrop (ex_intro _ ht (ex_intro _ k Ht))).
  pose proof (proj1 (remove_first_spec (mkWaiter t w) (queue (cls s)))) as Hsub.
  destruct k as [[]|].
  - apply inv_rewrite_task; cbn; try done.
    rewrite (charged_update s (futs (cls s)) _ t) by done.
    unfold charge at 2. rewrite lookup_insert_eq. lia.
  - unfold on_cancelled. cbn [wid weight].
    destruct (futs (cls s) !! t) as [[]|] eqn:Ef; apply inv_rewrite_task; cbn; try done; try lia;
      rewrite (charged_update s (futs (cls s)) _ t) by done;
      unfold charge; rewrite lookup_insert_eq, Ht, Ef; lia.
  - destruct (futs (cls s) !! t) as [[]|] eqn:Ef; try done.
    apply inv_rewrite_task; cbn; try done.
    + intros y Hy <-. by destruct (inv_queue s I y Hy) as [_ ?].
    + rewrite (charged_update s (futs (cls s)) _ t) by done.
      unfold charge. rewrite lookup_insert_eq, Ht, Ef. lia.
Qed.

Lemma inv_finish s t : inv s -> inv (finish s t).
Proof.
  intros I. unfold finish. destruct (tasks s !! t) as [[|w|]|] eqn:Ht; try done.
  pose proof (task_lt_next s t _ I Ht) as Hlt.
  pose proof (inv_tasks s I t _ Ht) as Hw. cbn in Hw.
  pose proof (inv_active s I) as Ha.
  assert (Hcw : charge (futs (cls s)) (tasks s) t = w) by (unfold charge; by rewrite Ht).
  assert (w <= charged s).
  { rewrite <- Hcw. unfold charged.
    rewrite (total_update (fun u => if decide (u = t) then 0 else charge (futs (cls s)) (tasks s) u)
               (charge (futs (cls s)) (tasks s)) (next s) t); [|done|].
    - rewrite decide_True by done.
      enough (0 <= total (fun u => if decide (u = t) then 0 else charge (futs (cls s)) (tasks s) u) (next s)) by lia.
      apply total_nonneg. intros i _. case_decide; [done|]. by apply charge_nonneg.
    - intros u Hu. by rewrite decide_False. }
  unfold release. rewrite (proj2 (Z.leb_gt w 0)) by lia.
  set (c' := set_active (cls s) (Z.max 0 (active (cls s) - w))).
  refine (inv_drain (mkSys c' (<[t:=Over 0]> (tasks s)) (next s)) _).
  apply inv_rewrite_task; subst c'; cbn; try done; try lia.
  - intros y Hy <-. destruct (inv_queue s I y Hy) as [(? & ? & ?) _]. congruence.
  - rewrite (charged_update s (futs (cls s)) _ t) by done.
    unfold charge at 2. rewrite lookup_insert_eq. lia.
Qed.

Lemma inv_step s e : inv s -> inv (sys_step s e).
Proof.
  destruct e; cbn; eauto using inv_start, inv_interrupt, inv_resume, inv_finish.
Qed.

Lemma inv_run lim cap es : inv (run lim cap es).
Proof. apply (run_ops_invariant _ inv); eauto using inv_init, inv_step. Qed.

Lemma limit_step s e : limit (cls (sys_step s e)) = limit (cls s).
Proof.
  destruct e; cbn; unfold start, interrupt_task, resume, finish, release, drain,
    on_cancelled, acquire_sync; repeat case_match; simplify_eq; done.
Qed.

Lemma limit_run lim cap es : limit (cls (run lim cap es)) = Z.max 0 lim.
Proof.
  apply (run_ops_invariant _ (fun s => limit (cls s) = Z.max 0 lim)); [done|].
  intros s o <-. apply limit_step.
Qed.

Lemma held_le_charged s : inv s -> held s <= charged s.
Proof.
  intros I. apply total_le. intros t _.
  pose proof (charge_nonneg s I t) as Hc. unfold charge in *. repeat case_match; lia.
Qed.

(** ** FIFO *)

(** The weight granted by [drain] to the waiters it removes from the queue. *)
Definition granted_weight (f : gmap nat Future) (q : list Waiter) : Z :=
  foldr (fun x a => (if fut_done (f !! wid x) then 0 else weight x) + a) 0 q.

Lemma granted_weight_ext f g q :
  (forall x, x ∈ q -> f !! wid x = g !! wid x) -> granted_weight f q = granted_weight g q.
Proof.
  intros H. unfold granted_weight. induction q as [|y q IH]; cbn; [done|].
  rewrite H by set_solver. rewrite IH; [done|]. intros z Hz. apply H. set_solver.
Qed.

Lemma drain_loop_done_mono lim q t : forall a f a' q' f',
  drain_loop lim a q f = (a', q', f') ->
  fut_done (f !! t) = true -> f' !! t = f !! t.
Proof.
  induction q as [|z q IH]; intros a f a' q' f' Hd Ef; cbn in Hd; [by simplify_eq|].
  destruct (fut_done (f !! wid z)) eqn:Ez; [by eapply IH|].
  case_match; [by simplify_eq|].
  assert (wid z <> t) by (intros <-; congruence).
  apply IH in Hd; rewrite lookup_insert_ne in * by done; done.
Qed.

Lemma drain_loop_fifo lim q : forall a f a' q' f',
  NoDup (wid <$> q) -> drain_loop lim a q f = (a', q', f') ->
  exists front, q = front ++ q' /\
    (forall x, x ∈ front -> fut_done (f' !! wid x) = true) /\
    (forall x, x ∈ q' -> f' !! wid x = f !! wid x) /\
    a' = a + granted_weight f front /\
    match q' with
    | [] => True
    | x :: _ => fut_done (f !! wid x) = false /\ lim < a' + weight x
    end.
Proof.
  induction q as [|x q IH]; intros a f a' q' f' Hnd Hd; cbn in Hd.
  - simplify_eq. exists []. split_and!; cbn; try done; try lia; set_solver.
  - apply NoDup_cons in Hnd as [Hx Hnd].
    destruct (fut_done (f !! wid x)) eqn:Ef.
    + destruct (IH _ _ _ _ _ Hnd Hd) as (front & -> & H1 & H2 & H3 & H4).
      exists (x :: front). split_and!; try done.
      * intros y [->|Hy]%elem_of_cons; [|by apply H1].
        by rewrite (drain_loop_done_mono _ _ _ _ _ _ _ _ Hd).
      * unfold granted_weight in *. cbn. rewrite Ef. lia.
    + destruct (lim <? a + weight x) eqn:Elim; bool_to_prop.
      { simplify_eq. exists []. split_and!; cbn; try done; try lia; set_solver. }
      destruct (IH _ _ _ _ _ Hnd Hd) as (front & -> & H1 & H2 & H3 & H4).
      assert (Hother : forall y, y ∈ front ++ q' -> <[wid x:=FDone]> f !! wid y = f !! wid y).
      { intros y Hy. rewrite lookup_insert_ne; [done|]. intros Heq. apply Hx.
        rewrite Heq. by apply list_elem_of_fmap_2. }
      exists (x :: front). split_and!; try done.
      * intros y [->|Hy]%elem_of_cons; [|by apply H1].
        rewrite (drain_loop_done_mono _ _ _ _ _ _ _ _ Hd); by rewrite lookup_insert_eq.
      * intros y Hy. rewrite H2 by done. apply Hother. set_solver.
      * rewrite (granted_weight_ext _ f front) in H3 by (intros; apply Hother; set_solver).
        unfold granted_weight in *. cbn. rewrite Ef. lia.
      * destruct q' as [|y q']; [done|]. by rewrite Hother in H4 by set_solver.
Qed.

(** A release grants waiters strictly from the front of the queue: what
    stays queued is a suffix of the queue, every waiter before it is resolved,
    the active weight grows by exactly the weights of the waiters granted now,
    and if a waiter is left at the front it is one that does not fit in the
    remaining budget. *)
Theorem drain_grants_fifo lim cap es w :
  let c := set_active (cls (run lim cap es)) w in
  exists front, queue c = front ++ queue (drain c) /\
    (forall x, x ∈ front -> fut_done (futs (drain c) !! wid x) = true) /\
    active (drain c) = active c + granted_weight (futs c) front /\
    match queue (drain c) with
    | [] => True
    | x :: _ => fut_done (futs (drain c) !! wid x) = false /\
                limit c < active (drain c) + weight x
    end.
Proof.
  intros c. pose proof (inv_nodup _ (inv_run lim cap es)) as Hnd.
  unfold drain. destruct (drain_loop _ _ _ _) as [[a q] f] eqn:E. cbn in *.
  apply drain_loop_fifo in E as (front & -> & H1 & H2 & -> & H4); [|done].
  exists front. split_and!; try done.
  destruct q as [|x q]; [done|]. rewrite H2 by set_solver. done.
Qed.

(** ** The queue bound and work conservation *)

(** The longest the queue of a class can be. *)
Definition queue_bounded (s : Sys) : Prop :=
  Z.of_nat (length (queue (cls s))) <= Z.max 0 (queue_capacity (cls s)).

Lemma remove_first_length x q : (length (remove_first x q) <= length q)%nat.
Proof. apply sublist_length, remove_first_spec. Qed.

Lemma drain_queue_length c : (length (queue (drain c)) <= length (queue c))%nat.
Proof.
  unfold drain. destruct (drain_loop _ _ _ _) as [[a q] f] eqn:E. cbn.
  revert E. generalize (active c) as b, (futs c) as g, (queue c) as k.
  intros b g k; revert b g. induction k as [|x k IH]; intros b g E; cbn in E; [by simplify_eq|].
  repeat case_match; simplify_eq; cbn; try lia; apply IH in E; lia.
Qed.

Lemma queue_bounded_step s e : queue_bounded s -> queue_bounded (sys_step s e).
Proof.
  unfold queue_bounded. intros H. destruct e as [w ht|t k|t|t]; cbn.
  - unfold start. case_match; [done|].
    destruct (acquire_sync _ _ _) as [c r] eqn:E. apply acquire_sync_cases in E.
    destruct r; destruct_and?; subst; cbn; try done. rewrite length_app. cbn. lia.
  - unfold interrupt_task. repeat case_match; done.
  - unfold resume, on_timeout, on_cancelled, drop_waiter.
    repeat case_match; try done; cbn;
      match goal with |- context [remove_first ?x ?q] =>
        pose proof (remove_first_length x q) end; lia.
  - unfold finish, release. repeat case_match; try done; cbn.
    match goal with |- context [drain ?c] => pose proof (drain_queue_length c) end.
    assert (queue_capacity (drain (set_active (cls s) (0 `max` (active (cls s) - w)))) =
            queue_capacity (cls s)) as -> by (unfold drain; by repeat case_match).
    cbn in *. lia.
Qed.

Lemma queue_bounded_run lim cap es : queue_bounded (run lim cap es).
Proof.
  apply (run_ops_invariant _ queue_bounded); [|intros; by apply queue_bounded_step].
  unfold queue_bounded; cbn; lia.
Qed.

(** C18. Whatever tasks enter, are cancelled, time out and leave, and in
    whatever order the event loop runs them, the weight of the tasks inside a
    limited class never exceeds its budget, and the active counter equals the
    weight charged to tasks (those inside, those granted but not yet resumed,
    and what timed-out tasks left behind), never exceeding the budget; the
    queue never outgrows its capacity. *)
Theorem budget_never_exceeded lim cap es :
  0 < lim ->
  let s := run lim cap es in
  held s <= lim /\ active (cls s) = charged s /\ 0 <= active (cls s) <= lim /\
  queue_bounded s.
Proof.
  intros Hlim s. pose proof (queue_bounded_run lim cap es) as Hq. pose proof (inv_run lim cap es) as I. fold s in I.
  pose proof (held_le_charged s I) as Hh. pose proof (inv_active s I) as Ha.
  pose proof (inv_limit s I) as Hl. unfold s in Hl. rewrite limit_run in Hl. fold s in Hl.
  assert (0 <= charged s) by (apply total_nonneg; intros; by apply charge_nonneg).
  split_and!; first [done|lia].
Qed.

Lemma budget_never_exceeded_witness :
  let s := run 8 100 [Start 4 false; Start 8 true; Start 4 false; Finish 0; Resume 1] in
  0 < 8 /\ held s <= 8.
Proof. intros s. split; [lia|]. by apply (budget_never_exceeded 8 100). Defined.

Definition no_interrupts (es : list event) : bool :=
  forallb (fun e => match e with Interrupt _ _ => false | _ => true end) es.

(** Every waiter could be granted by an idle class, and the one at the front
    waits because the budget is spent. *)
Definition tight (s : Sys) : Prop :=
  (forall x, x ∈ queue (cls s) -> weight x <= limit (cls s)) /\
  match queue (cls s) with
  | [] => True
  | x :: _ => limit (cls s) < active (cls s) + weight x
  end.

Lemma tight_start s w ht : tight s -> tight (start s w ht).
Proof.
  destruct s as [[lim cap act q f] ts n]. unfold tight, start, acquire_sync; cbn.
  intros [H1 H2]. destruct (w <=? 0) eqn:Ew; [done|].
  destruct q as [|x q]; repeat case_match; simplify_eq/=; bool_to_prop;
    try (split; first [done|lia]).
  - split; [|lia]. by intros y ->%list_elem_of_singleton.
  - split; [|done]. intros y [->|[Hy| ->%list_elem_of_singleton]%elem_of_app]%elem_of_cons;
      cbn; try lia; apply H1; set_solver.
Qed.

Lemma tight_drain c ts n :
  NoDup (wid <$> queue c) -> (forall x, x ∈ queue c -> weight x <= limit c) ->
  tight (mkSys (drain c) ts n).
Proof.
  intros Hnd H. unfold tight, drain. destruct (drain_loop _ _ _ _) as [[a q] f] eqn:E. cbn.
  apply drain_loop_fifo in E as (front & Hq & _ & _ & _ & H4); [|done].
  rewrite Hq in H. split; [intros x Hx; apply H; set_solver|]. by destruct q; [|destruct H4].
Qed.

Lemma tight_finish s t : inv s -> tight s -> tight (finish s t).
Proof.
  intros I Hs. unfold finish, release. destruct (tasks s !! t) as [[|w|]|] eqn:Ht; try done.
  pose proof (inv_tasks s I t _ Ht) as Hw. cbn in Hw.
  rewrite (proj2 (Z.leb_gt w 0)) by lia.
  apply tight_drain; [exact (inv_nodup s I)|apply Hs].
Qed.

Lemma tight_run lim cap es :
  no_interrupts es = true -> tight (run lim cap es).
Proof.
  assert (Hrun : forall s, inv s -> tight s ->
    (forall t w ht k, tasks s !! t = Some (Waiting w ht k) -> k = None) ->
    no_interrupts es = true -> tight (run_ops sys_step s es)).
  { induction es as [|e es IH]; intros s I Ht Hk Hes; [done|].
    cbn in Hes |- *. apply andb_true_iff in Hes as [He Hes].
    apply IH; [by apply inv_step| | |done]; destruct e as [w ht|t k|t|t]; try done; cbn.
    - by apply tight_start.
    - unfold resume. repeat case_match; simplify_eq; try done; naive_solver.
    - by apply tight_finish.
    - unfold start. repeat case_match; simplify_eq; cbn; try done;
        intros u w' ht' k'; rewrite lookup_insert; case_decide; naive_solver.
    - unfold resume. repeat case_match; simplify_eq; cbn; try done;
        intros u w' ht' k'; rewrite lookup_insert; case_decide; naive_solver.
    - unfold finish. repeat case_match; simplify_eq; cbn; try done;
        intros u w' ht' k'; rewrite lookup_insert; case_decide; naive_solver. }
  apply Hrun; [apply inv_init| |].
  - split; cbn; [set_solver|done].
  - cbn. intros t w ht k. by rewrite lookup_empty.
Qed.

(** When no waiting task is cancelled or times out, the class is work
    conserving: a waiter is at the front of the queue only while it does not
    fit in what is left of the budget, so a non-empty queue means that some
    task is charged and its release is still to come. *)
Theorem work_conserving_without_interrupts lim cap es :
  no_interrupts es = true ->
  let c := cls (run lim cap es) in
  match queue c with
  | [] => True
  | x :: _ => limit c < active c + weight x /\ 0 < active c
  end.
Proof.
  intros He c. destruct (tight_run lim cap es He) as [H1 H2]. fold c in H1, H2.
  destruct (queue c) as [|x q]; [done|]. specialize (H1 x). split; [done|].
  enough (weight x <= limit c) by lia. apply H1. set_solver.
Qed.

Lemma work_conserving_without_interrupts_witness :
  let es := [Start 8 false; Start 8 false; Start 4 true] in
  no_interrupts es = true /\ 0 < active (cls (run 8 100 es)).
Proof.
  intros es. split; [reflexivity|].
  exact (proj2 (work_conserving_without_interrupts 8 100 es eq_refl)).
Defined.

(** ** Two races *)

(** Events the controller and the running tasks can still produce by
    themselves: no new task, no interruption. *)
Definition internal (e : event) : bool :=
  match e with Resume _ | Finish _ => true | _ => false end.

Definition over (s : Sys) : bool :=
  forallb (fun t => match tasks s !! t with Some (Over _) => true | _ => false end)
    (seq 0 (next s)).

(** The timeout clause of [acquire] does not return the weight of a grant
    that arrived before the timer's cancellation was delivered: after one
    release races with one expired wait, every task is over, nothing holds the
    class, and its whole budget is still counted as active, so every later
    request that fits the budget is queued. *)
Theorem timeout_race_leaks_budget :
  let s := run 8 100 [Start 8 false; Start 8 true; Finish 0; Interrupt 1 ByTimer; Resume 1] in
  over s = true /\ held s = 0 /\ active (cls s) = 8 /\ queue (cls s) = [] /\
  forall w, 0 < w <= 8 -> snd (acquire_sync (cls s) (next s) w) = Await.
Proof.
  split_and!; try (by vm_compute).
  intros w Hw. set (c := cls _).
  assert (Hl : limit c = 8) by by vm_compute. assert (Ha : active c = 8) by by vm_compute.
  assert (Hq : queue c = []) by by vm_compute.
  assert (Hc : queue_capacity c = 100) by by vm_compute.
  unfold acquire_sync. rewrite Hl, Ha, Hq, Hc. cbn [length Z.of_nat Z.eqb Z.leb Z.compare].
  rewrite (proj2 (Z.ltb_ge 8 w)) by lia. by rewrite (proj2 (Z.leb_gt (8 + w) 8)) by lia.
Qed.

(** The cancellation clause of [acquire] returns the weight of an already
    granted waiter without waking the next one: after a cancelled grant the
    class is idle (nothing held, nothing active) while a task that would fit
    stays queued, and no step of the running tasks ever wakes it. *)
Theorem cancelled_grant_loses_wakeup :
  let s := run 8 100 [Start 8 false; Start 8 false; Start 8 false;
                      Finish 0; Interrupt 1 ByCancel; Resume 1] in
  held s = 0 /\ active (cls s) = 0 /\ queue (cls s) = [mkWaiter 2 8] /\
  forall es, forallb internal es = true -> run_ops sys_step s es = s.
Proof.
  intros s. split; [by vm_compute|]. split; [by vm_compute|]. split; [by vm_compute|].
  assert (H0 : tasks s !! 0%nat = Some (Over 0)) by (vm_compute; reflexivity).
  assert (H1 : tasks s !! 1%nat = Some (Over 0)) by (vm_compute; reflexivity).
  assert (H2 : tasks s !! 2%nat = Some (Waiting 8 false None)) by (vm_compute; reflexivity).
  assert (Hf : futs (cls s) !! 2%nat = Some FPending) by (vm_compute; reflexivity).
  assert (Hnx : forall t, tasks s !! S (S (S t)) = None).
  { intros t. apply (inv_fresh s (inv_run _ _ _)). replace (next s) with 3%nat by (vm_compute; reflexivity). lia. }
  clearbody s.
  assert (Hstep : forall e, internal e = true -> sys_step s e = s).
  { intros e He. destruct e as [| |t|t]; try done; cbn [sys_step]; unfold resume, finish;
      (destruct t as [|[|[|t]]]; [rewrite H0|rewrite H1|rewrite H2|rewrite Hnx]); try done.
    by rewrite Hf. }
  clear H0 H1 H2 Hf Hnx. intros es.
  induction es as [|e es IH]; [done|]. cbn. intros [H1 H2]%andb_true_iff.
  rewrite Hstep by done. by apply IH.
Qed.
