(* ===== verification/IpAddress.v ===== *)
(** * IP addresses and the address policy ([src/common/url.py], [ipaddress])

    [ip_address] parses IPv4 and IPv6 literals as the standard library does;
    [addr_is_restricted] is the SSRF policy on one address: private and
    special-purpose networks, metadata endpoints, and IPv6 forms that carry an
    IPv4 destination ([unmap_embedded_ipv4]).

    The theorems: the policy on IPv4 is an explicit set of intervals, and every
    IPv6 encapsulation of an IPv4 address is classified exactly as the address
    it carries. *)

From S2P Require Import Prelude Strings.

Inductive ipaddr :=
| V4 (n : Z)
| V6 (n : Z) (scope : option string).

#[export] Instance ipaddr_eq_dec : EqDecision ipaddr.
Proof. solve_decision. Defined.

(** ** Parsing *)

(** One decimal octet. *)
Definition parse_octet (s : string) : option Z :=
  if is_empty s || negb (sforall is_digit s) || Nat.ltb 3 (slen s) then None
  else if negb (String.eqb s "0") && starts_with "0" s then None
  else let n := decimal s in if 255 <? n then None else Some n.

Definition parse_ipv4 (s : string) : option Z :=
  match split "." s with
  | [a; b; c; d] =>
      match parse_octet a, parse_octet b, parse_octet c, parse_octet d with
      | Some a, Some b, Some c, Some d => Some (((a * 256 + b) * 256 + c) * 256 + d)
      | _, _, _, _ => None
      end
  | _ => None
  end.

Definition parse_hextet (s : string) : option Z :=
  if is_empty s || negb (sforall is_hex s) || Nat.ltb 4 (slen s) then None
  else Some (hex_from 0 s).

(** The parts of an IPv6 literal: text, or a value taken from an IPv4 tail. *)
Inductive part := Text (s : string) | Value (n : Z).

Definition part_empty (p : part) : bool := match p with Text s => is_empty s | Value _ => false end.

Definition part_value (p : part) : option Z :=
  match p with Text s => parse_hextet s | Value n => Some n end.

Fixpoint hextets (acc : Z) (l : list part) : option Z :=
  match l with
  | [] => Some acc
  | p :: l => match part_value p with Some v => hextets (acc * 65536 + v) l | None => None end
  end.

(** Index of the empty part strictly inside the list; [None] inside the sum
    stands for a second one. *)
Fixpoint find_skip (i : nat) (l : list part) (found : option nat) : option (option nat) :=
  match l with
  | [] | [_] => Some found
  | p :: l =>
      if part_empty p then
        match found with Some _ => None | None => find_skip (S i) l (Some i) end
      else find_skip (S i) l found
  end.

Definition ipv6_parts (s : string) : option (list part) :=
  let ps := split ":" s in
  if Nat.ltb (length ps) 3 then None
  else match last ps with
       | Some l =>
           if contains "." l then
             match parse_ipv4 l with
             | Some n => Some ((Text <$> take (length ps - 1) ps)
                               ++ [Value (n / 65536); Value (n mod 65536)])
             | None => None
             end
           else Some (Text <$> ps)
       | None => None
       end.

Definition parse_ipv6 (s : string) : option Z :=
  match ipv6_parts s with
  | None => None
  | Some ps =>
      if Nat.ltb 9 (length ps) then None
      else match ps with
      | [] => None
      | first :: rest =>
          match find_skip 1 rest None with
          | None => None
          | Some None =>
              if negb (Nat.eqb (length ps) 8) || part_empty first
                 || match last ps with Some l => part_empty l | None => true end
              then None else hextets 0 ps
          | Some (Some skip) =>
              let lo := (length ps - skip - 1)%nat in
              let hi' := if part_empty first then (skip - 1)%nat else skip in
              let last_empty := match last ps with Some l => part_empty l | None => false end in
              let lo' := if last_empty then (lo - 1)%nat else lo in
              if part_empty first && negb (Nat.eqb hi' 0) then None
              else if last_empty && negb (Nat.eqb lo' 0) then None
              else if Nat.ltb 7 (hi' + lo') then None
              else match hextets 0 (take hi' ps) with
                   | Some h => hextets (h * 65536 ^ Z.of_nat (8 - (hi' + lo')))
                                 (drop (length ps - lo') ps)
                   | None => None
                   end
          end
      end
  end.

(** [ip_address(s)]; [None] is [ValueError]. *)
Definition ip_address (s : string) : option ipaddr :=
  if contains "/" s then None
  else match parse_ipv4 s with
       | Some n => Some (V4 n)
       | None =>
           let '(addr, has_scope, scope) := partition "%" s in
           if has_scope && (is_empty scope || contains "%" scope) then None
           else match parse_ipv6 addr with
                | Some n => Some (V6 n (if has_scope then Some scope else None))
                | None => None
                end
       end.

(** ** Networks *)

Record network := mkNetwork { net_v6 : bool; net_base : Z; net_prefix : Z }.

Definition width (v6 : bool) : Z := if v6 then 128 else 32.

(** [addr in net]. *)
Definition in_network (a : ipaddr) (net : network) : bool :=
  let w := width (net_v6 net) in
  let netmask := Z.ones w - Z.ones (w - net_prefix net) in
  match a with
  | V4 n => negb (net_v6 net) && (Z.land n netmask =? net_base net)
  | V6 n _ => net_v6 net && (Z.land n netmask =? net_base net)
  end.

Definition ipv4 (a b c d : Z) : Z := ((a * 256 + b) * 256 + c) * 256 + d.

Definition PRIVATE_NETWORKS : list network :=
  [mkNetwork false (ipv4 10 0 0 0) 8; mkNetwork false (ipv4 172 16 0 0) 12;
   mkNetwork false (ipv4 192 168 0 0) 16; mkNetwork false (ipv4 127 0 0 0) 8;
   mkNetwork false (ipv4 169 254 0 0) 16; mkNetwork false (ipv4 0 0 0 0) 8;
   mkNetwork false (ipv4 100 64 0 0) 10; mkNetwork false (ipv4 198 18 0 0) 15;
   mkNetwork false (ipv4 240 0 0 0) 4; mkNetwork false (ipv4 224 0 0 0) 4;
   mkNetwork true 1 128;
   mkNetwork true (0xfc00 * 2 ^ 112) 7; mkNetwork true (0xfe80 * 2 ^ 112) 10;
   mkNetwork true (0xff00 * 2 ^ 112) 8; mkNetwork true (0x64ff9b * 2 ^ 96) 32].

Definition METADATA_IPS : list ipaddr :=
  [V4 (ipv4 169 254 169 254); V4 (ipv4 100 100 100 200);
   V6 (0xfd000ec2 * 2 ^ 96 + 0x254) None].

Definition IPV4_COMPATIBLE_NET : network := mkNetwork true 0 96.
Definition SIXTO4_NET : network := mkNetwork true (0x2002 * 2 ^ 112) 16.
Definition TEREDO_NET : network := mkNetwork true (0x20010000 * 2 ^ 96) 32.

(** [IPv6Address.ipv4_mapped]. *)
Definition ipv4_mapped (n : Z) : option Z :=
  if Z.shiftr n 32 =? 0xFFFF then Some (Z.land n 0xFFFFFFFF) else None.

(** [_unmap_embedded_ipv4]; [None]: the address itself is returned. *)
Definition unmap_embedded_ipv4 (a : ipaddr) : option ipaddr :=
  match a with
  | V4 _ => None
  | V6 n _ =>
      match ipv4_mapped n with
      | Some m => Some (V4 m)
      | None =>
          if in_network a IPV4_COMPATIBLE_NET then Some (V4 (Z.land n 0xFFFFFFFF))
          else if in_network a SIXTO4_NET then Some (V4 (Z.land (Z.shiftr n 80) 0xFFFFFFFF))
          else if in_network a TEREDO_NET
               then Some (V4 (Z.lxor (Z.land n 0xFFFFFFFF) 0xFFFFFFFF))
          else None
      end
  end.

(** The checks of [_addr_is_restricted] on one address. *)
Definition listed (a : ipaddr) : bool :=
  existsb (in_network a) PRIVATE_NETWORKS || bool_decide (a ∈ METADATA_IPS).

(** [_addr_is_restricted]. *)
Definition addr_is_restricted (a : ipaddr) : bool :=
  listed a || match unmap_embedded_ipv4 a with Some b => listed b | None => false end.

(** ** Theorems *)

(** The masked comparison is a comparison of prefixes. *)
Lemma land_mask_eq n w p base :
  0 <= p <= w -> 0 <= n < 2 ^ w -> base mod 2 ^ (w - p) = 0 ->
  (Z.land n (Z.ones w - Z.ones (w - p)) =? base) = (n / 2 ^ (w - p) =? base / 2 ^ (w - p)).
Proof.
  intros Hp Hn Hb. set (k := w - p) in *. assert (Hk : 0 <= k) by lia.
  assert (Hpk : 0 < 2 ^ k) by (apply Z.pow_pos_nonneg; lia).
  assert (Hmask : Z.ones w - Z.ones k = Z.ldiff (Z.ones w) (Z.ones k)).
  { rewrite Z.sub_nocarry_ldiff; [done|]. apply Z.bits_inj'. intros i Hi.
    rewrite Z.ldiff_spec, Z.bits_0, !Z.testbit_ones_nonneg by lia.
    destruct (i <? k) eqn:E1, (i <? w) eqn:E2; try done. bool_to_prop. lia. }
  assert (Hland : Z.land n (Z.ones w - Z.ones k) = n / 2 ^ k * 2 ^ k).
  { rewrite Hmask. rewrite <- Z.shiftr_div_pow2, <- Z.shiftl_mul_pow2 by lia.
    rewrite <- Z.ldiff_ones_r by lia. apply Z.bits_inj'. intros i Hi.
    rewrite Z.land_spec, !Z.ldiff_spec, !Z.testbit_ones_nonneg by lia.
    destruct (i <? w) eqn:E; [by rewrite andb_true_l|]. bool_to_prop.
    replace (Z.testbit n i) with false; [done|]. symmetry.
    destruct (decide (n = 0)) as [->|]; [by rewrite Z.bits_0|].
    apply Z.bits_above_log2; [lia|]. apply Z.log2_lt_pow2; [lia|].
    eapply Z.lt_le_trans; [apply Hn|]. apply Z.pow_le_mono_r; lia. }
  rewrite Hland.
  pose proof (Z.div_mod base (2 ^ k) ltac:(lia)) as Hd. rewrite Hb in Hd.
  destruct (n / 2 ^ k =? base / 2 ^ k) eqn:E; bool_to_prop.
  - apply Z.eqb_eq. rewrite E. lia.
  - apply Z.eqb_neq. intros H. apply E. nia.
Qed.

(** Membership as an interval. *)
Lemma prefix_interval n b k : 0 < k -> b mod k = 0 ->
  (n / k =? b / k) = (b <=? n) && (n <? b + k).
Proof.
  intros Hk Hb. pose proof (Z.div_mod b k ltac:(lia)) as Db. rewrite Hb in Db.
  pose proof (Z.div_mod n k ltac:(lia)) as Dn.
  pose proof (Z.mod_pos_bound n k Hk) as Mn. apply eq_iff_eq_true.
  rewrite Z.eqb_eq, andb_true_iff, Z.leb_le, Z.ltb_lt. split; [intros; nia|].
  intros [H1 H2]. assert (n / k < b / k + 1) by nia. assert (b / k < n / k + 1) by nia. lia.
Qed.

Lemma in_network_interval v6 b p n s :
  0 <= p <= width v6 -> 0 <= n < 2 ^ width v6 -> b mod 2 ^ (width v6 - p) = 0 ->
  in_network (if v6 then V6 n s else V4 n) (mkNetwork v6 b p)
  = (b <=? n) && (n <? b + 2 ^ (width v6 - p)).
Proof.
  intros Hp Hn Hb. rewrite <- prefix_interval; [|apply Z.pow_pos_nonneg; lia|done].
  rewrite <- land_mask_eq by done. by destruct v6.
Qed.

(** The first addresses and sizes of the IPv4 intervals the policy refuses. *)
Definition restricted_ipv4 (n : Z) : bool :=
  let within b k := (b <=? n) && (n <? b + k) in
  within (ipv4 10 0 0 0) (2 ^ 24) || within (ipv4 172 16 0 0) (2 ^ 20)
  || within (ipv4 192 168 0 0) (2 ^ 16) || within (ipv4 127 0 0 0) (2 ^ 24)
  || within (ipv4 169 254 0 0) (2 ^ 16) || within (ipv4 0 0 0 0) (2 ^ 24)
  || within (ipv4 100 64 0 0) (2 ^ 22) || within (ipv4 198 18 0 0) (2 ^ 17)
  || within (ipv4 224 0 0 0) (2 ^ 29).

Lemma listed_ipv4 n : 0 <= n < 2 ^ 32 -> listed (V4 n) = restricted_ipv4 n.
Proof.
  intros Hn. unfold listed. case_bool_decide as Hin.
  { rewrite orb_true_r. unfold METADATA_IPS in Hin. rewrite !elem_of_cons, elem_of_nil in Hin.
    destruct Hin as [[= ->]|[[= ->]|[[=]|[]]]]; by vm_compute. }
  rewrite orb_false_r. unfold PRIVATE_NETWORKS. cbn [existsb].
  repeat (rewrite (in_network_interval false _ _ n None); [|by vm_compute|exact Hn|by vm_compute]).
  unfold in_network, net_v6, restricted_ipv4, ipv4. cbn [andb].
  change (width false) with 32. apply eq_iff_eq_true.
  rewrite !orb_true_iff, !andb_true_iff, !Z.leb_le, !Z.ltb_lt. lia.
Qed.

(** The IPv6 intervals the policy refuses outright. *)
Definition restricted_ipv6 (n : Z) : bool :=
  let within b k := (b <=? n) && (n <? b + k) in
  within 1 1 || within (0xfc00 * 2 ^ 112) (2 ^ 121) || within (0xfe80 * 2 ^ 112) (2 ^ 118)
  || within (0xff00 * 2 ^ 112) (2 ^ 120) || within (0x64ff9b * 2 ^ 96) (2 ^ 96).

Lemma listed_ipv6 n s : 0 <= n < 2 ^ 128 -> listed (V6 n s) = restricted_ipv6 n.
Proof.
  intros Hn. unfold listed. case_bool_decide as Hin.
  { rewrite orb_true_r. unfold METADATA_IPS in Hin. rewrite !elem_of_cons, elem_of_nil in Hin.
    destruct Hin as [[=]|[[=]|[[= -> _]|[]]]]; by vm_compute. }
  rewrite orb_false_r. unfold PRIVATE_NETWORKS. cbn [existsb].
  repeat (rewrite (in_network_interval true _ _ n s); [|by vm_compute|exact Hn|by vm_compute]).
  unfold in_network, net_v6, restricted_ipv6, ipv4. cbn [andb orb].
  change (width true) with 128. apply eq_iff_eq_true.
  rewrite !orb_true_iff, !andb_true_iff, !Z.leb_le, !Z.ltb_lt. lia.
Qed.

Lemma split_div q k r : 0 <= r < k -> (q * k + r) / k = q /\ (q * k + r) mod k = r.
Proof.
  intros Hr. split; [symmetry; apply Z.div_unique with r; lia|symmetry; apply Z.mod_unique with q; lia].
Qed.

(** The operations of [_unmap_embedded_ipv4] as arithmetic. *)
Lemma low32 n : Z.land n 0xFFFFFFFF = n mod 2 ^ 32.
Proof. change 0xFFFFFFFF with (Z.ones 32). apply Z.land_ones. lia. Qed.

Lemma lxor_low32 n : 0 <= n < 2 ^ 32 -> Z.lxor n 0xFFFFFFFF = 0xFFFFFFFF - n.
Proof.
  intros Hn. change 0xFFFFFFFF with (Z.ones 32).
  assert (H : Z.land n (Z.lxor n (Z.ones 32)) = 0).
  { apply Z.bits_inj'. intros i Hi. rewrite Z.land_spec, Z.lxor_spec, Z.bits_0, Z.testbit_ones_nonneg by lia.
    destruct (i <? 32) eqn:E; [by destruct (Z.testbit n i)|]. bool_to_prop.
    replace (Z.testbit n i) with false; [done|]. symmetry.
    destruct (decide (n = 0)) as [->|]; [by rewrite Z.bits_0|].
    apply Z.bits_above_log2; [lia|]. apply Z.log2_lt_pow2; [lia|].
    eapply Z.lt_le_trans; [apply Hn|]. apply Z.pow_le_mono_r; lia. }
  pose proof (Z.add_nocarry_lxor _ _ H) as Ha.
  rewrite <- Z.lxor_assoc, Z.lxor_nilpotent, Z.lxor_0_l in Ha. lia.
Qed.

Lemma in_compatible n s : 0 <= n < 2 ^ 128 -> in_network (V6 n s) IPV4_COMPATIBLE_NET = (n <? 2 ^ 32).
Proof.
  intros Hn. unfold IPV4_COMPATIBLE_NET. rewrite (in_network_interval true _ _ n s) by (done || by vm_compute).
  change (width true) with 128. apply eq_iff_eq_true. rewrite andb_true_iff, Z.leb_le, !Z.ltb_lt. lia.
Qed.

Lemma in_6to4 n s : 0 <= n < 2 ^ 128 ->
  in_network (V6 n s) SIXTO4_NET = (0x2002 * 2 ^ 112 <=? n) && (n <? 0x2003 * 2 ^ 112).
Proof.
  intros Hn. unfold SIXTO4_NET. rewrite (in_network_interval true _ _ n s) by (done || by vm_compute). done.
Qed.

Lemma in_teredo n s : 0 <= n < 2 ^ 128 ->
  in_network (V6 n s) TEREDO_NET = (0x20010000 * 2 ^ 96 <=? n) && (n <? 0x20010001 * 2 ^ 96).
Proof.
  intros Hn. unfold TEREDO_NET. rewrite (in_network_interval true _ _ n s) by (done || by vm_compute). done.
Qed.

Lemma mapped_none n : n / 2 ^ 32 <> 0xFFFF -> ipv4_mapped n = None.
Proof.
  intros H. unfold ipv4_mapped. rewrite Z.shiftr_div_pow2 by lia. by rewrite (proj2 (Z.eqb_neq _ _)).
Qed.

(** The IPv6 forms that carry the IPv4 destination [n]. *)
Inductive carries (n : Z) : Z -> Prop :=
| c_mapped : carries n (0xFFFF * 2 ^ 32 + n)
| c_compatible : carries n n
| c_6to4 r : 0 <= r < 2 ^ 80 -> carries n (0x2002 * 2 ^ 112 + n * 2 ^ 80 + r)
| c_teredo m : 0 <= m < 2 ^ 64 ->
    carries n (0x20010000 * 2 ^ 96 + m * 2 ^ 32 + (0xFFFFFFFF - n)).

Lemma unmap_carries n x s :
  0 <= n < 2 ^ 32 -> carries n x ->
  0 <= x < 2 ^ 128 /\ unmap_embedded_ipv4 (V6 x s) = Some (V4 n) /\
  (restricted_ipv6 x = true -> n = 1).
Proof.
  intros Hn Hc. assert (Hx : 0 <= x < 2 ^ 128) by (destruct Hc; lia). split; [done|].
  unfold unmap_embedded_ipv4. rewrite in_compatible, in_6to4, in_teredo by done.
  assert (Hr : restricted_ipv6 x = true -> n = 1).
  { unfold restricted_ipv6. rewrite !orb_true_iff, !andb_true_iff, !Z.leb_le, !Z.ltb_lt.
    destruct Hc; lia. }
  split; [|exact Hr]. clear Hr. destruct Hc.
  - destruct (split_div 0xFFFF (2 ^ 32) n Hn) as [Hd Hm]. unfold ipv4_mapped.
    rewrite Z.shiftr_div_pow2, Hd, low32, Hm by lia. done.
  - rewrite mapped_none by (rewrite Z.div_small by lia; lia).
    rewrite (proj2 (Z.ltb_lt _ _)) by lia. by rewrite low32, Z.mod_small.
  - replace (0x2002 * 2 ^ 112 + n * 2 ^ 80 + r) with ((0x2002 * 2 ^ 32 + n) * 2 ^ 80 + r) in * by lia.
    assert (Hbig : 0x10000 <= ((0x2002 * 2 ^ 32 + n) * 2 ^ 80 + r) / 2 ^ 32)
      by (apply Z.div_le_lower_bound; lia).
    rewrite mapped_none by lia.
    rewrite (proj2 (Z.ltb_ge _ _)), (proj2 (Z.leb_le _ _)), (proj2 (Z.ltb_lt _ _)) by lia. cbn [andb].
    rewrite Z.shiftr_div_pow2 by lia. rewrite (proj1 (split_div _ _ _ H)), low32.
    by rewrite (proj2 (split_div 0x2002 (2 ^ 32) n Hn)).
  - replace (0x20010000 * 2 ^ 96 + m * 2 ^ 32 + (0xFFFFFFFF - n))
      with ((0x20010000 * 2 ^ 64 + m) * 2 ^ 32 + (0xFFFFFFFF - n)) in * by lia.
    assert (Hlow : 0 <= 0xFFFFFFFF - n < 2 ^ 32) by lia.
    rewrite mapped_none by (rewrite (proj1 (split_div _ _ _ Hlow)); lia).
    rewrite (proj2 (Z.ltb_ge _ (2 ^ 32))), (proj2 (Z.leb_gt (0x2002 * 2 ^ 112) _)) by lia.
    rewrite (proj2 (Z.leb_le (0x20010000 * 2 ^ 96) _)), (proj2 (Z.ltb_lt _ (0x20010001 * 2 ^ 96))) by lia.
    cbn [andb]. rewrite low32, (proj2 (split_div _ _ _ Hlow)), lxor_low32 by lia. f_equal. f_equal. lia.
Qed.

(** The address policy on IPv4 is exactly the union of nine intervals (RFC
    1918, loopback, link-local, "this" network, carrier-grade NAT,
    benchmarking, multicast and reserved), the metadata addresses included. *)
Theorem restricted_ipv4_exact n :
  0 <= n < 2 ^ 32 -> addr_is_restricted (V4 n) = restricted_ipv4 n.
Proof. intros Hn. unfold addr_is_restricted. by rewrite listed_ipv4, orb_false_r. Qed.

(** No encapsulation changes the verdict: an IPv6 address that carries an
    IPv4 destination (mapped, compatible, 6to4 or Teredo, with any of the
    remaining bits and any scope) is restricted exactly when that destination
    is. *)
Theorem embedded_ipv4_same_verdict n x s :
  0 <= n < 2 ^ 32 -> carries n x ->
  addr_is_restricted (V6 x s) = addr_is_restricted (V4 n).
Proof.
  intros Hn Hc. destruct (unmap_carries n x s Hn Hc) as (Hx & Hu & Hr).
  unfold addr_is_restricted. rewrite Hu, listed_ipv6, !listed_ipv4, orb_false_r by done.
  destruct (restricted_ipv6 x); [|done]. rewrite (Hr eq_refl). by vm_compute.
Qed.

Lemma restricted_ipv4_exact_witness : addr_is_restricted (V4 (ipv4 169 254 169 254)) = true.
Proof.
  rewrite (restricted_ipv4_exact (ipv4 169 254 169 254) ltac:(vm_compute; split; congruence)).
  reflexivity.
Defined.

Lemma embedded_ipv4_same_verdict_witness :
  addr_is_restricted (V6 (0x2002 * 2 ^ 112 + ipv4 10 0 0 1 * 2 ^ 80 + 5) None) = true.
Proof.
  rewrite (embedded_ipv4_same_verdict (ipv4 10 0 0 1) _ None ltac:(vm_compute; split; congruence)
    (c_6to4 _ 5 ltac:(vm_compute; split; congruence))).
  vm_compute. reflexivity.
Defined.
