(* ===== verification/Url.v ===== *)
(** * URLs ([urllib.parse], [src/common/url.py], [src/agent-svc/agent/crawler.py])

    [urlsplit], [urlparse], [urlunparse] and [urljoin] as in Python 3.13, the
    [hostname] and [port] properties, and the two URL normalisations of the
    repository: the crawler's dedup key ([normalize_url]) and the cache key of
    [common.url] ([cache_key_url]).  [None] stands for [ValueError].

    The theorems: the dedup key never depends on the fragment, nor (when told
    to ignore it) on the query; path cleaning is idempotent and never escapes
    the root. *)

From stdpp Require Import pretty.
From S2P Require Import Prelude Strings IpAddress.

Record ParseResult := mkParse {
  scheme : string; netloc : string; path : string; params : string; query : string;
  fragment : string
}.

Definition mem (s : string) (l : list string) : bool := existsb (String.eqb s) l.

Definition uses_relative : list string :=
  [""; "ftp"; "http"; "gopher"; "nntp"; "imap"; "wais"; "file"; "https"; "shttp"; "mms";
   "prospero"; "rtsp"; "rtspu"; "rtsps"; "sftp"; "svn"; "svn+ssh"; "ws"; "wss"].
Definition uses_netloc : list string :=
  [""; "ftp"; "http"; "gopher"; "nntp"; "telnet"; "imap"; "wais"; "file"; "mms"; "https"; "shttp";
   "snews"; "prospero"; "rtsp"; "rtspu"; "rtsps"; "rsync"; "svn"; "svn+ssh"; "sftp"; "nfs"; "git";
   "git+ssh"; "ws"; "wss"; "itms-services"].
Definition uses_params : list string :=
  [""; "ftp"; "hdl"; "prospero"; "http"; "imap"; "https"; "shttp"; "rtsp"; "rtspu"; "rtsps"; "sip";
   "sips"; "mms"; "sftp"; "tel"].

(** ** [urlsplit] *)

Definition c0_or_space (c : ascii) : bool := Nat.leb (chr c) 32.

(** Tab, carriage return and newline are removed. *)
Definition unsafe_byte (c : ascii) : bool :=
  Nat.eqb (chr c) 9 || Nat.eqb (chr c) 10 || Nat.eqb (chr c) 13.

Definition scheme_char (c : ascii) : bool :=
  is_alpha c || is_digit c || Ascii.eqb c "+" || Ascii.eqb c "-" || Ascii.eqb c ".".

(** [_check_bracketed_host]. *)
Definition bracketed_host_ok (h : string) : bool :=
  if starts_with "v" h then
    let '(hex, dot, rest) := partition "." (sdrop 1 h) in
    negb (is_empty hex) && sforall is_hex hex && dot && negb (is_empty rest)
  else match ip_address h with Some (V6 _ _) => true | _ => false end.

(** [_check_bracketed_netloc]. *)
Definition bracketed_netloc_ok (nl : string) : bool :=
  let '(_, _, hostport) := rpartition "@" nl in
  let '(before, br, bracketed) := partition "[" hostport in
  if br then
    let '(h, _, port) := partition "]" bracketed in
    is_empty before && (is_empty port || starts_with ":" port) && bracketed_host_ok h
  else let '(h, _, _) := partition ":" hostport in bracketed_host_ok h.

Definition split_scheme (dflt url : string) : string * string :=
  match partition ":" url with
  | (String c _ as pre, true, rest) =>
      if is_alpha c && sforall scheme_char pre then (lower pre, rest) else (dflt, url)
  | _ => (dflt, url)
  end.

(** [urlsplit(url, scheme)]. *)
Definition urlsplit (url dflt : string) : option ParseResult :=
  let url := sfilter (fun c => negb (unsafe_byte c)) (lstrip c0_or_space url) in
  let '(sch, url) := split_scheme dflt url in
  let '(nl, url) :=
    if starts_with "//" url
    then break_at (fun c => Ascii.eqb c "/" || Ascii.eqb c "?" || Ascii.eqb c "#") (sdrop 2 url)
    else ("", url) in
  let has_open := contains "[" nl in
  let has_close := contains "]" nl in
  if negb (Bool.eqb has_open has_close) then None
  else if has_open && has_close && negb (bracketed_netloc_ok nl) then None
  else
    let '(url, _, frag) := partition "#" url in
    let '(url, _, q) := partition "?" url in
    Some (mkParse sch nl url "" q frag).

(** [_splitparams]. *)
Definition splitparams (url : string) : string * string :=
  let '(dir, slash, base) := rpartition "/" url in
  let '(b, semi, ps) := partition ";" base in
  if semi then ((if slash then dir +:+ "/" +:+ b else b), ps) else (url, "").

Definition urlparse_with (url dflt : string) : option ParseResult :=
  match urlsplit url dflt with
  | None => None
  | Some r =>
      if mem (scheme r) uses_params && contains ";" (path r) then
        let '(p, ps) := splitparams (path r) in
        Some (mkParse (scheme r) (netloc r) p ps (query r) (fragment r))
      else Some r
  end.

Definition urlparse (url : string) : option ParseResult := urlparse_with url "".

(** [urlunsplit] and [urlunparse]. *)
Definition urlunsplit (sch nl url q frag : string) : string :=
  let url :=
    if negb (is_empty nl) then
      "//" +:+ nl +:+ (if negb (is_empty url) && negb (starts_with "/" url) then "/" +:+ url else url)
    else if starts_with "//" url then "//" +:+ url
    else if negb (is_empty sch) && mem sch uses_netloc && (is_empty url || starts_with "/" url)
         then "//" +:+ url
    else url in
  let url := if is_empty sch then url else sch +:+ ":" +:+ url in
  let url := if is_empty q then url else url +:+ "?" +:+ q in
  if is_empty frag then url else url +:+ "#" +:+ frag.

Definition urlunparse (r : ParseResult) : string :=
  let url := if is_empty (params r) then path r else path r +:+ ";" +:+ params r in
  urlunsplit (scheme r) (netloc r) url (query r) (fragment r).

(** ** Host and port *)

(** [_hostinfo]. *)
Definition hostinfo (nl : string) : string * string :=
  let '(_, _, hi) := rpartition "@" nl in
  let '(_, br, bracketed) := partition "[" hi in
  if br then
    let '(h, _, rest) := partition "]" bracketed in
    let '(_, _, port) := partition ":" rest in (h, port)
  else let '(h, _, port) := partition ":" hi in (h, port).

(** [parsed.hostname or ""]. *)
Definition hostname (r : ParseResult) : string :=
  let '(h, percent, zone) := partition "%" (fst (hostinfo (netloc r))) in
  lower h +:+ (if percent then "%" +:+ zone else "").

(** [parsed.port]; the outer [None] is [ValueError]. *)
Definition port (r : ParseResult) : option (option Z) :=
  let p := snd (hostinfo (netloc r)) in
  if is_empty p then Some None
  else if sforall is_digit p then let n := decimal p in if n <=? 65535 then Some (Some n) else None
  else None.

(** ** [urljoin] *)

(** [segments[1:-1] = filter(None, segments[1:-1])]. *)
Fixpoint filter_inner (l : list string) : list string :=
  match l with
  | [] | [_] => l
  | s :: l => if is_empty s then filter_inner l else s :: filter_inner l
  end.

(** The stack of resolved segments, most recent first. *)
Definition resolve_segments (segs : list string) : list string :=
  foldl (fun acc seg =>
    if String.eqb seg ".." then tail acc else if String.eqb seg "." then acc else seg :: acc) [] segs.

Definition urljoin (base url : string) : option string :=
  if is_empty base then Some url
  else if is_empty url then Some base
  else match urlparse base with
  | None => None
  | Some b =>
      match urlparse_with url (scheme b) with
      | None => None
      | Some r =>
          if negb (String.eqb (scheme r) (scheme b)) || negb (mem (scheme r) uses_relative) then Some url
          else if mem (scheme r) uses_netloc && negb (is_empty (netloc r)) then Some (urlunparse r)
          else
            let nl := if mem (scheme r) uses_netloc then netloc b else netloc r in
            if is_empty (path r) && is_empty (params r) then
              Some (urlunparse (mkParse (scheme r) nl (path b) (params b)
                (if is_empty (query r) then query b else query r) (fragment r)))
            else
              let base_parts := split "/" (path b) in
              let base_parts := match last base_parts with
                                | Some "" => base_parts
                                | _ => take (length base_parts - 1) base_parts end in
              let segs :=
                if starts_with "/" (path r) then split "/" (path r)
                else match base_parts ++ split "/" (path r) with
                     | [] => []
                     | s :: l => s :: filter_inner l
                     end in
              let resolved := resolve_segments segs in
              let resolved := match last segs with
                              | Some s => if String.eqb s "." || String.eqb s ".." then "" :: resolved
                                          else resolved
                              | None => resolved end in
              let p := sjoin "/" (rev resolved) in
              Some (urlunparse (mkParse (scheme r) nl (if is_empty p then "/" else p) (params r)
                (query r) (fragment r)))
      end
  end.

(** ** Path cleaning *)

(** The component stack of [posixpath.normpath] for an absolute ([abs]) or
    relative path, most recent first. *)
Definition norm_push (abs : bool) (acc : list string) (comp : string) : list string :=
  if is_empty comp || String.eqb comp "." then acc
  else if negb (String.eqb comp "..") || (negb abs && match acc with [] => true | _ => false end)
          || match acc with top :: _ => String.eqb top ".." | [] => false end
       then comp :: acc
  else tail acc.

Definition normpath (p : string) : string :=
  if is_empty p then "."
  else
    let slashes := if starts_with "//" p && negb (starts_with "///" p) then "//"
                   else if starts_with "/" p then "/" else "" in
    let comps := rev (foldl (norm_push (negb (is_empty slashes))) [] (split "/" p)) in
    let r := slashes +:+ sjoin "/" comps in
    if is_empty r then "." else r.

(** [_clean_path]. *)
Definition clean_path (p : string) : string :=
  if is_empty p then "/" else let c := normpath p in if is_empty c then "/" else c.

(** ** Normalisations *)

Definition is_slash (c : ascii) : bool := Ascii.eqb c "/".

Definition sort_query (q : string) : string :=
  if is_empty q then "" else sjoin "&" (sorted_strs (split "&" q)).

(** [crawler.normalize_url]: the dedup key of a crawl. *)
Definition normalize_url (ignore_query_parameters : bool) (url : string) : option string :=
  match urlparse url with
  | None => None
  | Some r =>
      match port r with
      | None => None
      | Some prt =>
          let sch := lower (scheme r) in
          let host := lower (hostname r) in
          let p := clean_path (if is_empty (path r) then "/" else path r) in
          let nl :=
            match prt with
            | Some n => if (String.eqb sch "http" && (n =? 80)) || (String.eqb sch "https" && (n =? 443))
                        then host else host +:+ ":" +:+ pretty n
            | None => host
            end in
          let p := if Nat.ltb 1 (slen p) && ends_with "/" p then rstrip is_slash p else p in
          let q := if ignore_query_parameters then "" else sort_query (query r) in
          Some (urlunparse (mkParse sch nl p (params r) q ""))
      end
  end.

(** [common.url.normalize_url]: the cache key of a page. *)
Definition cache_key_url (url : string) : option string :=
  match urlparse url with
  | None => None
  | Some r =>
      let p := if negb (String.eqb (lower (path r)) "/") then rstrip is_slash (lower (path r)) else "/" in
      let q := if is_empty (query r) then "" else sjoin "&" (sorted_strs (split "&" (lower (query r)))) in
      Some (lower (scheme r) +:+ "://" +:+ lower (netloc r) +:+ p
            +:+ (if is_empty q then "" else "?" +:+ q)
            +:+ (if is_empty (fragment r) then "" else "#" +:+ fragment r))
  end.

(** [common.url.extract_domain]. *)
Definition extract_domain (url : string) (include_scheme : bool) : option string :=
  match urlparse url with
  | None => None
  | Some r =>
      let h := hostname r in
      if is_empty h then Some ""
      else if include_scheme then
        match port r with
        | None => None
        | Some prt =>
            let ps := match prt with Some n => ":" +:+ pretty n | None => "" end in
            let host := if contains ":" h then "[" +:+ h +:+ "]" else h in
            Some (scheme r +:+ "://" +:+ host +:+ ps)
        end
      else Some h
  end.

(** [common.url.is_same_origin]. *)
Definition is_same_origin (u1 u2 : string) : option bool :=
  match urlparse u1, urlparse u2 with
  | Some p1, Some p2 =>
      Some (String.eqb (lower (scheme p1)) (lower (scheme p2))
            && String.eqb (lower (netloc p1)) (lower (netloc p2)))
  | _, _ => None
  end.

(** ** Path cleaning *)

(** A component that names something: not empty, [.], [..], and without [/]. *)
Definition plain (s : string) : bool :=
  negb (is_empty s) && negb (String.eqb s ".") && negb (String.eqb s "..") && negb (contains "/" s).

Lemma split_no_sep s : contains "/" s = false -> split "/" s = [s].
Proof.
  induction s as [|c s IH]; cbn; [done|]. intros [-> Hs]%orb_false_iff. by rewrite IH.
Qed.

Lemma split_app_sep s t : contains "/" s = false -> split "/" (s +:+ String "/" t) = s :: split "/" t.
Proof.
  induction s as [|c s IH]; [done|]. rewrite sapp_cons. cbn.
  intros [-> Hs]%orb_false_iff. by rewrite IH.
Qed.

(** [split] undoes [join] on components without the separator. *)
Lemma split_sjoin l :
  l <> [] -> Forall (fun s => contains "/" s = false) l -> split "/" (sjoin "/" l) = l.
Proof.
  induction l as [|s [|t l] IH]; intros Hne Hf; [done| |].
  - cbn. apply Forall_cons in Hf as [Hs _]. by apply split_no_sep.
  - apply Forall_cons in Hf as [Hs Hf]. change (sjoin "/" (s :: t :: l)) with (s +:+ String "/" (sjoin "/" (t :: l))).
    rewrite split_app_sep by done. by rewrite IH.
Qed.

Lemma split_no_sep_parts s : Forall (fun p => contains "/" p = false) (split "/" s).
Proof.
  induction s as [|c s IH]; cbn; [by repeat constructor|].
  destruct (Ascii.eqb "/" c) eqn:E; [by constructor|].
  destruct (split "/" s) as [|p ps]; [by repeat constructor; cbn; rewrite E|].
  apply Forall_cons in IH as [H1 H2]. constructor; [cbn; by rewrite E|done].
Qed.

Lemma norm_push_plain acc comp :
  Forall (fun s => plain s = true) acc -> contains "/" comp = false ->
  Forall (fun s => plain s = true) (norm_push true acc comp).
Proof.
  intros Ha Hc. unfold norm_push. destruct (is_empty comp || String.eqb comp ".") eqn:E1; [done|].
  apply orb_false_iff in E1 as [E1 E2].
  destruct (String.eqb comp "..") eqn:E3; cbn [negb orb andb].
  - destruct acc as [|top acc]; cbn [tail]; [done|]. apply Forall_cons in Ha as [Ht Ha].
    destruct (String.eqb top "..") eqn:E4; [|done]. unfold plain in Ht. rewrite E4 in Ht.
    rewrite andb_false_r in Ht. done.
  - constructor; [|done]. unfold plain. by rewrite E1, E2, E3, Hc.
Qed.

Lemma norm_fold_plain comps : forall acc,
  Forall (fun s => plain s = true) acc -> Forall (fun s => contains "/" s = false) comps ->
  Forall (fun s => plain s = true) (foldl (norm_push true) acc comps).
Proof.
  induction comps as [|c comps IH]; intros acc Ha Hc; [done|].
  apply Forall_cons in Hc as [H1 H2]. cbn. apply IH; [by apply norm_push_plain|done].
Qed.

(** Plain components are kept as they are. *)
Lemma norm_fold_id comps : forall acc,
  Forall (fun s => plain s = true) comps ->
  foldl (norm_push true) acc comps = rev comps ++ acc.
Proof.
  induction comps as [|c comps IH]; intros acc Hc; [done|].
  apply Forall_cons in Hc as [H1 H2]. cbn. rewrite IH by done. rewrite <- app_assoc. cbn.
  f_equal. unfold norm_push. unfold plain in H1. bool_to_prop. by rewrite H, H3, H1.
Qed.

(** The slashes an absolute path starts with after cleaning, and its
    components. *)
Definition lead (p : string) : string :=
  if starts_with "//" p && negb (starts_with "///" p) then "//" else "/".

Definition components (p : string) : list string :=
  rev (foldl (norm_push true) [] (split "/" p)).

Lemma clean_path_absolute p :
  starts_with "/" p = true -> clean_path p = lead p +:+ sjoin "/" (components p).
Proof.
  intros Hs. unfold clean_path, normpath, lead, components. destruct p as [|c p]; [done|].
  cbn [is_empty]. rewrite Hs.
  destruct (starts_with "//" (String c p) && negb (starts_with "///" (String c p))); done.
Qed.

Lemma components_plain p : Forall (fun s => plain s = true) (components p).
Proof.
  unfold components. apply Forall_rev, norm_fold_plain; [constructor|apply split_no_sep_parts].
Qed.

Lemma plain_head s l : plain s = true -> starts_with "/" (sjoin "/" (s :: l)) = false.
Proof.
  unfold plain. intros H. bool_to_prop. destruct s as [|c s]; [done|].
  cbn in H0. apply orb_false_iff in H0 as [H0 _]. destruct l; cbn [sjoin]; rewrite ?sapp_cons; cbn [starts_with]; by rewrite H0.
Qed.

(** Cleaning an absolute URL path resolves every dot segment without leaving
    the root: the result is the leading slash (or the double slash POSIX keeps)
    followed by components none of which is empty, [.] or [..]; and cleaning
    the result again changes nothing. *)
Theorem clean_path_normal p :
  starts_with "/" p = true ->
  clean_path p = lead p +:+ sjoin "/" (components p) /\
  Forall (fun s => plain s = true) (components p) /\
  clean_path (clean_path p) = clean_path p.
Proof.
  intros Hs. pose proof (clean_path_absolute p Hs) as Hc. pose proof (components_plain p) as Hp.
  split_and!; [done|done|]. rewrite Hc. set (l := components p) in *.
  assert (Hl : lead p = "/" \/ lead p = "//") by (unfold lead; case_match; auto).
  assert (Hs' : starts_with "/" (lead p +:+ sjoin "/" l) = true) by (by destruct Hl as [-> | ->]).
  rewrite (clean_path_absolute _ Hs').
  assert (Hnh : starts_with "/" (sjoin "/" l) = false).
  { destruct l as [|s l0]; [done|]. apply Forall_cons in Hp as [H _]. by apply plain_head. }
  assert (Hlead : lead (lead p +:+ sjoin "/" l) = lead p).
  { unfold lead at 1. destruct (sjoin "/" l) as [|c s]; [by destruct Hl as [-> | ->]|].
    cbn [starts_with] in Hnh. rewrite andb_true_r in Hnh.
    destruct Hl as [-> | ->]; rewrite !sapp_cons, sapp_nil; cbn [starts_with];
      change (Ascii.eqb "/" "/") with true; rewrite Hnh; done. }
  rewrite Hlead. f_equal. f_equal. unfold components.
  assert (Hsp : split "/" (sjoin "/" l) = if bool_decide (l = []) then [""] else l).
  { case_bool_decide as E; [by rewrite E|]. apply split_sjoin; [done|].
    eapply Forall_impl; [exact Hp|]. intros s H. unfold plain in H. by bool_to_prop. }
  assert (Hf : foldl (norm_push true) [] (split "/" (sjoin "/" l)) = rev l).
  { rewrite Hsp. case_bool_decide as E; [by rewrite E|]. rewrite norm_fold_id by done. by rewrite app_nil_r. }
  destruct Hl as [-> | ->]; rewrite !sapp_cons, sapp_nil; cbn [split];
    change (Ascii.eqb "/" "/") with true; cbn [foldl norm_push is_empty orb]; rewrite Hf;
    apply rev_involutive.
Qed.

Lemma clean_path_normal_witness :
  starts_with "/" "/a/../../b//./c/" = true /\ clean_path "/a/../../b//./c/" = "/b/c" /\
  clean_path (clean_path "/a/../../b//./c/") = clean_path "/a/../../b//./c/".
Proof.
  split; [reflexivity|]. split; [reflexivity|].
  exact (proj2 (proj2 (clean_path_normal "/a/../../b//./c/" eq_refl))).
Defined.

(** ** What the dedup key ignores *)

(** Appending [?...] or [#...] leaves the scheme alone. *)
Lemma split_scheme_app dflt c s t :
  contains c s = false -> scheme_char c = false -> c <> ":"%char ->
  split_scheme dflt (s +:+ String c t)
    = let '(sch, r) := split_scheme dflt s in (sch, r +:+ String c t).
Proof.
  intros Hc Hs Hne. unfold split_scheme. destruct (contains ":" s) eqn:Hd.
  - pose proof (partition_found ":" s (String c t) Hd) as H.
    destruct (partition ":" s) as [[a b] r]. destruct H as [-> H]. injection H as ->.
    destruct a as [|x a]; [done|]. by destruct (_ && _).
  - pose proof (partition_prefix c s Hc ":" t) as H. rewrite (partition_absent ":" s Hd).
    destruct (partition ":" (s +:+ String c t)) as [[a b] r]. destruct s as [|y s0].
    all: destruct a as [|x a]; [done|]; destruct b; [|done].
    all: rewrite (sforall_contains scheme_char c (String x a)), andb_false_r; [done|done|apply H; congruence].
Qed.

Definition netloc_end (c : ascii) : bool := Ascii.eqb c "/" || Ascii.eqb c "?" || Ascii.eqb c "#".

Lemma split_scheme_contains dflt c s :
  contains c s = false -> contains c (snd (split_scheme dflt s)) = false.
Proof.
  intros H. unfold split_scheme. pose proof (partition_app ":" s) as Hp.
  destruct (partition ":" s) as [[a b] r]. destruct a as [|x a]; [done|]. destruct b; [|done].
  destruct (_ && _); [|done]. cbn. rewrite Hp, contains_app in H. cbn in H.
  apply orb_false_iff in H as [_ H]. by apply orb_false_iff in H as [_ H].
Qed.

(** The authority of a URL, and what follows it. *)
Definition split_netloc (url : string) : string * string :=
  if starts_with "//" url then break_at netloc_end (sdrop 2 url) else ("", url).

Lemma split_netloc_app s c t :
  netloc_end c = true -> c <> "/"%char ->
  split_netloc (s +:+ String c t) = let '(nl, r) := split_netloc s in (nl, r +:+ String c t).
Proof.
  intros Hc Hne. unfold split_netloc.
  assert (Hs : Ascii.eqb "/" c = false) by (apply Ascii.eqb_neq; congruence).
  destruct s as [|a s]; [rewrite sapp_nil; cbn; by rewrite Hs|].
  destruct s as [|b s]; [rewrite sapp_cons, sapp_nil; cbn; rewrite Hs; by destruct (Ascii.eqb "/" a)|].
  rewrite !sapp_cons. cbn. destruct (Ascii.eqb "/" a); [|done]. destruct (Ascii.eqb "/" b); [|done]. cbn.
  by apply break_at_app.
Qed.

Lemma split_netloc_contains c s : contains c s = false -> contains c (snd (split_netloc s)) = false.
Proof.
  intros H. unfold split_netloc. destruct (starts_with "//" s); [|done].
  apply break_at_contains. destruct s as [|a [|b s]]; cbn in *; try done.
  apply orb_false_iff in H as [_ H]. by apply orb_false_iff in H as [_ H].
Qed.

(** [urlsplit] in terms of its parts. *)
Lemma urlsplit_parts url dflt :
  let w := sfilter (fun c => negb (unsafe_byte c)) (lstrip c0_or_space url) in
  let '(sch, x) := split_scheme dflt w in
  let '(nl, r) := split_netloc x in
  urlsplit url dflt =
    if negb (Bool.eqb (contains "[" nl) (contains "]" nl)) then None
    else if contains "[" nl && contains "]" nl && negb (bracketed_netloc_ok nl) then None
    else
      let '(r, _, frag) := partition "#" r in
      let '(r, _, q) := partition "?" r in
      Some (mkParse sch nl r "" q frag).
Proof.
  intros w. unfold urlsplit. fold w. destruct (split_scheme dflt w) as [sch x].
  fold netloc_end. unfold split_netloc.
  destruct (starts_with "//" x); [|done].
  change (fun c => Ascii.eqb c "/" || Ascii.eqb c "?" || Ascii.eqb c "#") with netloc_end.
  by destruct (break_at netloc_end (sdrop 2 x)).
Qed.

(** What [urlsplit] makes of a URL with a fragment. *)
Lemma urlsplit_fragment u f dflt :
  contains "#" u = false ->
  urlsplit (u +:+ "#" +:+ f) dflt
    = (fun r => mkParse (scheme r) (netloc r) (path r) (params r) (query r)
                  (sfilter (fun c => negb (unsafe_byte c)) f)) <$> urlsplit u dflt.
Proof.
  intros Hu. pose proof (urlsplit_parts u dflt) as H1. pose proof (urlsplit_parts (u +:+ "#" +:+ f) dflt) as H2.
  cbn zeta in H1, H2. change ("#" +:+ f) with (String "#" f) in *.
  rewrite lstrip_app, sfilter_app in H2 by done. cbn [sfilter] in H2.
  change (negb (unsafe_byte "#")) with true in H2. cbv iota in H2.
  set (w := sfilter _ (lstrip c0_or_space u)) in *.
  assert (Hw : contains "#" w = false) by (by apply contains_sfilter, contains_lstrip).
  rewrite split_scheme_app in H2 by done.
  pose proof (split_scheme_contains dflt "#" w Hw) as Hx.
  destruct (split_scheme dflt w) as [sch x]. cbn in Hx.
  rewrite split_netloc_app in H2 by done.
  pose proof (split_netloc_contains "#" x Hx) as Hr. destruct (split_netloc x) as [nl r]. cbn in Hr.
  rewrite H1, H2. destruct (negb (Bool.eqb _ _)); [done|]. destruct (_ && _ && _); [done|].
  rewrite (partition_at "#" r _ Hr), (partition_absent "#" r Hr).
  by destruct (partition "?" r) as [[r' b] q].
Qed.

(** What [urlsplit] makes of a URL with a query. *)
Lemma urlsplit_query u q dflt :
  contains "#" u = false -> contains "?" u = false -> contains "#" q = false ->
  urlsplit (u +:+ "?" +:+ q) dflt
    = (fun r => mkParse (scheme r) (netloc r) (path r) (params r)
                  (sfilter (fun c => negb (unsafe_byte c)) q) (fragment r)) <$> urlsplit u dflt.
Proof.
  intros Hu Hu' Hq. pose proof (urlsplit_parts u dflt) as H1. pose proof (urlsplit_parts (u +:+ "?" +:+ q) dflt) as H2.
  cbn zeta in H1, H2. change ("?" +:+ q) with (String "?" q) in *.
  rewrite lstrip_app, sfilter_app in H2 by done. cbn [sfilter] in H2.
  change (negb (unsafe_byte "?")) with true in H2. cbv iota in H2.
  set (w := sfilter _ (lstrip c0_or_space u)) in *.
  assert (Hw : contains "#" w = false) by (by apply contains_sfilter, contains_lstrip).
  assert (Hw' : contains "?" w = false) by (by apply contains_sfilter, contains_lstrip).
  rewrite split_scheme_app in H2 by done.
  pose proof (split_scheme_contains dflt "#" w Hw) as Hx.
  pose proof (split_scheme_contains dflt "?" w Hw') as Hx'.
  destruct (split_scheme dflt w) as [sch x]. cbn in Hx, Hx'.
  rewrite split_netloc_app in H2 by done.
  pose proof (split_netloc_contains "#" x Hx) as Hr. pose proof (split_netloc_contains "?" x Hx') as Hr'.
  destruct (split_netloc x) as [nl r]. cbn in Hr, Hr'.
  rewrite H1, H2. destruct (negb (Bool.eqb _ _)); [done|]. destruct (_ && _ && _); [done|].
  rewrite (partition_absent "#" (r +:+ _)).
  2:{ rewrite contains_app, Hr. cbn. apply contains_sfilter. done. }
  rewrite (partition_at "?" r _ Hr'), (partition_absent "#" r Hr), (partition_absent "?" r Hr'). done.
Qed.

(** The dedup key is a function of these parts. *)
Lemma normalize_url_ext ign u1 u2 :
  match urlsplit u1 "", urlsplit u2 "" with
  | Some r1, Some r2 =>
      scheme r1 = scheme r2 /\ netloc r1 = netloc r2 /\ path r1 = path r2 /\ params r1 = params r2 /\
      (ign = true \/ query r1 = query r2)
  | None, None => True
  | _, _ => False
  end ->
  normalize_url ign u1 = normalize_url ign u2.
Proof.
  unfold normalize_url, urlparse, urlparse_with.
  destruct (urlsplit u1 "") as [r1|], (urlsplit u2 "") as [r2|]; try done.
  intros (H1 & H2 & H3 & H4 & H5). rewrite H1, H3.
  destruct (mem (scheme r2) uses_params && contains ";" (path r2)).
  - destruct (splitparams (path r2)) as [p ps]. unfold port, hostname. cbn. rewrite H2.
    destruct H5 as [-> | ->]; done.
  - unfold port, hostname. rewrite H1, H2, H3, H4. destruct H5 as [-> | ->]; done.
Qed.

(** The key a crawl deduplicates by ignores what the crawl is meant to ignore:
    a fragment never matters, and with [ignore_query_parameters] neither does
    the query string, whatever characters they hold. *)
Theorem normalize_url_ignores u q f ign :
  contains "#" u = false ->
  normalize_url ign (u +:+ "#" +:+ f) = normalize_url ign u /\
  (contains "?" u = false -> contains "#" q = false ->
   normalize_url true (u +:+ "?" +:+ q) = normalize_url true u).
Proof.
  intros Hu. split; [|intros Hu' Hq]; apply normalize_url_ext.
  - rewrite urlsplit_fragment by done. destruct (urlsplit u ""); cbn; [by split_and!; auto|done].
  - rewrite urlsplit_query by done. destruct (urlsplit u ""); cbn; [by split_and!; auto|done].
Qed.

Lemma normalize_url_ignores_witness :
  normalize_url false "HTTP://Example.com:80/a/./b/#top:x" = Some "http://example.com/a/b" /\
  normalize_url true "http://h.org/p?x=1:2" = normalize_url true "http://h.org/p".
Proof.
  split.
  - destruct (normalize_url_ignores "HTTP://Example.com:80/a/./b/" "" "top:x" false eq_refl) as [H _].
    etransitivity; [exact H|]. vm_compute. reflexivity.
  - exact (proj2 (normalize_url_ignores "http://h.org/p" "x=1:2" "" false eq_refl) eq_refl eq_refl).
Defined.

Lemma mem_elem k l : mem k l = true <-> k ∈ l.
Proof.
  unfold mem. rewrite existsb_exists. setoid_rewrite String.eqb_eq. setoid_rewrite <- list_elem_of_In.
  split; [by intros (x & Hx & ->)|intros H; by exists k].
Qed.
