(* ===== verification/HostPolicy.v ===== *)
(** * The outbound host policy ([src/common/url.py])

    [is_private_host] guards the crawler, [validate_outbound_webhook_url] the
    webhooks.  [socket.getaddrinfo] is a parameter ([Dns]); what it returns may
    change between two calls, so each check takes its own answer.  [None] is
    the [ValueError] of [urlparse].

    The theorems: both guards accept a URL only when every address it can
    resolve to is unrestricted, they fail closed, and they agree. *)

From S2P Require Import Prelude Strings IpAddress Url.

(** What [socket.getaddrinfo(hostname, None)] does. *)
Inductive DnsResult :=
| Sockaddrs (l : list string)        (* the textual addresses *)
| GaiError (eai_again : bool)        (* socket.gaierror *)
| NotIdna.                           (* UnicodeError *)

Definition Dns : Type := string -> DnsResult.

(** [_resolve_to_ips_with_transient]. *)
Definition resolve_to_ips_with_transient (dns : Dns) (host : string) : list ipaddr * bool :=
  match dns host with
  | Sockaddrs l => (remove_dups (omap ip_address l), false)
  | GaiError again => ([], again)
  | NotIdna => ([], false)
  end.

(** [_resolve_to_ips]. *)
Definition resolve_to_ips (dns : Dns) (host : string) : list ipaddr :=
  fst (resolve_to_ips_with_transient dns host).

Definition PRIVATE_HOSTNAME_SUFFIXES : list string := [".docker.internal"].

Definition private_suffix (host : string) : bool :=
  existsb (fun s => ends_with s (lower host)) PRIVATE_HOSTNAME_SUFFIXES.

(** [is_private_host_literal]; [None]: a lookup is needed. *)
Definition is_private_host_literal (host : string) : option bool :=
  if is_empty host then Some true
  else if private_suffix host then Some true
  else match ip_address host with
       | Some a => Some (addr_is_restricted a)
       | None => None
       end.

(** [is_private_host]. *)
Definition is_private_host (dns : Dns) (url : string) : option bool :=
  match urlparse url with
  | None => None
  | Some r =>
      let host := hostname r in
      if is_empty host then Some true
      else match is_private_host_literal host with
           | Some b => Some b
           | None =>
               let ips := resolve_to_ips dns host in
               Some (match ips with [] => true | _ => existsb addr_is_restricted ips end)
           end
  end.

(** What [validate_outbound_webhook_url] does. *)
Inductive Verdict :=
| Accepted
| DNSRetryable            (* WebhookDestinationDNSRetryableError *)
| Rejected.               (* WebhookDestinationValidationError *)

#[export] Instance Verdict_eq_dec : EqDecision Verdict.
Proof. solve_decision. Defined.

(** [_validate_outbound_webhook_url_inner] inside the wrapper of
    [validate_outbound_webhook_url], which turns every other exception into a
    permanent rejection. *)
Definition validate_outbound_webhook_url (dns : Dns) (url : string) : Verdict :=
  if is_empty (strip url) then Rejected
  else match urlparse url with
  | None => Rejected
  | Some r =>
      if negb (mem (lower (scheme r)) ["http"; "https"]) then Rejected
      else
        let host := hostname r in
        if is_empty host then Rejected
        else if private_suffix host then Rejected
        else match ip_address host with
        | Some a => if addr_is_restricted a then Rejected else Accepted
        | None =>
            let '(ips, transient) := resolve_to_ips_with_transient dns host in
            if transient then DNSRetryable
            else match ips with
                 | [] => Rejected
                 | _ => if existsb addr_is_restricted ips then Rejected else Accepted
                 end
        end
  end.

(** ** Theorems *)

(** Every address a host name stands for, the literal included. *)
Definition addresses (dns : Dns) (host : string) : list ipaddr :=
  match ip_address host with Some a => [a] | None => resolve_to_ips dns host end.

(** The host may be contacted: it is named, not under an internal suffix, and
    resolves to at least one address, all of them unrestricted. *)
Definition public_host (dns : Dns) (host : string) : Prop :=
  host <> "" /\ private_suffix host = false /\ addresses dns host <> [] /\
  Forall (fun a => addr_is_restricted a = false) (addresses dns host).

Lemma existsb_false {A} (f : A -> bool) l : existsb f l = false <-> Forall (fun a => f a = false) l.
Proof.
  induction l as [|a l IH]; cbn; [by split|]. by rewrite orb_false_iff, IH, Forall_cons.
Qed.

Lemma is_empty_false s : is_empty s = false <-> s <> "".
Proof. by destruct s. Qed.

(** A restricted address anywhere, or no address at all. *)
Lemma host_checks dns host :
  is_empty host = false -> private_suffix host = false ->
  (match ip_address host with
   | Some a => addr_is_restricted a
   | None => match resolve_to_ips dns host with
             | [] => true | _ => existsb addr_is_restricted (resolve_to_ips dns host) end
   end = false <-> public_host dns host).
Proof.
  intros He Hs. unfold public_host, addresses. rewrite is_empty_false in He.
  destruct (ip_address host) as [a|].
  - rewrite Forall_singleton. split; [by intros|by intros (_ & _ & _ & H)].
  - destruct (resolve_to_ips dns host) as [|i l] eqn:E; [by split; [|intros (_ & _ & H & _)]|].
    rewrite existsb_false. split; [by intros|by intros (_ & _ & _ & H)].
Qed.

Lemma private_host_iff dns url r :
  urlparse url = Some r ->
  (is_private_host dns url = Some false <-> public_host dns (hostname r)).
Proof.
  intros Hp. unfold is_private_host, is_private_host_literal. rewrite Hp.
  destruct (is_empty (hostname r)) eqn:He.
  { split; [done|]. intros (Hn & _). apply is_empty_false in Hn. congruence. }
  destruct (private_suffix (hostname r)) eqn:Hs; [split; [done|intros (_ & H & _); congruence]|].
  rewrite <- (host_checks dns (hostname r) He Hs).
  destruct (ip_address (hostname r)); split; congruence.
Qed.

(** C4. The crawler's SSRF guard fails closed and is complete: a parseable URL
    is let through exactly when its host is public, that is named, outside the
    internal suffixes, resolvable, and with no restricted address among all it
    resolves to; and an IPv6 literal that carries a restricted IPv4 destination
    is never let through. *)
Theorem private_host_guard dns url r :
  urlparse url = Some r ->
  (is_private_host dns url = Some false <-> public_host dns (hostname r)) /\
  (forall n x s, 0 <= n < 2 ^ 32 -> carries n x -> restricted_ipv4 n = true ->
     ip_address (hostname r) = Some (V6 x s) -> is_private_host dns url = Some true).
Proof.
  intros Hp. split; [by apply private_host_iff|]. intros n x s Hn Hc Hr Ha.
  unfold is_private_host, is_private_host_literal. rewrite Hp, Ha.
  destruct (is_empty (hostname r)); [done|]. destruct (private_suffix (hostname r)); [done|].
  destruct (unmap_carries n x s Hn Hc) as (_ & Hu & _).
  unfold addr_is_restricted. by rewrite Hu, listed_ipv4, Hr, orb_true_r.
Qed.

Lemma webhook_guard_spec dns url :
  (validate_outbound_webhook_url dns url = Accepted <->
     exists r, urlparse url = Some r /\ mem (lower (scheme r)) ["http"; "https"] = true /\
       strip url <> "" /\ is_private_host dns url = Some false) /\
  (validate_outbound_webhook_url dns url = DNSRetryable ->
     exists r, urlparse url = Some r /\ ip_address (hostname r) = None /\
       dns (hostname r) = GaiError true).
Proof.
  unfold validate_outbound_webhook_url.
  destruct (is_empty (strip url)) eqn:Hst.
  { split; [|done]. split; [done|]. intros (r & _ & _ & H & _). apply is_empty_false in H. congruence. }
  apply is_empty_false in Hst.
  destruct (urlparse url) as [r|] eqn:Hp; [|split; [split; [done|by intros (? & ? & _)]|done]].
  destruct (mem (lower (scheme r)) ["http"; "https"]) eqn:Hsch; cbn [negb].
  2:{ split; [|done]. split; [done|]. intros (r' & [= <-] & H & _). congruence. }
  assert (Hx : (exists r0, Some r = Some r0 /\ mem (lower (scheme r0)) ["http"; "https"] = true /\
       strip url <> "" /\ is_private_host dns url = Some false) <-> public_host dns (hostname r)).
  { rewrite <- (private_host_iff dns url r Hp). split; [by intros (_ & _ & _ & _ & H)|].
    intros H. by exists r. }
  rewrite Hx. clear Hx.
  destruct (is_empty (hostname r)) eqn:He.
  { split; [|done]. split; [done|]. intros (Hn & _). apply is_empty_false in Hn. congruence. }
  destruct (private_suffix (hostname r)) eqn:Hs.
  { split; [|done]. split; [done|]. intros (_ & H & _). congruence. }
  rewrite <- (host_checks dns (hostname r) He Hs). unfold resolve_to_ips.
  destruct (ip_address (hostname r)) as [a|] eqn:Ha.
  { destruct (addr_is_restricted a); split; done. }
  unfold resolve_to_ips_with_transient. destruct (dns (hostname r)) as [l|again|] eqn:Hd; cbn [fst].
  - destruct (remove_dups _) as [|i rest]; [done|].
    destruct (existsb addr_is_restricted (i :: rest)); split; done.
  - destruct again; [|done]. split; [done|]. intros _. by exists r.
  - done.
Qed.

(** An accepted destination is public. *)
Lemma accepted_public dns url :
  validate_outbound_webhook_url dns url = Accepted ->
  exists r, urlparse url = Some r /\ mem (lower (scheme r)) ["http"; "https"] = true /\
    public_host dns (hostname r).
Proof.
  intros Ha. destruct (webhook_guard_spec dns url) as [[H _] _].
  destruct (H Ha) as (r & Hp & Hm & _ & Hpr). exists r. split_and!; [done|done|].
  by apply (private_host_iff dns url r Hp).
Qed.

(** The webhook guard agrees with the crawler's: a destination is accepted
    exactly when it is an http(s) URL whose host is public, and a retryable
    verdict is given only for a host name whose resolver answered
    [EAI_AGAIN]. *)
Theorem webhook_guard_agrees dns url :
  (validate_outbound_webhook_url dns url = Accepted <->
     exists r, urlparse url = Some r /\ mem (lower (scheme r)) ["http"; "https"] = true /\
       strip url <> "" /\ is_private_host dns url = Some false) /\
  (validate_outbound_webhook_url dns url = DNSRetryable ->
     exists r, urlparse url = Some r /\ ip_address (hostname r) = None /\
       dns (hostname r) = GaiError true).
Proof. apply webhook_guard_spec. Qed.

Definition demo_dns : Dns := fun h =>
  if String.eqb h "example.com" then Sockaddrs ["93.184.216.34"; "2606:2800::1"] else GaiError false.

Lemma private_host_guard_witness :
  is_private_host demo_dns "https://example.com/x" = Some false /\
  public_host demo_dns "example.com" /\
  is_private_host demo_dns "http://[::ffff:127.0.0.1]/" = Some true.
Proof.
  assert (H : is_private_host demo_dns "https://example.com/x" = Some false) by (vm_compute; reflexivity).
  split; [exact H|]. split.
  - exact (proj1 (proj1 (private_host_guard demo_dns "https://example.com/x" _ eq_refl)) H).
  - apply (proj2 (private_host_guard demo_dns "http://[::ffff:127.0.0.1]/" _ eq_refl)
      (ipv4 127 0 0 1) (0xFFFF * 2 ^ 32 + ipv4 127 0 0 1) None);
      [vm_compute; split; congruence|apply c_mapped|reflexivity|vm_compute; reflexivity].
Defined.
