(* ===== verification/Capture.v ===== *)
(** * Capture destinations ([src/common/capture_destination.py])

    Resolving an authority once, vetting every answer and dialling a vetted
    numeric peer.  [parse_authority] is the strict parser, [canonical_vetted]
    the address policy (with the address properties of [ipaddress] in Python
    3.12), [resolve_and_connect] and [resolve_and_connect_model_target] the two
    entry points.  The resolver and the dialler are the code's own injected
    parameters: what they answer is an argument, the deadline firing included.
    IDNA encoding is a parameter.

    The theorems: the only address ever dialled is a vetted one and the socket
    returned is connected to it; every refused socket is closed; the policy is
    at least as strict as the SSRF guard of the crawler; private addresses are
    reached only for granted model hosts, and answers never mix scopes. *)

From stdpp Require Import pretty.
From S2P Require Import Prelude Strings IpAddress.

(** ** Address properties ([ipaddress]) *)

Definition V4_PRIVATE : list network :=
  [mkNetwork false (ipv4 0 0 0 0) 8; mkNetwork false (ipv4 10 0 0 0) 8; mkNetwork false (ipv4 127 0 0 0) 8;
   mkNetwork false (ipv4 169 254 0 0) 16; mkNetwork false (ipv4 172 16 0 0) 12;
   mkNetwork false (ipv4 192 0 0 0) 24; mkNetwork false (ipv4 192 0 0 170) 31;
   mkNetwork false (ipv4 192 0 2 0) 24; mkNetwork false (ipv4 192 168 0 0) 16;
   mkNetwork false (ipv4 198 18 0 0) 15; mkNetwork false (ipv4 198 51 100 0) 24;
   mkNetwork false (ipv4 203 0 113 0) 24; mkNetwork false (ipv4 240 0 0 0) 4;
   mkNetwork false (ipv4 255 255 255 255) 32].
Definition V4_PRIVATE_EXCEPTIONS : list network :=
  [mkNetwork false (ipv4 192 0 0 9) 32; mkNetwork false (ipv4 192 0 0 10) 32].

Definition V6_PRIVATE : list network :=
  [mkNetwork true 1 128; mkNetwork true 0 128; mkNetwork true (0xFFFF * 2 ^ 32) 96;
   mkNetwork true (0x64ff9b0001 * 2 ^ 80) 48; mkNetwork true (0x100 * 2 ^ 112) 64;
   mkNetwork true (0x2001 * 2 ^ 112) 23; mkNetwork true (0x20010db8 * 2 ^ 96) 32;
   mkNetwork true (0x2002 * 2 ^ 112) 16; mkNetwork true (0xfc00 * 2 ^ 112) 7;
   mkNetwork true (0xfe80 * 2 ^ 112) 10].
Definition V6_PRIVATE_EXCEPTIONS : list network :=
  [mkNetwork true (0x20010001 * 2 ^ 96 + 1) 128; mkNetwork true (0x20010001 * 2 ^ 96 + 2) 128;
   mkNetwork true (0x20010003 * 2 ^ 96) 32; mkNetwork true (0x200100040112 * 2 ^ 80) 48;
   mkNetwork true (0x20010020 * 2 ^ 96) 28; mkNetwork true (0x20010030 * 2 ^ 96) 28].
Definition V6_RESERVED : list network :=
  [mkNetwork true 0 8; mkNetwork true (0x100 * 2 ^ 112) 8; mkNetwork true (0x200 * 2 ^ 112) 7;
   mkNetwork true (0x400 * 2 ^ 112) 6; mkNetwork true (0x800 * 2 ^ 112) 5; mkNetwork true (0x1000 * 2 ^ 112) 4;
   mkNetwork true (0x4000 * 2 ^ 112) 3; mkNetwork true (0x6000 * 2 ^ 112) 3; mkNetwork true (0x8000 * 2 ^ 112) 3;
   mkNetwork true (0xA000 * 2 ^ 112) 3; mkNetwork true (0xC000 * 2 ^ 112) 3; mkNetwork true (0xE000 * 2 ^ 112) 4;
   mkNetwork true (0xF000 * 2 ^ 112) 5; mkNetwork true (0xF800 * 2 ^ 112) 6; mkNetwork true (0xFE00 * 2 ^ 112) 9].

Definition v4_private (n : Z) : bool :=
  existsb (in_network (V4 n)) V4_PRIVATE && negb (existsb (in_network (V4 n)) V4_PRIVATE_EXCEPTIONS).

Definition is_private (a : ipaddr) : bool :=
  match a with
  | V4 n => v4_private n
  | V6 n _ =>
      match ipv4_mapped n with
      | Some m => v4_private m
      | None => existsb (in_network a) V6_PRIVATE && negb (existsb (in_network a) V6_PRIVATE_EXCEPTIONS)
      end
  end.

Definition is_global (a : ipaddr) : bool :=
  match a with
  | V4 n => negb (in_network a (mkNetwork false (ipv4 100 64 0 0) 10)) && negb (v4_private n)
  | V6 _ _ => negb (is_private a)
  end.

Definition is_multicast (a : ipaddr) : bool :=
  in_network a (mkNetwork false (ipv4 224 0 0 0) 4) || in_network a (mkNetwork true (0xff00 * 2 ^ 112) 8).
Definition is_reserved (a : ipaddr) : bool :=
  match a with
  | V4 _ => in_network a (mkNetwork false (ipv4 240 0 0 0) 4)
  | V6 _ _ => existsb (in_network a) V6_RESERVED
  end.
Definition is_unspecified (a : ipaddr) : bool := match a with V4 n | V6 n _ => n =? 0 end.
Definition is_loopback (a : ipaddr) : bool :=
  match a with V4 _ => in_network a (mkNetwork false (ipv4 127 0 0 0) 8) | V6 n _ => n =? 1 end.
Definition is_link_local (a : ipaddr) : bool :=
  in_network a (mkNetwork false (ipv4 169 254 0 0) 16) || in_network a (mkNetwork true (0xfe80 * 2 ^ 112) 10).
Definition is_site_local (a : ipaddr) : bool := in_network a (mkNetwork true (0xfec0 * 2 ^ 112) 10).

Definition sixtofour (n : Z) : bool := Z.shiftr n 112 =? 0x2002.
Definition teredo (n : Z) : bool := Z.shiftr n 96 =? 0x20010000.

(** ** Printing an address ([compressed]) *)

(** The hexadecimal digits of [n], most significant first. *)
Fixpoint hex_digits (fuel : nat) (n : Z) (acc : string) : string :=
  match fuel with
  | O => acc
  | S fuel =>
      let d := Z.to_nat (n mod 16) in
      let acc := String (ascii_of_nat (if Nat.ltb d 10 then 48 + d else 87 + d)) acc in
      if n / 16 =? 0 then acc else hex_digits fuel (n / 16) acc
  end.

Definition hextet_strings (n : Z) : list string :=
  (fun k => hex_digits 4 (Z.shiftr n (16 * Z.of_nat k) mod 65536) "") <$> [7; 6; 5; 4; 3; 2; 1; 0]%nat.

(** The longest run of ["0"], leftmost among equals: its start and length. *)
Fixpoint best_run (i : nat) (l : list string) (cur best : nat * nat) : nat * nat :=
  match l with
  | [] => best
  | h :: l =>
      if String.eqb h "0" then
        let cur := if Nat.eqb (snd cur) 0 then (i, 1)%nat else (fst cur, S (snd cur)) in
        best_run (S i) l cur (if Nat.ltb (snd best) (snd cur) then cur else best)
      else best_run (S i) l (0, 0)%nat best
  end.

Definition compress_hextets (l : list string) : list string :=
  let '(start, len) := best_run 0 l (0, 0)%nat (0, 0)%nat in
  if Nat.ltb 1 len then
    (if Nat.eqb start 0 then [""] else []) ++ take start l ++ [""]
    ++ drop (start + len) l ++ (if Nat.eqb (start + len) (length l) then [""] else [])
  else l.

Definition compressed (a : ipaddr) : string :=
  match a with
  | V4 n => sjoin "." [pretty (Z.shiftr n 24 mod 256); pretty (Z.shiftr n 16 mod 256);
                       pretty (Z.shiftr n 8 mod 256); pretty (n mod 256)]
  | V6 n s => sjoin ":" (compress_hextets (hextet_strings n))
              +:+ match s with Some z => "%" +:+ z | None => "" end
  end.

(** ** Authorities *)

(** The error classes; [Cancelled] is [asyncio.CancelledError]. *)
Inductive DestinationError :=
| DestinationDenied | DestinationResolution | DestinationConnection | DestinationTimeout
| InvalidArgument | Cancelled.

Record DestinationAuthority := mkAuthority {
  host : string; dport : Z; literal : option ipaddr
}.

Fixpoint count (c : ascii) (s : string) : nat :=
  match s with EmptyString => O | String d s => (if Ascii.eqb c d then 1 else 0) + count c s end%nat.

Definition removesuffix (suf s : string) : string :=
  if ends_with suf s then String.substring 0 (slen s - slen suf) s else s.

Definition alnum (c : ascii) : bool := is_alpha c || is_digit c.

(** [_HOST_LABEL.fullmatch]. *)
Definition host_label (l : string) : bool :=
  match l with
  | EmptyString => false
  | String c _ =>
      Nat.leb (slen l) 63 && alnum c && sforall (fun c => alnum c || Ascii.eqb c "-") l
      && negb (ends_with "-" l)
  end.

(** The checks on the port's text. *)
Definition parse_port (raw : string) : option Z :=
  if is_empty raw || Nat.ltb 5 (slen raw) || negb (sforall is_digit raw) then None
  else if Nat.ltb 1 (slen raw) && starts_with "0" raw then None
  else let p := decimal raw in if (1 <=? p) && (p <=? 65535) then Some p else None.

Section Destination.
Context (idna : string -> option string).

(** The host and its literal address, [None] for [DestinationDeniedError]. *)
Definition parse_host (raw : string) : option (string * option ipaddr) :=
  match ip_address raw with
  | Some a => Some (compressed a, Some a)
  | None =>
      if sforall (fun c => is_digit c || Ascii.eqb c ".") raw then None
      else match idna (removesuffix "." raw) with
      | None => None
      | Some h =>
          let h := lower h in
          if is_empty h || Nat.ltb 253 (slen h) || negb (forallb host_label (split "." h)) then None
          else Some (h, None)
      end
  end.

(** [parse_authority]. *)
Definition parse_authority (authority : string) : option DestinationAuthority :=
  if is_empty authority || negb (String.eqb authority (strip authority)) then None
  else if negb (sforall (fun c => Nat.leb 33 (chr c) && negb (Nat.eqb (chr c) 127)) authority) then None
  else if existsb (fun c => contains c authority)
            ["/"; ascii_of_nat 92; "?"; "#"; "@"; "%"]%char then None
  else
    let hp :=
      if starts_with "[" authority then
        let '(raw_host, found, rest) := partition "]" (sdrop 1 authority) in
        if negb found || is_empty raw_host || negb (starts_with ":" rest) then None
        else match ip_address raw_host with
             | Some (V6 n s) => Some (compressed (V6 n s), Some (V6 n s), sdrop 1 rest)
             | _ => None
             end
      else if negb (Nat.eqb (count ":" authority) 1) then None
      else
        let '(raw_host, _, raw_port) := partition ":" authority in
        if is_empty raw_host then None
        else match parse_host raw_host with
             | Some (h, l) => Some (h, l, raw_port)
             | None => None
             end in
    match hp with
    | None => None
    | Some (h, l, raw_port) => (fun p => mkAuthority h p l) <$> parse_port raw_port
    end.

(** ** Vetting *)

(** An answer of a resolver: text, or an address object. *)
Inductive answer := AText (s : string) | AAddr (a : ipaddr).

Definition answer_address (x : answer) : option ipaddr :=
  match x with AText s => ip_address s | AAddr a => Some a end.

(** The checks of [_canonical_vetted_address] on the unwrapped address. *)
Definition refused (a : ipaddr) : bool :=
  negb (is_global a) || is_multicast a || is_reserved a || is_unspecified a || is_loopback a
  || is_link_local a || is_private a || match a with V6 _ _ => is_site_local a | V4 _ => false end.

(** [_canonical_vetted_address]. *)
Definition canonical_vetted (x : answer) : outcome ipaddr DestinationError :=
  match answer_address x with
  | None => Raise DestinationResolution
  | Some a =>
      let unwrapped :=
        match a with
        | V4 _ => Some a
        | V6 _ (Some _) => None
        | V6 n None =>
            match ipv4_mapped n with
            | Some m => Some (V4 m)
            | None =>
                if sixtofour n || teredo n then None
                else if in_network a (mkNetwork true 0 96) || in_network a (mkNetwork true (0x64ff9b * 2 ^ 96) 32)
                     then None
                else Some a
            end
        end in
      match unwrapped with
      | None => Raise DestinationDenied
      | Some b => if refused b then Raise DestinationDenied else Ok b
      end
  end.

(** [[f(x) for x in l]], the first exception leaving it. *)
Fixpoint vet_all (l : list answer) : outcome (list ipaddr) DestinationError :=
  match l with
  | [] => Ok []
  | x :: l =>
      match canonical_vetted x with
      | Raise e => Raise e
      | Ok a => match vet_all l with Raise e => Raise e | Ok r => Ok (a :: r) end
      end
  end.

(** [list(dict.fromkeys(l))]. *)
Fixpoint fromkeys (seen l : list ipaddr) : list ipaddr :=
  match l with
  | [] => []
  | a :: l => if bool_decide (a ∈ seen) then fromkeys seen l else a :: fromkeys (a :: seen) l
  end.

(** What awaiting the resolver gives: answers, an exception, the cancellation of
    the caller, or the deadline. *)
Inductive Resolved :=
| RAnswers (l : list answer)
| RDestination (e : DestinationError)
| RException
| RCancelled
| RDeadline.

(** The records of [getaddrinfo]: a textual address, or a record that is not an
    internet address; [None] is [OSError] or [UnicodeError]. *)
Definition system_resolver (records : option (list (option string))) : Resolved :=
  match records with
  | None => RDestination DestinationResolution
  | Some rs =>
      if forallb (fun r => match r with Some _ => true | None => false end) rs
      then RAnswers (AText <$> omap id rs) else RDestination DestinationResolution
  end.

Definition timeout_ok (timeout : usec) : bool := (0 <? timeout) && (timeout <=? sec 30).

(** The answers: the literal address, or what the resolver gives. *)
Definition answers_of (a : DestinationAuthority) (resolver : string -> Z -> Resolved)
    : outcome (list answer) DestinationError :=
  let r := match literal a with Some l => RAnswers [AAddr l] | None => resolver (host a) (dport a) end in
  match r with
  | RAnswers [] => Raise DestinationResolution
  | RAnswers l => Ok l
  | RDestination e => Raise e
  | RException => Raise DestinationResolution
  | RCancelled => Raise Cancelled
  | RDeadline => Raise DestinationTimeout
  end.

(** [resolve_and_validate]. *)
Definition resolve_and_validate (authority : string) (resolver : string -> Z -> Resolved) (timeout : usec)
    : outcome (DestinationAuthority * list ipaddr) DestinationError :=
  if negb (timeout_ok timeout) then Raise InvalidArgument
  else match parse_authority authority with
  | None => Raise DestinationDenied
  | Some a =>
      match answers_of a resolver with
      | Raise e => Raise e
      | Ok answers =>
          match vet_all answers with
          | Raise e => Raise e
          | Ok vetted => Ok (a, fromkeys [] vetted)
          end
      end
  end.

(** ** Connecting *)

(** What [getpeername()] gives: an exception, or a tuple whose first part is
    [str]-ed and whose second may be missing. *)
Inductive Peer := PeerRaises | PeerName (ip : string) (port : option Z).

(** What awaiting the dialler gives. *)
Inductive Dialed :=
| DConnected (peer : Peer)
| DDestination (e : DestinationError)
| DTimeoutError                         (* the dialler's own *)
| DDeadline
| DException
| DCancelled.

(** The call's effects: what was dialled, whether the socket was closed, and what
    it returned or raised. *)
Record Connect := mkConnect {
  dialed : option (ipaddr * Z);
  closed : bool;
  returned : outcome (DestinationAuthority * ipaddr) DestinationError
}.

(** The peer is the vetted address and port. *)
Definition peer_matches (peer : Peer) (a : ipaddr) (p : Z) : bool :=
  match peer with
  | PeerRaises => false
  | PeerName ip port =>
      match ip_address ip with
      | None => false
      | Some b =>
          let b := match b with
                   | V6 n _ => match ipv4_mapped n with Some m => V4 m | None => b end
                   | V4 _ => b
                   end in
          bool_decide (b = a) && bool_decide (port = Some p)
      end
  end.

(** [resolve_and_connect]. *)
Definition resolve_and_connect (authority : string) (resolver : string -> Z -> Resolved)
    (dialer : ipaddr -> Z -> Dialed) (timeout : usec) : Connect :=
  match resolve_and_validate authority resolver timeout with
  | Raise e => mkConnect None false (Raise e)
  | Ok (a, addresses) =>
      match addresses with
      | [] => mkConnect None false (Raise DestinationConnection)   (* never: there is an answer *)
      | target :: _ =>
          let go := mkConnect (Some (target, dport a)) in
          match dialer target (dport a) with
          | DDestination e => go false (Raise e)
          | DTimeoutError | DDeadline => go false (Raise DestinationTimeout)
          | DException => go false (Raise DestinationConnection)
          | DCancelled => go false (Raise Cancelled)
          | DConnected peer =>
              if peer_matches peer target (dport a) then go false (Ok (a, target))
              else go true (Raise DestinationConnection)
          end
      end
  end.

(** ** Model targets *)

Definition GRANTABLE : list network :=
  [mkNetwork false (ipv4 10 0 0 0) 8; mkNetwork false (ipv4 172 16 0 0) 12;
   mkNetwork false (ipv4 192 168 0 0) 16; mkNetwork true (0xfc00 * 2 ^ 112) 7].

Inductive Scope := global_scope | private_scope.

#[export] Instance Scope_eq_dec : EqDecision Scope.
Proof. solve_decision. Defined.

(** One answer of a model target: its address and scope. *)
Definition vet_model (granted : bool) (x : answer) : outcome (ipaddr * Scope) DestinationError :=
  match answer_address x with
  | None => Raise DestinationResolution
  | Some a =>
      let unwrapped :=
        match a with
        | V4 _ => Some a
        | V6 _ (Some _) => None
        | V6 n None =>
            match ipv4_mapped n with
            | Some m => Some (V4 m)
            | None => if sixtofour n || teredo n then None else Some a
            end
        end in
      match unwrapped with
      | None => Raise DestinationDenied
      | Some b =>
          if is_multicast b || is_unspecified b || is_loopback b || is_link_local b || is_reserved b
          then Raise DestinationDenied
          else if is_global b then Ok (b, global_scope)
          else if granted && existsb (in_network b) GRANTABLE then Ok (b, private_scope)
          else Raise DestinationDenied
      end
  end.

(** The loop over the answers; [scope] is [answer_scope]. *)
Fixpoint vet_model_all (granted : bool) (scope : option Scope) (l : list answer)
    : outcome (list ipaddr) DestinationError :=
  match l with
  | [] => Ok []
  | x :: l =>
      match vet_model granted x with
      | Raise e => Raise e
      | Ok (a, sc) =>
          if match scope with Some sc' => negb (bool_decide (sc = sc')) | None => false end
          then Raise DestinationDenied
          else match vet_model_all granted (Some sc) l with Raise e => Raise e | Ok r => Ok (a :: r) end
      end
  end.

(** [h.lower().rstrip(".")]. *)
Definition grant_name (h : string) : string := rstrip (fun c => Ascii.eqb c ".") (lower h).

(** [resolve_and_connect_model_target]. *)
Definition resolve_and_connect_model_target (authority : string) (grants : list string)
    (resolver : string -> Z -> Resolved) (dialer : ipaddr -> Z -> Dialed) (timeout : usec) : Connect :=
  if negb (timeout_ok timeout) then mkConnect None false (Raise InvalidArgument)
  else match parse_authority authority with
  | None => mkConnect None false (Raise DestinationDenied)
  | Some a =>
      let granted := existsb (String.eqb (grant_name (host a))) (grant_name <$> grants) in
      match answers_of a resolver with
      | Raise e => mkConnect None false (Raise e)
      | Ok answers =>
          match vet_model_all granted None answers with
          | Raise e => mkConnect None false (Raise e)
          | Ok vetted =>
              match fromkeys [] vetted with
              | [] => mkConnect None false (Raise DestinationConnection)   (* never *)
              | target :: _ =>
                  let go := mkConnect (Some (target, dport a)) in
                  match dialer target (dport a) with
                  | DDestination _ | DTimeoutError | DException => go false (Raise DestinationConnection)
                  | DDeadline => go false (Raise DestinationTimeout)
                  | DCancelled => go false (Raise Cancelled)
                  | DConnected peer =>
                      if peer_matches peer target (dport a) then go false (Ok (a, target))
                      else go true (Raise DestinationConnection)
                  end
              end
          end
      end
  end.

End Destination.

(** ** Valid addresses *)

Definition valid (a : ipaddr) : Prop :=
  match a with V4 n => 0 <= n < 2 ^ 32 | V6 n _ => 0 <= n < 2 ^ 128 end.

Lemma digits_from_nonneg s : forall acc, 0 <= acc -> 0 <= digits_from acc s.
Proof. induction s as [|c s IH]; intros acc H; cbn; [done|]. apply IH. lia. Qed.

Lemma parse_octet_range s n : parse_octet s = Some n -> 0 <= n <= 255.
Proof.
  unfold parse_octet. destruct (_ || _); [done|]. destruct (_ && _); [done|].
  destruct (255 <? decimal s) eqn:E; [done|]. intros [= <-]. bool_to_prop.
  pose proof (digits_from_nonneg s 0 ltac:(lia)). unfold decimal in *. lia.
Qed.

Lemma parse_ipv4_range s n : parse_ipv4 s = Some n -> 0 <= n < 2 ^ 32.
Proof.
  unfold parse_ipv4. destruct (split "." s) as [|a [|b [|c [|d [|]]]]]; try done.
  destruct (parse_octet a) eqn:Ea, (parse_octet b) eqn:Eb, (parse_octet c) eqn:Ec, (parse_octet d) eqn:Ed; try done.
  intros [= <-]. apply parse_octet_range in Ea, Eb, Ec, Ed. lia.
Qed.

Lemma hex_value_range c : is_hex c = true -> 0 <= hex_value c < 16.
Proof. destruct c as [[] [] [] [] [] [] [] []]; vm_compute; intros; try done; split; congruence. Qed.

Lemma hex_from_range s : forall acc k, sforall is_hex s = true -> 0 <= acc < 16 ^ k -> 0 <= k ->
  0 <= hex_from acc s < 16 ^ (k + Z.of_nat (slen s)).
Proof.
  induction s as [|c s IH]; intros acc k H Ha Hk; cbn [hex_from slen].
  - by replace (k + Z.of_nat 0) with k by lia.
  - cbn in H. apply andb_true_iff in H as [Hc Hs]. apply hex_value_range in Hc.
    specialize (IH (acc * 16 + hex_value c) (k + 1) Hs).
    replace (k + Z.of_nat (S (slen s))) with (k + 1 + Z.of_nat (slen s)) by lia. apply IH; [|lia].
    rewrite Z.pow_add_r by lia. lia.
Qed.

(** Values of parts that come from a parsed literal. *)
Definition part_ok (p : part) : Prop := match p with Text _ => True | Value n => 0 <= n < 65536 end.

Lemma part_value_range p v : part_ok p -> part_value p = Some v -> 0 <= v < 65536.
Proof.
  destruct p as [s|n]; cbn; [|by intros ? [= <-]]. intros _. unfold parse_hextet.
  destruct (_ || _) eqn:E; [done|]. intros [= <-]. bool_to_prop. apply Nat.ltb_ge in H0.
  pose proof (hex_from_range s 0 0 ltac:(done) ltac:(lia) ltac:(lia)) as [H2 H3].
  split; [done|]. eapply Z.lt_le_trans; [exact H3|]. change 65536 with (16 ^ 4). apply Z.pow_le_mono_r; lia.
Qed.

Lemma hextets_range l : forall acc k r, Forall part_ok l -> hextets acc l = Some r -> 0 <= k ->
  0 <= acc < 65536 ^ k -> 0 <= r < 65536 ^ (k + Z.of_nat (length l)).
Proof.
  induction l as [|p l IH]; intros acc k r Hl H Hk Ha; cbn [hextets length] in *.
  - injection H as <-. by replace (k + Z.of_nat 0) with k by lia.
  - apply Forall_cons in Hl as [Hp Hl]. destruct (part_value p) as [v|] eqn:E; [|done].
    apply part_value_range in E; [|done].
    replace (k + Z.of_nat (S (length l))) with (k + 1 + Z.of_nat (length l)) by lia.
    eapply IH; [done|exact H|lia|]. rewrite Z.pow_add_r by lia. lia.
Qed.

Lemma ipv6_parts_ok s ps : ipv6_parts s = Some ps -> Forall part_ok ps.
Proof.
  unfold ipv6_parts. destruct (Nat.ltb _ 3); [done|]. destruct (last _) as [l|]; [|done].
  assert (Ht : forall l : list string, Forall part_ok (Text <$> l)).
  { intros l0. induction l0; cbn; by constructor. }
  destruct (contains "." l); [|by intros [= <-]].
  destruct (parse_ipv4 l) as [n|] eqn:E; [|done]. intros [= <-]. apply parse_ipv4_range in E.
  apply Forall_app. split; [done|]. constructor; [|constructor; [|constructor]]; cbn.
  - split; [apply Z.div_pos; lia|apply Z.div_lt_upper_bound; lia].
  - apply Z.mod_pos_bound. lia.
Qed.

Lemma parse_ipv6_range s n : parse_ipv6 s = Some n -> 0 <= n < 2 ^ 128.
Proof.
  unfold parse_ipv6. destruct (ipv6_parts s) as [ps|] eqn:Ep; [|done]. apply ipv6_parts_ok in Ep.
  destruct (Nat.ltb 9 _); [done|]. destruct ps as [|first rest]; [done|]. set (ps := first :: rest) in *.
  change (2 ^ 128) with (65536 ^ 8). destruct (find_skip 1 rest None) as [[skip|]|]; [| |done].
  - match goal with |- context [Nat.ltb 7 (?h + ?l)] => set (hi := h); set (lo := l) end.
    destruct (_ && _); [done|]. destruct (_ && _); [done|]. destruct (Nat.ltb 7 (hi + lo)) eqn:El; [done|].
    apply Nat.ltb_ge in El. destruct (hextets 0 (take hi ps)) as [h|] eqn:Eh; [|done]. intros Hn.
    apply (hextets_range _ 0 0) in Eh; [|by apply Forall_take|lia|lia].
    eapply (hextets_range _ _ (8 - Z.of_nat lo)) in Hn; [|by apply Forall_drop|lia|].
    + destruct Hn as [H1 H2]. split; [done|]. eapply Z.lt_le_trans; [exact H2|].
      apply Z.pow_le_mono_r; [lia|]. rewrite length_drop. lia.
    + rewrite length_take in Eh. destruct Eh as [H1 H2]. split; [apply Z.mul_nonneg_nonneg; [lia|apply Z.pow_nonneg; lia]|].
      replace (8 - Z.of_nat lo) with (Z.of_nat hi + Z.of_nat (8 - (hi + lo))) by lia.
      rewrite Z.pow_add_r by lia. apply Z.mul_lt_mono_pos_r; [apply Z.pow_pos_nonneg; lia|].
      eapply Z.lt_le_trans; [exact H2|]. apply Z.pow_le_mono_r; lia.
  - destruct (negb _ || _ || _) eqn:E; [done|]. bool_to_prop. apply Nat.eqb_eq in H. intros Hn.
    apply (hextets_range _ 0 0) in Hn; [|done|lia|lia]. by rewrite H in Hn.
Qed.

Lemma ip_address_valid s a : ip_address s = Some a -> valid a.
Proof.
  unfold ip_address. destruct (contains "/" s); [done|]. destruct (parse_ipv4 s) as [n|] eqn:E.
  - intros [= <-]. by apply parse_ipv4_range in E.
  - destruct (partition "%" s) as [[addr hs] scope]. destruct (_ && _); [done|].
    destruct (parse_ipv6 addr) as [n|] eqn:E6; [|done]. intros [= <-]. by apply parse_ipv6_range in E6.
Qed.

(** ** The policy against the crawler's guard *)

Lemma v4_private_spec n : 0 <= n < 2 ^ 32 -> restricted_ipv4 n = true ->
  in_network (V4 n) (mkNetwork false (ipv4 100 64 0 0) 10) = true \/
  in_network (V4 n) (mkNetwork false (ipv4 224 0 0 0) 4) = true \/ v4_private n = true.
Proof.
  intros Hn. unfold restricted_ipv4, v4_private, V4_PRIVATE, V4_PRIVATE_EXCEPTIONS. cbn [existsb].
  repeat (rewrite (in_network_interval false _ _ n None); [|by vm_compute|exact Hn|by vm_compute]).
  change (width false) with 32. unfold ipv4.
  rewrite !andb_true_iff, negb_true_iff, !orb_true_iff, !orb_false_iff, !andb_false_iff, !andb_true_iff,
    !Z.leb_le, !Z.ltb_lt, !Z.leb_gt, !Z.ltb_ge. lia.
Qed.

Lemma refused_ipv4 n : 0 <= n < 2 ^ 32 -> refused (V4 n) = false -> restricted_ipv4 n = false.
Proof.
  intros Hn Hr. destruct (restricted_ipv4 n) eqn:E; [|done]. exfalso.
  unfold refused, is_global, is_multicast, is_private in Hr. bool_to_prop.
  destruct (v4_private_spec n Hn E) as [H'|[H'|H']]; congruence.
Qed.

Lemma in_v6 b p n s : 0 <= n < 2 ^ 128 -> 0 <= p <= 128 -> b mod 2 ^ (128 - p) = 0 ->
  in_network (V6 n s) (mkNetwork true b p) = (b <=? n) && (n <? b + 2 ^ (128 - p)).
Proof. intros Hn Hp Hb. exact (in_network_interval true b p n s Hp Hn Hb). Qed.

Lemma refused_ipv6 n s :
  0 <= n < 2 ^ 128 -> ipv4_mapped n = None -> in_network (V6 n s) (mkNetwork true (0x64ff9b * 2 ^ 96) 32) = false ->
  refused (V6 n s) = false -> restricted_ipv6 n = false.
Proof.
  intros Hn Hm Hnat Hr. unfold refused, is_multicast, is_loopback, is_link_local, is_private in Hr. rewrite Hm in Hr.
  bool_to_prop.
  repeat match goal with H : context [in_network (V6 n s) (mkNetwork false _ _)] |- _ => clear H end.
  match goal with H : existsb _ V6_PRIVATE && _ = false |- _ => rename H into Hp end.
  unfold V6_PRIVATE, V6_PRIVATE_EXCEPTIONS in Hp. cbn [existsb] in Hp.
  rewrite !in_v6 in * by (done || lia || by vm_compute).
  unfold restricted_ipv6.
  repeat match goal with
  | H : is_global _ = _ |- _ => clear H
  | H : is_reserved _ = _ |- _ => clear H
  | H : is_site_local _ = _ |- _ => clear H
  end.
  apply not_true_iff_false. intros Hres.
  apply not_true_iff_false in Hp. apply Hp. clear Hp.
  rewrite !orb_true_iff, !andb_true_iff, !Z.leb_le, !Z.ltb_lt in Hres.
  rewrite andb_true_iff, negb_true_iff, !orb_true_iff, !orb_false_iff, !andb_false_iff, !andb_true_iff,
    !Z.leb_le, !Z.ltb_lt, !Z.leb_gt, !Z.ltb_ge.
  rewrite ?andb_false_iff, ?Z.leb_gt, ?Z.ltb_ge in *. lia.
Qed.

Lemma not_embedded n s :
  0 <= n < 2 ^ 128 -> ipv4_mapped n = None -> sixtofour n || teredo n = false ->
  in_network (V6 n s) (mkNetwork true 0 96) = false -> unmap_embedded_ipv4 (V6 n s) = None.
Proof.
  intros Hn Hm Ht Hc. unfold unmap_embedded_ipv4. rewrite Hm. change IPV4_COMPATIBLE_NET with (mkNetwork true 0 96).
  rewrite Hc. apply orb_false_iff in Ht as [H6 Hte]. unfold sixtofour in H6. unfold teredo in Hte.
  rewrite Z.shiftr_div_pow2 in H6, Hte by lia. bool_to_prop.
  rewrite in_6to4, in_teredo by done.
  destruct ((0x2002 * 2 ^ 112 <=? n) && (n <? 0x2003 * 2 ^ 112)) eqn:E6.
  { bool_to_prop. exfalso. apply H6. symmetry. apply Z.div_unique with (n - 0x2002 * 2 ^ 112); lia. }
  destruct ((0x20010000 * 2 ^ 96 <=? n) && (n <? 0x20010001 * 2 ^ 96)) eqn:Et; [|done].
  bool_to_prop. exfalso. apply Hte. symmetry. apply Z.div_unique with (n - 0x20010000 * 2 ^ 96); lia.
Qed.

Lemma mapped_range n m : 0 <= n < 2 ^ 128 -> ipv4_mapped n = Some m ->
  0 <= m < 2 ^ 32 /\ n = 0xFFFF * 2 ^ 32 + m.
Proof.
  intros Hn. unfold ipv4_mapped. destruct (_ =? _) eqn:E; [|done]. intros [= <-]. bool_to_prop.
  rewrite Z.shiftr_div_pow2 in E by lia. rewrite low32.
  pose proof (Z.mod_pos_bound n (2 ^ 32) ltac:(lia)). pose proof (Z.div_mod n (2 ^ 32) ltac:(lia)). lia.
Qed.

(** An address the capture policy accepts, in either form, passes the guard of
    the crawler. *)
Lemma vetted_unrestricted x a b :
  answer_address x = Some a -> valid a -> canonical_vetted x = Ok b ->
  valid b /\ addr_is_restricted a = false /\ addr_is_restricted b = false /\ refused b = false.
Proof.
  intros Hx Ha Hv. unfold canonical_vetted in Hv. rewrite Hx in Hv.
  assert (H4 : forall m, 0 <= m < 2 ^ 32 -> refused (V4 m) = false -> addr_is_restricted (V4 m) = false).
  { intros m Hm Hr. unfold addr_is_restricted. cbn [unmap_embedded_ipv4].
    by rewrite listed_ipv4, (refused_ipv4 m Hm Hr). }
  destruct a as [n|n [s|]]; [|done|].
  - destruct (refused (V4 n)) eqn:Hr; [done|]. injection Hv as <-. split_and!; auto.
  - destruct (ipv4_mapped n) as [m|] eqn:Hm.
    + destruct (refused (V4 m)) eqn:Hr; [done|]. injection Hv as <-.
      destruct (mapped_range n m Ha Hm) as [Hmr ->]. split_and!; auto.
      rewrite <- (H4 m Hmr Hr). unfold addr_is_restricted at 1.
      destruct (unmap_carries m _ None Hmr (c_mapped m)) as (Hxr & -> & Hone).
      rewrite listed_ipv6, listed_ipv4 by done. unfold addr_is_restricted. cbn [unmap_embedded_ipv4].
      rewrite listed_ipv4, orb_false_r by done.
      destruct (restricted_ipv6 _); [|done]. rewrite (Hone eq_refl). by vm_compute.
    + destruct (sixtofour n || teredo n) eqn:Ht; [done|].
      destruct (in_network (V6 n None) (mkNetwork true 0 96)) eqn:Hc; [done|].
      destruct (in_network (V6 n None) (mkNetwork true (0x64ff9b * 2 ^ 96) 32)) eqn:Hn; [done|].
      cbn [orb] in Hv. destruct (refused (V6 n None)) eqn:Hr; [done|]. injection Hv as <-.
      assert (Hu : addr_is_restricted (V6 n None) = false).
      { unfold addr_is_restricted. rewrite not_embedded, listed_ipv6 by done.
        by rewrite (refused_ipv6 n None Ha Hm Hn Hr). }
      by split_and!.
Qed.

Lemma vet_all_spec l : forall r, vet_all l = Ok r -> Forall2 (fun x a => canonical_vetted x = Ok a) l r.
Proof.
  induction l as [|x l IH]; intros r H; cbn in H; [by injection H as <-|].
  destruct (canonical_vetted x) as [a|] eqn:E; [|done]. destruct (vet_all l) as [r'|]; [|done].
  injection H as <-. constructor; auto.
Qed.

Lemma fromkeys_sub l : forall seen a, a ∈ fromkeys seen l -> a ∈ l.
Proof.
  induction l as [|b l IH]; intros seen a H; cbn in H; [done|].
  case_bool_decide; [right; by eapply IH|]. apply elem_of_cons in H as [->|H]; [by left|right; by eapply IH].
Qed.

(** ** Theorems *)

(** Address objects are well formed: [ipaddress] cannot build others. *)
Definition resolver_ok (resolver : string -> Z -> Resolved) : Prop :=
  forall h p l, resolver h p = RAnswers l ->
    Forall (fun x => match x with AAddr a => valid a | AText _ => True end) l.

Lemma parse_port_range raw p : parse_port raw = Some p -> 1 <= p <= 65535.
Proof.
  unfold parse_port. destruct (_ || _); [done|]. destruct (_ && _); [done|].
  destruct (_ && _) eqn:E; [|done]. intros [= <-]. bool_to_prop. lia.
Qed.

Lemma parse_authority_ok idna authority a :
  parse_authority idna authority = Some a ->
  1 <= dport a <= 65535 /\ (forall l, literal a = Some l -> valid l).
Proof.
  unfold parse_authority. intros H.
  destruct (is_empty authority || _); [done|]. destruct (negb (sforall _ _)); [done|].
  destruct (existsb _ _); [done|].
  match type of H with match ?hp with _ => _ end = _ => destruct hp as [[[h l] raw]|] eqn:Ehp; [|done] end.
  destruct (parse_port raw) as [p|] eqn:Ep; [|done]. injection H as <-. cbn.
  split; [by eapply parse_port_range|]. intros l' ->.
  destruct (starts_with "[" authority).
  - destruct (partition "]" _) as [[rh f] rest]. destruct (_ || _); [done|].
    destruct (ip_address rh) as [[|n s]|] eqn:Ei; try done.
    generalize dependent (compressed (V6 n s)). intros h' [= _ <- _]. by eapply ip_address_valid.
  - destruct (negb _); [done|]. destruct (partition ":" authority) as [[rh f] rp]. destruct (is_empty rh); [done|].
    destruct (parse_host idna rh) as [[h' l0]|] eqn:Eh; [|done]. injection Ehp as -> -> _.
    unfold parse_host in Eh. destruct (ip_address rh) as [a|] eqn:Ei.
    + generalize dependent (compressed a). intros h0 [= _ <-]. by eapply ip_address_valid.
    + destruct (sforall _ _); [done|]. destruct (idna _); [|done]. destruct (_ || _); [done|]. by injection Eh.
Qed.

Lemma answers_valid idna authority a resolver l x :
  resolver_ok resolver -> parse_authority idna authority = Some a -> answers_of a resolver = Ok l -> x ∈ l ->
  forall b, answer_address x = Some b -> valid b.
Proof.
  intros Hr Ha Hl Hx b Hb. destruct x as [s|c]; cbn in Hb; [by eapply ip_address_valid|]. injection Hb as ->.
  unfold answers_of in Hl. destruct (literal a) as [lit|] eqn:El.
  - injection Hl as <-. apply list_elem_of_singleton in Hx. injection Hx as ->.
    by eapply parse_authority_ok.
  - destruct (resolver (host a) (dport a)) as [l'| | | |] eqn:E; try done. destruct l' as [|y l']; [done|].
    injection Hl as <-. apply Hr in E. exact (proj1 (Forall_forall _ _) E _ Hx).
Qed.

(** The exceptions of the policy: what is vetted is an accepted answer. *)
Lemma fromkeys_head (l : list ipaddr) a r : fromkeys [] l = a :: r -> a ∈ l.
Proof. intros H. apply (fromkeys_sub l []). rewrite H. by left. Qed.

Lemma vetted_target idna authority resolver timeout auth target rest :
  resolver_ok resolver ->
  resolve_and_validate idna authority resolver timeout = Ok (auth, target :: rest) ->
  exists answers,
    parse_authority idna authority = Some auth /\ answers_of auth resolver = Ok answers /\
    Forall (fun x => exists b, canonical_vetted x = Ok b) answers /\
    is_global target = true /\ addr_is_restricted target = false.
Proof.
  intros Hr H. unfold resolve_and_validate in H. destruct (negb (timeout_ok timeout)); [done|].
  destruct (parse_authority idna authority) as [auth'|] eqn:Ea; [|done].
  destruct (answers_of auth' resolver) as [answers|] eqn:El; [|done].
  destruct (vet_all answers) as [vetted|] eqn:Ev; [|done]. injection H as -> Ef.
  apply vet_all_spec in Ev. exists answers. apply fromkeys_head, list_elem_of_lookup in Ef as [i Hi].
  destruct (Forall2_lookup_r _ _ _ _ _ Ev Hi) as (x & Hx & Hc).
  assert (Hb : exists b, answer_address x = Some b).
  { unfold canonical_vetted in Hc. destruct (answer_address x); [eauto|done]. }
  destruct Hb as [b Hb].
  assert (Hvb : valid b) by (eapply answers_valid; eauto; by eapply list_elem_of_lookup_2).
  destruct (vetted_unrestricted x b target Hb Hvb Hc) as (_ & _ & Hu & Href).
  split_and!; try done.
  - eapply Forall2_Forall_l; [exact Ev|]. apply Forall_true. eauto.
  - unfold refused in Href. by destruct (is_global target).
Qed.

(** C5. Only vetted peers are reached: whatever the resolver answers, the one
    address [resolve_and_connect] may dial is global and unrestricted also by the
    policy of the crawler, at the port of the parsed authority, and only when
    every answer was accepted; a connection is returned only if its peer is that
    address and port, and a connection that is not returned is closed. *)
Theorem capture_connects_only_vetted idna authority resolver dialer timeout :
  resolver_ok resolver ->
  let c := resolve_and_connect idna authority resolver dialer timeout in
  (forall a p, dialed c = Some (a, p) -> exists auth answers,
     parse_authority idna authority = Some auth /\ p = dport auth /\ 1 <= p <= 65535 /\
     answers_of auth resolver = Ok answers /\
     Forall (fun x => exists b, canonical_vetted x = Ok b) answers /\
     is_global a = true /\ addr_is_restricted a = false) /\
  (forall auth a, returned c = Ok (auth, a) ->
     dialed c = Some (a, dport auth) /\ closed c = false /\
     exists peer, dialer a (dport auth) = DConnected peer /\ peer_matches peer a (dport auth) = true) /\
  (forall a p peer, dialed c = Some (a, p) -> dialer a p = DConnected peer -> closed c = negb (is_ok (returned c))).
Proof.
  intros Hr. cbn zeta. unfold resolve_and_connect.
  destruct (resolve_and_validate idna authority resolver timeout) as [[auth [|target rest]]|] eqn:Ev;
    [by split_and!| |by split_and!].
  destruct (vetted_target _ _ _ _ _ _ _ Hr Ev) as (answers & Ea & El & Hall & Hg & Hu).
  destruct (parse_authority_ok _ _ _ Ea) as [Hp _].
  assert (Hd : forall a p, Some (target, dport auth) = Some (a, p) -> exists auth answers,
     parse_authority idna authority = Some auth /\ p = dport auth /\ 1 <= p <= 65535 /\
     answers_of auth resolver = Ok answers /\ Forall (fun x => exists b, canonical_vetted x = Ok b) answers /\
     is_global a = true /\ addr_is_restricted a = false).
  { intros a p [= <- <-]. by exists auth, answers. }
  destruct (dialer target (dport auth)) as [peer|e| | | |] eqn:Ed; cbn [dialed returned closed];
    try (split_and!; [exact Hd|done|intros a p peer [= <- <-]; congruence]).
  destruct (peer_matches peer target (dport auth)) eqn:Ep; cbn [dialed returned closed is_ok negb];
    (split_and!; [exact Hd|try done|done]).
  intros ? ? [= <- <-]. eauto.
Qed.

Section Witnesses.
(** A resolver that knows three names, and a network where every dial succeeds
    with the peer that was asked for. *)
Definition demo_resolver (h : string) (_ : Z) : Resolved :=
  if String.eqb h "example.com" then RAnswers [AText "93.184.216.34"; AText "::ffff:93.184.216.34"]
  else if String.eqb h "rebind.test" then RAnswers [AText "93.184.216.34"; AText "169.254.169.254"]
  else if String.eqb h "model.internal" then RAnswers [AText "10.1.2.3"]
  else RException.

Definition demo_dialer (a : ipaddr) (p : Z) : Dialed := DConnected (PeerName (compressed a) (Some p)).

Lemma demo_resolver_ok : resolver_ok demo_resolver.
Proof.
  intros h p l. unfold demo_resolver. repeat case_match; try done; intros [= <-]; repeat constructor.
Qed.

Lemma capture_connects_only_vetted_witness :
  let c := resolve_and_connect Some "example.com:443" demo_resolver demo_dialer (sec 2) in
  dialed c = Some (V4 (ipv4 93 184 216 34), 443) /\
  (exists auth answers, parse_authority Some "example.com:443" = Some auth /\ 443 = dport auth /\ 1 <= 443 <= 65535 /\
     answers_of auth demo_resolver = Ok answers /\
     Forall (fun x => exists b, canonical_vetted x = Ok b) answers /\
     is_global (V4 (ipv4 93 184 216 34)) = true /\ addr_is_restricted (V4 (ipv4 93 184 216 34)) = false) /\
  dialed (resolve_and_connect Some "rebind.test:443" demo_resolver demo_dialer (sec 2)) = None.
Proof.
  split; [by vm_compute|split; [|by vm_compute]].
  apply (capture_connects_only_vetted Some "example.com:443" demo_resolver demo_dialer (sec 2) demo_resolver_ok).
  by vm_compute.
Defined.
End Witnesses.

(** ** Model targets *)

Lemma vet_model_all_spec g l : forall sc r, vet_model_all g sc l = Ok r ->
  exists s, (sc = None \/ sc = Some s) /\ Forall2 (fun x a => vet_model g x = Ok (a, s)) l r.
Proof.
  induction l as [|x l IH]; intros sc r H; cbn in H.
  - injection H as <-. destruct sc as [s|]; [exists s|exists global_scope]; auto.
  - destruct (vet_model g x) as [[a s]|] eqn:E; [|done].
    destruct (match sc with Some sc' => _ | None => false end) eqn:Es; [done|].
    destruct (vet_model_all g (Some s) l) as [r'|] eqn:Er; [|done]. injection H as <-.
    destruct (IH _ _ Er) as (s' & [?|Hs] & Hl); [done|]. injection Hs as <-. exists s. split; [|by constructor].
    destruct sc as [sc'|]; [right|by left]. apply negb_false_iff, bool_decide_eq_true in Es. by subst.
Qed.

(** What one accepted answer is. *)
Lemma vet_model_spec g x a s : vet_model g x = Ok (a, s) ->
  (is_multicast a || is_unspecified a || is_loopback a || is_link_local a || is_reserved a) = false /\
  match s with
  | global_scope => is_global a = true
  | private_scope => g = true /\ existsb (in_network a) GRANTABLE = true
  end.
Proof.
  unfold vet_model. destruct (answer_address x) as [b|]; [|done].
  match goal with |- context [match ?u with Some _ => _ | None => Raise DestinationDenied end] => destruct u as [c|]; [|done] end.
  destruct (is_multicast c || _ || _ || _ || _) eqn:E; [done|].
  destruct (is_global c) eqn:Eg; [intros [= <- <-]; auto|].
  destruct (g && existsb _ _) eqn:Ep; [|done]. apply andb_true_iff in Ep as [-> Ep]. intros [= <- <-]. auto.
Qed.

Lemma vet_model_granted g x r : vet_model g x = Ok r -> vet_model true x = Ok r.
Proof.
  unfold vet_model. destruct (answer_address x) as [b|]; [|done].
  match goal with |- context [match ?u with Some _ => _ | None => Raise DestinationDenied end] => destruct u as [c|]; [|done] end.
  destruct (_ || _); [done|]. destruct (is_global c); [done|]. by destruct g.
Qed.

(** A model target reaches a private address only by an explicit grant: what
    [resolve_and_connect_model_target] dials is never a loopback, link-local,
    multicast, reserved or unspecified address, and either it and every other
    answer were global, or the host of the authority was granted and every answer
    lay in the RFC 1918 and ULA ranges - public and private answers are never
    mixed. *)
Theorem model_target_private_only_granted idna authority grants resolver dialer timeout a p :
  dialed (resolve_and_connect_model_target idna authority grants resolver dialer timeout) = Some (a, p) ->
  exists auth answers scope,
    parse_authority idna authority = Some auth /\ p = dport auth /\ answers_of auth resolver = Ok answers /\
    (is_multicast a || is_unspecified a || is_loopback a || is_link_local a || is_reserved a) = false /\
    Forall (fun x => exists b, vet_model true x = Ok (b, scope)) answers /\
    match scope with
    | global_scope => is_global a = true
    | private_scope => grant_name (host auth) ∈ grant_name <$> grants /\ existsb (in_network a) GRANTABLE = true
    end.
Proof.
  unfold resolve_and_connect_model_target. destruct (negb (timeout_ok timeout)); [done|].
  destruct (parse_authority idna authority) as [auth|] eqn:Ea; [|done].
  destruct (answers_of auth resolver) as [answers|] eqn:El; [|done].
  set (g := existsb _ _). destruct (vet_model_all g None answers) as [vetted|] eqn:Ev; [|done].
  destruct (fromkeys [] vetted) as [|t rest] eqn:Ef; [done|]. intros Hd.
  assert (Htp : t = a /\ dport auth = p).
  { destruct (dialer t (dport auth)); cbn in Hd; try (by injection Hd); [].
    destruct (peer_matches _ _ _); cbn in Hd; by injection Hd. }
  destruct Htp as [-> <-]. apply fromkeys_head, list_elem_of_lookup in Ef as [i Hi].
  destruct (vet_model_all_spec _ _ _ _ Ev) as (s & _ & Hall). exists auth, answers, s.
  destruct (Forall2_lookup_r _ _ _ _ _ Hall Hi) as (x & _ & Hx). apply vet_model_spec in Hx as [Hc Hs].
  split_and!; try done.
  - eapply Forall2_Forall_l; [exact Hall|]. apply Forall_true. intros b y Hy. exists b.
    by apply (vet_model_granted g).
  - destruct s; [done|]. destruct Hs as [Hg ?]. split; [|done].
    apply existsb_exists in Hg as (h & Hh & He). apply String.eqb_eq in He as ->. by apply list_elem_of_In.
Qed.

Lemma model_target_private_only_granted_witness :
  let c := resolve_and_connect_model_target Some "model.internal:8000" ["Model.Internal."] demo_resolver demo_dialer (sec 2) in
  dialed c = Some (V4 (ipv4 10 1 2 3), 8000) /\
  dialed (resolve_and_connect_model_target Some "model.internal:8000" [] demo_resolver demo_dialer (sec 2)) = None /\
  exists auth answers scope,
    parse_authority Some "model.internal:8000" = Some auth /\ 8000 = dport auth /\ answers_of auth demo_resolver = Ok answers /\
    (let a := V4 (ipv4 10 1 2 3) in
     is_multicast a || is_unspecified a || is_loopback a || is_link_local a || is_reserved a) = false /\
    Forall (fun x => exists b, vet_model true x = Ok (b, scope)) answers /\
    match scope with
    | global_scope => is_global (V4 (ipv4 10 1 2 3)) = true
    | private_scope => grant_name (host auth) ∈ grant_name <$> ["Model.Internal."]
                       /\ existsb (in_network (V4 (ipv4 10 1 2 3))) GRANTABLE = true
    end.
Proof.
  split; [by vm_compute|]. split; [by vm_compute|].
  apply (model_target_private_only_granted Some "model.internal:8000" ["Model.Internal."] demo_resolver demo_dialer (sec 2)).
  by vm_compute.
Defined.
