(* ===== verification/Json.v ===== *)
(** * JSON values

    The dictionaries that cross component boundaries (job payloads and results,
    webhook configurations, scraper responses) are JSON documents.  [jget] is
    [dict.get], [jindex] is subscription, [truthy] is Python's truth value and
    [jor] its [or]. *)

From stdpp Require Import pretty.
From S2P Require Import Prelude Strings.

Inductive json :=
| JNull
| JBool (b : bool)
| JNum (n : Z)
| JStr (s : string)
| JArr (l : list json)
| JObj (l : list (string * json)).

(** Python's truth value of a JSON document. *)
Definition truthy (j : json) : bool :=
  match j with
  | JNull => false
  | JBool b => b
  | JNum n => negb (n =? 0)
  | JStr s => match s with EmptyString => false | _ => true end
  | JArr l => match l with [] => false | _ => true end
  | JObj l => match l with [] => false | _ => true end
  end.

(** Lookup of the last binding of a key, as in a decoded object. *)
Fixpoint assoc (k : string) (l : list (string * json)) : option json :=
  match l with
  | [] => None
  | (k', v) :: l => match assoc k l with
                    | Some v' => Some v'
                    | None => if String.eqb k k' then Some v else None
                    end
  end.

(** [d.get(k)]: a missing key reads as [None]. *)
Definition jget (j : json) (k : string) : json :=
  match j with JObj l => default JNull (assoc k l) | _ => JNull end.

(** [d[k]], [None] standing for [KeyError]. *)
Definition jindex (j : json) (k : string) : option json :=
  match j with JObj l => assoc k l | _ => None end.

(** [d.get(k, dflt)]. *)
Definition jget_default (j : json) (k : string) (dflt : json) : json :=
  default dflt (jindex j k).

(** [a or b]. *)
Definition jor (a b : json) : json := if truthy a then a else b.

(** [d[k] = v]: a key that is present keeps its place; [d.pop(k, None)]. *)
Fixpoint oset (k : string) (v : json) (l : list (string * json)) : list (string * json) :=
  match l with
  | [] => [(k, v)]
  | (k', v') :: l => if String.eqb k k' then (k, v) :: List.filter (fun e => negb (String.eqb k (fst e))) l
                     else (k', v') :: oset k v l
  end.

Definition odel (k : string) (l : list (string * json)) : list (string * json) :=
  List.filter (fun e => negb (String.eqb k (fst e))) l.

(** Membership of a string in a list of JSON values. *)
Definition jmem (s : string) (l : list json) : bool :=
  existsb (fun j => match j with JStr t => String.eqb s t | _ => false end) l.

(** ** [json.dumps]

    A string is a sequence of code points below 256; [ensure_ascii] writes the
    ones outside printable ASCII as [\u00xx]. *)

Definition hex_digit (n : nat) : Ascii.ascii :=
  Ascii.ascii_of_nat (if Nat.ltb n 10 then 48 + n else 87 + n)%nat.

Definition esc_char (c : Ascii.ascii) : string :=
  let n := Ascii.nat_of_ascii c in
  let quote := Ascii.ascii_of_nat 34 in
  let bslash := Ascii.ascii_of_nat 92 in
  if Nat.eqb n 34 then String bslash (String quote EmptyString)
  else if Nat.eqb n 92 then String bslash (String bslash EmptyString)
  else if Nat.eqb n 10 then String bslash "n"
  else if Nat.eqb n 13 then String bslash "r"
  else if Nat.eqb n 9 then String bslash "t"
  else if Nat.eqb n 8 then String bslash "b"
  else if Nat.eqb n 12 then String bslash "f"
  else if Nat.ltb n 32 || Nat.leb 127 n then
    String bslash (String "u"%char (String "0"%char (String "0"%char
      (String (hex_digit (Nat.div n 16)) (String (hex_digit (Nat.modulo n 16)) EmptyString)))))
  else String c EmptyString.

Fixpoint esc (s : string) : string :=
  match s with
  | EmptyString => EmptyString
  | String c s => esc_char c +:+ esc s
  end.

Definition dumps_str (s : string) : string :=
  let quote := String (Ascii.ascii_of_nat 34) EmptyString in
  quote +:+ esc s +:+ quote.

(** Insertion sort of key-value pairs by key, stable. *)
Fixpoint insert_key (kv : string * string) (l : list (string * string)) : list (string * string) :=
  match l with
  | [] => [kv]
  | kv' :: l' => if String.leb (fst kv) (fst kv') then kv :: l else kv' :: insert_key kv l'
  end.

Definition sort_pairs (l : list (string * string)) : list (string * string) :=
  foldr insert_key [] l.

(** [json.dumps(j, sort_keys=sort, separators=(item, colon))]. *)
Fixpoint dumps_with (sort : bool) (item colon : string) (j : json) : string :=
  match j with
  | JNull => "null"
  | JBool b => if b then "true" else "false"
  | JNum n => pretty n
  | JStr s => dumps_str s
  | JArr l => "[" +:+ sjoin item (List.map (dumps_with sort item colon) l) +:+ "]"
  | JObj l =>
      let kvs := List.map (fun kv => (fst kv, dumps_with sort item colon (snd kv))) l in
      let kvs := if sort then sort_pairs kvs else kvs in
      "{" +:+ sjoin item (List.map (fun kv => dumps_str (fst kv) +:+ colon +:+ snd kv) kvs) +:+ "}"
  end.

Definition dumps (j : json) : string := dumps_with false ", " ": " j.

(** [json.dumps(j, sort_keys=True, separators=(",", ":"))]. *)
Definition dumps_canonical (j : json) : string := dumps_with true "," ":" j.

(** The decoded value of an optional string. *)
Definition jopt (o : option string) : json := from_option JStr JNull o.

(** ** Updates of objects *)

Lemma assoc_odel_eq k l : assoc k (odel k l) = None.
Proof.
  unfold odel. induction l as [|[k' v] l IH]; cbn; [done|]. destruct (String.eqb_spec k k') as [|Hne]; cbn; [done|].
  rewrite IH. by rewrite (proj2 (String.eqb_neq k k') Hne).
Qed.

Lemma assoc_odel_ne k k' l : k' <> k -> assoc k' (odel k l) = assoc k' l.
Proof.
  intros Hne. unfold odel. induction l as [|[k0 v] l IH]; cbn; [done|].
  destruct (String.eqb_spec k k0) as [->|]; cbn; rewrite IH; [|done].
  rewrite (proj2 (String.eqb_neq k' k0) Hne). by destruct (assoc k' l).
Qed.

Lemma assoc_app k l1 l2 : assoc k (l1 ++ l2) = match assoc k l2 with Some v => Some v | None => assoc k l1 end.
Proof.
  induction l1 as [|[k' v] l1 IH]; cbn; [by destruct (assoc k l2)|]. rewrite IH. by destruct (assoc k l2).
Qed.

Lemma assoc_oset_eq k v l : assoc k (oset k v l) = Some v.
Proof.
  induction l as [|[k' v'] l IH]; cbn; [by rewrite String.eqb_refl|]. destruct (String.eqb_spec k k') as [|Hne]; cbn.
  - fold (odel k l). by rewrite assoc_odel_eq, String.eqb_refl.
  - by rewrite IH.
Qed.

Lemma assoc_oset_ne k k' v l : k' <> k -> assoc k' (oset k v l) = assoc k' l.
Proof.
  intros Hne. induction l as [|[k0 v0] l IH]; cbn; [by rewrite (proj2 (String.eqb_neq k' k) Hne)|].
  destruct (String.eqb_spec k k0) as [->|]; cbn; [|by rewrite IH].
  fold (odel k0 l). rewrite assoc_odel_ne by done. by rewrite (proj2 (String.eqb_neq k' k0) Hne).
Qed.
