(* ===== verification/Proxy.v ===== *)
(** * The capture egress proxy ([src/capture-egress-svc/capture_egress_svc/proxy.py])

    The forward proxy between the browsers and the network: it parses one HTTP/1.x
    head, decides what to connect to, connects through [Capture.resolve_and_connect]
    and relays bytes under a budget.  Bytes are the characters of a string.  What a
    client sends up to the end of its head is an argument; so are the resolver and
    the dialler, the JSON value of a policy request, and the chunks that arrive at
    the relays.  Time limits appear as a read that fails.

    The theorems: whatever the client sends, the proxy dials only a vetted address
    of the authority its request line names, on an allowed port; the head it forwards
    parses again to the same request with one [Host], one framing and no hop-by-hop
    header; the body is copied exactly; the bytes relayed never exceed the budget. *)

From stdpp Require Import pretty.
From S2P Require Import Prelude Strings IpAddress Url Capture Json.

(** ** Bytes *)

Definition CR : ascii := ascii_of_nat 13.
Definition LF : ascii := ascii_of_nat 10.
Definition TAB : ascii := ascii_of_nat 9.
Definition CRLF : string := String CR (String LF EmptyString).
Definition HEADER_END : string := CRLF +:+ CRLF.

(** [raw.split(b"\r\n")]. *)
Fixpoint split_crlf (s : string) : list string :=
  match s with
  | EmptyString => [EmptyString]
  | String c s1 =>
      let rest := match split_crlf s1 with [] => [String c EmptyString] | p :: ps => String c p :: ps end in
      match s1 with
      | String d s2 => if Ascii.eqb c CR && Ascii.eqb d LF then EmptyString :: split_crlf s2 else rest
      | EmptyString => rest
      end
  end.

(** [raw.replace(b"\r\n", b"")]. *)
Fixpoint drop_crlf (s : string) : string :=
  match s with
  | EmptyString => EmptyString
  | String c s1 =>
      match s1 with
      | String d s2 => if Ascii.eqb c CR && Ascii.eqb d LF then drop_crlf s2 else String c (drop_crlf s1)
      | EmptyString => s
      end
  end.

(** [raw[:-n]]. *)
Definition drop_end (n : nat) (s : string) : string := String.substring 0 (slen s - n) s.

Definition ascii_only (s : string) : bool := sforall (fun c => Nat.ltb (chr c) 128) s.

(** [_TOKEN.fullmatch]. *)
Definition token_char (c : ascii) : bool :=
  is_alpha c || is_digit c ||
  existsb (Ascii.eqb c) ["!"; "#"; "$"; "%"; "&"; "'"; "*"; "+"; "."; "^"; "_"; "`"; "|"; "~"; "-"]%char.
Definition is_token (s : string) : bool := negb (is_empty s) && sforall token_char s.

Definition is_blank (c : ascii) : bool := Ascii.eqb c " " || Ascii.eqb c TAB.
Definition strip_blank (s : string) : string := rstrip is_blank (lstrip is_blank s).

(** [bytes.strip()]. *)
Definition is_byte_space (c : ascii) : bool := (Nat.leb 9 (chr c) && Nat.leb (chr c) 13) || Ascii.eqb c " ".
Definition strip_bytes (s : string) : string := rstrip is_byte_space (lstrip is_byte_space s).

(** ** Configuration and errors *)

Record ProxyConfig := mkConfig {
  allowed_ports : list Z;
  connect_timeout : usec;
  max_connections : Z;
  max_header_bytes : Z;
  max_header_count : Z;
  max_body_bytes : Z;
  max_transfer_bytes : Z;
  relay_chunk_bytes : Z
}.

(** [__post_init__] on these fields. *)
Definition config_ok (c : ProxyConfig) : bool :=
  negb (bool_decide (allowed_ports c = [])) && forallb (fun p => (1 <=? p) && (p <=? 65535)) (allowed_ports c) &&
  (0 <? connect_timeout c) && (connect_timeout c <=? sec 30) &&
  (1 <=? max_connections c) && (1 <=? max_header_bytes c) && (1 <=? max_header_count c) && (1 <=? max_body_bytes c) &&
  (1 <=? max_transfer_bytes c) && (1 <=? relay_chunk_bytes c) &&
  (max_header_bytes c <=? 128 * 1024) && (max_transfer_bytes c <=? 64 * 1024 * 1024) && (relay_chunk_bytes c <=? 64 * 1024).

Definition DEFAULT_CONFIG : ProxyConfig :=
  mkConfig [80; 443] (sec 2) 64 (16 * 1024) 100 (2 * 1024 * 1024) (8 * 1024 * 1024) (16 * 1024).

(** [ProxyProtocolError], the errors of a destination, [TransferLimitError]. *)
Inductive error := Protocol (status : Z) | Destination (e : DestinationError) | TransferLimit.

(** The error reply of [_serve_client]; an error it does not catch gives none. *)
Definition reply_status (e : error) : option Z :=
  match e with
  | Protocol status => Some status
  | Destination DestinationDenied => Some 403
  | Destination DestinationResolution => Some 502
  | Destination DestinationTimeout => Some 504
  | Destination DestinationConnection => Some 502
  | Destination InvalidArgument | Destination Cancelled => None
  | TransferLimit => Some 413
  end.

Notation bad := (Raise (Protocol 400)).

(** ** The head *)

Definition headers := list (string * string).

Fixpoint parse_lines (lines : list string) : outcome headers error :=
  match lines with
  | [] => Ok []
  | line :: lines =>
      if is_empty line || starts_with " " line || starts_with (String TAB EmptyString) line || negb (contains ":" line) then bad
      else
        let '(name, _, value) := partition ":" line in
        if negb (is_token name) || negb (sforall (fun c => (Nat.leb 32 (chr c) || Ascii.eqb c TAB) && negb (Nat.eqb (chr c) 127)) value)
        then bad
        else match parse_lines lines with
             | Ok rest => Ok ((lower name, strip_blank value) :: rest)
             | Raise e => Raise e
             end
  end.

(** [_parse_header_block]. *)
Definition parse_header_block (cfg : ProxyConfig) (raw : string) : outcome (string * headers) error :=
  if negb (ends_with HEADER_END raw) || (max_header_bytes cfg <? Z.of_nat (slen raw)) then Raise (Protocol 431)
  else if contains LF (drop_crlf raw) || contains CR (drop_crlf raw) then bad
  else match split_crlf (drop_end 4 raw) with
  | [] => Raise (Protocol 431)
  | start :: lines =>
      if max_header_count cfg <? Z.of_nat (length lines) then Raise (Protocol 431)
      else if is_empty start || negb (sforall (fun c => Nat.leb 32 (chr c) && Nat.leb (chr c) 126) start) then bad
      else match parse_lines lines with Ok hs => Ok (start, hs) | Raise e => Raise e end
  end.

Definition values (name : string) (hs : headers) : list string :=
  omap (fun '(n, v) => if String.eqb n name then Some v else None) hs.

Definition has_header (name : string) (hs : headers) : bool := mem name hs.*1.

(** [_one_header]. *)
Definition one_header (hs : headers) (name : string) (required : bool) : outcome (option string) error :=
  match values name hs with
  | [] => if required then bad else Ok None
  | [v] => Ok (Some v)
  | _ => bad
  end.

(** [_format_authority]. *)
Definition format_authority (host : string) (port : Z) : string :=
  (if contains ":" host then "[" +:+ host +:+ "]" else host) +:+ ":" +:+ pretty port.

Section Proxy.
Context (idna : string -> option string) (cfg : ProxyConfig).

Definition is_bracket (c : ascii) : bool := Ascii.eqb c "[" || Ascii.eqb c "]".

(** [_validated_host_header]. *)
Definition validated_host_header (hs : headers) (expected : DestinationAuthority) : outcome unit error :=
  match one_header hs "host" true with
  | Ok (Some raw_host) =>
      if negb (ascii_only raw_host) then bad
      else
        let host_text :=
          if contains ":" (snd (rpartition "]" raw_host)) then raw_host
          else format_authority (rstrip is_bracket (lstrip is_bracket raw_host)) (dport expected) in
        match parse_authority idna host_text with
        | None => bad
        | Some supplied =>
            if String.eqb (host supplied) (host expected) && (dport supplied =? dport expected) then Ok tt else bad
        end
  | _ => bad
  end.

(** [_absolute_http_target]. *)
Definition absolute_http_target (target : string) : outcome (DestinationAuthority * string) error :=
  if negb (ascii_only target) then bad
  else match urlsplit target "" with
  | None => bad
  | Some parsed =>
      if negb (String.eqb (lower (scheme parsed)) "http") || is_empty (netloc parsed) || ends_with ":" (netloc parsed)
         || contains "@" (netloc parsed) || contains "#" target
      then bad
      else match port parsed with
      | None => bad
      | Some p =>
          if is_empty (hostname parsed) then bad
          else match parse_authority idna (format_authority (hostname parsed) (default 80 p)) with
          | None => bad
          | Some authority =>
              let path := if is_empty (path parsed) then "/" else path parsed in
              if negb (starts_with "/" path) then bad
              else Ok (authority, path +:+ (if is_empty (query parsed) then "" else "?" +:+ query parsed))
          end
      end
  end.

(** [_check_port], [_content_length], [_validate_empty_body]. *)
Definition check_port (a : DestinationAuthority) : outcome unit error :=
  if existsb (Z.eqb (dport a)) (allowed_ports cfg) then Ok tt else Raise (Destination DestinationDenied).

Definition content_length (hs : headers) : outcome Z error :=
  if has_header "transfer-encoding" hs then bad
  else match one_header hs "content-length" false with
  | Raise e => Raise e
  | Ok None => Ok 0
  | Ok (Some v) => if Nat.ltb 12 (slen v) || is_empty v || negb (sforall is_digit v) then bad else Ok (decimal v)
  end.

Definition validate_empty_body (hs : headers) : outcome unit error :=
  match content_length hs with
  | Raise e => Raise e
  | Ok n => if n =? 0 then Ok tt else bad
  end.

(** ** Forwarded headers *)

Definition HOP_HEADERS : list string :=
  ["connection"; "keep-alive"; "proxy-connection"; "proxy-authenticate"; "proxy-authorization"; "te"; "trailer";
   "transfer-encoding"; "upgrade"].

(** The tokens of the [Connection] headers. *)
Definition raw_tokens (hs : headers) : list string :=
  values "connection" hs ≫= (fun v => (fun t => lower (strip_bytes t)) <$> split "," v).

Definition connection_tokens (hs : headers) : outcome (list string) error :=
  if forallb is_token (raw_tokens hs) then Ok (raw_tokens hs) else bad.

Definition safe_headers (hs : headers) (tokens : list string) (authority : DestinationAuthority) : headers :=
  List.filter (fun '(name, _) => negb (mem name HOP_HEADERS) && negb (mem name tokens) && negb (String.eqb name "host")) hs
  ++ [("host", format_authority (host authority) (dport authority)); ("connection", "close")].

Definition render_header (h : string * string) : string := fst h +:+ ": " +:+ snd h +:+ CRLF.
Definition request_head (method target version : string) (hs : headers) : string :=
  method +:+ " " +:+ target +:+ " " +:+ version +:+ CRLF +:+ sjoin "" (render_header <$> hs) +:+ CRLF.

(** ** Requests *)

Inductive plan :=
| Tunnel (authority : DestinationAuthority)
| Forward (authority : DestinationAuthority) (head : string) (body : Z)
| PolicyCheck (body : Z).

Definition bind_o {A B} (o : outcome A error) (f : A -> outcome B error) : outcome B error :=
  match o with Ok a => f a | Raise e => Raise e end.

(** [_handle_connect] up to the connection. *)
Definition plan_connect (target : string) (hs : headers) : outcome plan error :=
  if negb (ascii_only target) then bad
  else match parse_authority idna target with
  | None => bad
  | Some authority =>
      bind_o (check_port authority) (fun _ =>
      bind_o (validated_host_header hs authority) (fun _ =>
      bind_o (validate_empty_body hs) (fun _ => Ok (Tunnel authority))))
  end.

(** [_handle_http] up to the connection. *)
Definition plan_http (method target version : string) (hs : headers) : outcome plan error :=
  bind_o (absolute_http_target target) (fun '(authority, origin_target) =>
  bind_o (check_port authority) (fun _ =>
  bind_o (validated_host_header hs authority) (fun _ =>
  bind_o (content_length hs) (fun len =>
  if max_body_bytes cfg <? len then Raise TransferLimit
  else
  bind_o (connection_tokens hs) (fun tokens =>
  if has_header "proxy-authorization" hs || has_header "expect" hs
     || existsb (fun t => mem t ["host"; "content-length"; "transfer-encoding"]) tokens
  then bad
  else Ok (Forward authority (request_head method origin_target version (safe_headers hs tokens authority)) len)))))).

Definition POLICY_PATH : string := "/_control/public-dns-check".
Definition POLICY_HOST : string := "capture-egress.internal:8080".
Definition POLICY_REQUIRED : list string := ["host"; "content-type"; "connection"; "content-length"].
Definition POLICY_ALLOWED : list string := POLICY_REQUIRED ++ ["accept"; "accept-encoding"; "user-agent"].

(** [_handle_dns_policy] up to the body: the header checks that are left are implied
    by the set of names. *)
Definition plan_policy (version : string) (hs : headers) : outcome plan error :=
  if negb (String.eqb version "HTTP/1.1") then bad
  else if negb (bool_decide (NoDup hs.*1)) || negb (forallb (fun n => has_header n hs) POLICY_REQUIRED)
          || negb (forallb (fun n => mem n POLICY_ALLOWED) hs.*1) then bad
  else if negb (bool_decide (values "host" hs = [POLICY_HOST])) then bad
  else if negb (bool_decide (values "content-type" hs = ["application/json"])) then bad
  else if negb (bool_decide (values "connection" hs = ["close"])) then bad
  else match values "content-length" hs with
  | [v] => if is_empty v || negb (sforall is_digit v) || Nat.ltb 3 (slen v) then bad
           else let n := decimal v in if (1 <=? n) && (n <=? 512) then Ok (PolicyCheck n) else Raise (Protocol 413)
  | _ => bad
  end.

Definition METHODS : list string := ["GET"; "HEAD"; "POST"; "PUT"; "PATCH"; "DELETE"; "OPTIONS"].

(** [_serve_client] up to the connection. *)
Definition plan_request (policy_enabled : bool) (raw : string) : outcome plan error :=
  bind_o (parse_header_block cfg raw) (fun '(start, hs) =>
  match split " " start with
  | [method; target; version] =>
      if negb (mem version ["HTTP/1.0"; "HTTP/1.1"]) then bad
      else if String.eqb method "POST" && String.eqb target POLICY_PATH then
        if policy_enabled then plan_policy version hs else bad
      else if String.eqb method "CONNECT" then plan_connect target hs
      else if mem method METHODS then plan_http method target version hs
      else bad
  | _ => bad
  end).

(** The host name of a policy request; [payload] is [None] when the body is not JSON
    or repeats a key. *)
Definition policy_hostname (payload : option json) : outcome string error :=
  match payload with
  | Some (JObj [(k, JStr hostname)]) =>
      if negb (String.eqb k "hostname") || is_empty hostname || Nat.ltb 253 (slen hostname) || negb (ascii_only hostname) then bad
      else match parse_authority idna (hostname +:+ ":443") with
      | Some a => match literal a with
                  | None => if String.eqb (host a) (lower hostname) then Ok (host a) else bad
                  | Some _ => bad
                  end
      | None => bad
      end
  | _ => bad
  end.

Inductive verdict := Public | Denied | Unavailable.

Definition policy_verdict (hostname : string) (resolver : string -> Z -> Resolved) : verdict :=
  match resolve_and_validate idna (hostname +:+ ":443") resolver (connect_timeout cfg) with
  | Ok _ => Public
  | Raise DestinationDenied => Denied
  | Raise _ => Unavailable
  end.

(** What the proxy does with a head: the connection it makes, the reply it writes
    itself, and what it sends upstream before the body. *)
Record served := mkServed {
  connection : option Connect;
  reply : option Z;
  upstream : string;
  answered : option verdict
}.

Definition authority_text (a : DestinationAuthority) : string := format_authority (host a) (dport a).

Definition serve (policy_enabled : bool) (payload : option json) (resolver : string -> Z -> Resolved)
  (dialer : ipaddr -> Z -> Dialed) (raw : string) : served :=
  match plan_request policy_enabled raw with
  | Raise e => mkServed None (reply_status e) "" None
  | Ok (PolicyCheck _) =>
      match policy_hostname payload with
      | Raise e => mkServed None (reply_status e) "" None
      | Ok hostname => mkServed None None "" (Some (policy_verdict hostname resolver))
      end
  | Ok (Tunnel a) =>
      let c := resolve_and_connect idna (authority_text a) resolver dialer (connect_timeout cfg) in
      mkServed (Some c) (match returned c with Ok _ => None | Raise e => reply_status (Destination e) end) "" None
  | Ok (Forward a head _) =>
      let c := resolve_and_connect idna (authority_text a) resolver dialer (connect_timeout cfg) in
      match returned c with
      | Raise e => mkServed (Some c) (reply_status (Destination e)) "" None
      | Ok _ => if max_transfer_bytes cfg <? Z.of_nat (slen head)
                then mkServed (Some c) (reply_status TransferLimit) "" None
                else mkServed (Some c) None head None
      end
  end.

End Proxy.

(** ** Lines *)

Lemma split_crlf_line l rest : contains CR l = false -> split_crlf (l +:+ CRLF +:+ rest) = l :: split_crlf rest.
Proof.
  induction l as [|c l IH]; intros H; [done|]. cbn [contains] in H. apply orb_false_iff in H as [Hc Hl].
  specialize (IH Hl). rewrite sapp_cons. cbn [split_crlf]. rewrite IH. destruct (l +:+ CRLF +:+ rest) as [|d t]; [done|].
  rewrite Ascii.eqb_sym in Hc. by rewrite Hc.
Qed.

Lemma split_crlf_last l : contains CR l = false -> split_crlf l = [l].
Proof.
  induction l as [|c l IH]; intros H; [done|]. cbn [contains] in H. apply orb_false_iff in H as [Hc Hl].
  cbn [split_crlf]. rewrite (IH Hl). destruct l as [|d t]; [done|]. rewrite Ascii.eqb_sym in Hc. by rewrite Hc.
Qed.

Lemma drop_crlf_line l rest : contains CR l = false -> drop_crlf (l +:+ CRLF +:+ rest) = l +:+ drop_crlf rest.
Proof.
  induction l as [|c l IH]; intros H; [done|]. cbn [contains] in H. apply orb_false_iff in H as [Hc Hl].
  specialize (IH Hl). rewrite !sapp_cons. cbn [drop_crlf]. rewrite <- IH. destruct (l +:+ CRLF +:+ rest) as [|d t] eqn:E.
  - by destruct l.
  - rewrite Ascii.eqb_sym in Hc. by rewrite Hc.
Qed.

Lemma sjoin_cons sep s t l : sjoin sep (s :: t :: l) = s +:+ sep +:+ sjoin sep (t :: l).
Proof. done. Qed.

Lemma split_crlf_join lines : lines <> [] -> Forall (fun l => contains CR l = false) lines -> split_crlf (sjoin CRLF lines) = lines.
Proof.
  intros Hne HF. induction HF as [|l lines Hl HF IH]; [done|]. destruct lines as [|m lines]; [by apply split_crlf_last|].
  rewrite sjoin_cons, split_crlf_line by done. by rewrite IH.
Qed.

Lemma drop_crlf_join lines rest : Forall (fun l => contains CR l = false) lines -> lines <> [] ->
  drop_crlf (sjoin CRLF lines +:+ CRLF +:+ rest) = sjoin "" lines +:+ drop_crlf rest.
Proof.
  intros HF Hne. induction HF as [|l lines Hl HF IH]; [done|]. destruct lines as [|m lines]; [by apply drop_crlf_line|].
  rewrite !sjoin_cons, !sapp_assoc, drop_crlf_line by done. rewrite IH by done. by rewrite sapp_nil.
Qed.

Lemma drop_end_app a b : drop_end (slen b) (a +:+ b) = a.
Proof. apply substring_app. Qed.

Lemma contains_join c sep lines : contains c sep = false -> Forall (fun l => contains c l = false) lines -> contains c (sjoin sep lines) = false.
Proof.
  intros Hs HF. induction HF as [|l lines Hl HF IH]; [done|]. destruct lines as [|m lines]; [done|].
  rewrite sjoin_cons, !contains_app, Hl, Hs. done.
Qed.

(** ** Headers that survive printing *)

Definition value_char (c : ascii) : bool := (Nat.leb 32 (chr c) || Ascii.eqb c TAB) && negb (Nat.eqb (chr c) 127).
Definition start_char (c : ascii) : bool := Nat.leb 32 (chr c) && Nat.leb (chr c) 126.
Definition word_char (c : ascii) : bool := Nat.leb 33 (chr c) && Nat.leb (chr c) 126.

Definition good_header (h : string * string) : Prop :=
  is_token (fst h) = true /\ lower (fst h) = fst h /\ sforall value_char (snd h) = true /\ strip_blank (snd h) = snd h.

Lemma sforall_impl (f g : ascii -> bool) s : (forall c, f c = true -> g c = true) -> sforall f s = true -> sforall g s = true.
Proof. intros H. induction s as [|c s IH]; cbn; [done|]. intros [Hc Hs]%andb_true_iff. by rewrite (H _ Hc), IH. Qed.

Lemma sforall_lstrip f g s : sforall g s = true -> sforall g (lstrip f s) = true.
Proof. induction s as [|c s IH]; cbn; [done|]. intros H. destruct (f c); [|done]. apply andb_true_iff in H as [_ H]. by apply IH. Qed.

Lemma sforall_rstrip f g s : sforall g s = true -> sforall g (rstrip f s) = true.
Proof.
  induction s as [|c s IH]; cbn; [done|]. intros [Hc Hs]%andb_true_iff. specialize (IH Hs).
  destruct (rstrip f s); [destruct (f c); cbn; by rewrite ?Hc|]. cbn in *. by rewrite Hc.
Qed.

Definition head_kept (f : ascii -> bool) (s : string) : Prop := match s with EmptyString => True | String c _ => f c = false end.

Lemma lstrip_head f s : head_kept f (lstrip f s).
Proof. induction s as [|c s IH]; cbn; [done|]. by destruct (f c) eqn:E. Qed.

Lemma rstrip_head f s : head_kept f s -> head_kept f (rstrip f s).
Proof. destruct s as [|c s]; cbn; [done|]. intros H. destruct (rstrip f s); [by rewrite H|done]. Qed.

Lemma lstrip_id f s : head_kept f s -> lstrip f s = s.
Proof. destruct s as [|c s]; cbn; [done|]. by intros ->. Qed.

Lemma rstrip_idemp f s : rstrip f (rstrip f s) = rstrip f s.
Proof.
  induction s as [|c s IH]; cbn; [done|]. destruct (rstrip f s) as [|d r] eqn:E.
  - destruct (f c) eqn:Ec; cbn; [done|]. by rewrite Ec.
  - cbn [rstrip] in IH |- *. destruct (rstrip f r); [destruct (f d)|]; try discriminate IH; by rewrite IH.
Qed.

Lemma strip_blank_idemp s : strip_blank (strip_blank s) = strip_blank s.
Proof. unfold strip_blank. rewrite lstrip_id by (apply rstrip_head, lstrip_head). apply rstrip_idemp. Qed.

Lemma rstrip_cons_blank v : strip_blank v = v -> strip_blank (String " " v) = v.
Proof.
  intros H. change (strip_blank (String " " v)) with (strip_blank v). done.
Qed.

Lemma lower_token c : token_char c = true -> token_char (lower_char c) = true.
Proof. destruct c as [[] [] [] [] [] [] [] []]; vm_compute; done. Qed.

Lemma is_token_lower s : is_token s = true -> is_token (lower s) = true.
Proof.
  unfold is_token. intros [Hn Hs]%andb_true_iff. apply andb_true_iff. split; [by destruct s|].
  clear Hn. unfold lower. induction s as [|c s IH]; cbn; [done|]. cbn in Hs. apply andb_true_iff in Hs as [Hc Hs].
  by rewrite lower_token, IH.
Qed.

Lemma parse_lines_good lines hs : parse_lines lines = Ok hs -> Forall good_header hs.
Proof.
  revert hs. induction lines as [|line lines IH]; intros hs; cbn; [by intros [= <-]|].
  destruct (_ || _); [done|]. destruct (partition ":" line) as [[name b] value].
  destruct (_ || _) eqn:E; [done|]. apply orb_false_iff in E as [E1%negb_false_iff E2%negb_false_iff].
  destruct (parse_lines lines) as [rest|]; [|done]. intros [= <-]. constructor; [|by apply IH].
  split_and!; cbn; [by apply is_token_lower|apply lower_idemp| |apply strip_blank_idemp].
  by apply sforall_rstrip, sforall_lstrip.
Qed.

Lemma token_no_colon s : sforall token_char s = true -> contains ":" s = false.
Proof. by apply sforall_absent. Qed.

Definition header_line (h : string * string) : string := fst h +:+ ": " +:+ snd h.

Lemma parse_lines_render hs : Forall good_header hs -> parse_lines (header_line <$> hs) = Ok hs.
Proof.
  induction 1 as [|[n v] hs (H1 & H2 & H3 & H4) HF IH]; [done|]. cbn [fmap list_fmap parse_lines]. unfold header_line at 1 2 3 4 5. cbn [fst snd] in *.
  pose proof H1 as H1'. unfold is_token in H1. apply andb_true_iff in H1 as [Hn Ht].
  assert (Hp : partition ":" (n +:+ ": " +:+ v) = (n, true, String " " v)).
  { apply (partition_at ":"%char). by apply token_no_colon. }
  assert (Hc : contains ":" (n +:+ ": " +:+ v) = true).
  { rewrite !contains_app. cbn. by rewrite orb_true_r. }
  destruct n as [|c n]; [done|]. cbn [sforall] in Ht. apply andb_true_iff in Ht as [Hc0 _].
  assert (Hs : starts_with " " (String c n +:+ ": " +:+ v) = false /\ starts_with (String TAB EmptyString) (String c n +:+ ": " +:+ v) = false).
  { rewrite sapp_cons. split; cbn [starts_with]; rewrite andb_true_r; clear -Hc0; destruct c as [[] [] [] [] [] [] [] []]; done. }
  destruct Hs as [-> ->]. rewrite Hc, Hp. cbn [is_empty orb negb]. rewrite H1'. cbn [negb orb].
  fold (header_line <$> hs). rewrite sapp_cons. cbn [is_empty orb].
  assert (Hv : sforall (fun c0 => (Nat.leb 32 (chr c0) || Ascii.eqb c0 TAB) && negb (Nat.eqb (chr c0) 127)) (String " " v) = true).
  { exact H3. }
  rewrite Hv. cbn [negb]. change ((λ h, h.1 +:+ ": " +:+ h.2) <$> hs) with (header_line <$> hs). rewrite IH. do 3 f_equal; [done|]. by apply rstrip_cons_blank.
Qed.

Lemma head_lines s hs : s +:+ CRLF +:+ sjoin "" (render_header <$> hs) +:+ CRLF = sjoin CRLF (s :: (header_line <$> hs)) +:+ HEADER_END.
Proof.
  revert s. induction hs as [|h hs IH]; intros s; [done|]. cbn [fmap list_fmap]. rewrite sjoin_cons, !sapp_assoc. f_equal. f_equal.
  fold (header_line <$> hs). fold (render_header <$> hs). rewrite <- IH. unfold render_header at 1, header_line at 1.
  assert (HJ : forall x l, sjoin "" (x :: l) = x +:+ sjoin "" l).
  { intros x l. destruct l; [cbn; by rewrite sapp_empty|]. by rewrite sjoin_cons, sapp_nil. }
  rewrite HJ. by rewrite !sapp_assoc.
Qed.

Definition start_line (method target version : string) : string := method +:+ " " +:+ target +:+ " " +:+ version.

Lemma request_head_lines m t v hs : request_head m t v hs = sjoin CRLF (start_line m t v :: (header_line <$> hs)) +:+ HEADER_END.
Proof. rewrite <- head_lines. unfold request_head, start_line. by rewrite !sapp_assoc. Qed.

Lemma good_line_clean c h : good_header h -> value_char c = false -> token_char c = false -> c <> " "%char -> c <> ":"%char ->
  contains c (header_line h) = false.
Proof.
  intros (H1 & _ & H3 & _) Hv Ht Hs Hc. unfold header_line. unfold is_token in H1. apply andb_true_iff in H1 as [_ H1].
  rewrite !contains_app, (sforall_absent _ c _ Ht H1), (sforall_absent _ c _ Hv H3). cbn.
  by rewrite (proj2 (Ascii.eqb_neq c ":") Hc), (proj2 (Ascii.eqb_neq c " ") Hs).
Qed.

Lemma start_line_chars m t v : sforall word_char m = true -> sforall word_char t = true -> sforall word_char v = true ->
  sforall start_char (start_line m t v) = true.
Proof.
  assert (HW : forall c, word_char c = true -> start_char c = true).
  { intros c. unfold word_char, start_char. intros [H1 H2]%andb_true_iff. rewrite H2, andb_true_r. apply Nat.leb_le in H1. apply Nat.leb_le. lia. }
  intros H1 H2 H3. unfold start_line. rewrite !sforall_app.
  rewrite (sforall_impl _ _ m HW H1), (sforall_impl _ _ t HW H2), (sforall_impl _ _ v HW H3). done.
Qed.

(** What is printed parses back. *)
Lemma parse_printed cfg m t v hs :
  sforall word_char m = true -> sforall word_char t = true -> sforall word_char v = true -> m <> "" -> Forall good_header hs ->
  Z.of_nat (slen (request_head m t v hs)) <= max_header_bytes cfg -> Z.of_nat (length hs) <= max_header_count cfg ->
  parse_header_block cfg (request_head m t v hs) = Ok (start_line m t v, hs).
Proof.
  intros Hm Ht Hv Hne HG Hb Hc. pose proof (start_line_chars m t v Hm Ht Hv) as HS.
  assert (HL : forall c, (c = CR \/ c = LF) -> Forall (fun l => contains c l = false) (start_line m t v :: (header_line <$> hs))).
  { intros c Hcc. constructor; [destruct Hcc as [-> | ->]; (apply (sforall_absent start_char); [reflexivity|done])|].
    apply Forall_fmap. eapply Forall_impl; [exact HG|]. intros h Hh. cbn.
    destruct Hcc as [-> | ->]; (apply good_line_clean; [done|reflexivity|reflexivity|discriminate|discriminate]). }
  unfold parse_header_block. rewrite request_head_lines in *. rewrite ends_with_app. cbn [negb orb].
  rewrite (proj2 (Z.ltb_ge _ _) Hb).
  assert (HD : drop_crlf (sjoin CRLF (start_line m t v :: (header_line <$> hs)) +:+ HEADER_END) = sjoin "" (start_line m t v :: (header_line <$> hs))).
  { unfold HEADER_END. rewrite drop_crlf_join; [|apply HL; by left|done]. by rewrite sapp_empty. }
  rewrite HD, !contains_join; [|done|apply HL; by left|done|apply HL; by right]. cbn [orb].
  assert (HT : forall x, drop_end 4 (x +:+ HEADER_END) = x) by (intros x; exact (drop_end_app x HEADER_END)).
  rewrite HT, split_crlf_join; [|done|apply HL; by left].
  rewrite length_fmap, (proj2 (Z.ltb_ge _ _) Hc).
  assert (HE : is_empty (start_line m t v) = false) by (by destruct m).
  rewrite HE. unfold start_char in HS. rewrite HS. cbn [negb orb]. by rewrite parse_lines_render.
Qed.

Lemma split_start m t v : sforall word_char m = true -> sforall word_char t = true -> sforall word_char v = true ->
  split " " (start_line m t v) = [m; t; v].
Proof.
  intros Hm Ht Hv. unfold start_line. change (" " +:+ t +:+ " " +:+ v) with (String " " (t +:+ String " " v)).
  rewrite (split_at " "%char m) by (by apply (sforall_absent word_char)).
  rewrite (split_at " "%char t) by (by apply (sforall_absent word_char)).
  by rewrite split_absent by (by apply (sforall_absent word_char)).
Qed.

(** ** Where the words of a request line come from *)

Lemma split_parts c f s : sforall f s = true -> Forall (fun p => sforall f p = true /\ contains c p = false) (split c s).
Proof.
  induction s as [|d s IH]; cbn; [by repeat constructor|]. intros [Hd Hs]%andb_true_iff. specialize (IH Hs).
  destruct (Ascii.eqb c d) eqn:E; [by constructor|]. destruct (split c s) as [|p ps]; [repeat constructor; cbn; by rewrite ?Hd, ?E|].
  apply Forall_cons in IH as [[H1 H2] IH]. constructor; [|done]. cbn. by rewrite Hd, E.
Qed.

Lemma word_of_start s : sforall start_char s = true -> contains " " s = false -> sforall word_char s = true.
Proof.
  induction s as [|c s IH]; cbn; [done|]. intros [Hc Hs]%andb_true_iff [Hb Hbs]%orb_false_iff. rewrite IH by done. rewrite andb_true_r.
  clear -Hc Hb. unfold start_char, word_char in *. apply andb_true_iff in Hc as [H1 H2]. rewrite H2, andb_true_r.
  apply Nat.leb_le in H1. apply Nat.leb_le. destruct (decide (chr c = 32%nat)) as [E|]; [|lia]. exfalso.
  apply Ascii.eqb_neq in Hb. apply Hb. unfold chr in E. rewrite <- (ascii_nat_embedding c), E. done.
Qed.

Lemma sforall_sfilter f g s : sforall g s = true -> sforall g (sfilter f s) = true.
Proof. induction s as [|c s IH]; cbn; [done|]. intros [Hc Hs]%andb_true_iff. destruct (f c); cbn; rewrite ?Hc; by apply IH. Qed.

Lemma sforall_partition c g s : sforall g s = true -> let '(a, _, r) := partition c s in sforall g a = true /\ sforall g r = true.
Proof.
  induction s as [|d s IH]; cbn; [done|]. intros [Hd Hs]%andb_true_iff. destruct (Ascii.eqb c d); [done|].
  specialize (IH Hs). destruct (partition c s) as [[a b] r]. cbn. by rewrite Hd.
Qed.

Lemma sforall_break f g s : sforall g s = true -> let '(a, r) := break_at f s in sforall g a = true /\ sforall g r = true.
Proof.
  induction s as [|d s IH]; cbn; [done|]. intros H. pose proof H as H'. apply andb_true_iff in H as [Hd Hs]. destruct (f d); [done|].
  specialize (IH Hs). destruct (break_at f s) as [a r]. cbn. by rewrite Hd.
Qed.

Lemma sforall_sdrop g n s : sforall g s = true -> sforall g (sdrop n s) = true.
Proof. revert s. induction n as [|n IH]; intros [|c s]; cbn; try done. intros [_ Hs]%andb_true_iff. by apply IH. Qed.

Lemma urlsplit_chars g url r : sforall g url = true -> urlsplit url "" = Some r -> sforall g (path r) = true /\ sforall g (query r) = true.
Proof.
  intros Hu. unfold urlsplit. set (u := sfilter _ _). assert (H0 : sforall g u = true) by (by apply sforall_sfilter, sforall_lstrip).
  clearbody u. destruct (split_scheme "" u) as [sch u1] eqn:E1.
  assert (H1 : sforall g u1 = true).
  { revert E1. unfold split_scheme. pose proof (sforall_partition ":" g u H0) as HP. destruct (partition ":" u) as [[a b] rest].
    destruct a as [|c a], b; try (by intros [= _ <-]). destruct (_ && _); intros [= _ <-]; [apply HP|done]. }
  destruct (if starts_with "//" u1 then _ else _) as [nl u2] eqn:E2.
  assert (H2 : sforall g u2 = true).
  { revert E2. destruct (starts_with "//" u1); [|by intros [= _ <-]]. intros E.
    pose proof (sforall_break (fun c => Ascii.eqb c "/" || Ascii.eqb c "?" || Ascii.eqb c "#") g (sdrop 2 u1) (sforall_sdrop g 2 u1 H1)) as HB.
    rewrite E in HB. apply HB. }
  destruct (negb _); [done|]. destruct (_ && _); [done|].
  pose proof (sforall_partition "#" g u2 H2) as H3. destruct (partition "#" u2) as [[u3 b3] frag].
  pose proof (sforall_partition "?" g u3 (proj1 H3)) as H4. destruct (partition "?" u3) as [[u4 b4] q].
  intros [= <-]. done.
Qed.

Lemma origin_target_chars idna target a t : sforall word_char target = true -> absolute_http_target idna target = Ok (a, t) ->
  sforall word_char t = true.
Proof.
  intros HT. unfold absolute_http_target. destruct (negb (ascii_only target)); [done|].
  destruct (urlsplit target "") as [r|] eqn:Er; [|done]. destruct (_ || _); [done|]. destruct (port r); [|done].
  destruct (is_empty (hostname r)); [done|]. destruct (parse_authority _ _); [|done].
  destruct (urlsplit_chars word_char target r HT Er) as [H1 H2]. destruct (negb (starts_with _ _)); [done|]. intros [= _ <-].
  rewrite sforall_app. apply andb_true_iff. split.
  - by destruct (is_empty (path r)).
  - destruct (is_empty (query r)); [done|]. change ("?" +:+ query r) with (String "?" (query r)). cbn. done.
Qed.

(** ** Authorities *)

Lemma parse_port_pretty p : 1 <= p <= 65535 -> parse_port (pretty p) = Some p.
Proof.
  intros Hp. destruct (pretty_pos_digits p ltac:(lia)) as [H1 H2]. unfold parse_port. rewrite H1, H2, decimal_pretty by lia.
  destruct p as [|q|q]; [lia| |lia]. rewrite pretty_Z_pos in *.
  assert (HL : (slen (pretty_N_go (N.pos q) "") <= 5)%nat) by (apply (pretty_go_length 5); cbn; lia).
  rewrite (proj2 (Nat.ltb_ge 5 _) HL), pretty_go_leading by lia. rewrite andb_false_r. cbn [orb negb].
  by rewrite (proj2 (Z.leb_le 1 _)), (proj2 (Z.leb_le _ 65535)) by lia.
Qed.

Definition host_char (c : ascii) : bool := alnum c || Ascii.eqb c "-" || Ascii.eqb c "." || Ascii.eqb c ":".

Lemma sforall_join g sep l : sforall g sep = true -> Forall (fun s => sforall g s = true) l -> sforall g (sjoin sep l) = true.
Proof.
  intros Hs HF. induction HF as [|s l H HF IH]; [done|]. destruct l as [|t l]; [done|]. rewrite sjoin_cons, !sforall_app. by rewrite H, Hs.
Qed.

Lemma digit_host c : is_digit c = true -> host_char c = true.
Proof. unfold host_char, alnum. intros ->. by rewrite orb_true_r. Qed.

Lemma hex_digits_chars fuel n acc : sforall host_char acc = true -> sforall host_char (hex_digits fuel n acc) = true.
Proof.
  revert n acc. induction fuel as [|fuel IH]; intros n acc Ha; cbn [hex_digits]; [done|].
  set (c := ascii_of_nat _). assert (Hc : host_char c = true).
  { unfold c. pose proof (Z.mod_pos_bound n 16 ltac:(lia)). assert (Hd : (Z.to_nat (n mod 16) < 16)%nat) by lia.
    revert Hd. generalize (Z.to_nat (n mod 16)). intros d Hd. do 16 (destruct d as [|d]; [done|]). lia. }
  destruct (n / 16 =? 0); [cbn; by rewrite Hc|]. apply IH. cbn. by rewrite Hc.
Qed.

Lemma compress_chars l : Forall (fun s => sforall host_char s = true) l -> Forall (fun s => sforall host_char s = true) (compress_hextets l).
Proof.
  intros HF. unfold compress_hextets. destruct (best_run 0 l _ _) as [start len]. destruct (Nat.ltb 1 len); [|done].
  repeat (apply Forall_app; split); try (by repeat constructor); try (by apply Forall_take); try (by apply Forall_drop).
  - destruct (Nat.eqb start 0); by repeat constructor.
  - destruct (Nat.eqb _ _); by repeat constructor.
Qed.

Lemma pretty_mod_host n : sforall host_char (pretty (n mod 256)) = true.
Proof.
  pose proof (Z.mod_pos_bound n 256 ltac:(lia)) as Hb. destruct (n mod 256) as [|p|p]; [done| |lia].
  change (pretty (Z.pos p)) with (pretty (N.pos p)). apply pretty_N_forall, digit_host.
Qed.

Lemma compressed_chars a : (forall n z, a <> V6 n (Some z)) -> sforall host_char (compressed a) = true.
Proof.
  intros Hz. destruct a as [n|n [z|]]; [|by destruct (Hz n z)|]; cbn [compressed].
  - apply sforall_join; [done|]. repeat constructor; apply pretty_mod_host.
  - rewrite sapp_empty. apply sforall_join; [done|]. apply compress_chars. unfold hextet_strings.
    apply Forall_fmap, Forall_forall. intros k _. by apply hex_digits_chars.
Qed.

Lemma ip_address_no_zone s n z : contains "%" s = false -> ip_address s <> Some (V6 n (Some z)).
Proof.
  intros Hp. unfold ip_address. destruct (contains "/" s); [done|]. destruct (parse_ipv4 s); [done|].
  rewrite partition_absent by done. cbn. by destruct (parse_ipv6 s).
Qed.

Lemma label_chars l : host_label l = true -> sforall host_char l = true.
Proof.
  unfold host_label. destruct l as [|c l]; [done|]. intros H. apply andb_true_iff in H as [H _]. apply andb_true_iff in H as [_ H].
  eapply sforall_impl; [|exact H]. intros d. unfold host_char. intros [->| ->]%orb_true_iff; by rewrite ?orb_true_r.
Qed.

Lemma split_chars g c s : g c = true -> Forall (fun p => sforall g p = true) (split c s) -> sforall g s = true.
Proof.
  intros Hc. induction s as [|d s IH]; [done|]. cbn. destruct (Ascii.eqb_spec c d) as [<-|].
  - intros [_ HF]%Forall_cons. by rewrite Hc, IH.
  - destruct (split c s) as [|p ps]; intros [Hd HF]%Forall_cons; cbn in Hd; apply andb_true_iff in Hd as [-> Hd]; apply IH; by constructor.
Qed.

Lemma contains_partition d c s : contains d s = false -> let '(a, _, r) := partition c s in contains d a = false /\ contains d r = false.
Proof.
  induction s as [|e s IH]; cbn; [done|]. intros [He Hs]%orb_false_iff. destruct (Ascii.eqb c e); [done|].
  specialize (IH Hs). destruct (partition c s) as [[a b] r]. cbn. by rewrite He.
Qed.

Lemma contains_sdrop d n s : contains d s = false -> contains d (sdrop n s) = false.
Proof. revert s. induction n as [|n IH]; intros [|c s]; cbn; try done. intros [_ Hs]%orb_false_iff. by apply IH. Qed.

(** The host of a parsed authority has no character that could end a header. *)
Lemma parse_authority_chars idna s a : parse_authority idna s = Some a -> sforall host_char (host a) = true.
Proof.
  unfold parse_authority. destruct (is_empty s || _); [done|]. destruct (negb (sforall _ s)); [done|].
  destruct (existsb _ _) eqn:Ex; [done|].
  assert (Hp : contains "%" s = false).
  { cbn [existsb] in Ex. rewrite !orb_false_iff in Ex. tauto. }
  assert (HI : forall raw x, contains "%" raw = false -> ip_address raw = Some x -> sforall host_char (compressed x) = true).
  { intros raw x Hr Hx. apply compressed_chars. intros n z ->. by apply (ip_address_no_zone raw n z Hr). }
  destruct (starts_with "[" s).
  - pose proof (contains_partition "%" "]" (sdrop 1 s) (contains_sdrop _ 1 s Hp)) as HP.
    destruct (partition "]" (sdrop 1 s)) as [[raw f] rest]. destruct (_ || _); [done|].
    destruct (ip_address raw) as [[n|n z]|] eqn:Ei; try done. pose proof (HI raw _ (proj1 HP) Ei) as HG. revert HG.
    generalize (compressed (V6 n z)). intros h HG. destruct (parse_port _); [|done]. by intros [= <-].
  - destruct (negb _); [done|]. pose proof (contains_partition "%" ":" s Hp) as HP.
    destruct (partition ":" s) as [[raw f] rp]. destruct (is_empty raw); [done|].
    destruct (parse_host idna raw) as [[h l]|] eqn:Eh; [|done]. destruct (parse_port rp); [|done]. intros [= <-]. cbn [host].
    unfold parse_host in Eh. destruct (ip_address raw) as [x|] eqn:Ei; [|].
    { pose proof (HI raw x (proj1 HP) Ei) as HG. revert HG Eh. generalize (compressed x). intros h0 HG [= <- _]. exact HG. }
    destruct (sforall _ raw); [done|]. destruct (idna _) as [h'|]; [|done]. destruct (_ || _) eqn:El; [done|]. injection Eh as <- _.
    apply orb_false_iff in El as [_ El%negb_false_iff]. apply (split_chars _ "."); [done|].
    apply Forall_forall. intros p Hin. apply label_chars. rewrite forallb_forall in El. apply El. by apply list_elem_of_In.
Qed.

(** The authority the connector parses has the port that was checked. *)
Lemma format_authority_port idna h p a : sforall host_char h = true -> 1 <= p <= 65535 ->
  parse_authority idna (format_authority h p) = Some a -> dport a = p.
Proof.
  intros Hh Hp. unfold parse_authority. destruct (_ || _); [done|]. destruct (negb (sforall _ _)); [done|].
  destruct (existsb _ _); [done|]. unfold format_authority.
  destruct (contains ":" h) eqn:Ec.
  - change ("[" +:+ h +:+ "]") with (String "[" (h +:+ "]")). rewrite sapp_cons, sapp_assoc.
    cbn [starts_with sdrop]. rewrite Ascii.eqb_refl. cbn [andb].
    change (h +:+ "]" +:+ ":" +:+ pretty p) with (h +:+ String "]" (String ":" (pretty p))).
    rewrite (partition_at "]"%char h) by (by apply (sforall_absent host_char)). cbn [negb orb sdrop].
    destruct (is_empty h || _); [done|]. destruct (ip_address h) as [[n|n z]|]; try done.
    generalize (compressed (V6 n z)). intros h0. rewrite parse_port_pretty by done. by intros [= <-].
  - change (h +:+ ":" +:+ pretty p) with (h +:+ String ":" (pretty p)).
    assert (Hb : starts_with "[" (h +:+ String ":" (pretty p)) = false).
    { destruct h as [|c h]; [done|]. rewrite sapp_cons. cbn [starts_with]. rewrite andb_true_r. cbn in Hh. apply andb_true_iff in Hh as [Hc _].
      destruct (Ascii.eqb_spec "[" c) as [<-|]; done. }
    rewrite Hb. destruct (negb _); [done|]. rewrite (partition_at ":"%char h) by done. destruct (is_empty h); [done|].
    destruct (parse_host idna h) as [[h0 l]|]; [|done]. rewrite parse_port_pretty by done. by intros [= <-].
Qed.

Lemma dialed_vetted idna t resolver dialer timeout x p : resolver_ok resolver ->
  dialed (resolve_and_connect idna t resolver dialer timeout) = Some (x, p) ->
  exists auth answers, parse_authority idna t = Some auth /\ p = dport auth /\ answers_of auth resolver = Ok answers /\
    Forall (fun y => exists b, canonical_vetted y = Ok b) answers /\ is_global x = true /\ addr_is_restricted x = false.
Proof.
  intros Hr. unfold resolve_and_connect. destruct (resolve_and_validate idna t resolver timeout) as [[auth [|target rest]]|] eqn:E; [done| |done].
  intros HD. assert (HE : x = target /\ p = dport auth).
  { revert HD. destruct (dialer target (dport auth)) as [peer|e| | | |]; cbn; try (by intros [= <- <-]). by destruct (peer_matches _ _ _); intros [= <- <-]. }
  destruct HE as [-> ->]. destruct (vetted_target _ _ _ _ _ _ _ Hr E) as (answers & H1 & H2 & H3 & H4 & H5). eauto 10.
Qed.

(** ** What a plan guarantees *)

Lemma bind_ok {A B} (o : outcome A error) (f : A -> outcome B error) b : bind_o o f = Ok b -> exists a, o = Ok a /\ f a = Ok b.
Proof. destruct o; cbn; [eauto|done]. Qed.

Lemma check_port_ok cfg a u : check_port cfg a = Ok u -> dport a ∈ allowed_ports cfg.
Proof.
  unfold check_port. destruct (existsb _ _) eqn:E; [|done]. intros _. apply existsb_exists in E as (p & Hp & ->%Z.eqb_eq). by apply list_elem_of_In.
Qed.

Lemma absolute_target_authority idna t a o : absolute_http_target idna t = Ok (a, o) -> exists s, parse_authority idna s = Some a.
Proof.
  unfold absolute_http_target. destruct (negb _); [done|]. destruct (urlsplit t "") as [r|]; [|done]. destruct (_ || _); [done|].
  destruct (port r) as [p|]; [|done]. destruct (is_empty _); [done|]. destruct (parse_authority idna _) as [a'|] eqn:E; [|done].
  destruct (negb _); [done|]. intros [= -> _]. eauto.
Qed.

(** The client's request behind a plan to forward. *)
Record forwarded (idna : string -> option string) (cfg : ProxyConfig) (raw : string) (a : DestinationAuthority) (head : string) (n : Z)
  (m t v o : string) (hs : headers) : Prop := mkForwarded {
  f_parse : parse_header_block cfg raw = Ok (start_line m t v, hs);
  f_words : sforall word_char m = true /\ sforall word_char t = true /\ sforall word_char v = true /\ m <> "";
  f_good : Forall good_header hs;
  f_target : absolute_http_target idna t = Ok (a, o);
  f_port : dport a ∈ allowed_ports cfg;
  f_host : validated_host_header idna hs a = Ok tt;
  f_length : content_length hs = Ok n /\ n <= max_body_bytes cfg;
  f_tokens : connection_tokens hs = Ok (raw_tokens hs) /\
             existsb (fun t => mem t ["host"; "content-length"; "transfer-encoding"]) (raw_tokens hs) = false;
  f_head : head = request_head m o v (safe_headers hs (raw_tokens hs) a)
}.

Lemma parse_block_start cfg raw start hs : parse_header_block cfg raw = Ok (start, hs) -> sforall start_char start = true /\ Forall good_header hs.
Proof.
  unfold parse_header_block. destruct (_ || _); [done|]. destruct (_ || _); [done|]. destruct (split_crlf _) as [|s lines]; [done|].
  destruct (max_header_count cfg <? _); [done|]. destruct (is_empty s || _) eqn:E; [done|]. apply orb_false_iff in E as [_ E%negb_false_iff].
  destruct (parse_lines lines) as [h|] eqn:El; [|done]. intros [= <- <-]. split; [exact E|by eapply parse_lines_good].
Qed.

Lemma split_three s m t v : split " " s = [m; t; v] -> s = start_line m t v.
Proof.
  assert (HJ : forall s, sjoin " " (split " " s) = s).
  { clear. induction s as [|c s IH]; [done|]. cbn [split]. destruct (Ascii.eqb_spec " " c) as [<-|].
    - assert (Hne : split " " s <> []) by (destruct s as [|d s']; cbn; [done|]; destruct (Ascii.eqb " " d); [done|]; by destruct (split " " s')).
      destruct (split " " s) as [|p ps]; [done|]. rewrite sjoin_cons, IH. done.
    - destruct (split " " s) as [|p ps] eqn:E; [destruct s; cbn in E; [done|]; destruct (Ascii.eqb " " a); [done|]; by destruct (split " " s)|].
      transitivity (String c (sjoin " " (p :: ps))); [by destruct ps|by rewrite IH]. }
  intros H. rewrite <- (HJ s), H. done.
Qed.

Lemma plan_forward idna cfg pol raw a head n : plan_request idna cfg pol raw = Ok (Forward a head n) ->
  exists m t v o hs, forwarded idna cfg raw a head n m t v o hs.
Proof.
  unfold plan_request. intros H. apply bind_ok in H as ([start hs] & HP & H). destruct (parse_block_start _ _ _ _ HP) as [HS HG].
  pose proof (split_parts " " start_char start HS) as HF. destruct (split " " start) as [|m [|t [|v [|x l]]]] eqn:Es; try done.
  assert (HW : Forall (fun w => sforall word_char w = true) [m; t; v]).
  { eapply Forall_impl; [exact HF|]. intros w [? ?]. by apply word_of_start. }
  apply Forall_cons in HW as [Hm HW]. apply Forall_cons in HW as [Ht HW]. apply Forall_cons in HW as [Hv _].
  apply split_three in Es as ->. destruct (negb (mem v _)); [done|].
  destruct (_ && _).
  { destruct pol; [|done]. unfold plan_policy in H. repeat match type of H with (if ?b then _ else _) = _ => destruct b; [discriminate H|] end.
    destruct (values "content-length" hs) as [|? []]; [done| |done]. destruct (_ || _); [done|]. by destruct (_ && _). }
  destruct (String.eqb m "CONNECT").
  { unfold plan_connect in H. destruct (negb _); [done|]. destruct (parse_authority idna t); [|done].
    apply bind_ok in H as (? & _ & H). apply bind_ok in H as (? & _ & H). by apply bind_ok in H as (? & _ & H). }
  destruct (mem m METHODS) eqn:Em; [|done]. unfold plan_http in H.
  apply bind_ok in H as ([a' o] & H1 & H). apply bind_ok in H as (u1 & H2 & H). apply bind_ok in H as ([] & H3 & H).
  apply bind_ok in H as (len & H4 & H). destruct (max_body_bytes cfg <? len) eqn:El; [done|]. apply bind_ok in H as (tokens & H5 & H).
  destruct (_ || _) eqn:Ec; [done|]. injection H as -> <- ->. apply orb_false_iff in Ec as [_ Ec].
  assert (tokens = raw_tokens hs) as -> by (unfold connection_tokens in H5; destruct (forallb _ _); [by injection H5|done]).
  exists m, t, v, o, hs. split; try done.
  - split_and!; try done. intros ->. done.
  - by eapply check_port_ok.
  - apply Z.ltb_ge in El. done.
Qed.

Lemma plan_tunnel idna cfg pol raw a : plan_request idna cfg pol raw = Ok (Tunnel a) ->
  exists t v hs, parse_header_block cfg raw = Ok (start_line "CONNECT" t v, hs) /\ parse_authority idna t = Some a /\
    dport a ∈ allowed_ports cfg /\ validated_host_header idna hs a = Ok tt /\ content_length hs = Ok 0.
Proof.
  unfold plan_request. intros H. apply bind_ok in H as ([start hs] & HP & H).
  destruct (split " " start) as [|m [|t [|v [|x l]]]] eqn:Es; try done. apply split_three in Es as ->.
  destruct (negb (mem v _)); [done|]. destruct (_ && _).
  { destruct pol; [|done]. unfold plan_policy in H.
    repeat match type of H with (if ?b then _ else _) = _ => destruct b; [discriminate H|] end.
    destruct (values "content-length" hs) as [|? []]; [done| |done]. destruct (_ || _); [done|]. by destruct (_ && _). }
  destruct (String.eqb_spec m "CONNECT") as [->|].
  - unfold plan_connect in H. destruct (negb _); [done|]. destruct (parse_authority idna t) as [a'|] eqn:Ea; [|done].
    apply bind_ok in H as (? & H1 & H). apply bind_ok in H as ([] & H2 & H). apply bind_ok in H as (? & H3 & H). injection H as ->.
    exists t, v, hs. split_and!; try done; [by eapply check_port_ok|]. unfold validate_empty_body in H3.
    destruct (content_length hs) as [k|]; [|done]. destruct (Z.eqb_spec k 0); [by subst|done].
  - destruct (mem m METHODS); [|done]. unfold plan_http in H.
    apply bind_ok in H as ([a' o] & _ & H). apply bind_ok in H as (? & _ & H). apply bind_ok in H as (? & _ & H).
    apply bind_ok in H as (len & _ & H). destruct (_ <? len); [done|]. apply bind_ok in H as (tk & _ & H). by destruct (_ || _).
Qed.

(** ** Headers of the forwarded head *)

Lemma values_app name l1 l2 : values name (l1 ++ l2) = values name l1 ++ values name l2.
Proof. apply omap_app. Qed.

Lemma values_filter name (keep : string * string -> bool) (b : bool) hs :
  (forall v, keep (name, v) = b) -> values name (List.filter keep hs) = if b then values name hs else [].
Proof.
  intros HK. unfold values. induction hs as [|[n v] hs IH]; cbn; [by destruct b|]. destruct (String.eqb_spec n name) as [->|Hne].
  - rewrite HK. destruct b; cbn; rewrite ?String.eqb_refl; rewrite IH; done.
  - destruct (keep (n, v)); cbn; [|done]. rewrite (proj2 (String.eqb_neq n name) Hne). done.
Qed.

Lemma has_header_values name hs : has_header name hs = match values name hs with [] => false | _ => true end.
Proof.
  unfold has_header, mem. induction hs as [|[n v] hs IH]; cbn; [done|]. rewrite (String.eqb_sym name n). by destruct (String.eqb n name).
Qed.

Definition keeps (tokens : list string) (h : string * string) : bool :=
  let '(name, _) := h in negb (mem name HOP_HEADERS) && negb (mem name tokens) && negb (String.eqb name "host").

Lemma safe_headers_eq hs tokens a : safe_headers hs tokens a =
  List.filter (keeps tokens) hs ++ [("host", format_authority (host a) (dport a)); ("connection", "close")].
Proof. done. Qed.

Lemma safe_values hs tokens a name : mem name HOP_HEADERS = true \/ name = "host" ->
  values name (safe_headers hs tokens a) = values name [("host", format_authority (host a) (dport a)); ("connection", "close")].
Proof.
  intros Hn. rewrite safe_headers_eq, values_app, (values_filter name _ false); [done|]. intros v. cbn -[HOP_HEADERS].
  destruct Hn as [-> | ->]; [done|]. by rewrite String.eqb_refl, andb_false_r.
Qed.

Lemma safe_content_length hs a n : content_length hs = Ok n ->
  existsb (fun t => mem t ["host"; "content-length"; "transfer-encoding"]) (raw_tokens hs) = false ->
  content_length (safe_headers hs (raw_tokens hs) a) = Ok n.
Proof.
  intros HC HT. assert (HV : values "content-length" (safe_headers hs (raw_tokens hs) a) = values "content-length" hs).
  { rewrite safe_headers_eq, values_app, (values_filter _ _ true).
    - cbn. by rewrite app_nil_r.
    - intros v. cbn -[mem HOP_HEADERS]. assert (Hm : mem "content-length" (raw_tokens hs) = false).
      { apply not_true_iff_false. intros Hm. apply not_true_iff_false in HT. apply HT. apply existsb_exists.
        exists "content-length". split; [|done]. apply list_elem_of_In. by apply mem_elem. }
      rewrite Hm. done. }
  unfold content_length in *. rewrite (has_header_values "transfer-encoding" (safe_headers _ _ _)), safe_values by (by left). cbn [values omap].
  destruct (has_header "transfer-encoding" hs); [done|]. unfold one_header in *. rewrite HV. exact HC.
Qed.

Definition auth_char (c : ascii) : bool := host_char c || Ascii.eqb c "[" || Ascii.eqb c "]".

Lemma format_authority_chars h p : sforall host_char h = true -> 1 <= p -> sforall auth_char (format_authority h p) = true.
Proof.
  intros Hh Hp. assert (HA : forall s, sforall host_char s = true -> sforall auth_char s = true).
  { intros s. apply sforall_impl. intros c. unfold auth_char. by intros ->. }
  assert (HD : sforall auth_char (pretty p) = true).
  { apply HA. eapply sforall_impl; [exact digit_host|]. apply pretty_pos_digits. lia. }
  unfold format_authority. rewrite !sforall_app, HD. destruct (contains ":" h); [|by rewrite HA].
  rewrite !sforall_app, (HA h Hh). done.
Qed.

Lemma auth_value s : sforall auth_char s = true -> sforall value_char s = true /\ strip_blank s = s.
Proof.
  intros H. split.
  - eapply sforall_impl; [|exact H]. intros c. destruct c as [[] [] [] [] [] [] [] []]; vm_compute; done.
  - assert (HB : sforall (fun c => negb (is_blank c)) s = true).
    { eapply sforall_impl; [|exact H]. intros c. destruct c as [[] [] [] [] [] [] [] []]; vm_compute; done. }
    unfold strip_blank. by rewrite lstrip_none, rstrip_none.
Qed.

Lemma safe_good hs tokens a : Forall good_header hs -> sforall host_char (host a) = true -> 1 <= dport a ->
  Forall good_header (safe_headers hs tokens a).
Proof.
  intros HG Hh Hp. rewrite safe_headers_eq. apply Forall_app. split.
  - apply Forall_forall. intros h [_ Hin]%elem_of_list_filter. rewrite Forall_forall in HG. auto.
  - destruct (auth_value _ (format_authority_chars _ _ Hh Hp)) as [H1 H2]. repeat constructor; done.
Qed.

Lemma decimal_nonneg v : 0 <= decimal v.
Proof. apply digits_from_nonneg. lia. Qed.

Lemma content_length_nonneg hs n : content_length hs = Ok n -> 0 <= n.
Proof.
  unfold content_length. destruct (has_header _ _); [done|]. destruct (one_header _ _ _) as [[v|]|]; [|by intros [= <-]|done].
  destruct (_ || _); [done|]. intros [= <-]. apply decimal_nonneg.
Qed.

Lemma origin_slash idna t a o : absolute_http_target idna t = Ok (a, o) -> starts_with "/" o = true.
Proof.
  unfold absolute_http_target. destruct (negb _); [done|]. destruct (urlsplit t "") as [r|]; [|done]. destruct (_ || _); [done|].
  destruct (port r); [|done]. destruct (is_empty (hostname r)); [done|]. destruct (parse_authority _ _); [|done].
  destruct (starts_with "/" _) eqn:Es; [|done]. cbn [negb]. intros [= _ <-]. destruct (if is_empty (path r) then "/" else path r) as [|c s]; [done|].
  rewrite sapp_cons. exact Es.
Qed.

(** ** Theorems *)

(** C8.  No request smuggling: the head the proxy writes to an origin, parsed again by
    the same rules, is one request: the client's method, an origin-form target, the
    version; exactly one [Host], the authority the proxy connects to; exactly one
    [Connection: close]; no other hop-by-hop header, in particular no
    [Transfer-Encoding]; and a [Content-Length] that is the number of body bytes
    the proxy will copy, at most the limit. *)
Theorem forwarded_request_well_framed idna cfg pol raw a head n cfg' :
  plan_request idna cfg pol raw = Ok (Forward a head n) ->
  Z.of_nat (slen head) <= max_header_bytes cfg' -> Z.of_nat (slen head) <= max_header_count cfg' ->
  exists m t v o hs hs', parse_header_block cfg raw = Ok (start_line m t v, hs) /\
    parse_header_block cfg' head = Ok (start_line m o v, hs') /\ split " " (start_line m o v) = [m; o; v] /\ starts_with "/" o = true /\
    values "host" hs' = [authority_text a] /\ values "connection" hs' = ["close"] /\
    (forall h, mem h HOP_HEADERS = true -> h <> "connection" -> values h hs' = []) /\
    content_length hs' = Ok n /\ 0 <= n <= max_body_bytes cfg.
Proof.
  intros HP Hb Hc. apply plan_forward in HP as (m & t & v & o & hs & []). destruct f_words0 as (Hm & Ht & Hv & Hne).
  destruct f_length0 as [HL HM]. destruct f_tokens0 as [_ HT].
  destruct (absolute_target_authority _ _ _ _ f_target0) as [s Hs]. pose proof (parse_authority_chars _ _ _ Hs) as Hh.
  pose proof (proj1 (parse_authority_ok _ _ _ Hs)) as Hp. pose proof (origin_target_chars _ _ _ _ Ht f_target0) as Ho.
  set (safe := safe_headers hs (raw_tokens hs) a) in *. assert (HG : Forall good_header safe) by (apply safe_good; [done|done|lia]).
  exists m, t, v, o, hs, safe. split; [done|]. split.
  { rewrite f_head0 in *. apply parse_printed; try done. etransitivity; [|exact Hc]. apply Nat2Z.inj_le.
    unfold request_head. rewrite !slen_app. clear. induction safe as [|h safe IH]; cbn [length fmap list_fmap]; [lia|].
    assert (HJ : (slen (sjoin "" (render_header h :: (render_header <$> safe))) >= 1 + slen (sjoin "" (render_header <$> safe)))%nat).
    { unfold render_header at 1. destruct safe as [|h' safe]; cbn [fmap list_fmap]; [cbn [sjoin]|rewrite sjoin_cons];
        rewrite !slen_app; cbn [slen CRLF]; lia. }
    lia. }
  split; [by apply split_start|]. split; [by eapply origin_slash|].
  split; [unfold safe; rewrite safe_values by (by right); done|].
  split; [unfold safe; rewrite safe_values by (by left); done|]. split.
  - intros h Hhop Hn. unfold safe. rewrite safe_values by (by left). unfold values. cbn -[String.eqb]. rewrite (String.eqb_sym "connection" h), (proj2 (String.eqb_neq h _) Hn).
    destruct (String.eqb_spec "host" h) as [<-|]; done.
  - split; [by apply safe_content_length|]. split; [by eapply content_length_nonneg|done].
Qed.

Definition demo_raw : string :=
  "GET http://Example.org/a?b=1 HTTP/1.1" +:+ CRLF +:+ "Host: example.org" +:+ CRLF +:+ "Connection: x-hop, close" +:+ CRLF +:+
  "X-Hop: 1" +:+ CRLF +:+ "Keep-Alive: 5" +:+ CRLF +:+ "Content-Length: 3" +:+ CRLF +:+ CRLF.

Definition demo_head : string :=
  "GET /a?b=1 HTTP/1.1" +:+ CRLF +:+ "content-length: 3" +:+ CRLF +:+ "host: example.org:80" +:+ CRLF +:+ "connection: close" +:+ CRLF +:+ CRLF.

Lemma forwarded_request_well_framed_witness :
  plan_request Some DEFAULT_CONFIG false demo_raw = Ok (Forward (mkAuthority "example.org" 80 None) demo_head 3) /\
  exists o hs', parse_header_block DEFAULT_CONFIG demo_head = Ok (start_line "GET" o "HTTP/1.1", hs') /\ content_length hs' = Ok 3.
Proof.
  assert (HP : plan_request Some DEFAULT_CONFIG false demo_raw = Ok (Forward (mkAuthority "example.org" 80 None) demo_head 3))
    by (vm_compute; reflexivity).
  split; [exact HP|].
  destruct (forwarded_request_well_framed Some DEFAULT_CONFIG false demo_raw _ demo_head 3 (mkConfig [80] 1 1 1000 1000 1 1 1) HP
    ltac:(vm_compute; discriminate) ltac:(vm_compute; discriminate)) as (m & t & v & o & hs & hs' & _ & H2 & _ & _ & _ & _ & _ & H3 & _).
  exists "/a?b=1", hs'. split; [|exact H3]. vm_compute in H2. injection H2 as _ <-. vm_compute. reflexivity.
Defined.

(** The authority behind a plan that connects. *)
Definition destination (p : plan) : option DestinationAuthority :=
  match p with Tunnel a | Forward a _ _ => Some a | PolicyCheck _ => None end.

Lemma plan_destination idna cfg pol raw p a : plan_request idna cfg pol raw = Ok p -> destination p = Some a ->
  dport a ∈ allowed_ports cfg /\ 1 <= dport a <= 65535 /\ sforall host_char (host a) = true.
Proof.
  intros HP Hd. assert (HA : dport a ∈ allowed_ports cfg /\ exists s, parse_authority idna s = Some a).
  { destruct p as [a'|a' head n|]; [| |done]; injection Hd as ->.
    - apply plan_tunnel in HP as (t & v & hs & _ & Ha & Hp & _). eauto.
    - apply plan_forward in HP as (m & t & v & o & hs & []). split; [done|]. by eapply absolute_target_authority. }
  destruct HA as [H1 [s Hs]]. split; [done|]. split; [exact (proj1 (parse_authority_ok _ _ _ Hs))|by eapply parse_authority_chars].
Qed.

Lemma serve_connects idna cfg pol payload resolver dialer raw c :
  connection (serve idna cfg pol payload resolver dialer raw) = Some c ->
  exists p a, plan_request idna cfg pol raw = Ok p /\ destination p = Some a /\
    c = resolve_and_connect idna (authority_text a) resolver dialer (connect_timeout cfg).
Proof.
  unfold serve. destruct (plan_request idna cfg pol raw) as [[a|a head n|n]|e]; [| | |done].
  - intros [= <-]. by exists (Tunnel a), a.
  - intros H. exists (Forward a head n), a. split_and!; [done|done|]. revert H.
    set (c' := resolve_and_connect _ _ _ _ _). destruct (returned c'); [|by intros [= <-]]. by destruct (_ <? _); intros [= <-].
  - by destruct (policy_hostname idna payload).
Qed.

(** C6.  The proxy is not an open relay into the private network: whatever bytes a
    client sends and whatever the resolver answers, the one address the proxy may
    dial is global and unrestricted by the crawler's policy as well, on an allowed
    port, the port of the authority its request line names; it dials only when every
    answer for that authority was accepted, and a request that is refused, or that
    only asks for the policy, dials nothing. *)
Theorem proxy_dials_only_vetted idna cfg pol payload resolver dialer raw c x p :
  resolver_ok resolver ->
  connection (serve idna cfg pol payload resolver dialer raw) = Some c -> dialed c = Some (x, p) ->
  is_global x = true /\ addr_is_restricted x = false /\ p ∈ allowed_ports cfg /\
  exists pl a auth answers, plan_request idna cfg pol raw = Ok pl /\ destination pl = Some a /\ dport a = p /\
    parse_authority idna (authority_text a) = Some auth /\ answers_of auth resolver = Ok answers /\
    Forall (fun y => exists b, canonical_vetted y = Ok b) answers.
Proof.
  intros Hr Hc Hd. apply serve_connects in Hc as (pl & a & HP & Ha & ->).
  destruct (plan_destination _ _ _ _ _ _ HP Ha) as (H1 & H2 & H3).
  destruct (dialed_vetted _ _ _ _ _ _ _ Hr Hd) as (auth & answers & G1 & G2 & G3 & G4 & G5 & G6).
  assert (p = dport a) as -> by (rewrite G2; by eapply format_authority_port).
  split_and!; try done. by exists pl, a, auth, answers.
Qed.

Definition demo_connect : string :=
  "CONNECT example.com:443 HTTP/1.1" +:+ CRLF +:+ "Host: example.com:443" +:+ CRLF +:+ CRLF.

Lemma proxy_dials_only_vetted_witness :
  dialed (default (mkConnect None false (Raise DestinationDenied))
    (connection (serve Some DEFAULT_CONFIG false None demo_resolver demo_dialer demo_connect))) = Some (V4 1572395042, 443) /\
  is_global (V4 1572395042) = true.
Proof.
  assert (HC : exists c, connection (serve Some DEFAULT_CONFIG false None demo_resolver demo_dialer demo_connect) = Some c /\
                dialed c = Some (V4 1572395042, 443)) by (eexists; split; vm_compute; reflexivity).
  destruct HC as (c & H1 & H2). split; [by rewrite H1|].
  exact (proj1 (proxy_dials_only_vetted Some DEFAULT_CONFIG false None demo_resolver demo_dialer demo_connect c _ _ demo_resolver_ok H1 H2)).
Defined.

(** The policy endpoint answers [public] only for a host all of whose answers are
    accepted, and never connects. *)
Lemma policy_check_sound idna cfg pol payload resolver dialer raw :
  answered (serve idna cfg pol payload resolver dialer raw) = Some Public ->
  connection (serve idna cfg pol payload resolver dialer raw) = None /\
  exists h auth answers, policy_hostname idna payload = Ok h /\ parse_authority idna (h +:+ ":443") = Some auth /\
    answers_of auth resolver = Ok answers /\ Forall (fun y => exists b, canonical_vetted y = Ok b) answers.
Proof.
  unfold serve. destruct (plan_request idna cfg pol raw) as [[a|a head n|n]|e]; [done| | |done].
  - set (c' := resolve_and_connect _ _ _ _ _). destruct (returned c'); [|done]. by destruct (_ <? _).
  - destruct (policy_hostname idna payload) as [h|] eqn:Eh; [|done]. cbn [answered connection]. intros [= H]. split; [done|].
    unfold policy_verdict, resolve_and_validate in H. destruct (negb _); [done|]. destruct (parse_authority idna _) as [auth|] eqn:Ea; [|done].
    destruct (answers_of auth resolver) as [l|[]] eqn:El; try done. destruct (vet_all l) as [r|[]] eqn:Ev; try done.
    exists h, auth, l. split_and!; try done. apply vet_all_spec in Ev. eapply Forall2_Forall_l; [exact Ev|]. apply Forall_true. eauto.
Qed.
