(* ===== verification/Relay.v ===== *)
(** * The relays of the capture egress proxy ([src/capture-egress-svc/capture_egress_svc/proxy.py])

    What happens after [Proxy.serve] has connected: [_handle_http] writes the head,
    copies the declared body to the origin and the origin's answer back;
    [_tunnel] copies both ways at once; both charge one [_ByteBudget].  A stream is the list
    of what arrives at its reader; nothing more arriving is the idle timeout, which
    also stands for the lifetime limit.  A draining writer that fails is a function
    of what has been written.  The two tasks of a tunnel share the budget and run
    under any schedule of their loop iterations: [charge] and [write] follow the read
    without another [await].

    The theorems: a body is copied exactly and before any byte of an answer; bytes
    are never reordered, invented or dropped before a failure; the budget bounds
    them; the proxy never adds its own error to an answer; under a fair schedule a
    tunnel delivers everything; at most [max_connections] clients are served. *)

From S2P Require Import Prelude Strings Proxy.

(** ** Streams *)

Inductive event := Data (c : ascii) (s : string) | Eof | Broken.
Inductive got := Chunk (s : string) | NoMore | Idle | Reset.

(** [StreamReader.read(n)]. *)
Definition read (n : nat) (evs : list event) : got * list event :=
  match evs with
  | [] => (Idle, [])
  | Eof :: _ => (NoMore, evs)
  | Broken :: _ => (Reset, evs)
  | Data c s :: r =>
      match sdrop n (String c s) with
      | EmptyString => (Chunk (String c s), r)
      | String d t => (Chunk (String.substring 0 n (String c s)), Data d t :: r)
      end
  end.

(** The bytes that arrive, and whether they end with the end of the stream. *)
Fixpoint bytes (evs : list event) : string :=
  match evs with Data c s :: r => String c s +:+ bytes r | _ => EmptyString end.
Fixpoint complete (evs : list event) : bool :=
  match evs with Data _ _ :: r => complete r | Eof :: _ => true | _ => false end.

(** ** Copying *)

Inductive failure := Limit | Truncated | TimedOut | SocketError.

Record copy := mkCopy { sent : string; used : Z; left : list event; failed : option failure }.

Section Copy.
Context (limit : Z) (chunk : nat) (breaks : string -> bool).

(** [_ByteBudget.charge]. *)
Definition charge (used amount : Z) : option Z :=
  if (amount <? 0) || (limit <? used + amount) then None else Some (used + amount).

(** [budget.charge]; [writer.write]; [writer.drain]. *)
Definition put (s : string) (r : list event) (c : copy) : copy :=
  match charge (used c) (Z.of_nat (slen s)) with
  | None => mkCopy (sent c) (used c) r (Some Limit)
  | Some u => mkCopy (sent c +:+ s) u r (if breaks (sent c +:+ s) then Some SocketError else None)
  end.

Definition fail_copy (c : copy) (r : list event) (f : failure) : copy := mkCopy (sent c) (used c) r (Some f).

(** [_copy_exact]: [None] is out of fuel. *)
Fixpoint copy_exact (fuel remaining : nat) (c : copy) : option copy :=
  match remaining with
  | O => Some c
  | _ =>
      match fuel with
      | O => None
      | S fuel =>
          match read (Nat.min chunk remaining) (left c) with
          | (Chunk s, r) =>
              let c' := put s r c in
              match failed c' with
              | Some _ => Some c'
              | None => copy_exact fuel (remaining - slen s) c'
              end
          | (NoMore, r) => Some (fail_copy c r Truncated)
          | (Idle, r) => Some (fail_copy c r TimedOut)
          | (Reset, r) => Some (fail_copy c r SocketError)
          end
      end
  end.

(** [_copy_until_eof]. *)
Fixpoint copy_until_eof (fuel : nat) (allow_eof : bool) (c : copy) : option copy :=
  match fuel with
  | O => None
  | S fuel =>
      match read chunk (left c) with
      | (Chunk s, r) =>
          let c' := put s r c in
          match failed c' with
          | Some _ => Some c'
          | None => copy_until_eof fuel allow_eof c'
          end
      | (NoMore, r) => Some (if allow_eof then mkCopy (sent c) (used c) r None else fail_copy c r Truncated)
      | (Idle, r) => Some (fail_copy c r TimedOut)
      | (Reset, r) => Some (fail_copy c r SocketError)
      end
  end.

End Copy.

(** ** One forwarded request *)

Record exchanged := mkExchanged {
  to_origin : string;
  to_client : string;
  own_reply : option Z;
  finished : bool
}.

(** [_handle_http] from the connection on: an error before the copies is answered by
    [_serve_client], one after is not. *)
Definition exchange (limit : Z) (chunk : nat) (origin_breaks client_breaks : string -> bool)
  (head : string) (n : nat) (client origin : list event) : option exchanged :=
  match charge limit 0 (Z.of_nat (slen head)) with
  | None => Some (mkExchanged "" "" (reply_status TransferLimit) false)
  | Some u =>
      if origin_breaks head then Some (mkExchanged head "" (Some 502) false)
      else
        body ← copy_exact limit chunk (fun s => origin_breaks (head +:+ s)) n n (mkCopy "" u client None);
        match failed body with
        | Some _ => Some (mkExchanged (head +:+ sent body) "" None false)
        | None =>
            answer ← copy_until_eof limit chunk client_breaks (S (slen (bytes origin))) true (mkCopy "" (used body) origin None);
            Some (mkExchanged (head +:+ sent body) (sent answer) None (match failed answer with None => true | Some _ => false end))
        end
  end.

(** ** Tunnels *)

Inductive phase := Running | HalfClosed | Failed (f : failure).

Record way := mkWay { w_sent : string; w_left : list event; w_phase : phase }.

Record tunnel := mkTunnel { upward : way; downward : way; t_used : Z }.

Definition is_running (w : way) : bool := match w_phase w with Running => true | _ => false end.
Definition is_failed (w : way) : bool := match w_phase w with Failed _ => true | _ => false end.

(** The first failure ends the [gather], which cancels the other task. *)
Definition over (t : tunnel) : bool :=
  is_failed (upward t) || is_failed (downward t) || (negb (is_running (upward t)) && negb (is_running (downward t))).

Section Tunnel.
Context (limit : Z) (chunk : nat) (up_breaks down_breaks : string -> bool).

(** One iteration of the loop of [_relay_half_close]. *)
Definition relay (breaks : string -> bool) (w : way) (u : Z) : way * Z :=
  match read chunk (w_left w) with
  | (Chunk s, r) =>
      let c := put limit breaks s r (mkCopy (w_sent w) u (w_left w) None) in
      (mkWay (sent c) (left c) (match failed c with None => Running | Some f => Failed f end), used c)
  | (NoMore, r) => (mkWay (w_sent w) r HalfClosed, u)
  | (Idle, r) => (mkWay (w_sent w) r (Failed TimedOut), u)
  | (Reset, r) => (mkWay (w_sent w) r (Failed SocketError), u)
  end.

Definition step (up : bool) (t : tunnel) : tunnel :=
  if over t then t
  else if up then
    if is_running (upward t) then let '(w, u) := relay up_breaks (upward t) (t_used t) in mkTunnel w (downward t) u else t
  else
    if is_running (downward t) then let '(w, u) := relay down_breaks (downward t) (t_used t) in mkTunnel (upward t) w u else t.

Definition run (schedule : list bool) (t : tunnel) : tunnel := foldl (fun t b => step b t) t schedule.

Definition tunnel_start (client server : list event) : tunnel := mkTunnel (mkWay "" client Running) (mkWay "" server Running) 0.

End Tunnel.

(** ** Clients *)

(** [handle_client]: what arrives is served, or refused with 503; [active] counts
    the handlers that are past the guard. *)
Record listener := mkListener { active : Z; serving : list nat; rejected : list nat }.

Inductive client_event := Arrive (c : nat) | Leave (c : nat).

Fixpoint remove_one (c : nat) (l : list nat) : option (list nat) :=
  match l with
  | [] => None
  | d :: l => if Nat.eqb c d then Some l else cons d <$> remove_one c l
  end.

Definition handle_client (max : Z) (l : listener) (e : client_event) : listener :=
  match e with
  | Arrive c =>
      if max <=? active l then mkListener (active l) (serving l) (c :: rejected l)
      else mkListener (active l + 1) (c :: serving l) (rejected l)
  | Leave c =>
      match remove_one c (serving l) with
      | Some rest => mkListener (active l - 1) rest (rejected l)
      | None => l
      end
  end.

(** ** Lemmas *)

Lemma sdrop_take n s : String.substring 0 n s +:+ sdrop n s = s.
Proof. revert s; induction n as [|n IH]; intros [|c s]; try done. cbn [String.substring sdrop]. by rewrite sapp_cons, IH. Qed.

Lemma slen_take n s : (slen (String.substring 0 n s) <= n)%nat.
Proof. revert s; induction n as [|n IH]; intros [|c s]; cbn; try lia. specialize (IH s). lia. Qed.

Lemma sdrop_long n s : sdrop n s = "" -> (slen s <= n)%nat.
Proof. revert s; induction n as [|n IH]; intros [|c s]; cbn; try done; try lia. intros H%IH. lia. Qed.

Lemma slen_pos s : s <> "" -> (1 <= slen s)%nat.
Proof. destruct s; cbn; [done|lia]. Qed.

(** What a read gives is the next bytes of the stream. *)
Lemma read_spec n evs : (1 <= n)%nat ->
  match read n evs with
  | (Chunk s, r) => s <> "" /\ (slen s <= n)%nat /\ bytes evs = s +:+ bytes r /\ complete evs = complete r
  | (NoMore, r) => r = evs /\ bytes evs = "" /\ complete evs = true
  | (_, r) => r = evs /\ bytes evs = "" /\ complete evs = false
  end.
Proof.
  intros Hn. destruct evs as [|[c s| |] r]; cbn [read]; try done.
  destruct (sdrop n (String c s)) as [|d t] eqn:E.
  - split_and!; [done|by apply sdrop_long|done|done].
  - split_and!; [by destruct n; [lia|]|apply slen_take| |done]. cbn [bytes].
    rewrite <- (sdrop_take n (String c s)) at 1. by rewrite E, sapp_assoc.
Qed.

Section CopyLemmas.
Context (limit : Z) (chunk : nat) (breaks : string -> bool).
Hypothesis Hchunk : (1 <= chunk)%nat.

Lemma put_ok s r c : failed (put limit breaks s r c) = None ->
  put limit breaks s r c = mkCopy (sent c +:+ s) (used c + Z.of_nat (slen s)) r None /\ used c + Z.of_nat (slen s) <= limit.
Proof.
  unfold put, charge. destruct (_ || _) eqn:E; [done|]. apply orb_false_iff in E as [_ E%Z.ltb_ge]. cbn. by destruct (breaks _).
Qed.

(** A copy: what it sent are the next bytes of the stream, all charged. *)
Record copied (c c' : copy) (s : string) : Prop := mkCopied {
  cp_sent : sent c' = sent c +:+ s;
  cp_used : used c' = used c + Z.of_nat (slen s);
  cp_bytes : exists t, bytes (left c) = s +:+ t;
  cp_left : failed c' = None -> bytes (left c) = s +:+ bytes (left c') /\ complete (left c) = complete (left c');
  cp_limit : used c <= limit -> used c' <= limit
}.

Lemma put_copied s r c : bytes (left c) = s +:+ bytes r -> complete (left c) = complete r ->
  exists s', copied c (put limit breaks s r c) s' /\ (s' = "" \/ s' = s) /\ (failed (put limit breaks s r c) = None -> s' = s).
Proof.
  intros Hb Hc. unfold put, charge. destruct (_ || _) eqn:E.
  - exists "". split; [|by split; [left|]]. split; cbn; rewrite ?sapp_empty; try done; try lia. by exists (bytes (left c)).
  - apply orb_false_iff in E as [_ E%Z.ltb_ge]. exists s. split; [|by split; [right|]]. split; cbn; try done. by exists (bytes r).
Qed.

Lemma copied_trans a b c s t : copied a b s -> failed b = None -> copied b c t -> copied a c (s +:+ t).
Proof.
  intros [] Hf []. destruct (cp_left0 Hf) as [Hb Hc]. split.
  - by rewrite cp_sent1, cp_sent0, sapp_assoc.
  - rewrite cp_used1, cp_used0, slen_app. lia.
  - destruct cp_bytes1 as [u Hu]. exists u. by rewrite Hb, Hu, sapp_assoc.
  - intros H. destruct (cp_left1 H) as [Hb' Hc']. split; [|by rewrite Hc]. by rewrite Hb, Hb', sapp_assoc.
  - auto.
Qed.

Lemma copied_fail c f : failed (fail_copy c (left c) f) = Some f /\ copied c (fail_copy c (left c) f) "".
Proof. split; [done|]. split; cbn; rewrite ?sapp_empty; try done; try lia. by exists (bytes (left c)). Qed.

(** A read that gives no bytes ends the copy. *)
Ltac stopped c f := let HF := fresh "HF" in let HC := fresh "HC" in
  destruct (copied_fail c f) as [HF HC]; exists (fail_copy c (left c) f), ""; split_and!; try done; try (cbn; lia).

Lemma copy_exact_spec fuel : forall remaining c, (remaining <= fuel)%nat -> failed c = None ->
  exists c' s, copy_exact limit chunk breaks fuel remaining c = Some c' /\ copied c c' s /\ (slen s <= remaining)%nat /\
    (failed c' = None -> slen s = remaining) /\
    ((forall x, breaks x = false) -> (remaining <= slen (bytes (left c)))%nat -> used c + Z.of_nat remaining <= limit -> failed c' = None).
Proof.
  induction fuel as [|fuel IH]; intros remaining c Hr Hf; (destruct remaining as [|m]; [|try lia]).
  1,2: exists c, ""; split_and!; [done| |cbn; lia|done|done]; split; cbn; rewrite ?sapp_empty; try done; try lia; by exists (bytes (left c)).
  cbn [copy_exact]. pose proof (read_spec (Nat.min chunk (S m)) (left c) ltac:(lia)) as HR.
  destruct (read _ (left c)) as [[s| | |] r].
  - destruct HR as (Hne & Hlen & Hb & Hc). destruct (put_copied s r c Hb Hc) as (s' & HP & Hs' & Hok).
    apply slen_pos in Hne. destruct (failed (put limit breaks s r c)) as [f|] eqn:Ef.
    + exists (put limit breaks s r c), s'. split_and!; [done|done| |congruence|].
      * destruct Hs' as [->| ->]; cbn; lia.
      * intros Hnb Hlong Hlim. unfold put, charge in Ef. rewrite Hb, slen_app in Hlong.
        destruct (_ || _) eqn:E; [|cbn in Ef; by rewrite Hnb in Ef]. apply orb_true_iff in E as [E|E]; apply Z.ltb_lt in E; lia.
    + rewrite (Hok eq_refl) in HP. destruct (put_ok _ _ _ Ef) as [HE HL].
      destruct (IH (S m - slen s)%nat (put limit breaks s r c) ltac:(lia) Ef) as (c' & t & H1 & H2 & H3 & H4 & H5).
      exists c', (s +:+ t). split_and!; [done|by eapply copied_trans|rewrite slen_app; lia|intros H; rewrite slen_app, (H4 H); lia|].
      intros Hnb Hlong Hlim. apply H5; [done| |]; rewrite HE; cbn [left used]; [rewrite Hb, slen_app in Hlong|]; lia.
  - destruct HR as (-> & Hb & _). stopped c Truncated.
    intros _ H. rewrite Hb in H. cbn in H. lia.
  - destruct HR as (-> & Hb & _). stopped c TimedOut.
    intros _ H. rewrite Hb in H. cbn in H. lia.
  - destruct HR as (-> & Hb & _). stopped c SocketError.
    intros _ H. rewrite Hb in H. cbn in H. lia.
Qed.

Lemma copy_until_eof_spec fuel : forall c, (slen (bytes (left c)) < fuel)%nat -> failed c = None ->
  exists c' s, copy_until_eof limit chunk breaks fuel true c = Some c' /\ copied c c' s /\
    (failed c' = None -> s = bytes (left c) /\ complete (left c) = true) /\
    ((forall x, breaks x = false) -> complete (left c) = true -> used c + Z.of_nat (slen (bytes (left c))) <= limit -> failed c' = None).
Proof.
  induction fuel as [|fuel IH]; intros c Hr Hf; [lia|]. cbn [copy_until_eof]. pose proof (read_spec chunk (left c) Hchunk) as HR.
  destruct (read chunk (left c)) as [[s| | |] r].
  - destruct HR as (Hne & _ & Hb & Hc). destruct (put_copied s r c Hb Hc) as (s' & HP & Hs' & Hok).
    apply slen_pos in Hne. destruct (failed (put limit breaks s r c)) as [f|] eqn:Ef.
    + exists (put limit breaks s r c), s'. split_and!; [done|done|congruence|].
      intros Hnb _ Hlim. unfold put, charge in Ef. rewrite Hb, slen_app in Hlim.
      destruct (_ || _) eqn:E; [|cbn in Ef; by rewrite Hnb in Ef]. apply orb_true_iff in E as [E|E]; apply Z.ltb_lt in E; lia.
    + rewrite (Hok eq_refl) in HP. destruct (put_ok _ _ _ Ef) as [HE HL].
      assert (HL' : left (put limit breaks s r c) = r) by (by rewrite HE).
      destruct (IH (put limit breaks s r c)) as (c' & t & H1 & H2 & H3 & H4); [rewrite HL'; rewrite Hb, slen_app in Hr; lia|done|].
      rewrite HL' in H3, H4. exists c', (s +:+ t). split_and!; [done|by eapply copied_trans| |].
      * intros H. destruct (H3 H) as [-> Hd]. by rewrite Hb, Hc.
      * intros Hnb Hcm Hlim. apply H4; [done|by rewrite <- Hc|]. rewrite HE. cbn [used]. rewrite Hb, slen_app in Hlim. lia.
  - destruct HR as (-> & Hb & Hc). exists (mkCopy (sent c) (used c) (left c) None), "".
    split_and!; [done| |by rewrite Hb|done]. split; cbn; rewrite ?sapp_empty; try done; try lia. by exists (bytes (left c)).
  - destruct HR as (-> & Hb & Hc). stopped c TimedOut. intros _. by rewrite Hc.
  - destruct HR as (-> & Hb & Hc). stopped c SocketError. intros _. by rewrite Hc.
Qed.

End CopyLemmas.

Lemma config_relay cfg : config_ok cfg = true -> (1 <= Z.to_nat (relay_chunk_bytes cfg))%nat /\ 1 <= max_transfer_bytes cfg.
Proof. unfold config_ok. intros H. rewrite !andb_true_iff in H. bool_to_prop. lia. Qed.

(** ** Theorems *)

Section Exchange.
Context (cfg : ProxyConfig) (origin_breaks client_breaks : string -> bool) (head : string) (n : nat) (client origin : list event).
Notation exchange := (exchange (max_transfer_bytes cfg) (Z.to_nat (relay_chunk_bytes cfg)) origin_breaks client_breaks head n client origin).

(** C38.  Forwarding is faithful and bounded, and always ends with a result.  The origin
    receives the head and then bytes of the client's body in order, at most the
    declared number; the client receives the origin's bytes in order, and none before
    the whole declared body was sent; together they never exceed the transfer budget;
    the proxy writes its own error only when no byte of an answer was; and when
    nothing fails and the budget is enough, everything is delivered. *)
Theorem forwarded_exchange_exact : config_ok cfg = true ->
  exists x body, exchange = Some x /\
    (to_origin x = "" \/ to_origin x = head +:+ body) /\ (exists t, bytes client = body +:+ t) /\ (slen body <= n)%nat /\
    (exists t, bytes origin = to_client x +:+ t) /\
    (to_client x <> "" -> to_origin x = head +:+ body /\ slen body = n) /\
    Z.of_nat (slen (to_origin x) + slen (to_client x)) <= max_transfer_bytes cfg /\
    (own_reply x <> None -> to_client x = "") /\
    (finished x = true -> to_origin x = head +:+ body /\ slen body = n /\ to_client x = bytes origin /\ complete origin = true) /\
    ((forall s, origin_breaks s = false) -> (forall s, client_breaks s = false) -> (n <= slen (bytes client))%nat ->
     complete origin = true -> Z.of_nat (slen head + n + slen (bytes origin)) <= max_transfer_bytes cfg -> finished x = true).
Proof.
  intros Hcfg. destruct (config_relay cfg Hcfg) as [Hc HL]. unfold Relay.exchange, charge at 1. rewrite Z.add_0_l.
  destruct (_ || _) eqn:E.
  { exists (mkExchanged "" "" (reply_status TransferLimit) false), "". split_and!; try done; cbn [to_client to_origin slen]; try lia; eauto. }
  apply orb_false_iff in E as [_ E%Z.ltb_ge].
  destruct (origin_breaks head) eqn:Eb.
  { exists (mkExchanged head "" (Some 502) false), "". split_and!; cbn [to_client to_origin slen]; try done; try lia; eauto.
    - right. by rewrite sapp_empty.
    - intros H. by rewrite H in Eb. }
  destruct (copy_exact_spec (max_transfer_bytes cfg) (Z.to_nat (relay_chunk_bytes cfg)) (fun s => origin_breaks (head +:+ s)) Hc n n
    (mkCopy "" (Z.of_nat (slen head)) client None) (le_n _) eq_refl) as (c' & s & -> & [Hs Hu Hb Hl Hm] & H3 & H4 & H5).
  cbn [mbind option_bind]. cbn [sent used left] in *. rewrite sapp_nil in Hs. specialize (Hm E).
  destruct (failed c') as [f|] eqn:Ef.
  { exists (mkExchanged (head +:+ s) "" None false), s. rewrite Hs. split_and!; cbn [to_client to_origin slen]; try done; eauto.
    - rewrite slen_app. lia.
    - intros Hnb _ Hn _ Hlim. specialize (H5 ltac:(auto) Hn ltac:(lia)). done. }
  destruct (copy_until_eof_spec (max_transfer_bytes cfg) (Z.to_nat (relay_chunk_bytes cfg)) client_breaks Hc (S (slen (bytes origin)))
    (mkCopy "" (used c') origin None) (Nat.lt_succ_diag_r _) eq_refl) as (a & t & -> & [Ht Hv Hd Hr Hz] & G3 & G4).
  cbn [mbind option_bind]. cbn [sent used left] in *. rewrite sapp_nil in Ht. specialize (Hz Hm). specialize (H4 eq_refl).
  eexists _, s. split; [reflexivity|]. cbn [to_origin to_client own_reply finished]. rewrite Hs, Ht.
  split_and!; try done; eauto; [rewrite slen_app; lia| |].
  - destruct (failed a); [done|]. intros _. destruct (G3 eq_refl) as [-> ?]. done.
  - intros _ Hnb _ Hcm Hlim. rewrite G4; [done|done|done|]. rewrite Hu. lia.
Qed.
End Exchange.

Lemma forwarded_exchange_exact_witness :
  config_ok DEFAULT_CONFIG = true /\
  exists x, exchange (max_transfer_bytes DEFAULT_CONFIG) (Z.to_nat (relay_chunk_bytes DEFAULT_CONFIG)) (fun _ => false) (fun _ => false)
    demo_head 3 [Data "a" "b"; Data "c" "GET / HTTP/1.1"] [Data "H" "TTP/1.1 200"; Eof] = Some x /\
    finished x = true /\ to_client x = "HTTP/1.1 200".
Proof.
  split; [reflexivity|].
  destruct (forwarded_exchange_exact DEFAULT_CONFIG (fun _ => false) (fun _ => false) demo_head 3
    [Data "a" "b"; Data "c" "GET / HTTP/1.1"] [Data "H" "TTP/1.1 200"; Eof] ltac:(reflexivity))
    as (x & body & H1 & _ & _ & _ & _ & _ & _ & _ & H8 & H9).
  exists x. split; [exact H1|]. assert (HF : finished x = true).
  { apply H9; [reflexivity|reflexivity|vm_compute; lia|reflexivity|]. vm_compute. discriminate. }
  split; [exact HF|]. by destruct (H8 HF) as (_ & _ & -> & _).
Defined.

(** ** Tunnels *)

(** A direction has sent a prefix of what arrived; all of it when it is half-closed. *)
Record way_ok (evs : list event) (w : way) : Prop := mkWayOk {
  wo_prefix : exists t, bytes evs = w_sent w +:+ t;
  wo_left : is_failed w = false -> bytes evs = w_sent w +:+ bytes (w_left w) /\ complete evs = complete (w_left w);
  wo_closed : w_phase w = HalfClosed -> bytes evs = w_sent w /\ complete evs = true
}.

(** What is left to read, counting the end of the stream. *)
Definition rank (w : way) : nat := if is_running w then S (slen (bytes (w_left w))) else O.

Section TunnelLemmas.
Context (limit : Z) (chunk : nat) (breaks : string -> bool).
Hypothesis Hchunk : (1 <= chunk)%nat.

Lemma relay_ok evs w u w' u' : way_ok evs w -> is_running w = true -> relay limit chunk breaks w u = (w', u') ->
  way_ok evs w' /\ u' - u = Z.of_nat (slen (w_sent w')) - Z.of_nat (slen (w_sent w)) /\ (u <= limit -> u' <= limit).
Proof.
  intros [Hp Hl _] Hr. assert (HF : is_failed w = false) by (by unfold is_running, is_failed in *; destruct (w_phase w)).
  destruct (Hl HF) as [HB HC]. unfold relay. pose proof (read_spec chunk (w_left w) Hchunk) as HR.
  destruct (read chunk (w_left w)) as [[s| | |] r].
  - destruct HR as (_ & _ & Hb & Hc). unfold put, charge. cbn [used sent].
    destruct (_ || _) eqn:E; cbn [sent used left failed]; intros [= <- <-]; cbn [w_sent].
    + split; [|lia]. by split.
    + apply orb_false_iff in E as [_ E%Z.ltb_ge]. rewrite slen_app. split; [|lia]. rewrite Hb, <- sapp_assoc in HB. rewrite Hc in HC. split; cbn [w_sent w_left w_phase].
      * exists (bytes r). exact HB.
      * done.
      * by destruct (breaks _).
  - destruct HR as (-> & Hb & Hc). intros [= <- <-]. cbn [w_sent]. split; [|lia]. rewrite Hb, sapp_empty in HB. split; cbn [w_sent w_left w_phase].
    + exists "". by rewrite sapp_empty.
    + by rewrite Hb, sapp_empty.
    + intros _. by rewrite HC.
  - intros [= <- <-]. cbn [w_sent]. split; [|lia]. by split.
  - intros [= <- <-]. cbn [w_sent]. split; [|lia]. by split.
Qed.

(** With a budget that is enough, a direction whose stream ends makes progress. *)
Lemma relay_progress w u w' u' : (forall s, breaks s = false) -> is_running w = true -> complete (w_left w) = true ->
  u + Z.of_nat (slen (bytes (w_left w))) <= limit -> relay limit chunk breaks w u = (w', u') ->
  is_failed w' = false /\ (rank w' < rank w)%nat /\ complete (w_left w') = true /\
  u' + Z.of_nat (slen (bytes (w_left w'))) = u + Z.of_nat (slen (bytes (w_left w))).
Proof.
  intros Hnb Hr Hcm Hlim. unfold relay, rank. rewrite Hr. pose proof (read_spec chunk (w_left w) Hchunk) as HR.
  destruct (read chunk (w_left w)) as [[s| | |] r].
  - destruct HR as (Hne%slen_pos & _ & Hb & Hc). rewrite Hb, slen_app in *. unfold put, charge. cbn [used sent].
    destruct (_ || _) eqn:E; [apply orb_true_iff in E as [E|E]; apply Z.ltb_lt in E; lia|]. rewrite Hnb. cbn [sent used left failed].
    intros [= <- <-]. cbn. rewrite Hc in Hcm. split_and!; [done|lia|done|lia].
  - destruct HR as (-> & Hb & Hc). intros [= <- <-]. cbn. split_and!; [done|lia|done|lia].
  - destruct HR as (_ & _ & Hc). by rewrite Hc in Hcm.
  - destruct HR as (_ & _ & Hc). by rewrite Hc in Hcm.
Qed.
End TunnelLemmas.

Record tunnel_ok (limit : Z) (client server : list event) (t : tunnel) : Prop := mkTunnelOk {
  to_up : way_ok client (upward t);
  to_down : way_ok server (downward t);
  to_used : t_used t = Z.of_nat (slen (w_sent (upward t)) + slen (w_sent (downward t)));
  to_limit : t_used t <= limit
}.

Lemma step_ok limit chunk ub db client server b t : (1 <= chunk)%nat ->
  tunnel_ok limit client server t -> tunnel_ok limit client server (step limit chunk ub db b t).
Proof.
  intros Hc [Hu Hd Hs Hl]. unfold step. destruct (over t); [done|].
  destruct b; (destruct (is_running _) eqn:Er; [|done]).
  - destruct (relay limit chunk ub (upward t) (t_used t)) as [w u] eqn:E. destruct (relay_ok _ _ _ Hc _ _ _ _ _ Hu Er E) as (H1 & H2 & H3).
    split; cbn [upward downward t_used]; auto. lia.
  - destruct (relay limit chunk db (downward t) (t_used t)) as [w u] eqn:E. destruct (relay_ok _ _ _ Hc _ _ _ _ _ Hd Er E) as (H1 & H2 & H3).
    split; cbn [upward downward t_used]; auto. lia.
Qed.

Lemma run_ok limit chunk ub db client server schedule : (1 <= chunk)%nat -> forall t,
  tunnel_ok limit client server t -> tunnel_ok limit client server (run limit chunk ub db schedule t).
Proof. intros Hc. induction schedule as [|b l IH]; intros t Ht; [done|]. apply IH. by apply step_ok. Qed.

Lemma start_ok limit client server : 0 <= limit -> tunnel_ok limit client server (tunnel_start client server).
Proof. intros H. split; cbn; try done; (split; cbn; [eauto|by rewrite sapp_nil|done]). Qed.

(** A tunnel that cannot fail: both streams end and the budget is enough. *)
Record healthy (limit : Z) (t : tunnel) : Prop := mkHealthy {
  h_up : is_failed (upward t) = false /\ complete (w_left (upward t)) = true;
  h_down : is_failed (downward t) = false /\ complete (w_left (downward t)) = true;
  h_budget : t_used t + Z.of_nat (slen (bytes (w_left (upward t)))) + Z.of_nat (slen (bytes (w_left (downward t)))) <= limit
}.

Lemma step_healthy limit chunk ub db b t : (1 <= chunk)%nat -> (forall s, ub s = false) -> (forall s, db s = false) -> healthy limit t ->
  healthy limit (step limit chunk ub db b t) /\
  (rank (upward (step limit chunk ub db b t)) <= rank (upward t) - (if b then 1 else 0))%nat /\
  (rank (downward (step limit chunk ub db b t)) <= rank (downward t) - (if b then 0 else 1))%nat.
Proof.
  intros Hc Hub Hdb HH. pose proof HH as [[U1 U2] [D1 D2] HB]. unfold step.
  assert (HR : forall w, is_running w = false -> rank w = O) by (by unfold rank; intros w ->).
  destruct (over t) eqn:Eo.
  { split; [done|]. unfold over in Eo. rewrite U1, D1 in Eo. cbn in Eo. apply andb_true_iff in Eo as [E1%negb_true_iff E2%negb_true_iff].
    rewrite (HR _ E1), (HR _ E2). by destruct b. }
  destruct b; cbv iota; (destruct (is_running _) eqn:Er; [|split; [done|]; rewrite (HR _ Er); lia]).
  - destruct (relay limit chunk ub (upward t) (t_used t)) as [w u] eqn:E.
    destruct (relay_progress limit chunk ub Hc (upward t) (t_used t) w u Hub Er U2 ltac:(lia) E) as (H1 & H2 & H3 & H4).
    split; [split; cbn [upward downward t_used]; auto; lia|]. cbn [upward downward]. lia.
  - destruct (relay limit chunk db (downward t) (t_used t)) as [w u] eqn:E.
    destruct (relay_progress limit chunk db Hc (downward t) (t_used t) w u Hdb Er D2 ltac:(lia) E) as (H1 & H2 & H3 & H4).
    split; [split; cbn [upward downward t_used]; auto; lia|]. cbn [upward downward]. lia.
Qed.

Definition turns (b : bool) (schedule : list bool) : nat := length (List.filter (Bool.eqb b) schedule).

Lemma run_healthy limit chunk ub db schedule : (1 <= chunk)%nat -> (forall s, ub s = false) -> (forall s, db s = false) -> forall t,
  healthy limit t -> let t' := run limit chunk ub db schedule t in
  healthy limit t' /\ (rank (upward t') <= rank (upward t) - turns true schedule)%nat /\
  (rank (downward t') <= rank (downward t) - turns false schedule)%nat.
Proof.
  intros Hc Hub Hdb. induction schedule as [|b l IH]; intros t Ht; [cbn; split_and!; [done|lia|lia]|].
  destruct (step_healthy limit chunk ub db b t Hc Hub Hdb Ht) as (H1 & H2 & H3).
  destruct (IH _ H1) as (G1 & G2 & G3). split; [exact G1|]. cbn zeta in G2, G3. unfold run in *. cbn [foldl]. unfold turns in *.
  destruct b; cbn [List.filter Bool.eqb length]; split; lia.
Qed.

Lemma rank_zero evs w : way_ok evs w -> is_failed w = false -> rank w = O -> w_phase w = HalfClosed /\ w_sent w = bytes evs.
Proof.
  intros [_ _ Hc] Hf Hr. unfold rank, is_running, is_failed in *. destruct (w_phase w) eqn:E; [done| |done]. split; [done|]. by destruct (Hc eq_refl).
Qed.

Section TunnelTheorems.
Context (cfg : ProxyConfig) (up_breaks down_breaks : string -> bool) (client server : list event) (schedule : list bool).
Notation tunnelled := (run (max_transfer_bytes cfg) (Z.to_nat (relay_chunk_bytes cfg)) up_breaks down_breaks schedule (tunnel_start client server)).

(** C39.  A tunnel is transparent and bounded: under every schedule of its two tasks,
    each side has received a prefix of what the other sent, in order; all of it, to
    the end of the stream, once that direction is half-closed; and both directions
    together stay within the one budget they share.  When both streams end, the budget
    covers them and no socket fails, every schedule that gives each task a turn per
    byte and one for the end of its stream delivers everything both ways. *)
Theorem tunnel_transparent_bounded : config_ok cfg = true ->
  let t := tunnelled in
  (exists s, bytes client = w_sent (upward t) +:+ s) /\ (exists s, bytes server = w_sent (downward t) +:+ s) /\
  (w_phase (upward t) = HalfClosed -> w_sent (upward t) = bytes client /\ complete client = true) /\
  (w_phase (downward t) = HalfClosed -> w_sent (downward t) = bytes server /\ complete server = true) /\
  t_used t = Z.of_nat (slen (w_sent (upward t)) + slen (w_sent (downward t))) /\ t_used t <= max_transfer_bytes cfg /\
  ((forall s, up_breaks s = false) -> (forall s, down_breaks s = false) -> complete client = true -> complete server = true ->
   Z.of_nat (slen (bytes client) + slen (bytes server)) <= max_transfer_bytes cfg ->
   (slen (bytes client) < turns true schedule)%nat -> (slen (bytes server) < turns false schedule)%nat ->
   w_sent (upward t) = bytes client /\ w_sent (downward t) = bytes server /\ over t = true).
Proof.
  intros Hcfg. destruct (config_relay cfg Hcfg) as [Hc HL]. cbn zeta.
  destruct (run_ok (max_transfer_bytes cfg) _ up_breaks down_breaks client server schedule Hc _ (start_ok (max_transfer_bytes cfg) client server ltac:(lia)))
    as [Hu Hd Hs Hl].
  split_and!; [apply Hu|apply Hd|intros H; by destruct (wo_closed _ _ Hu H)|intros H; by destruct (wo_closed _ _ Hd H)|done|done|].
  intros Hub Hdb Hcc Hcs Hlim Htu Htd.
  destruct (run_healthy (max_transfer_bytes cfg) _ up_breaks down_breaks schedule Hc Hub Hdb (tunnel_start client server)) as ([[U1 _] [D1 _] _] & HR1 & HR2).
  { split; cbn; try done. lia. }
  cbn [tunnel_start upward downward] in HR1, HR2. unfold rank at 2 in HR1. unfold rank at 2 in HR2. cbn [is_running w_phase w_left] in HR1, HR2.
  destruct (rank_zero _ _ Hu U1 ltac:(lia)) as [P1 S1]. destruct (rank_zero _ _ Hd D1 ltac:(lia)) as [P2 S2].
  split_and!; [done|done|]. unfold over, is_running. rewrite P1, P2, U1, D1. done.
Qed.
End TunnelTheorems.

Lemma tunnel_transparent_bounded_witness :
  let t := run (max_transfer_bytes DEFAULT_CONFIG) (Z.to_nat (relay_chunk_bytes DEFAULT_CONFIG)) (fun _ => false) (fun _ => false)
    [true; false; false; true; false; true; false] (tunnel_start [Data "h" "i"; Eof] [Data "o" "k"; Data "!" ""; Eof]) in
  w_sent (upward t) = "hi" /\ w_sent (downward t) = "ok!".
Proof.
  cbn zeta.
  destruct (tunnel_transparent_bounded DEFAULT_CONFIG (fun _ => false) (fun _ => false) [Data "h" "i"; Eof] [Data "o" "k"; Data "!" ""; Eof]
    [true; false; false; true; false; true; false] ltac:(reflexivity)) as (_ & _ & _ & _ & _ & _ & H).
  destruct H as (H1 & H2 & _); [reflexivity|reflexivity|reflexivity|reflexivity|vm_compute; discriminate|vm_compute; lia|vm_compute; lia|].
  split; [rewrite H1|rewrite H2]; reflexivity.
Defined.

(** ** Clients *)

Lemma remove_one_length c l r : remove_one c l = Some r -> length l = S (length r).
Proof.
  revert r; induction l as [|d l IH]; intros r; cbn; [done|]. destruct (Nat.eqb c d); [by intros [= <-]|].
  destruct (remove_one c l) as [r'|]; [|done]. intros [= <-]. cbn. by rewrite (IH r').
Qed.

(** [_active] counts the clients that are served, never more than [max_connections]. *)
Lemma active_bounded max es : 0 <= max -> let l := foldl (handle_client max) (mkListener 0 [] []) es in
  active l = Z.of_nat (length (serving l)) /\ 0 <= active l <= max.
Proof.
  intros Hm. cbn zeta. assert (HI : forall l, active l = Z.of_nat (length (serving l)) /\ 0 <= active l <= max ->
    let l' := foldl (handle_client max) l es in active l' = Z.of_nat (length (serving l')) /\ 0 <= active l' <= max); [|by apply HI; cbn; lia].
  induction es as [|e es IH]; intros l Hl; [done|]. cbn [foldl]. apply IH. unfold handle_client. destruct e as [c|c].
  - destruct (Z.leb_spec max (active l)); cbn; [lia|]. lia.
  - destruct (remove_one c (serving l)) eqn:E; [|done]. apply remove_one_length in E. cbn. lia.
Qed.
