(* ===== verification/Sitemap.v ===== *)
(** * Sitemaps ([src/agent-svc/agent/sitemap_parser.py])

    [SitemapParser.get_urls] and [parse_sitemap_url].  A response is modelled after
    decompression, decoding and XML parsing: what kind of content it had, with its
    element tree.  The network is an argument.  A URL that [urlparse] rejects raises
    [ValueError] through the whole call ([Raise]).  The set [seen] holds both the
    sitemaps fetched and the pages returned; the sitemaps requested are logged in
    the order of the requests.

    The recursion is on the depth that is left, which is the code's own bound.  The
    theorems: the result has no duplicates and respects the limit, a sitemap is
    fetched at most once and never below the depth bound, and every page the fetched
    sitemaps list is returned. *)

From S2P Require Import Prelude Strings Url.

Inductive element := Element (tag : string) (text : option string) (children : list element).

Definition e_tag (e : element) := let 'Element t _ _ := e in t.
Definition e_text (e : element) := let 'Element _ t _ := e in t.
Definition e_children (e : element) := let 'Element _ _ c := e in c.

Inductive response :=
| RequestError
| Status (code : Z)                        (* any status but 200 *)
| NoContent                                (* empty, or it could not be decoded *)
| NotXml                                   (* does not start with '<' *)
| Malformed
| Document (root : element).

(** [_local_tag]. *)
Definition local_tag (e : element) : string :=
  match partition "}" (e_tag e) with (_, true, rest) => rest | (t, false, _) => t end.

(** [s.startswith(("http://", "https://"))]. *)
Definition is_http (url : string) : bool := starts_with "http://" url || starts_with "https://" url.

(** [_normalize_sitemap_url]. *)
Definition normalize_sitemap_url (url : string) : outcome (option string) unit :=
  if is_http url then
    match urlparse url with
    | Some r => Ok (Some (urlunparse (mkParse (scheme r) (netloc r) (path r) (params r) (query r) "")))
    | None => Raise tt
    end
  else Ok None.

(** The texts of the [<loc>] elements two levels below the root. *)
Definition locs (root : element) : list string :=
  e_children root ≫= (fun entry => omap (fun child =>
    if String.eqb (local_tag child) "loc" then
      match e_text child with Some t => if is_empty t then None else Some (strip t) | None => None end
    else None) (e_children entry)).

(** [_parse_urlset]. *)
Definition parse_urlset (root : element) : list string := List.filter is_http (locs root).

Record state := mkState { seen : list string; fetched : list string }.

Section Parser.
Context (get : string -> response).

(** [_parse_sitemap_index] over the children, with the call for one child. *)
Fixpoint parse_children (parse : string -> state -> outcome (list string * state) unit) (children : list string) (s : state)
  : outcome (list string * state) unit :=
  match children with
  | [] => Ok ([], s)
  | child :: children =>
      match parse child s with
      | Raise e => Raise e
      | Ok (urls, s) => match parse_children parse children s with
                        | Raise e => Raise e
                        | Ok (rest, s) => Ok (urls ++ rest, s)
                        end
      end
  end.

(** [_parse_sitemap] and [_parse_xml_content] at [depth = max_depth + 1 - togo]. *)
Fixpoint parse_sitemap (togo : nat) (sitemap_url : string) (s : state) : outcome (list string * state) unit :=
  match togo with
  | O => Ok ([], s)
  | S togo =>
      match normalize_sitemap_url sitemap_url with
      | Raise e => Raise e
      | Ok normalized =>
          if match normalized with Some n => mem n (seen s) | None => false end then Ok ([], s)
          else
            let s := mkState (match normalized with Some n => n :: seen s | None => seen s end) (fetched s ++ [sitemap_url]) in
            match get sitemap_url with
            | Document root =>
                if String.eqb (local_tag root) "sitemapindex" then parse_children (parse_sitemap togo) (locs root) s
                else if String.eqb (local_tag root) "urlset" then Ok (parse_urlset root, s)
                else Ok ([], s)
            | _ => Ok ([], s)
            end
      end
  end.

(** [limit or float("inf")]: a limit of zero is none. *)
Definition full (limit : option Z) (all_urls : list string) : bool :=
  match limit with None => false | Some l => if l =? 0 then false else l <=? Z.of_nat (length all_urls) end.

(** [for url in parsed]. *)
Fixpoint add_urls (limit : option Z) (parsed : list string) (all_urls : list string) (s : state) : outcome (list string * state) unit :=
  match parsed with
  | [] => Ok (all_urls, s)
  | url :: parsed =>
      if full limit all_urls then Ok (all_urls, s)
      else match normalize_sitemap_url url with
      | Raise e => Raise e
      | Ok (Some n) => if mem n (seen s) then add_urls limit parsed all_urls s
                       else add_urls limit parsed (all_urls ++ [n]) (mkState (n :: seen s) (fetched s))
      | Ok None => add_urls limit parsed all_urls s
      end
  end.

Context (max_depth : nat).

(** [for sitemap_url in sitemap_urls]. *)
Fixpoint collect (limit : option Z) (sitemap_urls : list string) (all_urls : list string) (s : state) : outcome (list string * state) unit :=
  match sitemap_urls with
  | [] => Ok (all_urls, s)
  | sitemap_url :: sitemap_urls =>
      if full limit all_urls then Ok (all_urls, s)
      else match parse_sitemap (S max_depth) sitemap_url s with
      | Raise e => Raise e
      | Ok (parsed, s) => match add_urls limit parsed all_urls s with
                          | Raise e => Raise e
                          | Ok (all_urls, s) => collect limit sitemap_urls all_urls s
                          end
      end
  end.

(** [_discover_sitemap_urls] on the lines of the decoded robots.txt. *)
Definition directives (lines : list string) : list string :=
  omap (fun line => if starts_with "sitemap:" (lower line) then Some (strip (snd (partition ":" line))) else None) lines.

(** [_try_common_paths]: the status and the content type of each path. *)
Definition xml_like (content_type path : string) : bool :=
  let ct := lower content_type in
  substring_of "xml" ct || substring_of "text" ct || substring_of "gzip" ct || substring_of "octet-stream" ct
  || ends_with ".gz" path || is_empty ct.

Definition try_common_paths (domain : string) (head : string -> option (Z * string)) (paths : list string) : list string :=
  omap (fun path => let url := "https://" +:+ domain +:+ path in
    match head url with
    | Some (code, content_type) => if (code =? 200) && xml_like content_type path then Some url else None
    | None => None
    end) paths.

(** The sitemaps [get_urls] starts from: the directives, or the common paths. *)
Definition roots_of (domain : string) (robots : option (list string)) (head : string -> option (Z * string)) (paths : list string)
  : list string :=
  let discovered := match robots with Some lines => directives lines | None => [] end in
  match discovered with [] => try_common_paths domain head paths | _ => discovered end.

(** [get_urls]. *)
Definition get_urls (domain : string) (robots : option (list string)) (head : string -> option (Z * string))
  (paths : list string) (limit : option Z) : outcome (list string * state) unit :=
  collect limit (roots_of domain robots head paths) [] (mkState [] []).

(** [parse_sitemap_url]. *)
Fixpoint unique_normalized (urls : list string) (result : list string) : outcome (list string) unit :=
  match urls with
  | [] => Ok result
  | url :: urls => match normalize_sitemap_url url with
                   | Raise e => Raise e
                   | Ok (Some n) => unique_normalized urls (if mem n result then result else result ++ [n])
                   | Ok None => unique_normalized urls result
                   end
  end.

Definition parse_sitemap_url (sitemap_url : string) : outcome (list string) unit :=
  match parse_sitemap (S max_depth) sitemap_url (mkState [] []) with
  | Raise e => Raise e
  | Ok (urls, _) => unique_normalized urls []
  end.

End Parser.

(** ** Facts *)

Section Facts.
Context (get : string -> response).

Definition norms (l : list string) : list string :=
  omap (fun u => match normalize_sitemap_url u with Ok o => o | Raise _ => None end) l.

(** [pages]: the page URLs the sitemap at a URL lists itself. *)
Definition pages (url : string) : list string :=
  match get url with
  | Document root => if String.eqb (local_tag root) "urlset" then parse_urlset root else []
  | _ => []
  end.

(** The sitemaps a sitemap refers to. *)
Definition children (url : string) : list string :=
  match get url with
  | Document root => if String.eqb (local_tag root) "sitemapindex" then locs root else []
  | _ => []
  end.

(** A chain of at most [n] references from [u] to [v]. *)
Inductive within : nat -> string -> string -> Prop :=
| w_here n u : within n u u
| w_child n u v x : v ∈ children u -> within n v x -> within (S n) u x.

(** A call adds the sitemaps it fetched to the log and their names to [seen]. *)
Record parsed_ok (togo : nat) (root : string) (s : state) (urls : list string) (s' : state) (new : list string) : Prop := mkParsed {
  p_log : fetched s' = fetched s ++ new;
  p_seen : forall n, n ∈ seen s' <-> n ∈ norms new \/ n ∈ seen s;
  p_once : NoDup (norms new) /\ forall n, n ∈ norms new -> n ∉ seen s;
  p_depth : forall u, u ∈ new -> within (pred togo) root u;
  p_urls : forall u, u ∈ urls <-> exists m, m ∈ new /\ u ∈ pages m
}.

Lemma norms_app l1 l2 : norms (l1 ++ l2) = norms l1 ++ norms l2.
Proof. apply omap_app. Qed.

Lemma within_mono n m u v : (n <= m)%nat -> within n u v -> within m u v.
Proof. intros Hle HW. revert m Hle. induction HW; intros m Hle; [constructor|]. destruct m; [lia|]. econstructor; [done|]. apply IHHW. lia. Qed.

(** The children of an index, given what a call does. *)
Lemma children_ok parse togo root kids s urls s' :
  (forall u s urls s', parse u s = Ok (urls, s') -> exists new, parsed_ok (S togo) u s urls s' new) ->
  (forall k, k ∈ kids -> k ∈ children root) ->
  parse_children parse kids s = Ok (urls, s') -> exists new, parsed_ok (S (S togo)) root s urls s' new.
Proof.
  intros HP. revert s urls s'. induction kids as [|k kids IH]; intros s urls s' HK; cbn.
  { intros [= <- <-]. exists []. split; cbn; try (by rewrite ?app_nil_r); try set_solver. split; [constructor|set_solver]. }
  destruct (parse k s) as [[u1 s1]|] eqn:E1; [|done]. destruct (parse_children parse kids s1) as [[u2 s2]|] eqn:E2; [|done].
  intros [= <- <-]. destruct (HP _ _ _ _ E1) as [n1 []]. destruct (IH _ _ _ ltac:(set_solver) E2) as [n2 []].
  exists (n1 ++ n2). split.
  - by rewrite p_log1, p_log0, app_assoc.
  - intros n. rewrite p_seen1, p_seen0, norms_app, elem_of_app. tauto.
  - rewrite norms_app. destruct p_once0 as [O1 O2], p_once1 as [O3 O4]. split.
    + apply NoDup_app. split_and!; [done| |done]. intros n Hn Hn2. apply (O4 n Hn2). apply p_seen0. by left.
    + intros n [Hn|Hn]%elem_of_app; [auto|]. intros Hs. apply (O4 n Hn), p_seen0. by right.
  - intros u [Hu|Hu]%elem_of_app; [|by apply p_depth1]. cbn. apply (w_child _ _ k); [apply HK; by left|]. by apply p_depth0.
  - intros u. rewrite elem_of_app, p_urls0, p_urls1. setoid_rewrite elem_of_app. naive_solver.
Qed.

Lemma parse_ok togo root s urls s' : parse_sitemap get togo root s = Ok (urls, s') -> exists new, parsed_ok togo root s urls s' new.
Proof.
  revert root s urls s'. induction togo as [|togo IH]; intros root s urls s'; cbn.
  { intros [= <- <-]. exists []. split; cbn; try (by rewrite ?app_nil_r); try set_solver. split; [constructor|set_solver]. }
  destruct (normalize_sitemap_url root) as [normalized|] eqn:En; [|done].
  destruct (match normalized with Some n => mem n (seen s) | None => false end) eqn:Em.
  { intros [= <- <-]. exists []. split; cbn; try (by rewrite ?app_nil_r); try set_solver. split; [constructor|set_solver]. }
  assert (HN : norms [root] = match normalized with Some n => [n] | None => [] end).
  { unfold norms. cbn. rewrite En. by destruct normalized. }
  set (s1 := mkState _ _).
  assert (H1 : fetched s1 = fetched s ++ [root] /\ (forall n, n ∈ seen s1 <-> n ∈ norms [root] \/ n ∈ seen s) /\
               NoDup (norms [root]) /\ (forall n, n ∈ norms [root] -> n ∉ seen s)).
  { rewrite HN. unfold s1. cbn. destruct normalized as [n|]; split_and!; try done; try set_solver.
    - apply NoDup_singleton.
    - intros m ->%list_elem_of_singleton Hin. apply mem_elem in Hin. congruence.
    - constructor. }
  destruct H1 as (L1 & L2 & L3 & L4).
  assert (HB : forall l, pages root = l -> exists new, parsed_ok (S togo) root s l s1 new).
  { intros l <-. exists [root]. split; [done|done|done| |].
    - intros u ->%list_elem_of_singleton. constructor.
    - intros u. split; [intros; exists root; split; [by left|done]|]. by intros (m & ->%list_elem_of_singleton & ?). }
  unfold pages in HB. destruct (get root) as [| | | | |doc] eqn:Eg; [intros [= <- <-]; by apply HB..|].
  destruct (String.eqb (local_tag doc) "sitemapindex") eqn:Ei.
  - intros HC. destruct togo as [|togo].
    + assert (HZ : forall kids t, parse_children (parse_sitemap get 0) kids t = Ok ([], t)).
      { induction kids as [|k kids IHk]; intros t; cbn; [done|]. by rewrite IHk. }
      rewrite HZ in HC. injection HC as <- <-. apply HB. apply String.eqb_eq in Ei. by rewrite Ei.
    + destruct (children_ok (parse_sitemap get (S togo)) togo root (locs doc) s1 urls s' IH) as [new []]; [|done|].
      { intros k Hk. unfold children. by rewrite Eg, Ei. }
      exists (root :: new). destruct p_once0 as [O1 O2]. change (root :: new) with ([root] ++ new). split.
      * by rewrite p_log0, L1, <- app_assoc.
      * intros n. rewrite p_seen0, L2, norms_app, elem_of_app. tauto.
      * rewrite norms_app. split.
        -- apply NoDup_app. split_and!; [done| |done]. intros n Hn Hn2. apply (O2 n Hn2), L2. by left.
        -- intros n [Hn|Hn]%elem_of_app; [auto|]. intros Hs. apply (O2 n Hn), L2. by right.
      * intros u [->|Hu]%elem_of_cons; [constructor|]. by apply p_depth0.
      * intros u. rewrite p_urls0. split; [intros (m & ? & ?); exists m; split; [by right|done]|].
        intros (m & [->|?]%elem_of_cons & Hu); [|eauto]. exfalso. revert Hu. unfold pages. rewrite Eg.
        apply String.eqb_eq in Ei. rewrite Ei. cbn. apply not_elem_of_nil.
  - destruct (String.eqb (local_tag doc) "urlset"); intros [= <- <-]; by apply HB.
Qed.

Definition unlimited (limit : option Z) : Prop := match limit with None => True | Some l => l = 0 end.
Definition within_limit (limit : option Z) (l : list string) : Prop :=
  match limit with Some n => 0 < n -> Z.of_nat (length l) <= n | None => True end.

Lemma add_urls_ok limit parsed all s all' s' : add_urls limit parsed all s = Ok (all', s') ->
  exists new, all' = all ++ new /\ fetched s' = fetched s /\ NoDup new /\ (forall n, n ∈ new -> n ∉ seen s) /\
    (forall n, n ∈ seen s' <-> n ∈ new \/ n ∈ seen s) /\
    (forall n, n ∈ new -> exists u, u ∈ parsed /\ normalize_sitemap_url u = Ok (Some n)) /\
    (unlimited limit -> forall u n, u ∈ parsed -> normalize_sitemap_url u = Ok (Some n) -> n ∈ seen s') /\
    (within_limit limit all -> within_limit limit all').
Proof.
  revert all s. induction parsed as [|u parsed IH]; intros all s; cbn.
  { intros [= <- <-]. exists []. rewrite app_nil_r. split_and!; try done; try set_solver. constructor. }
  destruct (full limit all) eqn:Ef.
  { intros [= <- <-]. exists []. rewrite app_nil_r. split_and!; try done; try set_solver; [constructor|].
    intros Hu. unfold full, unlimited in *. destruct limit as [l|]; [|done]. by rewrite Hu in Ef. }
  destruct (normalize_sitemap_url u) as [[n|]|] eqn:En; [| |done].
  - destruct (mem n (seen s)) eqn:Em.
    + apply mem_elem in Em. intros HA. destruct (IH _ _ HA) as (new & H1 & H2 & H3 & H4 & H5 & H6 & H7 & H8).
      exists new. split_and!; try done.
      * intros m Hm. destruct (H6 m Hm) as (x & Hx & ?). exists x. split; [by right|done].
      * intros Hu x m [->|Hx]%elem_of_cons Hn; [|by eapply H7]. assert (m = n) as -> by congruence. apply H5. by right.
    + assert (Hn : n ∉ seen s) by (rewrite <- mem_elem, Em; done).
      intros HA. destruct (IH _ _ HA) as (new & H1 & H2 & H3 & H4 & H5 & H6 & H7 & H8). cbn in *.
      exists (n :: new). split_and!.
      * by rewrite H1, <- app_assoc.
      * done.
      * constructor; [|done]. intros Hin. apply (H4 n Hin). by left.
      * intros m [->|Hm]%elem_of_cons; [done|]. specialize (H4 m Hm). set_solver.
      * intros m. rewrite H5. set_solver.
      * intros m [->|Hm]%elem_of_cons; [exists u; split; [by left|done]|]. destruct (H6 m Hm) as (x & Hx & ?). exists x. split; [by right|done].
      * intros Hu x m [->|Hx]%elem_of_cons Hxn; [|by eapply H7]. assert (m = n) as -> by congruence. apply H5. right. by left.
      * intros HL. apply H8. unfold within_limit, full in *. destruct limit as [l|]; [|done]. intros Hpos. rewrite length_app. cbn.
        destruct (Z.eqb_spec l 0); [lia|]. apply Z.leb_gt in Ef. lia.
  - intros HA. destruct (IH _ _ HA) as (new & H1 & H2 & H3 & H4 & H5 & H6 & H7 & H8). exists new. split_and!; try done.
    + intros m Hm. destruct (H6 m Hm) as (x & Hx & ?). exists x. split; [by right|done].
    + intros Hu x m [->|Hx]%elem_of_cons Hn; [congruence|by eapply H7].
Qed.

Context (max_depth : nat).

(** What holds of the URLs and the state while sitemaps are collected. *)
Record Collected (limit : option Z) (roots : list string) (all : list string) (s : state) : Prop := mkCollected {
  k_unique : NoDup all;
  k_once : NoDup (norms (fetched s));
  k_seen : forall n, n ∈ seen s <-> n ∈ norms (fetched s) \/ n ∈ all;
  k_depth : forall u, u ∈ fetched s -> exists r, r ∈ roots /\ within max_depth r u;
  k_limit : within_limit limit all;
  k_from : forall n, n ∈ all -> exists m u, m ∈ fetched s /\ u ∈ pages m /\ normalize_sitemap_url u = Ok (Some n);
  k_all : unlimited limit -> forall m u n, m ∈ fetched s -> u ∈ pages m -> normalize_sitemap_url u = Ok (Some n) -> n ∈ seen s
}.

Lemma collect_step limit roots root all s parsed s1 all' s2 : Collected limit roots all s -> root ∈ roots ->
  parse_sitemap get (S max_depth) root s = Ok (parsed, s1) -> add_urls limit parsed all s1 = Ok (all', s2) ->
  Collected limit roots all' s2.
Proof.
  intros [] Hr HP HA. destruct (parse_ok _ _ _ _ _ HP) as [new []].
  destruct (add_urls_ok _ _ _ _ _ _ HA) as (add & -> & H2 & H3 & H4 & H5 & H6 & H7 & H8). destruct p_once0 as [O1 O2].
  split.
  - apply NoDup_app. split_and!; [done| |done]. intros n Hn Ha. apply (H4 n Ha), p_seen0. right. apply k_seen0. by right.
  - rewrite H2, p_log0, norms_app. apply NoDup_app. split_and!; [done| |done]. intros n Hn Hn2. apply (O2 n Hn2), k_seen0. by left.
  - intros n. rewrite H5, p_seen0, k_seen0, H2, p_log0, norms_app, !elem_of_app. tauto.
  - intros u. rewrite H2, p_log0. intros [Hu|Hu]%elem_of_app; [auto|]. exists root. split; [done|]. by apply p_depth0.
  - by apply H8.
  - intros n [Hn|Hn]%elem_of_app.
    + destruct (k_from0 n Hn) as (m & u & Hm & ?). exists m, u. rewrite H2, p_log0, elem_of_app. auto.
    + destruct (H6 n Hn) as (u & Hu & ?). apply p_urls0 in Hu as (m & Hm & Hp). exists m, u. rewrite H2, p_log0, elem_of_app. auto.
  - intros Hl m u n. rewrite H2, p_log0. intros [Hm|Hm]%elem_of_app Hu Hn.
    + apply H5. right. apply p_seen0. right. by eapply k_all0.
    + eapply H7; [done| |done]. apply p_urls0. eauto.
Qed.

Lemma collect_ok limit roots roots' all s all' s' : Collected limit roots' all s -> (forall r, r ∈ roots -> r ∈ roots') ->
  collect get max_depth limit roots all s = Ok (all', s') -> Collected limit roots' all' s'.
Proof.
  revert all s. induction roots as [|root roots IH]; intros all s HC HR; cbn [collect]; [by intros [= <- <-]|].
  destruct (full limit all); [by intros [= <- <-]|].
  destruct (parse_sitemap get (S max_depth) root s) as [[parsed s1]|] eqn:E1; [|done].
  destruct (add_urls limit parsed all s1) as [[all1 s2]|] eqn:E2; [|done].
  apply IH; [|set_solver]. eapply collect_step; [done| |done|done]. apply HR. by left.
Qed.
End Facts.

(** ** Theorems *)

(**  [get_urls] returns distinct URLs, at most the limit when it is positive, each
    the normal form of a page that a fetched sitemap lists; no sitemap is fetched
    twice, every one fetched is reached from the discovered ones through at most
    [max_depth] index files; and without a limit every page the fetched sitemaps
    list is returned, unless its URL is that of a sitemap. *)
Theorem sitemap_pages_complete get max_depth domain robots head paths limit urls s :
  get_urls get max_depth domain robots head paths limit = Ok (urls, s) ->
  NoDup urls /\ (forall l, limit = Some l -> 0 < l -> Z.of_nat (length urls) <= l) /\
  (forall n, n ∈ urls -> exists m u, m ∈ fetched s /\ u ∈ pages get m /\ normalize_sitemap_url u = Ok (Some n)) /\
  NoDup (norms (fetched s)) /\
  (forall u, u ∈ fetched s -> exists r, r ∈ roots_of domain robots head paths /\ within get max_depth r u) /\
  (unlimited limit -> forall m u n, m ∈ fetched s -> u ∈ pages get m -> normalize_sitemap_url u = Ok (Some n) ->
     n ∈ urls \/ n ∈ norms (fetched s)).
Proof.
  unfold get_urls. intros HC.
  assert (H0 : Collected get max_depth limit (roots_of domain robots head paths) [] (mkState [] [])).
  { split; cbn; try set_solver; try constructor. unfold within_limit. destruct limit; cbn; lia. }
  destruct (collect_ok get max_depth limit _ _ _ _ _ _ H0 ltac:(done) HC) as [K1 K2 K3 K4 K5 K6 K7].
  split_and!; try done.
  - intros l -> Hl. by apply K5.
  - intros Hu m u n Hm Hp Hn. specialize (K7 Hu m u n Hm Hp Hn). apply K3 in K7. tauto.
Qed.

Definition loc (tag url : string) : element := Element tag None [Element "{http://www.sitemaps.org/schemas/sitemap/0.9}loc" (Some url) []].
Definition demo_site (url : string) : response :=
  if String.eqb url "https://e.org/index.xml" then
    Document (Element "{ns}sitemapindex" None [loc "sitemap" "https://e.org/a.xml"; loc "sitemap" "https://e.org/b.xml"; loc "sitemap" "https://e.org/a.xml#again"])
  else if String.eqb url "https://e.org/a.xml" then Document (Element "urlset" None [loc "url" "https://e.org/1"; loc "url" " https://e.org/2#top "])
  else if String.eqb url "https://e.org/b.xml" then Document (Element "urlset" None [loc "url" "https://e.org/2"; loc "url" "ftp://e.org/3"])
  else Status 404.

Lemma sitemap_pages_complete_witness :
  exists s, get_urls demo_site 3 "e.org" (Some ["User-agent: *"; "Sitemap: https://e.org/index.xml"]) (fun _ => None) [] None
    = Ok (["https://e.org/1"; "https://e.org/2"], s) /\ NoDup ["https://e.org/1"; "https://e.org/2"] /\ NoDup (norms (fetched s)).
Proof.
  eexists. split; [vm_compute; reflexivity|].
  pose proof (sitemap_pages_complete demo_site 3 "e.org" (Some ["User-agent: *"; "Sitemap: https://e.org/index.xml"]) (fun _ => None) [] None
    ["https://e.org/1"; "https://e.org/2"] _ ltac:(vm_compute; reflexivity)) as (H1 & _ & _ & H2 & _).
  split; [exact H1|exact H2].
Defined.

(** ** Cases worth knowing *)

(** One [<loc>] that [urlparse] rejects loses every URL of the call. *)
Example malformed_loc_raises :
  get_urls (fun _ => Document (Element "urlset" None [loc "url" "https://e.org/1"; loc "url" "http://[::1/"])) 3 "e.org"
    (Some ["Sitemap: https://e.org/s.xml"]) (fun _ => None) [] None = Raise tt.
Proof. vm_compute. reflexivity. Qed.

(** A limit of zero is no limit. *)
Example zero_limit_is_none :
  exists s, get_urls demo_site 3 "e.org" (Some ["Sitemap: https://e.org/a.xml"]) (fun _ => None) [] (Some 0) = Ok (["https://e.org/1"; "https://e.org/2"], s).
Proof. eexists. vm_compute. reflexivity. Qed.
