(* ===== verification/Barrier.v ===== *)
(** * Barrier refusal ([src/agent-svc/agent/barrier_guard.py])

    The test every consumer of a scraper response applies before it uses the
    text: a response with a warning, or whose quality check found a block page,
    is refused.  [None] stands for the [AttributeError] of a nested value that
    is no dictionary. *)

From S2P Require Import Prelude Strings Json.

(** [any(pattern in msg for pattern in patterns)]. *)
Definition any_in (patterns : list string) (msg : string) : bool :=
  existsb (fun p => substring_of p msg) patterns.

Definition is_obj (j : json) : bool := match j with JObj _ => true | _ => false end.

(** [(j or {}).get(k)], [None] standing for the [AttributeError] of a value that
    is no dictionary. *)
Definition or_get (j : json) (k : string) : option json :=
  let d := jor j (JObj []) in if is_obj d then Some (jget d k) else None.

(** [((result.get("data") or {}).get("quality") or {}).get("checks") or {}], and
    its [block_detected]. *)
Definition block_detected (result : json) : option json :=
  quality ← or_get (jget result "data") "quality";
  checks ← or_get quality "checks";
  or_get checks "block_detected".

Definition block_flagged (result : json) : option bool :=
  (fun b => match b with
            | JStr s => String.eqb s "warn" || String.eqb s "fail"
            | _ => false
            end) <$> block_detected result.

(** [is_barrier_flagged]. *)
Definition is_barrier_flagged (result : json) : option bool :=
  if negb (is_obj result) then Some false
  else if truthy (jget result "warning") then Some true
  else block_flagged result.

(** [is_block_flagged]. *)
Definition is_block_flagged (result : json) : option bool :=
  if negb (is_obj result) then Some false else block_flagged result.

Definition CHALLENGE_CONTENT_MARKERS : list string :=
  ["javascript is disabled"; "please enable javascript"; "enable javascript to continue";
   "javascript is required"; "please turn javascript on"; "a required part of this site could";
   "/_fs-ch-"; "please verify you are"; "verify you are a human"; "checking your browser";
   "attention required"; "cloudflare-ray-id"; "ddos-guard"].

(** [markdown_is_challenge]. *)
Definition markdown_is_challenge (markdown : option string) : bool :=
  match markdown with
  | None => false
  | Some m => if is_empty m then false
              else any_in CHALLENGE_CONTENT_MARKERS (lower (String.substring 0 4000 m))
  end.
