(* ===== verification/Classify.v ===== *)
(** * Barrier classification ([src/scraper-svc/scraper/barrier.py])

    The scraper's own test for challenge pages: [_classify_barrier] looks for the
    signatures of challenge pages in the title, the URL, the text and the HTML of a page,
    and grades what it finds; [_is_bot_challenge] is the test on title and URL that keeps
    a browser waiting.  Confidences are hundredths, for which the code's floats are the
    nearest ones.  One indicator of the code, a variant spelled with a typographic
    apostrophe, lies outside the code points of the model and never occurs in its texts.

    The theorems: the grades and their types; the highest grade is kept for structural
    evidence; a page the browser waits for is classified as a barrier; and what a page
    that passes is free of. *)

From stdpp Require Import sorting.
From S2P Require Import Prelude Strings Url Barrier.

Definition CLOUDFLARE_INDICATORS : list string :=
  ["Just a moment"; "Checking your browser"; "DDoS protection by"; "cf-browser-verification"; "challenge-platform";
   "Verification successful"; "Enable JavaScript and cookies to continue"; "security verification"].

Definition DDOS_GUARD_INDICATORS : list string :=
  ["DDoS-Guard"; "DDOS-GUARD"; "ddos-guard"; "Checking your browser before accessing"; ".well-known/ddos-guard"].

Definition FASTLY_CHALLENGE_INDICATORS : list string :=
  ["javascript is disabled"; "please enable javascript to proceed"; "a required part of this site couldn't load"].

Definition FASTLY_SIGNATURE_PREFIX : string := "/_fs-ch-".

Definition SUBSTACK_REDIRECT_PATTERNS : list string :=
  ["substack.com/session-attribution-frame"; "substack.com/channel-frame"; "substack.com/iframe"; "googletagmanager.com/ns.html"].

(** [any(i.lower() in s.lower() for i in l)]. *)
Definition any_lower (l : list string) (s : string) : bool := existsb (fun i => substring_of (lower i) (lower s)) l.

(** [_is_bot_challenge]. *)
Definition is_bot_challenge (title url : string) : bool :=
  any_lower CLOUDFLARE_INDICATORS title || (substring_of "cf_chl" (lower url) || substring_of "challenge-platform" (lower url))
  || any_lower DDOS_GUARD_INDICATORS title
  || (substring_of "ddos-guard" (lower url) || substring_of "/.well-known/ddos-guard" (lower url))
  || substring_of FASTLY_SIGNATURE_PREFIX (lower url) || any_lower FASTLY_CHALLENGE_INDICATORS title.

(** [_is_substack_redirect]. *)
Definition is_substack_redirect (url : string) : bool := any_in SUBSTACK_REDIRECT_PATTERNS (lower url).

(** [BarrierInfo]. *)
Record BarrierInfo := mkBarrier {
  detected : bool; barrier_type : option string; confidence : Z; detail : string; b_title : string; provider : option string
}.

Definition captcha_providers : list (string * list string) :=
  [("turnstile", ["challenges.cloudflare.com/turnstile"; "cf-turnstile"; "cf-turnstile-response"]);
   ("recaptcha", ["google.com/recaptcha"; "g-recaptcha"; "g-recaptcha-response"]);
   ("hcaptcha", ["hcaptcha.com"; "h-captcha"; "h-captcha-response"])].

Definition generic_widget (html_lower : string) : bool :=
  substring_of "<iframe" html_lower && substring_of "sitekey" html_lower
  && (substring_of "captcha" html_lower || substring_of "challenge" html_lower).

(** [f"fastly-prose:{indicator[:24]}"]. *)
Definition prose_signal (indicator : string) : string := "fastly-prose:" +:+ String.substring 0 24 indicator.

Definition opt_signal (b : bool) (s : string) : list string := if b then [s] else [].

(** The loop over the prose of a Fastly page: each signal once. *)
Definition prose_signals (hit : string -> bool) (signals : list string) : list string :=
  foldl (fun acc i => if hit i && negb (mem (prose_signal i) acc) then acc ++ [prose_signal i] else acc) signals FASTLY_CHALLENGE_INDICATORS.

(** The signals of a page, before the words in its content are considered. *)
Definition collect_signals (title url content : string) (html : string) : list string :=
  let content_lower := lower content in
  let title_lower := lower title in
  let url_lower := lower url in
  let html_lower := lower html in
  let signals := opt_signal (Nat.ltb (slen content) 100) "empty" in
  let signals := signals ++ opt_signal (any_lower CLOUDFLARE_INDICATORS title) "cloudflare-title" in
  let signals := signals ++ opt_signal ((substring_of "attention required" title_lower || substring_of "403 forbidden" title_lower)
                                        && negb (mem "cloudflare" signals)) "cloudflare-title" in
  let signals := signals ++ opt_signal (substring_of "cf_chl" url_lower || substring_of "challenge-platform" url_lower) "cloudflare-url" in
  let signals := signals ++ opt_signal (any_lower DDOS_GUARD_INDICATORS title) "ddos-guard-title" in
  let signals := signals ++ opt_signal (substring_of "ddos-guard" url_lower || substring_of "/.well-known/ddos-guard" url_lower) "ddos-guard-url" in
  let signals := prose_signals (fun i => substring_of i content_lower || substring_of i title_lower
                                         || (negb (is_empty html) && substring_of (lower i) html_lower)) signals in
  let signals := signals ++ opt_signal (substring_of "rate limit" content_lower || substring_of "too many requests" content_lower) "rate-limit" in
  signals ++ opt_signal (existsb (fun p => substring_of p url_lower || (negb (is_empty html) && substring_of p html_lower)) SUBSTACK_REDIRECT_PATTERNS)
               "substack-redirect".

Definition all_signals (title url content html : string) : list string :=
  match collect_signals title url content html with
  | [] => opt_signal (any_lower (CLOUDFLARE_INDICATORS ++ DDOS_GUARD_INDICATORS ++ SUBSTACK_REDIRECT_PATTERNS) content) "content-match"
  | l => l
  end.

Definition is_prose (s : string) : bool := String.eqb s "empty" || starts_with "fastly-prose:" s || String.eqb s "rate-limit".

(** The keywords of the signals, in order of precedence, and the types. *)
Definition type_table : list (string * string) :=
  [("cloudflare", "cloudflare"); ("ddos-guard", "ddos-guard"); ("captcha", "captcha"); ("rate-limit", "rate-limit"); ("fastly-prose", "fastly");
   ("substack-redirect", "substack-redirect"); ("empty", "empty"); ("content-match", "suspicious")].

Definition type_of (signals : list string) : option string :=
  snd <$> List.find (fun kt => existsb (fun s => substring_of (fst kt) s) signals) type_table.

(** [min(0.50 + n * 0.20, 0.95)], capped for prose. *)
Definition grade (signals : list string) : Z :=
  let n := Z.of_nat (length (remove_dups signals)) in
  let c := Z.min (50 + n * 20) 95 in
  if forallb is_prose signals then Z.min c 90 else c.

Definition grade_signals (title : string) (signals : list string) : BarrierInfo :=
  match signals with
  | [] => mkBarrier false None 0 "No barrier signals detected" title None
  | _ => mkBarrier true (type_of signals) (grade signals)
           ("Matched signals: " +:+ sjoin ", " (sorted_strs (remove_dups signals))) title None
  end.

(** [_classify_barrier]; an absent HTML is the empty text, which the code treats alike. *)
Definition classify_barrier (title url content html : string) : BarrierInfo :=
  let html_lower := lower html in
  if substring_of FASTLY_SIGNATURE_PREFIX html_lower || substring_of FASTLY_SIGNATURE_PREFIX (lower url) then
    mkBarrier true (Some "fastly") 95 ("Definitive Fastly challenge signature (" +:+ FASTLY_SIGNATURE_PREFIX +:+ ")") title (Some "fastly")
  else
    match List.find (fun ps => any_in (snd ps) html_lower) captcha_providers with
    | Some (p, _) => mkBarrier true (Some "captcha") 95 ("Definitive " +:+ p +:+ " widget") title (Some p)
    | None =>
        if generic_widget html_lower then mkBarrier true (Some "captcha") 85 "Definitive generic CAPTCHA widget" title (Some "generic")
        else if is_empty content && is_empty html then mkBarrier true (Some "empty") 95 "No content returned" title None
        else grade_signals title (all_signals title url content html)
    end.

(** ** Embedded documents and markdown *)

Definition EMBEDDED_CONTENT_EXTENSIONS : list string :=
  [".pdf"; ".epub"; ".doc"; ".docx"; ".xls"; ".xlsx"; ".ppt"; ".pptx"; ".zip"; ".tar"; ".gz"].
Definition EMBEDDED_CONTENT_DOMAINS : list string := ["sci-hub"; "sci.bban"; "docdrop"; "academia"; "researchgate"; "arxiv.org"; "cdn."].

(** [_has_embedded_content]. *)
Definition has_embedded_content (html : string) : bool :=
  let h := lower html in
  any_in ["<iframe"; "<embed"; "<object"] h
  && (any_in EMBEDDED_CONTENT_EXTENSIONS h || any_in EMBEDDED_CONTENT_DOMAINS h || substring_of "/pdf/" h || substring_of "/download/" h).

(** [re.match(r"^\[.+\]\(.+\)", line)]. *)
Fixpoint link_tail (s : string) : bool :=
  (starts_with "](" s && contains ")" (sdrop 3 s)) || match s with EmptyString => false | String _ s => link_tail s end.
Definition link_line (s : string) : bool :=
  match s with String ch (String _ rest) => Ascii.eqb ch "[" && link_tail rest | _ => false end.

Definition line_indicators (line : string) : nat :=
  let one (b : bool) := if b then 1%nat else 0%nat in
  (one (starts_with "# " line || starts_with "## " line || starts_with "### " line) + one (starts_with "- " line || starts_with "* " line)
   + one (starts_with "```" line) + one (link_line line))%nat.

(** [_looks_like_markdown]. *)
Definition looks_like_markdown (text : string) : bool :=
  let lines := split (Ascii.ascii_of_nat 10) (String.substring 0 2000 (strip text)) in
  negb (is_empty (strip text)) && Nat.leb 3 (foldr (fun l n => (line_indicators (strip l) + n)%nat) 0%nat lines).

(** ** Facts *)

Definition signal_names : list string :=
  ["empty"; "cloudflare-title"; "cloudflare-url"; "ddos-guard-title"; "ddos-guard-url"; "rate-limit"; "substack-redirect"; "content-match"]
  ++ (prose_signal <$> FASTLY_CHALLENGE_INDICATORS).

Lemma opt_signal_elem b s x : x ∈ opt_signal b s <-> x = s /\ b = true.
Proof. unfold opt_signal. destruct b; set_solver. Qed.

Lemma prose_signals_elem hit l x : x ∈ prose_signals hit l <-> x ∈ l \/ exists i, i ∈ FASTLY_CHALLENGE_INDICATORS /\ hit i = true /\ x = prose_signal i.
Proof.
  unfold prose_signals. generalize FASTLY_CHALLENGE_INDICATORS. intros inds. revert l. induction inds as [|i inds IH]; intros l; cbn [foldl]; [set_solver|].
  rewrite IH. setoid_rewrite elem_of_cons. destruct (hit i) eqn:H; cbn [andb]; [|naive_solver congruence].
  destruct (mem (prose_signal i) l) eqn:M; cbn [negb].
  - assert (prose_signal i ∈ l) as E by (unfold mem in M; apply existsb_exists in M as (y & Hy & ->%String.eqb_eq); by apply list_elem_of_In).
    naive_solver.
  - rewrite elem_of_app, list_elem_of_singleton. naive_solver.
Qed.

(** Each signal stands for what was found. *)
Lemma collect_signals_elem title url content html x : x ∈ collect_signals title url content html <->
  (x = "empty" /\ Nat.ltb (slen content) 100 = true) \/
  (x = "cloudflare-title" /\ (any_lower CLOUDFLARE_INDICATORS title || (substring_of "attention required" (lower title) || substring_of "403 forbidden" (lower title))) = true) \/
  (x = "cloudflare-url" /\ substring_of "cf_chl" (lower url) || substring_of "challenge-platform" (lower url) = true) \/
  (x = "ddos-guard-title" /\ any_lower DDOS_GUARD_INDICATORS title = true) \/
  (x = "ddos-guard-url" /\ substring_of "ddos-guard" (lower url) || substring_of "/.well-known/ddos-guard" (lower url) = true) \/
  (exists i, i ∈ FASTLY_CHALLENGE_INDICATORS /\
     substring_of i (lower content) || substring_of i (lower title) || (negb (is_empty html) && substring_of (lower i) (lower html)) = true /\ x = prose_signal i) \/
  (x = "rate-limit" /\ substring_of "rate limit" (lower content) || substring_of "too many requests" (lower content) = true) \/
  (x = "substack-redirect" /\ existsb (fun p => substring_of p (lower url) || (negb (is_empty html) && substring_of p (lower html))) SUBSTACK_REDIRECT_PATTERNS = true).
Proof.
  unfold collect_signals. rewrite !elem_of_app, prose_signals_elem, !elem_of_app, !opt_signal_elem.
  assert (M : mem "cloudflare" (opt_signal (Nat.ltb (slen content) 100) "empty" ++ opt_signal (any_lower CLOUDFLARE_INDICATORS title) "cloudflare-title") = false)
    by (unfold opt_signal; destruct (Nat.ltb _ _), (any_lower _ _); reflexivity).
  rewrite M, andb_true_r, (orb_true_iff (any_lower CLOUDFLARE_INDICATORS title)). tauto.
Qed.

Lemma signals_named title url content html x : x ∈ all_signals title url content html -> x ∈ signal_names.
Proof.
  unfold all_signals. destruct (collect_signals title url content html) as [|y l] eqn:E.
  - intros [-> _]%opt_signal_elem. apply list_elem_of_In. vm_compute. tauto.
  - rewrite <- E. intros [[-> _]|[[-> _]|[[-> _]|[[-> _]|[[-> _]|[(i & Hi & _ & ->)|[[-> _]|[-> _]]]]]]]]%collect_signals_elem;
      try (apply list_elem_of_In; vm_compute; tauto). unfold signal_names. apply elem_of_app. right. by apply list_elem_of_fmap_2.
Qed.

Lemma named_typed x : x ∈ signal_names -> exists k t, (k, t) ∈ type_table /\ substring_of k x = true.
Proof.
  assert (A : forallb (fun x => existsb (fun kt => substring_of (fst kt) x) type_table) signal_names = true) by (vm_compute; reflexivity).
  rewrite forallb_forall in A. intros H%list_elem_of_In%A. apply existsb_exists in H as ([k t] & H1%list_elem_of_In & H2). eauto.
Qed.

Lemma type_of_named l : l <> [] -> (forall x, x ∈ l -> x ∈ signal_names) -> is_Some (type_of l).
Proof.
  intros N H. destruct l as [|x l]; [done|]. destruct (named_typed x (H x ltac:(by left))) as (k & t & H1 & H2). unfold type_of.
  destruct (List.find _ type_table) eqn:F; [by eexists|]. exfalso. apply list_elem_of_In in H1. pose proof (find_none _ _ F (k, t) H1) as X. cbn in X.
  apply orb_false_iff in X as [X _]. congruence.
Qed.

Lemma distinct_pos (l : list string) : l <> [] -> (1 <= length (remove_dups l))%nat.
Proof.
  intros H. destruct l as [|x l]; [done|]. assert (x ∈ remove_dups (x :: l)) as E by (apply elem_of_remove_dups; by left).
  destruct (remove_dups (x :: l)); [by apply not_elem_of_nil in E|cbn; lia].
Qed.

Lemma grade_cases l : l <> [] ->
  (grade l = 70 /\ length (remove_dups l) = 1%nat) \/ (grade l = 90 /\ ((2 <= length (remove_dups l))%nat)) \/
  (grade l = 95 /\ (3 <= length (remove_dups l))%nat /\ exists x, x ∈ l /\ is_prose x = false).
Proof.
  intros H. pose proof (distinct_pos l H) as D. unfold grade.
  assert (P : forallb is_prose l = false -> exists x, x ∈ l /\ is_prose x = false).
  { clear. induction l as [|x l IH]; [done|]. cbn. intros [E|E]%andb_false_iff; [exists x; split; [by left|done]|]. destruct (IH E) as (y & ? & ?). exists y. split; [by right|done]. }
  destruct (decide (length (remove_dups l) = 1%nat)) as [->|]; [left; destruct (forallb is_prose l); done|].
  destruct (decide (length (remove_dups l) = 2%nat)) as [->|]; [right; left; destruct (forallb is_prose l); split; [done|lia|done|lia]|].
  right. destruct (forallb is_prose l) eqn:E; [left; lia|]. right. split_and!; [lia|lia|by apply P].
Qed.

(** ** Theorems *)

(** The answer for a page without a definitive signature. *)
Lemma grade_signals_typed title l : (forall x, x ∈ l -> x ∈ signal_names) ->
  match grade_signals title l with
  | mkBarrier true ty c _ _ _ => is_Some ty /\ c ∈ [70; 90; 95] /\ l <> []
  | mkBarrier false ty c _ _ _ => ty = None /\ c = 0 /\ l = []
  end.
Proof.
  intros H. unfold grade_signals. destruct l as [|x l]; [done|]. split_and!; [by apply type_of_named| |done].
  destruct (grade_cases (x :: l)) as [[-> _]|[[-> _]|[-> _]]]; set_solver.
Qed.

(**  The grades of the classification are well formed: a barrier has a type and one of
    the grades 70, 85, 90 and 95, a page without one has no type and the grade 0; and the
    highest grade is given only to a page with the signature of a challenge asset or the
    widget of a captcha provider, to a page without any content, and to one with three
    different signals of which not all are mere prose. *)
Theorem classification_graded title url content html :
  match classify_barrier title url content html with
  | mkBarrier true ty c _ t _ => is_Some ty /\ c ∈ [70; 85; 90; 95] /\ t = title /\
      (c = 95 -> substring_of FASTLY_SIGNATURE_PREFIX (lower html) || substring_of FASTLY_SIGNATURE_PREFIX (lower url) = true \/
                 existsb (fun ps => any_in (snd ps) (lower html)) captcha_providers = true \/ (content = "" /\ html = "") \/
                 (3 <= length (remove_dups (all_signals title url content html)))%nat /\ exists x, x ∈ all_signals title url content html /\ is_prose x = false)
  | mkBarrier false ty c _ t _ => ty = None /\ c = 0 /\ t = title
  end.
Proof.
  unfold classify_barrier. destruct (substring_of _ (lower html) || _) eqn:F; [split_and!; [done|set_solver|done|]; intros _; by left|].
  destruct (List.find _ captcha_providers) as [[p sigs]|] eqn:P.
  { split_and!; [done|set_solver|done|]. intros _. right. left. apply existsb_exists. apply find_some in P as [P1 P2]. by exists (p, sigs). }
  destruct (generic_widget (lower html)); [split_and!; [done|set_solver|done|done]|].
  destruct (is_empty content && is_empty html) eqn:E.
  { apply andb_true_iff in E as [E1 E2]. split_and!; [done|set_solver|done|]. intros _. right. right. left. by destruct content, html. }
  pose proof (grade_signals_typed title _ (signals_named title url content html)) as G. unfold grade_signals in *.
  destruct (all_signals title url content html) as [|x l] eqn:S; [done|]. destruct G as (G1 & G2 & _). split_and!; [done|set_solver|done|].
  intros C. right. right. right. destruct (grade_cases (x :: l)) as [[X _]|[[X _]|[_ X]]]; [done|congruence|congruence|exact X].
Qed.

(**  A page that passes the classification has at least a hundred characters of
    content, is not one a browser waits for, is no redirect frame, does not speak of rate
    limits, and has none of the challenge phrases in its title or its content, nor the
    signature of a challenge or of a captcha provider in its HTML. *)
Theorem passed_page_clean title url content html :
  detected (classify_barrier title url content html) = false ->
  (100 <= slen content)%nat /\ is_bot_challenge title url = false /\ is_substack_redirect url = false /\
  any_lower (CLOUDFLARE_INDICATORS ++ DDOS_GUARD_INDICATORS ++ SUBSTACK_REDIRECT_PATTERNS) content = false /\
  (forall i, i ∈ FASTLY_CHALLENGE_INDICATORS -> substring_of i (lower content) = false /\ substring_of i (lower title) = false) /\
  substring_of "rate limit" (lower content) = false /\ substring_of "too many requests" (lower content) = false /\
  substring_of FASTLY_SIGNATURE_PREFIX (lower html) = false /\ existsb (fun ps => any_in (snd ps) (lower html)) captcha_providers = false.
Proof.
  unfold classify_barrier. destruct (substring_of FASTLY_SIGNATURE_PREFIX (lower html) || _) eqn:F; [done|]. apply orb_false_iff in F as [F1 F2].
  destruct (List.find _ captcha_providers) as [[p sigs]|] eqn:P; [done|]. destruct (generic_widget (lower html)); [done|].
  destruct (is_empty content && is_empty html); [done|]. unfold grade_signals. destruct (all_signals title url content html) as [|x l] eqn:S; [|done]. intros _.
  unfold all_signals in S. destruct (collect_signals title url content html) as [|y l'] eqn:C; [|done].
  assert (N : forall x, x ∉ collect_signals title url content html) by (rewrite C; apply not_elem_of_nil).
  setoid_rewrite collect_signals_elem in N.
  assert (K : forall b : bool, ~ (b = true) -> b = false) by (by intros []).
  assert (N6 : forall i, i ∈ FASTLY_CHALLENGE_INDICATORS -> substring_of i (lower content) = false /\ substring_of i (lower title) = false).
  { intros i Hi. assert (H : ~ (substring_of i (lower content) || substring_of i (lower title) || (negb (is_empty html) && substring_of (lower i) (lower html)) = true)).
    { intros H. apply (N (prose_signal i)). do 5 right. left. by exists i. }
    apply K in H. apply orb_false_iff in H as [H _]. by apply orb_false_iff in H. }
  assert (E3 : substring_of "cf_chl" (lower url) || substring_of "challenge-platform" (lower url) = false) by (apply K; intros X; apply (N "cloudflare-url"); do 2 right; left; by split).
  assert (E5 : substring_of "ddos-guard" (lower url) || substring_of "/.well-known/ddos-guard" (lower url) = false) by (apply K; intros X; apply (N "ddos-guard-url"); do 4 right; left; by split).
  assert (E7 : substring_of "rate limit" (lower content) || substring_of "too many requests" (lower content) = false) by (apply K; intros X; apply (N "rate-limit"); do 6 right; left; by split).
  assert (E2 : any_lower CLOUDFLARE_INDICATORS title = false) by (apply K; intros X; apply (N "cloudflare-title"); right; left; by rewrite X).
  assert (E4 : any_lower DDOS_GUARD_INDICATORS title = false) by (apply K; intros X; apply (N "ddos-guard-title"); do 3 right; left; by split).
  assert (E8 : any_in SUBSTACK_REDIRECT_PATTERNS (lower url) = false).
  { apply K. intros X. apply (N "substack-redirect"). do 7 right. split; [done|]. unfold any_in in X. apply existsb_exists in X as (p & Hp & X). apply existsb_exists. exists p. by rewrite X. }
  split_and!.
  - destruct (Nat.ltb_spec (slen content) 100); [|lia]. exfalso. apply (N "empty"). left. by split.
  - unfold is_bot_challenge. rewrite E2, E3, E4, E5, F2. cbn [orb]. unfold any_lower. apply K. intros X. apply existsb_exists in X as (i & Hi%list_elem_of_In & X).
    assert (L : lower i = i) by (revert Hi; unfold FASTLY_CHALLENGE_INDICATORS; rewrite !elem_of_cons, elem_of_nil; intros [->|[->|[->|[]]]]; reflexivity).
    rewrite L in X. apply N6 in Hi as [_ Hi]. congruence.
  - exact E8.
  - apply K. intros X. unfold opt_signal in S. by rewrite X in S.
  - exact N6.
  - apply orb_false_iff in E7. apply E7.
  - apply orb_false_iff in E7. apply E7.
  - exact F1.
  - apply K. intros X. apply existsb_exists in X as (ps & Hps & X). pose proof (find_none _ _ P ps Hps) as Y. cbn in X, Y. congruence.
Qed.

(** ** Runs *)

Definition demo_text : string :=
  "An ordinary page with some text about gardens, long enough to be more than one hundred characters of content, and so it passes.".

Lemma passed_page_clean_witness :
  detected (classify_barrier "Gardens" "https://a.org/gardens" demo_text "") = false /\ is_bot_challenge "Gardens" "https://a.org/gardens" = false.
Proof.
  assert (D : detected (classify_barrier "Gardens" "https://a.org/gardens" demo_text "") = false) by (vm_compute; reflexivity). split; [exact D|].
  apply (passed_page_clean "Gardens" "https://a.org/gardens" demo_text "" D).
Defined.

(** ** What the model shows of the code *)

(** A title with two Cloudflare phrases gives the signal twice: the guard against it
    compares with a name that is no signal.  The grade is not affected. *)
Lemma title_signal_twice :
  collect_signals "Attention Required! Just a moment" "https://a.org/" demo_text "" = ["cloudflare-title"; "cloudflare-title"].
Proof. vm_compute. reflexivity. Qed.
