(* ===== verification/SearchMeta.v ===== *)
(** * Search metadata ([src/agent-svc/agent/search_metadata.py])

    What of an upstream search result is kept on a reference: a closed list of
    fields, each checked for its type and size, and media URLs only when they
    are public.  A result is a decoded JSON object; numbers are integers.  Query
    keys are percent-decoded byte by byte, case folding is that of ASCII.

    The theorems: whatever the upstream sends, only the listed fields are kept,
    each once and within its bounds, and every media URL kept is an
    unauthenticated http(s) URL of a dotted public host name or of a global
    address, without a secret in its query. *)

From stdpp Require Import pretty.
From S2P Require Import Prelude Strings IpAddress Url Capture Json.

Definition STRING_FIELDS : list string :=
  ["engine"; "doi"; "journal"; "publisher"; "editor"; "pages"; "number"; "comments"; "type"; "pdf_url";
   "html_url"; "publishedDate"].
Definition LIST_FIELDS : list string := ["engines"; "authors"; "issn"; "isbn"; "tags"].
Definition METADATA_FIELDS : list string := STRING_FIELDS ++ LIST_FIELDS ++ ["volume"; "media"].

(** ** Media URLs *)

(** [parsed.username] and [parsed.password], empty when absent. *)
Definition userinfo (r : ParseResult) : string * string :=
  let '(info, at_sign, _) := rpartition "@" (netloc r) in
  if at_sign then let '(user, _, pass) := partition ":" info in (user, pass) else ("", "").

Definition hex_pair (c d : ascii) : option ascii :=
  if is_hex c && is_hex d then Some (Ascii.ascii_of_nat (Z.to_nat (16 * hex_value c + hex_value d))) else None.

(** [unquote_plus]. *)
Fixpoint unquote_plus (s : string) : string :=
  match s with
  | EmptyString => EmptyString
  | String c s' =>
      if Ascii.eqb c "+" then String " " (unquote_plus s')
      else match s' with
      | String d (String e rest) =>
          if Ascii.eqb c "%" then
            match hex_pair d e with
            | Some x => String x (unquote_plus rest)
            | None => String c (unquote_plus s')
            end
          else String c (unquote_plus s')
      | _ => String c (unquote_plus s')
      end
  end.

(** The keys of [parse_qsl(query)]: those with a value. *)
Definition query_keys (q : string) : list string :=
  omap (fun nv => let '(name, _, value) := partition "=" nv in
                  if is_empty value then None else Some (unquote_plus name)) (split "&" q).

Definition SENSITIVE : list string :=
  ["token"; "access_token"; "api_key"; "apikey"; "key"; "signature"; "sig"; "password"; "auth"; "authorization"].

Definition sensitive_key (k : string) : bool :=
  let k := lower k in mem k SENSITIVE || starts_with "x-amz-" k || starts_with "x-goog-" k.

(** [(parsed.hostname or "").lower().rstrip(".")]. *)
Definition media_host (r : ParseResult) : string := rstrip (Ascii.eqb ".") (lower (hostname r)).

(** The checks on the host name. *)
Definition public_media_host (host : string) : bool :=
  contains "." host
  && negb (ends_with ".localhost" host || ends_with ".local" host || ends_with ".internal" host)
  && match ip_address host with
     | Some a => is_global a
     | None => negb (sforall (fun c => is_digit c || Ascii.eqb c "." || Ascii.eqb c "x"
                                       || (Nat.leb 97 (chr c) && Nat.leb (chr c) 102)) host)
     end.

Definition url_char (c : ascii) : bool :=
  negb (Nat.leb (chr c) 32) && negb (Nat.eqb (chr c) 127) && negb (Nat.eqb (chr c) 92).

(** [_public_media_url]. *)
Definition public_media_url (value : json) : option string :=
  match value with
  | JStr v =>
      if is_empty v || Nat.ltb 2048 (slen v) then None
      else if negb (sforall url_char v) then None
      else match urlsplit v "" with
      | None => None
      | Some r =>
          if contains "%" (netloc r) then None
          else if negb (mem (scheme r) ["https"; "http"]) || is_empty (media_host r)
                  || negb (is_empty (fst (userinfo r))) || negb (is_empty (snd (userinfo r))) then None
          else match port r with
          | None => None
          | Some p =>
              if match p with Some n => negb ((1 <=? n) && (n <=? 65535)) | None => false end then None
              else if negb (public_media_host (media_host r)) then None
              else if existsb sensitive_key (query_keys (query r)) then None
              else Some v
          end
      end
  | _ => None
  end.

(** ** Media records *)

(** The first key whose URL is public. *)
Fixpoint first_public (record : json) (keys : list string) : option string :=
  match keys with
  | [] => None
  | k :: keys => match public_media_url (jget record k) with Some u => Some u | None => first_public record keys end
  end.

Definition media_kind (record source : json) : option string :=
  let of_category := match jget source "category" with
                     | JStr c => if String.eqb c "images" then Some "image"
                                 else if String.eqb c "videos" then Some "video" else None
                     | _ => None end in
  match jget record "media_type" with
  | JStr k => if String.eqb k "image" || String.eqb k "video" then Some k else of_category
  | _ => of_category
  end.

Definition int_between (lo hi : Z) (j : json) : option json :=
  match j with JNum n => if (lo <=? n) && (n <=? hi) then Some j else None | _ => None end.

Definition field (k : string) (v : option json) : list (string * json) :=
  match v with Some v => [(k, v)] | None => [] end.

(** [media_metadata]. *)
Definition media_metadata (source : json) : list (string * json) :=
  let nested := match jget source "media" with JObj l => Some (JObj l) | _ => None end in
  let record := default source nested in
  let is_nested := match nested with Some _ => true | None => false end in
  match media_kind record source with
  | None => []
  | Some kind =>
      [("media_type", JStr kind)]
      ++ field "url" (JStr <$> first_public record
           (if is_nested then ["url"] else ["image_url"; "img_src"; "video_url"]))
      ++ field "thumbnail" (JStr <$> first_public record ["thumbnail"; "thumbnail_src"])
      ++ field "source" (JStr <$> first_public record (if is_nested then ["source"] else ["source_url"; "url"]))
      ++ field "width" (int_between 1 100000 (jget_default record "width" (jget record "image_width")))
      ++ field "height" (int_between 1 100000 (jget_default record "height" (jget record "image_height")))
      ++ field "duration" (int_between 0 604800 (jget record "duration"))
  end.

(** ** The record kept *)

(** The value of a string field, when it is kept. *)
Definition string_value (source : json) (k : string) : option json :=
  match jget source k with
  | JStr v => if negb (is_empty v) && Nat.leb (slen v) 2048 then Some (JStr v) else None
  | _ => None
  end.

(** The items, when all of them are strings of at most 256 characters. *)
Fixpoint short_strings (l : list json) : option (list string) :=
  match l with
  | [] => Some []
  | JStr s :: l => if Nat.leb (slen s) 256 then (fun r => s :: r) <$> short_strings l else None
  | _ => None
  end.

Definition list_value (source : json) (k : string) : option json :=
  match jget source k with
  | JArr l =>
      if Nat.leb (length l) 64 then
        (fun ss => JArr (JStr <$> (if String.eqb k "engines" then sorted_strs (remove_dups ss) else ss)))
          <$> short_strings l
      else None
  | _ => None
  end.

Definition volume_value (source : json) : option json :=
  match jget source "volume" with
  | JStr s => if Nat.leb (slen s) 256 then Some (JStr s) else None
  | JNum n => if Nat.leb (slen (pretty n)) 256 then Some (JNum n) else None
  | _ => None
  end.

Definition media_value (source : json) : option json :=
  match media_metadata source with [] => None | m => Some (JObj m) end.

(** [search_metadata], the fields in insertion order. *)
Definition search_metadata (source : json) : list (string * json) :=
  let strs := STRING_FIELDS ≫= (fun k => field k (string_value source k)) in
  let lists := LIST_FIELDS ≫= (fun k => field k (list_value source k)) in
  let engines := match assoc "engines" lists, assoc "engine" strs with
                 | None, Some e => Some (JArr [e])
                 | _, _ => None
                 end in
  strs ++ lists ++ field "engines" engines ++ field "volume" (volume_value source)
  ++ field "media" (media_value source).

(** ** Lookup *)

Lemma assoc_field k k' v : assoc k (field k' v) = if String.eqb k k' then v else None.
Proof. destruct v; cbn; by destruct (String.eqb k k'). Qed.

Lemma assoc_fields k ks (g : string -> option json) :
  assoc k (ks ≫= (fun k => field k (g k))) = if mem k ks then g k else None.
Proof.
  induction ks as [|k' ks IH]; cbn; [done|]. rewrite assoc_app, IH, assoc_field. unfold mem in *.
  destruct (String.eqb k k') eqn:E; cbn; [|by destruct (existsb _ ks), (g k)]. apply String.eqb_eq in E as ->.
  destruct (existsb _ ks); [by destruct (g k')|done].
Qed.

(** The engines of a record that lists none but names one. *)
Definition engines_value (source : json) : option json :=
  match list_value source "engines" with
  | Some v => Some v
  | None => (fun e => JArr [e]) <$> string_value source "engine"
  end.

(** What is kept under each key. *)
Definition kept (source : json) (k : string) : option json :=
  if String.eqb k "engines" then engines_value source
  else if mem k STRING_FIELDS then string_value source k
  else if mem k LIST_FIELDS then list_value source k
  else if String.eqb k "volume" then volume_value source
  else if String.eqb k "media" then media_value source
  else None.

Lemma search_metadata_lookup source k : assoc k (search_metadata source) = kept source k.
Proof.
  unfold search_metadata, kept. rewrite !assoc_app, !assoc_field, !assoc_fields.
  destruct (String.eqb k "media") eqn:E1; [apply String.eqb_eq in E1 as ->; cbn; by destruct (media_value source)|].
  destruct (String.eqb k "volume") eqn:E2; [apply String.eqb_eq in E2 as ->; cbn; by destruct (volume_value source)|].
  destruct (String.eqb k "engines") eqn:E3.
  - apply String.eqb_eq in E3 as ->. cbn [mem existsb]. unfold engines_value. cbn.
    destruct (list_value source "engines"), (string_value source "engine"); done.
  - destruct (mem k LIST_FIELDS) eqn:E4; [|by destruct (mem k STRING_FIELDS)].
    assert (mem k STRING_FIELDS = false) as ->; [|by destruct (list_value source k)].
    unfold mem in *. cbn in E4 |- *. rewrite E3 in E4. cbn in E4.
    repeat (apply orb_true_iff in E4 as [E4|E4]; [apply String.eqb_eq in E4 as ->; reflexivity|]). done.
Qed.

(** ** Media URLs that are kept *)

(** An http(s) URL without credentials, of a public host, with no secret in its query. *)
Record safe_media_url (u : string) : Prop := {
  sm_short : (slen u <= 2048)%nat;
  sm_chars : sforall url_char u = true;
  sm_parts : exists r, urlsplit u "" = Some r /\ scheme r ∈ ["https"; "http"] /\ userinfo r = ("", "") /\
    (exists p, port r = Some p /\ forall n, p = Some n -> 1 <= n <= 65535) /\
    contains "." (media_host r) = true /\
    (forall a, ip_address (media_host r) = Some a -> is_global a = true) /\
    (forall suffix, suffix ∈ [".localhost"; ".local"; ".internal"] -> ends_with suffix (media_host r) = false) /\
    (forall k, k ∈ query_keys (query r) -> lower k ∉ SENSITIVE)
}.

Lemma public_media_url_self j u : public_media_url j = Some u -> j = JStr u.
Proof. unfold public_media_url. intros H. by case_all. Qed.

Lemma public_media_url_safe j u : public_media_url j = Some u -> safe_media_url u.
Proof.
  intros H. pose proof (public_media_url_self _ _ H) as ->. unfold public_media_url in H.
  destruct (is_empty u || Nat.ltb 2048 (slen u)) eqn:E1; [done|]. destruct (negb (sforall url_char u)) eqn:E2; [done|].
  destruct (urlsplit u "") as [r|] eqn:E3; [|done]. destruct (contains "%" _); [done|].
  destruct (negb (mem _ _) || _ || _ || _) eqn:E4; [done|]. destruct (port r) as [p|] eqn:E5; [|done].
  destruct (match p with Some n => _ | None => false end) eqn:E6; [done|].
  destruct (negb (public_media_host _)) eqn:E7; [done|]. destruct (existsb _ _) eqn:E8; [done|].
  bool_to_prop. unfold public_media_host in *. bool_to_prop. split; [by apply Nat.ltb_ge|done|].
  exists r. split_and!; try done.
  - by apply mem_elem.
  - destruct (userinfo r) as [x y]. cbn in *. by destruct x, y.
  - exists p. split; [done|]. intros n ->. bool_to_prop. lia.
  - intros a Ha. by rewrite Ha in *.
  - intros suffix Hs. repeat (apply elem_of_cons in Hs as [->|Hs]; [done|]). by apply not_elem_of_nil in Hs.
  - intros k Hk Hin. assert (Ht : existsb sensitive_key (query_keys (query r)) = true); [|congruence].
    apply existsb_exists. exists k. split; [by apply list_elem_of_In|]. unfold sensitive_key. by rewrite (proj2 (mem_elem _ _) Hin).
Qed.

Lemma first_public_self record keys u : first_public record keys = Some u -> public_media_url (JStr u) = Some u.
Proof.
  induction keys as [|k keys IH]; cbn [first_public]; [done|]. destruct (public_media_url (jget record k)) as [v|] eqn:E; [|done].
  intros [= ->]. by rewrite (public_media_url_self _ _ E) in E.
Qed.

(** ** What a media record holds *)

Definition media_record (kind : string) (url thumb src width height duration : option json) : list (string * json) :=
  [("media_type", JStr kind)] ++ field "url" url ++ field "thumbnail" thumb ++ field "source" src
  ++ field "width" width ++ field "height" height ++ field "duration" duration.

(** The vetted URL, as a field. *)
Definition url_field_ok (v : option json) : Prop :=
  forall j, v = Some j -> exists u, j = JStr u /\ public_media_url j = Some u.

Definition int_field_ok (lo hi : Z) (v : option json) : Prop :=
  forall j, v = Some j -> exists n, j = JNum n /\ lo <= n <= hi.

Record media_ok (kind : string) (url thumb src width height duration : option json) : Prop := {
  mo_kind : kind = "image" \/ kind = "video";
  mo_url : url_field_ok url; mo_thumb : url_field_ok thumb; mo_src : url_field_ok src;
  mo_width : int_field_ok 1 100000 width; mo_height : int_field_ok 1 100000 height;
  mo_duration : int_field_ok 0 604800 duration
}.

Lemma int_between_ok lo hi j : int_field_ok lo hi (int_between lo hi j).
Proof. intros v H. destruct j; try done. cbn in H. destruct (_ && _) eqn:E; [|done]. simplify_eq. bool_to_prop. eauto. Qed.

Lemma first_public_ok record keys : url_field_ok (JStr <$> first_public record keys).
Proof. intros v H. destruct (first_public _ _) as [u|] eqn:E; simplify_eq/=. exists u. split; [done|]. by eapply first_public_self. Qed.

Lemma media_kind_ok record source kind : media_kind record source = Some kind -> kind = "image" \/ kind = "video".
Proof.
  unfold media_kind. intros H. repeat (case_match; simplify_eq; auto).
  all: match goal with H : (_ || _) = true |- _ => apply orb_true_iff in H as [H%String.eqb_eq|H%String.eqb_eq]; auto end.
Qed.

Lemma media_metadata_shape source :
  media_metadata source = [] \/
  exists kind url thumb src width height duration,
    media_metadata source = media_record kind url thumb src width height duration /\
    media_ok kind url thumb src width height duration.
Proof.
  unfold media_metadata. destruct (media_kind _ _) as [kind|] eqn:E; [right|by left].
  eexists kind, _, _, _, _, _, _. split; [reflexivity|].
  split; auto using first_public_ok, int_between_ok. by eapply media_kind_ok.
Qed.

(** ** Keeping twice *)

#[local] Arguments public_media_url : simpl never.
#[local] Arguments int_between : simpl never.

Lemma public_media_null : public_media_url JNull = None.
Proof. done. Qed.

Lemma int_between_in lo hi n : lo <= n <= hi -> int_between lo hi (JNum n) = Some (JNum n).
Proof. intros H. unfold int_between. by rewrite !(proj2 (Z.leb_le _ _)) by lia. Qed.

(** Every optional field of a record is absent or a value that is kept again. *)
Ltac field_cases :=
  repeat match goal with
  | H : url_field_ok ?v |- _ =>
      let u := fresh "u" in let E := fresh "E" in
      destruct v; [destruct (H _ eq_refl) as (u & -> & E)|]; clear H
  | H : int_field_ok _ _ ?v |- _ =>
      let n := fresh "n" in let E := fresh "E" in
      destruct v; [destruct (H _ eq_refl) as (n & -> & E)|]; clear H
  end.

Lemma media_record_lookup kind url thumb src width height duration :
  let get k := assoc k (media_record kind url thumb src width height duration) in
  get "media_type" = Some (JStr kind) /\ get "url" = url /\ get "thumbnail" = thumb /\ get "thumbnail_src" = None /\
  get "source" = src /\ get "width" = width /\ get "image_width" = None /\ get "height" = height /\
  get "image_height" = None /\ get "duration" = duration.
Proof.
  cbn zeta. unfold media_record. rewrite !assoc_app, !assoc_field. cbv [assoc String.eqb Ascii.eqb Bool.eqb].
  split_and!; try done. all: match goal with |- _ = ?v => by destruct v end.
Qed.

Lemma media_metadata_nested kind url thumb src width height duration l :
  media_ok kind url thumb src width height duration ->
  jget (JObj l) "media" = JObj (media_record kind url thumb src width height duration) ->
  media_metadata (JObj l) = media_record kind url thumb src width height duration.
Proof.
  intros [Hk H1 H2 H3 H4 H5 H6] Hm. unfold media_metadata. rewrite Hm. cbn [from_option id].
  destruct (media_record_lookup kind url thumb src width height duration)
    as (G1 & G2 & G3 & G4 & G5 & G6 & G7 & G8 & G9 & G10). cbn zeta in *.
  unfold media_kind. cbn [first_public jget jget_default jindex]. unfold jget_default. cbn [jindex].
  rewrite G1, G2, G3, G4, G5, G6, G7, G8, G9, G10. cbn [from_option id].
  assert (Hkind : String.eqb kind "image" || String.eqb kind "video" = true) by (by destruct Hk as [-> | ->]).
  rewrite Hkind. unfold media_record. clear -H1 H2 H3 H4 H5 H6.
  field_cases; cbn [from_option id]; rewrite ?public_media_null;
    repeat match goal with E : public_media_url _ = _ |- _ => rewrite E; clear E end;
    rewrite ?int_between_in by done; done.
Qed.

Lemma short_strings_spec l ss : short_strings l = Some ss <-> l = JStr <$> ss /\ Forall (fun s => slen s <= 256)%nat ss.
Proof.
  revert ss. induction l as [|j l IH]; intros ss; cbn.
  - split; [intros [= <-]; by split|]. intros [H _]. by destruct ss.
  - split.
    + destruct j; try done. destruct (Nat.leb _ _) eqn:E; [|done]. destruct (short_strings l) as [r|] eqn:El; [|done].
      cbn. intros [= <-]. destruct (proj1 (IH r) eq_refl) as [-> Hr]. split; [done|]. constructor; [by apply Nat.leb_le|done].
    + intros [H Hf]. destruct ss as [|s ss]; [done|]. injection H as -> ->. apply Forall_cons in Hf as [H1 H2].
      rewrite (proj2 (Nat.leb_le _ _)) by done. by rewrite (proj2 (IH ss)).
Qed.

Definition str_le (a b : string) : Prop := String.leb a b = true.

Lemma insert_str_sorted s l : Sorted str_le l -> Sorted str_le (insert_str s l).
Proof.
  induction 1 as [|t l Hl IH Hd]; cbn; [by repeat constructor|]. destruct (String.leb s t) eqn:E; [by repeat constructor|].
  assert (Ht : str_le t s) by (destruct (String.leb_total s t); unfold str_le; congruence).
  constructor; [done|]. destruct l as [|u l]; cbn in *; [by constructor|].
  destruct (String.leb s u); [by constructor|]. inversion Hd; subst. by constructor.
Qed.

Lemma sorted_strs_sorted l : Sorted str_le (sorted_strs l).
Proof. induction l as [|s l IH]; cbn; [constructor|by apply insert_str_sorted]. Qed.

Lemma sorted_strs_id l : Sorted str_le l -> sorted_strs l = l.
Proof.
  unfold sorted_strs. induction 1 as [|s l Hl IH Hd]; cbn; [done|]. rewrite IH. destruct Hd as [|t l H]; cbn; [done|].
  unfold str_le in H. by rewrite H.
Qed.

Lemma remove_dups_id (l : list string) : NoDup l -> remove_dups l = l.
Proof. induction 1 as [|x l Hx Hl IH]; cbn; [done|]. case_match; [done|by rewrite IH]. Qed.

(** [sorted(set(l))], computed twice. *)
Lemma sorted_set_twice (l : list string) :
  sorted_strs (remove_dups (sorted_strs (remove_dups l))) = sorted_strs (remove_dups l).
Proof.
  rewrite remove_dups_id; [apply sorted_strs_id, sorted_strs_sorted|].
  rewrite sorted_strs_perm. apply NoDup_remove_dups.
Qed.

Lemma remove_dups_length (l : list string) : (length (remove_dups l) <= length l)%nat.
Proof. induction l as [|x l IH]; cbn; [done|]. case_match; cbn; lia. Qed.

(** A list that was kept: at most 64 strings of at most 256 characters. *)
Lemma list_value_spec source k v :
  list_value source k = Some v -> exists ss, v = JArr (JStr <$> ss) /\ (length ss <= 64)%nat /\
    Forall (fun s => slen s <= 256)%nat ss /\
    (k = "engines" -> sorted_strs (remove_dups ss) = ss).
Proof.
  unfold list_value. destruct (jget source k); try done. destruct (Nat.leb _ _) eqn:E; [|done].
  apply Nat.leb_le in E. destruct (short_strings l) as [ss|] eqn:Es; [|done].
  apply short_strings_spec in Es as [-> Hf]. rewrite length_fmap in E. cbn. intros [= <-].
  destruct (String.eqb k "engines") eqn:Ek; eexists; (split; [done|]).
  - pose proof (remove_dups_length ss). pose proof (Permutation_length (sorted_strs_perm (remove_dups ss))).
    split_and!; [lia| |intros _; apply sorted_set_twice].
    rewrite sorted_strs_perm. apply Forall_forall. rewrite Forall_forall in Hf. intros s Hs. apply Hf, elem_of_remove_dups, Hs.
  - split_and!; [done|done|]. by intros ->.
Qed.

Lemma list_value_again source k v l :
  list_value source k = Some v -> jget (JObj l) k = v -> list_value (JObj l) k = Some v.
Proof.
  intros (ss & -> & H1 & H2 & H3)%list_value_spec Hg. unfold list_value. rewrite Hg, length_fmap.
  rewrite (proj2 (Nat.leb_le _ _)) by done. rewrite (proj2 (short_strings_spec _ ss)) by done. cbn.
  destruct (String.eqb k "engines") eqn:Ek; [|done]. apply String.eqb_eq in Ek. by rewrite H3.
Qed.

Lemma string_value_spec source k v :
  string_value source k = Some v -> exists s, v = JStr s /\ (1 <= slen s <= 2048)%nat.
Proof.
  unfold string_value. destruct (jget source k); try done. destruct (_ && _) eqn:E; [|done]. intros [= <-].
  exists s. bool_to_prop. split; [done|]. split; [|by apply Nat.leb_le]. destruct s; [done|cbn; lia].
Qed.

Lemma string_value_again source k l :
  jget (JObj l) k = default JNull (string_value source k) -> string_value (JObj l) k = string_value source k.
Proof.
  intros H. destruct (string_value source k) as [v|] eqn:E; cbn [from_option id] in H.
  - pose proof E as (s & -> & Hs)%string_value_spec. unfold string_value. rewrite H.
    rewrite (proj2 (Nat.leb_le _ _)) by lia. destruct s; [cbn in Hs; lia|done].
  - unfold string_value. by rewrite H.
Qed.

Lemma jget_kept source k : jget (JObj (search_metadata source)) k = default JNull (kept source k).
Proof. cbn [jget]. by rewrite search_metadata_lookup. Qed.

Lemma engines_again source :
  engines_value (JObj (search_metadata source)) = engines_value source.
Proof.
  assert (Hs : string_value (JObj (search_metadata source)) "engine" = string_value source "engine").
  { apply string_value_again. by rewrite jget_kept. }
  assert (Hg : jget (JObj (search_metadata source)) "engines" = default JNull (engines_value source)).
  { by rewrite jget_kept. }
  unfold engines_value in *. rewrite Hs. destruct (list_value source "engines") as [v|] eqn:E.
  - by rewrite (list_value_again source "engines" v _ E Hg).
  - destruct (string_value source "engine") as [e|] eqn:Ee; cbn [from_option id fmap option_fmap option_map] in *.
    + apply string_value_spec in Ee as (s & -> & Hl). unfold list_value. rewrite Hg. cbn.
      by destruct (Nat.leb (slen s) 256).
    + unfold list_value. by rewrite Hg.
Qed.

Lemma media_again source : media_value (JObj (search_metadata source)) = media_value source.
Proof.
  assert (Hg : jget (JObj (search_metadata source)) "media" = default JNull (media_value source)).
  { by rewrite jget_kept. }
  unfold media_value in *. destruct (media_metadata_shape source) as [E|(kind & u & t & s & w & h & d & E & Hok)].
  - rewrite E in *. unfold media_metadata. rewrite Hg. cbn [from_option id].
    unfold media_kind. by rewrite !jget_kept.
  - rewrite E in *. by rewrite (media_metadata_nested kind u t s w h d _ Hok Hg).
Qed.

(** Keeping is stable: a record that was filtered once (a stored reference) is not
    changed when it is filtered again (its export). *)
Lemma search_metadata_stable source k :
  assoc k (search_metadata (JObj (search_metadata source))) = assoc k (search_metadata source).
Proof.
  rewrite !search_metadata_lookup. unfold kept.
  pose proof (jget_kept source k) as Hg. unfold kept in Hg.
  destruct (String.eqb k "engines") eqn:E1; [apply engines_again|].
  destruct (mem k STRING_FIELDS); [by apply string_value_again|].
  destruct (mem k LIST_FIELDS).
  { destruct (list_value source k) as [v|] eqn:E; [by eapply list_value_again|]. unfold list_value. by rewrite Hg. }
  destruct (String.eqb k "volume") eqn:E2.
  { apply String.eqb_eq in E2 as ->. unfold volume_value in *. rewrite Hg. cbn.
    destruct (jget source "volume"); cbn; try done; by destruct (Nat.leb _ _) eqn:E; cbn; rewrite ?E. }
  destruct (String.eqb k "media") eqn:E3; [apply media_again|done].
Qed.

(** ** The type of what is kept *)

(** What may stand in a media record. *)
Definition media_typed (m : list (string * json)) : Prop :=
  NoDup (fst <$> m) /\
  Forall (fun kv =>
    (kv.1 = "media_type" /\ (kv.2 = JStr "image" \/ kv.2 = JStr "video")) \/
    (kv.1 ∈ ["url"; "thumbnail"; "source"] /\ exists u, kv.2 = JStr u /\ safe_media_url u) \/
    (kv.1 ∈ ["width"; "height"] /\ exists n, kv.2 = JNum n /\ 1 <= n <= 100000) \/
    (kv.1 = "duration" /\ exists n, kv.2 = JNum n /\ 0 <= n <= 604800)) m.

(** What may stand under each key. *)
Definition field_typed (k : string) (v : json) : Prop :=
  (k ∈ STRING_FIELDS /\ exists s, v = JStr s /\ (1 <= slen s <= 2048)%nat) \/
  (k ∈ LIST_FIELDS /\ exists ss, v = JArr (JStr <$> ss) /\ (length ss <= 64)%nat /\
     (Forall (fun s => slen s <= 256)%nat ss \/ k = "engines" /\ exists e, ss = [e] /\ (slen e <= 2048)%nat)) \/
  (k = "volume" /\ ((exists s, v = JStr s /\ (slen s <= 256)%nat) \/ exists n, v = JNum n)) \/
  (k = "media" /\ exists m, v = JObj m /\ media_typed m).

Lemma media_record_typed kind url thumb src width height duration :
  media_ok kind url thumb src width height duration ->
  media_typed (media_record kind url thumb src width height duration).
Proof.
  intros [Hk H1 H2 H3 H4 H5 H6]. split.
  - clear. destruct url, thumb, src, width, height, duration; cbn; repeat constructor; set_solver.
  - assert (Hk' : JStr kind = JStr "image" \/ JStr kind = JStr "video") by (destruct Hk as [-> | ->]; auto). clear Hk.
    assert (G : forall k v, k ∈ ["url"; "thumbnail"; "source"] -> url_field_ok v -> Forall (fun kv =>
      kv.1 ∈ ["url"; "thumbnail"; "source"] /\ exists u, kv.2 = JStr u /\ safe_media_url u) (field k v)).
    { intros k v Hin Hv. destruct v as [j|]; [|done]. destruct (Hv j eq_refl) as (u & -> & Hu).
      constructor; [|done]. split; [done|]. exists u. split; [done|]. by eapply public_media_url_safe. }
    assert (I : forall k lo hi v, int_field_ok lo hi v -> Forall (fun kv =>
      kv.1 = k /\ exists n, kv.2 = JNum n /\ lo <= n <= hi) (field k v)).
    { intros k lo hi v Hv. destruct v as [j|]; [|done]. destruct (Hv j eq_refl) as (n & -> & Hn).
      constructor; [|done]. split; [done|]. by exists n. }
    unfold media_record. rewrite !Forall_app. split_and!.
    + constructor; [|done]. by left.
    + eapply Forall_impl; [apply (G "url"); [set_solver|done]|]. auto.
    + eapply Forall_impl; [apply (G "thumbnail"); [set_solver|done]|]. auto.
    + eapply Forall_impl; [apply (G "source"); [set_solver|done]|]. auto.
    + eapply Forall_impl; [by apply I|]. intros kv [-> Hn]. right; right; left. split; [set_solver|done].
    + eapply Forall_impl; [by apply I|]. intros kv [-> Hn]. right; right; left. split; [set_solver|done].
    + eapply Forall_impl; [by apply I|]. auto.
Qed.

Lemma kept_typed source k v : kept source k = Some v -> field_typed k v.
Proof.
  unfold kept, field_typed. intros H. destruct (String.eqb k "engines") eqn:E1.
  { apply String.eqb_eq in E1 as ->. right; left. split; [set_solver|]. unfold engines_value in H.
    destruct (list_value source "engines") as [w|] eqn:E.
    - injection H as ->. apply list_value_spec in E as (ss & -> & Hl & Hf & _). exists ss. auto.
    - destruct (string_value source "engine") as [e|] eqn:Ee; [|done]. apply string_value_spec in Ee as (s & -> & Hs).
      injection H as <-. exists [s]. split_and!; [done|cbn; lia|]. right. split; [done|]. exists s. split; [done|lia]. }
  destruct (mem k STRING_FIELDS) eqn:E2.
  { left. split; [by apply mem_elem|]. by apply string_value_spec in H. }
  destruct (mem k LIST_FIELDS) eqn:E3.
  { right; left. split; [by apply mem_elem|]. apply list_value_spec in H as (ss & -> & Hl & Hf & _). exists ss. auto. }
  destruct (String.eqb k "volume") eqn:E4.
  { apply String.eqb_eq in E4 as ->. right; right; left. split; [done|]. unfold volume_value in H.
    destruct (jget source "volume"); try done; destruct (Nat.leb _ _) eqn:El; try done; simplify_eq; [right; by exists n|].
    left. exists s. split; [done|]. by apply Nat.leb_le. }
  destruct (String.eqb k "media") eqn:E5; [|done]. apply String.eqb_eq in E5 as ->. right; right; right. split; [done|].
  unfold media_value in H. destruct (media_metadata_shape source) as [E|(kind & u & t & s & w & h & d & E & Hok)]; rewrite E in H; [done|].
  injection H as <-. eexists. split; [reflexivity|]. by apply media_record_typed.
Qed.

Lemma field_keys k v : fst <$> field k v = match v with Some _ => [k] | None => [] end.
Proof. by destruct v. Qed.

Lemma fields_keys_sublist ks (g : string -> option json) : (fst <$> (ks ≫= (fun k => field k (g k)))) `sublist_of` ks.
Proof.
  induction ks as [|k ks IH]; cbn; [done|]. rewrite fmap_app, field_keys. destruct (g k); cbn; by constructor.
Qed.

Lemma search_metadata_keys source : NoDup (fst <$> search_metadata source).
Proof.
  unfold search_metadata. rewrite !fmap_app, !field_keys, !assoc_fields.
  change (mem "engines" LIST_FIELDS) with true. change (mem "engine" STRING_FIELDS) with true. cbv iota.
  assert (Hv : (match volume_value source with Some _ => ["volume"] | None => [] end
    ++ match media_value source with Some _ => ["media"] | None => [] end) `sublist_of` ["volume"; "media"])
    by (destruct (volume_value source), (media_value source); repeat constructor).
  pose proof (fields_keys_sublist STRING_FIELDS (string_value source)) as Hs.
  destruct (list_value source "engines") as [v|] eqn:Ee.
  - apply (sublist_NoDup _ (STRING_FIELDS ++ LIST_FIELDS ++ ["volume"; "media"])); [by apply (bool_decide_eq_true_1 _); vm_compute|].
    by repeat (apply sublist_app; [apply fields_keys_sublist|]).
  - apply (sublist_NoDup _ (STRING_FIELDS ++ tail LIST_FIELDS ++ ["engines"] ++ ["volume"; "media"]));
      [by apply (bool_decide_eq_true_1 _); vm_compute|].
    apply sublist_app; [done|]. apply sublist_app; [|apply sublist_app; [|done]].
    + change LIST_FIELDS with ("engines" :: tail LIST_FIELDS). cbn [mbind list_bind]. rewrite Ee. cbn [field app tail].
      apply (fields_keys_sublist (tail LIST_FIELDS)).
    + destruct (string_value source "engine"); repeat constructor.
Qed.


(** A private address and a signed URL are dropped, a public one is kept. *)
Example media_filter_demo :
  search_metadata (JObj [("engine", JStr "e"); ("secret", JStr "s"); ("volume", JNum 7);
    ("media", JObj [("media_type", JStr "image"); ("url", JStr "http://127.0.0.1/x.png");
       ("thumbnail", JStr "https://cdn.example/t.png?sig=1"); ("source", JStr "https://cdn.example/p?id=3"); ("width", JNum 0)])])
  = [("engine", JStr "e"); ("engines", JArr [JStr "e"]); ("volume", JNum 7);
     ("media", JObj [("media_type", JStr "image"); ("source", JStr "https://cdn.example/p?id=3")])].
Proof. vm_compute. reflexivity. Qed.
