(* ===== verification/Hybrid.v ===== *)
(** * Hybrid retrieval ([src/agent-svc/agent/research/hybrid.py])

    Two discovery branches answer a query: a web search and a vector search.
    [collect_candidates] identifies their results by a normalised URL and
    [blend] merges the two rankings into at most [limit] results.  Results are
    JSON objects; [repr] is Python's [str] on a list or an object.

    The theorems: the merged list has no duplicate and no stranger, is as long as
    it can be, keeps each source's own ranking among its exclusive results, and
    falls back to the ranking of one source when the other has nothing; both
    sources have a result in it.  What the module documents beyond that, a place
    for an exclusive result of each source, does not hold. *)

From stdpp Require Import pretty.
From S2P Require Import Prelude Strings Url Json SearchMeta.

(** ** Normalised URLs *)

Definition is_default_port (scheme : string) (port : Z) : bool :=
  (String.eqb scheme "http" && (port =? 80)) || (String.eqb scheme "https" && (port =? 443)).

(** [_normalize_url_for_blend]. *)
Definition normalize_url_for_blend (url : string) : string :=
  match urlparse url with
  | None => url
  | Some parsed =>
      match port parsed with
      | None => url
      | Some p =>
          let scheme := lower (scheme parsed) in
          let host := lower (hostname parsed) in
          if is_empty host then url
          else
            let display_host := if contains ":" host then "[" +:+ host +:+ "]" else host in
            let display_host := match p with
                                | Some n => if is_default_port scheme n then display_host
                                            else display_host +:+ ":" +:+ pretty n
                                | None => display_host
                                end in
            let path := rstrip is_slash (path parsed) in
            let path := if is_empty path then "/" else path in
            let normalized := scheme +:+ "://" +:+ display_host +:+ path in
            if is_empty (query parsed) then normalized else normalized +:+ "?" +:+ query parsed
      end
  end.

(** ** Candidates *)

Inductive retrieval := Web | Vector | Both.
#[global] Instance retrieval_eq_dec : EqDecision retrieval.
Proof. solve_decision. Defined.

Record candidate := mkCandidate {
  c_url : string;
  c_title : json;
  c_description : json;
  c_metadata : list (string * json);
  c_score : json;
  c_retrieval : retrieval;
  c_web_rank : option nat;
  c_vector_rank : option nat
}.

Section Collect.
Context (repr : json -> string).

(** [str(result.get("url") or "").strip()]. *)
Definition result_url (result : json) : string :=
  strip match jor (jget result "url") (JStr "") with
        | JStr s => s
        | JNum n => pretty n
        | JBool b => if b then "True" else "False"
        | j => repr j
        end.

Record collected := mkCollected {
  web_order : list string;
  vector_order : list string;
  by_norm : gmap string candidate
}.

(** One web result; [seen_web] has the elements of [web_order]. *)
Definition collect_web (s : collected) (ranked : nat * json) : collected :=
  let '(rank, result) := ranked in
  let url := result_url result in
  if is_empty url then s
  else
    let norm := normalize_url_for_blend url in
    if bool_decide (norm ∈ web_order s) then s
    else mkCollected (web_order s ++ [norm]) (vector_order s)
           (<[norm := mkCandidate url (jget_default result "title" (JStr "")) (jget_default result "description" (JStr ""))
                        (search_metadata result) JNull Web (Some rank) None]> (by_norm s)).

Definition collect_vector (s : collected) (ranked : nat * json) : collected :=
  let '(rank, result) := ranked in
  let url := result_url result in
  if is_empty url then s
  else
    let norm := normalize_url_for_blend url in
    if bool_decide (norm ∈ vector_order s) then s
    else
      let score := jget result "score" in
      let c := match by_norm s !! norm with
               | None => mkCandidate url (jget_default result "title" (JStr "")) (JStr "") [] score Vector None (Some rank)
               | Some c => mkCandidate (c_url c) (c_title c) (c_description c) (c_metadata c)
                             (match c_score c with JNull => score | sc => sc end) Both (c_web_rank c) (Some rank)
               end in
      mkCollected (web_order s) (vector_order s ++ [norm]) (<[norm := c]> (by_norm s)).

Fixpoint enumerate {A} (n : nat) (l : list A) : list (nat * A) :=
  match l with [] => [] | x :: l => (n, x) :: enumerate (S n) l end.

(** [_collect_candidates]. *)
Definition collect_candidates (web_results vector_results : list json) : collected :=
  foldl collect_vector (foldl collect_web (mkCollected [] [] ∅) (enumerate 0 web_results)) (enumerate 0 vector_results).

End Collect.

(** ** Blending *)

(** [result], as the normalised URLs of its candidates; [seen] has the same elements. *)
Fixpoint take_from (limit : Z) (order : list string) (count : Z) (result : list string) : list string :=
  match order with
  | [] => result
  | norm :: order =>
      if (count <=? 0) || (limit <=? Z.of_nat (length result)) then result
      else if bool_decide (norm ∈ result) then take_from limit order count result
      else take_from limit order (count - 1) (result ++ [norm])
  end.

Fixpoint skip_seen (order result : list string) : list string :=
  match order with
  | [] => []
  | norm :: rest => if bool_decide (norm ∈ result) then skip_seen rest result else order
  end.

(** One round of the interleaving loop: the orders (their parts from [web_idx] and
    [vector_idx] on), the result, and whether it advanced. *)
Definition blend_round (limit : Z) (web vector result : list string) : list string * list string * list string * bool :=
  let '(web, result, advanced) :=
    match skip_seen web result with [] => ([], result, false) | w :: web => (web, result ++ [w], true) end in
  let '(vector, result, advanced) :=
    match skip_seen vector result with
    | [] => ([], result, advanced)
    | v :: rest => if Z.of_nat (length result) <? limit then (rest, result ++ [v], true) else (v :: rest, result, advanced)
    end in
  (web, vector, result, advanced).

Fixpoint interleave (fuel : nat) (limit : Z) (web vector result : list string) : option (list string) :=
  match fuel with
  | O => None
  | S fuel =>
      if (Z.of_nat (length result) <? limit) && negb (bool_decide (web = []) && bool_decide (vector = [])) then
        let '(web, vector, result, advanced) := blend_round limit web vector result in
        if advanced then interleave fuel limit web vector result else Some result
      else Some result
  end.

Definition has_retrieval (s : collected) (r : retrieval) (order : list string) : bool :=
  existsb (fun norm => match by_norm s !! norm with Some c => bool_decide (c_retrieval c = r) | None => false end) order.

Definition floors (s : collected) (limit : Z) : Z * Z :=
  let floor_web := Z.max 0 (limit - Z.of_nat (length (vector_order s))) in
  let floor_vector := Z.max 0 (limit - Z.of_nat (length (web_order s))) in
  ((if has_retrieval s Web (web_order s) && negb (bool_decide (vector_order s = [])) then Z.max floor_web 1 else floor_web),
   (if has_retrieval s Vector (vector_order s) && negb (bool_decide (web_order s = [])) then Z.max floor_vector 1
    else floor_vector)).

(** The normalised URLs of [_blend]'s result; each round of the loop shortens an order. *)
Definition blend_fuel (s : collected) : nat := S (length (web_order s) + length (vector_order s)).

Definition blend_norms (s : collected) (limit : Z) : option (list string) :=
  let '(floor_web, floor_vector) := floors s limit in
  interleave (blend_fuel s) limit (web_order s) (vector_order s)
    (take_from limit (vector_order s) floor_vector (take_from limit (web_order s) floor_web [])).

(** [_blend]; [by_norm[norm]] raises [KeyError] on a URL that was not collected. *)
Definition blend (s : collected) (limit : Z) : option (list candidate) :=
  norms ← blend_norms s limit; mapM (fun norm => by_norm s !! norm) norms.

(** [plan_hybrid_retrieval] between discovery and acquisition: a branch that
    fails or is disabled answers with no results. *)
Definition plan_results (repr : json -> string) (web_results vector_results : list json) (limit : Z) : option (list candidate) :=
  blend (collect_candidates repr web_results vector_results) limit.

(** ** What is collected *)

(** The provenance recorded for a URL, from the orders it is in. *)
Definition provenance (s : collected) (norm : string) : option retrieval :=
  match bool_decide (norm ∈ web_order s), bool_decide (norm ∈ vector_order s) with
  | true, true => Some Both
  | true, false => Some Web
  | false, true => Some Vector
  | false, false => None
  end.

Record wf_collected (s : collected) : Prop := mkWf {
  wf_web : NoDup (web_order s);
  wf_vector : NoDup (vector_order s);
  wf_prov : forall norm, c_retrieval <$> by_norm s !! norm = provenance s norm;
  wf_url : forall norm c, by_norm s !! norm = Some c -> normalize_url_for_blend (c_url c) = norm
}.

Section CollectFacts.
Context (repr : json -> string).

Lemma collect_web_wf s ranked : wf_collected s -> vector_order s = [] -> wf_collected (collect_web repr s ranked).
Proof.
  intros [W1 W2 W3 W4] HV. destruct ranked as [rank result]. unfold collect_web. case_match; [by split|].
  set (norm := normalize_url_for_blend _). case_bool_decide as Hn; [by split|]. split; cbn.
  - by apply nodup_snoc.
  - done.
  - intros n. unfold provenance. cbn. rewrite HV. destruct (decide (norm = n)) as [<-|Hne].
    + rewrite lookup_insert_eq. cbn. rewrite bool_decide_true by (rewrite elem_of_snoc; auto). done.
    + rewrite lookup_insert_ne, W3 by done. unfold provenance. rewrite HV.
      by rewrite (bool_decide_ext (n ∈ web_order s ++ [norm]) (n ∈ web_order s)) by (rewrite elem_of_snoc; naive_solver).
  - intros n c. rewrite lookup_insert_Some. intros [[<- <-]|[_ ?]]; [done|eauto].
Qed.

Lemma collect_vector_wf s ranked : wf_collected s -> wf_collected (collect_vector repr s ranked).
Proof.
  intros [W1 W2 W3 W4]. destruct ranked as [rank result]. unfold collect_vector. case_match; [by split|].
  set (norm := normalize_url_for_blend _). case_bool_decide as Hn; [by split|]. split; cbn.
  - done.
  - by apply nodup_snoc.
  - intros n. unfold provenance. cbn. destruct (decide (norm = n)) as [<-|Hne].
    + rewrite lookup_insert_eq. cbn. rewrite (bool_decide_true (norm ∈ _ ++ _)) by (rewrite elem_of_snoc; auto).
      specialize (W3 norm). unfold provenance in W3. rewrite (bool_decide_false (norm ∈ vector_order s)) in W3 by done.
      destruct (by_norm s !! norm), (bool_decide (norm ∈ web_order s)); done.
    + rewrite lookup_insert_ne, W3 by done. unfold provenance.
      by rewrite (bool_decide_ext (n ∈ vector_order s ++ [norm]) (n ∈ vector_order s)) by (rewrite elem_of_snoc; naive_solver).
  - intros n c. rewrite lookup_insert_Some. intros [[<- <-]|[_ ?]]; [|eauto].
    destruct (by_norm s !! norm) eqn:E; cbn; [by apply W4|done].
Qed.

Lemma collect_wf web vec : wf_collected (collect_candidates repr web vec).
Proof.
  unfold collect_candidates. generalize (enumerate 0 web), (enumerate 0 vec). intros lw lv.
  assert (forall s, wf_collected s -> vector_order s = [] ->
    wf_collected (foldl (collect_web repr) s lw)) as HW.
  { induction lw as [|r lw IH]; intros s Hs Hv; cbn; [done|]. apply IH; [by apply collect_web_wf|].
    destruct r as [rank result]. unfold collect_web. by repeat case_match. }
  assert (forall s, wf_collected s -> wf_collected (foldl (collect_vector repr) s lv)) as HV.
  { induction lv as [|r lv IH]; intros s Hs; cbn; [done|]. by apply IH, collect_vector_wf. }
  apply HV, HW; [|done]. split; cbn; [constructor|constructor|done|]. intros norm c H. by rewrite lookup_empty in H.
Qed.

End CollectFacts.

Lemma wf_present s norm : wf_collected s -> (norm ∈ web_order s \/ norm ∈ vector_order s <-> is_Some (by_norm s !! norm)).
Proof.
  intros HW. pose proof (wf_prov s HW norm) as H. unfold provenance in H.
  do 2 case_bool_decide; destruct (by_norm s !! norm); cbn in H; simplify_eq; split; intros; eauto; try tauto;
    by destruct H.
Qed.

Lemma has_retrieval_spec s r order : wf_collected s ->
  has_retrieval s r order = true <-> exists norm, norm ∈ order /\ provenance s norm = Some r.
Proof.
  intros HW. unfold has_retrieval. rewrite existsb_exists. split.
  - intros (n & Hn & H). exists n. rewrite list_elem_of_In. split; [done|]. rewrite <- (wf_prov s HW).
    destruct (by_norm s !! n); [|done]. by apply bool_decide_eq_true in H as <-.
  - intros (n & Hn & H). exists n. rewrite <- list_elem_of_In. split; [done|]. rewrite <- (wf_prov s HW) in H.
    destruct (by_norm s !! n); [|done]. apply bool_decide_eq_true. by injection H.
Qed.

(** ** The shape of a merge *)

Section Merge.
Context (W V : list string) (HW : NoDup W) (HV : NoDup V) (limit : Z).

(** Every result so far comes from an order, once, within the limit; the exclusive
    results of each order are the first ones of that order. *)
Definition exclusive (other order : list string) : list string := filter (fun n => n ∉ other) order.
Definition unseen (result order : list string) : list string := filter (fun n => n ∉ result) order.

Record merged (r : list string) : Prop := mkMerged {
  mg_nodup : NoDup r;
  mg_from : forall n, n ∈ r -> n ∈ W \/ n ∈ V;
  mg_len : Z.of_nat (length r) <= Z.max 0 limit;
  mg_web : exclusive V r ++ exclusive V (unseen r W) = exclusive V W;
  mg_vector : exclusive W r ++ exclusive W (unseen r V) = exclusive W V
}.

Lemma unseen_snoc r n l : unseen (r ++ [n]) l = filter (fun x => x <> n) (unseen r l).
Proof.
  unfold unseen. rewrite list_filter_filter. apply filter_ext_in. intros x _. rewrite elem_of_snoc. tauto.
Qed.

Lemma exclusive_unseen_snoc other r n l : n ∈ other -> exclusive other (unseen (r ++ [n]) l) = exclusive other (unseen r l).
Proof.
  intros Hn. rewrite unseen_snoc. unfold exclusive. rewrite list_filter_filter. apply filter_ext_in.
  intros x _. split; [tauto|]. intros Hx. split; [done|]. by intros ->.
Qed.

(** The first result of an order that was not taken yet. *)
Lemma unseen_head r order pre n rest : order = pre ++ n :: rest -> (forall x, x ∈ pre -> x ∈ r) -> n ∉ r ->
  unseen r order = n :: unseen r rest.
Proof.
  intros -> Hpre Hn. unfold unseen. rewrite filter_app, filter_cons_True by done.
  rewrite (filter_none _ pre); [done|]. intros x Hx. specialize (Hpre x Hx). tauto.
Qed.
End Merge.

Lemma merged_sym W V limit r : merged W V limit r -> merged V W limit r.
Proof. intros []. split; auto. intros n Hn. apply or_comm. auto. Qed.

Lemma merged_push W V limit r n pre rest :
  NoDup W -> merged W V limit r -> Z.of_nat (length r) < limit ->
  W = pre ++ n :: rest -> (forall x, x ∈ pre -> x ∈ r) -> n ∉ r -> merged W V limit (r ++ [n]).
Proof.
  intros HW [] Hlt E Hpre Hn. assert (Hin : n ∈ W) by (rewrite E; set_solver).
  pose proof (unseen_head r W pre n rest E Hpre Hn) as Hu. split.
  - by apply nodup_snoc.
  - intros x [?| ->]%elem_of_snoc; auto.
  - rewrite length_app. cbn. lia.
  - rewrite unseen_snoc, Hu, filter_cons_False by tauto. rewrite filter_all.
    + rewrite Hu in mg_web0. rewrite <- mg_web0. unfold exclusive. rewrite filter_app, <- app_assoc. f_equal.
      destruct (decide (n ∈ V)); [rewrite !filter_cons_False by tauto|rewrite !filter_cons_True by tauto]; done.
    + intros x [_ Hx]%list_elem_of_filter ->. rewrite E in HW. apply NoDup_app in HW as (_ & _ & HW).
      by apply NoDup_cons in HW as [? _].
  - rewrite exclusive_unseen_snoc by done. unfold exclusive in *. rewrite filter_app, filter_cons_False by tauto.
    cbn. by rewrite app_nil_r.
Qed.

(** ** Taking from one order *)

Lemma take_from_spec W V limit order : forall pre count r,
  NoDup W -> W = pre ++ order -> (forall x, x ∈ pre -> x ∈ r) -> merged W V limit r ->
  let r' := take_from limit order count r in
  merged W V limit r' /\ r `prefix_of` r' /\
  Z.of_nat (length r') <= Z.of_nat (length r) + Z.max 0 count /\
  (forall n, n ∈ r' -> n ∈ r \/ n ∈ order) /\
  (0 < count -> Z.of_nat (length r) < limit -> order <> [] -> exists n, n ∈ order /\ n ∈ r').
Proof.
  induction order as [|n order IH]; intros pre count r HW E Hpre HM; cbn zeta; cbn [take_from].
  { split_and!; try done; [lia|auto]. }
  destruct (_ || _) eqn:Hstop.
  { split_and!; try done; [lia|auto|]. intros. apply orb_true_iff in Hstop as [?|?]; bool_to_prop; lia. }
  apply orb_false_iff in Hstop as [H1 H2]. bool_to_prop. case_bool_decide as Hn.
  - destruct (IH (pre ++ [n]) count r) as (I1 & I2 & I3 & I4 & _); [done|by rewrite <- app_assoc|..].
    { intros x [?| ->]%elem_of_snoc; auto. }
    { done. }
    split_and!; try done; [intros x Hx; rewrite elem_of_cons; destruct (I4 x Hx); auto|].
    intros _ _ _. exists n. split; [by left|]. destruct I2 as [k ->]. apply elem_of_app. by left.
  - assert (HM' : merged W V limit (r ++ [n])) by (eapply merged_push; eauto; lia).
    destruct (IH (pre ++ [n]) (count - 1) (r ++ [n])) as (I1 & I2 & I3 & I4 & _); [done|by rewrite <- app_assoc|..].
    { intros x [?| ->]%elem_of_snoc; apply elem_of_snoc; auto. }
    { done. }
    split; [done|]. split; [etransitivity; [by apply prefix_app_r|done]|].
    rewrite length_app in I3. cbn in I3. split; [lia|]. split.
    { intros x Hx. rewrite elem_of_cons. destruct (I4 x Hx) as [[?|?]%elem_of_snoc|?]; auto. }
    intros _ _ _. exists n. split; [by left|].
    destruct I2 as [k ->]. apply elem_of_app. left. apply elem_of_snoc. auto.
Qed.

(** ** Interleaving *)

Lemma skip_seen_spec order r : exists p, order = p ++ skip_seen order r /\ (forall x, x ∈ p -> x ∈ r) /\
  (forall n rest, skip_seen order r = n :: rest -> n ∉ r).
Proof.
  induction order as [|n order (p & E & Hp & Hn)]; cbn.
  { exists []. split; [done|]. split; [|done]. intros x Hx. by apply not_elem_of_nil in Hx. }
  case_bool_decide as H.
  - exists (n :: p). cbn. split; [by rewrite <- E|]. split; [|done]. intros x [->|?]%elem_of_cons; auto.
  - exists []. split; [done|]. split; [|by intros ? ? [= <- <-]]. intros x Hx. by apply not_elem_of_nil in Hx.
Qed.

(** What is left of an order, once the results before it are taken. *)
Definition taken (order rest r : list string) : Prop := exists pre, order = pre ++ rest /\ forall x, x ∈ pre -> x ∈ r.

Lemma taken_skip order rest r : taken order rest r -> taken order (skip_seen rest r) r.
Proof.
  intros (pre & -> & Hpre). destruct (skip_seen_spec rest r) as (p & E & Hp & _). exists (pre ++ p). split.
  - rewrite <- app_assoc. by rewrite <- E.
  - intros x [?|?]%elem_of_app; auto.
Qed.

Lemma taken_mono order rest r r' : taken order rest r -> r `prefix_of` r' -> taken order rest r'.
Proof. intros (pre & -> & Hpre) [k ->]. exists pre. split; [done|]. intros x Hx. apply elem_of_app. auto. Qed.

Lemma taken_next order n rest r : taken order (n :: rest) r -> taken order rest (r ++ [n]).
Proof.
  intros (pre & -> & Hpre). exists (pre ++ [n]). rewrite <- app_assoc. split; [done|].
  intros x [?| ->]%elem_of_snoc; apply elem_of_snoc; auto.
Qed.

Lemma skip_seen_length order r : (length (skip_seen order r) <= length order)%nat.
Proof. induction order as [|n order IH]; cbn; [done|]. case_bool_decide; cbn; lia. Qed.

Lemma skip_seen_unseen order r n rest : skip_seen order r = n :: rest -> n ∉ r.
Proof. destruct (skip_seen_spec order r) as (p & _ & _ & H). apply H. Qed.

(** A step of the loop that takes the next result of the second order. *)
Lemma push_vector W V limit r v rest :
  NoDup V -> taken V (v :: rest) r -> v ∉ r -> Z.of_nat (length r) < limit -> merged W V limit r ->
  merged W V limit (r ++ [v]).
Proof.
  intros HV (pre & E & Hpre) Hv Hlt HM. apply merged_sym. eapply merged_push; eauto using merged_sym.
Qed.

Lemma round_vector W V limit web r vector :
  NoDup V -> taken W web r -> taken V vector r -> merged W V limit r ->
  forall adv vector' r' adv',
  (match skip_seen vector r with
   | [] => ([], r, adv)
   | v :: rest => if Z.of_nat (length r) <? limit then (rest, r ++ [v], true) else (v :: rest, r, adv)
   end) = (vector', r', adv') ->
  merged W V limit r' /\ r `prefix_of` r' /\ taken W web r' /\ taken V vector' r' /\
  (adv = true -> adv' = true) /\
  (adv' = true -> adv = true /\ (length vector' <= length vector)%nat \/ (length vector' < length vector)%nat) /\
  (adv' = false -> r' = r /\ (Z.of_nat (length r) < limit -> vector' = [])).
Proof.
  intros HV Tw Tv HM adv vector' r' adv' E. pose proof (taken_skip _ _ _ Tv) as Ts.
  pose proof (skip_seen_length vector r) as L. destruct (skip_seen vector r) as [|v rest] eqn:Ev.
  - simplify_eq. split_and!; try done. intros ->. left. cbn. split; [done|lia].
  - destruct (Z.ltb_spec (Z.of_nat (length r)) limit) as [Hlt|Hge]; simplify_eq.
    + split_and!; try done; [by eapply push_vector; eauto using skip_seen_unseen|by apply prefix_app_r| |by apply taken_next|].
      * eapply taken_mono; [done|by apply prefix_app_r].
      * intros _. right. cbn in L. lia.
    + split_and!; try done; [intros ->; left; split; [done|cbn in *; lia]|intros _; split; [done|lia]].
Qed.

Lemma round_spec W V limit web vector r web' vector' r' adv :
  NoDup W -> NoDup V -> Z.of_nat (length r) < limit -> taken W web r -> taken V vector r -> merged W V limit r ->
  blend_round limit web vector r = (web', vector', r', adv) ->
  merged W V limit r' /\ r `prefix_of` r' /\ taken W web' r' /\ taken V vector' r' /\
  (adv = true -> (length web' + length vector' < length web + length vector)%nat) /\
  (adv = false -> web' = [] /\ vector' = []) /\
  (web <> [] -> exists n, n ∈ W /\ n ∈ r').
Proof.
  intros HW HV Hlt Tw Tv HM. unfold blend_round. pose proof (taken_skip _ _ _ Tw) as Ts.
  pose proof (skip_seen_length web r) as L. destruct (skip_seen web r) as [|w rest] eqn:Ew.
  - destruct (match skip_seen vector r with [] => _ | _ => _ end) as [[vec2 r2] adv2] eqn:E. intros [= <- <- <- <-].
    destruct (round_vector _ _ _ _ _ _ HV Ts Tv HM _ _ _ _ E) as (R1 & R2 & R3 & R4 & _ & R6 & R7).
    split_and!; try done.
    + intros Ha. destruct (R6 Ha) as [[? _]|?]; [done|]. cbn. lia.
    + intros Ha. destruct (R7 Ha) as [_ ->]; done.
    + destruct (skip_seen_spec web r) as (p & Ep & Hp & _). rewrite Ew, app_nil_r in Ep. subst p.
      destruct web as [|n web]; [done|]. intros _. exists n. destruct R2 as [k ->]. rewrite elem_of_app.
      split; [|left; apply Hp; by left]. destruct Tw as (pre & -> & _). apply elem_of_app. right. by left.
  - assert (HM1 : merged W V limit (r ++ [w])).
    { destruct Ts as (pre & E & Hpre). eapply merged_push; eauto using skip_seen_unseen. }
    assert (Hin : w ∈ W) by (destruct Ts as (pre & -> & _); apply elem_of_app; right; by left).
    apply taken_next in Ts. assert (Hp : r `prefix_of` r ++ [w]) by (by apply prefix_app_r).
    destruct (match skip_seen vector (r ++ [w]) with [] => _ | _ => _ end) as [[vec2 r2] adv2] eqn:E. intros [= <- <- <- <-].
    destruct (round_vector _ _ _ _ _ _ HV Ts (taken_mono _ _ _ _ Tv Hp) HM1 _ _ _ _ E) as (R1 & R2 & R3 & R4 & R5 & R6 & _).
    specialize (R5 eq_refl). subst adv2. split_and!; try done; [by etransitivity| |].
    + intros _. cbn in L. destruct (R6 eq_refl) as [[_ ?]|?]; lia.
    + intros _. exists w. split; [done|]. destruct R2 as [k ->]. rewrite !elem_of_app, list_elem_of_singleton. auto.
Qed.

Lemma interleave_spec W V limit (HW : NoDup W) (HV : NoDup V) fuel : forall web vector r,
  (length web + length vector < fuel)%nat -> taken W web r -> taken V vector r -> merged W V limit r ->
  exists r', interleave fuel limit web vector r = Some r' /\ merged W V limit r' /\ r `prefix_of` r' /\
    (limit <= Z.of_nat (length r') \/ (forall n, n ∈ W \/ n ∈ V -> n ∈ r')) /\
    (Z.of_nat (length r) < limit -> web <> [] -> exists n, n ∈ W /\ n ∈ r').
Proof.
  induction fuel as [|fuel IH]; intros web vector r Hf Hw Hv HM; [lia|]. cbn [interleave].
  assert (Hdone : forall r', taken W [] r' -> taken V [] r' -> forall n, n ∈ W \/ n ∈ V -> n ∈ r').
  { intros r' (p & E1 & H1) (q & E2 & H2) n. rewrite app_nil_r in E1, E2. subst. naive_solver. }
  destruct (_ && _) eqn:Hgo.
  - apply andb_true_iff in Hgo as [Hlt%Z.ltb_lt _].
    destruct (blend_round limit web vector r) as [[[web' vector'] r1] adv] eqn:E.
    destruct (round_spec _ _ _ _ _ _ _ _ _ _ HW HV Hlt Hw Hv HM E) as (R1 & R2 & R3 & R4 & R5 & R6 & R7).
    destruct adv.
    + destruct (IH web' vector' r1) as (r' & I1 & I2 & I3 & I4 & _); [specialize (R5 eq_refl); lia|done..|].
      exists r'. split_and!; try done; [by etransitivity|]. intros _ Hne. destruct (R7 Hne) as (n & ? & ?).
      exists n. split; [done|]. destruct I3 as [k ->]. apply elem_of_app. auto.
    + destruct (R6 eq_refl) as [-> ->]. exists r1. split_and!; try done. right. by apply Hdone.
  - exists r. split_and!; try done; apply andb_false_iff in Hgo as [Hl|Hl].
    + apply Z.ltb_ge in Hl. by left.
    + apply negb_false_iff, andb_true_iff in Hl as [->%bool_decide_eq_true ->%bool_decide_eq_true]. right. by apply Hdone.
    + apply Z.ltb_ge in Hl. lia.
    + apply negb_false_iff, andb_true_iff in Hl as [->%bool_decide_eq_true _]. done.
Qed.

(** ** The theorems *)

Lemma take_none W V limit : NoDup W -> NoDup V -> merged W V limit [].
Proof.
  intros HW HV. split; cbn; [constructor| |lia|..].
  - intros n Hn. by apply not_elem_of_nil in Hn.
  - unfold unseen. rewrite filter_all; [done|]. intros x _. apply not_elem_of_nil.
  - unfold unseen. rewrite filter_all; [done|]. intros x _. apply not_elem_of_nil.
Qed.

Lemma taken_all W r : taken W W r.
Proof. exists []. split; [done|]. intros x Hx. by apply not_elem_of_nil in Hx. Qed.

Lemma floors_bounds s limit fw fv : wf_collected s -> 2 <= limit -> web_order s <> [] -> vector_order s <> [] ->
  forall v, v ∈ vector_order s -> v ∉ web_order s -> floors s limit = (fw, fv) -> fw <= limit - 1 /\ 1 <= fv <= limit - 1.
Proof.
  intros HS Hlim HW HV v Hv Hvw Ef. unfold floors in Ef. assert (has_retrieval s Vector (vector_order s) = true) as Hr.
  { apply has_retrieval_spec; [done|]. exists v. split; [done|]. unfold provenance.
    by rewrite bool_decide_false, bool_decide_true. }
  rewrite Hr, !(bool_decide_false (_ = [])) in Ef by done. cbn in Ef. injection Ef as <- <-. clear Hr Hv Hvw.
  destruct (has_retrieval _ _ _); cbn; destruct (web_order s); try done; destruct (vector_order s); try done; cbn; lia.
Qed.

(** The two floors, then the loop. *)
Lemma blend_norms_spec s limit : wf_collected s ->
  exists r, blend_norms s limit = Some r /\ merged (web_order s) (vector_order s) limit r /\
    (limit <= Z.of_nat (length r) \/ (forall n, n ∈ web_order s \/ n ∈ vector_order s -> n ∈ r)) /\
    (2 <= limit -> web_order s <> [] -> (exists n, n ∈ vector_order s /\ n ∉ web_order s) ->
     (exists n, n ∈ web_order s /\ n ∈ r) /\ (exists n, n ∈ vector_order s /\ n ∈ r)).
Proof.
  intros HS. pose proof (wf_web s HS) as HW. pose proof (wf_vector s HS) as HV. unfold blend_norms.
  destruct (floors s limit) as [fw fv] eqn:Ef. set (W := web_order s) in *. set (V := vector_order s) in *.
  assert (H0 : forall r x, x ∈ ([] : list string) -> x ∈ (r : list string)) by (by intros r x Hx%not_elem_of_nil).
  destruct (take_from_spec W V limit W [] fw [] HW eq_refl (H0 []) (take_none _ _ _ HW HV)) as (A1 & A2 & A3 & A4 & _).
  set (r0 := take_from limit W fw []) in *.
  destruct (take_from_spec V W limit V [] fv r0 HV eq_refl (H0 r0) (merged_sym _ _ _ _ A1)) as (B1 & B2 & B3 & _ & B5).
  set (r1 := take_from limit V fv r0) in *. apply merged_sym in B1.
  destruct (interleave_spec W V limit HW HV (blend_fuel s) W V r1) as (r & C1 & C2 & C3 & C4 & C5);
    [unfold blend_fuel; fold W V; lia|apply taken_all|apply taken_all|done|].
  exists r. split; [done|]. split; [done|]. split; [done|]. intros Hlim Hne (v & Hv & Hvw).
  assert (HVne : V <> []) by (intros E; rewrite E in Hv; by apply not_elem_of_nil in Hv).
  pose proof (floors_bounds s limit fw fv HS Hlim Hne HVne v Hv Hvw Ef) as Hfl.
  assert (Hmono : forall n k, k `prefix_of` r -> n ∈ k -> n ∈ r) by (intros n k [x ->] ?; apply elem_of_app; auto).
  cbn in A3. split.
  - destruct (decide (Z.of_nat (length r1) < limit)) as [Hlt|Hge]; [by apply C5|].
    destruct r0 as [|n r0'] eqn:Er0; [cbn in B3; lia|]. exists n.
    destruct (A4 n) as [Hn|Hn]; [by left|by apply not_elem_of_nil in Hn|]. split; [done|].
    apply (Hmono n (n :: r0')); [by etransitivity|by left].
  - destruct B5 as (n & Hn & Hr); [lia|lia|done|]. exists n. split; [done|]. by apply (Hmono n r1).
Qed.

Definition norms (l : list candidate) : list string := (fun c => normalize_url_for_blend (c_url c)) <$> l.

(** Every URL of the merge has its candidate. *)
Lemma blend_candidates s limit r : wf_collected s -> blend_norms s limit = Some r ->
  merged (web_order s) (vector_order s) limit r ->
  exists l, blend s limit = Some l /\ norms l = r /\ Forall (fun c => by_norm s !! normalize_url_for_blend (c_url c) = Some c) l.
Proof.
  intros HS Hr [_ HF _ _ _]. unfold blend. rewrite Hr. cbn. clear Hr. induction r as [|n r IH].
  - exists []. split_and!; [done|done|constructor].
  - destruct IH as (l & E & En & HA); [intros; apply HF; by right|].
    destruct (proj1 (wf_present s n HS)) as [c Hc]; [apply HF; by left|].
    exists (c :: l). cbn. rewrite Hc. cbn. rewrite E. cbn. pose proof (wf_url s HS n c Hc) as Hu.
    split; [done|]. split; [unfold norms in *; cbn; by rewrite Hu, En|]. constructor; [congruence|done].
Qed.

Lemma prefix_take {A} (l k : list A) : l `prefix_of` k -> l = take (length l) k.
Proof. intros [x ->]. by rewrite take_app_length. Qed.

(** One source only: its ranking, cut at the limit. *)
Lemma merged_alone W limit r : merged W [] limit r ->
  (limit <= Z.of_nat (length r) \/ (forall n, n ∈ W \/ n ∈ [] -> n ∈ r)) -> r = take (Z.to_nat limit) W.
Proof.
  intros [M1 M2 M3 M4 _] Hend. unfold exclusive in M4. rewrite !filter_all in M4 by (intros; apply not_elem_of_nil).
  assert (Hp : r `prefix_of` W) by (eexists; by symmetry). rewrite (prefix_take _ _ Hp).
  destruct Hend as [H|H]; [f_equal; lia|]. assert (unseen r W = []) as Hu.
  { apply filter_none. intros x Hx Hnot. apply Hnot, H. by left. }
  rewrite Hu, app_nil_r in M4. subst r. rewrite !take_ge; [done| |done]. lia.
Qed.

(**  Whatever the two searches return, a plan is made: at most [limit]
    candidates, no two with the same normalised URL, each one that was collected
    with its recorded provenance, and as many as there are if the limit leaves
    room.  Among the results found by one source only, those of the plan are the
    best-ranked ones of that source, in its order. *)
Theorem hybrid_plan repr web vec limit :
  let s := collect_candidates repr web vec in
  exists l, plan_results repr web vec limit = Some l /\
    NoDup (norms l) /\ Z.of_nat (length l) <= Z.max 0 limit /\
    Forall (fun c => by_norm s !! normalize_url_for_blend (c_url c) = Some c) l /\
    (limit <= Z.of_nat (length l) \/ forall norm, is_Some (by_norm s !! norm) -> norm ∈ norms l) /\
    exclusive (vector_order s) (norms l) `prefix_of` exclusive (vector_order s) (web_order s) /\
    exclusive (web_order s) (norms l) `prefix_of` exclusive (web_order s) (vector_order s).
Proof.
  cbn zeta. pose proof (collect_wf repr web vec) as HS. set (s := collect_candidates repr web vec) in *.
  destruct (blend_norms_spec s limit HS) as (r & Hr & HM & Hend & _).
  destruct (blend_candidates s limit r HS Hr HM) as (l & Hl & <- & HA).
  assert (length (norms l) = length l) as HL by apply length_fmap. exists l. split; [exact Hl|].
  destruct HM as [M1 M2 M3 M4 M5]. rewrite HL in M3, Hend. split_and!; try done.
  - destruct Hend as [?|Hall]; [by left|right]. intros n Hn. apply Hall. by apply wf_present.
  - eexists. by symmetry.
  - eexists. by symmetry.
Qed.

Lemma collect_web_keeps repr lw s : vector_order (foldl (collect_web repr) s lw) = vector_order s.
Proof.
  revert s. induction lw as [|[rank result] lw IH]; intros s; cbn; [done|]. rewrite IH. by repeat case_match.
Qed.
Lemma collect_vector_keeps repr lv s : web_order (foldl (collect_vector repr) s lv) = web_order s.
Proof.
  revert s. induction lv as [|[rank result] lv IH]; intros s; cbn; [done|]. rewrite IH. by repeat case_match.
Qed.

(**  When one of the searches fails, is disabled or finds nothing, the plan is
    the ranking of the other, without duplicates, cut at the limit. *)
Theorem hybrid_degrades repr results limit :
  (exists l, plan_results repr results [] limit = Some l /\
     norms l = take (Z.to_nat limit) (web_order (collect_candidates repr results []))) /\
  (exists l, plan_results repr [] results limit = Some l /\
     norms l = take (Z.to_nat limit) (vector_order (collect_candidates repr [] results))).
Proof.
  split.
  - pose proof (collect_wf repr results []) as HS. set (s := collect_candidates repr results []) in *.
    destruct (blend_norms_spec s limit HS) as (r & Hr & HM & Hend & _).
    destruct (blend_candidates s limit r HS Hr HM) as (l & Hl & <- & _). exists l. split; [exact Hl|].
    assert (HV : vector_order s = []) by (apply (collect_web_keeps repr (enumerate 0 results) (mkCollected [] [] ∅))).
    rewrite HV in HM, Hend. by apply merged_alone.
  - pose proof (collect_wf repr [] results) as HS. set (s := collect_candidates repr [] results) in *.
    destruct (blend_norms_spec s limit HS) as (r & Hr & HM & Hend & _).
    destruct (blend_candidates s limit r HS Hr HM) as (l & Hl & <- & _). exists l. split; [exact Hl|].
    assert (HV : web_order s = []) by (apply (collect_vector_keeps repr (enumerate 0 results) (mkCollected [] [] ∅))).
    rewrite HV in HM, Hend. apply merged_alone; [by apply merged_sym|]. destruct Hend as [?|H]; [by left|right].
    intros n Hn. apply H. tauto.
Qed.

(**  Neither source is starved: with room for two results, if the web search
    found something and the vector search found something else, each has a
    result in the plan. *)
Theorem hybrid_no_starvation repr web vec limit l :
  let s := collect_candidates repr web vec in
  2 <= limit -> web_order s <> [] -> (exists n, n ∈ vector_order s /\ n ∉ web_order s) ->
  plan_results repr web vec limit = Some l ->
  (exists c, c ∈ l /\ normalize_url_for_blend (c_url c) ∈ web_order s) /\
  (exists c, c ∈ l /\ normalize_url_for_blend (c_url c) ∈ vector_order s).
Proof.
  cbn zeta. pose proof (collect_wf repr web vec) as HS. set (s := collect_candidates repr web vec) in *.
  intros Hlim Hne Hex Hl. destruct (blend_norms_spec s limit HS) as (r & Hr & HM & _ & Hst).
  destruct (blend_candidates s limit r HS Hr HM) as (l' & Hl' & <- & _). unfold plan_results in Hl. fold s in Hl.
  assert (l' = l) as -> by congruence. destruct (Hst Hlim Hne Hex) as [(n & Hn & Hin) (m & Hm & Him)].
  apply list_elem_of_fmap in Hin as (c & -> & Hc), Him as (d & -> & Hd). eauto 6.
Qed.

(** ** Concrete plans *)

Definition hit (url : string) : json := JObj [("url", JStr url)].

Definition urls (l : option (list candidate)) : option (list (string * retrieval)) :=
  match l with Some l => Some (List.map (fun c => (c_url c, c_retrieval c)) l) | None => None end.

Lemma hybrid_no_starvation_witness :
  let s := collect_candidates (fun _ => "") [hit "http://a.org/1"; hit "http://a.org/2"; hit "http://a.org/3"] [hit "http://b.org/"] in
  exists l, plan_results (fun _ => "") [hit "http://a.org/1"; hit "http://a.org/2"; hit "http://a.org/3"] [hit "http://b.org/"] 2 = Some l /\
  (exists c, c ∈ l /\ normalize_url_for_blend (c_url c) ∈ web_order s) /\
  (exists c, c ∈ l /\ normalize_url_for_blend (c_url c) ∈ vector_order s).
Proof.
  eexists. split; [vm_compute; reflexivity|].
  apply (hybrid_no_starvation (fun _ => "") [hit "http://a.org/1"; hit "http://a.org/2"; hit "http://a.org/3"] [hit "http://b.org/"] 2).
  - lia.
  - by vm_compute.
  - exists "http://b.org/". split; [vm_compute; by left|]. rewrite list_elem_of_In. vm_compute. intuition discriminate.
  - vm_compute. reflexivity.
Defined.

(** The slot reserved for a source with an exclusive result can be taken by a
    result both sources found, and the exclusive one is left out. *)
Example exclusive_result_starved :
  urls (plan_results (fun _ => "") [hit "http://a.org/both"; hit "http://a.org/web"]
          [hit "http://a.org/both"; hit "http://a.org/v1"; hit "http://a.org/v2"] 2)
  = Some [("http://a.org/both", Both); ("http://a.org/v1", Vector)].
Proof. vm_compute. reflexivity. Qed.

(** Path parameters are dropped, so URLs that differ in them count as one. *)
Example path_parameters_collapse :
  urls (plan_results (fun _ => "") [hit "http://a.org/doc;v=1"; hit "http://a.org/doc;v=2"] [] 5)
  = Some [("http://a.org/doc;v=1", Web)].
Proof. vm_compute. reflexivity. Qed.
