(* ===== verification/Sources.v ===== *)
(** * Source artifacts and their acquisition ([src/agent-svc/agent/research/sources.py]
    and [_scrape_urls] of [discovery.py])

    A research request keeps the pages it has fetched in a [SourceRegistry], by
    normalised URL, and fetches the rest with bounded concurrency.  A registry is
    a dictionary in insertion order; the scraper is a function from URLs to
    responses, [None] standing for a timeout or an exception; which of the
    fetches under way complete together is chosen by a schedule, a list of
    batches.  Timestamps and the fields of an artifact no operation here reads
    are left out.

    The theorems: what a registry returns was fetched for that URL with those
    options; a fetch run never has more tasks than allowed, never asks twice for
    one identity, stops early only when it has what was asked for, ends, and
    returns artifacts in the order of the candidates, none from a challenge page. *)

From stdpp Require Import pretty.
From S2P Require Import Prelude Strings Url Json SearchMeta Barrier.

(** ** Identity *)

(** [normalize_source_url]. *)
Definition normalize_source_url (url : string) : string :=
  let raw := strip url in
  match urlsplit raw "" with
  | None => raw
  | Some parsed =>
      match port parsed with
      | None => raw
      | Some p =>
          let host := hostname parsed in
          if is_empty host || is_empty (scheme parsed)
             || negb (is_empty (fst (userinfo parsed))) || negb (is_empty (snd (userinfo parsed))) then raw
          else
            let sch := lower (scheme parsed) in
            let nl := if contains ":" host then "[" +:+ lower host +:+ "]" else lower host in
            let nl := match p with
                      | Some n => if (String.eqb sch "http" && (n =? 80)) || (String.eqb sch "https" && (n =? 443)) then nl
                                  else nl +:+ ":" +:+ pretty n
                      | None => nl
                      end in
            urlunsplit sch nl (if is_empty (path parsed) then "/" else path parsed) (query parsed) ""
      end
  end.

(** ** Artifacts *)

Record SourceArtifact := mkArtifact {
  a_url : string;
  a_title : string;
  a_relevance : string;
  a_markdown : option string;
  a_source : json;
  a_char_count : Z;
  a_cache_state : option string;
  a_fetch_options : option json;
  a_contents_options : option json;
  a_discovery_metadata : list (string * json)
}.

Definition has_markdown (a : SourceArtifact) : bool :=
  match a_markdown a with Some m => negb (is_empty m) | None => false end.

(** [_options_fingerprint]; [x or {}] on an optional dictionary. *)
Definition or_empty (o : option json) : json := match o with Some j => jor j (JObj []) | None => JObj [] end.
Definition options_fingerprint (fetch_options contents_options : option json) : string :=
  dumps_canonical (JObj [("fetch", or_empty fetch_options); ("contents", or_empty contents_options)]).

(** [compatible_with]. *)
Definition compatible_with (a : SourceArtifact) (fetch_options contents_options : option json) : bool :=
  String.eqb (options_fingerprint (a_fetch_options a) (a_contents_options a))
    (options_fingerprint fetch_options contents_options).

(** ** The registry *)

Record RegistryEntry := mkEntry { artifact : SourceArtifact; scrape_options_key : string }.
Definition SourceRegistry := list (string * RegistryEntry).

Fixpoint lookup_key (k : string) (r : SourceRegistry) : option RegistryEntry :=
  match r with
  | [] => None
  | (k', e) :: r => if String.eqb k k' then Some e else lookup_key k r
  end.

(** [d[k] = e]: an existing key keeps its place. *)
Fixpoint store_key (k : string) (e : RegistryEntry) (r : SourceRegistry) : SourceRegistry :=
  match r with
  | [] => [(k, e)]
  | (k', e') :: r => if String.eqb k k' then (k', e) :: r else (k', e') :: store_key k e r
  end.

(** [SourceRegistry.get]. *)
Definition registry_get (r : SourceRegistry) (url : string) (scrape_options : option json) : option SourceArtifact :=
  match lookup_key (normalize_source_url url) r with
  | None => None
  | Some e =>
      if negb (has_markdown (artifact e)) then None
      else if negb (String.eqb (scrape_options_key e) (options_fingerprint scrape_options None)) then None
      else Some (artifact e)
  end.

(** [{**a, **b}] on decoded objects: later bindings win on lookup. *)
Definition merge_metadata (a b : list (string * json)) : list (string * json) := a ++ b.

(** [SourceRegistry.register]: the registry and the artifact, which is updated in place. *)
Definition registry_register (r : SourceRegistry) (a : SourceArtifact) (scrape_options : option json)
  : SourceRegistry * SourceArtifact :=
  if negb (has_markdown a) then (r, a)
  else
    let fetch_options := match a_fetch_options a with None => scrape_options | o => o end in
    let key := normalize_source_url (a_url a) in
    let a' :=
      match lookup_key key r with
      | None => mkArtifact (a_url a) (a_title a) (a_relevance a) (a_markdown a) (a_source a) (a_char_count a)
                  (a_cache_state a) fetch_options (a_contents_options a) (a_discovery_metadata a)
      | Some previous =>
          let old := artifact previous in
          mkArtifact (a_url a) (if is_empty (a_title a) then a_title old else a_title a)
            (if is_empty (a_relevance a) then a_relevance old else a_relevance a)
            (a_markdown a) (a_source a) (a_char_count a) (a_cache_state a) fetch_options (a_contents_options a)
            (merge_metadata (search_metadata (JObj (a_discovery_metadata old))) (search_metadata (JObj (a_discovery_metadata a))))
      end in
    (store_key key (mkEntry a' (options_fingerprint (a_fetch_options a') (a_contents_options a'))) r, a').

(** [SourceRegistry.artifacts]. *)
Definition registry_artifacts (r : SourceRegistry) : list SourceArtifact :=
  List.filter has_markdown (artifact ∘ snd <$> r).

(** ** Fetching one page *)

(** [_scrape_single] without its semaphore: [response] is [None] on a timeout or an
    exception, which an ill-formed response raises too; the markdown of a page, when
    it has one, is text. *)
Inductive outcome1 := Fetched (a : SourceArtifact) | Refusal | Failure.

Definition scrape_single (url : string) (response : option json) (scrape_options : option json) : outcome1 :=
  match response with
  | None => Failure
  | Some result =>
      if negb (is_obj result) then Failure
      else if negb (truthy (jget result "success")) then Failure
      else match jget_default result "data" (JObj []) with
      | JObj data =>
          match jget (JObj data) "markdown" with
          | JStr md =>
              if is_empty md then Failure
              else match is_barrier_flagged result with
              | None => Failure
              | Some true => Refusal
              | Some false =>
                  Fetched (mkArtifact url "" "" (Some md) (jget_default (JObj data) "source" (JStr "unknown"))
                             (Z.of_nat (slen md)) (Some "live") scrape_options None [])
              end
          | _ => Failure
          end
      | _ => Failure
      end
  end.

Definition fetched (o : outcome1) : option SourceArtifact := match o with Fetched a => Some a | _ => None end.

(** ** Fetching many pages *)

Section ScrapeUrls.
Context (respond : string -> option json) (scrape_options : option json).
Context (min_sources max_attempts : Z) (max_concurrent : nat) (stop_on_min_sources : bool).

Definition fetch (url : string) : option SourceArtifact := fetched (scrape_single url (respond url) scrape_options).

(** The first loop: candidates without duplicates, and what the registry has of them. *)
Fixpoint partition_urls (registry : option SourceRegistry) (urls : list string) (seen_keys : list string)
  : list SourceArtifact * list string :=
  match urls with
  | [] => ([], [])
  | url :: urls =>
      let key := normalize_source_url url in
      if mem key seen_keys then partition_urls registry urls seen_keys
      else
        let '(reused, fresh) := partition_urls registry urls (key :: seen_keys) in
        match registry with
        | Some r => match registry_get r url scrape_options with
                    | Some a => (a :: reused, fresh)
                    | None => (reused, url :: fresh)
                    end
        | None => (reused, url :: fresh)
        end
  end.

(** The loop over the tasks: what is pending, what runs, and what has arrived in
    the order it arrived. *)
Record fetching := mkFetching {
  pending : list string;
  running : list string;
  attempts : Z;
  arrived : list SourceArtifact
}.

(** Fill the slots. *)
Fixpoint fill (pend run : list string) (att : Z) : list string * list string * Z :=
  match pend with
  | [] => ([], run, att)
  | url :: rest =>
      if Nat.ltb (length run) max_concurrent && (att <? max_attempts) then fill rest (run ++ [url]) (att + 1)
      else (pend, run, att)
  end.

Definition fill_slots (s : fetching) : fetching :=
  let '(p, r, a) := fill (pending s) (running s) (attempts s) in mkFetching p r a (arrived s).

(** The tasks of a batch complete; a task that is not running is ignored. *)
Definition complete (s : fetching) (url : string) : fetching :=
  if mem url (running s) then
    mkFetching (pending s) (List.filter (fun u => negb (String.eqb u url)) (running s)) (attempts s)
      (arrived s ++ match fetch url with Some a => [a] | None => [] end)
  else s.

Inductive progress := Going (s : fetching) | Finished (arrived : list SourceArtifact).

(** One round of [while pending or tasks]; [reused] counts what the registry had. *)
Definition round (reused : nat) (s : fetching) (batch : list string) : progress :=
  match pending s, running s with
  | [], [] => Finished (arrived s)
  | _, _ =>
      let s := fill_slots s in
      match running s with
      | [] => Finished (arrived s)
      | _ =>
          let s := foldl complete s batch in
          if stop_on_min_sources && (min_sources + Z.of_nat reused <=? Z.of_nat (reused + length (arrived s)))
          then Finished (arrived s)
          else Going s
      end
  end.

Fixpoint rounds (reused : nat) (s : fetching) (schedule : list (list string)) : progress :=
  match schedule with
  | [] => Going s
  | batch :: schedule => match round reused s batch with
                         | Going s => rounds reused s schedule
                         | Finished l => Finished l
                         end
  end.

(** [fresh_by_key]. *)
Fixpoint by_key (k : string) (l : list SourceArtifact) : option SourceArtifact :=
  match l with
  | [] => None
  | a :: l => match by_key k l with
              | Some a => Some a
              | None => if String.eqb (normalize_source_url (a_url a)) k then Some a else None
              end
  end.

(** [finalize]: the artifacts registered in the order of the candidates. *)
Definition finalize (registry : option SourceRegistry) (reused : list SourceArtifact) (urls : list string)
  (arrived : list SourceArtifact) : option SourceRegistry * list SourceArtifact :=
  match registry with
  | None => (None, reused ++ arrived)
  | Some r =>
      let fresh := omap (fun url => by_key (normalize_source_url url) arrived) urls in
      let '(r, fresh) := foldl (fun '(r, done) a => let '(r, a) := registry_register r a scrape_options in (r, done ++ [a]))
                               (r, []) fresh in
      let artifacts := reused ++ arrived in
      (Some r, take (length artifacts - length fresh) artifacts ++ fresh)
  end.

(** [_scrape_urls], [None] while the schedule leaves tasks running. *)
Definition scrape_urls (registry : option SourceRegistry) (urls : list string) (schedule : list (list string))
  : option (option SourceRegistry * list SourceArtifact) :=
  let '(reused, fresh) := partition_urls registry urls [] in
  match fresh with
  | [] => Some (registry, reused)
  | _ => match rounds (length reused) (mkFetching fresh [] 0 []) schedule with
         | Going _ => None
         | Finished arrived => Some (finalize registry reused fresh arrived)
         end
  end.

End ScrapeUrls.

(** [_dedupe_urls]. *)
Fixpoint dedupe_from (seen urls : list string) : list string :=
  match urls with
  | [] => []
  | url :: urls =>
      let key := normalize_source_url url in
      if is_empty key || mem key seen then dedupe_from seen urls else url :: dedupe_from (key :: seen) urls
  end.
Definition dedupe_urls (urls : list string) : list string := dedupe_from [] urls.

(** [_apply_credit_budget]. *)
Fixpoint credit_budget (r : SourceRegistry) (scrape_options : option json) (novel max_credits : Z) (urls : list string)
  : list string :=
  match urls with
  | [] => []
  | url :: urls =>
      match registry_get r url scrape_options with
      | Some _ => url :: credit_budget r scrape_options novel max_credits urls
      | None => if max_credits <=? novel then credit_budget r scrape_options novel max_credits urls
                else url :: credit_budget r scrape_options (novel + 1) max_credits urls
      end
  end.

Definition apply_credit_budget (urls : list string) (max_credits : option Z) (registry : option SourceRegistry)
  (scrape_options : option json) : list string :=
  match max_credits with
  | None => urls
  | Some m =>
      if m <? 0 then urls
      else match registry with
      | None => take (Z.to_nat m) urls
      | Some r => credit_budget r scrape_options 0 m urls
      end
  end.

(** ** The registry returns what was stored *)

Lemma lookup_store k e r k' : lookup_key k' (store_key k e r) = if String.eqb k' k then Some e else lookup_key k' r.
Proof.
  induction r as [|[k0 e0] r IH]; cbn; [by destruct (String.eqb k' k)|].
  destruct (String.eqb_spec k k0) as [->|Hne]; cbn.
  - by destruct (String.eqb k' k0).
  - rewrite IH. destruct (String.eqb_spec k' k0) as [->|]; [|done]. destruct (String.eqb_spec k0 k); [by subst|done].
Qed.

Definition entry_wf (k : string) (e : RegistryEntry) : Prop :=
  normalize_source_url (a_url (artifact e)) = k /\ has_markdown (artifact e) = true /\
  scrape_options_key e = options_fingerprint (a_fetch_options (artifact e)) (a_contents_options (artifact e)).

Definition registry_wf (r : SourceRegistry) : Prop := forall k e, lookup_key k r = Some e -> entry_wf k e.

Lemma register_wf r a o : registry_wf r -> registry_wf (fst (registry_register r a o)).
Proof.
  intros HW k e. unfold registry_register. destruct (has_markdown a) eqn:Hm; cbn; [|apply HW].
  rewrite lookup_store. destruct (String.eqb_spec k (normalize_source_url (a_url a))) as [->|]; [|apply HW].
  intros [= <-]. unfold entry_wf. destruct (lookup_key _ r); done.
Qed.

(** A request that registers artifacts one after the other. *)
Definition register_all (l : list (SourceArtifact * option json)) : SourceRegistry :=
  foldl (fun r '(a, o) => fst (registry_register r a o)) [] l.

Lemma register_all_wf l : registry_wf (register_all l).
Proof.
  unfold register_all. assert (H : registry_wf []) by done. revert H. generalize ([] : SourceRegistry).
  induction l as [|[a o] l IH]; intros r Hr; cbn; [done|]. by apply IH, register_wf.
Qed.

(**  Whatever was registered before, the registry answers a request only with
    content: a non-empty page fetched under the same identity and with the same
    extraction options; and a page just registered is found again under every
    spelling of its URL, with the options it was fetched with, while the entries
    of other URLs stay as they were. *)
Theorem registry_sound l a o url :
  let r := register_all l in
  (forall opts b, registry_get r url opts = Some b ->
     normalize_source_url (a_url b) = normalize_source_url url /\ has_markdown b = true /\ compatible_with b opts None = true) /\
  (has_markdown a = true -> a_fetch_options a = None -> a_contents_options a = None ->
   let '(r', a') := registry_register r a o in
   a_markdown a' = a_markdown a /\ a_url a' = a_url a /\
   registry_get r' url o = if String.eqb (normalize_source_url url) (normalize_source_url (a_url a)) then Some a'
                           else registry_get r url o).
Proof.
  cbn zeta. pose proof (register_all_wf l) as HW. split.
  - intros opts b. unfold registry_get. destruct (lookup_key _ _) as [e|] eqn:El; [|done].
    destruct (HW _ _ El) as (H1 & H2 & H3). rewrite H2. cbn [negb]. destruct (String.eqb _ _) eqn:Es; [|done].
    intros [= Eb]. subst b. split; [done|]. split; [done|]. unfold compatible_with. rewrite <- H3. by rewrite Es.
  - intros Hm Hf Hc. unfold registry_register. rewrite Hm, Hf, Hc. cbn.
    destruct (lookup_key (normalize_source_url (a_url a)) (register_all l)) as [old|]; cbn;
      (split; [done|]); (split; [done|]); unfold registry_get; rewrite lookup_store;
      destruct (String.eqb (normalize_source_url url) (normalize_source_url (a_url a))); try done;
      cbn; unfold has_markdown in *; cbn; rewrite Hm; cbn; by rewrite String.eqb_refl.
Qed.

Lemma registry_sound_witness :
  let a := mkArtifact "http://Example.org:80" "" "" (Some "text") JNull 4 None None None [] in
  exists a', registry_get (fst (registry_register (register_all []) a None)) "http://example.org/#top" None = Some a'
    /\ a_markdown a' = Some "text".
Proof.
  cbn zeta. set (a := mkArtifact "http://Example.org:80" "" "" (Some "text") JNull 4 None None None []).
  destruct (registry_sound [] a None "http://example.org/#top") as [_ H]. specialize (H eq_refl eq_refl eq_refl).
  destruct (registry_register (register_all []) a None) as [r' a'] eqn:E. destruct H as (H1 & _ & H2). exists a'. cbn [fst].
  split; [|exact H1]. rewrite H2. assert (String.eqb (normalize_source_url "http://example.org/#top")
    (normalize_source_url (a_url a)) = true) as -> by (vm_compute; reflexivity). reflexivity.
Defined.

(** ** Credits *)

Definition novel_in (r : SourceRegistry) (o : option json) (urls : list string) : list string :=
  List.filter (fun u => match registry_get r u o with None => true | Some _ => false end) urls.

Lemma novel_in_cons r o u l : novel_in r o (u :: l) =
  match registry_get r u o with None => u :: novel_in r o l | Some _ => novel_in r o l end.
Proof. unfold novel_in. cbn. by destruct (registry_get r u o). Qed.

Lemma credit_budget_spec r o m urls : forall n, n <= m ->
  credit_budget r o n m urls `sublist_of` urls /\
  novel_in r o (credit_budget r o n m urls) = take (Z.to_nat (m - n)) (novel_in r o urls) /\
  (forall u, u ∈ urls -> registry_get r u o <> None -> u ∈ credit_budget r o n m urls).
Proof.
  induction urls as [|url urls IH]; intros n Hn; cbn [credit_budget].
  { split; [constructor|]. split; [by destruct (Z.to_nat _)|done]. }
  rewrite novel_in_cons. destruct (registry_get r url o) eqn:Eg.
  - destruct (IH n Hn) as (I1 & I2 & I3). split; [by constructor|]. rewrite novel_in_cons, Eg. split; [done|].
    intros u [->|Hu]%elem_of_cons Hr; [by left|right; auto].
  - destruct (Z.leb_spec m n).
    + destruct (IH n Hn) as (I1 & I2 & I3). split; [by constructor|]. split.
      * rewrite I2. by replace (Z.to_nat (m - n)) with 0%nat by lia.
      * intros u [->|Hu]%elem_of_cons Hr; [congruence|auto].
    + destruct (IH (n + 1)) as (I1 & I2 & I3); [lia|]. split; [by constructor|]. rewrite novel_in_cons, Eg. split.
      * rewrite I2. by replace (Z.to_nat (m - n)) with (S (Z.to_nat (m - (n + 1)))) by lia.
      * intros u [->|Hu]%elem_of_cons Hr; [congruence|right; auto].
Qed.

(**  A credit budget bounds what is fetched, not what is used: of the URLs kept,
    exactly the first [max_credits] that the registry does not have are new, and
    every one it has is kept, in the order given. *)
Theorem credits_bound_fetches urls m r o : 0 <= m ->
  let kept := apply_credit_budget urls (Some m) (Some r) o in
  kept `sublist_of` urls /\ novel_in r o kept = take (Z.to_nat m) (novel_in r o urls) /\
  (forall u, u ∈ urls -> registry_get r u o <> None -> u ∈ kept).
Proof.
  intros Hm. unfold apply_credit_budget. destruct (Z.ltb_spec m 0); [lia|].
  destruct (credit_budget_spec r o m urls 0 Hm) as (H1 & H2 & H3). rewrite Z.sub_0_r in H2. done.
Qed.

Lemma credits_bound_fetches_witness :
  apply_credit_budget ["http://a.org/1"; "http://a.org/2"; "http://a.org/3"] (Some 2) (Some []) None
    = ["http://a.org/1"; "http://a.org/2"] /\
  novel_in [] None (apply_credit_budget ["http://a.org/1"; "http://a.org/2"; "http://a.org/3"] (Some 2) (Some []) None)
    = take 2 (novel_in [] None ["http://a.org/1"; "http://a.org/2"; "http://a.org/3"]).
Proof.
  split; [vm_compute; reflexivity|].
  apply (credits_bound_fetches ["http://a.org/1"; "http://a.org/2"; "http://a.org/3"] 2 [] None). lia.
Defined.

(** ** The fetch loop *)

Section FetchFacts.
Context (respond : string -> option json) (scrape_options : option json).
Context (min_sources max_attempts : Z) (max_concurrent : nat) (stop_on_min_sources : bool).
Notation fetch := (fetch respond scrape_options).
Notation complete := (complete respond scrape_options).
Notation fill := (fill max_attempts max_concurrent).
Notation fill_slots := (fill_slots max_attempts max_concurrent).
Notation round := (round respond scrape_options min_sources max_attempts max_concurrent stop_on_min_sources).
Notation rounds := (rounds respond scrape_options min_sources max_attempts max_concurrent stop_on_min_sources).
Notation scrape_urls := (scrape_urls respond scrape_options min_sources max_attempts max_concurrent stop_on_min_sources).

(** A page that is fetched: its URL, some text, and no challenge page. *)
Definition page_ok (a : SourceArtifact) : Prop :=
  has_markdown a = true /\ exists result, respond (a_url a) = Some result /\ is_barrier_flagged result = Some false.

Lemma fetch_ok url a : fetch url = Some a -> a_url a = url /\ page_ok a.
Proof.
  unfold Sources.fetch, scrape_single, page_ok. destruct (respond url) as [result|] eqn:Er; [|done].
  destruct (is_obj result); [|done]. cbn [negb]. destruct (truthy _); [|done]. cbn [negb].
  destruct (jget_default result "data" (JObj [])) as [| | | | |l]; try done.
  destruct (jget (JObj l) "markdown") as [| | |s| |]; try done. destruct (is_empty s) eqn:Es; [done|]. destruct (is_barrier_flagged result) as [[]|] eqn:Eb; try done.
  cbn. intros [= <-]. cbn. split; [done|]. unfold has_markdown. cbn. rewrite Es. eauto.
Qed.

Lemma fill_spec pend run att p' r' a' : fill pend run att = (p', r', a') ->
  exists k, pend = k ++ p' /\ r' = run ++ k /\ a' = att + Z.of_nat (length k) /\
    (length r' <= Nat.max (length run) max_concurrent)%nat /\ a' <= Z.max att max_attempts /\
    (p' = [] \/ (max_concurrent <= length r')%nat \/ max_attempts <= a').
Proof.
  revert run att. induction pend as [|url pend IH]; intros run att; cbn.
  { intros [= <- <- <-]. exists []. rewrite !app_nil_r. cbn. split_and!; auto; lia. }
  destruct (_ && _) eqn:E.
  - intros (k & -> & -> & -> & I4 & I5 & I6)%IH. apply andb_true_iff in E as [E1%Nat.ltb_lt E2%Z.ltb_lt].
    exists (url :: k). rewrite <- app_assoc in *. cbn. rewrite !length_app in *. cbn in *. split_and!; auto; lia.
  - intros [= <- <- <-]. exists []. rewrite app_nil_r. cbn. split_and!; auto; try lia.
    right. apply andb_false_iff in E as [E|E]; [left; by apply Nat.ltb_ge in E|right; apply Z.ltb_ge in E; lia].
Qed.

(** Where a run stands: the candidates launched so far are running or finished. *)
Record fetch_inv (F : list string) (s : fetching) (finished : list string) : Prop := mkFInv {
  f_split : exists launched, F = launched ++ pending s /\ launched ≡ₚ running s ++ finished /\
    attempts s = Z.of_nat (length launched);
  f_attempts : attempts s <= Z.max 0 max_attempts;
  f_running : (length (running s) <= max_concurrent)%nat;
  f_arrived : arrived s = omap fetch finished
}.

Lemma fill_inv F s fin : fetch_inv F s fin -> fetch_inv F (fill_slots s) fin.
Proof.
  intros [(launched & -> & HP & HA) H2 H3 H4]. unfold Sources.fill_slots.
  destruct (fill (pending s) (running s) (attempts s)) as [[p r] a] eqn:E.
  destruct (fill_spec _ _ _ _ _ _ E) as (k & Ek & -> & -> & I4 & I5 & _). split; cbn.
  - exists (launched ++ k). rewrite Ek, <- app_assoc, length_app. split; [done|]. split; [|lia]. rewrite HP. solve_Permutation.
  - lia.
  - lia.
  - done.
Qed.

Lemma complete_inv F s fin url : NoDup F -> fetch_inv F s fin -> exists fin', fetch_inv F (complete s url) fin' /\
  (mem url (running s) = true -> length (running s) = S (length (running (complete s url)))) /\
  (forall u, u <> url -> mem u (running (complete s url)) = mem u (running s)) /\ pending (complete s url) = pending s /\
  (length (running (complete s url)) <= length (running s))%nat.
Proof.
  intros HN [(launched & EF & HP & HA) H2 H3 H4]. unfold Sources.complete. destruct (mem url (running s)) eqn:Em.
  2:{ exists fin. split; [by split; eauto|]. done. }
  apply mem_elem in Em as Hin.
  assert (HR : NoDup (running s)).
  { rewrite EF in HN. apply NoDup_app in HN as (HN & _). rewrite HP in HN. by apply NoDup_app in HN as (HN & _). }
  assert (HQ : running s ≡ₚ url :: List.filter (fun u => negb (String.eqb u url)) (running s)).
  { clear -HR Hin. induction (running s) as [|u l IH]; [by apply not_elem_of_nil in Hin|].
    apply NoDup_cons in HR as [Hu HR]. cbn. destruct (String.eqb_spec u url) as [->|Hne]; cbn.
    - f_equiv. assert (List.filter (fun u => negb (String.eqb u url)) l = l) as ->; [|done].
      apply List.forallb_filter_id. apply forallb_forall. intros x Hx. apply negb_true_iff, String.eqb_neq.
      intros ->. by apply list_elem_of_In in Hx.
    - apply elem_of_cons in Hin as [->|Hin]; [done|]. rewrite (IH Hin HR) at 1. apply perm_swap. }
  exists (fin ++ [url]). split; [split; cbn|].
  - exists launched. split; [done|]. split; [|done]. rewrite HP, HQ at 1. solve_Permutation.
  - done.
  - rewrite HQ in H3. cbn in H3. lia.
  - rewrite H4, omap_app. done.
  - cbn [running pending]. apply Permutation_length in HQ. cbn in HQ. split; [done|]. split; [|split; [done|lia]].
    intros u Hu. apply Bool.eq_iff_eq_true. rewrite !mem_elem, elem_of_list_filter, negb_true_iff, String.eqb_neq. tauto.
Qed.

Lemma batch_inv F batch : NoDup F -> forall s fin, fetch_inv F s fin -> exists fin', fetch_inv F (foldl complete s batch) fin' /\
  pending (foldl complete s batch) = pending s /\
  (length (running (foldl complete s batch)) <= length (running s))%nat /\
  ((exists u, u ∈ batch /\ mem u (running s) = true) -> (length (running (foldl complete s batch)) < length (running s))%nat).
Proof.
  intros HN. induction batch as [|url batch IH]; intros s fin HI; cbn.
  { exists fin. split; [done|]. split; [done|]. split; [done|]. intros (u & Hu & _). by apply not_elem_of_nil in Hu. }
  destruct (complete_inv F s fin url HN HI) as (fin1 & H1 & C1 & C2 & C3 & C4).
  destruct (IH _ _ H1) as (fin' & H2 & P2 & L2 & D2). exists fin'. split; [done|]. split; [congruence|]. split; [lia|].
  intros (u & Hu & Hm). destruct (decide (u = url)) as [->|Hne]; [specialize (C1 Hm); lia|].
  apply elem_of_cons in Hu as [?|Hu]; [done|]. destruct D2; [|lia..]. exists u. split; [done|]. by rewrite C2.
Qed.

(** A run has ended: what was tried, what arrived, and why it stopped. *)
Record fetch_end (F : list string) (got : list SourceArtifact) (finished : list string) : Prop := mkEnd {
  e_from : exists rest, F ≡ₚ finished ++ rest;
  e_attempts : Z.of_nat (length finished) <= Z.max 0 max_attempts;
  e_arrived : got = omap fetch finished;
  e_why : (stop_on_min_sources = true /\ min_sources <= Z.of_nat (length got)) \/
          Z.of_nat (length finished) = Z.min (Z.of_nat (length F)) (Z.max 0 max_attempts)
}.

Lemma fetch_inv_from F s fin : fetch_inv F s fin -> exists rest, F ≡ₚ fin ++ rest.
Proof. intros [(launched & -> & HP & _) _ _ _]. exists (running s ++ pending s). rewrite HP. solve_Permutation. Qed.

Lemma fetch_inv_len F s fin : fetch_inv F s fin -> Z.of_nat (length fin) <= attempts s.
Proof. intros [(launched & -> & HP & HA) _ _ _]. apply Permutation_length in HP. rewrite length_app in HP. lia. Qed.

Lemma fill_end F s fin : (0 < max_concurrent)%nat -> fetch_inv F s fin -> running (fill_slots s) = [] ->
  fetch_end F (arrived (fill_slots s)) fin.
Proof.
  intros Hc HI Hr. apply fill_inv in HI. pose proof (fetch_inv_from _ _ _ HI). pose proof (fetch_inv_len _ _ _ HI).
  destruct HI as [(launched & EF & HP & HA) G2 G3 G4]. rewrite Hr in HP. cbn in HP. apply Permutation_length in HP.
  split; [done|lia|done|]. right. revert EF HA G2 Hr. unfold Sources.fill_slots.
  destruct (fill (pending s) (running s) (attempts s)) as [[p r] a] eqn:E. cbn. intros EF HA G2 ->.
  destruct (fill_spec _ _ _ _ _ _ E) as (k & _ & _ & _ & _ & _ & Hw). cbn in Hw. rewrite EF, length_app.
  destruct Hw as [-> |[?|?]]; cbn; lia.
Qed.

Lemma fill_length s : (length (pending (fill_slots s)) + length (running (fill_slots s))
  = length (pending s) + length (running s))%nat.
Proof.
  unfold Sources.fill_slots. destruct (fill (pending s) (running s) (attempts s)) as [[p r] a] eqn:E.
  destruct (fill_spec _ _ _ _ _ _ E) as (k & -> & -> & _). cbn. rewrite !length_app. lia.
Qed.

Lemma round_inv F reused s fin batch : (0 < max_concurrent)%nat -> NoDup F -> fetch_inv F s fin ->
  match round reused s batch with
  | Going s' => exists fin', fetch_inv F s' fin' /\
      ((exists u, u ∈ batch /\ mem u (running (fill_slots s)) = true) ->
       (length (pending s') + length (running s') < length (pending s) + length (running s))%nat)
  | Finished got => exists fin', fetch_end F got fin'
  end.
Proof.
  intros Hc HN HI. unfold Sources.round.
  assert (HE : pending s = [] -> running s = [] -> fetch_end F (arrived s) fin).
  { intros Ep Er. pose proof (fill_end F s fin Hc HI) as H. unfold Sources.fill_slots in H. rewrite Ep, Er in H. by apply H. }
  assert (HR : match match running (fill_slots s) with
     | [] => Finished (arrived (fill_slots s))
     | _ => if stop_on_min_sources && (min_sources + Z.of_nat reused <=? Z.of_nat (reused + length (arrived (foldl complete (fill_slots s) batch))))
            then Finished (arrived (foldl complete (fill_slots s) batch)) else Going (foldl complete (fill_slots s) batch)
     end with
     | Going s' => exists fin', fetch_inv F s' fin' /\ ((exists u, u ∈ batch /\ mem u (running (fill_slots s)) = true) ->
       (length (pending s') + length (running s') < length (pending s) + length (running s))%nat)
     | Finished got => exists fin', fetch_end F got fin' end).
  { destruct (batch_inv F batch HN _ _ (fill_inv _ _ _ HI)) as (fin' & B1 & B2 & B3 & B4).
    pose proof (fill_length s) as HL. destruct (running (fill_slots s)) as [|u us] eqn:Er; [exists fin; by apply fill_end|].
    destruct (_ && _) eqn:Es.
    - exists fin'. apply andb_true_iff in Es as [Es1 Es2%Z.leb_le].
      pose proof (fetch_inv_from _ _ _ B1). pose proof (fetch_inv_len _ _ _ B1). destruct B1. split; [done|lia|done|]. left. split; [done|lia].
    - exists fin'. split; [done|]. intros Hb. specialize (B4 Hb). rewrite B2. cbn in *. lia. }
  destruct (pending s) eqn:Ep; [|exact HR]. destruct (running s) eqn:Er; [exists fin; by apply HE|exact HR].
Qed.

(** A schedule in which each round completes a task that runs. *)
Fixpoint productive (reused : nat) (s : fetching) (schedule : list (list string)) : Prop :=
  match schedule with
  | [] => True
  | batch :: schedule =>
      match round reused s batch with
      | Going s' => (exists u, u ∈ batch /\ mem u (running (fill_slots s)) = true) /\ productive reused s' schedule
      | Finished _ => True
      end
  end.

Lemma rounds_inv F reused schedule : (0 < max_concurrent)%nat -> NoDup F -> forall s fin, fetch_inv F s fin ->
  match rounds reused s schedule with
  | Going s' => (exists fin', fetch_inv F s' fin') /\
      (productive reused s schedule -> (length schedule <= length (pending s) + length (running s))%nat)
  | Finished got => exists fin', fetch_end F got fin'
  end.
Proof.
  intros Hc HN. induction schedule as [|batch schedule IH]; intros s fin HI; cbn; [split; [eauto|lia]|].
  pose proof (round_inv F reused s fin batch Hc HN HI) as HR. destruct (round reused s batch) as [s'|got]; [|done].
  destruct HR as (fin' & H1 & H2). specialize (IH s' fin' H1). destruct (rounds reused s' schedule); [|done].
  destruct IH as [I1 I2]. split; [done|]. intros [Hb Hp]. specialize (I2 Hp). specialize (H2 Hb). lia.
Qed.

Lemma fetch_start F : fetch_inv F (mkFetching F [] 0 []) [].
Proof. split; cbn; [|lia|lia|done]. exists []. done. Qed.

(** ** The candidates and the final order *)

Notation key := normalize_source_url.

Lemma partition_spec registry urls : forall seen reused F, partition_urls scrape_options registry urls seen = (reused, F) ->
  NoDup (key <$> F) /\ (forall u, u ∈ F -> u ∈ urls /\ key u ∉ seen) /\ (registry = None -> reused = []).
Proof.
  induction urls as [|url urls IH]; intros seen reused F; cbn.
  { intros [= <- <-]. split; [constructor|]. split; [|done]. intros u Hu. by apply not_elem_of_nil in Hu. }
  destruct (mem (key url) seen) eqn:Em.
  { intros (I1 & I2 & I3)%IH. split; [done|]. split; [|done]. intros u Hu. destruct (I2 u Hu). split; [by right|done]. }
  destruct (partition_urls scrape_options registry urls (key url :: seen)) as [re fr] eqn:E.
  destruct (IH _ _ _ E) as (I1 & I2 & I3). assert (key url ∉ seen) by (rewrite <- mem_elem; by rewrite Em).
  assert (HF : NoDup (key <$> fr) /\ (forall u, u ∈ fr -> u ∈ url :: urls /\ key u ∉ seen)).
  { split; [done|]. intros u Hu. destruct (I2 u Hu) as [? Hk]. rewrite elem_of_cons in *. tauto. }
  assert (HC : NoDup (key <$> url :: fr) /\ (forall u, u ∈ url :: fr -> u ∈ url :: urls /\ key u ∉ seen)).
  { split.
    - cbn. apply NoDup_cons. split; [|done]. intros (u & Ek & Hu)%list_elem_of_fmap. destruct (I2 u Hu) as [_ Hk].
      apply Hk. rewrite Ek. by left.
    - intros u [->|Hu]%elem_of_cons; [split; [by left|done]|by apply HF]. }
  destruct registry as [r|]; [destruct (registry_get r url scrape_options)|]; intros [= <- <-]; naive_solver.
Qed.

Lemma by_key_spec fin u : (forall x, x ∈ fin -> key x = key u -> x = u) ->
  by_key (key u) (omap fetch fin) = if decide (u ∈ fin) then fetch u else None.
Proof.
  induction fin as [|x fin IH]; intros HI; [done|]. specialize (IH ltac:(intros; apply HI; [by right|done])).
  assert (Hx : key x = key u -> x = u) by (apply HI; by left). cbn. destruct (fetch x) as [a|] eqn:Ef; cbn; rewrite IH.
  - destruct (fetch_ok x a Ef) as [Hu _]. rewrite Hu. destruct (decide (u ∈ fin)) as [Hin|Hin].
    + rewrite decide_True by (by right). destruct (fetch u) eqn:Eu; [done|].
      destruct (String.eqb_spec (key x) (key u)) as [E|]; [|done]. apply Hx in E as ->. congruence.
    + destruct (String.eqb_spec (key x) (key u)) as [E|E].
      * apply Hx in E as ->. rewrite decide_True by (by left). done.
      * rewrite decide_False; [done|]. intros [->|?]%elem_of_cons; [by apply E|done].
  - destruct (decide (u ∈ fin)) as [Hin|Hin]; [by rewrite decide_True by (by right)|].
    destruct (decide (u ∈ x :: fin)) as [H|]; [|done]. apply elem_of_cons in H as [->|?]; [by rewrite Ef|done].
Qed.

Lemma omap_url_sublist (g : string -> option SourceArtifact) F : (forall u a, g u = Some a -> a_url a = u) ->
  (a_url <$> omap g F) `sublist_of` F.
Proof.
  intros Hg. induction F as [|u F IH]; cbn; [constructor|]. destruct (g u) as [a|] eqn:E; cbn; [|by constructor].
  rewrite (Hg u a E). by constructor.
Qed.

Lemma register_fold l : forall r r' done done',
  foldl (fun '(r, done) a => let '(r, a) := registry_register r a scrape_options in (r, done ++ [a])) (r, done) l = (r', done') ->
  exists l', done' = done ++ l' /\ Forall2 (fun a a' => a_url a' = a_url a /\ a_markdown a' = a_markdown a) l l'.
Proof.
  induction l as [|a l IH]; intros r r' done done'; cbn.
  { intros [= _ <-]. exists []. by rewrite app_nil_r. }
  destruct (registry_register r a scrape_options) as [r1 a1] eqn:E. intros (l' & -> & HF)%IH.
  exists (a1 :: l'). rewrite <- app_assoc. split; [done|]. constructor; [|done]. revert E. unfold registry_register.
  destruct (has_markdown a); cbn; [|by intros [= _ <-]]. intros [= _ <-]. by destruct (lookup_key _ r).
Qed.

Lemma omap_ext_in {A B} (f g : A -> option B) (l : list A) : (forall x, x ∈ l -> f x = g x) -> omap f l = omap g l.
Proof.
  induction l as [|x l IH]; intros H; cbn; [done|]. rewrite (H x) by (by left). rewrite IH; [done|].
  intros y Hy. apply H. by right.
Qed.

Lemma fresh_perm F fin rest : NoDup F -> F ≡ₚ fin ++ rest ->
  omap (fun u => if decide (u ∈ fin) then fetch u else None) F ≡ₚ omap fetch fin.
Proof.
  intros HN HP. rewrite HP, omap_app. rewrite HP in HN. apply NoDup_app in HN as (_ & HN & _).
  rewrite (omap_ext_in _ fetch fin) by (intros x Hx; by rewrite decide_True).
  rewrite (omap_ext_in _ (fun _ => None) rest).
  - assert (forall l : list string, omap (fun _ => @None SourceArtifact) l = []) as -> by (by induction l).
    by rewrite app_nil_r.
  - intros x Hx. rewrite decide_False; [done|]. intros Hf. by apply (HN x Hf).
Qed.

(** What a finished run returns. *)
Lemma finalize_spec registry reused F got fin reg' result :
  NoDup (key <$> F) -> fetch_end F got fin -> finalize scrape_options registry reused F got = (reg', result) ->
  exists fresh, result = reused ++ fresh /\ length fresh = length got /\ (a_url <$> fresh) ≡ₚ (a_url <$> got) /\
    Forall page_ok fresh /\ (registry <> None -> (a_url <$> fresh) `sublist_of` F).
Proof.
  intros HK [(rest & HP) _ -> _] HFin.
  assert (HN : NoDup F) by (by apply NoDup_fmap_1 in HK).
  assert (Hok : forall l, Forall page_ok (omap fetch l)).
  { intros l. apply Forall_forall. intros a (u & _ & Ha)%list_elem_of_omap. by apply fetch_ok in Ha as [_ ?]. }
  destruct registry as [r|]; cbn in HFin; [|injection HFin as <- <-; by exists (omap fetch fin)].
  destruct (foldl _ _ _) as [r' fresh'] eqn:E in HFin. injection HFin as <- <-.
  destruct (register_fold _ _ _ _ _ E) as (fresh & -> & HF2). cbn.
  assert (Hinj : forall x y, x ∈ F -> y ∈ F -> key x = key y -> x = y).
  { intros x y (i & Hi)%list_elem_of_lookup (j & Hj)%list_elem_of_lookup Ek. assert (i = j) as ->; [|congruence].
    eapply (NoDup_lookup (key <$> F)); [done|by rewrite list_lookup_fmap, Hi|]. rewrite list_lookup_fmap, Hj. cbn. by rewrite Ek. }
  rewrite (omap_ext_in _ (fun u => if decide (u ∈ fin) then fetch u else None)) in HF2.
  2:{ intros u Hu. apply by_key_spec. intros x Hx. apply Hinj; [|done]. rewrite HP. apply elem_of_app. by left. }
  pose proof (fresh_perm F fin rest HN HP) as HQ.
  assert (HU : a_url <$> fresh = a_url <$> omap (fun u => if decide (u ∈ fin) then fetch u else None) F).
  { clear -HF2. induction HF2 as [|a a' l l' [H1 _] _ IH]; cbn; [done|]. by rewrite H1, IH. }
  assert (HL : length fresh = length (omap fetch fin)).
  { rewrite <- HQ. by apply Forall2_length in HF2. }
  exists fresh. split; [|split; [done|]].
  - rewrite length_app, HL. replace (length reused + length (omap fetch fin) - length (omap fetch fin))%nat with (length reused) by lia.
    by rewrite take_app_length.
  - rewrite HU. split; [by rewrite HQ|]. split.
    + assert (HA : Forall page_ok (omap (fun u => if decide (u ∈ fin) then fetch u else None) F)) by (by rewrite HQ).
      clear -HF2 HA. induction HF2 as [|a a' l l' [H1 H2] _ IH]; [constructor|].
      apply Forall_cons in HA as [[Hm Hr] HA]. constructor; [|auto]. unfold page_ok, has_markdown in *. by rewrite H1, H2.
    + intros _. apply omap_url_sublist. intros u a. case_decide; [|done]. intros Ha. by apply fetch_ok in Ha as [? _].
Qed.
End FetchFacts.

(**  A fetch run that returns, whatever the order in which its tasks
    completed: the artifacts the registry had, then fresh ones of distinct
    identities, each the answer of the scraper to a URL that was asked for, with
    text and not a challenge page; at most [max_attempts] URLs were tried, each
    once; the run stopped early only with [min_sources] fresh artifacts, and
    otherwise tried everything it was allowed to; with a registry the fresh
    artifacts are in the order of the candidates. *)
Theorem scrape_urls_correct respond opts min_sources max_attempts max_concurrent stop registry urls schedule reg' result :
  (0 < max_concurrent)%nat ->
  scrape_urls respond opts min_sources max_attempts max_concurrent stop registry urls schedule = Some (reg', result) ->
  let '(reused, F) := partition_urls opts registry urls [] in
  exists fresh tried, result = reused ++ fresh /\ Forall (page_ok respond) fresh /\
    NoDup (normalize_source_url <$> tried) /\ (forall u, u ∈ tried -> u ∈ urls) /\
    Z.of_nat (length tried) <= Z.max 0 max_attempts /\
    (a_url <$> fresh) ≡ₚ (a_url <$> omap (fetch respond opts) tried) /\
    ((stop = true /\ min_sources <= Z.of_nat (length fresh)) \/
     Z.of_nat (length tried) = Z.min (Z.of_nat (length F)) (Z.max 0 max_attempts)) /\
    (registry <> None -> (a_url <$> fresh) `sublist_of` F).
Proof.
  intros Hc. unfold scrape_urls. destruct (partition_urls opts registry urls []) as [reused F] eqn:Ep.
  pose proof Ep as Eq. apply partition_spec in Eq as (P1 & P2 & _); try done.
  assert (HN : NoDup F) by (by apply NoDup_fmap_1 in P1).
  destruct F as [|u0 F0] eqn:EF.
  { intros [= _ <-]. exists [], []. rewrite app_nil_r. 
    split_and!; [done|constructor|constructor|by intros u Hu%not_elem_of_nil|cbn; lia|done|right; cbn; lia|done]. }
  rewrite <- EF in *. clear EF.
  pose proof (rounds_inv respond opts min_sources max_attempts max_concurrent stop F (length reused) schedule Hc HN _ _
    (fetch_start _ _ _ _ F)) as HR.
  destruct (rounds _ _ _ _ _ _ _ _ _) as [s'|got]; [done|]. destruct HR as (fin & HE). intros [= HF].
  eapply finalize_spec in HF as (fresh & -> & HL & HU & HO & HS); [|done|exact HE].
  exists fresh, fin. destruct HE as [(rest & HP) HA -> HW]. split_and!; try done.
  - rewrite HP, fmap_app in P1. by apply NoDup_app in P1 as (P1 & _).
  - intros u Hu. apply P2. rewrite HP. apply elem_of_app. by left.
  - rewrite HL. exact HW.
Qed.

Definition demo_page (text : string) : json := JObj [("success", JBool true); ("data", JObj [("markdown", JStr text)])].
Definition demo_web (url : string) : option json :=
  if String.eqb url "http://a.org/2" then None else Some (demo_page "text").

Definition demo_urls : list string :=
  ["http://a.org/1"; "http://A.org/1"; "http://a.org/2"; "http://a.org/3"; "http://a.org/4"].
Definition demo_schedule : list (list string) := [["http://a.org/2"; "http://a.org/4"]; ["http://a.org/1"]].

Lemma scrape_urls_correct_witness :
  exists reg' result, scrape_urls demo_web None 2 10 5 true (Some []) demo_urls demo_schedule = Some (reg', result) /\
    a_url <$> result = ["http://a.org/1"; "http://a.org/4"] /\
    exists fresh tried, result = [] ++ fresh /\ Forall (page_ok demo_web) fresh /\
      NoDup (normalize_source_url <$> tried) /\ (a_url <$> fresh) ≡ₚ (a_url <$> omap (fetch demo_web None) tried).
Proof.
  eexists _, _. split; [vm_compute; reflexivity|]. split; [reflexivity|].
  assert (partition_urls None (Some []) demo_urls [] = ([], ["http://a.org/1"; "http://a.org/2"; "http://a.org/3"; "http://a.org/4"]))
    as Ep by (vm_compute; reflexivity).
  pose proof (scrape_urls_correct demo_web None 2 10 5 true (Some []) demo_urls demo_schedule _ _ ltac:(lia)
    ltac:(vm_compute; reflexivity)) as H.
  rewrite Ep in H. destruct H as (fresh & tried & H1 & H2 & H3 & _ & _ & H4 & _). eauto 10.
Defined.

(**  A fetch run ends: once each round completes a task that runs, it returns
    after at most one round per candidate and one more, and until then it has at
    most [max_concurrent] tasks and [max_attempts] attempts. *)
Theorem scrape_urls_ends respond opts min_sources max_attempts max_concurrent stop registry urls schedule :
  (0 < max_concurrent)%nat ->
  let '(reused, F) := partition_urls opts registry urls [] in
  match rounds respond opts min_sources max_attempts max_concurrent stop (length reused) (mkFetching F [] 0 []) schedule with
  | Going s => (length (running s) <= max_concurrent)%nat /\ attempts s <= Z.max 0 max_attempts /\
      (productive respond opts min_sources max_attempts max_concurrent stop (length reused) (mkFetching F [] 0 []) schedule ->
       (length schedule <= length F)%nat)
  | Finished _ => scrape_urls respond opts min_sources max_attempts max_concurrent stop registry urls schedule <> None
  end.
Proof.
  intros Hc. destruct (partition_urls opts registry urls []) as [reused F] eqn:Ep.
  pose proof Ep as Eq. apply partition_spec in Eq as (P1 & _); try done.
  assert (HN : NoDup F) by (by apply NoDup_fmap_1 in P1).
  pose proof (rounds_inv respond opts min_sources max_attempts max_concurrent stop F (length reused) schedule Hc HN _ _
    (fetch_start _ _ _ _ F)) as HR.
  destruct (rounds _ _ _ _ _ _ _ _ _) as [s'|got] eqn:E.
  - destruct HR as [(fin & HI) HL]. destruct HI. split_and!; try done. intros Hp. specialize (HL Hp). cbn in HL. lia.
  - unfold scrape_urls. rewrite Ep, E. by destruct F.
Qed.

Lemma scrape_urls_ends_witness :
  match rounds demo_web None 2 10 2 true 0 (mkFetching ["http://a.org/1"; "http://a.org/2"; "http://a.org/3"] [] 0 []) [["http://a.org/2"]] with
  | Going s => (length (running s) <= 2)%nat /\ attempts s <= 10
  | Finished _ => False
  end.
Proof.
  pose proof (scrape_urls_ends demo_web None 2 10 2 true None ["http://a.org/1"; "http://a.org/2"; "http://a.org/3"]
    [["http://a.org/2"]] ltac:(lia)) as H.
  assert (partition_urls None None ["http://a.org/1"; "http://a.org/2"; "http://a.org/3"] []
    = ([], ["http://a.org/1"; "http://a.org/2"; "http://a.org/3"])) as Ep by (vm_compute; reflexivity).
  rewrite Ep in H. cbn [length] in H.
  destruct (rounds _ _ _ _ _ _ _ _ _) as [s|l] eqn:E; [destruct H as (H1 & H2 & _); split; [exact H1|lia]|].
  vm_compute in E. discriminate E.
Defined.
