(* ===== verification/Acquire.v ===== *)
(** * Source acquisition for search stages ([src/agent-svc/agent/research/acquisition.py])

    [acquire_source_artifacts] fetches the distinct results of a search that earlier
    stages of the request have not settled: it reuses compatible artifacts, keeps what was
    refused or unavailable before, fetches the rest concurrently, and returns the
    artifacts in the order of the results.  [asyncio.gather] returns the answers in the
    order of the candidates, so that the model asks a function from URLs to answers, one
    for each candidate; the tasks share nothing but the dictionary they do not write.  A
    task that raises is logged and leaves no trace.

    The theorem: which results end up where, each exactly once, and in which order.

    Timestamps and the extras of an artifact are left out; the callback does not raise. *)

From S2P Require Import Prelude Strings Url Json Barrier Sources.

Record result_item := mkResult { it_url : string; it_title : string; it_description : string }.

(** What the scraper does: it answers or raises. *)
Inductive fetched := Response (j : json) | Raised (msg : string).

(** What [acquire_one] returns; [None] when the task raised. *)
Inductive verdict := Got (a : SourceArtifact) | Refused (response : json) | Failed (msg : string).

Record AcquisitionResult := mkAcq { artifacts : list SourceArtifact; refusals : gmap string json; failures : gmap string string }.

Section Acquire.
Context (str_ : json -> string).                (* [str] of a JSON value *)
Context (scrape : string -> fetched) (scrape_options contents_options : option json).
Context (refused_urls unavailable_urls : list string) (existing : list SourceArtifact).

Definition usable (a : SourceArtifact) : bool := compatible_with a scrape_options contents_options && has_markdown a.

(** [artifact_by_url]: a later artifact of the same URL wins. *)
Definition reusable : gmap string SourceArtifact :=
  foldl (fun m a => if usable a then <[normalize_source_url (a_url a) := a]> m else m) ∅ existing.

(** [acquire_one]. *)
Definition acquire_one (item : result_item) : option verdict :=
  let url := it_url item in
  match scrape url with
  | Raised msg => Some (Failed msg)
  | Response r =>
      match is_barrier_flagged r with
      | None => None
      | Some true => match block_detected r with Some _ => Some (Refused r) | None => None end
      | Some false =>
          if negb (is_obj r) then None
          else
            let data := jor (jget r "data") (JObj []) in
            if negb (is_obj data) then None
            else
              let failed := Some (Failed (str_ (jor (jget r "error") (JStr "empty scrape")))) in
              if negb (truthy (jget r "success")) then failed
              else
                match jget data "markdown" with
                | JStr m =>
                    if is_empty (strip m) then failed
                    else Some (Got (mkArtifact url (it_title item) (it_description item) (Some m)
                                      (JStr (str_ (jor (jget data "source") (JStr "unknown")))) (Z.of_nat (slen m)) (Some "live")
                                      scrape_options contents_options []))
                | _ => failed
                end
      end
  end.

(** The first loop: what is settled without a fetch, and the candidates. *)
Record sorting_ := mkSort { so_seen : list string; so_refused : gmap string json; so_failed : gmap string string; so_candidates : list (string * result_item) }.

Definition sort_item (s : sorting_) (item : result_item) : sorting_ :=
  if is_empty (strip (it_url item)) then s
  else
    let key := normalize_source_url (strip (it_url item)) in
    if mem key (so_seen s) then s
    else
      let seen := so_seen s ++ [key] in
      if mem key refused_urls then
        mkSort seen (<[key := JObj [("error", JStr "barrier refused by prior stage")]]> (so_refused s)) (so_failed s) (so_candidates s)
      else if mem key unavailable_urls then mkSort seen (so_refused s) (<[key := "unavailable in prior stage"]> (so_failed s)) (so_candidates s)
      else if bool_decide (is_Some (reusable !! key)) then mkSort seen (so_refused s) (so_failed s) (so_candidates s)
      else mkSort seen (so_refused s) (so_failed s) (so_candidates s ++ [(key, item)]).

Definition sort_items (results : list result_item) : sorting_ := foldl sort_item (mkSort [] ∅ ∅ []) results.

(** The loop over the answers. *)
Definition settle (acc : gmap string SourceArtifact * gmap string json * gmap string string) (c : string * result_item)
    : gmap string SourceArtifact * gmap string json * gmap string string :=
  let '(arts, refs, fails) := acc in
  match acquire_one (snd c) with
  | None => acc
  | Some (Got a) => (<[fst c := a]> arts, refs, fails)
  | Some (Refused r) => (arts, <[fst c := r]> refs, fails)
  | Some (Failed msg) => (arts, refs, <[fst c := msg]> fails)
  end.

(** The last loop: the artifacts in the order of the results. *)
Fixpoint in_rank_order (arts : gmap string SourceArtifact) (emitted : list string) (results : list result_item) : list SourceArtifact :=
  match results with
  | [] => []
  | item :: results =>
      let key := normalize_source_url (it_url item) in
      if mem key emitted then in_rank_order arts emitted results
      else match arts !! key with
           | None => in_rank_order arts emitted results
           | Some a => a :: in_rank_order arts (emitted ++ [key]) results
           end
  end.

(** [acquire_source_artifacts]. *)
Definition acquire_source_artifacts (results : list result_item) : AcquisitionResult :=
  let s := sort_items results in
  let '(arts, refs, fails) := foldl settle (reusable, so_refused s, so_failed s) (so_candidates s) in
  mkAcq (in_rank_order arts [] results) refs fails.

End Acquire.

(** ** Facts *)

Lemma lstripped_head f s : match lstrip f s with EmptyString => True | String ch _ => f ch = false end.
Proof. induction s as [|ch s IH]; cbn; [done|]. destruct (f ch) eqn:E; [done|]. by rewrite E. Qed.

Lemma rstrip_twice f s : rstrip f (rstrip f s) = rstrip f s.
Proof.
  induction s as [|ch s IH]; [done|]. cbn. destruct (rstrip f s) as [|c r] eqn:E.
  - destruct (f ch) eqn:F; cbn; [done|]. by rewrite F.
  - change (rstrip f (String ch (String c r))) with
      (match rstrip f (String c r) with EmptyString => if f ch then EmptyString else String ch EmptyString | t => String ch t end). by rewrite IH.
Qed.

Lemma lstrip_rstrip f s : match s with EmptyString => True | String ch _ => f ch = false end -> lstrip f (rstrip f s) = rstrip f s.
Proof. destruct s as [|ch s]; [done|]. intros H. cbn. destruct (rstrip f s); cbn; by rewrite H; cbn; rewrite ?H. Qed.

Lemma strip_twice s : strip (strip s) = strip s.
Proof. unfold strip. rewrite lstrip_rstrip by apply lstripped_head. apply rstrip_twice. Qed.

Lemma normalize_strip u : normalize_source_url (strip u) = normalize_source_url u.
Proof. unfold normalize_source_url. by rewrite strip_twice. Qed.

Lemma url_mem_spec k l : mem k l = true <-> k ∈ l.
Proof.
  unfold mem. rewrite existsb_exists. split.
  - intros (y & Hy & ->%String.eqb_eq). by apply list_elem_of_In.
  - intros H%list_elem_of_In. exists k. split; [done|]. apply String.eqb_refl.
Qed.

Section Spec.
Context (str_ : json -> string).
Context (scrape : string -> fetched) (scrape_options contents_options : option json).
Context (refused_urls unavailable_urls : list string) (existing : list SourceArtifact).

Notation reusable := (reusable scrape_options contents_options existing).
Notation sort_item := (sort_item scrape_options contents_options refused_urls unavailable_urls existing).
Notation sort_items := (sort_items scrape_options contents_options refused_urls unavailable_urls existing).
Notation acquire_one := (acquire_one str_ scrape scrape_options contents_options).
Notation settle := (settle str_ scrape scrape_options contents_options).
Notation acquire := (acquire_source_artifacts str_ scrape scrape_options contents_options refused_urls unavailable_urls existing).

(** The result that stands for a URL: the first one with it. *)
Definition stands (k : string) (it : result_item) : bool :=
  negb (is_empty (strip (it_url it))) && String.eqb k (normalize_source_url (it_url it)).
Definition first_item (results : list result_item) (k : string) : option result_item := List.find (stands k) results.

(** What happens to a URL. *)
Inductive fate := Absent | PriorRefusal | PriorFailure | Reused (a : SourceArtifact) | Asked (v : option verdict).
Definition fate_of (results : list result_item) (k : string) : fate :=
  match first_item results k with
  | None => Absent
  | Some it =>
      if mem k refused_urls then PriorRefusal
      else if mem k unavailable_urls then PriorFailure
      else match reusable !! k with Some a => Reused a | None => Asked (acquire_one it) end
  end.

Lemma first_item_snoc l x k : first_item (l ++ [x]) k = match first_item l k with Some i => Some i | None => if stands k x then Some x else None end.
Proof. unfold first_item. induction l as [|y l IH]; cbn; [done|]. by destruct (stands k y). Qed.

Record sorted_ok (l : list result_item) (s : sorting_) : Prop := {
  so_1 : forall k, k ∈ so_seen s <-> is_Some (first_item l k);
  so_2 : forall k, so_refused s !! k = if decide (is_Some (first_item l k)) then if mem k refused_urls then Some (JObj [("error", JStr "barrier refused by prior stage")]) else None else None;
  so_3 : forall k, so_failed s !! k = if decide (is_Some (first_item l k)) then if mem k refused_urls then None else if mem k unavailable_urls then Some "unavailable in prior stage" else None else None;
  so_4 : NoDup (so_candidates s).*1;
  so_5 : forall k it, (k, it) ∈ so_candidates s <-> first_item l k = Some it /\ mem k refused_urls = false /\ mem k unavailable_urls = false /\ reusable !! k = None
}.

Lemma sort_item_same l x s : sorted_ok l s -> (forall k, stands k x = true -> is_Some (first_item l k)) -> sorted_ok (l ++ [x]) s.
Proof.
  intros [H1 H2 H3 H4 H5] N.
  assert (E : forall k, first_item (l ++ [x]) k = first_item l k).
  { intros k. rewrite first_item_snoc. destruct (first_item l k) eqn:F; [done|]. destruct (stands k x) eqn:S; [|done].
    destruct (N k S) as [? ?]. congruence. }
  split; [intros k; by rewrite E|intros k; by rewrite E|intros k; by rewrite E|done|intros k it; by rewrite E].
Qed.

Lemma sort_items_ok l : sorted_ok l (sort_items l).
Proof.
  induction l as [|x l IH] using rev_ind.
  { split; cbn; [|done|done|constructor|].
    - intros k. split; [by intros ?%not_elem_of_nil|by intros [? ?]].
    - intros k it. split; [by intros ?%not_elem_of_nil|by intros [? _]]. }
  unfold Acquire.sort_items. rewrite foldl_app. cbn [foldl]. fold (sort_items l). generalize dependent (sort_items l). intros s IH.
  unfold Acquire.sort_item. rewrite normalize_strip. destruct (is_empty (strip (it_url x))) eqn:EM.
  { apply sort_item_same; [done|]. intros k S. unfold stands in S. by rewrite EM in S. }
  set (key := normalize_source_url (it_url x)). destruct (mem key (so_seen s)) eqn:M.
  { apply sort_item_same; [done|]. intros k S. unfold stands in S. rewrite EM in S. apply String.eqb_eq in S. subst k. apply (so_1 _ _ IH). by apply url_mem_spec. }
  destruct IH as [H1 H2 H3 H4 H5].
  assert (NF : first_item l key = None).
  { destruct (first_item l key) eqn:F; [|done]. assert (key ∈ so_seen s) as X by (apply H1; by eexists). apply url_mem_spec in X. congruence. }
  assert (SX : forall k, stands k x = String.eqb k key) by (intros k; unfold stands; by rewrite EM).
  assert (FK : forall k, first_item (l ++ [x]) k = if String.eqb k key then Some x else first_item l k).
  { intros k. rewrite first_item_snoc, SX. destruct (String.eqb_spec k key) as [->|]; [by rewrite NF|]. by destruct (first_item l k). }
  assert (S1 : forall k, k ∈ so_seen s ++ [key] <-> is_Some (first_item (l ++ [x]) k)).
  { intros k. rewrite elem_of_app, list_elem_of_singleton, H1, FK. destruct (String.eqb_spec k key) as [->|]; naive_solver. }
  assert (S2 : forall m (g : string -> option m) (mp : gmap string m), (forall k, mp !! k = if decide (is_Some (first_item l k)) then g k else None) ->
             g key = None -> forall k, mp !! k = if decide (is_Some (first_item (l ++ [x]) k)) then g k else None).
  { intros m g mp Hm Hg k. rewrite Hm, FK. destruct (String.eqb_spec k key) as [->|]; [|done]. rewrite NF. by repeat case_decide. }
  assert (S3 : forall m (g : string -> option m) (mp : gmap string m) v, (forall k, mp !! k = if decide (is_Some (first_item l k)) then g k else None) ->
             g key = Some v -> forall k, <[key := v]> mp !! k = if decide (is_Some (first_item (l ++ [x]) k)) then g k else None).
  { intros m g mp v Hm Hg k. rewrite FK. destruct (String.eqb_spec k key) as [->|NE]; [|by rewrite lookup_insert_ne, Hm by done].
    rewrite lookup_insert_eq. case_decide as D; [done|]. exfalso. by apply D. }
  assert (S5 : (mem key refused_urls = true \/ mem key unavailable_urls = true \/ is_Some (reusable !! key)) -> forall k it, (k, it) ∈ so_candidates s <->
             first_item (l ++ [x]) k = Some it /\ mem k refused_urls = false /\ mem k unavailable_urls = false /\ reusable !! k = None).
  { intros D k it. rewrite H5, FK. destruct (String.eqb_spec k key) as [->|]; [|done]. rewrite NF. split; [by intros [? _]|].
    intros (_ & R1 & R2 & R3). rewrite R3 in D. destruct D as [D|[D|[? D]]]; congruence. }
  destruct (mem key refused_urls) eqn:R; [|destruct (mem key unavailable_urls) eqn:U; [|case_bool_decide as B]].
  - split; cbn [so_seen so_refused so_failed so_candidates]; [done|apply S3; [done|by rewrite R]|apply S2; [done|by rewrite R]|done|apply S5; auto].
  - split; cbn [so_seen so_refused so_failed so_candidates]; [done|apply S2; [done|by rewrite R]|apply S3; [done|by rewrite R, U]|done|apply S5; auto].
  - split; cbn [so_seen so_refused so_failed so_candidates]; [done|apply S2; [done|by rewrite R]|apply S2; [done|by rewrite R, U]|done|apply S5; auto].
  - split; cbn [so_seen so_refused so_failed so_candidates]; [done|apply S2; [done|by rewrite R]|apply S2; [done|by rewrite R, U]| |].
    + rewrite fmap_app. apply NoDup_app. split_and!; [done| |apply NoDup_singleton]. intros k Hk ->%list_elem_of_singleton.
      apply list_elem_of_fmap in Hk as ([k' it] & E & Hk). cbn in E. subst k'. apply H5 in Hk as [Hk _]. congruence.
    + intros k it. rewrite elem_of_app, list_elem_of_singleton, H5, FK. destruct (String.eqb_spec k key) as [->|NE].
      * rewrite NF. split; [intros [[? _]|[= ->]]; [done|]|intros ([= ->] & _); by right]. split_and!; [done|done|done|].
        destruct (reusable !! key) eqn:X; [|done]. exfalso. apply B. by eexists.
      * split; [intros [?|[= ? ?]]; [done|congruence]|by left].
Qed.

(** The answers, by their keys. *)
Lemma settle_keys_spec cs : NoDup cs.*1 -> forall arts refs fails,
  let '(arts', refs', fails') := foldl settle (arts, refs, fails) cs in
  forall k, match List.find (fun c => String.eqb k (fst c)) cs with
            | None => arts' !! k = arts !! k /\ refs' !! k = refs !! k /\ fails' !! k = fails !! k
            | Some (_, it) =>
                arts' !! k = match acquire_one it with Some (Got a) => Some a | _ => arts !! k end /\
                refs' !! k = match acquire_one it with Some (Refused r) => Some r | _ => refs !! k end /\
                fails' !! k = match acquire_one it with Some (Failed m) => Some m | _ => fails !! k end
            end.
Proof.
  induction cs as [|[k0 it0] cs IH]; intros N arts refs fails; [done|]. cbn [foldl]. apply NoDup_cons in N as [N0 N].
  set (acc := settle (arts, refs, fails) (k0, it0)).
  assert (A : forall k, (fst (fst acc)) !! k = (if String.eqb k k0 then match acquire_one it0 with Some (Got a) => Some a | _ => arts !! k end else arts !! k) /\
                        (snd (fst acc)) !! k = (if String.eqb k k0 then match acquire_one it0 with Some (Refused r) => Some r | _ => refs !! k end else refs !! k) /\
                        (snd acc) !! k = (if String.eqb k k0 then match acquire_one it0 with Some (Failed m) => Some m | _ => fails !! k end else fails !! k)).
  { intros k. unfold acc, Acquire.settle. cbn [fst snd]. destruct (acquire_one it0) as [[a|r|m]|]; cbn;
      destruct (String.eqb_spec k k0) as [->|]; rewrite ?lookup_insert_eq, ?lookup_insert_ne by done; done. }
  destruct acc as [[arts1 refs1] fails1]. cbn in A. specialize (IH N arts1 refs1 fails1). destruct (foldl settle (arts1, refs1, fails1) cs) as [[arts' refs'] fails'].
  intros k. specialize (IH k). destruct (A k) as (A1 & A2 & A3). cbn [List.find fst]. destruct (String.eqb_spec k k0) as [->|NE].
  - destruct (List.find _ cs) as [[k1 it]|] eqn:F.
    + exfalso. apply find_some in F as [F1 F2%String.eqb_eq]. cbn in F2. subst k1. apply N0. apply list_elem_of_fmap. exists (k0, it). split; [done|]. by apply list_elem_of_In.
    + by rewrite A1, A2, A3 in IH.
  - by rewrite A1, A2, A3 in IH.
Qed.

(** The keys of the results, each once. *)
Fixpoint fresh_keys (done_ : list string) (results : list result_item) : list string :=
  match results with
  | [] => []
  | it :: results =>
      let key := normalize_source_url (it_url it) in
      if mem key done_ then fresh_keys done_ results else key :: fresh_keys (done_ ++ [key]) results
  end.

Lemma fresh_keys_spec d l : NoDup (fresh_keys d l) /\ (forall k, k ∈ fresh_keys d l -> k ∉ d) /\
  (forall k, k ∈ fresh_keys d l <-> k ∉ d /\ exists it, it ∈ l /\ k = normalize_source_url (it_url it)).
Proof.
  revert d. induction l as [|it l IH]; intros d; cbn [fresh_keys].
  - split_and!; [constructor|by intros k ?%not_elem_of_nil|]. intros k. split; [by intros ?%not_elem_of_nil|]. by intros (_ & it & ?%not_elem_of_nil & _).
  - destruct (mem _ d) eqn:M.
    + apply url_mem_spec in M. destruct (IH d) as (H1 & H2 & H3). split_and!; [done|done|]. intros k. rewrite H3. split; [intros (? & i & ? & ?); split; [done|]; exists i; split; [by right|done]|].
      intros (? & i & [->|?]%elem_of_cons & ->); [done|]. split; [done|]. by exists i.
    + assert (NM : normalize_source_url (it_url it) ∉ d) by (intros X%url_mem_spec; congruence).
      destruct (IH (d ++ [normalize_source_url (it_url it)])) as (H1 & H2 & H3). split_and!.
      * constructor; [|done]. intros X%H2. apply X. apply elem_of_app. right. by left.
      * intros k [->|Hk]%elem_of_cons; [done|]. apply H2 in Hk. set_solver.
      * intros k. rewrite elem_of_cons, H3. split.
        -- intros [->|(X & i & ? & ->)]; [split; [done|]; exists it; split; [by left|done]|]. split; [set_solver|]. exists i. split; [by right|done].
        -- intros (X & i & [->|?]%elem_of_cons & ->); [by left|]. destruct (decide (normalize_source_url (it_url i) = normalize_source_url (it_url it))) as [E|NE]; [by left|].
           right. split; [set_solver|]. by exists i.
Qed.

Lemma in_rank_order_spec arts e d l : (forall k, k ∈ e -> k ∈ d) -> (forall k, k ∈ d -> k ∈ e \/ arts !! k = None) ->
  in_rank_order arts e l = omap (fun k => arts !! k) (fresh_keys d l).
Proof.
  revert e d. induction l as [|it l IH]; intros e d H1 H2; [done|]. cbn [in_rank_order fresh_keys]. set (key := normalize_source_url (it_url it)).
  destruct (mem key e) eqn:ME.
  - assert (mem key d = true) as -> by (apply url_mem_spec, H1; by apply url_mem_spec). by apply IH.
  - destruct (mem key d) eqn:MD.
    + apply url_mem_spec in MD. destruct (H2 key MD) as [X%url_mem_spec|X]; [congruence|]. rewrite X. by apply IH.
    + cbn [omap list_omap]. destruct (arts !! key) as [a|] eqn:A.
      * f_equal. apply IH; intros k; rewrite !elem_of_app; naive_solver.
      * apply IH; intros k; rewrite ?elem_of_app, ?list_elem_of_singleton; [naive_solver|]. intros [X|X]; [by apply H2|]. subst k. by right.
Qed.

(**  Acquisition settles every URL of a search once and in order: the artifacts are
    those of the distinct URLs in the order of the results, reused if a compatible one
    with content exists and otherwise fetched; a URL refused or unavailable in an earlier
    stage is recorded as that, a fetched challenge page only as a refusal and any other
    fetch without a text only as a failure; nothing is recorded for a URL that is not
    among the results; and a URL is fetched at most once, and only if nothing was known
    of it. *)
Theorem acquisition_settles results :
  let r := acquire results in
  exists arts : gmap string SourceArtifact,
    artifacts r = omap (fun k => arts !! k) (fresh_keys [] results) /\ NoDup (fresh_keys [] results) /\
    (forall k, match fate_of results k with
      | Absent => arts !! k = reusable !! k /\ refusals r !! k = None /\ failures r !! k = None
      | PriorRefusal => arts !! k = reusable !! k /\ refusals r !! k = Some (JObj [("error", JStr "barrier refused by prior stage")]) /\ failures r !! k = None
      | PriorFailure => arts !! k = reusable !! k /\ refusals r !! k = None /\ failures r !! k = Some "unavailable in prior stage"
      | Reused a => arts !! k = Some a /\ refusals r !! k = None /\ failures r !! k = None
      | Asked v => arts !! k = match v with Some (Got a) => Some a | _ => None end /\
                   refusals r !! k = match v with Some (Refused j) => Some j | _ => None end /\
                   failures r !! k = match v with Some (Failed m) => Some m | _ => None end
      end) /\
    NoDup (so_candidates (sort_items results)).*1 /\
    (forall k it, (k, it) ∈ so_candidates (sort_items results) <-> exists v, fate_of results k = Asked v /\ first_item results k = Some it).
Proof.
  cbv zeta. unfold acquire_source_artifacts. pose proof (sort_items_ok results) as [H1 H2 H3 H4 H5]. set (s := sort_items results) in *.
  pose proof (settle_keys_spec (so_candidates s) H4 reusable (so_refused s) (so_failed s)) as ST.
  destruct (foldl settle (reusable, so_refused s, so_failed s) (so_candidates s)) as [[arts refs] fails]. exists arts. cbn [artifacts refusals failures].
  split_and!.
  - apply in_rank_order_spec; intros k ?%not_elem_of_nil; done.
  - apply fresh_keys_spec.
  - intros k. specialize (ST k). unfold fate_of. specialize (H2 k). specialize (H3 k).
    destruct (List.find _ (so_candidates s)) as [[k' it]|] eqn:F.
    + apply find_some in F as [F1%list_elem_of_In F2%String.eqb_eq]. cbn in F2. subst k'. apply H5 in F1 as (E1 & E2 & E3 & E4).
      rewrite E1, E2, E3, E4 in *. rewrite H2, H3 in ST. destruct (decide (is_Some (Some it))) as [_|D]; [|exfalso; by apply D]. exact ST.
    + rewrite H2, H3 in ST. destruct (first_item results k) as [it|] eqn:E1.
      * destruct (decide (is_Some (Some it))) as [_|D]; [|exfalso; by apply D].
        destruct (mem k refused_urls) eqn:R; [done|]. destruct (mem k unavailable_urls) eqn:U; [done|]. destruct (reusable !! k) as [a|] eqn:E4; [done|].
        exfalso. assert (C : (k, it) ∈ so_candidates s) by (by apply H5). apply list_elem_of_In in C. pose proof (find_none _ _ F (k, it) C) as X. cbn in X.
        by rewrite String.eqb_refl in X.
      * destruct (decide (is_Some (@None result_item))) as [[? D]|_]; [done|]. exact ST.
  - done.
  - intros k it. rewrite H5. unfold fate_of. split.
    + intros (E1 & E2 & E3 & E4). rewrite E1, E2, E3, E4. by eexists.
    + intros (v & E & E1). rewrite E1 in E. destruct (mem k refused_urls); [done|]. destruct (mem k unavailable_urls); [done|]. by destruct (reusable !! k).
Qed.

End Spec.

(** ** Runs *)

Definition demo_old : SourceArtifact := mkArtifact "https://a.org/" "" "" (Some "old") (JStr "web") 3 None None None [].
Definition demo_scrape (u : string) : fetched :=
  if String.eqb u "https://b.org/" then Response (JObj [("success", JBool true); ("data", JObj [("markdown", JStr "new")])]) else Raised "timeout".
Definition demo_results : list result_item :=
  [mkResult "https://b.org/" "" ""; mkResult "https://a.org" "" ""; mkResult "https://B.org/" "" ""; mkResult "https://c.org/" "" ""].

Lemma demo_acquisition :
  let r := acquire_source_artifacts (fun _ => "x") demo_scrape None None [] [] [demo_old] demo_results in
  (a_url <$> artifacts r) = ["https://b.org/"; "https://a.org/"] /\ failures r !! "https://c.org/" = Some "timeout" /\ refusals r !! "https://a.org/" = None.
Proof. split_and!; vm_compute; reflexivity. Qed.

(** ** What the model shows of the code *)

(** A URL that an earlier stage refused is recorded as refused and yet returned, when an
    artifact of it is passed along. *)
Lemma refused_artifact_returned :
  let r := acquire_source_artifacts (fun _ => "x") demo_scrape None None ["https://a.org/"] [] [demo_old] [mkResult "https://a.org/" "" ""] in
  artifacts r = [demo_old] /\ is_Some (refusals r !! "https://a.org/").
Proof. split; [vm_compute; reflexivity|vm_compute; by eexists]. Qed.
