(* ===== verification/Discovery.v ===== *)
(** * Discovery over several queries ([src/agent-svc/agent/research/discovery.py])

    [_run_multi_query_discover_and_scrape] runs the searches of a plan and fetches
    what they find while they are still running.  The coroutine is a state
    machine: a round starts what may be started, waits, handles the searches and
    fetches that completed in the order they are given, and starts again.
    Results of a search are admitted in the order of the plan, whatever the order
    they arrive in.  Callbacks and metrics are left out; a rate limit answered by
    a search ends the run with its exception.

    The theorems: a run never fetches more pages than its credits, never more
    than five at a time, never one identity twice; while a search is missing no
    query has more than its share; the candidates and their order depend only on
    what the searches found; and a run that ends has spent its credits or fetched
    every candidate. *)

From S2P Require Import Prelude Strings Url Json SearchMeta Barrier Sources.

(** [apply_search_budget]. *)
Definition apply_search_budget (queries : list string) (max_searches : Z) : list string :=
  if max_searches <=? 0 then queries else take (Z.to_nat max_searches) queries.

(** What a search answers. *)
Inductive search_answer := Found (results : list json) | SearchFailed | RateLimited.

Record disc := mkDisc {
  search_tasks : list nat;
  scrape_tasks : list string;
  candidate_urls : list (nat * string);
  attempted_keys : list string;
  attempts : Z;
  per_query_attempts : list Z;
  seen_urls : list string;
  ordered_results : gmap nat (list json);
  admitted_query : nat;
  scrape_by_key : gmap string SourceArtifact;
  admitted_urls : list string;
  refusals : Z;
  failures : Z;
  enqueued : list (nat * string)
}.
(** [enqueued] is ghost: every candidate admitted so far. *)

Section Multi.
Context (respond : string -> option json) (scrape_options : option json) (registry : SourceRegistry).
Context (n_queries : nat) (max_attempts : option Z).

Definition MAX_SCRAPES : nat := 5.

(** [query_quotas]. *)
Definition query_quota (index : nat) : Z :=
  match max_attempts with
  | None => 0
  | Some m => let n := Z.of_nat n_queries in m / n + (if Z.of_nat index <? m mod n then 1 else 0)
  end.

Definition disc_init : disc :=
  mkDisc (seq 0 n_queries) [] [] [] 0 (repeat 0 n_queries) [] ∅ 0 ∅ [] 0 0 [].

Definition spent (s : disc) (index : nat) : Z := nth index (per_query_attempts s) 0.

Definition has_quota (s : disc) (index : nat) : bool :=
  match max_attempts with None => true | Some _ => spent s index <? query_quota index end.

Definition has_budget (s : disc) : bool :=
  match max_attempts with None => true | Some m => attempts s <? m end.

(** The first candidate whose query has quota left. *)
Fixpoint pop_eligible (s : disc) (l : list (nat * string)) : option ((nat * string) * list (nat * string)) :=
  match l with
  | [] => None
  | (q, u) :: l =>
      if has_quota s q then Some ((q, u), l)
      else match pop_eligible s l with Some (c, rest) => Some (c, (q, u) :: rest) | None => None end
  end.

Definition eligible (s : disc) : option ((nat * string) * list (nat * string)) :=
  match pop_eligible s (candidate_urls s) with
  | Some c => Some c
  | None => match search_tasks s, candidate_urls s with [], c :: rest => Some (c, rest) | _, _ => None end
  end.

Definition with_candidates (l : list (nat * string)) (s : disc) : disc :=
  mkDisc (search_tasks s) (scrape_tasks s) l (attempted_keys s) (attempts s) (per_query_attempts s) (seen_urls s)
    (ordered_results s) (admitted_query s) (scrape_by_key s) (admitted_urls s) (refusals s) (failures s) (enqueued s).

(** One candidate that was popped. *)
Definition start_one (c : nat * string) (s : disc) : disc :=
  let '(q, url) := c in
  let key := normalize_source_url url in
  if mem key (attempted_keys s) then s
  else match registry_get registry url scrape_options with
  | Some reused =>
      mkDisc (search_tasks s) (scrape_tasks s) (candidate_urls s) (attempted_keys s ++ [key]) (attempts s)
        (per_query_attempts s) (seen_urls s) (ordered_results s) (admitted_query s) (<[key := reused]> (scrape_by_key s))
        (admitted_urls s ++ [url]) (refusals s) (failures s) (enqueued s)
  | None =>
      mkDisc (search_tasks s) (scrape_tasks s ++ [url]) (candidate_urls s) (attempted_keys s ++ [key]) (attempts s + 1)
        (alter (fun x => x + 1) q (per_query_attempts s)) (seen_urls s) (ordered_results s) (admitted_query s)
        (scrape_by_key s) (admitted_urls s ++ [url]) (refusals s) (failures s) (enqueued s)
  end.

(** [start_candidates]; each pass of its loop removes a candidate. *)
Fixpoint start_loop (fuel : nat) (s : disc) : disc :=
  match fuel with
  | O => s
  | S fuel =>
      match candidate_urls s with
      | [] => s
      | _ =>
          if Nat.ltb (length (scrape_tasks s)) MAX_SCRAPES && has_budget s then
            match eligible s with
            | None => s
            | Some (c, rest) => start_loop fuel (start_one c (with_candidates rest s))
            end
          else s
      end
  end.
Definition start_candidates (s : disc) : disc := start_loop (length (candidate_urls s)) s.

(** The URLs of a query's results, deduplicated. *)
Definition result_urls (results : list json) : list string :=
  dedupe_urls (omap (fun r => match jget r "url" with JStr u => if is_empty u then None else Some u | _ => None end) results).

(** [for url in batch]. *)
Definition admit_url (q : nat) (s : disc) (url : string) : disc :=
  let key := normalize_source_url url in
  if mem key (seen_urls s) then s
  else mkDisc (search_tasks s) (scrape_tasks s) (candidate_urls s ++ [(q, url)]) (attempted_keys s) (attempts s)
         (per_query_attempts s) (seen_urls s ++ [key]) (ordered_results s) (admitted_query s) (scrape_by_key s)
         (admitted_urls s) (refusals s) (failures s) (enqueued s ++ [(q, url)]).

Definition next_query (s : disc) : disc :=
  mkDisc (search_tasks s) (scrape_tasks s) (candidate_urls s) (attempted_keys s) (attempts s) (per_query_attempts s)
    (seen_urls s) (ordered_results s) (S (admitted_query s)) (scrape_by_key s) (admitted_urls s) (refusals s) (failures s)
    (enqueued s).

(** [while admitted_query in ordered_results]; there are [n_queries] keys at most. *)
Fixpoint admit_prefix (fuel : nat) (s : disc) : disc :=
  match fuel with
  | O => s
  | S fuel =>
      match ordered_results s !! admitted_query s with
      | None => s
      | Some results => admit_prefix fuel (next_query (foldl (admit_url (admitted_query s)) s (result_urls results)))
      end
  end.

Inductive event := SearchDone (index : nat) (answer : search_answer) | ScrapeDone (url : string).

Definition store_results (index : nat) (results : list json) (s : disc) : disc :=
  mkDisc (List.filter (fun i => negb (Nat.eqb i index)) (search_tasks s)) (scrape_tasks s) (candidate_urls s)
    (attempted_keys s) (attempts s) (per_query_attempts s) (seen_urls s) (<[index := results]> (ordered_results s))
    (admitted_query s) (scrape_by_key s) (admitted_urls s) (refusals s) (failures s) (enqueued s).

Definition store_page (url : string) (s : disc) : disc :=
  let o := scrape_single url (respond url) scrape_options in
  mkDisc (search_tasks s) (List.filter (fun u => negb (String.eqb u url)) (scrape_tasks s)) (candidate_urls s)
    (attempted_keys s) (attempts s) (per_query_attempts s) (seen_urls s) (ordered_results s) (admitted_query s)
    (match o with Fetched a => <[normalize_source_url (a_url a) := a]> (scrape_by_key s) | _ => scrape_by_key s end) (admitted_urls s)
    (refusals s + match o with Refusal => 1 | _ => 0 end) (failures s + match o with Failure => 1 | _ => 0 end)
    (enqueued s).

(** The body of [for task in done]; a task that is not running is ignored. *)
Definition handle (s : disc) (e : event) : outcome disc unit :=
  match e with
  | SearchDone index answer =>
      if existsb (Nat.eqb index) (search_tasks s) then
        match answer with
        | RateLimited => Raise tt
        | SearchFailed => Ok (admit_prefix (S n_queries) (store_results index [] s))
        | Found results => Ok (admit_prefix (S n_queries) (store_results index results s))
        end
      else Ok s
  | ScrapeDone url => if mem url (scrape_tasks s) then Ok (store_page url s) else Ok s
  end.

Fixpoint handle_all (s : disc) (batch : list event) : outcome disc unit :=
  match batch with
  | [] => Ok s
  | e :: batch => match handle s e with Ok s => handle_all s batch | Raise x => Raise x end
  end.

Inductive run := Running (s : disc) | Ended (s : disc) | Raised.

(** [while search_tasks or scrape_tasks]. *)
Definition disc_round (s : disc) (batch : list event) : run :=
  match search_tasks s, scrape_tasks s with
  | [], [] => Ended s
  | _, _ =>
      let s := start_candidates s in
      match search_tasks s, scrape_tasks s with
      | [], [] => Ended s
      | _, _ => match handle_all s batch with
                | Ok s => Running (start_candidates s)
                | Raise _ => Raised
                end
      end
  end.

Fixpoint disc_rounds (s : disc) (schedule : list (list event)) : run :=
  match schedule with
  | [] => Running s
  | batch :: schedule => match disc_round s batch with
                         | Running s => disc_rounds s schedule
                         | r => r
                         end
  end.

(** [all_search_results]: the results in the order of the plan, one per identity. *)
Definition result_url (r : json) : string := match jget r "url" with JStr u => u | _ => "" end.

Fixpoint unique_results (seen : list string) (results : list json) : list json :=
  match results with
  | [] => []
  | r :: results =>
      let key := normalize_source_url (result_url r) in
      if is_empty (result_url r) || mem key seen then unique_results seen results
      else r :: unique_results (seen ++ [key]) results
  end.

Definition all_search_results (s : disc) : list json :=
  unique_results [] (mjoin ((fun index => default [] (ordered_results s !! index)) <$> seq 0 n_queries)).

(** [target_urls] of a streamed run: what the searches found, then what was admitted
    and fetched. *)
Definition successful_admitted (s : disc) : list string :=
  List.filter (fun url => bool_decide (is_Some (scrape_by_key s !! normalize_source_url url))) (admitted_urls s).

Definition streamed_targets (s : disc) : list string :=
  dedupe_urls (dedupe_urls (dedupe_urls (result_url <$> all_search_results s)) ++ successful_admitted s).

(** The artifacts of the targets, registered in the order of the targets. *)
Definition project_one (by_key : gmap string SourceArtifact) (acc : SourceRegistry * list SourceArtifact) (url : string)
  : SourceRegistry * list SourceArtifact :=
  let '(r, done) := acc in
  match by_key !! normalize_source_url url with
  | None => (r, done)
  | Some a => match registry_get r url scrape_options with
              | None => let '(r, a) := registry_register r a scrape_options in (r, done ++ [a])
              | Some _ => (r, done ++ [a])
              end
  end.

Definition streamed_artifacts (s : disc) : SourceRegistry * list SourceArtifact :=
  foldl (project_one (scrape_by_key s)) (registry, []) (streamed_targets s).

(** [_uncovered_queries]. *)
Definition acquired (s : disc) (r : SourceRegistry) (results : list json) : bool :=
  existsb (fun result => let key := normalize_source_url (result_url result) in
    negb (is_empty (result_url result)) &&
    (bool_decide (is_Some (scrape_by_key s !! key)) ||
     existsb (fun a => String.eqb (normalize_source_url (a_url a)) key) (registry_artifacts r))) results.

Definition uncovered_queries (s : disc) (r : SourceRegistry) (queries : list string) : list string :=
  omap (fun '(index, query) => if acquired s r (default [] (ordered_results s !! index)) then None else Some query)
    (imap pair queries).

End Multi.

(** [_run_multi_query_discover_and_scrape] with no URL given and a query to run:
    the scheduler with its credits, then the projection. *)
Definition streamed_run (respond : string -> option json) (scrape_options : option json) (registry : SourceRegistry)
  (queries : list string) (max_searches : Z) (max_credits : option Z) (schedule : list (list event)) : run :=
  let n := length (apply_search_budget queries max_searches) in
  disc_rounds respond scrape_options registry n (Z.max 0 <$> max_credits) (disc_init n) schedule.

(** ** The order of admission *)

Notation key := normalize_source_url.

(** The candidates of the first [k] queries, from their results alone. *)
Definition admission (q : nat) (acc : list (nat * string)) (url : string) : list (nat * string) :=
  if mem (key url) ((fun c => key (snd c)) <$> acc) then acc else acc ++ [(q, url)].

Fixpoint admissions (results : nat -> list json) (k : nat) : list (nat * string) :=
  match k with
  | O => []
  | S k => foldl (admission k) (admissions results k) (result_urls (results k))
  end.

Lemma admissions_ext r1 r2 k : (forall i, (i < k)%nat -> r1 i = r2 i) -> admissions r1 k = admissions r2 k.
Proof.
  induction k as [|k IH]; intros H; cbn; [done|]. rewrite (H k) by lia. by rewrite IH by (intros; apply H; lia).
Qed.

(** ** Deduplication by identity *)

Lemma dedupe_from_spec urls seen : NoDup (key <$> dedupe_from seen urls) /\
  forall k, k ∈ key <$> dedupe_from seen urls <-> k ∈ key <$> urls /\ k <> "" /\ k ∉ seen.
Proof.
  revert seen. induction urls as [|u urls IH]; intros seen; cbn.
  { split; [constructor|]. intros k. rewrite elem_of_nil. tauto. }
  destruct (IH seen) as [I1 I2]. destruct (IH (key u :: seen)) as [J1 J2].
  destruct (is_empty (key u)) eqn:Ee; cbn.
  { assert (key u = "") as Ek by (by destruct (key u)). split; [done|]. intros k. rewrite I2, elem_of_cons, Ek. naive_solver. }
  assert (Hne : key u <> "") by (intros E; rewrite E in Ee; done).
  destruct (mem (key u) seen) eqn:Em.
  - apply mem_elem in Em. split; [done|]. intros k. rewrite I2, elem_of_cons. naive_solver.
  - assert (Hn : key u ∉ seen) by (rewrite <- mem_elem, Em; done). cbn. split.
    + constructor; [|done]. rewrite J2. intros (_ & _ & Hc). apply Hc. by left.
    + intros k. rewrite !elem_of_cons, J2, not_elem_of_cons. destruct (decide (k = key u)) as [->|]; naive_solver.
Qed.

Lemma dedupe_nodup urls : NoDup (key <$> dedupe_urls urls).
Proof. apply dedupe_from_spec. Qed.

Lemma elem_of_dedupe urls k : k ∈ key <$> dedupe_urls urls <-> k ∈ key <$> urls /\ k <> "".
Proof. unfold dedupe_urls. rewrite (proj2 (dedupe_from_spec urls [])). set_solver. Qed.

Section MultiFacts.
Context (respond : string -> option json) (opts : option json) (registry : SourceRegistry).
Context (n : nat) (max_attempts : option Z).
Notation quota := (query_quota n max_attempts).
Notation start_one := (start_one opts registry).
Notation start_candidates := (start_candidates opts registry n max_attempts).

Definition keys (l : list (nat * string)) : list string := (fun c => key (snd c)) <$> l.

Definition results_of (s : disc) (i : nat) : list json := default [] (ordered_results s !! i).

Record DInv (s : disc) : Prop := mkDInv {
  d_tasks : (length (scrape_tasks s) <= MAX_SCRAPES)%nat;
  d_running : NoDup (scrape_tasks s) /\ forall u, u ∈ scrape_tasks s -> u ∈ admitted_urls s;
  d_budget : forall m, max_attempts = Some m -> attempts s <= Z.max 0 m;
  d_count : attempts s = Z.of_nat (length (novel_in registry opts (admitted_urls s)));
  d_keys : key <$> admitted_urls s = attempted_keys s;
  d_seen : keys (enqueued s) = seen_urls s /\ NoDup (seen_urls s);
  d_part : attempted_keys s ++ keys (candidate_urls s) ≡ₚ seen_urls s;
  d_pages : forall k, is_Some (scrape_by_key s !! k) -> k ∈ attempted_keys s;
  d_named : Forall (fun k => k <> "") (seen_urls s);
  d_queries : Forall (fun c => (fst c < n)%nat) (candidate_urls s) /\ length (per_query_attempts s) = n;
  d_share : forall m q, max_attempts = Some m -> search_tasks s <> [] -> (q < n)%nat -> spent s q <= Z.max 0 (quota q);
  d_search : forall i, i ∈ search_tasks s -> (i < n)%nat;
  d_results : forall i, is_Some (ordered_results s !! i) <-> (i < n)%nat /\ i ∉ search_tasks s;
  d_admitted : (admitted_query s <= n)%nat /\ forall i, (i < admitted_query s)%nat -> is_Some (ordered_results s !! i)
}.

(** The prefix of the plan that has answered is admitted. *)
Definition Prefix (s : disc) : Prop := enqueued s = admissions (results_of s) (admitted_query s).
Definition Stopped (s : disc) : Prop := ordered_results s !! admitted_query s = None.

Lemma keys_app l1 l2 : keys (l1 ++ l2) = keys l1 ++ keys l2.
Proof. apply fmap_app. Qed.

Lemma pop_eligible_spec s l c rest : pop_eligible n max_attempts s l = Some (c, rest) ->
  l ≡ₚ c :: rest /\ has_quota n max_attempts s (fst c) = true.
Proof.
  revert c rest. induction l as [|[q u] l IH]; intros c rest; cbn; [done|]. destruct (has_quota n max_attempts s q) eqn:Eq.
  - intros [= <- <-]. done.
  - destruct (pop_eligible n max_attempts s l) as [[c' rest']|] eqn:E; [|done]. intros [= <- <-].
    destruct (IH _ _ eq_refl) as [I1 I2]. split; [|done]. rewrite I1. apply perm_swap.
Qed.

Lemma eligible_spec s c rest : eligible n max_attempts s = Some (c, rest) ->
  candidate_urls s ≡ₚ c :: rest /\ (search_tasks s <> [] -> has_quota n max_attempts s (fst c) = true).
Proof.
  unfold eligible. destruct (pop_eligible n max_attempts s (candidate_urls s)) as [[c' rest']|] eqn:E.
  - intros [= <- <-]. destruct (pop_eligible_spec _ _ _ _ E). auto.
  - destruct (search_tasks s); [|done]. destruct (candidate_urls s); [done|]. intros [= <- <-]. done.
Qed.

#[local] Arguments novel_in : simpl never.
#[local] Arguments keys : simpl never.

Lemma novel_in_app l1 l2 : novel_in registry opts (l1 ++ l2) = novel_in registry opts l1 ++ novel_in registry opts l2.
Proof. apply List.filter_app. Qed.

(** One candidate is started. *)
Lemma start_one_inv s c rest : DInv s -> candidate_urls s ≡ₚ c :: rest -> (length (scrape_tasks s) < MAX_SCRAPES)%nat ->
  has_budget max_attempts s = true -> (search_tasks s <> [] -> has_quota n max_attempts s (fst c) = true) ->
  DInv (start_one c (with_candidates rest s)) /\ candidate_urls (start_one c (with_candidates rest s)) = rest /\
  search_tasks (start_one c (with_candidates rest s)) = search_tasks s.
Proof.
  intros [] HP Hlen Hbud Hq. destruct c as [q url]. cbn in Hq.
  assert (HC : keys (candidate_urls s) ≡ₚ key url :: keys rest).
  { unfold keys. rewrite HP. done. }
  assert (HNew : key url ∉ attempted_keys s).
  { destruct d_seen0 as [_ HN]. rewrite <- d_part0, HC in HN. apply NoDup_app in HN as (_ & HN & _). intros Hin.
    apply (HN _ Hin). by left. }
  assert (HPart : (attempted_keys s ++ [key url]) ++ keys rest ≡ₚ seen_urls s).
  { rewrite <- d_part0, HC. solve_Permutation. }
  assert (HK : key <$> (admitted_urls s ++ [url]) = attempted_keys s ++ [key url]) by (rewrite fmap_app, d_keys0; done).
  assert (HQ : Forall (fun c => (fst c < n)%nat) rest /\ (q < n)%nat).
  { destruct d_queries0 as [HQ _]. rewrite HP in HQ. by apply Forall_cons in HQ as [? ?]. }
  assert (Hurl : url ∉ admitted_urls s).
  { intros Hin. apply HNew. rewrite <- d_keys0. by apply (list_elem_of_fmap_2 key). }
  unfold Discovery.start_one. destruct (mem (key url) (attempted_keys (with_candidates rest s))) eqn:Em.
  { apply mem_elem in Em. done. }
  destruct (registry_get registry url opts) eqn:Er.
  - split; [|done]. split; cbn; try done.
    3: { intros k. rewrite elem_of_snoc. destruct (decide (k = key url)) as [->|]; [auto|].
         rewrite lookup_insert_ne by done. auto. }
    + destruct d_running0 as [? Hr]. split; [done|]. intros u Hu. apply elem_of_app. auto.
    + rewrite novel_in_app, novel_in_cons, Er. cbn. by rewrite app_nil_r.
    + destruct d_queries0, HQ. done.
  - split; [|done]. split; cbn; try done.
    + rewrite length_app. cbn. lia.
    + destruct d_running0 as [Hn Hr]. split; [apply nodup_snoc; auto|].
      intros u [?| ->]%elem_of_snoc; apply elem_of_app; [auto|right; by left].
    + intros m Hm. unfold has_budget in Hbud. rewrite Hm in Hbud. apply Z.ltb_lt in Hbud. lia.
    + rewrite novel_in_app, novel_in_cons, Er, length_app, d_count0. change (novel_in registry opts []) with (@nil string). cbn. lia.
    + intros k Hk. apply elem_of_snoc. auto.
    + destruct d_queries0, HQ. split; [done|]. by rewrite length_alter.
    + intros m q' Hm Hs Hq'. unfold spent in *. cbn. specialize (d_share0 m q' Hm Hs Hq'). specialize (Hq Hs).
      unfold has_quota in Hq. rewrite Hm in Hq. apply Z.ltb_lt in Hq. unfold spent in Hq.
      rewrite !nth_lookup, list_lookup_alter in *. case_decide; subst; [|done].
      destruct (per_query_attempts s !! q') as [x|] eqn:Ex; cbn in *; [lia|lia].
Qed.

Lemma start_candidates_inv s : DInv s -> DInv (start_candidates s) /\ search_tasks (start_candidates s) = search_tasks s /\
  (scrape_tasks (start_candidates s) = [] -> search_tasks s = [] ->
   candidate_urls (start_candidates s) = [] \/ has_budget max_attempts (start_candidates s) = false).
Proof.
  unfold Discovery.start_candidates. remember (length (candidate_urls s)) as fuel eqn:Ef.
  revert s Ef. induction fuel as [|fuel IH]; intros s Ef HI; cbn [start_loop].
  { split; [done|]. split; [done|]. intros _ _. left. destruct (candidate_urls s); [done|discriminate Ef]. }
  destruct (candidate_urls s) as [|c0 l0] eqn:Ec; [by split; auto|].
  destruct (_ && _) eqn:Eg.
  - apply andb_true_iff in Eg as [Eg1%Nat.ltb_lt Eg2]. destruct (eligible n max_attempts s) as [[c rest]|] eqn:Ee.
    + destruct (eligible_spec _ _ _ Ee) as [HP Hq]. destruct (start_one_inv s c rest HI HP Eg1 Eg2 Hq) as (S1 & S2 & S3).
      rewrite Ec in HP. apply Permutation_length in HP. cbn in HP, Ef.
      destruct (IH _ ltac:(rewrite S2; lia) S1) as (I1 & I2 & I3). rewrite S3 in I2, I3. auto.
    + split; [done|]. split; [done|]. intros _ Hs. exfalso. unfold eligible in Ee. rewrite Hs, Ec in Ee.
      by destruct (pop_eligible _ _ _ _) as [[]|].
  - split; [done|]. split; [done|]. intros Ht _. right. rewrite Ht in Eg. done.
Qed.

(** A batch is admitted. *)
Lemma admit_url_inv q s url : DInv s -> (q < n)%nat -> key url <> "" -> DInv (admit_url q s url) /\
  enqueued (admit_url q s url) = admission q (enqueued s) url.
Proof.
  intros [] Hq Hne. unfold admit_url, admission. destruct d_seen0 as [Hk HN]. unfold keys in Hk. rewrite Hk.
  destruct (mem (key url) (seen_urls s)) eqn:Em; [by split|]. split; [|done].
  assert (Hnew : key url ∉ seen_urls s) by (rewrite <- mem_elem, Em; done).
  split; cbn; try done.
  - split; [by rewrite keys_app, <- Hk|by apply nodup_snoc].
  - rewrite keys_app, app_assoc, d_part0. done.
  - apply Forall_app. auto.
  - destruct d_queries0. split; [|done]. apply Forall_app. auto.
Qed.

Lemma admit_urls_inv q l s : DInv s -> (q < n)%nat -> Forall (fun u => key u <> "") l -> let s' := foldl (admit_url q) s l in
  DInv s' /\ enqueued s' = foldl (admission q) (enqueued s) l /\ search_tasks s' = search_tasks s /\
  ordered_results s' = ordered_results s /\ admitted_query s' = admitted_query s.
Proof.
  intros HI Hq HF. revert s HI. induction HF as [|u l Hu HF IH]; intros s HI; cbn; [done|].
  destruct (admit_url_inv q s u HI Hq Hu) as [I1 I2]. destruct (IH _ I1) as (J1 & J2 & J3 & J4 & J5).
  rewrite J2, J3, J4, J5, I2. split; [done|]. unfold admit_url. by destruct (mem _ _).
Qed.

Lemma result_urls_named results : Forall (fun u => key u <> "") (result_urls results).
Proof.
  apply Forall_forall. intros u Hu. apply (list_elem_of_fmap_2 key) in Hu. by apply elem_of_dedupe in Hu as [_ Hu].
Qed.

Lemma admit_prefix_inv fuel s : DInv s -> Prefix s -> (n < fuel + admitted_query s)%nat ->
  let s' := admit_prefix fuel s in
  DInv s' /\ Prefix s' /\ Stopped s' /\ search_tasks s' = search_tasks s /\ ordered_results s' = ordered_results s.
Proof.
  revert s. induction fuel as [|fuel IH]; intros s HI HP Hf; cbn [admit_prefix].
  { destruct (d_admitted s HI). lia. }
  destruct (ordered_results s !! admitted_query s) as [results|] eqn:E; [|done].
  assert (Hq : (admitted_query s < n)%nat) by (apply (d_results s HI); eauto).
  destruct (admit_urls_inv (admitted_query s) (result_urls results) s HI Hq (result_urls_named _)) as (J1 & J2 & J3 & J4 & J5).
  set (t := foldl _ s _) in *. destruct (IH (next_query t)) as (K1 & K2 & K3 & K4 & K5).
  - destruct J1. split; cbn; try done. rewrite J5. split; [lia|]. intros i Hi.
    destruct (decide (i = admitted_query s)) as [->|]; [rewrite J4; eauto|]. apply d_admitted0. rewrite J5. lia.
  - unfold Prefix, results_of in *. cbn. rewrite J5, J4. cbn. rewrite J2, HP, E. done.
  - cbn. rewrite J5. lia.
  - split; [done|]. split; [done|]. split; [done|]. rewrite K4, K5. done.
Qed.

Lemma in_tasks (index : nat) (l : list nat) : existsb (Nat.eqb index) l = true -> index ∈ l.
Proof. intros (x & Hx & ->%Nat.eqb_eq)%existsb_exists. by apply list_elem_of_In. Qed.

Lemma store_results_inv index results s : DInv s -> Prefix s -> index ∈ search_tasks s -> DInv (store_results index results s) /\
  Prefix (store_results index results s).
Proof.
  intros HI HP Hin. pose proof (d_search s HI _ Hin) as Hn.
  assert (Hlt : (admitted_query s <= index)%nat).
  { destruct (decide (index < admitted_query s)%nat) as [Hd|]; [|lia].
    apply (d_admitted s HI), (d_results s HI) in Hd as [_ Hd]. done. }
  destruct HI. split; [split; cbn; try done|].
  - intros m q Hm Hs Hq. apply (d_share0 m q Hm); [|done]. intros E. by rewrite E in Hs.
  - intros i [_ Hi]%elem_of_list_filter. auto.
  - intros i. rewrite elem_of_list_filter, negb_true_iff, Nat.eqb_neq. destruct (decide (i = index)) as [->|Hne].
    + rewrite lookup_insert_eq. split; [intros _; split; [done|tauto]|eauto].
    + rewrite lookup_insert_ne by done. rewrite d_results0. tauto.
  - split; [apply d_admitted0|]. intros i Hi. rewrite lookup_insert_ne by lia. by apply d_admitted0.
  - unfold Prefix in *. cbn. rewrite HP. apply admissions_ext. intros i Hi. unfold results_of. cbn.
    by rewrite lookup_insert_ne by lia.
Qed.

Lemma store_page_inv url s : DInv s -> url ∈ scrape_tasks s -> Prefix s -> Stopped s ->
  DInv (store_page respond opts url s) /\ Prefix (store_page respond opts url s) /\ Stopped (store_page respond opts url s).
Proof.
  intros [] Hin HP HS. split; [|done]. split; cbn; try done.
  3: { intros k. destruct (scrape_single url (respond url) opts) as [a| |] eqn:Eo; [|auto..].
       assert (Hf : a_url a = url) by (apply (fetch_ok respond opts); unfold fetch; by rewrite Eo).
       rewrite Hf. destruct (decide (k = key url)) as [->|]; [|rewrite lookup_insert_ne by done; auto].
       intros _. rewrite <- d_keys0. apply (list_elem_of_fmap_2 key). by apply d_running0. }
  - pose proof (filter_length_le (fun u => negb (u =? url)%string) (scrape_tasks s)). lia.
  - destruct d_running0 as [? Hr]. split; [by apply NoDup_list_filter|]. intros u [_ Hu]%elem_of_list_filter. auto.
Qed.

Notation handle := (handle respond opts n).
Notation handle_all := (handle_all respond opts n).

Definition Good (s : disc) : Prop := DInv s /\ Prefix s /\ Stopped s.

Lemma handle_inv s e s' : Good s -> handle s e = Ok s' -> Good s'.
Proof.
  intros (HI & HP & HS). destruct e as [index answer|url]; cbn.
  - destruct (existsb _ _) eqn:E; [|by intros [= <-]]. apply in_tasks in E.
    assert (HA : forall results, Good (admit_prefix (S n) (store_results index results s))).
    { intros results. destruct (store_results_inv index results s HI HP E) as [I1 I2].
      destruct (admit_prefix_inv (S n) _ I1 I2 ltac:(lia)) as (J1 & J2 & J3 & _). done. }
    destruct answer; [intros [= <-]; apply HA..|done].
  - destruct (mem _ _) eqn:Em; intros [= <-]; [|done]. apply mem_elem in Em. by apply store_page_inv.
Qed.

Lemma handle_all_inv batch s s' : Good s -> handle_all s batch = Ok s' -> Good s'.
Proof.
  revert s. induction batch as [|e batch IH]; intros s HG; cbn; [by intros [= <-]|].
  destruct (handle s e) eqn:E; [|done]. apply IH. eapply handle_inv; eauto.
Qed.

(** Nothing is left to start. *)
Definition Settled (s : disc) : Prop :=
  scrape_tasks s = [] -> search_tasks s = [] -> candidate_urls s = [] \/ has_budget max_attempts s = false.

Lemma start_keeps s : let s' := start_candidates s in
  enqueued s' = enqueued s /\ ordered_results s' = ordered_results s /\ admitted_query s' = admitted_query s.
Proof.
  unfold Discovery.start_candidates. generalize (length (candidate_urls s)). intros fuel.
  revert s. induction fuel as [|fuel IH]; intros s; cbn [start_loop]; [done|].
  destruct (candidate_urls s); [done|]. destruct (_ && _); [|done].
  destruct (eligible n max_attempts s) as [[[q u] rest]|]; [|done].
  destruct (IH (start_one (q, u) (with_candidates rest s))) as (-> & -> & ->). unfold Discovery.start_one.
  destruct (mem _ _); [done|]. by destruct (registry_get _ _ _).
Qed.

Lemma start_good s : Good s -> Good (start_candidates s) /\ Settled (start_candidates s).
Proof.
  intros (HI & HP & HS). destruct (start_candidates_inv s HI) as (I1 & I2 & I3).
  destruct (start_keeps s) as (K1 & K2 & K3). split; [split; [done|]|].
  - unfold Prefix, Stopped, results_of in *. rewrite K1, K2, K3. done.
  - unfold Settled. rewrite I2. auto.
Qed.

Notation disc_round := (disc_round respond opts registry n max_attempts).
Notation disc_rounds := (disc_rounds respond opts registry n max_attempts).

Definition idle (s : disc) : Prop := search_tasks s = [] /\ scrape_tasks s = [].

(** The two exits of the loop, and a round between them. *)
Lemma disc_round_cases s batch :
  (idle s /\ disc_round s batch = Ended s) \/
  (~ idle s /\ idle (start_candidates s) /\ disc_round s batch = Ended (start_candidates s)) \/
  (~ idle s /\ ~ idle (start_candidates s) /\ disc_round s batch =
     match handle_all (start_candidates s) batch with Ok s => Running (start_candidates s) | Raise _ => Raised end).
Proof.
  unfold idle, Discovery.disc_round. destruct (search_tasks s) eqn:E1, (scrape_tasks s) eqn:E2; [by left|..]; right;
  (destruct (search_tasks (start_candidates s)) eqn:E3, (scrape_tasks (start_candidates s)) eqn:E4; [left|right..]);
  (split; [by intros []|]); (split; [done || by intros []|]); done.
Qed.

Definition run_ok (r : run) : Prop :=
  match r with
  | Running s => Good s /\ Settled s
  | Ended s => Good s /\ Settled s /\ idle s
  | Raised => True
  end.

Lemma disc_rounds_ok schedule s : Good s -> Settled s -> run_ok (disc_rounds s schedule).
Proof.
  revert s. induction schedule as [|batch schedule IH]; intros s HG HS; cbn; [done|].
  destruct (disc_round_cases s batch) as [[? ->]|[(_ & Hi & ->)|(_ & _ & ->)]]; [done| |].
  - cbn. destruct (start_good s HG). done.
  - destruct (start_good s HG) as [HG' _]. destruct (handle_all (start_candidates s) batch) as [s'|] eqn:E; [|done].
    destruct (start_good s' (handle_all_inv _ _ _ HG' E)). by apply IH.
Qed.

Lemma init_good : Good (disc_init n) /\ Settled (disc_init n).
Proof.
  split; [split; [split; cbn; try done|done]|by left].
  - unfold MAX_SCRAPES. lia.
  - split; [constructor|]. intros u Hu. by apply not_elem_of_nil in Hu.
  - intros m _. lia.
  - split; [done|constructor].
  - intros k []. done.
  - split; [constructor|apply repeat_length].
  - intros m q _ _ _. unfold spent. cbn. rewrite nth_repeat. lia.
  - intros i Hi. apply elem_of_seq in Hi. lia.
  - intros i. rewrite lookup_empty, elem_of_seq. split; [intros []; done|]. intros []. lia.
  - split; [lia|]. intros i Hi. lia.
Qed.

(** *** Answers *)

Definition answer_results (a : search_answer) : list json := match a with Found results => results | _ => [] end.

Definition answered (answers : nat -> search_answer) (e : event) : Prop :=
  match e with SearchDone index a => a = answers index | ScrapeDone _ => True end.

Definition From (answers : nat -> search_answer) (s : disc) : Prop :=
  forall i results, ordered_results s !! i = Some results -> results = answer_results (answers i).

Lemma admit_prefix_results fuel s : ordered_results (admit_prefix fuel s) = ordered_results s.
Proof.
  revert s. induction fuel as [|fuel IH]; intros s; cbn; [done|]. destruct (_ !! _) as [results|]; [|done]. rewrite IH. cbn.
  generalize (result_urls results) at 1, (admitted_query s). intros l q. revert s.
  induction l as [|u l IHl]; intros s; cbn; [done|]. rewrite IHl. unfold admit_url. by destruct (mem _ _).
Qed.

Lemma handle_from answers s e s' : From answers s -> answered answers e -> handle s e = Ok s' -> From answers s'.
Proof.
  intros HF HA. destruct e as [index a|url]; cbn in *.
  - destruct (existsb _ _); [|by intros [= <-]]. subst a.
    assert (HS : forall results, results = answer_results (answers index) ->
                 From answers (admit_prefix (S n) (store_results index results s))).
    { intros results -> i r. rewrite admit_prefix_results. cbn. destruct (decide (i = index)) as [->|].
      - rewrite lookup_insert_eq. by intros [= <-].
      - rewrite lookup_insert_ne by done. apply HF. }
    destruct (answers index) eqn:Ea; [intros [= <-]; by apply HS..|done].
  - destruct (mem _ _); intros [= <-]; done.
Qed.

Lemma handle_all_from answers batch s s' : From answers s -> Forall (answered answers) batch ->
  handle_all s batch = Ok s' -> From answers s'.
Proof.
  intros HF HA. revert s HF. induction HA as [|e batch He HA IH]; intros s HF; cbn; [by intros [= <-]|].
  destruct (handle s e) eqn:E; [|done]. apply IH. eapply handle_from; eauto.
Qed.

Lemma start_from answers s : From answers s -> From answers (start_candidates s).
Proof. unfold From. by rewrite (proj1 (proj2 (start_keeps s))). Qed.

Lemma disc_rounds_from answers schedule s s' : From answers s -> Forall (Forall (answered answers)) schedule ->
  disc_rounds s schedule = Ended s' -> From answers s'.
Proof.
  intros HF HA. revert s HF. induction HA as [|batch schedule Hb HA IH]; intros s HF; cbn; [done|].
  destruct (disc_round_cases s batch) as [[? ->]|[(_ & _ & ->)|(_ & _ & ->)]].
  - by intros [= <-].
  - intros [= <-]. by apply start_from.
  - destruct (handle_all (start_candidates s) batch) as [t|] eqn:E; [|done]. apply IH, start_from.
    eapply handle_all_from; [by apply start_from|done|done].
Qed.

(** *** Termination *)

Definition live (s : disc) (e : event) : Prop :=
  match e with SearchDone index _ => index ∈ search_tasks s | ScrapeDone url => url ∈ scrape_tasks s end.

(** Searches first, then candidates and fetches. *)
Definition work (s : disc) : nat := length (candidate_urls s) + length (scrape_tasks s).
Definition less (s' s : disc) : Prop :=
  (length (search_tasks s') < length (search_tasks s))%nat \/
  (length (search_tasks s') = length (search_tasks s) /\ (work s' < work s)%nat).
Definition lesseq (s' s : disc) : Prop :=
  less s' s \/ (length (search_tasks s') = length (search_tasks s) /\ work s' = work s).

Lemma less_lesseq a b c : less a b -> lesseq b c -> less a c.
Proof. unfold less, lesseq, less. lia. Qed.
Lemma lesseq_less a b c : lesseq a b -> less b c -> less a c.
Proof. unfold less, lesseq, less. lia. Qed.

Lemma less_wf : well_founded less.
Proof.
  intros s. remember (length (search_tasks s)) as k eqn:Ek. revert s Ek.
  induction (lt_wf k) as [k _ IHk]. intros s Ek. remember (work s) as w eqn:Ew. revert s Ek Ew.
  induction (lt_wf w) as [w _ IHw]. intros s -> ->. constructor. intros s' [H|[H1 H2]].
  - by eapply IHk.
  - by eapply IHw.
Qed.

Lemma start_lesseq s : DInv s -> lesseq (start_candidates s) s.
Proof.
  intros HI. destruct (start_candidates_inv s HI) as (_ & E & _).
  enough (work (start_candidates s) <= work s)%nat by (unfold lesseq, less; rewrite E; lia).
  clear. unfold Discovery.start_candidates. generalize (length (candidate_urls s)). intros fuel.
  revert s. induction fuel as [|fuel IH]; intros s; cbn [start_loop]; [done|].
  destruct (candidate_urls s) eqn:Ec; [done|]. destruct (_ && _); [|done].
  destruct (eligible n max_attempts s) as [[[q u] rest]|] eqn:Ee; [|done]. etransitivity; [apply IH|].
  apply eligible_spec in Ee as [HP%Permutation_length _]. cbn in HP. unfold work, Discovery.start_one.
  destruct (mem _ _); cbn; [lia|]. destruct (registry_get _ _ _); cbn; [lia|]. rewrite length_app. cbn. lia.
Qed.

Lemma filter_drops {A} (f : A -> bool) l x : x ∈ l -> f x = false -> (length (List.filter f l) < length l)%nat.
Proof.
  intros Hin Hf. induction Hin as [x l|x y l Hin IH]; cbn.
  - rewrite Hf. pose proof (filter_length_le f l). lia.
  - specialize (IH Hf). destruct (f y); cbn; lia.
Qed.

Lemma handle_less s e s' : Good s -> live s e -> handle s e = Ok s' -> less s' s.
Proof.
  intros (HI & HP & HS) Hl. destruct e as [index a|url]; cbn in *.
  - assert (existsb (Nat.eqb index) (search_tasks s) = true) as ->.
    { apply existsb_exists. exists index. split; [by apply list_elem_of_In|apply Nat.eqb_refl]. }
    assert (HA : forall results, less (admit_prefix (S n) (store_results index results s)) s).
    { intros results. left. destruct (store_results_inv index results s HI HP Hl) as [I1 I2].
      destruct (admit_prefix_inv (S n) _ I1 I2 ltac:(lia)) as (_ & _ & _ & -> & _). cbn.
      apply (filter_drops _ _ index Hl). by rewrite Nat.eqb_refl. }
    destruct a; [intros [= <-]; apply HA..|done].
  - assert (mem url (scrape_tasks s) = true) as -> by (by apply mem_elem). intros [= <-]. right. split; [done|].
    unfold work. cbn. pose proof (filter_drops (fun u => negb (u =? url)%string) _ url Hl) as Hd.
    cbn beta in Hd. rewrite String.eqb_refl in Hd. specialize (Hd eq_refl). lia.
Qed.

Lemma handle_dead s e : ~ live s e -> handle s e = Ok s.
Proof.
  intros Hn. destruct e as [index a|url]; cbn in *.
  - destruct (existsb _ _) eqn:E; [|done]. by apply in_tasks in E.
  - destruct (mem _ _) eqn:E; [|done]. by apply mem_elem in E.
Qed.

#[local] Instance live_dec s e : Decision (live s e).
Proof. destruct e; cbn; apply _. Defined.

Lemma handle_all_less batch s s' : Good s -> handle_all s batch = Ok s' ->
  lesseq s' s /\ (Exists (live s) batch -> less s' s).
Proof.
  revert s. induction batch as [|e batch IH]; intros s HG; cbn.
  { intros [= <-]. split; [by right|]. by intros []%Exists_nil. }
  destruct (decide (live s e)) as [Hl|Hl].
  - destruct (handle s e) as [t|] eqn:E; [|done]. intros Ht.
    destruct (IH t (handle_inv s e t HG E) Ht) as [I1 _]. pose proof (lesseq_less _ _ _ I1 (handle_less s e t HG Hl E)).
    split; [by left|done].
  - rewrite (handle_dead s e Hl). intros Ht. destruct (IH s HG Ht) as [I1 I2]. split; [done|].
    intros [?|?]%Exists_cons; [done|auto].
Qed.

(** The environment completes something that runs. *)
Definition responsive (env : disc -> list event) : Prop :=
  forall s, ~ idle s -> Exists (live s) (env s).

Fixpoint disc_env (env : disc -> list event) (fuel : nat) (s : disc) : run :=
  match fuel with
  | O => Running s
  | S fuel => match disc_round s (env (start_candidates s)) with Running s => disc_env env fuel s | r => r end
  end.

Lemma disc_env_ends env s : responsive env -> Good s -> exists fuel, forall t, disc_env env fuel s <> Running t.
Proof.
  intros HR. induction s as [s IH] using (well_founded_induction less_wf). intros HG.
  destruct (disc_round_cases s (env (start_candidates s))) as [[? E]|[(_ & _ & E)|(_ & Hi & E)]].
  1,2: exists 1%nat; intros t; cbn; rewrite E; done.
  destruct (start_good s HG) as [HG' _]. pose proof (start_lesseq s (proj1 HG)) as Hs.
  destruct (handle_all (start_candidates s) (env (start_candidates s))) as [s'|] eqn:Eh.
  - destruct (handle_all_less _ _ _ HG' Eh) as [_ Hl]. specialize (Hl (HR _ Hi)). pose proof (handle_all_inv _ _ _ HG' Eh) as HG2.
    destruct (IH (start_candidates s')) as [fuel Hf].
    + eapply lesseq_less; [apply start_lesseq, HG2|]. by eapply less_lesseq.
    + by apply start_good.
    + exists (S fuel). intros t. cbn. rewrite E. apply Hf.
  - exists 1%nat. intros t. cbn. by rewrite E.
Qed.
End MultiFacts.

(** ** The projection *)

Lemma project_length opts m urls r done : let '(_, out) := foldl (project_one opts m) (r, done) urls in
  length out = (length done + length (omap (fun u => m !! key u) urls))%nat.
Proof.
  revert r done. induction urls as [|u urls IH]; intros r done; cbn; [lia|].
  destruct (m !! key u) as [a|]; cbn; [|apply IH]. destruct (registry_get r u opts).
  - specialize (IH r (done ++ [a])). destruct (foldl _ _ _). rewrite IH, length_app. cbn. lia.
  - destruct (registry_register r a opts) as [r' a']. specialize (IH r' (done ++ [a'])). destruct (foldl _ _ _).
    rewrite IH, length_app. cbn. lia.
Qed.

Lemma covers_size {A} (m : gmap string A) (ks : list string) : NoDup ks -> (forall k, is_Some (m !! k) -> k ∈ ks) ->
  length (omap (fun k => m !! k) ks) = size m.
Proof.
  intros HN. revert m. induction HN as [|k ks Hk HN IH]; intros m HM; cbn.
  { destruct (decide (m = ∅)) as [->|Hm]; [by rewrite map_size_empty|]. apply map_choose in Hm as (k & a & Hm).
    assert (k ∈ @nil string) as Hn by (apply HM; eauto). by apply not_elem_of_nil in Hn. }
  destruct (m !! k) as [a|] eqn:E.
  - assert (HD : omap (fun k => m !! k) ks = omap (fun k0 => delete k m !! k0) ks).
    { clear -Hk. induction ks as [|k' ks IH]; cbn; [done|]. apply not_elem_of_cons in Hk as [? ?].
      rewrite lookup_delete_ne by done. by rewrite IH. }
    cbn. rewrite HD, (IH (delete k m)).
    + rewrite map_size_delete_Some by eauto. assert (size m <> 0%nat); [|lia]. intros H0%map_size_empty_iff. by subst.
    + intros k' Hk'. destruct (decide (k' = k)) as [->|]; [by rewrite lookup_delete_eq in Hk'; destruct Hk'|].
      rewrite lookup_delete_ne in Hk' by done. apply HM in Hk' as [?|?]%elem_of_cons; done.
  - apply IH. intros k' Hk'. destruct (decide (k' = k)) as [->|]; [rewrite E in Hk'; by destruct Hk'|].
    apply HM in Hk' as [?|?]%elem_of_cons; done.
Qed.

Lemma omap_keys {A} (m : gmap string A) (urls : list string) :
  omap (fun u => m !! key u) urls = omap (fun k => m !! k) (key <$> urls).
Proof. induction urls as [|u urls IH]; cbn; [done|]. by rewrite IH. Qed.

(** The quotas share out the credits. *)
Lemma quotas_sum n m : (0 < n)%nat -> foldr Z.add 0 (query_quota n (Some m) <$> seq 0 n) = m.
Proof.
  intros Hn. cbn. set (b := m / Z.of_nat n). set (r := m mod Z.of_nat n).
  assert (Hr : 0 <= r < Z.of_nat n) by (apply Z.mod_pos_bound; lia).
  assert (HS : forall k, foldr Z.add 0 ((fun i => b + (if Z.of_nat i <? r then 1 else 0)) <$> seq 0 k)
                         = Z.of_nat k * b + Z.min (Z.of_nat k) r).
  { induction k as [|k IH]; [cbn; lia|]. rewrite seq_S, fmap_app, foldr_app. cbn.
    assert (HA : forall l x, foldr Z.add x l = foldr Z.add 0 l + x).
    { intros l x. induction l as [|y l IHl]; cbn; [lia|]. rewrite IHl. lia. }
    rewrite HA, IH. destruct (Z.ltb_spec (Z.of_nat k) r); lia. }
  rewrite HS. pose proof (Z.div_mod m (Z.of_nat n)). lia.
Qed.

(** ** Theorems *)

(**  At every point of a streamed discovery at most five pages are being fetched,
    no page identity is fetched or reused twice, and the count of attempts is the
    number of admitted pages the registry did not hold.  With credits it never
    exceeds them, and as long as one search has not answered no query has spent
    more than its quota; the quotas together are the credits. *)
Theorem discovery_within_credits respond opts registry queries max_searches max_credits schedule :
  let n := length (apply_search_budget queries max_searches) in
  match streamed_run respond opts registry queries max_searches max_credits schedule with
  | Raised => True
  | Running s | Ended s =>
      (length (scrape_tasks s) <= 5)%nat /\ NoDup (key <$> admitted_urls s) /\
      attempts s = Z.of_nat (length (novel_in registry opts (admitted_urls s))) /\
      forall m, max_credits = Some m ->
        let quota := query_quota n (Some (Z.max 0 m)) in
        attempts s <= Z.max 0 m /\
        (search_tasks s <> [] -> forall q, (q < n)%nat -> spent s q <= quota q) /\
        ((0 < n)%nat -> foldr Z.add 0 (quota <$> seq 0 n) = Z.max 0 m)
  end.
Proof.
  intros n. unfold streamed_run. fold n.
  destruct (init_good opts registry n (Z.max 0 <$> max_credits)) as [G1 G2].
  pose proof (disc_rounds_ok respond opts registry n (Z.max 0 <$> max_credits) schedule _ G1 G2) as HR.
  assert (HG : forall s, Good opts registry n (Z.max 0 <$> max_credits) s ->
    (length (scrape_tasks s) <= 5)%nat /\ NoDup (key <$> admitted_urls s) /\
    attempts s = Z.of_nat (length (novel_in registry opts (admitted_urls s))) /\
    forall m, max_credits = Some m -> attempts s <= Z.max 0 m /\
      (search_tasks s <> [] -> forall q, (q < n)%nat -> spent s q <= query_quota n (Some (Z.max 0 m)) q) /\
      ((0 < n)%nat -> foldr Z.add 0 (query_quota n (Some (Z.max 0 m)) <$> seq 0 n) = Z.max 0 m)).
  { intros s [[] _]. split_and!; try done.
    - destruct d_seen0 as [_ HN]. rewrite <- d_part0 in HN. apply NoDup_app in HN as [HN _]. by rewrite d_keys0.
    - intros m ->. cbn [fmap option_fmap option_map] in *. split_and!; [specialize (d_budget0 _ eq_refl); lia| |apply quotas_sum].
      intros Hs q Hq. specialize (d_share0 _ q eq_refl Hs Hq).
      assert (0 <= query_quota n (Some (Z.max 0 m)) q); [|lia]. unfold query_quota.
      assert (0 <= Z.max 0 m / Z.of_nat n) by (apply Z.div_pos; lia). destruct (_ <? _); lia. }
  destruct (disc_rounds _ _ _ _ _ _ _) as [s|s|]; [| |done]; cbn in HR; apply HG; apply HR.
Qed.

(** C25.  The candidates of a streamed discovery and their order depend only on what
    each search answered: a run that ends has admitted exactly the results of all
    the queries, in the order of the plan, whatever the order in which searches
    and fetches completed, and it has taken every one of them or spent its credits. *)
Theorem discovery_order_independent respond opts registry queries max_searches max_credits schedule answers s :
  let n := length (apply_search_budget queries max_searches) in
  Forall (Forall (answered answers)) schedule ->
  streamed_run respond opts registry queries max_searches max_credits schedule = Ended s ->
  enqueued s = admissions (fun i => answer_results (answers i)) n /\
  (forall i, (i < n)%nat -> ordered_results s !! i = Some (answer_results (answers i))) /\
  (key <$> admitted_urls s ≡ₚ keys (enqueued s) \/ exists m, max_credits = Some m /\ attempts s = Z.max 0 m).
Proof.
  intros n HA HE. unfold streamed_run in HE. fold n in HE.
  destruct (init_good opts registry n (Z.max 0 <$> max_credits)) as [G1 G2].
  pose proof (disc_rounds_ok respond opts registry n (Z.max 0 <$> max_credits) schedule _ G1 G2) as HR.
  rewrite HE in HR. destruct HR as ((HI & HP & HS) & Hsettled & Hidle).
  assert (H0 : From answers (disc_init n)) by (intros i r; cbn; by rewrite lookup_empty).
  pose proof (disc_rounds_from respond opts registry n _ answers schedule _ s H0 HA HE) as HF.
  assert (HO : forall i, (i < n)%nat -> ordered_results s !! i = Some (answer_results (answers i))).
  { intros i Hi. destruct (proj2 (d_results _ _ _ _ s HI i)) as [r Hr]; [split; [done|]|].
    - rewrite (proj1 Hidle). apply not_elem_of_nil.
    - rewrite Hr. by rewrite (HF _ _ Hr). }
  assert (Hn : admitted_query s = n).
  { destruct (d_admitted _ _ _ _ s HI) as [Hle _]. destruct (decide (admitted_query s = n)) as [|]; [done|].
    unfold Stopped in HS. rewrite HO in HS by lia. done. }
  split_and!; [|done|].
  - rewrite HP, Hn. apply admissions_ext. intros i Hi. unfold results_of. by rewrite HO.
  - destruct (Hsettled (proj2 Hidle) (proj1 Hidle)) as [Hc|Hb].
    + left. rewrite (d_keys _ _ _ _ s HI), (proj1 (d_seen _ _ _ _ s HI)), <- (d_part _ _ _ _ s HI), Hc.
      cbn. by rewrite app_nil_r.
    + right. unfold has_budget in Hb. destruct max_credits as [m|]; [|done]. cbn in Hb. exists m. split; [done|].
      apply Z.ltb_ge in Hb. pose proof (d_budget _ _ _ _ s HI _ eq_refl). lia.
Qed.

Definition demo_answers (i : nat) : search_answer :=
  match i with
  | O => Found [JObj [("url", JStr "http://a.org/1")]; JObj [("url", JStr "http://a.org/2")]]
  | 1%nat => SearchFailed
  | _ => Found [JObj [("url", JStr "HTTP://A.org:80/2")]; JObj [("url", JStr "http://a.org/3")]]
  end.

Lemma discovery_order_independent_witness : exists s t,
  streamed_run demo_web None [] ["p"; "q"; "r"] 0 (Some 2)
    [[SearchDone 2 (demo_answers 2)]; [SearchDone 0 (demo_answers 0)]; [SearchDone 1 (demo_answers 1)];
     [ScrapeDone "http://a.org/2"; ScrapeDone "http://a.org/1"; ScrapeDone "http://a.org/3"]; []] = Ended s /\
  streamed_run demo_web None [] ["p"; "q"; "r"] 0 (Some 2)
    [[SearchDone 0 (demo_answers 0)]; [SearchDone 1 (demo_answers 1)]; [SearchDone 2 (demo_answers 2)];
     [ScrapeDone "http://a.org/1"; ScrapeDone "http://a.org/2"]; [ScrapeDone "http://a.org/3"]; []] = Ended t /\
  enqueued s = enqueued t /\ enqueued t = [(0%nat, "http://a.org/1"); (0%nat, "http://a.org/2"); (2%nat, "http://a.org/3")].
Proof.
  eexists _, _. split; [vm_compute; reflexivity|]. split; [vm_compute; reflexivity|].
  split; [|vm_compute; reflexivity].
  rewrite (proj1 (discovery_order_independent demo_web None [] ["p"; "q"; "r"] 0 (Some 2)
    [[SearchDone 2 (demo_answers 2)]; [SearchDone 0 (demo_answers 0)]; [SearchDone 1 (demo_answers 1)];
     [ScrapeDone "http://a.org/2"; ScrapeDone "http://a.org/1"; ScrapeDone "http://a.org/3"]; []] demo_answers _
     ltac:(repeat constructor) ltac:(vm_compute; reflexivity))).
  vm_compute. reflexivity.
Defined.

(** C26.  A streamed discovery ends: if whenever something runs the environment
    completes some running search or fetch, the scheduler leaves its loop after
    finitely many rounds, whatever the searches answer. *)
Theorem discovery_ends respond opts registry queries max_searches max_credits env :
  let n := length (apply_search_budget queries max_searches) in
  responsive env ->
  exists fuel, forall s, disc_env respond opts registry n (Z.max 0 <$> max_credits) env fuel (disc_init n) <> Running s.
Proof. intros n HR. apply disc_env_ends; [done|]. apply init_good. Qed.

(** Completes everything that runs, searches with the demo answers. *)
Definition demo_env (s : disc) : list event :=
  ((fun i => SearchDone i (demo_answers i)) <$> search_tasks s) ++ (ScrapeDone <$> scrape_tasks s).

Lemma demo_env_responsive : responsive demo_env.
Proof.
  intros s Hi. unfold demo_env. apply Exists_app. unfold idle in Hi.
  destruct (search_tasks s) as [|i l] eqn:Es; [right|left; left; cbn; rewrite Es; by left].
  destruct (scrape_tasks s) as [|u l] eqn:Ec; [by destruct Hi|]. left. cbn. rewrite Ec. by left.
Qed.

Lemma discovery_ends_witness :
  responsive demo_env /\
  exists fuel, forall s, disc_env demo_web None [] 3 (Some 2) demo_env fuel (disc_init 3) <> Running s.
Proof.
  split; [apply demo_env_responsive|].
  exact (discovery_ends demo_web None [] ["p"; "q"; "r"] 0 (Some 2) demo_env demo_env_responsive).
Defined.

(**  Every page a streamed discovery acquired is reported exactly once: the
    artifacts of the result are as many as the stored pages, the targets have
    distinct identities, and every stored page is the page of a target. *)
Theorem discovery_reports_every_page respond opts registry queries max_searches max_credits schedule :
  let n := length (apply_search_budget queries max_searches) in
  match streamed_run respond opts registry queries max_searches max_credits schedule with
  | Ended s =>
      NoDup (key <$> streamed_targets n s) /\
      (forall k, is_Some (scrape_by_key s !! k) -> k ∈ key <$> streamed_targets n s) /\
      length (snd (streamed_artifacts opts registry n s)) = size (scrape_by_key s)
  | _ => True
  end.
Proof.
  intros n. unfold streamed_run. fold n.
  destruct (init_good opts registry n (Z.max 0 <$> max_credits)) as [G1 G2].
  pose proof (disc_rounds_ok respond opts registry n (Z.max 0 <$> max_credits) schedule _ G1 G2) as HR.
  destruct (disc_rounds _ _ _ _ _ _ _) as [s|s|]; [done| |done]. destruct HR as ((HI & _) & _).
  assert (HN : NoDup (key <$> streamed_targets n s)) by apply dedupe_nodup.
  assert (HC : forall k, is_Some (scrape_by_key s !! k) -> k ∈ key <$> streamed_targets n s).
  { intros k Hk. pose proof (d_pages _ _ _ _ s HI k Hk) as Hin. unfold streamed_targets. rewrite elem_of_dedupe. split.
    - rewrite fmap_app. apply elem_of_app. right. rewrite <- (d_keys _ _ _ _ s HI) in Hin.
      apply list_elem_of_fmap in Hin as (u & -> & Hu). apply (list_elem_of_fmap_2 key). apply elem_of_list_filter.
      split; [by rewrite bool_decide_true|done].
    - pose proof (d_named _ _ _ _ s HI) as HF. rewrite Forall_forall in HF. apply HF.
      rewrite <- (d_part _ _ _ _ s HI). apply elem_of_app. by left. }
  split_and!; [done..|]. unfold streamed_artifacts.
  pose proof (project_length opts (scrape_by_key s) (streamed_targets n s) registry []) as HL.
  destruct (foldl _ _ _) as [r out]. cbn. rewrite HL, omap_keys. cbn. by apply covers_size.
Qed.
