(* ===== verification/Research.v ===== *)
(** * The research loop ([src/agent-svc/agent/research/loop.py], [plan.py], [gaps.py], parts of [jev_filter.py])

    [_run_research_events] plans queries, discovers and scrapes sources in one pass or
    two, selects evidence from what was acquired, asks for gaps, and synthesizes an
    answer, yielding events as it goes.  It is a program over what it awaits
    (Program.v): the planner's model, the discovery (Discovery.v), the optional
    contribution filter, the selection of evidence (Evidence.v), the gap detection, the
    synthesis; an event that is yielded is a question without an answer, so that a
    consumer that stops reading leaves a prefix of a run.  [run_research] consumes the
    events until the final one.

    The theorems: the order in which things are asked, each within its budget; that the
    events end with one final event, so that [run_research] never ends without a result;
    that the credits of both passes together respect the request; and that an answer is
    synthesized only from evidence, and names as its sources exactly the retained ones.

    The text of a model is given as the JSON it parses to ([None]: it does not parse);
    the validation of structured output against a JSON schema is an argument, as the
    validator is a library; scores are integers in millionths; latencies are left out. *)

From S2P Require Import Prelude Strings Url Json Evidence SearchMeta Sources Program.
Open Scope program_scope.

(** ** What is exchanged *)

Definition obj : Type := list (string * json).

Inductive exn :=
| RateLimited (detail : string) (retry_after : json)     (* RetryableRateLimitError *)
| ProviderOutput (detail : string)                       (* ProviderOutputError *)
| StructuredOutput (detail : string)                     (* StructuredOutputError *)
| OtherError (detail : string).

(** A discovery: a single query or several with a floor of sources. *)
Inductive search_plan := Single (query : json) | Multi (queries : list json) (min_sources : Z).

Record Discovered := mkDiscovered {
  d_context : string;
  d_details : list obj;
  d_artifacts : list SourceArtifact;
  d_new : list SourceArtifact;
  d_targets : list string;
  d_credits : Z;
  d_planned : Z; d_executed : Z; d_attempted : Z; d_refusals : Z; d_failures : Z; d_reused : Z; d_minimum : Z;
  d_uncovered : list string;
  d_progress : list json              (* what it reported while it ran *)
}.

Record coverage := mkCoverage {
  c_planned : Z; c_executed : Z; c_candidates : Z; c_attempted : Z; c_successful : Z; c_refusals : Z; c_failures : Z;
  c_reused : Z; c_pass : Z; c_minimum : Z; c_uncovered : list string; c_evidence : option json; c_gap_check : option string;
  c_target_met : option bool
}.

Record final := mkFinal {
  f_result : string;
  f_sources : list json;
  f_details : list obj;
  f_contents : option (list (string * string));
  f_evidence : option json;
  f_coverage : coverage
}.

(** The events of [ResearchEvent]. *)
Inductive revent :=
| EStatus (state : string)
| EPlan (strategy : json) (queries : list json) (reasoning : json)
| EPass (n total : Z)
| EProgress (e : json)
| ESources (l : list json)
| EToken (s : string)
| EError (content : string) (classification : option string) (retry_after : option json) (c : option coverage)
| EDone (d : final).

Inductive gap_answer := GapText (parsed : option json) | GapRaise (e : exn).
Inductive llm_answer := Text (s : string) | LlmRaise (e : exn).

(** What [generate_stream] yields. *)
Inductive llm_event :=
| Token (s : string)
| LlmError (content : option string) (classification retry_after_seconds : json)
| LlmDone (full_content : string).

(** The selected evidence: the context and the coverage with an entry for each source. *)
Record Selected := mkSelected { sel_context : string; sel_coverage : json }.

Inductive Req :=
| QEmit (e : revent)
| QPlan (prompt : string)
| QDiscover (p : search_plan) (urls : list string) (max_credits : option Z) (pass_number : Z)
| QAssess (prompt : string) (artifacts : list SourceArtifact)
| QEvidence (sources : list json) (query : string) (budget : Z)
| QGaps (query context : string)
| QGenerate (context : string)
| QStream (context : string).

Definition reply (q : Req) : Type :=
  match q with
  | QEmit _ => unit
  | QPlan _ => option json
  | QDiscover _ _ _ _ => outcome Discovered exn
  | QAssess _ _ => SourceArtifact -> option Z
  | QEvidence _ _ _ => outcome Selected exn
  | QGaps _ _ => gap_answer
  | QGenerate _ => llm_answer
  | QStream _ => list llm_event * option exn
  end.

Notation rprog := (prog reply exn).
Definition emit (e : revent) : rprog unit := ask (QEmit e).

Fixpoint emit_all (l : list revent) : rprog unit :=
  match l with
  | [] => Ret tt
  | e :: l => emit e ;; emit_all l
  end.

Definition raised {A} (o : outcome A exn) : rprog A := match o with Ok a => Ret a | Raise e => Throw e end.

(** The request. *)
Record research_request := mkRResearch {
  rq_prompt : string;
  rq_urls : list string;
  rq_schema : bool;                       (* a schema is given *)
  rq_max_credits : option Z;
  rq_search_type : string;
  rq_stream : bool;                       (* stream_tokens *)
  rq_contents : bool;                     (* include_source_content *)
  rq_budget : Z;
  rq_jev : option Z                       (* the filter's minimal score, if it is configured *)
}.

(** ** The plan *)

Record plan := mkPlan { pl_reasoning : json; pl_strategy : json; pl_queries : list json }.

Definition fallback_plan (prompt : string) : plan :=
  mkPlan (JStr "Query intelligence unavailable — using prompt verbatim") (JStr "focused") [JStr prompt].

(** [_generate_research_plan] after the model's answer was parsed. *)
Definition research_plan (prompt : string) (answer : option json) : plan :=
  match answer with
  | Some (JObj o) =>
      let p := JObj o in
      let queries := match jget_default p "focused_queries" (JArr [JStr prompt]) with JArr (q :: l) => q :: l | _ => [JStr prompt] end in
      let strategy := match jget_default p "research_strategy" (JStr "focused") with
                      | JStr "deep" => JStr "deep"
                      | JStr "focused" => JStr "focused"
                      | _ => if Nat.ltb 1 (length queries) then JStr "deep" else JStr "focused"
                      end in
      mkPlan (jget_default p "reasoning" (JStr "")) strategy queries
  | _ => fallback_plan prompt
  end.

(** [_deep_source_target]. *)
Definition deep_source_target (query_count : nat) : Z := Z.max 3 (Z.min 5 (Z.of_nat query_count)).

(** ** The gaps *)

Definition nonblank (j : json) : option string :=
  match j with JStr s => if is_empty (strip s) then None else Some (strip s) | _ => None end.

Fixpoint all_topics (l : list json) : option (list string) :=
  match l with
  | [] => Some []
  | j :: l => match nonblank j, all_topics l with Some s, Some r => Some (s :: r) | _, _ => None end
  end.

(** [_detect_gaps] after the model's answer; the error's detail on the right. *)
Definition gap_topics (parsed : option json) : list string + string :=
  match parsed with
  | None => inr "Gap detection returned invalid JSON"
  | Some j =>
      let inner := match j with
                   | JObj l => if negb (Nat.eqb (length l) 0) && forallb (fun kv => String.eqb (fst kv) "topics") l
                               then Some (jget j "topics") else None
                   | _ => Some j
                   end in
      match inner with
      | None => inr "Gap detection returned an invalid topic object"
      | Some (JArr l) =>
          if Nat.ltb 5 (length l) then inr "Gap detection returned an invalid topic list"
          else match all_topics l with Some ts => inl ts | None => inr "Gap detection returned an invalid topic list" end
      | Some _ => inr "Gap detection returned an invalid topic list"
      end
  end.

Section Loop.
Context (valid_output : string -> bool) (rq : research_request).

Definition deep : bool := String.eqb (rq_search_type rq) "deep".
Definition max_passes : Z := if deep then 2 else 1.

(** The variables of the loop. *)
Record rstate := mkRState {
  s_pass : Z;
  s_scores : string -> option Z;          (* [material_contribution_score] of the registered artifacts, by URL *)
  s_details : list obj;
  s_credits : Z;
  s_context : string;
  s_evidence : json;
  s_cov : coverage;
  s_candidates : list string;
  s_artifacts : list SourceArtifact       (* the registry *)
}.

Definition init_coverage : coverage := mkCoverage 0 0 0 0 0 0 0 0 0 0 [] None None None.
Definition init_state : rstate := mkRState 0 (fun _ => None) [] 0 "" (JObj []) init_coverage [] [].

(** [dict.fromkeys]. *)
Definition fromkeys (l : list string) : list string := foldl (fun acc x => if mem x acc then acc else acc ++ [x]) [] l.

(** The update of the coverage after a discovery. *)
Definition add_coverage (n : Z) (d : Discovered) (c : coverage) : coverage :=
  mkCoverage (c_planned c + d_planned d) (c_executed c + d_executed d) (c_candidates c) (c_attempted c + d_attempted d)
    (c_successful c) (c_refusals c + d_refusals d) (c_failures c + d_failures d) (c_reused c + d_reused d) n
    (Z.max (c_minimum c) (d_minimum d)) (fromkeys (c_uncovered c ++ d_uncovered d)) (c_evidence c) (c_gap_check c) (c_target_met c).

Definition with_evidence (e : json) (c : coverage) : coverage :=
  mkCoverage (c_planned c) (c_executed c) (c_candidates c) (c_attempted c) (c_successful c) (c_refusals c) (c_failures c) (c_reused c)
    (c_pass c) (c_minimum c) (c_uncovered c) (Some e) (c_gap_check c) (c_target_met c).

Definition with_counts (successful candidates : Z) (c : coverage) : coverage :=
  mkCoverage (c_planned c) (c_executed c) candidates (c_attempted c) successful (c_refusals c) (c_failures c) (c_reused c)
    (c_pass c) (c_minimum c) (c_uncovered c) (c_evidence c) (c_gap_check c) (c_target_met c).

Definition with_gap_check (status : string) (c : coverage) : coverage :=
  mkCoverage (c_planned c) (c_executed c) (c_candidates c) (c_attempted c) (c_successful c) (c_refusals c) (c_failures c) (c_reused c)
    (c_pass c) (c_minimum c) (c_uncovered c) (c_evidence c) (Some status) (c_target_met c).

Definition with_target (met : bool) (c : coverage) : coverage :=
  mkCoverage (c_planned c) (c_executed c) (c_candidates c) (c_attempted c) (c_successful c) (c_refusals c) (c_failures c) (c_reused c)
    (c_pass c) (c_minimum c) (c_uncovered c) (c_evidence c) (c_gap_check c) (Some met).

(** *** Sources *)

Definition jscore (o : option Z) : json := from_option JNum JNull o.

(** [SourceArtifact.to_source_detail]. *)
Definition to_source_detail (scores : string -> option Z) (a : SourceArtifact) : obj :=
  [("url", JStr (a_url a)); ("source", a_source a); ("char_count", JNum (a_char_count a))]
  ++ search_metadata (JObj (a_discovery_metadata a))
  ++ match scores (a_url a) with Some n => [("material_contribution_score", JNum n)] | None => [] end.

(** [JevContributionFilter.retain]. *)
Definition retain (min_score : Z) (scores : string -> option Z) (a : SourceArtifact) : bool :=
  match scores (a_url a) with None => true | Some n => min_score <=? n end.

(** [assess_all]: the scores of the artifacts it was given. *)
Definition record_scores (scores : string -> option Z) (new : list SourceArtifact) (answer : SourceArtifact -> option Z) : string -> option Z :=
  foldl (fun sc a => fun u => if String.eqb u (a_url a) then answer a else sc u) scores new.

Definition evidence_source (scores : string -> option Z) (a : SourceArtifact) : json :=
  JObj [("id", JStr (a_url a)); ("url", JStr (a_url a)); ("markdown", JStr (default "" (a_markdown a)));
        ("material_contribution_score", jscore (scores (a_url a)))].

(** The entry of the coverage for a source. *)
Definition coverage_of (cov : json) (url : json) : json :=
  let same item := match jget item "id", url with JStr a, JStr b => String.eqb a b | _, _ => false end in
  default JNull (List.find same match jget cov "sources" with JArr l => l | _ => [] end).

Definition attach_coverage (cov : json) (detail : obj) : obj :=
  oset "evidence_coverage" (coverage_of cov (default JNull (assoc "url" detail))) detail.

Definition pending_event (urls : list string) : json :=
  JObj [("type", JStr "sources_pending");
        ("sources", JArr ((fun u => JObj [("url", JStr u); ("title", JStr ""); ("relevance", JStr "")]) <$> urls))].

(** What the first and the second pass ask for. *)
Definition first_search (queries : list json) : search_plan :=
  match queries with
  | q :: _ :: _ => Multi queries (deep_source_target (length queries))
  | q :: _ => Single q
  | [] => Single (JStr (rq_prompt rq))
  end.

Definition no_sources : string := "I was unable to find or scrape any relevant web pages.".
Definition no_contribution : string := "I found pages, but none appeared to materially contribute to this research question.".

(** The answer without sources. *)
Definition give_nothing (msg : string) (c : coverage) : rprog unit :=
  emit (ESources []) ;;
  emit (EDone (mkFinal msg [] [] (if rq_contents rq then Some [] else None) None c)).

(** How a pass ends: the generator has returned, or its loop goes on or ends. *)
Inductive verdict := Stop | Leave (s : rstate) | Again (s : rstate) (topics : list string).

(** After the evidence of a pass was selected: [previous] is the earlier context. *)
Definition after_evidence (msg : string) (s : rstate) (previous : string) : rprog verdict :=
  if (1 <? s_pass s) && String.eqb (s_context s) previous then Ret (Leave s)
  else if is_empty (s_context s) then give_nothing msg (s_cov s) ;; Ret Stop
  else if (s_pass s =? 1) && deep then
    let spent := match rq_max_credits rq with Some m => m <=? s_credits s | None => false end in
    let with_check st := mkRState (s_pass s) (s_scores s) (s_details s) (s_credits s) (s_context s) (s_evidence s)
                           (with_gap_check st (s_cov s)) (s_candidates s) (s_artifacts s) in
    if spent then Ret (Leave (with_check "budget_exhausted"))
    else
      await answer <- ask (QGaps (rq_prompt rq) (s_context s));
      let failed e :=
        if rq_stream rq then
          let c := with_gap_check "failed" (s_cov s) in
          match e with
          | RateLimited detail after => emit (EError detail (Some "retryable") (Some after) (Some c)) ;; Ret Stop
          | ProviderOutput detail => emit (EError detail (Some "non_retryable") None (Some c)) ;; Ret Stop
          | _ => Throw e
          end
        else Throw e in
      match answer with
      | GapRaise e => failed e
      | GapText parsed =>
          match gap_topics parsed with
          | inr detail => failed (ProviderOutput detail)
          | inl [] => Ret (Leave (with_check "adequate"))
          | inl topics => Ret (Again (with_check "gaps") topics)
          end
      end
  else Ret (Again s []).

(** The second half of a pass, with the scores of the artifacts: what is retained, its
    evidence, and the decision. *)
Definition use_discovery (d : Discovered) (scores : string -> option Z) (s : rstate) : rprog verdict :=
  let n := s_pass s + 1 in
  let cov := add_coverage n d (s_cov s) in
  let candidates := fromkeys (s_candidates s ++ (normalize_source_url <$> d_targets d)) in
  let kept := match rq_jev rq with
              | None => d_artifacts d
              | Some m => List.filter (retain m scores) (d_artifacts d)
              end in
  let details := match rq_jev rq with None => d_details d | Some _ => to_source_detail scores <$> kept end in
  let msg := match rq_jev rq, d_artifacts d, kept with Some _, _ :: _, [] => no_contribution | _, _, _ => no_sources end in
  let sources := match kept, rq_jev rq with
                 | _ :: _, _ => evidence_source scores <$> kept
                 | [], Some _ => []                     (* the context joined from no documents is empty *)
                 | [], None => if is_empty (d_context d) then [] else [JObj [("id", JStr "legacy-context"); ("markdown", JStr (d_context d))]]
                 end in
  await selected <- ask (QEvidence sources (rq_prompt rq) (rq_budget rq));
  match selected with
  | Raise e => Throw e
  | Ok sel =>
      let cov := with_evidence (sel_coverage sel) cov in
      let details := attach_coverage (sel_coverage sel) <$> details in
      if is_empty (sel_context sel) && is_empty (s_context s) then give_nothing msg cov ;; Ret Stop
      else
        let s' := mkRState n scores details (s_credits s + d_credits d) (sel_context sel) (sel_coverage sel)
                    (with_counts (Z.of_nat (length details)) (Z.of_nat (length candidates)) cov) candidates (d_artifacts d) in
        after_evidence msg s' (s_context s)
  end.

(** One pass of the loop. *)
Definition one_pass (search : search_plan) (urls : list string) (s : rstate) : rprog verdict :=
  let n := s_pass s + 1 in
  emit (EPass n max_passes) ;;
  emit (EStatus "searching") ;;
  let credits := (fun m => if n =? 1 then m else m - s_credits s) <$> rq_max_credits rq in
  await answer <- ask (QDiscover search urls credits n);
  match answer with
  | Raise e => Throw e
  | Ok d =>
      let pending := match urls with [] => [] | _ => [pending_event urls] end in
      emit_all (EProgress <$> pending ++ d_progress d) ;;
      await scores <- match rq_jev rq with
                      | None => Ret (s_scores s)
                      | Some _ => await r <- ask (QAssess (rq_prompt rq) (d_new d)); Ret (record_scores (s_scores s) (d_new d) r)
                      end;
      use_discovery d scores s
  end.

(** [while pass_count < max_passes]: the state to synthesize from, unless the generator returned. *)
Definition passes (queries : list json) : rprog (option rstate) :=
  await v <- one_pass (first_search queries) (rq_urls rq) init_state;
  match v with
  | Stop => Ret None
  | Leave s => Ret (Some s)
  | Again s topics =>
      if s_pass s <? max_passes then
        await v <- one_pass (Multi (JStr <$> topics) (deep_source_target (length topics))) [] s;
        match v with
        | Stop => Ret None
        | Leave s => Ret (Some s)
        | Again s _ => Ret (Some s)
        end
      else Ret (Some s)
  end.

(** *** The synthesis *)

Definition source_urls (details : list obj) : list json := (fun d => default JNull (assoc "url" d)) <$> details.

(** [_research_error_event]. *)
Definition research_error_event (content : option string) (classification retry_after : json) : revent :=
  EError (default "LLM provider failed" content) (match classification with JStr s => Some s | _ => None end)
    (match retry_after with JNum n => Some (JNum n) | _ => None end) None.

(** The tokens as they come: the answer, or nothing when an error ended the stream. *)
Fixpoint relay_tokens (acc : string) (l : list llm_event) : rprog (option string) :=
  match l with
  | [] => Ret (Some acc)
  | Token s :: l => emit (EToken s) ;; relay_tokens (acc +:+ s) l
  | LlmError m c r :: _ => emit (research_error_event m c r) ;; Ret None
  | LlmDone s :: l => relay_tokens s l
  end.

Definition llm_failure (e : exn) : rprog (option string) :=
  if rq_stream rq then
    match e with
    | RateLimited detail after => emit (EError detail (Some "retryable") (Some after) None) ;; Ret None
    | ProviderOutput detail | StructuredOutput detail => emit (EError detail (Some "non_retryable") None None) ;; Ret None
    | OtherError _ => Throw e
    end
  else Throw e.

(** The answer; [None] when an error event ended it. *)
Definition synthesize (s : rstate) : rprog (option string) :=
  if rq_schema rq || negb (rq_stream rq) then
    await answer <- ask (QGenerate (s_context s));
    match answer with
    | LlmRaise (StructuredOutput detail) => Throw (StructuredOutput detail)
    | LlmRaise e => llm_failure e
    | Text t =>
        if rq_schema rq && negb (valid_output t) then
          llm_failure (StructuredOutput "LLM response did not satisfy the requested output schema")
        else (if rq_schema rq then Ret tt else emit (ESources (source_urls (s_details s)))) ;; Ret (Some t)
    end
  else
    emit (ESources (source_urls (s_details s))) ;;
    await answer <- ask (QStream (s_context s));
    await r <- relay_tokens "" (fst answer);
    match r, snd answer with
    | Some _, Some e => Throw e
    | r, _ => Ret r
    end.

Definition contents (l : list SourceArtifact) : list (string * string) :=
  omap (fun a => match a_markdown a with Some m => if is_empty m then None else Some (a_url a, m) | None => None end) l.

(** [_run_research_events]. *)
Definition research_events : rprog unit :=
  match validate_evidence_budget (JNum (rq_budget rq)) with
  | None => Throw (OtherError "evidence_budget_chars must be an integer between 256 and 128000")
  | Some _ =>
  emit (EStatus "planning") ;;
  await answer <- ask (QPlan (rq_prompt rq));
  let p := research_plan (rq_prompt rq) answer in
  let strategy := if deep then JStr "deep" else if String.eqb (rq_search_type rq) "focused" then JStr "focused" else pl_strategy p in
  emit (EPlan strategy (pl_queries p) (pl_reasoning p)) ;;
  await st <- passes (pl_queries p);
  match st with
  | None => Ret tt
  | Some s =>
      emit (EStatus "synthesizing") ;;
      await r <- synthesize s;
      match r with
      | None => Ret tt
      | Some answer =>
          let urls := source_urls (s_details s) in
          (if rq_schema rq then emit (ESources urls) else Ret tt) ;;
          let n := Z.of_nat (length (s_details s)) in
          let c := with_counts n (Z.of_nat (length (s_candidates s))) (s_cov s) in
          let met := match c_uncovered c with [] => c_minimum c <=? n | _ => false end in
          emit (EDone (mkFinal answer urls (s_details s) (if rq_contents rq then Some (contents (s_artifacts s)) else None)
                        (Some (s_evidence s)) (with_target met c)))
      end
  end
  end.

End Loop.

(** ** A summary of what happened *)

Record summary := mkSum {
  g_plans : nat; g_discs : Z; g_gaps : nat; g_synths : nat;
  g_over : bool;                                (* a final event was yielded *)
  g_spent : Z;                                  (* credits of the discoveries *)
  g_honest : bool;                              (* each discovery kept to its credits *)
  g_disc : option Discovered;                   (* the last discovery *)
  g_scores : string -> option Z;
  g_sel : option Selected;                      (* the last evidence *)
  g_topics : option (list string);
  g_answer : option string
}.

Definition init_summary : summary := mkSum 0 0 0 0 false 0 true None (fun _ => None) None None None.

Definition terminal (e : revent) : bool := match e with EDone _ | EError _ _ _ _ => true | _ => false end.

Fixpoint streamed (acc : string) (l : list llm_event) : option string :=
  match l with
  | [] => Some acc
  | Token s :: l => streamed (acc +:+ s) l
  | LlmError _ _ _ :: _ => None
  | LlmDone s :: l => streamed s l
  end.

(** A discovery keeps to its credits; a negative number of them is no bound. *)
Definition within (credits : option Z) (used : Z) : bool :=
  (0 <=? used) && match credits with Some m => (m <? 0) || (used <=? m) | None => true end.

Definition note (g : summary) (x : happened reply) : summary :=
  match x with
  | Did q r =>
      match q return reply q -> summary with
      | QEmit e => fun _ =>
          if terminal e then
            mkSum (g_plans g) (g_discs g) (g_gaps g) (g_synths g) true (g_spent g) (g_honest g) (g_disc g) (g_scores g) (g_sel g) (g_topics g) (g_answer g)
          else g
      | QPlan _ => fun _ =>
          mkSum (S (g_plans g)) (g_discs g) (g_gaps g) (g_synths g) (g_over g) (g_spent g) (g_honest g) (g_disc g) (g_scores g) (g_sel g) (g_topics g) (g_answer g)
      | QDiscover _ _ credits _ => fun r =>
          match r with
          | Ok d => mkSum (g_plans g) (g_discs g + 1) (g_gaps g) (g_synths g) (g_over g) (g_spent g + d_credits d)
                      (g_honest g && within credits (d_credits d)) (Some d) (g_scores g) (g_sel g) (g_topics g) (g_answer g)
          | Raise _ => g
          end
      | QAssess _ new => fun r =>
          mkSum (g_plans g) (g_discs g) (g_gaps g) (g_synths g) (g_over g) (g_spent g) (g_honest g) (g_disc g) (record_scores (g_scores g) new r) (g_sel g)
            (g_topics g) (g_answer g)
      | QEvidence _ _ _ => fun r =>
          match r with
          | Ok sel => mkSum (g_plans g) (g_discs g) (g_gaps g) (g_synths g) (g_over g) (g_spent g) (g_honest g) (g_disc g) (g_scores g) (Some sel)
                        (g_topics g) (g_answer g)
          | Raise _ => g
          end
      | QGaps _ _ => fun r =>
          mkSum (g_plans g) (g_discs g) (S (g_gaps g)) (g_synths g) (g_over g) (g_spent g) (g_honest g) (g_disc g) (g_scores g) (g_sel g)
            (match r with GapText parsed => match gap_topics parsed with inl ts => Some ts | inr _ => None end | GapRaise _ => None end) (g_answer g)
      | QGenerate _ => fun r =>
          mkSum (g_plans g) (g_discs g) (g_gaps g) (S (g_synths g)) (g_over g) (g_spent g) (g_honest g) (g_disc g) (g_scores g) (g_sel g) (g_topics g)
            (match r with Text s => Some s | LlmRaise _ => None end)
      | QStream _ => fun r =>
          mkSum (g_plans g) (g_discs g) (g_gaps g) (S (g_synths g)) (g_over g) (g_spent g) (g_honest g) (g_disc g) (g_scores g) (g_sel g) (g_topics g)
            (streamed "" (fst r))
      end r
  end.

Definition summarize (h : list (happened reply)) : summary := foldl note init_summary h.

Section Discipline.
Context (valid_output : string -> bool) (rq : research_request).

(** The artifacts an answer may rest on. *)
Definition retained (g : summary) (d : Discovered) : list SourceArtifact :=
  match rq_jev rq with None => d_artifacts d | Some m => List.filter (retain m (g_scores g)) (d_artifacts d) end.

Definition details_of (g : summary) (d : Discovered) : list obj :=
  match rq_jev rq with None => d_details d | Some _ => to_source_detail (g_scores g) <$> retained g d end.

(** What a final answer rests on: nothing was found, or the synthesis of the last
    evidence, with the sources of the last discovery. *)
Definition grounded (g : summary) (f : final) : Prop :=
  (f_sources f = [] /\ f_details f = [] /\ (f_result f = no_sources \/ f_result f = no_contribution) /\ g_synths g = 0%nat) \/
  (exists d sel, g_disc g = Some d /\ g_sel g = Some sel /\ is_empty (sel_context sel) = false /\ g_answer g = Some (f_result f) /\
     f_details f = (attach_coverage (sel_coverage sel) <$> details_of g d) /\ f_sources f = source_urls (f_details f) /\
     (rq_jev rq <> None -> f_sources f = (fun a => JStr (a_url a)) <$> retained g d)).

(** The credits that were used. *)
Definition in_budget (g : summary) : Prop :=
  g_honest g = true -> 0 <= g_spent g /\ forall m, rq_max_credits rq = Some m -> 0 <= m -> g_spent g <= m.

Definition current (g : summary) (context : string) : Prop := sel_context <$> g_sel g = Some context /\ is_empty context = false.

(** What may be asked after what has happened. *)
Definition allowed (g : summary) (q : Req) : Prop :=
  g_over g = false /\ in_budget g /\
  match q with
  | QPlan p => g_plans g = 0%nat /\ p = rq_prompt rq
  | QDiscover p urls credits n =>
      n = g_discs g + 1 /\ n <= max_passes rq /\ credits = (fun m => m - g_spent g) <$> rq_max_credits rq /\
      (n = 1 -> urls = rq_urls rq) /\
      (n = 2 -> deep rq = true /\ urls = [] /\ (forall m, rq_max_credits rq = Some m -> g_spent g < m) /\
         exists topics, g_topics g = Some topics /\ topics <> [] /\ (length topics <= 5)%nat /\
           p = Multi (JStr <$> topics) (deep_source_target (length topics)))
  | QAssess p l => rq_jev rq <> None /\ p = rq_prompt rq /\ d_new <$> g_disc g = Some l
  | QEvidence srcs query budget =>
      query = rq_prompt rq /\ budget = rq_budget rq /\
      exists d, g_disc g = Some d /\ (retained g d <> [] -> srcs = evidence_source (g_scores g) <$> retained g d)
  | QGaps query context =>
      deep rq = true /\ g_gaps g = 0%nat /\ g_discs g = 1 /\ query = rq_prompt rq /\ current g context /\
      (forall m, rq_max_credits rq = Some m -> g_spent g < m)
  | QGenerate context => g_synths g = 0%nat /\ current g context /\ rq_schema rq || negb (rq_stream rq) = true
  | QStream context => g_synths g = 0%nat /\ current g context /\ rq_schema rq || negb (rq_stream rq) = false
  | QEmit (EPass n total) => n = g_discs g + 1 /\ total = max_passes rq
  | QEmit (EDone f) => grounded g f
  | QEmit (EError _ _ _ _) => rq_stream rq = true
  | QEmit _ => True
  end.

Definition ended (g : summary) : Prop := g_over g = true /\ in_budget g.
Definition broken (e : exn) (g : summary) : Prop := g_over g = false /\ in_budget g.

Notation rwp X := (swp note allowed X broken).

Lemma rwp_emit e (X : unit -> summary -> Prop) g : terminal e = false -> allowed g (QEmit e) -> X tt g -> rwp X (emit e) g.
Proof. intros T A H. split; [done|]. intros []. cbn. by rewrite T. Qed.

Lemma rwp_emit_all l (X : unit -> summary -> Prop) g : g_over g = false -> in_budget g -> X tt g -> rwp X (emit_all (EProgress <$> l)) g.
Proof. intros O B H. induction l as [|e l IH]; [done|]. cbn [fmap list_fmap emit_all]. apply swp_bind, rwp_emit; [done|done|]. exact IH. Qed.

Definition over (g : summary) : summary :=
  mkSum (g_plans g) (g_discs g) (g_gaps g) (g_synths g) true (g_spent g) (g_honest g) (g_disc g) (g_scores g) (g_sel g) (g_topics g) (g_answer g).

Lemma rwp_last e (X : unit -> summary -> Prop) g : terminal e = true -> allowed g (QEmit e) -> X tt (over g) -> rwp X (emit e) g.
Proof. intros T A H. split; [done|]. intros []. cbn. by rewrite T. Qed.

Lemma rwp_nothing msg c (X : unit -> summary -> Prop) g : g_over g = false -> in_budget g -> g_synths g = 0%nat ->
  msg = no_sources \/ msg = no_contribution -> X tt (over g) -> rwp X (give_nothing rq msg c) g.
Proof.
  intros O B N M H. apply swp_bind, rwp_emit; [done|done|]. apply rwp_last; [done| |done].
  split_and!; [done|done|]. left. cbn. split_and!; try done.
Qed.

(** *** The state of the loop *)

Record tracks (s : rstate) (g : summary) : Prop := {
  t_over : g_over g = false;
  t_budget : in_budget g;
  t_synths : g_synths g = 0%nat;
  t_pass : s_pass s = g_discs g;
  t_scores : s_scores s = g_scores g;
  t_credits : s_credits s = g_spent g;
  t_first : s_pass s = 0 -> s_context s = "" /\ g_spent g = 0 /\ g_gaps g = 0%nat
}.

Record gathered (s : rstate) (g : summary) : Prop := {
  h_tracks : tracks s g;
  h_context : is_empty (s_context s) = false;
  h_sources : exists d sel, g_disc g = Some d /\ g_sel g = Some sel /\ sel_context sel = s_context s /\ sel_coverage sel = s_evidence s /\
    s_details s = (attach_coverage (sel_coverage sel) <$> details_of g d) /\ s_artifacts s = d_artifacts d
}.

(** What a pass leaves behind. *)
Definition after_pass (n : Z) (v : verdict) (g : summary) : Prop :=
  match v with
  | Stop => ended g
  | Leave s => gathered s g /\ s_pass s = n
  | Again s topics =>
      gathered s g /\ s_pass s = n /\
      (n = 1 -> deep rq = true -> g_topics g = Some topics /\ topics <> [] /\ (length topics <= 5)%nat /\
         forall m, rq_max_credits rq = Some m -> g_spent g < m)
  end.

Lemma all_topics_length l ts : all_topics l = Some ts -> length ts = length l.
Proof.
  revert ts. induction l as [|j l IH]; cbn; intros ts; [by intros [= <-]|].
  destruct (nonblank j), (all_topics l); try done. intros [= <-]. cbn. by rewrite (IH l0).
Qed.

Lemma gap_topics_bound parsed ts : gap_topics parsed = inl ts -> (length ts <= 5)%nat.
Proof.
  unfold gap_topics. destruct parsed as [j|]; [|done]. cbv zeta.
  match goal with |- context [match ?x with None => _ | Some _ => _ end = _] => destruct x as [[]|]; try done end.
  destruct (Nat.ltb_spec 5 (length l)); [done|]. destruct (all_topics l) as [ts'|] eqn:E; [|done]. intros [= <-].
  apply all_topics_length in E. lia.
Qed.

Record selected_from (s : rstate) (g : summary) : Prop := {
  sf_tracks : tracks s g;
  sf_sources : exists d sel, g_disc g = Some d /\ g_sel g = Some sel /\ sel_context sel = s_context s /\ sel_coverage sel = s_evidence s /\
    s_details s = (attach_coverage (sel_coverage sel) <$> details_of g d) /\ s_artifacts s = d_artifacts d
}.

Lemma gathered_of s g : selected_from s g -> is_empty (s_context s) = false -> gathered s g.
Proof. intros [] H. by split. Qed.

(** A failed gap detection: an error event, or the exception. *)
Lemma gap_failed_rwp e c n g : g_over g = false -> in_budget g ->
  rwp (after_pass n)
    (if rq_stream rq then
       match e with
       | RateLimited detail after => emit (EError detail (Some "retryable") (Some after) (Some c)) ;; Ret Stop
       | ProviderOutput detail => emit (EError detail (Some "non_retryable") None (Some c)) ;; Ret Stop
       | _ => Throw e
       end
     else Throw e) g.
Proof.
  intros O B. destruct (rq_stream rq) eqn:S; [|done]. destruct e; try done; apply swp_bind, rwp_last; done.
Qed.

Lemma after_evidence_rwp msg s prev g n : selected_from s g -> s_pass s = n -> (n = 1 -> g_gaps g = 0%nat) ->
  msg = no_sources \/ msg = no_contribution -> (1 < n -> is_empty prev = false) ->
  rwp (after_pass n) (after_evidence rq msg s prev) g.
Proof.
  intros HS Hn Hg Hm Hp. destruct (sf_tracks _ _ HS) as [O B N P SC C F]. unfold after_evidence.
  destruct ((1 <? s_pass s) && _) eqn:E1.
  { apply andb_true_iff in E1 as [E1%Z.ltb_lt E2%String.eqb_eq]. split; [|done]. apply gathered_of; [done|]. rewrite E2. apply Hp. lia. }
  destruct (is_empty (s_context s)) eqn:E2; [by apply swp_bind, rwp_nothing|].
  destruct ((s_pass s =? 1) && deep rq) eqn:E3.
  2:{ split_and!; [by apply gathered_of|done|]. intros -> D. rewrite D, Hn, andb_true_r in E3. by apply Z.eqb_neq in E3. }
  apply andb_true_iff in E3 as [E3%Z.eqb_eq D]. cbv zeta. destruct (match rq_max_credits rq with Some m => _ | None => _ end) eqn:E4.
  { split; [|done]. apply gathered_of; [|done]. destruct HS as [[] S]. split; [by split|exact S]. }
  assert (SP : forall m, rq_max_credits rq = Some m -> g_spent g < m).
  { intros m Hmx. rewrite Hmx, C in E4. by apply Z.leb_gt in E4. }
  destruct (sf_sources _ _ HS) as (d' & sel & Hd & Hsel & Hc & Hv & Hdet & Ha).
  apply swp_bind. split.
  { split_and!; try done; [by apply Hg; lia|lia|]. split; [|done]. rewrite Hsel. cbn. by rewrite Hc. }
  intros answer. set (g' := note g _). cbn [swp].
  assert (T' : forall st, selected_from (mkRState (s_pass s) (s_scores s) (s_details s) (s_credits s) (s_context s) (s_evidence s)
                           (with_gap_check st (s_cov s)) (s_candidates s) (s_artifacts s)) g').
  { intros st. split; [split; try done; cbn; lia|]. exists d', sel. by split_and!. }
  destruct answer as [parsed|e]; [|by apply gap_failed_rwp].
  destruct (gap_topics parsed) as [[|t ts]|detail] eqn:G; [| |by apply (gap_failed_rwp (ProviderOutput detail))].
  - split; [|done]. by apply gathered_of.
  - split_and!; [by apply gathered_of|done|]. intros _ _. unfold g'. cbn. rewrite G. split_and!; try done.
    exact (gap_topics_bound parsed _ G).
Qed.

Lemma budget_disc g d : in_budget g -> in_budget (mkSum (g_plans g) (g_discs g + 1) (g_gaps g) (g_synths g) (g_over g) (g_spent g + d_credits d)
    (g_honest g && within ((fun m => m - g_spent g) <$> rq_max_credits rq) (d_credits d)) (Some d) (g_scores g) (g_sel g) (g_topics g) (g_answer g)).
Proof.
  intros B [H1 H2]%andb_true_iff. unfold within in H2. apply andb_true_iff in H2 as [H2%Z.leb_le H3]. cbn. destruct (B H1) as [B1 B2].
  split; [lia|]. intros m Hm Hp. rewrite Hm in H3. cbn in H3.
  specialize (B2 m Hm Hp). apply orb_true_iff in H3 as [H3%Z.ltb_lt|H3%Z.leb_le]; lia.
Qed.

(** The messages of an answer without sources. *)
Lemma message_ok (j : option Z) (l r : list SourceArtifact) :
  let msg := match j, l, r with Some _, _ :: _, [] => no_contribution | _, _, _ => no_sources end in msg = no_sources \/ msg = no_contribution.
Proof. destruct j, l, r; cbn; auto. Qed.

(** What the second pass needs. *)
Definition may_search (search : search_plan) (urls : list string) (s : rstate) (g : summary) : Prop :=
  s_pass s + 1 <= max_passes rq /\ (s_pass s = 0 -> urls = rq_urls rq) /\ 0 <= s_pass s /\
  (s_pass s = 1 -> deep rq = true /\ urls = [] /\ (forall m, rq_max_credits rq = Some m -> g_spent g < m) /\
     exists topics, g_topics g = Some topics /\ topics <> [] /\ (length topics <= 5)%nat /\
       search = Multi (JStr <$> topics) (deep_source_target (length topics))).

Lemma use_discovery_rwp d scores s g n : g_scores g = scores -> g_over g = false -> in_budget g -> g_synths g = 0%nat -> g_discs g = n ->
  g_spent g = s_credits s + d_credits d -> g_disc g = Some d -> s_pass s + 1 = n -> 0 <= s_pass s -> (n = 1 -> g_gaps g = 0%nat) ->
  (1 < n -> is_empty (s_context s) = false) -> rwp (after_pass n) (use_discovery rq d scores s) g.
Proof.
  intros SC O B N P C D Hn H0 HG Hctx. unfold use_discovery. cbv zeta.
  pose proof (message_ok (rq_jev rq) (d_artifacts d) (match rq_jev rq with None => d_artifacts d | Some m => List.filter (retain m scores) (d_artifacts d) end)) as HM.
  cbv zeta in HM. apply swp_bind. split.
  { split_and!; [done|done|done|done|]. exists d. split; [done|]. unfold retained. rewrite SC. intros Hr.
    set (kept := match rq_jev rq with None => d_artifacts d | Some m => List.filter (retain m scores) (d_artifacts d) end) in *.
    by destruct kept. }
  intros [sel|e]; [|done]. set (g' := note g _). cbn [swp].
  destruct (is_empty (sel_context sel) && is_empty (s_context s)); [by apply swp_bind, rwp_nothing|].
  apply after_evidence_rwp; [|exact Hn|exact HG|exact HM|exact Hctx].
  split; [split; try done; cbn; lia|]. exists d, sel. split_and!; try done. cbn. unfold details_of, retained. cbn. rewrite SC. done.
Qed.

Lemma one_pass_rwp search urls s g : tracks s g -> (1 <= s_pass s -> is_empty (s_context s) = false) -> may_search search urls s g ->
  rwp (after_pass (s_pass s + 1)) (one_pass rq search urls s) g.
Proof.
  intros [O B N P SC C F] Hctx (M1 & M2 & M0 & M3). unfold one_pass. cbv zeta.
  apply swp_bind, rwp_emit; [done|split_and!; [done|done|lia|done]|]. apply swp_bind, rwp_emit; [done|done|]. apply swp_bind.
  assert (CR : (fun m => if s_pass s + 1 =? 1 then m else m - s_credits s) <$> rq_max_credits rq = (fun m => m - g_spent g) <$> rq_max_credits rq).
  { destruct (rq_max_credits rq) as [m|]; [|done]. cbn. f_equal. destruct (Z.eqb_spec (s_pass s + 1) 1) as [E|]; [|by rewrite C].
    destruct F as (_ & F & _); lia. }
  rewrite CR. split.
  { split_and!; [done|done|lia|done|done|intros; apply M2; lia|intros; apply M3; lia]. }
  intros [d|e]; [|done]. set (g1 := note g _). assert (B1 : in_budget g1) by (by apply budget_disc).
  cbn [swp]. apply swp_bind, rwp_emit_all; [done|done|]. apply swp_bind.
  assert (FG : s_pass s + 1 = 1 -> g_gaps g = 0%nat) by (intros; apply F; lia).
  destruct (rq_jev rq) eqn:J; [apply swp_bind; split; [by split_and!; rewrite ?J|]; intros r|]; cbn [swp];
    (apply use_discovery_rwp; cbn; rewrite ?SC, ?C, ?P; try done; try lia; intros; apply Hctx; lia).
Qed.

(** *** The whole loop *)

Lemma passes_rwp queries g : tracks init_state g ->
  rwp (fun o g => match o with None => ended g | Some s => gathered s g end) (passes rq queries) g.
Proof.
  intros T. unfold passes. apply swp_bind. eapply swp_conseq; [|apply one_pass_rwp; [exact T|cbn; lia|]].
  2:{ split_and!; cbn; try lia; [|done]. unfold max_passes. destruct (deep rq); lia. }
  intros v g1. cbn [init_state s_pass]. destruct v as [|s|s topics]; cbn [after_pass swp]; [done|by intros [? _]|].
  intros (HG & Hn & HT). destruct (Z.ltb_spec (s_pass s) (max_passes rq)) as [L|]; [|exact HG].
  assert (D : deep rq = true) by (unfold max_passes in L; destruct (deep rq); lia).
  destruct (HT eq_refl D) as (T1 & T2 & T3 & T4). apply swp_bind.
  eapply swp_conseq; [|apply one_pass_rwp; [apply HG|intros _; apply HG|]].
  - intros v2 g2. destruct v2 as [|s2|s2 ts2]; cbn [after_pass swp]; [done|by intros [? _]|by intros [? _]].
  - split_and!; [lia|lia|lia|]. intros _. split_and!; try done. exists topics. by split_and!.
Qed.

(** After the synthesis: an error ended it, or the answer is known and the rest unchanged. *)
Definition synthesized (g : summary) (o : option string) (g' : summary) : Prop :=
  match o with
  | None => ended g'
  | Some a => g_over g' = false /\ in_budget g' /\ g_answer g' = Some a /\ g_disc g' = g_disc g /\ g_sel g' = g_sel g /\ g_scores g' = g_scores g
  end.

Lemma relay_rwp l acc g : rq_stream rq = true -> g_over g = false -> in_budget g ->
  rwp (fun o g' => o = streamed acc l /\ g' = (match o with None => over g | Some _ => g end)) (relay_tokens acc l) g.
Proof.
  intros S O B. revert acc. induction l as [|[s|m cl r|s] l IH]; intros acc; cbn [relay_tokens streamed]; [done| | |].
  - apply swp_bind, rwp_emit; [done|done|]. apply IH.
  - apply swp_bind, rwp_last; done.
  - apply IH.
Qed.

Lemma failure_rwp e g g' : g_over g' = false -> in_budget g' -> rwp (synthesized g) (llm_failure rq e) g'.
Proof.
  intros O B. unfold llm_failure. destruct (rq_stream rq) eqn:S; [|done]. destruct e; try done; apply swp_bind, rwp_last; done.
Qed.

Lemma synthesize_rwp s g : gathered s g -> rwp (synthesized g) (synthesize valid_output rq s) g.
Proof.
  intros [[O B N P SC C F] Hc (d & sel & Hd & Hs & Hctx & _)]. unfold synthesize.
  assert (CU : current g (s_context s)) by (split; [by rewrite Hs; cbn; rewrite Hctx|done]).
  destruct (rq_schema rq || negb (rq_stream rq)) eqn:M.
  - apply swp_bind. split; [done|]. intros [t|e]; cbn [swp].
    + destruct (rq_schema rq && negb (valid_output t)); [by apply failure_rwp|]. apply swp_bind.
      destruct (rq_schema rq); [by cbn|]. apply rwp_emit; [done|done|]. by cbn.
    + destruct e; try (by apply failure_rwp). by cbn.
  - apply orb_false_iff in M as [M1 M2]. apply negb_false_iff in M2. apply swp_bind, rwp_emit; [done|done|]. apply swp_bind. split.
    { split_and!; try done. by rewrite M1, M2. }
    intros [l ex]. cbn [swp fst snd]. apply swp_bind. eapply swp_conseq; [|by apply relay_rwp]. intros o g' [-> ->].
    destruct (streamed "" l) as [a|] eqn:E; [destruct ex; [by cbn|]|]; cbn [swp]; split_and!; try done.
Qed.

Lemma detail_url scores a : assoc "url" (to_source_detail scores a) = Some (JStr (a_url a)).
Proof.
  unfold to_source_detail. rewrite !assoc_app, search_metadata_lookup. cbn. by destruct (scores (a_url a)).
Qed.

Lemma urls_attached cov l : source_urls (attach_coverage cov <$> l) = source_urls l.
Proof.
  unfold source_urls. rewrite <- list_fmap_compose. apply list_fmap_ext. intros i x _. cbn. unfold attach_coverage. by rewrite assoc_oset_ne.
Qed.

Lemma urls_details scores l : source_urls (to_source_detail scores <$> l) = (fun a => JStr (a_url a)) <$> l.
Proof. unfold source_urls. rewrite <- list_fmap_compose. apply list_fmap_ext. intros i x _. unfold compose. by rewrite detail_url. Qed.

Lemma research_rwp : rwp (fun _ => ended) (research_events valid_output rq) init_summary.
Proof.
  assert (B0 : in_budget init_summary) by (intros _; split; [done|by intros]).
  unfold research_events. destruct (validate_evidence_budget _); [|done].
  apply swp_bind, rwp_emit; [done|done|]. apply swp_bind. split; [done|]. intros answer. set (g := note _ _). cbn [swp]. cbv zeta.
  apply swp_bind, rwp_emit; [done|done|]. apply swp_bind.
  eapply swp_conseq; [|apply passes_rwp; by split]. intros [s|] g1; [|by cbn]. intros HG.
  pose proof HG as [[O B N P SC C F] Hc (d & sel & Hd & Hs & Hctx & Hcov & Hdet & Hart)].
  apply swp_bind, rwp_emit; [done|done|]. apply swp_bind. eapply swp_conseq; [|by apply synthesize_rwp].
  intros [a|] g2; [|by cbn]. intros (O2 & B2 & A2 & D2 & S2 & SC2). apply swp_bind.
  assert (FIN : forall f, f_result f = a -> f_details f = s_details s -> f_sources f = source_urls (s_details s) -> grounded g2 f).
  { intros f F1 F2 F3. right. exists d, sel.
    assert (DE : details_of g2 d = details_of g1 d) by (unfold details_of, retained; by rewrite SC2).
    split_and!; [congruence|congruence|congruence|congruence|by rewrite DE, F2|by rewrite F2|].
    intros J. rewrite F3, Hdet, urls_attached. unfold details_of, retained. rewrite SC2. destruct (rq_jev rq) eqn:E; [|done]. apply urls_details. }
  destruct (rq_schema rq); [apply rwp_emit; [done|done|]|cbn [swp]]; (apply rwp_last; [done| |done]); (split_and!; [done|done|]); by apply FIN.
Qed.

End Discipline.

(** ** [run_research] *)

(** The first final result among the events. *)
Fixpoint first_final (h : list (happened reply)) : option final :=
  match h with
  | [] => None
  | Did (QEmit (EDone f)) _ :: _ => Some f
  | _ :: h => first_final h
  end.

(** The wording of an answer without sources. *)
Definition worded (f : final) : final :=
  match f_sources f with
  | [] => if String.eqb (f_result f) no_sources then
            mkFinal "I was unable to find or scrape any relevant web pages to answer your question." [] (f_details f) (f_contents f) (f_evidence f) (f_coverage f)
          else f
  | _ => f
  end.

Definition no_terminal_event : exn := OtherError "Research event engine ended without a terminal done event".

(** [run_research]: the events are consumed up to the final one. *)
Definition run_research (valid_output : string -> bool) (rq : research_request) (env : list (happened reply) -> forall q, reply q) : outcome final exn :=
  let '(o, h) := run env [] (research_events valid_output rq) in
  match first_final h with
  | Some f => Ok (worded f)
  | None => match o with Raise e => Raise e | Ok _ => Raise no_terminal_event end
  end.

Lemma snoc_cases {A} (l : list A) : l = [] \/ exists t x, l = t ++ [x].
Proof. induction l as [|x l _] using rev_ind; eauto. Qed.

Section Theorems.
Context (valid_output : string -> bool) (rq : research_request).
Context (env : list (happened reply) -> forall q, reply q).

Definition trace : list (happened reply) := snd (run env [] (research_events valid_output rq)).
Definition result : outcome unit exn := fst (run env [] (research_events valid_output rq)).

Definition final_event (x : happened reply) : bool := match x with Did (QEmit e) _ => terminal e | _ => false end.

Lemma over_spec h : g_over (summarize h) = existsb final_event h.
Proof.
  assert (H : forall g, g_over (foldl note g h) = g_over g || existsb final_event h); [|apply H].
  induction h as [|[q r] h IH]; intros g; cbn [foldl existsb]; [by rewrite orb_false_r|]. rewrite IH, orb_assoc. f_equal.
  destruct q as [e| | | | | | |]; cbn; try (by rewrite orb_false_r); [destruct (terminal e); cbn; by rewrite ?orb_true_r, ?orb_false_r|..];
    destruct r; cbn; by rewrite orb_false_r.
Qed.

Lemma trace_allowed i q r : trace !! i = Some (Did q r) -> allowed rq (summarize (take i trace)) q.
Proof. intros H. exact (wp_trace _ _ _ env _ i q r (swp_wp note _ _ _ _ init_summary [] (research_rwp valid_output rq)) H). Qed.

Lemma trace_end : match result with Ok _ => ended rq (summarize trace) | Raise e => broken rq e (summarize trace) end.
Proof. exact (wp_result _ _ _ env _ (swp_wp note _ _ _ _ init_summary [] (research_rwp valid_output rq))). Qed.

(** Before each question no final event was yielded. *)
Lemma trace_before t x t' : trace = t ++ x :: t' -> existsb final_event t = false.
Proof.
  intros E. destruct x as [q r]. pose proof (trace_allowed (length t) q r) as H.
  rewrite E, list_lookup_middle in H by done. destruct (H eq_refl) as [O _]. by rewrite take_app_length, over_spec in O.
Qed.

(** C10.  The discipline of a research run, whatever the model, the search and the pages
    answer and wherever it is interrupted: one plan; at most two discoveries, numbered
    in order, the second only in deep mode, for the topics of a successful gap check,
    and each with the credits that are left; the filter and the selection of evidence
    work on the last discovery and its retained artifacts; one gap check at most, and
    none when the credits are spent; one synthesis, on the evidence selected last,
    which is not empty; error events only in streaming mode; and nothing after the
    final event. *)
Theorem research_protocol i :
  match trace !! i with
  | Some (Did q r) => allowed rq (summarize (take i trace)) q
  | None => True
  end.
Proof. destruct (trace !! i) as [[q r]|] eqn:E; [|done]. by eapply trace_allowed. Qed.


(**  A research run ends with exactly one final event, or with an exception and
    none; and [run_research] returns a result exactly when the events end normally:
    its own error about a missing final event cannot occur. *)
Theorem research_ends :
  match result with
  | Ok _ => (exists t e r, trace = t ++ [Did (QEmit e) r] /\ terminal e = true /\ existsb final_event t = false) /\
            (rq_stream rq = false -> exists f, run_research valid_output rq env = Ok f)
  | Raise e => existsb final_event trace = false /\ run_research valid_output rq env = Raise e
  end.
Proof.
  pose proof trace_end as H. unfold run_research.
  rewrite (surjective_pairing (run env [] (research_events valid_output rq))). fold result trace.
  assert (FF : forall t, existsb final_event t = false -> first_final t = None).
  { induction t as [|[q r] t IH]; [done|]. cbn. intros [H1 H2]%orb_false_iff. destruct q as [[]| | | | | | |]; auto; done. }
  destruct result as [[]|e].
  - destruct H as [O _]. rewrite over_spec in O. destruct (snoc_cases trace) as [T|(t & x & E)]; [by rewrite T in O|].
    pose proof (trace_before t x [] E) as N. rewrite E, existsb_app, N in O. cbn in O. rewrite orb_false_r in O.
    destruct x as [q r]. destruct q as [e| | | | | | |]; try done. cbn in O. split; [by exists t, e, r|].
    intros S. destruct e; try done.
    + exfalso. pose proof (trace_allowed (length t) _ r) as A. rewrite E, list_lookup_middle in A by done. destruct (A eq_refl) as (_ & _ & X). congruence.
    + rewrite E. clear E. induction t as [|[q' r'] t IH]; [by eexists|]. cbn in N. apply orb_false_iff in N as [N1 N2].
      cbn [app first_final]. destruct q' as [[]| | | | | | |]; try (by apply IH); done.
  - destruct H as [O _]. rewrite over_spec in O. by rewrite FF.
Qed.

(** *** Credits *)

Definition honest_env : Prop := forall h p urls credits n d, env h (QDiscover p urls credits n) = Ok d -> within credits (d_credits d) = true.

Lemma honest_run {A} (p : rprog A) h : honest_env -> g_honest (summarize h) = true -> g_honest (summarize (snd (run env h p))) = true.
Proof.
  intros HE. revert h. induction p as [a|e|q k IH]; intros h H; cbn; [done|done|]. apply IH. unfold summarize in *. rewrite foldl_app. cbn.
  destruct q; cbn; try done; [by case_match| |by case_match].
  destruct (env h (QDiscover p urls max_credits pass_number)) as [d|] eqn:E; cbn; [|done]. by rewrite H, (HE _ _ _ _ _ _ E).
Qed.

(** The credits of the discoveries in a run. *)
Definition credits_of (x : happened reply) : Z :=
  match x with
  | Did q r => match q return reply q -> Z with
               | QDiscover _ _ _ _ => fun r => match r with Ok d => d_credits d | Raise _ => 0 end
               | _ => fun _ => 0
               end r
  end.
Definition total_credits (h : list (happened reply)) : Z := foldr (fun x n => credits_of x + n) 0 h.

Lemma spent_spec h : g_spent (summarize h) = total_credits h.
Proof.
  assert (H : forall g, g_spent (foldl note g h) = g_spent g + total_credits h); [|apply H].
  induction h as [|[q r] h IH]; intros g; cbn [foldl total_credits foldr]; [lia|]. rewrite IH. fold (total_credits h). generalize (total_credits h). intros n.
  destruct q; cbn in *; try lia; case_match; cbn; lia.
Qed.

(** C12.  The credits of a request hold for all its passes together: if every discovery
    keeps to the credits it is given, the discoveries of a run together use at most the
    credits of the request. *)
Theorem research_within_credits m : honest_env -> rq_max_credits rq = Some m -> 0 <= m -> 0 <= total_credits trace <= m.
Proof.
  intros HE Hm H0. rewrite <- spent_spec. pose proof (honest_run (research_events valid_output rq) [] HE eq_refl) as HH. fold trace in HH.
  pose proof trace_end as H. assert (B : in_budget rq (summarize trace)) by (destruct result; apply H).
  destruct (B HH) as [B1 B2]. split; [done|]. by apply B2.
Qed.

End Theorems.

(** ** Runs

    Two queries, one page each pass, a gap, and three credits. *)

Definition demo_request : research_request := mkRResearch "compare a and b" [] false (Some 3) "deep" false false 32000 (Some 100000).

Definition demo_artifact (u text : string) : SourceArtifact := mkArtifact u "" "" (Some text) (JStr "web") 4 None None None [].

Definition demo_discovered (l new : list SourceArtifact) : Discovered :=
  mkDiscovered "" [] l new (a_url <$> l) (Z.of_nat (length new)) 1 1 1 0 0 0 3 [] [].

Definition demo_env (_ : list (happened reply)) (q : Req) : reply q :=
  match q with
  | QEmit _ => tt
  | QPlan _ => Some (JObj [("focused_queries", JArr [JStr "a"; JStr "b"])])
  | QDiscover _ _ credits n =>
      let a := demo_artifact "https://a.org/" "a" in
      let b := demo_artifact "https://b.org/" "b" in
      let c := demo_artifact "https://c.org/" "c" in
      if n =? 1 then Ok (demo_discovered [a; b] (match credits with Some m => take (Z.to_nat m) [a; b] | None => [a; b] end))
      else Ok (demo_discovered [a; b; c] (match credits with Some m => take (Z.to_nat m) [c] | None => [c] end))
  | QAssess _ _ => fun a => if String.eqb (a_url a) "https://b.org/" then Some 20000 else Some 900000
  | QEvidence srcs _ _ => Ok (mkSelected (sjoin ";" ((fun s => match jget s "url" with JStr u => u | _ => "" end) <$> srcs)) (JObj []))
  | QGaps _ _ => GapText (Some (JObj [("topics", JArr [JStr "c"])]))
  | QGenerate context => Text ("from " +:+ context)
  | QStream context => ([], None)
  end.

Definition demo_valid (_ : string) : bool := true.

Definition demo_final : final :=
  default (mkFinal "" [] [] None None init_coverage) (first_final (trace demo_valid demo_request demo_env)).


Lemma research_within_credits_witness :
  total_credits (trace demo_valid demo_request demo_env) = 3 /\ 0 <= total_credits (trace demo_valid demo_request demo_env) <= 3.
Proof.
  split; [vm_compute; reflexivity|]. apply (research_within_credits demo_valid demo_request demo_env 3); [|reflexivity|lia].
  assert (W : forall credits (l : list SourceArtifact), within credits (Z.of_nat (length (match credits with Some m => take (Z.to_nat m) l | None => l end))) = true).
  { intros [m|] l; unfold within; apply andb_true_iff; (split; [apply Z.leb_le; lia|]); [|reflexivity]. rewrite length_take.
    destruct (Z.ltb_spec m 0); [reflexivity|]. apply Z.leb_le. lia. }
  intros h p urls credits n d H. cbn in H. destruct (n =? 1); injection H as <-; apply W.
Defined.
