(* ===== verification/ResearchState.v ===== *)
(** * The projection of research events ([src/agent-svc/agent/research/state.py])

    [apply_research_event] folds the events of a research run into a compact state that
    can be shown and replayed.  An event is a decoded object, a source the fields kept of
    one; [None] is the exception of an event without a type or whose lists are none, and a
    URL is a text, as the types of the events say.  The copies that keep the old state
    as it was are not shown, a state being a value.

    The theorems: whatever the events, the state lists every URL once and every source
    under one entry, keeps of a source the listed fields only, and says completed exactly
    when the last ending of the run is a result; and it depends on no token, no text of an
    answer and no evidence. *)

From S2P Require Import Prelude Strings Url Json SearchMeta.

Definition obj : Type := list (string * json).
Definition event : Type := obj.

(** [ResearchState]. *)
Record ResearchState := mkRS {
  objective : string; rs_status : json; rs_plan : option (json * list json * json); rs_pass : json; rs_total : json;
  pending_sources : list obj; source_metadata : list obj; rs_urls : list string; rs_completed : bool; rs_error : json
}.

Definition initial_research_state (o : string) : ResearchState := mkRS o JNull None JNull JNull [] [] [] false JNull.

Definition SOURCE_FIELDS : list string := ["url"; "title"; "relevance"; "source"; "chars"].

(** [d.update(e)]. *)
Definition oupdate (d e : obj) : obj := foldl (fun acc kv => oset (fst kv) (snd kv) acc) d e.

(** [_compact_source]. *)
Definition compact_source (source : obj) : obj :=
  let compact := SOURCE_FIELDS ≫= (fun k => match assoc k source with Some v => [(k, v)] | None => [] end) in
  let compact := oupdate compact (List.filter (fun kv => negb (String.eqb (fst kv) "type")) (search_metadata (JObj source))) in
  match assoc "char_count" source with Some v => oset "chars" v compact | None => compact end.

(** [_compact_sources]. *)
Definition compact_sources (l : list json) : list obj :=
  omap (fun j => match j with JObj o => match compact_source o with [] => None | c => Some c end | _ => None end) l.

(** [source.get("url")] when it is a text that is not empty. *)
Definition url_of (o : obj) : option string :=
  match assoc "url" o with Some (JStr u) => if is_empty u then None else Some u | _ => None end.

Definition same_url (u : string) (o : obj) : bool := match url_of o with Some v => String.eqb u v | None => false end.

(** [match.update(source)] of the first entry with the URL, or a new entry. *)
Fixpoint merge_source (merged : list obj) (source : obj) : list obj :=
  match merged with
  | [] => [source]
  | o :: merged => match url_of source with
                   | Some u => if same_url u o then oupdate o source :: merged else o :: merge_source merged source
                   | None => o :: merge_source merged source
                   end
  end.

(** [_merge_sources]. *)
Definition merge_sources (existing additions : list obj) : list obj :=
  foldl (fun merged s => match s with [] => merged | _ => merge_source merged s end) existing additions.

(** [_add_url_values]. *)
Definition add_url (urls : list string) (v : json) : list string :=
  match v with JStr u => if is_empty u || mem u urls then urls else urls ++ [u] | _ => urls end.
Definition add_url_values (urls : list string) (l : list json) : list string := foldl add_url urls l.

(** [_add_source_urls]. *)
Definition add_source_urls (urls : list string) (l : list obj) : list string := add_url_values urls ((fun s => default JNull (assoc "url" s)) <$> l).

(** The first pending source with the URL, and the others. *)
Fixpoint pop_pending (u : string) (l : list obj) : obj * list obj :=
  match l with
  | [] => ([], [])
  | o :: l => if same_url u o then (o, l) else let '(p, r) := pop_pending u l in (p, o :: r)
  end.

Definition as_list (j : json) : option (list json) := match j with JArr l => Some l | _ => None end.

(** [apply_research_event], the branches on the type of the event. *)
Definition apply_typed (s : ResearchState) (t : string) (e : event) : option ResearchState :=
  let get k d := default d (assoc k e) in
  if String.eqb t "status" then
    Some (mkRS (objective s) (get "state" JNull) (rs_plan s) (rs_pass s) (rs_total s) (pending_sources s) (source_metadata s) (rs_urls s) (rs_completed s) (rs_error s))
  else if String.eqb t "research_plan" then
    queries ← as_list (get "queries" (JArr []));
    Some (mkRS (objective s) (rs_status s) (Some (get "strategy" (JStr ""), queries, get "reasoning" (JStr ""))) (rs_pass s) (rs_total s) (pending_sources s)
            (source_metadata s) (rs_urls s) (rs_completed s) (rs_error s))
  else if String.eqb t "research_pass" then
    Some (mkRS (objective s) (rs_status s) (rs_plan s) (get "pass" JNull) (get "total_passes" JNull) (pending_sources s) (source_metadata s) (rs_urls s)
            (rs_completed s) (rs_error s))
  else if String.eqb t "sources_pending" then
    sources ← as_list (get "sources" (JArr []));
    Some (mkRS (objective s) (rs_status s) (rs_plan s) (rs_pass s) (rs_total s) (compact_sources sources) (source_metadata s) (rs_urls s) (rs_completed s) (rs_error s))
  else if String.eqb t "source_scraped" then
    let source := compact_source e in
    let found := match url_of source with Some u => pop_pending u (pending_sources s) | None => ([], pending_sources s) end in
    Some (mkRS (objective s) (rs_status s) (rs_plan s) (rs_pass s) (rs_total s) (snd found) (merge_sources (source_metadata s) [oupdate (fst found) source])
            (add_source_urls (rs_urls s) [source]) (rs_completed s) (rs_error s))
  else if String.eqb t "sources" then
    sources ← as_list (get "sources" (JArr []));
    Some (mkRS (objective s) (rs_status s) (rs_plan s) (rs_pass s) (rs_total s) [] (source_metadata s)
            (add_url_values (add_source_urls (rs_urls s) (compact_sources sources)) sources) (rs_completed s) (rs_error s))
  else if String.eqb t "done" then
    details ← as_list (get "source_details" (JArr []));
    sources ← as_list (get "sources" (JArr []));
    let details := compact_sources details in
    Some (mkRS (objective s) (JStr "completed") (rs_plan s) (rs_pass s) (rs_total s) [] (merge_sources (source_metadata s) details)
            (add_url_values (add_source_urls (rs_urls s) details) sources) true JNull)
  else if String.eqb t "error" then
    Some (mkRS (objective s) (JStr "failed") (rs_plan s) (rs_pass s) (rs_total s) (pending_sources s) (source_metadata s) (rs_urls s) false (get "content" (JStr "")))
  else Some s.

(** [apply_research_event]; an event without a type raises. *)
Definition apply_research_event (s : ResearchState) (e : event) : option ResearchState :=
  match assoc "type" e with
  | None => None
  | Some (JStr t) => apply_typed s t e
  | Some _ => Some s
  end.

(** The events of a run, one after the other. *)
Fixpoint project (s : ResearchState) (l : list event) : option ResearchState :=
  match l with
  | [] => Some s
  | e :: l => s ← apply_research_event s e; project s l
  end.

(** ** Facts *)

Lemma assoc_oupdate k d e : assoc k (oupdate d e) = match assoc k e with Some v => Some v | None => assoc k d end.
Proof.
  unfold oupdate. revert d. induction e as [|[k' v] e IH]; intros d; cbn; [done|]. rewrite IH. destruct (assoc k e); [done|].
  destruct (String.eqb_spec k k') as [->|]; [apply assoc_oset_eq|]. by apply assoc_oset_ne.
Qed.

Lemma oset_keys k v l x : x ∈ (oset k v l).*1 -> x = k \/ x ∈ l.*1.
Proof.
  induction l as [|[k' v'] l IH]; cbn; [rewrite list_elem_of_singleton; auto|]. destruct (String.eqb_spec k k') as [->|].
  - cbn. rewrite !elem_of_cons. intros [->|H]; [by left|]. right. right. apply list_elem_of_fmap in H as (e & -> & H%list_elem_of_In).
    apply filter_In in H as [H _]. apply list_elem_of_fmap. exists e. split; [done|]. by apply list_elem_of_In.
  - cbn. rewrite !elem_of_cons. intros [->|H]; [auto|]. apply IH in H. tauto.
Qed.

Lemma oupdate_keys d e x : x ∈ (oupdate d e).*1 -> x ∈ d.*1 \/ x ∈ e.*1.
Proof.
  unfold oupdate. revert d. induction e as [|[k v] e IH]; intros d; cbn; [auto|]. intros [H|H]%IH; [|rewrite elem_of_cons; auto].
  apply oset_keys in H as [->|H]; [right; by left|by left].
Qed.

(** What may be kept of a source. *)
Definition kept (k : string) : Prop := k ∈ SOURCE_FIELDS \/ (k ∈ METADATA_FIELDS /\ k <> "type").
Definition compacted (o : obj) : Prop := forall k, k ∈ o.*1 -> kept k.

Lemma assoc_elem k (l : obj) : k ∈ l.*1 -> is_Some (assoc k l).
Proof.
  induction l as [|[k' v] l IH]; cbn; [by intros ?%not_elem_of_nil|]. rewrite elem_of_cons. intros [->|H].
  - rewrite String.eqb_refl. destruct (assoc k' l); by eexists.
  - destruct (IH H) as [w ->]. by eexists.
Qed.

Lemma metadata_keys src k : k ∈ (search_metadata src).*1 -> k ∈ METADATA_FIELDS.
Proof.
  intros [v H]%assoc_elem. rewrite search_metadata_lookup in H. apply kept_typed in H. unfold METADATA_FIELDS.
  destruct H as [[H _]|[[H _]|[[-> _]|[-> _]]]]; set_solver.
Qed.

Lemma compact_source_kept src : compacted (compact_source src).
Proof.
  intros k. unfold compact_source.
  assert (B : forall k, k ∈ (oupdate (SOURCE_FIELDS ≫= (fun k => match assoc k src with Some v => [(k, v)] | None => [] end))
                (List.filter (fun kv => negb (String.eqb (fst kv) "type")) (search_metadata (JObj src)))).*1 -> kept k).
  { intros x [H|H]%oupdate_keys.
    - left. apply list_elem_of_fmap in H as ([y v] & -> & H). apply list_elem_of_bind in H as (z & H & Hz). destruct (assoc z src); [|by apply not_elem_of_nil in H].
      apply list_elem_of_singleton in H. by simplify_eq.
    - right. apply list_elem_of_fmap in H as ([y v] & -> & H%list_elem_of_In). apply filter_In in H as [H N]. cbn in *. split.
      + apply (metadata_keys (JObj src)). apply list_elem_of_fmap. exists (y, v). split; [done|]. by apply list_elem_of_In.
      + intros ->. done. }
  destruct (assoc "char_count" src); [|apply B]. intros [->|H]%oset_keys; [left; unfold SOURCE_FIELDS; set_solver|by apply B].
Qed.

Lemma compact_sources_kept l : Forall compacted (compact_sources l).
Proof.
  apply Forall_forall. intros o (j & Hj & E)%list_elem_of_omap. destruct j; try done. pose proof (compact_source_kept l0) as C.
  destruct (compact_source l0); [done|]. by simplify_eq.
Qed.

Lemma oupdate_compacted d e : compacted d -> compacted e -> compacted (oupdate d e).
Proof. intros H1 H2 k [H|H]%oupdate_keys; auto. Qed.

Lemma same_url_spec u o : same_url u o = true <-> url_of o = Some u.
Proof.
  unfold same_url. destruct (url_of o) as [v|]; [|done]. destruct (String.eqb_spec u v) as [->|]; [done|]. split; [done|]. intros [= ->]. done.
Qed.

Lemma url_of_oupdate o s u : url_of s = Some u -> url_of (oupdate o s) = Some u.
Proof. unfold url_of. rewrite assoc_oupdate. by destruct (assoc "url" s). Qed.

Lemma merge_source_spec l s : Forall compacted l -> compacted s -> NoDup (omap url_of l) ->
  Forall compacted (merge_source l s) /\ NoDup (omap url_of (merge_source l s)) /\
  (forall u, u ∈ omap url_of (merge_source l s) <-> u ∈ omap url_of l \/ url_of s = Some u).
Proof.
  intros HL HS. induction l as [|o l IH]; cbn [merge_source omap list_omap].
  - intros _. split_and!; [by constructor| |].
    + destruct (url_of s); [apply NoDup_singleton|constructor].
    + intros u. destruct (url_of s); set_solver.
  - inversion HL as [|? ? HO HL']; subst. specialize (IH HL'). intros N.
    assert (N' : NoDup (omap url_of l)) by (destruct (url_of o); [by inversion N|done]). destruct (IH N') as (I1 & I2 & I3).
    assert (K : forall (NS : forall u, url_of s = Some u -> url_of o <> Some u),
      Forall compacted (o :: merge_source l s) /\ NoDup (omap url_of (o :: merge_source l s)) /\
      (forall u, u ∈ omap url_of (o :: merge_source l s) <-> u ∈ match url_of o with Some y => y :: omap url_of l | None => omap url_of l end \/ url_of s = Some u)).
    { intros NS. cbn [omap list_omap]. split_and!; [by constructor| |]; destruct (url_of o) as [v|] eqn:UO.
      - inversion N; subst. constructor; [|done]. rewrite I3. intros [?|X]; [done|]. by apply (NS v).
      - done.
      - intros u. rewrite !elem_of_cons, I3. tauto.
      - intros u. by rewrite I3. }
    destruct (url_of s) as [u|] eqn:US; [|apply K; done]. destruct (same_url u o) eqn:SU.
    + apply same_url_spec in SU. cbn [omap list_omap]. rewrite (url_of_oupdate o s u US), SU in *. split_and!; [constructor; [by apply oupdate_compacted|done]|done|].
      intros w. rewrite elem_of_cons. split; [by left|]. intros [?|[= ->]]; [done|by left].
    + apply K. intros v [= <-] X. apply same_url_spec in X. congruence.
Qed.

Lemma merge_sources_spec l adds : Forall compacted l -> Forall compacted adds -> NoDup (omap url_of l) ->
  Forall compacted (merge_sources l adds) /\ NoDup (omap url_of (merge_sources l adds)).
Proof.
  unfold merge_sources. revert l. induction adds as [|s adds IH]; intros l HL HA N; [done|]. cbn. inversion HA; subst. apply IH; [|done|];
    destruct s as [|kv s]; try done; by apply merge_source_spec.
Qed.

Lemma add_url_values_spec urls l : NoDup urls -> "" ∉ urls ->
  NoDup (add_url_values urls l) /\ "" ∉ add_url_values urls l /\ forall u, u ∈ add_url_values urls l <-> u ∈ urls \/ (JStr u ∈ l /\ u <> "").
Proof.
  unfold add_url_values. revert urls. induction l as [|v l IH]; intros urls N E; cbn [foldl].
  - split_and!; [done|done|]. intros u. split; [by left|]. intros [?|[?%not_elem_of_nil _]]; done.
  - assert (S : NoDup (add_url urls v) /\ "" ∉ add_url urls v /\ forall u, u ∈ add_url urls v <-> u ∈ urls \/ (v = JStr u /\ u <> "")).
    { unfold add_url. destruct v as [| | |u| |]; try (split_and!; [done|done|]; intros u; naive_solver).
      destruct (is_empty u) eqn:EM; cbn [orb].
      - assert (u = "") as -> by (by destruct u). split_and!; [done|done|]. intros w. naive_solver.
      - assert (NE : u <> "") by (by intros ->). destruct (mem u urls) eqn:M.
        + assert (u ∈ urls) as HU by (unfold mem in M; apply existsb_exists in M as (y & Hy & ->%String.eqb_eq); by apply list_elem_of_In).
          split_and!; [done|done|]. intros w. naive_solver.
        + assert (NU : u ∉ urls) by (intros X%list_elem_of_In; unfold mem in M; rewrite (proj2 (existsb_exists _ _)) in M; [done|]; exists u; split; [done|apply String.eqb_refl]).
          split_and!; [apply NoDup_app; split_and!; [done|set_solver|apply NoDup_singleton]|set_solver|]. intros w. rewrite elem_of_app, list_elem_of_singleton. naive_solver. }
    destruct S as (S1 & S2 & S3). destruct (IH _ S1 S2) as (I1 & I2 & I3). split_and!; [done|done|]. intros u. rewrite I3, S3, elem_of_cons. naive_solver.
Qed.

Lemma pop_pending_spec u l : Forall compacted l -> compacted (fst (pop_pending u l)) /\ Forall compacted (snd (pop_pending u l)).
Proof.
  induction 1 as [|o l HO HL [IH1 IH2]]; cbn; [split; [intros k ?%not_elem_of_nil; done|constructor]|]. destruct (same_url u o); [done|].
  destruct (pop_pending u l) as [p r]. cbn in *. split; [done|by constructor].
Qed.

(** ** Theorems *)

Record tidy (s : ResearchState) : Prop := {
  t_urls : NoDup (rs_urls s) /\ "" ∉ rs_urls s;
  t_metadata : NoDup (omap url_of (source_metadata s)) /\ Forall compacted (source_metadata s);
  t_pending : Forall compacted (pending_sources s);
  t_done : rs_completed s = true -> rs_error s = JNull
}.

Lemma add_source_urls_tidy urls l : NoDup urls /\ "" ∉ urls -> NoDup (add_source_urls urls l) /\ "" ∉ add_source_urls urls l.
Proof. intros [H1 H2]. destruct (add_url_values_spec urls ((fun s => default JNull (assoc "url" s)) <$> l) H1 H2) as (? & ? & _). done. Qed.

Lemma add_url_values_tidy urls l : NoDup urls /\ "" ∉ urls -> NoDup (add_url_values urls l) /\ "" ∉ add_url_values urls l.
Proof. intros [H1 H2]. destruct (add_url_values_spec urls l H1 H2) as (? & ? & _). done. Qed.

Lemma found_compacted s o : Forall compacted (pending_sources s) ->
  let found := match url_of o with Some u => pop_pending u (pending_sources s) | None => ([], pending_sources s) end in
  compacted (fst found) /\ Forall compacted (snd found).
Proof. intros T. destruct (url_of o); [by apply pop_pending_spec|]. split; [intros k ?%not_elem_of_nil; done|done]. Qed.

(** The state after an event, branch by branch. *)
Ltac invert_event H :=
  repeat match type of H with
         | (if ?b then _ else _) = _ => let E := fresh "E" in destruct b eqn:E
         | mbind _ _ = Some _ => apply bind_Some in H as (? & _ & H)
         end; apply (inj Some) in H; subst.

Lemma apply_tidy s e s' : tidy s -> apply_research_event s e = Some s' -> tidy s'.
Proof.
  intros [T1 [T2 T2'] T3 T4]. unfold apply_research_event. destruct (assoc "type" e) as [[| | |t| |]|]; intros H; simplify_eq; try (by constructor).
  destruct (found_compacted s (compact_source e) T3) as [F1 F2].
  unfold apply_typed in H. invert_event H; try (by constructor).
  all: constructor; cbn [rs_urls source_metadata pending_sources rs_completed rs_error]; try done.
  all: try (by repeat first [apply add_url_values_tidy|apply add_source_urls_tidy]); try apply compact_sources_kept.
  all: apply and_comm, merge_sources_spec; try done; try apply compact_sources_kept.
  constructor; [|constructor]. apply oupdate_compacted; [done|apply compact_source_kept].
Qed.

Lemma project_tidy s l s' : tidy s -> project s l = Some s' -> tidy s'.
Proof. revert s. induction l as [|e l IH]; intros s T; cbn; [by intros [= <-]|]. intros (s1 & A & P)%bind_Some. by apply (IH s1), P; apply (apply_tidy s e). Qed.

(** What ended the run last: the result, or an error. *)
Definition ending (e : event) : option bool :=
  match assoc "type" e with
  | Some (JStr t) => if String.eqb t "done" then Some true else if String.eqb t "error" then Some false else None
  | _ => None
  end.

Lemma apply_ending s e s' : apply_research_event s e = Some s' -> rs_completed s' = default (rs_completed s) (ending e) /\ objective s' = objective s.
Proof.
  unfold apply_research_event, ending. destruct (assoc "type" e) as [[| | |t| |]|]; intros H; simplify_eq; try done.
  unfold apply_typed in H. invert_event H; cbn [rs_completed objective]; repeat match goal with E : String.eqb t _ = true |- _ => apply String.eqb_eq in E as -> end; try done.
Qed.

Lemma project_ending s l s' : project s l = Some s' -> rs_completed s' = default (rs_completed s) (last (omap ending l)) /\ objective s' = objective s.
Proof.
  revert s. induction l as [|e l IH]; intros s; cbn; [by intros [= <-]|]. intros (s1 & A & P)%bind_Some. destruct (IH s1 P) as [-> ->].
  destruct (apply_ending _ _ _ A) as [-> ->]. split; [|done]. destruct (ending e) as [b|]; [|done]. rewrite last_cons. by destruct (last _).
Qed.

(** The state of a research run, whatever its events: every URL is listed once and none is
    empty, a source has one entry and keeps the listed fields only, an error is never
    shown beside a result, and the run counts as completed exactly when the last event that
    ends a run is a result. *)
Theorem projection_tidy o l s : project (initial_research_state o) l = Some s ->
  tidy s /\ objective s = o /\ rs_completed s = default false (last (omap ending l)).
Proof.
  intros P. split; [|by destruct (project_ending _ _ _ P)]. eapply project_tidy; [|done].
  constructor; cbn; try done; split; try constructor. set_solver.
Qed.

Notation sample_run := [
  [("type", JStr "sources_pending"); ("sources", JArr [JObj [("url", JStr "u"); ("title", JStr "T"); ("markdown", JStr "secret")]])];
  [("type", JStr "source_scraped"); ("url", JStr "u"); ("char_count", JNum 7)];
  [("type", JStr "token"); ("content", JStr "x")];
  [("type", JStr "sources"); ("sources", JArr [JStr "u"; JStr "v"])];
  [("type", JStr "done"); ("sources", JArr [JStr "v"]); ("source_details", JArr [JObj [("url", JStr "u"); ("source", JStr "web")]])]] (only parsing).
Notation sample_state := (mkRS "q" (JStr "completed") None JNull JNull []
  [[("url", JStr "u"); ("title", JStr "T"); ("chars", JNum 7); ("source", JStr "web")]] ["u"; "v"] true JNull) (only parsing).

Lemma projection_tidy_witness : project (initial_research_state "q") sample_run = Some sample_state /\ tidy sample_state.
Proof. split; [vm_compute; reflexivity|]. apply (projection_tidy "q" sample_run sample_state). vm_compute. reflexivity. Defined.

(** ** What the state depends on *)

(** The fields read of a source, and of an event; [content] is read of an error only. *)
Definition MEDIA_READ : list string :=
  ["category"; "media_type"; "image_url"; "img_src"; "video_url"; "thumbnail"; "thumbnail_src"; "source_url"; "width"; "image_width"; "height"; "image_height"; "duration"].
Definition SOURCE_READ : list string := SOURCE_FIELDS ++ ["char_count"] ++ METADATA_FIELDS ++ MEDIA_READ.
Definition EVENT_READ : list string :=
  ["type"; "state"; "strategy"; "queries"; "reasoning"; "pass"; "total_passes"; "sources"; "source_details"] ++ SOURCE_READ.

Definition agree (ks : list string) (e1 e2 : event) : Prop := forall k, k ∈ ks -> assoc k e1 = assoc k e2.
Definition same_facts (e1 e2 : event) : Prop :=
  agree EVENT_READ e1 e2 /\ (assoc "type" e1 = Some (JStr "error") -> assoc "content" e1 = assoc "content" e2).

Lemma bind_agree {A} (ks : list string) (f g : string -> list A) : (forall k, k ∈ ks -> f k = g k) -> ks ≫= f = ks ≫= g.
Proof. induction ks as [|k ks IH]; intros H; cbn; [done|]. rewrite (H k) by set_solver. f_equal. apply IH. set_solver. Qed.

Lemma jget_agree e1 e2 k : agree SOURCE_READ e1 e2 -> k ∈ SOURCE_READ -> jget (JObj e1) k = jget (JObj e2) k.
Proof. intros A H. cbn. by rewrite (A k H). Qed.

Lemma first_public_agree e1 e2 ks : agree SOURCE_READ e1 e2 -> Forall (.∈ SOURCE_READ) ks -> first_public (JObj e1) ks = first_public (JObj e2) ks.
Proof. intros A. induction 1 as [|k ks Hk _ IH]; cbn [first_public]; [done|]. by rewrite (jget_agree e1 e2 k A Hk), IH. Qed.

Ltac read := first [by apply (bool_decide_unpack _); vm_compute].

Lemma media_agree e1 e2 : agree SOURCE_READ e1 e2 -> media_metadata (JObj e1) = media_metadata (JObj e2).
Proof.
  intros A. unfold media_metadata. rewrite (jget_agree e1 e2 "media" A) by read.
  assert (K : forall r, media_kind r (JObj e1) = media_kind r (JObj e2)) by (intros r; unfold media_kind; by rewrite (jget_agree e1 e2 "category" A) by read).
  assert (D : forall k, k ∈ SOURCE_READ -> forall d, jget_default (JObj e1) k d = jget_default (JObj e2) k d) by (intros k H d; cbn; by rewrite (A k H)).
  destruct (jget (JObj e2) "media"); cbn [default from_option id]; rewrite K; try done.
  all: unfold media_kind; rewrite (jget_agree e1 e2 "media_type" A) by read.
  all: rewrite !(first_public_agree e1 e2 _ A), !(jget_agree e1 e2 _ A), !D by read; reflexivity.
Qed.

Lemma search_metadata_agree e1 e2 : agree SOURCE_READ e1 e2 -> search_metadata (JObj e1) = search_metadata (JObj e2).
Proof.
  intros A. unfold search_metadata.
  assert (S : STRING_FIELDS ≫= (fun k => field k (string_value (JObj e1) k)) = STRING_FIELDS ≫= (fun k => field k (string_value (JObj e2) k))).
  { apply bind_agree. intros k H. unfold string_value. rewrite (jget_agree e1 e2 k A); [done|]. unfold SOURCE_READ, METADATA_FIELDS. rewrite !elem_of_app. tauto. }
  assert (L : LIST_FIELDS ≫= (fun k => field k (list_value (JObj e1) k)) = LIST_FIELDS ≫= (fun k => field k (list_value (JObj e2) k))).
  { apply bind_agree. intros k H. unfold list_value. rewrite (jget_agree e1 e2 k A); [done|]. unfold SOURCE_READ, METADATA_FIELDS. rewrite !elem_of_app. tauto. }
  unfold volume_value, media_value. by rewrite S, L, (media_agree e1 e2 A), (jget_agree e1 e2 "volume" A) by read.
Qed.

Lemma compact_agree e1 e2 : agree SOURCE_READ e1 e2 -> compact_source e1 = compact_source e2.
Proof.
  intros A. unfold compact_source. rewrite (search_metadata_agree e1 e2 A), (A "char_count") by read.
  by rewrite (bind_agree SOURCE_FIELDS _ (fun k => match assoc k e2 with Some v => [(k, v)] | None => [] end)) by (intros k H; rewrite (A k); [done|unfold SOURCE_READ; set_solver]).
Qed.

Lemma apply_agree s e1 e2 : same_facts e1 e2 -> apply_research_event s e1 = apply_research_event s e2.
Proof.
  intros [A C]. unfold apply_research_event. rewrite <- (A "type") by read. destruct (assoc "type" e1) as [[| | |t| |]|] eqn:T; try done.
  unfold apply_typed. rewrite (compact_agree e1 e2) by (intros k H; apply A; unfold EVENT_READ; rewrite elem_of_app; by right).
  rewrite (A "state"), (A "queries"), (A "strategy"), (A "reasoning"), (A "pass"), (A "total_passes"), (A "sources"), (A "source_details") by read.
  destruct (String.eqb_spec t "error") as [->|]; [by rewrite (C eq_refl)|done].
Qed.

(** The state shown of a research run depends on no token, no evidence and no text of a
    result: two runs whose events agree on the fields listed are shown alike. *)
Theorem projection_ignores_bodies s l1 l2 : Forall2 same_facts l1 l2 -> project s l1 = project s l2.
Proof.
  intros F. revert s. induction F as [|e1 e2 l1 l2 H _ IH]; intros s; cbn; [done|]. rewrite (apply_agree s e1 e2 H). by destruct (apply_research_event s e2); cbn.
Qed.

Lemma projection_ignores_bodies_witness :
  project (initial_research_state "q") [[("type", JStr "done"); ("content", JStr "the answer"); ("evidence", JArr [JStr "page"])]]
  = project (initial_research_state "q") [[("type", JStr "done")]].
Proof.
  apply (projection_ignores_bodies (initial_research_state "q")). constructor; [|constructor]. split; [|done].
  intros k H. apply Forall_forall with (x := k) (1 := ltac:(repeat constructor) : Forall (fun k => assoc k [("type", JStr "done"); ("content", JStr "the answer"); ("evidence", JArr [JStr "page"])] = assoc k [("type", JStr "done")]) EVENT_READ). done.
Defined.
