(* ===== verification/BrowserPool.v ===== *)
(** * Browser pool ([src/scraper-svc/scraper/browser_pool.py])

    A bounded set of browser processes shared by the requests of a scraper.  The
    pool's lock is an [asyncio.Condition]; a section under it has no other await
    than [wait], so it is one step.  A world holds the pool, the entries it has
    created (leases keep pointers to them after they leave the pool), one program
    counter per task, and the [_close_entry] coroutines that are running.  A step
    is one task going on ([EGo]), its awaited call failing ([EFail]) or its being
    cancelled ([ECancel], once per task); a task waiting on the condition goes on
    only after it was notified.  Ghost state: [opened], the processes launched
    whose [close] was not called yet, and the identifiers handed out.

    [start] holds the lock while the controller starts, so it is one step too.
    The theorems hold for every sequence of steps. *)

From S2P Require Import Prelude.

(** ** Data *)

(** [_BrowserEntry]; the browser is the entry's key in the heap. *)
Record BrowserEntry := mkEntry {
  fingerprint : string;
  created_at : usec;
  last_used : usec;
  leases : Z;
  contexts : gset nat;
  retiring : bool;
  close_started : bool
}.

Record config := mkConfig { enabled : bool; max_processes : Z; idle_ttl : usec; max_age : usec }.

(** [__init__]. *)
Definition BrowserPool_config (enabled : bool) (max_processes : Z) (idle_ttl max_age : usec) : config :=
  mkConfig enabled (Z.max 1 max_processes) (Z.max 0 idle_ttl) (Z.max 0 max_age).

(** What a task does once the entries it closes are closed. *)
Inductive after := ToLock | ToReap | ToSleep | ToDone | ToDrain (n : nat).

(** Where a task is: [acquire] and the lease it returns, [release], the reaper, [close]. *)
Inductive pc :=
| PStart (acquiring : bool)
| PReap
| PLock
| PWait (notified : bool)
| PLaunch
| PLaunchCancelled
| PLaunched (b : nat)
| PAbort (b : option nat)
| PContext (e : nat)
| PContextReady (e c : nat)
| PContextFail (e : nat)
| PLeased (e c : nat)
| PReleasing (e c : nat) (healthy : bool)
| PRelease (e c : nat) (context_closed healthy : bool)
| PClosing (ids : list nat) (k : after)
| PSleep
| PReaper
| PClose
| PCloseWait (notified : bool)
| PCloseReaper (reaper : option nat) (ids : list nat) (n : nat)
| PDrain (notified : bool) (n : nat)
| PClosed (n : nat)
| PLeaked (ids : list nat)
| PDone.

Inductive event := EGo (now : usec) | EFail | ECancel | EUnhealthy.

Record task := mkTask { t_fp : string; t_pc : pc }.

Record world := mkWorld {
  heap : gmap nat BrowserEntry;
  entries : list nat;
  launching : Z;
  closing_processes : Z;
  started : bool;
  closing : bool;
  reaper_task : option nat;
  tasks : list task;
  closers : list (nat * bool);
  opened : gset nat;
  next_browser : nat;
  next_context : nat
}.

Definition pool_init : world := mkWorld ∅ [] 0 0 false false None [] [] ∅ 0 0.

(** ** Updates *)

Definition set_pc (i : nat) (p : pc) (w : world) : world :=
  mkWorld (heap w) (entries w) (launching w) (closing_processes w) (started w) (closing w) (reaper_task w)
    (alter (fun t => mkTask (t_fp t) p) i (tasks w)) (closers w) (opened w) (next_browser w) (next_context w).

Definition set_tasks (ts : list task) (w : world) : world :=
  mkWorld (heap w) (entries w) (launching w) (closing_processes w) (started w) (closing w) (reaper_task w)
    ts (closers w) (opened w) (next_browser w) (next_context w).

Definition set_counts (la cl : Z) (w : world) : world :=
  mkWorld (heap w) (entries w) la cl (started w) (closing w) (reaper_task w)
    (tasks w) (closers w) (opened w) (next_browser w) (next_context w).

Definition set_entries (h : gmap nat BrowserEntry) (es : list nat) (w : world) : world :=
  mkWorld h es (launching w) (closing_processes w) (started w) (closing w) (reaper_task w)
    (tasks w) (closers w) (opened w) (next_browser w) (next_context w).

Definition set_closers (cs : list (nat * bool)) (w : world) : world :=
  mkWorld (heap w) (entries w) (launching w) (closing_processes w) (started w) (closing w) (reaper_task w)
    (tasks w) cs (opened w) (next_browser w) (next_context w).

Definition set_flags (st cl : bool) (r : option nat) (w : world) : world :=
  mkWorld (heap w) (entries w) (launching w) (closing_processes w) st cl r
    (tasks w) (closers w) (opened w) (next_browser w) (next_context w).

Definition set_native (o : gset nat) (nb nc : nat) (w : world) : world :=
  mkWorld (heap w) (entries w) (launching w) (closing_processes w) (started w) (closing w) (reaper_task w)
    (tasks w) (closers w) o nb nc.

Definition upd_entry (f : BrowserEntry -> BrowserEntry) (e : nat) (w : world) : world :=
  set_entries (alter f e (heap w)) (entries w) w.

Definition with_leases (n : Z) (en : BrowserEntry) : BrowserEntry :=
  mkEntry (fingerprint en) (created_at en) (last_used en) n (contexts en) (retiring en) (close_started en).
Definition with_contexts (cs : gset nat) (en : BrowserEntry) : BrowserEntry :=
  mkEntry (fingerprint en) (created_at en) (last_used en) (leases en) cs (retiring en) (close_started en).
Definition with_last_used (t : usec) (en : BrowserEntry) : BrowserEntry :=
  mkEntry (fingerprint en) (created_at en) t (leases en) (contexts en) (retiring en) (close_started en).
Definition with_flags (r c : bool) (en : BrowserEntry) : BrowserEntry :=
  mkEntry (fingerprint en) (created_at en) (last_used en) (leases en) (contexts en) r c.

(** [self._condition.notify_all()]. *)
Definition notify_pc (p : pc) : pc :=
  match p with
  | PWait _ => PWait true
  | PCloseWait _ => PCloseWait true
  | PDrain _ n => PDrain true n
  | _ => p
  end.

Definition notify_all (w : world) : world :=
  set_tasks ((fun t => mkTask (t_fp t) (notify_pc (t_pc t))) <$> tasks w) w.

(** ** The pool's operations *)

Definition process_count (w : world) : Z :=
  Z.of_nat (length (entries w)) + launching w + closing_processes w.

Definition entry_of (w : world) (e : nat) (P : BrowserEntry -> bool) : bool :=
  match heap w !! e with Some en => P en | None => false end.

(** An entry leaves the pool and a coroutine starts to close it. *)
Definition detach (e : nat) (w : world) : world :=
  let w := upd_entry (with_flags true true) e w in
  let w := set_entries (heap w) (filter (fun x => x <> e) (entries w)) w in
  let w := set_counts (launching w) (closing_processes w + 1) w in
  set_closers (closers w ++ [(e, false)]) w.

(** The section under the lock of [_reap_expired]. *)
Definition expired (cfg : config) (now : usec) (en : BrowserEntry) : bool :=
  (leases en =? 0) && ((idle_ttl cfg <=? now - last_used en) || (max_age cfg <=? now - created_at en)).

Definition reap_expired (cfg : config) (now : usec) (w : world) : world * list nat :=
  let ids := List.filter (fun e => entry_of w e (expired cfg now)) (entries w) in
  let w := foldl (fun w e => detach e w) w ids in
  ((if bool_decide (ids = []) then w else notify_all w), ids).

(** The section under the lock of [acquire]'s loop. *)
Definition acquire_section (cfg : config) (i : nat) (fp : string) (w : world) : world :=
  if closing w then set_pc i PDone w
  else match List.find (fun e => entry_of w e (fun en => String.eqb (fingerprint en) fp && negb (retiring en)))
               (entries w) with
  | Some e => set_pc i (PContext e) (upd_entry (fun en => with_leases (leases en + 1) en) e w)
  | None =>
      if process_count w <? max_processes cfg
      then set_pc i PLaunch (set_counts (launching w + 1) (closing_processes w) w)
      else match List.find (fun e => entry_of w e (fun en => leases en =? 0)) (entries w) with
      | None => set_pc i (PWait false) w
      | Some e => notify_all (set_pc i (PClosing [e] ToReap) (detach e w))
      end
  end.

(** The registration of a browser that was launched. *)
Definition register (i : nat) (b : nat) (fp : string) (now : usec) (w : world) : world :=
  let late := closing w in
  let en := mkEntry fp now now 1 ∅ late late in
  let w := set_counts (launching w - 1) (closing_processes w) w in
  notify_all
    (if late then
       set_pc i (PClosing [b] ToDone)
         (set_closers (closers w ++ [(b, false)])
            (set_counts (launching w) (closing_processes w + 1) (set_entries (<[b := en]> (heap w)) (entries w) w)))
     else set_pc i (PContext b) (set_entries (<[b := en]> (heap w)) (entries w ++ [b]) w)).

(** [if launching: self._launching = max(0, self._launching - 1)]. *)
Definition abort_launch (i : nat) (w : world) : world :=
  notify_all (set_pc i PDone (set_counts (Z.max 0 (launching w - 1)) (closing_processes w) w)).

(** The context joins its entry, unless the entry was recycled. *)
Definition register_context (i e c : nat) (w : world) : world :=
  if bool_decide (e ∈ entries w)
  then set_pc i (PLeased e c) (upd_entry (fun en => with_contexts ({[c]} ∪ contexts en) en) e w)
  else set_pc i (PContextFail e) w.

(** A lease ends; the entry is closed if it is to be retired and nobody uses it. *)
Definition idle_retiring (w : world) (e : nat) : bool :=
  bool_decide (e ∈ entries w) && entry_of w e (fun en => retiring en && (leases en =? 0)).

(** [_retire(entry, release_lease=True)]. *)
Definition retire (i e : nat) (w : world) : world :=
  let w := upd_entry (fun en => with_leases (Z.max 0 (leases en - 1)) en) e w in
  let w := upd_entry (fun en => with_flags true (close_started en) en) e w in
  notify_all (if idle_retiring w e then set_pc i (PClosing [e] ToDone) (detach e w) else set_pc i PDone w).

(** [release]'s [cleanup], from the lock on. *)
Definition release (i e c : nat) (context_closed healthy : bool) (now : usec) (w : world) : world :=
  let w := if context_closed || healthy
           then upd_entry (fun en => with_contexts (contexts en ∖ {[c]}) en) e w else w in
  let w := upd_entry (fun en => with_leases (Z.max 0 (leases en - 1)) en) e w in
  let w := if healthy then w else upd_entry (fun en => with_flags true (close_started en) en) e w in
  notify_all
    (if idle_retiring w e then set_pc i (PClosing [e] ToDone) (detach e w)
     else set_pc i PDone
            (if bool_decide (e ∈ entries w) then upd_entry (with_last_used now) e w else w)).

(** [start]: [None] when it raises. *)
Definition start (controller_ok : bool) (w : world) : world * bool :=
  if started w then (w, true)
  else if closing w && negb (bool_decide (entries w = []) && (launching w =? 0) && (closing_processes w =? 0))
  then (w, false)
  else if controller_ok
  then (set_tasks (tasks w ++ [mkTask EmptyString PSleep])
          (set_flags true false (Some (length (tasks w))) w), true)
  else (set_flags false false (reaper_task w) w, false).

(** What [reaper.cancel()] does to the reaper. *)
Definition cancel_reaper (p : pc) : pc :=
  match p with
  | PSleep | PReaper => PDone
  | PClosing ids ToSleep => PClosing ids ToDone
  | _ => p
  end.

(** [close], once no launch is under way: the waiters are notified, the reaper is
    cancelled, and every entry leaves the pool; nothing else runs in between. *)
Definition stop_reaper (w : world) : world :=
  set_flags false (closing w) None
    match reaper_task w with
    | Some r => set_tasks (alter (fun t => mkTask (t_fp t) (cancel_reaper (t_pc t))) r (tasks w)) w
    | None => w
    end.

Definition close_detach (i : nat) (w : world) : world :=
  let r := reaper_task w in
  let w := stop_reaper (notify_all w) in
  let ids := entries w in
  let h := foldl (fun h e => alter (with_flags true true) e h) (heap w) ids in
  set_pc i (PCloseReaper r ids (next_browser w))
    (set_counts (launching w) (closing_processes w + Z.of_nat (length ids)) (set_entries h [] w)).

Definition close_wait (i : nat) (w : world) : world :=
  if launching w =? 0 then close_detach i w else set_pc i (PCloseWait false) w.

(** ** Steps of a task *)

Definition task_done (w : world) (r : option nat) : bool :=
  match r with
  | None => true
  | Some r => match tasks w !! r with Some (mkTask _ PDone) => true | Some _ => false | None => true end
  end.

Definition all_closed (w : world) (ids : list nat) : bool :=
  forallb (fun e => negb (bool_decide (e ∈ (closers w).*1))) ids.

Definition go_after (k : after) : pc :=
  match k with
  | ToLock => PLock
  | ToReap => PReap
  | ToSleep => PSleep
  | ToDone => PDone
  | ToDrain n => PDrain true n
  end.

Definition launch (i : nat) (p : nat -> pc) (w : world) : world :=
  set_pc i (p (next_browser w))
    (set_native ({[next_browser w]} ∪ opened w) (S (next_browser w)) (next_context w) w).

(** A call that was awaited returns, or a notified task goes on. *)
Definition go (cfg : config) (i : nat) (t : task) (now : usec) (w : world) : world :=
  match t_pc t with
  | PStart acquiring =>
      if enabled cfg
      then let '(w, ok) := start true w in set_pc i (if ok && acquiring then PReap else PDone) w
      else set_pc i PDone w
  | PReap => let '(w, ids) := reap_expired cfg now w in set_pc i (PClosing ids ToLock) w
  | PLock => acquire_section cfg i (t_fp t) w
  | PWait true => set_pc i PReap w
  | PLaunch => launch i PLaunched w
  | PLaunchCancelled => launch i (fun b => PAbort (Some b)) w
  | PLaunched b => register i b (t_fp t) now w
  | PAbort (Some b) =>
      set_pc i (PAbort None) (set_native (opened w ∖ {[b]}) (next_browser w) (next_context w) w)
  | PAbort None => abort_launch i w
  | PContext e =>
      set_pc i (PContextReady e (next_context w))
        (set_native (opened w) (next_browser w) (S (next_context w)) w)
  | PContextReady e c => register_context i e c w
  | PContextFail e => retire i e w
  | PLeased e c => set_pc i (PReleasing e c true) w
  | PReleasing e c healthy => set_pc i (PRelease e c true healthy) w
  | PRelease e c context_closed healthy => release i e c context_closed healthy now w
  | PClosing ids k => if all_closed w ids then set_pc i (go_after k) w else w
  | PSleep => set_pc i PReaper w
  | PReaper => let '(w, ids) := reap_expired cfg now w in set_pc i (PClosing ids ToSleep) w
  | PClose => close_wait i (set_flags (started w) true (reaper_task w) w)
  | PCloseWait true => close_wait i w
  | PCloseReaper r ids n =>
      if task_done w r
      then set_pc i (PClosing ids (ToDrain n)) (set_closers (closers w ++ ((fun e => (e, false)) <$> ids)) w)
      else w
  | PDrain true n => set_pc i (if closing_processes w =? 0 then PClosed n else PDrain false n) w
  | _ => w
  end.

(** The awaited call raises. *)
Definition fail (cfg : config) (i : nat) (t : task) (w : world) : world :=
  match t_pc t with
  | PStart acquiring =>
      if enabled cfg
      then let '(w, ok) := start false w in set_pc i (if ok && acquiring then PReap else PDone) w
      else set_pc i PDone w
  | PLaunch | PLaunchCancelled => set_pc i (PAbort None) w
  | PContext e => set_pc i (PContextFail e) w
  | PReleasing e c _ => set_pc i (PRelease e c false false) w
  | _ => w
  end.

(** [CancelledError] is raised where the task awaits. *)
Definition cancel (i : nat) (t : task) (w : world) : world :=
  match t_pc t with
  | PStart _ | PReap | PLock | PWait _ | PSleep | PReaper | PClose | PCloseWait _ | PDrain _ _ => set_pc i PDone w
  | PLaunch => set_pc i PLaunchCancelled w
  | PLaunched b => set_pc i (PAbort (Some b)) w
  | PContext e | PContextReady e _ => set_pc i (PContextFail e) w
  | PClosing ids _ => set_pc i (PClosing ids ToDone) w
  | PCloseReaper _ ids _ => set_pc i (PLeaked ids) w
  | _ => w
  end.

(** [lease.release(healthy=False)]. *)
Definition unhealthy (i : nat) (t : task) (w : world) : world :=
  match t_pc t with PLeased e c => set_pc i (PReleasing e c false) w | _ => w end.

(** ** Steps of the world *)

Inductive op :=
| OAcquire (fp : string)
| OStart
| OClose
| OTask (i : nat) (ev : event)
| OBrowserClosed (e : nat)
| OCloseDone (e : nat).

Definition spawn (t : task) (w : world) : world := set_tasks (tasks w ++ [t]) w.

(** [_close_entry]: contexts and browser are closed, or failed to, … *)
Definition browser_closed (e : nat) (w : world) : world :=
  if bool_decide ((e, false) ∈ closers w)
  then set_closers ((fun c => if Nat.eqb (fst c) e then (e, true) else c) <$> closers w)
         (set_native (opened w ∖ {[e]}) (next_browser w) (next_context w) w)
  else w.

(** … and the capacity is given back. *)
Definition close_done (e : nat) (w : world) : world :=
  if bool_decide ((e, true) ∈ closers w)
  then notify_all
         (set_closers (filter (fun c => fst c <> e) (closers w))
            (set_counts (launching w) (Z.max 0 (closing_processes w - 1)) w))
  else w.

Definition step (cfg : config) (w : world) (o : op) : world :=
  match o with
  | OAcquire fp => spawn (mkTask fp (PStart true)) w
  | OStart => spawn (mkTask EmptyString (PStart false)) w
  | OClose => spawn (mkTask EmptyString PClose) w
  | OTask i ev =>
      match tasks w !! i with
      | None => w
      | Some t =>
          match ev with
          | EGo now => go cfg i t now w
          | EFail => fail cfg i t w
          | ECancel => cancel i t w
          | EUnhealthy => unhealthy i t w
          end
      end
  | OBrowserClosed e => browser_closed e w
  | OCloseDone e => close_done e w
  end.

(** ** Accounting *)

(** Launches under way, entries whose closing is still to start, browsers and
    entries a task answers for, and the entry a task has a lease on. *)
Definition lau (p : pc) : Z :=
  match p with PLaunch | PLaunchCancelled | PLaunched _ | PAbort _ => 1 | _ => 0 end.
Definition pend (p : pc) : list nat :=
  match p with PCloseReaper _ ids _ | PLeaked ids => ids | _ => [] end.
Definition lowns (p : pc) : list nat :=
  match p with PLaunched b | PAbort (Some b) => [b] | _ => [] end.
Definition held (p : pc) : option nat :=
  match p with
  | PContext e | PContextReady e _ | PContextFail e | PLeased e _ | PReleasing e _ _ | PRelease e _ _ _ => Some e
  | _ => None
  end.
Definition holds (e : nat) (p : pc) : Z := if bool_decide (held p = Some e) then 1 else 0.

Fixpoint tsum (f : pc -> Z) (ts : list task) : Z :=
  match ts with [] => 0 | t :: ts => f (t_pc t) + tsum f ts end.
Definition tbind (f : pc -> list nat) (ts : list task) : list nat := ts ≫= (fun t => f (t_pc t)).

#[local] Arguments tbind : simpl never.

Definition owned (w : world) : list nat :=
  entries w ++ (closers w).*1 ++ tbind pend (tasks w) ++ tbind lowns (tasks w).

Lemma tsum_app f l1 l2 : tsum f (l1 ++ l2) = tsum f l1 + tsum f l2.
Proof. induction l1; cbn; lia. Qed.
Lemma tbind_app f l1 l2 : tbind f (l1 ++ l2) = tbind f l1 ++ tbind f l2.
Proof. apply bind_app. Qed.
Lemma tbind_cons f t l : tbind f (t :: l) = f (t_pc t) ++ tbind f l.
Proof. done. Qed.

Lemma tsum_map f g ts : (forall p, f (g p) = f p) ->
  tsum f ((fun t => mkTask (t_fp t) (g (t_pc t))) <$> ts) = tsum f ts.
Proof. intros H. induction ts as [|t ts IH]; cbn; [done|]. by rewrite H, IH. Qed.
Lemma tbind_map f g ts : (forall p, f (g p) = f p) ->
  tbind f ((fun t => mkTask (t_fp t) (g (t_pc t))) <$> ts) = tbind f ts.
Proof. intros H. induction ts as [|t ts IH]; [done|]. cbn [fmap list_fmap]. rewrite !tbind_cons. cbn. by rewrite H, IH. Qed.

Lemma tsum_nonneg f ts : (forall p, 0 <= f p) -> 0 <= tsum f ts.
Proof. intros H. induction ts as [|t ts IH]; cbn; [done|]. specialize (H (t_pc t)). lia. Qed.
Lemma tsum_pos f ts t : (forall p, 0 <= f p) -> t ∈ ts -> 0 < f (t_pc t) -> 0 < tsum f ts.
Proof.
  intros H Ht Hp. induction Ht as [t ts|t t' ts Ht IH]; cbn.
  - pose proof (tsum_nonneg f ts H). lia.
  - specialize (H (t_pc t')). specialize (IH Hp). lia.
Qed.
Lemma tsum_zero f ts : (forall t, t ∈ ts -> f (t_pc t) = 0) -> tsum f ts = 0.
Proof.
  induction ts as [|t ts IH]; intros H; cbn; [done|]. rewrite (H t), IH; [done| |by left].
  intros t' Ht'. apply H. by right.
Qed.
Lemma tsum_pos_inv f ts : 0 < tsum f ts -> exists t, t ∈ ts /\ f (t_pc t) <> 0.
Proof.
  induction ts as [|t ts IH]; cbn; [lia|]. intros H. destruct (decide (f (t_pc t) = 0)) as [E|E].
  - destruct IH as (t' & Ht' & Hf); [lia|]. exists t'. split; [by right|done].
  - exists t. split; [by left|done].
Qed.

Lemma lau_nonneg p : 0 <= lau p. Proof. by destruct p. Qed.
Lemma holds_nonneg e p : 0 <= holds e p. Proof. unfold holds. by case_bool_decide. Qed.
Lemma holds_other e p : held p <> Some e -> holds e p = 0.
Proof. intros H. unfold holds. by rewrite bool_decide_false. Qed.

(** The tasks around the one that moves. *)
Lemma tasks_split (ts : list task) i t : ts !! i = Some t ->
  exists l1 l2, ts = l1 ++ t :: l2 /\
    forall p, alter (fun t => mkTask (t_fp t) p) i ts = l1 ++ mkTask (t_fp t) p :: l2.
Proof.
  intros H. exists (take i ts), (drop (S i) ts). split; [symmetry; by apply take_drop_middle|].
  intros p. apply list_eq. intros j.
  assert (i < length ts)%nat by (apply lookup_lt_Some in H; lia).
  destruct (decide (j = i)) as [->|Hj].
  - rewrite list_lookup_alter, decide_True, H by done. cbn.
    rewrite lookup_app_r by (rewrite length_take; lia). rewrite length_take.
    replace (i - i `min` length ts)%nat with 0%nat by lia. done.
  - rewrite list_lookup_alter, decide_False by done.
    destruct (decide (j < i)%nat).
    + rewrite lookup_app_l by (rewrite length_take; lia). by rewrite lookup_take_lt.
    + rewrite lookup_app_r by (rewrite length_take; lia). rewrite length_take.
      replace (j - i `min` length ts)%nat with (S (j - i - 1)) by lia.
      rewrite lookup_cons, lookup_drop. f_equal. lia.
Qed.

Record Core (cfg : config) (w : world) : Prop := mkCore {
  c_launch : launching w = tsum lau (tasks w);
  c_closing : closing_processes w = Z.of_nat (length (closers w) + length (tbind pend (tasks w)));
  c_bound : process_count w <= max_processes cfg;
  c_owned : NoDup (owned w);
  c_fresh : forall b, b ∈ owned w -> (b < next_browser w)%nat;
  c_open : forall b, b ∈ opened w ->
    b ∈ entries w \/ (b, false) ∈ closers w \/ b ∈ tbind pend (tasks w) \/ b ∈ tbind lowns (tasks w);
  c_entry_open : forall b, b ∈ entries w \/ b ∈ tbind lowns (tasks w) -> b ∈ opened w;
  c_heap : forall b en, heap w !! b = Some en -> (b < next_browser w)%nat;
  c_lfresh : forall b, b ∈ tbind lowns (tasks w) -> heap w !! b = None;
  c_entry : forall e, e ∈ entries w -> exists en, heap w !! e = Some en /\ close_started en = false /\
    leases en = tsum (holds e) (tasks w);
  c_held : forall t e, t ∈ tasks w -> held (t_pc t) = Some e ->
    exists en, heap w !! e = Some en /\ fingerprint en = t_fp t
}.

(** The task that moves keeps what it answers for. *)
Record neutral (p q : pc) : Prop := mkNeutral {
  n_lau : lau p = lau q; n_pend : pend p = pend q; n_lowns : lowns p = lowns q; n_held : held p = held q
}.

Lemma neutral_holds p q e : neutral p q -> holds e p = holds e q.
Proof. intros [_ _ _ H]. unfold holds. by rewrite H. Qed.

(** The invariant reads the tasks only through their accounts. *)
Lemma core_tasks cfg w ts :
  Core cfg w -> tsum lau ts = tsum lau (tasks w) -> tbind pend ts = tbind pend (tasks w) ->
  tbind lowns ts = tbind lowns (tasks w) -> (forall e, tsum (holds e) ts = tsum (holds e) (tasks w)) ->
  (forall t e, t ∈ ts -> held (t_pc t) = Some e -> exists t', t' ∈ tasks w /\ held (t_pc t') = Some e /\ t_fp t' = t_fp t) ->
  Core cfg (set_tasks ts w).
Proof.
  intros [] H1 H2 H3 H4 H5. unfold owned, process_count in *.
  split; unfold owned, process_count; cbn; rewrite ?H1, ?H2, ?H3; auto; try (intros b; rewrite ?H2, ?H3; by auto).
  - intros e He. rewrite H4. auto.
  - intros t e Ht He. destruct (H5 t e Ht He) as (t' & Ht' & He' & <-). eauto.
Qed.

Lemma core_notify cfg w : Core cfg w -> Core cfg (notify_all w).
Proof.
  intros H. apply core_tasks; [done|..].
  - apply tsum_map. by intros [].
  - apply tbind_map. by intros [].
  - apply tbind_map. by intros [].
  - intros e. apply tsum_map. by intros [].
  - intros t e (t' & -> & Ht')%list_elem_of_fmap He. exists t'. cbn in *. split; [done|]. by destruct (t_pc t').
Qed.

Lemma core_set_pc cfg w i t p :
  Core cfg w -> tasks w !! i = Some t -> neutral p (t_pc t) -> Core cfg (set_pc i p w).
Proof.
  intros H Hi N. destruct (tasks_split _ _ _ Hi) as (l1 & l2 & E & Ealt).
  unfold set_pc. rewrite Ealt. apply (core_tasks _ w); [done|rewrite E..].
  - rewrite !tsum_app. cbn. by rewrite (n_lau _ _ N).
  - rewrite !tbind_app, !tbind_cons. cbn. by rewrite (n_pend _ _ N).
  - rewrite !tbind_app, !tbind_cons. cbn. by rewrite (n_lowns _ _ N).
  - intros e. rewrite !tsum_app. cbn. by rewrite (neutral_holds _ _ e N).
  - intros t' e Ht' He. rewrite elem_of_app, elem_of_cons in Ht'. setoid_rewrite elem_of_app. setoid_rewrite elem_of_cons.
    destruct Ht' as [?|[->|?]]; [exists t'; auto| |exists t'; auto].
    exists t. cbn in He. rewrite (n_held _ _ N) in He. auto.
Qed.

(** A task that answers for nothing joins. *)
Lemma core_spawn cfg w t : Core cfg w -> neutral (t_pc t) PDone -> Core cfg (spawn t w).
Proof.
  intros H [N1 N2 N3 N4]. apply core_tasks; [done|..].
  - rewrite tsum_app. cbn. rewrite N1. cbn. lia.
  - rewrite tbind_app. rewrite tbind_cons. rewrite N2. by rewrite app_nil_r.
  - rewrite tbind_app. rewrite tbind_cons. rewrite N3. by rewrite app_nil_r.
  - intros e. rewrite tsum_app. cbn. rewrite (holds_other e (t_pc t)) by (by rewrite N4). lia.
  - intros t' e [Ht'|Ht'%list_elem_of_singleton]%elem_of_app He; [eauto|]. subst. by rewrite N4 in He.
Qed.

(** Changes of an entry that its accounts do not see. *)
Lemma core_upd cfg w f e :
  Core cfg w ->
  (forall en, fingerprint (f en) = fingerprint en /\ leases (f en) = leases en /\ close_started (f en) = close_started en) ->
  Core cfg (upd_entry f e w).
Proof.
  intros [] Hf. split; cbn; auto.
  - intros b en. rewrite lookup_alter_Some. intros [(-> & en' & ? & ->)|[_ ?]]; eauto.
  - intros b Hb. apply lookup_alter_None. auto.
  - intros b Hb. destruct (c_entry0 b Hb) as (en & Hen & Hc & Hl). destruct (decide (e = b)) as [->|].
    + exists (f en). rewrite lookup_alter_eq, Hen. destruct (Hf en) as (_ & -> & ->). auto.
    + exists en. rewrite lookup_alter_ne by done. auto.
  - intros t b Ht Hb. destruct (c_held0 t b Ht Hb) as (en & Hen & Hfp). destruct (decide (e = b)) as [->|].
    + exists (f en). rewrite lookup_alter_eq, Hen. destruct (Hf en) as (-> & _ & _). auto.
    + exists en. rewrite lookup_alter_ne by done. auto.
Qed.

Lemma filter_ne_perm (l : list nat) e : NoDup l -> e ∈ l -> l ≡ₚ e :: filter (fun x => x <> e) l.
Proof.
  intros Hnd He. induction l as [|x l IH]; [by apply not_elem_of_nil in He|].
  apply NoDup_cons in Hnd as [Hx Hnd]. apply elem_of_cons in He as [->|He].
  - rewrite filter_cons_False by tauto. f_equiv. rewrite filter_all; [done|]. by intros y Hy ->.
  - rewrite filter_cons_True by (intros ->; done). rewrite IH at 1 by done. by apply perm_swap.
Qed.

Lemma core_detach cfg w e : Core cfg w -> e ∈ entries w -> Core cfg (detach e w).
Proof.
  intros [] He. unfold owned, process_count in *.
  assert (Hnd : NoDup (entries w)) by (apply NoDup_app in c_owned0; tauto).
  pose proof (filter_ne_perm _ _ Hnd He) as HP.
  assert (HO : owned (detach e w) ≡ₚ owned w).
  { unfold owned. cbn. rewrite HP at 2. rewrite fmap_app. cbn. solve_Permutation. }
  split; cbn; auto.
  - rewrite length_app. cbn. lia.
  - apply Permutation_length in HP. cbn in HP. unfold process_count. cbn. lia.
  - by rewrite HO.
  - intros b. rewrite HO. auto.
  - intros b Hb. rewrite elem_of_app, list_elem_of_singleton, list_elem_of_filter. specialize (c_open0 b Hb).
    destruct (decide (b = e)) as [->|]; tauto.
  - intros b Hb. rewrite list_elem_of_filter in Hb. apply c_entry_open0. tauto.
  - intros b en. rewrite lookup_alter_Some. intros [(-> & en' & ? & ->)|[_ ?]]; eauto.
  - intros b Hb. apply lookup_alter_None. auto.
  - intros b [Hne Hb]%list_elem_of_filter. rewrite lookup_alter_ne by done. auto.
  - intros t b Ht Hb. destruct (c_held0 t b Ht Hb) as (en & Hen & Hfp). destruct (decide (e = b)) as [->|].
    + eexists. rewrite lookup_alter_eq, Hen. split; [reflexivity|]. done.
    + exists en. rewrite lookup_alter_ne by done. auto.
Qed.

(** Expose the task that moves in the accounts of both worlds. *)
Ltac open_task Hi l1 l2 :=
  let E := fresh "E" in let Ealt := fresh "Ealt" in
  destruct (tasks_split _ _ _ Hi) as (l1 & l2 & E & Ealt);
  unfold owned, process_count in *; cbn in *;
  repeat match goal with H : context [alter _ _ (tasks _)] |- _ => lazymatch H with Ealt => fail | _ => rewrite Ealt in H end end;
  rewrite ?Ealt; rewrite E in *.
Ltac accounts :=
  repeat (rewrite tsum_app in * || rewrite tbind_app in * || rewrite tbind_cons in *); cbn in *.

Lemma holds_self e p : held p = Some e -> holds e p = 1.
Proof. intros H. unfold holds. by rewrite bool_decide_true. Qed.

Lemma elem_of_middle {A} (x y : A) l1 l2 : x ∈ l1 ++ y :: l2 <-> x = y \/ x ∈ l1 ++ l2.
Proof. rewrite !elem_of_app, elem_of_cons. tauto. Qed.

(** A lease on an entry of the pool. *)
Lemma core_lease cfg w i t e en :
  Core cfg w -> tasks w !! i = Some t -> neutral (t_pc t) PDone -> e ∈ entries w ->
  heap w !! e = Some en -> fingerprint en = t_fp t ->
  Core cfg (set_pc i (PContext e) (upd_entry (fun en => with_leases (leases en + 1) en) e w)).
Proof.
  intros [] Hi [N1 N2 N3 N4] He Hen Hfp.
  assert (forall b, tsum (holds b) (alter (fun t => mkTask (t_fp t) (PContext e)) i (tasks w))
                    = tsum (holds b) (tasks w) + (if decide (b = e) then 1 else 0)) as HT.
  { intros b. destruct (tasks_split _ _ _ Hi) as (l1 & l2 & -> & ->). rewrite !tsum_app. cbn.
    rewrite (holds_other b (t_pc t)) by (by rewrite N4).
    case_decide; [subst; rewrite holds_self by done; lia|]. rewrite (holds_other b) by (cbn; congruence). lia. }
  assert (forall b, b ∈ entries w -> exists en', alter (fun en => with_leases (leases en + 1) en) e (heap w) !! b = Some en' /\
    close_started en' = false /\ leases en' = tsum (holds b) (tasks w) + (if decide (b = e) then 1 else 0)) as HE.
  { intros b Hb. destruct (c_entry0 b Hb) as (en' & Hen' & Hc & Hl). case_decide; subst.
    - eexists. rewrite lookup_alter_eq, Hen'. split; [reflexivity|]. cbn. split; [done|lia].
    - exists en'. rewrite lookup_alter_ne by done. split; [done|]. split; [done|lia]. }
  split; cbn.
  - open_task Hi l1 l2. accounts. rewrite N1 in *. cbn in *. lia.
  - open_task Hi l1 l2. accounts. by rewrite N2 in *.
  - done.
  - open_task Hi l1 l2. accounts. by rewrite N2, N3 in *.
  - open_task Hi l1 l2. accounts. by rewrite N2, N3 in *.
  - open_task Hi l1 l2. accounts. by rewrite N2, N3 in *.
  - open_task Hi l1 l2. accounts. by rewrite N3 in *.
  - intros b en'. rewrite lookup_alter_Some. intros [(-> & ? & ? & ->)|[_ ?]]; eauto.
  - intros b Hb. apply lookup_alter_None. apply c_lfresh0. open_task Hi l1 l2. accounts. by rewrite N3 in *.
  - intros b Hb. rewrite HT. auto.
  - intros t' b Ht' Hb.
    assert (exists en', heap w !! b = Some en' /\ fingerprint en' = t_fp t') as (en' & Hen' & Hfp').
    { open_task Hi l1 l2. rewrite elem_of_middle in Ht'. destruct Ht' as [->|Ht']; [cbn in *; simplify_eq; eauto|].
      apply c_held0; [|done]. rewrite elem_of_middle. auto. }
    destruct (decide (b = e)) as [->|]; [rewrite lookup_alter_eq, Hen'; eexists; split; [reflexivity|exact Hfp']|].
    rewrite lookup_alter_ne by done. eauto.
Qed.

(** A launch begins, within the bound. *)
Lemma core_begin_launch cfg w i t :
  Core cfg w -> tasks w !! i = Some t -> neutral (t_pc t) PDone -> process_count w < max_processes cfg ->
  Core cfg (set_pc i PLaunch (set_counts (launching w + 1) (closing_processes w) w)).
Proof.
  intros [] Hi [N1 N2 N3 N4] Hlt. split; cbn.
  - open_task Hi l1 l2. accounts. rewrite N1 in *. cbn in *. lia.
  - open_task Hi l1 l2. accounts. by rewrite N2 in *.
  - unfold process_count in *. cbn. lia.
  - open_task Hi l1 l2. accounts. by rewrite N2, N3 in *.
  - open_task Hi l1 l2. accounts. by rewrite N2, N3 in *.
  - open_task Hi l1 l2. accounts. by rewrite N2, N3 in *.
  - open_task Hi l1 l2. accounts. by rewrite N3 in *.
  - done.
  - open_task Hi l1 l2. accounts. by rewrite N3 in *.
  - intros b Hb. destruct (c_entry0 b Hb) as (en & Hen & Hc & Hl). exists en. split; [done|]. split; [done|].
    rewrite Hl. open_task Hi l1 l2. accounts. rewrite (holds_other b (t_pc t)) by (by rewrite N4).
    by rewrite (holds_other b PLaunch).
  - intros t' b Ht' Hb. open_task Hi l1 l2. rewrite elem_of_middle in Ht'. destruct Ht' as [->|Ht']; [done|].
    apply c_held0; [|done]. rewrite elem_of_middle. auto.
Qed.

(** A browser process appears. *)
Lemma core_launched cfg w i t p :
  Core cfg w -> tasks w !! i = Some t -> neutral (t_pc t) PLaunch ->
  (p = PLaunched \/ p = (fun b => PAbort (Some b))) -> Core cfg (launch i p w).
Proof.
  intros [] Hi [N1 N2 N3 N4] Hp.
  assert (lau (p (next_browser w)) = 1 /\ pend (p (next_browser w)) = [] /\
          lowns (p (next_browser w)) = [next_browser w] /\ held (p (next_browser w)) = None) as (P1 & P2 & P3 & P4).
  { by destruct Hp; subst. }
  assert (HO : owned (launch i p w) ≡ₚ next_browser w :: owned w).
  { open_task Hi l1 l2. accounts. rewrite P2, P3, N2, N3. cbn. solve_Permutation. }
  split.
  - cbn. open_task Hi l1 l2. accounts. rewrite N1, P1 in *. cbn in *. lia.
  - cbn. open_task Hi l1 l2. accounts. by rewrite N2, P2 in *.
  - done.
  - rewrite HO. apply NoDup_cons. split; [|done]. intros Hin. specialize (c_fresh0 _ Hin). lia.
  - intros b. rewrite HO, elem_of_cons. cbn. intros [->|Hb]; [lia|]. specialize (c_fresh0 _ Hb). lia.
  - cbn. intros b Hb. open_task Hi l1 l2. accounts. rewrite N2, N3, P2, P3 in *. cbn in *.
    apply elem_of_union in Hb as [->%elem_of_singleton|Hb]; [set_solver|].
    specialize (c_open0 b Hb). set_solver.
  - cbn. intros b Hb. open_task Hi l1 l2. accounts. rewrite N3, P3 in *. cbn in *.
    specialize (c_entry_open0 b). set_solver.
  - cbn. intros b en Hb. specialize (c_heap0 _ _ Hb). lia.
  - cbn. intros b Hb. destruct (decide (b = next_browser w)) as [->|Hne].
    + destruct (heap w !! next_browser w) eqn:E; [|done]. specialize (c_heap0 _ _ E). lia.
    + apply c_lfresh0. open_task Hi l1 l2. accounts. rewrite P3, N3 in *. cbn in *. set_solver.
  - cbn. intros b Hb. destruct (c_entry0 b Hb) as (en & Hen & Hc & Hl). exists en. split; [done|]. split; [done|].
    rewrite Hl. open_task Hi l1 l2. accounts. rewrite (holds_other b (t_pc t)) by (by rewrite N4).
    by rewrite (holds_other b (p _)) by (by rewrite P4).
  - cbn. intros t' b Ht' Hb. open_task Hi l1 l2. rewrite elem_of_middle in Ht'. destruct Ht' as [->|Ht'].
    { cbn in Hb. by rewrite P4 in Hb. }
    apply c_held0; [|done]. rewrite elem_of_middle. auto.
Qed.


Lemma tsum_alter f ts i t p : ts !! i = Some t ->
  tsum f (alter (fun t => mkTask (t_fp t) p) i ts) = tsum f ts - f (t_pc t) + f p.
Proof. intros H. destruct (tasks_split _ _ _ H) as (l1 & l2 & -> & ->). rewrite !tsum_app. cbn. lia. Qed.

Lemma tbind_alter f ts i t p : ts !! i = Some t ->
  f (t_pc t) ++ tbind f (alter (fun t => mkTask (t_fp t) p) i ts) ≡ₚ f p ++ tbind f ts.
Proof.
  intros H. destruct (tasks_split _ _ _ H) as (l1 & l2 & -> & ->). rewrite !tbind_app, !tbind_cons. cbn.
  solve_Permutation.
Qed.

Lemma tbind_alter_same f ts i t p : ts !! i = Some t -> f p = f (t_pc t) ->
  tbind f (alter (fun t => mkTask (t_fp t) p) i ts) = tbind f ts.
Proof.
  intros H E. destruct (tasks_split _ _ _ H) as (l1 & l2 & -> & ->). rewrite !tbind_app, !tbind_cons. cbn. by rewrite E.
Qed.

Lemma elem_of_alter_task (ts : list task) (i : nat) t p t' : ts !! i = Some t -> t' ∈ alter (fun t => mkTask (t_fp t) p) i ts ->
  t' = mkTask (t_fp t) p \/ t' ∈ ts.
Proof.
  intros H. destruct (tasks_split _ _ _ H) as (l1 & l2 & -> & ->). rewrite !elem_of_app, !elem_of_cons. tauto.
Qed.

(** The browser of a launch joins the pool with the lease of the task that launched it. *)
Lemma core_join cfg w i t b now :
  Core cfg w -> tasks w !! i = Some t -> t_pc t = PLaunched b ->
  Core cfg (set_pc i (PContext b) (set_entries (<[b := mkEntry (t_fp t) now now 1 ∅ false false]> (heap w))
              (entries w ++ [b]) (set_counts (launching w - 1) (closing_processes w) w))).
Proof.
  intros [] Hi Hpc.
  assert (HT : forall f, tsum f (alter (fun t => mkTask (t_fp t) (PContext b)) i (tasks w))
                 = tsum f (tasks w) - f (PLaunched b) + f (PContext b)).
  { intros f. by rewrite (tsum_alter f _ _ _ _ Hi), Hpc. }
  assert (HP : tbind pend (alter (fun t => mkTask (t_fp t) (PContext b)) i (tasks w)) = tbind pend (tasks w)).
  { by rewrite (tbind_alter_same pend _ _ _ _ Hi) by (by rewrite Hpc). }
  assert (HL : tbind lowns (tasks w) ≡ₚ b :: tbind lowns (alter (fun t => mkTask (t_fp t) (PContext b)) i (tasks w))).
  { pose proof (tbind_alter lowns _ _ _ (PContext b) Hi) as HL. rewrite Hpc in HL. cbn in HL. by symmetry. }
  assert (Hin : b ∈ tbind lowns (tasks w)) by (rewrite HL; by left).
  pose proof (c_lfresh0 _ Hin) as Hb.
  assert (Hnone : tsum (holds b) (tasks w) = 0).
  { apply tsum_zero. intros t' Ht'. apply holds_other. intros Hh.
    destruct (c_held0 t' b Ht' Hh) as (en & Hen & _). congruence. }
  assert (HO : owned (set_pc i (PContext b) (set_entries (heap w) (entries w ++ [b]) w)) ≡ₚ owned w).
  { unfold owned. cbn. rewrite HP, HL. solve_Permutation. }
  assert (HN : b ∉ tbind lowns (alter (fun t => mkTask (t_fp t) (PContext b)) i (tasks w))).
  { unfold owned in c_owned0. rewrite HL, !NoDup_app, NoDup_cons in c_owned0. tauto. }
  split; cbn [set_pc set_entries set_counts heap entries launching closing_processes tasks closers opened next_browser].
  - rewrite HT. cbn. lia.
  - by rewrite HP.
  - unfold process_count in *. cbn. rewrite length_app. cbn. lia.
  - change (NoDup (owned (set_pc i (PContext b) (set_entries (heap w) (entries w ++ [b]) w)))). by rewrite HO.
  - intros b' Hb'. apply c_fresh0. by rewrite <- HO.
  - intros b' Hb'. specialize (c_open0 b' Hb'). rewrite HP. rewrite HL, elem_of_cons in c_open0.
    rewrite elem_of_app, list_elem_of_singleton. tauto.
  - intros b' Hb'. apply c_entry_open0. rewrite HL, elem_of_cons. rewrite elem_of_app, list_elem_of_singleton in Hb'. tauto.
  - intros b' en. rewrite lookup_insert_Some. intros [[<- _]|[_ ?]]; [|eauto]. apply c_fresh0. unfold owned.
    rewrite !elem_of_app. auto.
  - intros b' Hb'. rewrite lookup_insert_ne by (intros ->; done). apply c_lfresh0. rewrite HL. by right.
  - intros e He. rewrite HT. rewrite (holds_other e (PLaunched b)) by done. destruct (decide (e = b)) as [->|Hne].
    + rewrite lookup_insert_eq. eexists. split; [reflexivity|]. split; [done|]. cbn. rewrite holds_self by done. lia.
    + rewrite lookup_insert_ne, (holds_other e (PContext b)) by (cbn; congruence).
      apply elem_of_app in He as [He|He%list_elem_of_singleton]; [|done].
      destruct (c_entry0 e He) as (en & Hen & Hc & Hl). exists en. split; [done|]. split; [done|lia].
  - intros t' e Ht' He. apply (elem_of_alter_task _ _ _ _ _ Hi) in Ht' as [->|Ht'].
    + cbn in He. simplify_eq. rewrite lookup_insert_eq. eexists. split; [reflexivity|done].
    + destruct (c_held0 t' e Ht' He) as (en & Hen & Hfp). rewrite lookup_insert_ne by congruence. eauto.
Qed.

(** A task lets go of an entry that left the pool. *)
Lemma core_forget cfg w i t e p :
  Core cfg w -> tasks w !! i = Some t -> held (t_pc t) = Some e -> e ∉ entries w -> neutral p PDone ->
  Core cfg (set_pc i p w).
Proof.
  intros [] Hi Hh He [N1 N2 N3 N4].
  assert (lau (t_pc t) = 0 /\ pend (t_pc t) = [] /\ lowns (t_pc t) = []) as (T1 & T2 & T3).
  { by destruct (t_pc t). }
  assert (HP : tbind pend (alter (fun t => mkTask (t_fp t) p) i (tasks w)) = tbind pend (tasks w)).
  { apply (tbind_alter_same pend _ _ _ _ Hi). by rewrite T2, N2. }
  assert (HL : tbind lowns (alter (fun t => mkTask (t_fp t) p) i (tasks w)) = tbind lowns (tasks w)).
  { apply (tbind_alter_same lowns _ _ _ _ Hi). by rewrite T3, N3. }
  split; unfold owned; cbn [set_pc heap entries launching closing_processes tasks closers opened next_browser];
    try (intros *); rewrite ?HP, ?HL; eauto 2.
  - rewrite (tsum_alter _ _ _ _ _ Hi), T1, N1. cbn. lia.
  - intros Hb. destruct (c_entry0 _ Hb) as (en & Hen & Hc & Hl). exists en. split; [done|]. split; [done|].
    rewrite (tsum_alter _ _ _ _ _ Hi), (holds_other _ p), (holds_other _ (t_pc t)), Hl; [lia| |by rewrite N4].
    rewrite Hh. congruence.
  - intros Ht' Hb. apply (elem_of_alter_task _ _ _ _ _ Hi) in Ht' as [->|Ht']; [|eauto]. cbn in Hb. by rewrite N4 in Hb.
Qed.

(** A task ends its lease on an entry that may still be in the pool. *)
Lemma core_drop cfg w i t e p :
  Core cfg w -> tasks w !! i = Some t -> held (t_pc t) = Some e -> neutral p PDone ->
  Core cfg (set_pc i p (upd_entry (fun en => with_leases (Z.max 0 (leases en - 1)) en) e w)).
Proof.
  intros [] Hi Hh [N1 N2 N3 N4].
  assert (lau (t_pc t) = 0 /\ pend (t_pc t) = [] /\ lowns (t_pc t) = []) as (T1 & T2 & T3).
  { by destruct (t_pc t). }
  assert (HP : tbind pend (alter (fun t => mkTask (t_fp t) p) i (tasks w)) = tbind pend (tasks w)).
  { apply (tbind_alter_same pend _ _ _ _ Hi). by rewrite T2, N2. }
  assert (HL : tbind lowns (alter (fun t => mkTask (t_fp t) p) i (tasks w)) = tbind lowns (tasks w)).
  { apply (tbind_alter_same lowns _ _ _ _ Hi). by rewrite T3, N3. }
  split; unfold owned; cbn [set_pc upd_entry set_entries heap entries launching closing_processes tasks closers opened next_browser];
    try (intros *); rewrite ?HP, ?HL; eauto 2.
  - rewrite (tsum_alter _ _ _ _ _ Hi), T1, N1. cbn. lia.
  - rewrite lookup_alter_Some. intros [(-> & ? & ? & ->)|[_ ?]]; eauto.
  - intros Hb. apply lookup_alter_None. auto.
  - intros Hb. destruct (c_entry0 _ Hb) as (en & Hen & Hc & Hl).
    rewrite (tsum_alter _ _ _ _ _ Hi), (holds_other _ p) by (by rewrite N4).
    destruct (decide (e0 = e)) as [->|Hne].
    + eexists. rewrite lookup_alter_eq, Hen. split; [reflexivity|]. split; [done|]. cbn. rewrite holds_self by done.
      assert (0 < tsum (holds e) (tasks w)); [|lia].
      apply (tsum_pos _ _ t); [apply holds_nonneg|by eapply list_elem_of_lookup_2|]. by rewrite holds_self.
    + exists en. rewrite lookup_alter_ne by done. rewrite (holds_other _ (t_pc t)) by congruence.
      split; [done|]. split; [done|lia].
  - intros Ht' Hb. apply (elem_of_alter_task _ _ _ _ _ Hi) in Ht' as [->|Ht']; [cbn in Hb; by rewrite N4 in Hb|].
    destruct (c_held0 _ _ Ht' Hb) as (en & Hen & Hfp). destruct (decide (e0 = e)) as [->|].
    + eexists. rewrite lookup_alter_eq, Hen. split; [reflexivity|exact Hfp].
    + exists en. rewrite lookup_alter_ne by done. auto.
Qed.

(** A launch ends without a browser, or after its browser was closed. *)
Lemma core_abort_native cfg w i t b :
  Core cfg w -> tasks w !! i = Some t -> t_pc t = PAbort (Some b) ->
  Core cfg (set_pc i (PAbort None) (set_native (opened w ∖ {[b]}) (next_browser w) (next_context w) w)).
Proof.
  intros [] Hi Hpc.
  assert (HP : tbind pend (alter (fun t => mkTask (t_fp t) (PAbort None)) i (tasks w)) = tbind pend (tasks w)).
  { by rewrite (tbind_alter_same pend _ _ _ _ Hi) by (by rewrite Hpc). }
  assert (HL : tbind lowns (tasks w) ≡ₚ b :: tbind lowns (alter (fun t => mkTask (t_fp t) (PAbort None)) i (tasks w))).
  { pose proof (tbind_alter lowns _ _ _ (PAbort None) Hi) as HL. rewrite Hpc in HL. cbn in HL. by symmetry. }
  unfold owned in *. setoid_rewrite HL in c_fresh0. setoid_rewrite HL in c_open0. setoid_rewrite HL in c_lfresh0.
  setoid_rewrite HL in c_entry_open0. rewrite HL in c_owned0.
  rewrite !NoDup_app, NoDup_cons in c_owned0. destruct c_owned0 as (O1 & O2 & O3 & O4 & O5 & O6 & O7 & O8).
  split; unfold owned; cbn [set_pc set_native heap entries launching closing_processes tasks closers opened next_browser];
    rewrite ?HP; eauto 2.
  - rewrite (tsum_alter _ _ _ _ _ Hi), Hpc. cbn. lia.
  - rewrite !NoDup_app. set_solver.
  - intros b' Hb'. apply c_fresh0. set_solver.
  - intros b' Hb'. specialize (c_open0 b'). set_solver.
  - intros b' Hb'. specialize (c_entry_open0 b'). set_solver.
  - intros b' Hb'. apply c_lfresh0. by right.
  - intros e He. rewrite (tsum_alter _ _ _ _ _ Hi), Hpc. destruct (c_entry0 e He) as (en & ? & ? & Hl).
    exists en. split; [done|]. split; [done|]. rewrite Hl, !holds_other by done. lia.
  - intros t' e Ht' He. apply (elem_of_alter_task _ _ _ _ _ Hi) in Ht' as [->|Ht']; [done|eauto].
Qed.

Lemma core_abort cfg w i t :
  Core cfg w -> tasks w !! i = Some t -> t_pc t = PAbort None -> Core cfg (abort_launch i w).
Proof.
  intros [] Hi Hpc. apply core_notify.
  assert (HB : forall f, f (PAbort None) = f PDone ->
    tbind f (alter (fun t => mkTask (t_fp t) PDone) i (tasks w)) = tbind f (tasks w)).
  { intros f Hf. by rewrite (tbind_alter_same f _ _ _ _ Hi) by (by rewrite Hpc). }
  assert (0 < tsum lau (tasks w)).
  { apply (tsum_pos _ _ t); [apply lau_nonneg|by eapply list_elem_of_lookup_2|]. by rewrite Hpc. }
  split; unfold owned; cbn [set_pc set_counts heap entries launching closing_processes tasks closers opened next_browser];
    try (intros *); rewrite ?(HB pend), ?(HB lowns) by done; eauto 2.
  - rewrite (tsum_alter _ _ _ _ _ Hi), Hpc. cbn. lia.
  - unfold process_count in *. cbn. lia.
  - intros He. rewrite (tsum_alter _ _ _ _ _ Hi), Hpc. destruct (c_entry0 e He) as (en & ? & ? & Hl).
    exists en. split; [done|]. split; [done|]. rewrite Hl, !holds_other by done. lia.
  - intros Ht' He. apply (elem_of_alter_task _ _ _ _ _ Hi) in Ht' as [->|Ht']; [done|eauto].
Qed.

(** [close] takes every entry out of the pool; the closing of them is to start. *)
Lemma foldl_alter_lookup (f : BrowserEntry -> BrowserEntry) ids (h : gmap nat BrowserEntry) e :
  (forall en, f (f en) = f en) ->
  foldl (fun h e => alter f e h) h ids !! e = (if decide (e ∈ ids) then f else id) <$> h !! e.
Proof.
  intros Hf. revert h. induction ids as [|x ids IH]; intros h; cbn; [by destruct (h !! e)|].
  rewrite IH. destruct (decide (e = x)) as [->|Hne].
  - rewrite lookup_alter_eq. destruct (h !! x) as [en|]; cbn; [|done]. f_equal.
    repeat case_decide; rewrite ?elem_of_cons in *; cbn; tauto || by rewrite ?Hf.
  - rewrite lookup_alter_ne by done. destruct (h !! e); cbn; [|done]. f_equal.
    repeat case_decide; rewrite ?elem_of_cons in *; tauto || done.
Qed.

(** The entries and the duty to close them move to a task without accounts. *)
Lemma core_take_all cfg w i t r n :
  Core cfg w -> tasks w !! i = Some t -> neutral (t_pc t) PDone ->
  Core cfg (set_pc i (PCloseReaper r (entries w) n)
    (set_counts (launching w) (closing_processes w + Z.of_nat (length (entries w)))
       (set_entries (foldl (fun h e => alter (with_flags true true) e h) (heap w) (entries w)) [] w))).
Proof.
  intros [] Hi [N1 N2 N3 N4]. set (p := PCloseReaper r (entries w) n).
  assert (HL : tbind lowns (alter (fun t => mkTask (t_fp t) p) i (tasks w)) = tbind lowns (tasks w)).
  { by rewrite (tbind_alter_same lowns _ _ _ _ Hi) by (by rewrite N3). }
  assert (HP : tbind pend (alter (fun t => mkTask (t_fp t) p) i (tasks w)) ≡ₚ entries w ++ tbind pend (tasks w)).
  { pose proof (tbind_alter pend _ _ _ p Hi) as HP. by rewrite N2 in HP. }
  assert (HO : (closers w).*1 ++ tbind pend (alter (fun t => mkTask (t_fp t) p) i (tasks w)) ++ tbind lowns (tasks w) ≡ₚ owned w).
  { rewrite HP. unfold owned. solve_Permutation. }
  assert (HH : forall e en, heap w !! e = Some en -> exists en',
     foldl (fun h e => alter (with_flags true true) e h) (heap w) (entries w) !! e = Some en' /\ fingerprint en' = fingerprint en).
  { intros e en He. rewrite foldl_alter_lookup, He by done. eexists. split; [reflexivity|]. by case_decide. }
  split; unfold owned; cbn [set_pc set_counts set_entries heap entries launching closing_processes tasks closers opened next_browser app];
    rewrite ?HL.
  - rewrite (tsum_alter _ _ _ _ _ Hi), N1. cbn. lia.
  - rewrite HP, length_app. lia.
  - unfold process_count in *. cbn. lia.
  - by rewrite HO.
  - intros b. rewrite HO. auto.
  - intros b Hb. rewrite HP. specialize (c_open0 b Hb). rewrite elem_of_app. tauto.
  - intros b [Hb|Hb]; [by apply not_elem_of_nil in Hb|auto].
  - intros b en. rewrite foldl_alter_lookup by done. destruct (heap w !! b) eqn:E; cbn; [eauto|done].
  - intros b Hb. rewrite foldl_alter_lookup by done. by rewrite c_lfresh0.
  - intros e He. by apply not_elem_of_nil in He.
  - intros t' e Ht' He. apply (elem_of_alter_task _ _ _ _ _ Hi) in Ht' as [->|Ht']; [done|].
    destruct (c_held0 _ _ Ht' He) as (en & Hen & <-). by apply HH.
Qed.

(** The closing of the entries a task answers for starts. *)
Lemma core_close_all cfg w i t r ids n p :
  Core cfg w -> tasks w !! i = Some t -> t_pc t = PCloseReaper r ids n -> neutral p PDone ->
  Core cfg (set_pc i p (set_closers (closers w ++ ((fun e => (e, false)) <$> ids)) w)).
Proof.
  intros [] Hi Hpc [N1 N2 N3 N4].
  assert (HL : tbind lowns (alter (fun t => mkTask (t_fp t) p) i (tasks w)) = tbind lowns (tasks w)).
  { by rewrite (tbind_alter_same lowns _ _ _ _ Hi) by (by rewrite N3, Hpc). }
  assert (HP : ids ++ tbind pend (alter (fun t => mkTask (t_fp t) p) i (tasks w)) ≡ₚ tbind pend (tasks w)).
  { pose proof (tbind_alter pend _ _ _ p Hi) as HP. by rewrite N2, Hpc in HP. }
  assert (HC : (closers w ++ ((fun e => (e, false)) <$> ids)).*1 = (closers w).*1 ++ ids).
  { rewrite fmap_app, <- list_fmap_compose. f_equal. apply list_fmap_id. }
  split; unfold owned; cbn [set_pc set_closers heap entries launching closing_processes tasks closers opened next_browser];
    rewrite ?HL, ?HC; eauto 2.
  - rewrite (tsum_alter _ _ _ _ _ Hi), N1, Hpc. cbn. lia.
  - rewrite c_closing0, <- HP, !length_app, length_fmap. lia.
  - rewrite <- app_assoc, (app_assoc ids), HP. done.
  - intros b. rewrite <- app_assoc, (app_assoc ids), HP. apply c_fresh0.
  - intros b Hb. specialize (c_open0 b Hb). rewrite <- HP, elem_of_app in c_open0. rewrite elem_of_app, list_elem_of_fmap.
    destruct c_open0 as [?|[?|[[?|?]|?]]]; eauto 6.
  - intros e He. destruct (c_entry0 e He) as (en & ? & ? & Hl).
    exists en. split; [done|]. split; [done|]. rewrite (tsum_alter _ _ _ _ _ Hi), Hl, Hpc, !holds_other by (by rewrite ?N4). lia.
  - intros t' e Ht' He. apply (elem_of_alter_task _ _ _ _ _ Hi) in Ht' as [->|Ht']; [cbn in He; by rewrite N4 in He|eauto].
Qed.

Lemma nodup_fst_inj (l : list (nat * bool)) e b1 b2 : NoDup l.*1 -> (e, b1) ∈ l -> (e, b2) ∈ l -> b1 = b2.
Proof.
  intros Hnd (i & Hi)%list_elem_of_lookup (j & Hj)%list_elem_of_lookup.
  assert (i = j) as ->; [|congruence]. eapply NoDup_lookup; [exact Hnd|rewrite list_lookup_fmap, Hi; done|].
  by rewrite list_lookup_fmap, Hj.
Qed.

Lemma filter_fst_perm (l : list (nat * bool)) e b : NoDup l.*1 -> (e, b) ∈ l ->
  l ≡ₚ (e, b) :: filter (fun c => fst c <> e) l.
Proof.
  induction l as [|[x y] l IH]; intros Hnd He; [by apply not_elem_of_nil in He|].
  apply NoDup_cons in Hnd as [Hx Hnd]. apply elem_of_cons in He as [He|He].
  - injection He as -> ->. rewrite filter_cons_False by (cbn; tauto). f_equiv. rewrite filter_all; [done|].
    intros [x' y'] Hin Heq. cbn in Heq. subst. apply Hx. apply list_elem_of_fmap. by exists (x, y').
  - rewrite filter_cons_True.
    + rewrite IH at 1 by done. apply perm_swap.
    + cbn. intros ->. apply Hx. apply list_elem_of_fmap. by exists (e, b).
Qed.

Lemma closers_nodup cfg w : Core cfg w -> NoDup (closers w).*1 /\ forall e, e ∈ (closers w).*1 ->
  e ∉ entries w /\ e ∉ tbind pend (tasks w) /\ e ∉ tbind lowns (tasks w).
Proof.
  intros []. unfold owned in c_owned0. rewrite !NoDup_app in c_owned0.
  destruct c_owned0 as (_ & H1 & H2 & H3 & _). split; [done|]. intros e He. split.
  - intros Hin. by apply (H1 e Hin), elem_of_app; left.
  - specialize (H3 e He). rewrite elem_of_app in H3. tauto.
Qed.

Lemma core_browser_closed cfg w e : Core cfg w -> Core cfg (browser_closed e w).
Proof.
  intros H. unfold browser_closed. case_bool_decide as He; [|done].
  destruct (closers_nodup _ _ H) as [Hnd Hdisj].
  destruct (Hdisj e) as (D1 & D2 & D3); [by apply (list_elem_of_fmap_2 fst) in He|].
  destruct H.
  assert (HC : ((fun c => if Nat.eqb (fst c) e then (e, true) else c) <$> closers w).*1 = (closers w).*1).
  { rewrite <- list_fmap_compose. apply list_fmap_ext. intros _ [x y] _. cbn. destruct (Nat.eqb_spec x e); by subst. }
  split; unfold owned; cbn [set_closers set_native heap entries launching closing_processes tasks closers opened next_browser];
    rewrite ?HC, ?length_fmap; auto.
  - intros b [Hb Hne]%elem_of_difference. destruct (c_open0 b Hb) as [?|[Hb'|?]]; auto. right. left.
    apply list_elem_of_fmap. exists (b, false). split; [|done]. cbn.
    destruct (Nat.eqb_spec b e); [set_solver|done].
  - intros b Hb. apply elem_of_difference. split; [auto|]. intros ->%elem_of_singleton. tauto.
Qed.

Lemma core_close_done cfg w e : Core cfg w -> Core cfg (close_done e w).
Proof.
  intros H. unfold close_done. case_bool_decide as He; [|done]. apply core_notify.
  destruct (closers_nodup _ _ H) as [Hnd _]. pose proof (filter_fst_perm _ _ _ Hnd He) as HP. destruct H.
  assert (HL : length (closers w) = S (length (filter (fun c => fst c <> e) (closers w)))).
  { by rewrite HP at 1. }
  assert (HO : owned w ≡ₚ e :: entries w ++ (filter (fun c => fst c <> e) (closers w)).*1
                       ++ tbind pend (tasks w) ++ tbind lowns (tasks w)).
  { unfold owned. rewrite HP at 1. cbn. solve_Permutation. }
  rewrite HO, NoDup_cons in c_owned0. destruct c_owned0 as [_ c_owned0]. setoid_rewrite HO in c_fresh0.
  split; unfold owned; cbn [set_closers set_counts heap entries launching closing_processes tasks closers opened next_browser]; auto.
  - lia.
  - unfold process_count in *. cbn. lia.
  - intros b Hb. apply c_fresh0. by right.
  - intros b Hb. rewrite list_elem_of_filter. destruct (c_open0 b Hb) as [?|[Hb'|?]]; auto.
    right. left. split; [|done]. cbn. intros ->. by pose proof (nodup_fst_inj _ _ _ _ Hnd He Hb').
Qed.

(** ** Every step keeps the accounts *)

Lemma core_reap cfg w now :
  Core cfg w -> Core cfg (fst (reap_expired cfg now w)).
Proof.
  intros H. unfold reap_expired. cbn. set (ids := List.filter _ (entries w)).
  assert (Hin : forall e, e ∈ ids -> e ∈ entries w).
  { intros e. unfold ids. rewrite elem_of_list_filter. tauto. }
  assert (Hnd : NoDup ids).
  { assert (Hne : NoDup (entries w)) by (destruct H; unfold owned in *; rewrite NoDup_app in *; tauto).
    by apply NoDup_list_filter. }
  assert (Core cfg (foldl (fun w e => detach e w) w ids)).
  { clearbody ids. revert w H Hin. induction ids as [|e ids IH]; intros w H Hin; cbn; [done|].
    apply NoDup_cons in Hnd as [He Hnd]. apply IH; [done| |].
    - apply core_detach; [done|]. apply Hin. by left.
    - intros e' He'. cbn. apply list_elem_of_filter. split; [by intros ->|]. apply Hin. by right. }
  case_bool_decide; [done|]. by apply core_notify.
Qed.

Lemma core_flags cfg w st cl r : Core cfg w -> Core cfg (set_flags st cl r w).
Proof. by intros []. Qed.

Lemma core_start cfg w ok : Core cfg w -> Core cfg (fst (start ok w)).
Proof.
  intros H. unfold start. repeat case_match; cbn; try done; [|by apply core_flags].
  by apply (core_spawn cfg (set_flags true false _ w)); [apply core_flags|].
Qed.

Lemma find_entry w P e : List.find (fun e => entry_of w e P) (entries w) = Some e ->
  e ∈ entries w /\ exists en, heap w !! e = Some en /\ P en = true.
Proof.
  intros [Hin He]%List.find_some. rewrite <- list_elem_of_In in Hin. split; [done|].
  unfold entry_of in He. destruct (heap w !! e); [eauto|done].
Qed.

Ltac neutral_pc Hpc := by (rewrite ?Hpc; split).

Lemma core_acquire cfg w i t :
  Core cfg w -> tasks w !! i = Some t -> t_pc t = PLock -> Core cfg (acquire_section cfg i (t_fp t) w).
Proof.
  intros H Hi Hpc. unfold acquire_section. destruct (closing w); [apply (core_set_pc _ _ _ t); auto; neutral_pc Hpc|].
  destruct (List.find _ (entries w)) as [e|] eqn:E1.
  { apply find_entry in E1 as (He & en & Hen & Hfp). bool_to_prop.
    eapply (core_lease _ _ _ t); [done|done|neutral_pc Hpc|done|exact Hen|]. by apply String.eqb_eq. }
  destruct (Z.ltb_spec (process_count w) (max_processes cfg)); [by apply (core_begin_launch _ _ _ t); auto; neutral_pc Hpc|].
  destruct (List.find (fun e => entry_of w e (fun en => leases en =? 0)) (entries w)) as [e|] eqn:E2;
    [|apply (core_set_pc _ _ _ t); auto; neutral_pc Hpc].
  apply find_entry in E2 as (He & _). apply core_notify.
  apply (core_set_pc _ _ _ t); [by apply core_detach|done|neutral_pc Hpc].
Qed.

Lemma world_eq w1 w2 :
  heap w1 = heap w2 -> entries w1 = entries w2 -> launching w1 = launching w2 ->
  closing_processes w1 = closing_processes w2 -> started w1 = started w2 -> closing w1 = closing w2 ->
  reaper_task w1 = reaper_task w2 -> tasks w1 = tasks w2 -> closers w1 = closers w2 -> opened w1 = opened w2 ->
  next_browser w1 = next_browser w2 -> next_context w1 = next_context w2 -> w1 = w2.
Proof. destruct w1, w2. cbn. by intros -> -> -> -> -> -> -> -> -> -> -> ->. Qed.

Lemma core_register cfg w i t b now :
  Core cfg w -> tasks w !! i = Some t -> t_pc t = PLaunched b -> Core cfg (register i b (t_fp t) now w).
Proof.
  intros H Hi Hpc. unfold register. apply core_notify. pose proof (core_join _ _ _ _ _ now H Hi Hpc) as HJ.
  destruct (closing w) eqn:Hcl; [|exact HJ].
  assert (Hb : b ∉ entries w).
  { intros Hin. destruct H. assert (b ∈ tbind lowns (tasks w)).
    { open_task Hi l1 l2. accounts. rewrite Hpc. rewrite !elem_of_app. right. left. by left. }
    destruct (c_entry0 b Hin) as (? & Hen & _). rewrite c_lfresh0 in Hen; done. }
  apply (core_detach _ _ b) in HJ; [|cbn; rewrite elem_of_app, list_elem_of_singleton; auto].
  eapply (core_forget _ _ i (mkTask (t_fp t) (PContext b)) b (PClosing [b] ToDone)) in HJ; [|..].
  - replace (set_pc i (PClosing [b] ToDone) (set_closers _ _)) with (set_pc i (PClosing [b] ToDone) (detach b
      (set_pc i (PContext b) (set_entries (<[b:=mkEntry (t_fp t) now now 1 ∅ false false]> (heap w)) (entries w ++ [b])
        (set_counts (launching w - 1) (closing_processes w) w))))); [exact HJ|].
    apply world_eq; cbn; try done.
    + by rewrite alter_insert_eq.
    + rewrite filter_app, filter_cons_False, filter_nil, app_nil_r by tauto.
      apply filter_all. by intros x Hx ->.
    + by rewrite list_alter_alter_eq.
  - cbn. by rewrite list_lookup_alter_eq, Hi.
  - done.
  - cbn. rewrite list_elem_of_filter. tauto.
  - by split.
Qed.

Lemma core_retire cfg w i t e :
  Core cfg w -> tasks w !! i = Some t -> held (t_pc t) = Some e -> Core cfg (retire i e w).
Proof.
  intros H Hi Hh. unfold retire. apply core_notify.
  pose proof (core_drop _ _ _ _ _ (PClosing [e] ToDone) H Hi Hh ltac:(by split)) as HD.
  pose proof (core_drop _ _ _ _ _ PDone H Hi Hh ltac:(by split)) as HD'.
  apply (core_upd _ _ (fun en => with_flags true (close_started en) en) e) in HD, HD'; [|done..].
  destruct (idle_retiring _ e) eqn:E; [|exact HD'].
  apply andb_true_iff in E as [E%bool_decide_eq_true _]. apply (core_detach _ _ e) in HD; [exact HD|exact E].
Qed.

Lemma core_release cfg w i t e c closed healthy now :
  Core cfg w -> tasks w !! i = Some t -> held (t_pc t) = Some e -> Core cfg (release i e c closed healthy now w).
Proof.
  intros H Hi Hh. unfold release. apply core_notify.
  set (w1 := if closed || healthy then _ else w).
  assert (Core cfg w1 /\ tasks w1 !! i = Some t) as [H1 Hi1].
  { unfold w1. destruct (closed || healthy); [|done]. split; [by apply core_upd|done]. }
  clearbody w1. clear H Hi. set (w2 := upd_entry _ e w1).
  assert (H2 : forall p, neutral p PDone -> Core cfg (set_pc i p w2)) by (intros; by eapply core_drop).
  clearbody w2. set (w3 := if healthy then w2 else _).
  assert (H3 : forall p, neutral p PDone -> Core cfg (set_pc i p w3)).
  { intros p Hp. specialize (H2 p Hp). unfold w3. destruct healthy; [done|].
    by apply (core_upd _ _ (fun en => with_flags true (close_started en) en) e) in H2. }
  clearbody w3. destruct (idle_retiring w3 e) eqn:E.
  - apply andb_true_iff in E as [E%bool_decide_eq_true _].
    by apply (core_detach _ (set_pc i (PClosing [e] ToDone) w3)); [apply H3|].
  - specialize (H3 PDone ltac:(by split)). case_bool_decide; [|done].
    by apply (core_upd _ _ (with_last_used now) e) in H3.
Qed.

Lemma alter_reaper_core cfg w r : Core cfg w ->
  Core cfg (set_tasks (alter (fun t => mkTask (t_fp t) (cancel_reaper (t_pc t))) r (tasks w)) w).
Proof.
  intros H. destruct (tasks w !! r) as [t|] eqn:Hr.
  - apply (core_set_pc _ _ r t (cancel_reaper (t_pc t))) in H; [|done|].
    + replace (set_tasks _ w) with (set_pc r (cancel_reaper (t_pc t)) w); [done|].
      apply world_eq; cbn; try done. apply list_eq. intros j. rewrite !list_lookup_alter.
      case_decide; [subst|done]. by rewrite Hr.
    + destruct (t_pc t); try by split. destruct k; by split.
  - replace (set_tasks _ w) with w; [done|]. apply world_eq; cbn; try done. apply list_eq. intros j.
    rewrite list_lookup_alter. case_decide; [subst; by rewrite Hr|done].
Qed.

Lemma core_stop_reaper cfg w : Core cfg w -> Core cfg (stop_reaper w).
Proof.
  intros H. unfold stop_reaper. apply core_flags. destruct (reaper_task w); [by apply alter_reaper_core|done].
Qed.

Lemma stop_reaper_task w i t : tasks w !! i = Some t ->
  exists t', tasks (stop_reaper w) !! i = Some t' /\ t_fp t' = t_fp t /\
    (t_pc t' = t_pc t \/ t_pc t' = cancel_reaper (t_pc t)).
Proof.
  intros Hi. unfold stop_reaper. destruct (reaper_task w) as [r|]; cbn; [|eauto].
  rewrite list_lookup_alter. case_decide; subst; rewrite ?Hi; (eexists; split; [reflexivity|cbn; auto]).
Qed.

Lemma neutral_reaper p : neutral (cancel_reaper p) p.
Proof. destruct p; try by split. destruct k; by split. Qed.
Lemma neutral_notify p : neutral (notify_pc p) p.
Proof. by destruct p. Qed.
Lemma neutral_sym p q : neutral p q -> neutral q p.
Proof. intros []. by split. Qed.
Lemma neutral_trans p q r : neutral p q -> neutral q r -> neutral p r.
Proof. intros [] []. split; congruence. Qed.

Lemma notify_task w i t : tasks w !! i = Some t ->
  tasks (notify_all w) !! i = Some (mkTask (t_fp t) (notify_pc (t_pc t))).
Proof. intros Hi. cbn. by rewrite list_lookup_fmap, Hi. Qed.

Lemma core_close_detach cfg w i t :
  Core cfg w -> tasks w !! i = Some t -> neutral (t_pc t) PDone -> Core cfg (close_detach i w).
Proof.
  intros H Hi N. destruct (stop_reaper_task _ _ _ (notify_task _ _ _ Hi)) as (t' & Hi' & _ & Hp).
  apply (core_take_all _ _ _ t'); [by apply core_stop_reaper, core_notify|done|]. cbn in Hp.
  destruct Hp as [-> | ->]; [|eapply neutral_trans; [apply neutral_reaper|]];
    (eapply neutral_trans; [apply neutral_notify|done]).
Qed.

Lemma core_close_wait cfg w i t :
  Core cfg w -> tasks w !! i = Some t -> neutral (t_pc t) PDone -> Core cfg (close_wait i w).
Proof.
  intros H Hi N. unfold close_wait. case_match; [by eapply core_close_detach|].
  eapply core_set_pc; [done..|]. apply neutral_sym. eapply neutral_trans; [done|by split].
Qed.

Lemma start_task ok w i t : tasks w !! i = Some t -> tasks (fst (start ok w)) !! i = Some t.
Proof. intros Hi. unfold start. repeat case_match; cbn; try done. by apply lookup_app_l_Some. Qed.

Lemma foldl_detach_tasks w ids : tasks (foldl (fun w e => detach e w) w ids) = tasks w.
Proof. revert w. induction ids as [|e ids IH]; intros w; cbn; [done|]. by rewrite IH. Qed.

Lemma reap_task cfg now w i t : tasks w !! i = Some t ->
  exists t', tasks (fst (reap_expired cfg now w)) !! i = Some t' /\ t_fp t' = t_fp t /\
    (t_pc t' = t_pc t \/ t_pc t' = notify_pc (t_pc t)).
Proof.
  intros Hi. unfold reap_expired. cbn. case_bool_decide.
  - rewrite foldl_detach_tasks. eauto.
  - cbn. rewrite list_lookup_fmap, foldl_detach_tasks, Hi. cbn. eexists. split; [reflexivity|]. cbn. auto.
Qed.

Lemma core_reap_pc cfg now w i t p :
  Core cfg w -> tasks w !! i = Some t -> neutral p (t_pc t) ->
  Core cfg (set_pc i p (fst (reap_expired cfg now w))).
Proof.
  intros H Hi N. destruct (reap_task cfg now _ _ _ Hi) as (t' & Hi' & _ & Hp).
  eapply core_set_pc; [by apply core_reap|exact Hi'|]. destruct Hp as [-> | ->]; [done|].
  eapply neutral_trans; [done|]. apply neutral_sym, neutral_notify.
Qed.

Lemma core_start_pc cfg ok w i t p :
  Core cfg w -> tasks w !! i = Some t -> neutral p (t_pc t) -> Core cfg (set_pc i p (fst (start ok w))).
Proof. intros H Hi N. eapply core_set_pc; [by apply core_start|by apply start_task|done]. Qed.

Lemma core_go cfg w i t now :
  Core cfg w -> tasks w !! i = Some t -> Core cfg (go cfg i t now w).
Proof.
  intros H Hi. unfold go.
  assert (HN : forall p, neutral p (t_pc t) -> Core cfg (set_pc i p w)) by (intros; by eapply core_set_pc).
  assert (HR : forall p, neutral p (t_pc t) -> Core cfg (set_pc i p (fst (reap_expired cfg now w))))
    by (intros; by eapply core_reap_pc).
  assert (HS : forall p, neutral p (t_pc t) -> Core cfg (set_pc i p (fst (start true w))))
    by (intros; by eapply core_start_pc).
  destruct (t_pc t) as [acq| | |[]| | |b|[b|]|e|e c|e|e c|e c h|e c cl h|ids k| | | |[]|r ids n|[] n|n|ids|] eqn:Hpc;
    try done; try (by apply HN).
  - destruct (enabled cfg); [|by apply HN]. destruct (start true w) as [w' ok] eqn:E. cbn in HS. apply HS.
    by destruct (ok && acq).
  - destruct (reap_expired cfg now w) as [w' ids] eqn:E. by apply HR.
  - by apply core_acquire.
  - eapply core_launched; [done..|by rewrite Hpc|auto].
  - eapply core_launched; [done..|by rewrite Hpc|auto].
  - by apply core_register.
  - by eapply core_abort_native.
  - by eapply core_abort.
  - eapply (core_set_pc _ (set_native _ _ _ w)); [|done|by rewrite Hpc]. by destruct H.
  - unfold register_context. case_bool_decide; [|by apply HN].
    eapply core_set_pc; [by apply core_upd|done|by rewrite Hpc].
  - eapply core_retire; [done..|by rewrite Hpc].
  - eapply core_release; [done..|by rewrite Hpc].
  - case_match; [|done]. apply HN. by destruct k.
  - destruct (reap_expired cfg now w) as [w' ids] eqn:E. by apply HR.
  - eapply core_close_wait; [by apply core_flags|done|by rewrite Hpc].
  - eapply core_close_wait; [done..|by rewrite Hpc].
  - case_match; [|done]. by eapply core_close_all.
  - apply HN. by case_match.
Qed.

Lemma core_step cfg w o : Core cfg w -> Core cfg (step cfg w o).
Proof.
  intros H. destruct o as [fp| | |i ev|e|e]; cbn; try (by apply core_spawn).
  - destruct (tasks w !! i) as [t|] eqn:Hi; [|done].
    assert (HN : forall p, neutral p (t_pc t) -> Core cfg (set_pc i p w)) by (intros; by eapply core_set_pc).
    assert (HS : forall p, neutral p (t_pc t) -> Core cfg (set_pc i p (fst (start false w))))
      by (intros; by eapply core_start_pc).
    destruct ev; [by apply core_go|..]; unfold fail, cancel, unhealthy;
      destruct (t_pc t) eqn:Hpc; try done; try (by apply HN).
    destruct (enabled cfg); [|by apply HN]. destruct (start false w) as [w' ok]. apply HS. by destruct (ok && acquiring).
  - by apply core_browser_closed.
  - by apply core_close_done.
Qed.

Lemma core_init cfg : 0 <= max_processes cfg -> Core cfg pool_init.
Proof.
  intros Hm. split; cbn; try done; try set_solver. by constructor.
Qed.

(** ** Waiting tasks *)

(** What keeps a task waiting: no entry it could use, none it could recycle, and
    no room for another process. *)
Record blocked (cfg : config) (fp : string) (w : world) : Prop := mkBlocked {
  b_full : max_processes cfg <= process_count w;
  b_entries : forall e en, e ∈ entries w -> heap w !! e = Some en ->
    0 < leases en /\ (fingerprint en = fp -> retiring en = true)
}.

Definition Waits (cfg : config) (w : world) : Prop :=
  forall t, t ∈ tasks w -> t_pc t = PWait false -> blocked cfg (t_fp t) w.

(** Nothing a waiting task waits for appears. *)
Record no_news (w w' : world) : Prop := mkNoNews {
  nn_entries : entries w' = entries w;
  nn_count : process_count w <= process_count w';
  nn_heap : forall e en', e ∈ entries w -> heap w' !! e = Some en' -> exists en, heap w !! e = Some en /\
    fingerprint en' = fingerprint en /\ retiring en' = retiring en /\ leases en <= leases en'
}.

Lemma waits_frame cfg w w' :
  Waits cfg w -> no_news w w' ->
  (forall t, t ∈ tasks w' -> t_pc t = PWait false -> t ∈ tasks w) -> Waits cfg w'.
Proof.
  intros HW [N1 N2 N3] Ht t Hin Hpc. destruct (HW t (Ht t Hin Hpc) Hpc) as [B1 B2]. split; [lia|].
  rewrite N1. intros e en' He Hen'. destruct (N3 e en' He Hen') as (en & Hen & E1 & E2 & E3).
  destruct (B2 e en He Hen). split; [lia|]. rewrite E1, E2. done.
Qed.

Definition no_waiter (ts : list task) : Prop := forall t, t ∈ ts -> t_pc t <> PWait false.

Lemma no_waiter_notify w : no_waiter (tasks (notify_all w)).
Proof. intros t. cbn. rewrite list_elem_of_fmap. intros (t' & -> & _). cbn. by destruct (t_pc t'). Qed.
Lemma no_waiter_waits cfg w : no_waiter (tasks w) -> Waits cfg w.
Proof. intros H t Ht Hpc. by specialize (H t Ht). Qed.
Lemma waits_notify cfg w : Waits cfg (notify_all w).
Proof. apply no_waiter_waits, no_waiter_notify. Qed.

Lemma no_news_same w w' : entries w' = entries w -> heap w' = heap w -> process_count w <= process_count w' -> no_news w w'.
Proof.
  intros E H P. split; [done..|]. intros e en He. rewrite H. intros Hen. exists en. split; [done|]. split; [done|]. by split.
Qed.

Lemma no_news_upd w w' f e : no_news w w' ->
  (forall en, fingerprint (f en) = fingerprint en /\ retiring (f en) = retiring en /\ leases en <= leases (f en)) ->
  no_news w (upd_entry f e w').
Proof.
  intros [N1 N2 N3] Hf. split; [done..|]. intros e' en' He'. cbn. rewrite lookup_alter_Some.
  intros [(-> & en & Hen & ->)|[_ Hen]]; [|eauto]. destruct (N3 e' en He' Hen) as (en0 & ? & ? & ? & ?), (Hf en) as (? & ? & ?).
  exists en0. split; [done|]. split; [congruence|]. split; [congruence|lia].
Qed.

Lemma waits_set_pc cfg w w' i p : Waits cfg w -> no_news w w' -> tasks w' = tasks w -> p <> PWait false ->
  Waits cfg (set_pc i p w').
Proof.
  intros HW HN HT Hp. eapply waits_frame; [exact HW|destruct HN; by split|]. cbn. rewrite HT.
  intros t Ht Hpc. destruct (tasks w !! i) as [t0|] eqn:Hi.
  - apply (elem_of_alter_task _ _ _ _ _ Hi) in Ht as [->|Ht]; [done|done].
  - apply list_elem_of_lookup in Ht as [j Hj]. rewrite list_lookup_alter in Hj. apply list_elem_of_lookup.
    exists j. case_decide; [subst; by rewrite Hi in Hj|done].
Qed.

Lemma no_waiter_set_pc i p w : no_waiter (tasks w) -> p <> PWait false -> no_waiter (tasks (set_pc i p w)).
Proof.
  intros H Hp t (j & Hj)%list_elem_of_lookup. cbn in Hj. rewrite list_lookup_alter in Hj. case_decide; subst.
  - destruct (tasks w !! j) eqn:E; simplify_eq/=. done.
  - apply H. by eapply list_elem_of_lookup_2.
Qed.

Lemma waits_acquire cfg w i t :
  Core cfg w -> Waits cfg w -> tasks w !! i = Some t -> Waits cfg (acquire_section cfg i (t_fp t) w).
Proof.
  intros HC HW Hi. unfold acquire_section.
  assert (no_news w w) by (by apply no_news_same).
  destruct (closing w); [by apply (waits_set_pc _ w)|].
  destruct (List.find _ (entries w)) as [e|] eqn:E1.
  { apply (waits_set_pc _ w); try done. apply no_news_upd; [done|]. intros en. cbn. split; [done|]. split; [done|lia]. }
  destruct (Z.ltb_spec (process_count w) (max_processes cfg)).
  { apply (waits_set_pc _ w); try done. apply no_news_same; try done. unfold process_count. cbn. lia. }
  destruct (List.find (fun e => entry_of w e (fun en => leases en =? 0)) (entries w)) as [e|] eqn:E2; [apply waits_notify|].
  intros t' Ht' Hpc. cbn in Ht'. apply (elem_of_alter_task _ _ _ _ _ Hi) in Ht' as [->|Ht'].
  - split; cbn; [done|]. intros e en He Hen.
    pose proof (List.find_none _ _ E1 e) as F1. pose proof (List.find_none _ _ E2 e) as F2.
    rewrite <- list_elem_of_In in F1, F2. specialize (F1 He). specialize (F2 He). unfold entry_of in F1, F2.
    rewrite Hen in F1, F2. destruct (c_entry _ _ HC e He) as (en' & Hen' & _ & Hl). simplify_eq.
    pose proof (tsum_nonneg (holds e) (tasks w) (holds_nonneg e)). apply Z.eqb_neq in F2. split; [lia|].
    intros Hfp. rewrite Hfp, String.eqb_refl in F1. by destruct (retiring en).
  - destruct (HW t' Ht' Hpc). by split.
Qed.

Lemma waits_close_wait cfg w i t :
  Waits cfg w -> tasks w !! i = Some t -> Waits cfg (close_wait i w).
Proof.
  intros HW Hi. unfold close_wait. case_match; [|by apply (waits_set_pc _ w); [done|apply no_news_same|..]].
  apply no_waiter_waits, no_waiter_set_pc; [|done]. cbn. unfold stop_reaper.
  destruct (reaper_task _) as [r|]; cbn; [|apply no_waiter_notify].
  intros t' (j & Hj)%list_elem_of_lookup. rewrite list_lookup_alter in Hj.
  assert (HN : forall t0, tasks (notify_all w) !! j = Some t0 -> t_pc t0 <> PWait false).
  { intros t0 H0. apply no_waiter_notify with w. by eapply list_elem_of_lookup_2. }
  case_decide; subst; [|by apply HN]. destruct (tasks (notify_all w) !! j) as [t0|] eqn:E; cbn in E, Hj; rewrite E in Hj; [|done].
  injection Hj as <-. cbn. specialize (HN t0 eq_refl).
  destruct (t_pc t0) as [| | | | | | | | | | | | | |? []| | | | | | | | |]; first [exact HN|done].
Qed.

Lemma waits_reap cfg now w i p : Waits cfg w -> p <> PWait false ->
  Waits cfg (set_pc i p (fst (reap_expired cfg now w))).
Proof.
  intros HW Hp. unfold reap_expired. cbn. case_bool_decide as E.
  - rewrite E. apply (waits_set_pc _ w); try done. by apply no_news_same.
  - apply no_waiter_waits, no_waiter_set_pc; [apply no_waiter_notify|done].
Qed.

Lemma waits_spawn cfg w t : Waits cfg w -> t_pc t <> PWait false -> Waits cfg (spawn t w).
Proof.
  intros HW Ht. eapply waits_frame; [done|by apply no_news_same|]. cbn. intros t' Ht' Hpc.
  apply elem_of_app in Ht' as [?|Ht'%list_elem_of_singleton]; [done|]. by subst.
Qed.

Lemma waits_start cfg ok w i p : Waits cfg w -> p <> PWait false -> Waits cfg (set_pc i p (fst (start ok w))).
Proof.
  intros HW Hp. unfold start.
  repeat case_match; cbn; try (apply (waits_set_pc _ w); try done; by apply no_news_same).
  eapply (waits_set_pc _ (spawn (mkTask EmptyString PSleep) w)); [by apply waits_spawn| |done..]. by apply no_news_same.
Qed.

Lemma waits_step cfg w o : Core cfg w -> Waits cfg w -> Waits cfg (step cfg w o).
Proof.
  intros HC HW. assert (H0 : no_news w w) by (by apply no_news_same).
  assert (HN : forall i p, p <> PWait false -> Waits cfg (set_pc i p w)) by (intros; by apply (waits_set_pc _ w)).
  destruct o as [fp| | |i ev|e|e]; cbn; try (by apply waits_spawn).
  - destruct (tasks w !! i) as [t|] eqn:Hi; [|done]. destruct ev; [|unfold fail, cancel, unhealthy..];
      [unfold go|..]; destruct (t_pc t) as [acq| | |[]| | |b|[b|]|e|e c|e|e c|e c h|e c cl h|ids k| | | |[]|r ids n|[] n|n|ids|];
      try done; try (by apply HN); try (by apply waits_notify); try (apply (waits_set_pc _ w); try done; by apply no_news_same).
    + destruct (enabled cfg); [|by apply HN]. destruct (start true w) as [w' ok] eqn:E.
      change w' with (fst (w', ok)). rewrite <- E. apply waits_start; [done|]. by case_match.
    + destruct (reap_expired cfg now w) as [w' ids] eqn:E. change w' with (fst (w', ids)). rewrite <- E. by apply waits_reap.
    + by apply waits_acquire.
    + unfold register_context. case_bool_decide; [|by apply HN]. apply (waits_set_pc _ w); try done. by apply no_news_upd.
    + case_match; [|done]. apply HN. by destruct k.
    + destruct (reap_expired cfg now w) as [w' ids] eqn:E. change w' with (fst (w', ids)). rewrite <- E. by apply waits_reap.
    + apply (waits_close_wait _ (set_flags (started w) true (reaper_task w) w) _ t); [|done]. 
      eapply waits_frame; [done|by apply no_news_same|done].
    + by apply (waits_close_wait _ _ _ t).
    + case_match; [|done]. apply (waits_set_pc _ w); try done; by apply no_news_same.
    + apply HN. by case_match.
    + destruct (enabled cfg); [|by apply HN]. destruct (start false w) as [w' ok] eqn:E.
      change w' with (fst (w', ok)). rewrite <- E. apply waits_start; [done|]. by case_match.
  - unfold browser_closed. case_bool_decide; [|done]. eapply waits_frame; [done|by apply no_news_same|done].
  - unfold close_done. case_bool_decide; [|done]. apply waits_notify.
Qed.

(** ** Leases of a pool that is not shut down *)

Definition closer (p : pc) : bool := match p with PClose | PCloseWait _ => true | _ => false end.

Record Calm (w : world) : Prop := mkCalm {
  k_open : closing w = false;
  k_tasks : forall t, t ∈ tasks w -> closer (t_pc t) = false;
  k_held : forall t e, t ∈ tasks w -> held (t_pc t) = Some e -> e ∈ entries w
}.

Lemma calm_tasks w ts : Calm w ->
  (forall t, t ∈ ts -> closer (t_pc t) = false /\ (forall e, held (t_pc t) = Some e -> e ∈ entries w)) ->
  Calm (set_tasks ts w).
Proof.
  intros [] H. split; cbn; [done| |]; [intros t Ht; by apply (H t)|intros t e Ht He; destruct (H t Ht); auto].
Qed.

Lemma calm_notify w : Calm w -> Calm (notify_all w).
Proof.
  intros H. apply calm_tasks; [done|]. intros t (t' & -> & Ht')%list_elem_of_fmap. destruct H as [_ K1 K2].
  specialize (K1 t' Ht'). specialize (fun e => K2 t' e Ht') as K2. cbn. destruct (t_pc t'); done.
Qed.

Lemma calm_set_pc w i p : Calm w -> closer p = false -> (forall e, held p = Some e -> e ∈ entries w) ->
  Calm (set_pc i p w).
Proof.
  intros H Hc Hh. apply calm_tasks; [done|]. intros t Ht. destruct (tasks w !! i) as [t0|] eqn:Hi.
  - destruct H. destruct (elem_of_alter_task _ _ _ _ _ Hi Ht) as [E|Ht']; [by rewrite E|eauto].
  - destruct H. apply list_elem_of_lookup in Ht as [j Hj]. rewrite list_lookup_alter in Hj.
    assert (t ∈ tasks w); [|by eauto]. apply list_elem_of_lookup. exists j.
    case_decide; [subst; by rewrite Hi in Hj|done].
Qed.

(** Fields the invariant does not read. *)
Lemma calm_eq w w' : Calm w -> closing w' = closing w -> tasks w' = tasks w -> entries w' = entries w -> Calm w'.
Proof. intros [] E1 E2 E3. split; rewrite ?E1, ?E2, ?E3; done. Qed.

Lemma calm_detach cfg w e : Core cfg w -> Calm w -> e ∈ entries w ->
  entry_of w e (fun en => leases en =? 0) = true -> Calm (detach e w).
Proof.
  intros HC [] He Hl. destruct (c_entry _ _ HC e He) as (en & Hen & _ & Hs). unfold entry_of in Hl. rewrite Hen in Hl.
  apply Z.eqb_eq in Hl. split; cbn; [done..|]. intros t e' Ht He'. apply list_elem_of_filter. split; [|eauto].
  intros ->. assert (0 < tsum (holds e) (tasks w)); [|lia].
  apply (tsum_pos _ _ t); [apply holds_nonneg|done|]. by rewrite holds_self.
Qed.

Lemma calm_reap cfg now w : Core cfg w -> Calm w -> Calm (fst (reap_expired cfg now w)).
Proof.
  intros HC HK. unfold reap_expired. cbn. set (ids := List.filter _ (entries w)).
  assert (Hin : forall e, e ∈ ids -> e ∈ entries w /\ entry_of w e (fun en => leases en =? 0) = true).
  { intros e. unfold ids. rewrite elem_of_list_filter. intros [He ?]. split; [done|].
    unfold entry_of, expired in *. destruct (heap w !! e); [|done]. by apply andb_true_iff in He as [? _]. }
  assert (Hnd : NoDup ids).
  { assert (Hne : NoDup (entries w)) by (destruct HC; unfold owned in *; rewrite NoDup_app in *; tauto).
    by apply NoDup_list_filter. }
  assert (Calm (foldl (fun w e => detach e w) w ids)).
  { clearbody ids. revert w HC HK Hin. induction ids as [|e ids IH]; intros w HC HK Hin; cbn; [done|].
    apply NoDup_cons in Hnd as [He Hnd]. destruct (Hin e) as [H1 H2]; [by left|].
    apply IH; [done|by apply core_detach|by eapply calm_detach|].
    intros e' He'. destruct (Hin e') as [H3 H4]; [by right|]. assert (e' <> e) by (by intros ->).
    split; [by apply list_elem_of_filter|]. unfold entry_of in *. cbn. by rewrite lookup_alter_ne. }
  case_bool_decide; [done|]. by apply calm_notify.
Qed.

(** A lease ends: nobody else can be using an entry that is closed. *)
Lemma calm_leave cfg w i e p : Core cfg (set_pc i p w) -> Calm w -> held p = None -> closer p = false ->
  idle_retiring w e = true -> Calm (set_pc i p (detach e w)).
Proof.
  intros HC HK Hp Hc [E%bool_decide_eq_true E2]%andb_true_iff.
  apply (calm_detach cfg (set_pc i p w) e); [done| |done|].
  - apply calm_set_pc; [done|done|]. by rewrite Hp.
  - unfold entry_of in *. cbn. destruct (heap w !! e); [|done]. by apply andb_true_iff in E2 as [_ ?].
Qed.

Lemma calm_retire cfg w i t e : Core cfg w -> Calm w -> tasks w !! i = Some t -> held (t_pc t) = Some e -> Calm (retire i e w).
Proof.
  intros HC HK Hi Hh. unfold retire. apply calm_notify.
  pose proof (core_drop _ _ _ _ _ (PClosing [e] ToDone) HC Hi Hh ltac:(by split)) as HD.
  apply (core_upd _ _ (fun en => with_flags true (close_started en) en) e) in HD; [|done].
  destruct (idle_retiring _ e) eqn:E.
  - eapply calm_leave; [exact HD| |done..|exact E]. by apply (calm_eq w).
  - apply calm_set_pc; [by apply (calm_eq w)|done..].
Qed.

Lemma calm_release cfg w i t e c closed healthy now : Core cfg w -> Calm w -> tasks w !! i = Some t ->
  held (t_pc t) = Some e -> Calm (release i e c closed healthy now w).
Proof.
  intros HC HK Hi Hh. unfold release. apply calm_notify.
  set (w1 := if closed || healthy then _ else w).
  assert (Core cfg w1 /\ Calm w1 /\ tasks w1 !! i = Some t) as (H1 & K1 & Hi1).
  { unfold w1. destruct (closed || healthy); [|done]. split; [by apply core_upd|]. split; [by apply (calm_eq w)|done]. }
  clearbody w1. clear HC Hi HK. set (w2 := upd_entry _ e w1).
  assert (H2 : Core cfg (set_pc i (PClosing [e] ToDone) w2)) by (by eapply core_drop).
  assert (K2 : Calm w2) by (by apply (calm_eq w1)).
  clearbody w2. set (w3 := if healthy then w2 else _).
  assert (Core cfg (set_pc i (PClosing [e] ToDone) w3) /\ Calm w3) as [H3 K3].
  { unfold w3. destruct healthy; [done|]. split; [|by apply (calm_eq w2)].
    by apply (core_upd _ _ (fun en => with_flags true (close_started en) en) e) in H2. }
  clearbody w3. destruct (idle_retiring w3 e) eqn:E; [by eapply calm_leave|].
  apply calm_set_pc; [|done..]. case_bool_decide; [|done]. by apply (calm_eq w3).
Qed.

Lemma calm_spawn w t : Calm w -> closer (t_pc t) = false -> held (t_pc t) = None -> Calm (spawn t w).
Proof.
  intros H Hc Hh. apply calm_tasks; [done|]. intros t' [Ht'|Ht'%list_elem_of_singleton]%elem_of_app; [destruct H; eauto|].
  subst. by rewrite Hh.
Qed.

Lemma calm_start ok w : Calm w -> Calm (fst (start ok w)).
Proof.
  intros H. unfold start. repeat case_match; cbn; try done; [|by destruct H].
  by apply (calm_spawn (set_flags true false _ w)); [destruct H|..].
Qed.

Lemma calm_acquire cfg w i t : Core cfg w -> Calm w -> tasks w !! i = Some t ->
  Calm (acquire_section cfg i (t_fp t) w).
Proof.
  intros HC HK Hi. unfold acquire_section. destruct (closing w) eqn:Hcl; [by destruct HK; congruence|].
  destruct (List.find _ (entries w)) as [e|] eqn:E1.
  { apply find_entry in E1 as (He & _). apply calm_set_pc; [by apply (calm_eq w)|done|]. cbn. by intros ? [= <-]. }
  case_match; [by apply calm_set_pc; [apply (calm_eq w)|..]|].
  destruct (List.find (fun e => entry_of w e (fun en => leases en =? 0)) (entries w)) as [e|] eqn:E2;
    [|by apply calm_set_pc].
  apply List.find_some in E2 as [He%list_elem_of_In Hl]. apply calm_notify, calm_set_pc; [|done..].
  by eapply calm_detach.
Qed.

Lemma calm_register w i t b now : Calm w -> tasks w !! i = Some t -> Calm (register i b (t_fp t) now w).
Proof.
  intros HK Hi. unfold register. apply calm_notify. destruct (closing w) eqn:Hcl; [by destruct HK; congruence|].
  apply calm_set_pc; [|done|].
  - destruct HK. split; cbn; [done..|]. intros t' e Ht' He. apply elem_of_app. left. eauto.
  - cbn. intros ? [= <-]. apply elem_of_app. right. by apply list_elem_of_singleton.
Qed.

Lemma calm_step cfg w o : Core cfg w -> Calm w -> o <> OClose -> Calm (step cfg w o).
Proof.
  intros HC HK Ho. destruct o as [fp| | |i ev|e|e]; cbn; try done; try (by apply calm_spawn).
  - destruct (tasks w !! i) as [t|] eqn:Hi; [|done]. pose proof (list_elem_of_lookup_2 _ _ _ Hi) as Hin.
    pose proof (k_tasks _ HK t Hin) as Hnc. pose proof (k_held _ HK t) as Hh.
    assert (HN : forall p, closer p = false -> (held p = None \/ held p = held (t_pc t)) -> Calm (set_pc i p w)).
    { intros p Hp Hp'. apply calm_set_pc; [done|done|]. intros e He. apply Hh; [done|]. destruct Hp'; congruence. }
    destruct ev; [|unfold fail, cancel, unhealthy..]; [unfold go|..];
      destruct (t_pc t) as [acq| | |[]| | |b|[b|]|e|e c|e|e c|e c h|e c cl h|ids k| | | |[]|r ids n|[] n|n|ids|] eqn:Hpc;
      try done; try (apply HN; by auto); try (apply calm_set_pc; [by apply (calm_eq w)|done|cbn; by auto]);
      try (destruct (enabled cfg); [|apply HN; by auto]).
    + destruct (start true w) as [w' ok] eqn:E. pose proof (calm_start true w HK) as HS. rewrite E in HS.
      apply calm_set_pc; [done|..]; by case_match.
    + pose proof (calm_reap cfg now w HC HK) as HR. destruct (reap_expired cfg now w). by apply calm_set_pc.
    + by apply calm_acquire.
    + by apply calm_register.
    + apply calm_notify, calm_set_pc; [by apply (calm_eq w)|done..].
    + unfold register_context. case_bool_decide; [|apply HN; auto].
      apply calm_set_pc; [by apply (calm_eq w)|done|]. cbn. by intros ? [= <-].
    + eapply calm_retire; [done..|]. by rewrite Hpc.
    + eapply calm_release; [done..|]. by rewrite Hpc.
    + case_match; [|done]. apply HN; destruct k; auto.
    + pose proof (calm_reap cfg now w HC HK) as HR. destruct (reap_expired cfg now w). by apply calm_set_pc.
    + case_match; [|done]. apply calm_set_pc; [by apply (calm_eq w)|done..].
    + case_match; apply HN; auto.
    + destruct (start false w) as [w' ok] eqn:E. pose proof (calm_start false w HK) as HS. rewrite E in HS.
      apply calm_set_pc; [done|..]; by case_match.
  - unfold browser_closed. case_bool_decide; [|done]. by apply (calm_eq w).
  - unfold close_done. case_bool_decide; [|done]. apply calm_notify. by apply (calm_eq w).
Qed.

(** ** What one step does to the other tasks *)

(** Another task's program counter changes only by being notified or, for the
    reaper, cancelled. *)
Definition drift (p p' : pc) : Prop :=
  p' = p \/ p' = notify_pc p \/ p' = cancel_reaper p \/ p' = cancel_reaper (notify_pc p).

Definition newborn (p : pc) : bool := match p with PStart _ | PClose | PSleep => true | _ => false end.

(** Except for task [i], tasks drift or are born. *)
Definition others (i : nat) (w w' : world) : Prop :=
  forall j t', tasks w' !! j = Some t' -> j <> i ->
    (exists t, tasks w !! j = Some t /\ drift (t_pc t) (t_pc t')) \/ newborn (t_pc t') = true.

Lemma others_same i w w' : tasks w' = tasks w -> others i w w'.
Proof. intros E j t'. rewrite E. intros H _. left. exists t'. split; [done|]. by left. Qed.

Lemma others_notify i w w' : tasks w' = tasks w -> others i w (notify_all w').
Proof.
  intros E j t'. cbn. rewrite E, list_lookup_fmap. destruct (tasks w !! j) as [t|]; [|done]. intros [= <-] _.
  left. exists t. split; [done|]. right. by left.
Qed.

Lemma others_set_pc i p w w' : others i w w' -> others i w (set_pc i p w').
Proof.
  intros H j t' Hj Hne. cbn in Hj. rewrite list_lookup_alter, decide_False in Hj by done. by apply H.
Qed.

Lemma others_pc i p w w' : tasks w' = tasks w -> others i w (set_pc i p w').
Proof. intros E. by apply others_set_pc, others_same. Qed.

Lemma others_notify_pc i p w w' : tasks w' = tasks w -> others i w (notify_all (set_pc i p w')).
Proof.
  intros E j t' Hj Hne. cbn in Hj. rewrite list_lookup_fmap, list_lookup_alter, decide_False, E in Hj by done.
  destruct (tasks w !! j) as [t|]; [|done]. injection Hj as <-. left. exists t. split; [done|]. right. by left.
Qed.

Lemma others_spawn i w t : newborn (t_pc t) = true -> others i w (spawn t w).
Proof.
  intros Ht j t' Hj _. cbn in Hj. apply lookup_app_Some in Hj as [Hj|[_ Hj]].
  - left. exists t'. split; [done|]. by left.
  - right. apply list_lookup_singleton_Some in Hj as [_ <-]. done.
Qed.

Lemma others_start i ok w : others i w (fst (start ok w)).
Proof.
  unfold start. repeat case_match; cbn; try (by apply others_same).
  by apply (others_spawn i (set_flags true false (Some (length (tasks w))) w) (mkTask EmptyString PSleep)).
Qed.

Lemma others_reap i cfg now w : others i w (fst (reap_expired cfg now w)).
Proof.
  unfold reap_expired. cbn. case_bool_decide; [apply others_same|apply others_notify]; apply foldl_detach_tasks.
Qed.

Lemma others_close_wait i w : others i w (close_wait i w).
Proof.
  unfold close_wait. case_match; [|by apply others_pc]. apply others_set_pc. intros j t' Hj Hne. left.
  cbn in Hj. destruct (reaper_task w) as [r|]; cbn in Hj.
  - rewrite list_lookup_alter in Hj. case_decide; subst; rewrite list_lookup_fmap in Hj;
      destruct (tasks w !! j) as [t|]; try done;
      cbn in Hj; injection Hj as <-; exists t; (split; [done|]); unfold drift; cbn; auto.
  - rewrite list_lookup_fmap in Hj. destruct (tasks w !! j) as [t|]; [|done]. injection Hj as <-. exists t.
    split; [done|]. unfold drift. cbn. auto.
Qed.

Lemma others_go cfg i t now w : others i w (go cfg i t now w).
Proof.
  unfold go. assert (others i w w) by (by apply others_same).
  destruct (t_pc t) as [acq| | |[]| | |b|[b|]|e|e c|e|e c|e c h|e c cl h|ids k| | | |[]|r ids n|[] n|n|ids|]; try done;
    try (by apply others_pc); try (by apply others_notify_pc); try (by apply others_close_wait).
  - destruct (enabled cfg); [|by apply others_pc]. pose proof (others_start i true w). destruct (start true w).
    by apply others_set_pc.
  - pose proof (others_reap i cfg now w). destruct (reap_expired cfg now w). by apply others_set_pc.
  - unfold acquire_section. repeat case_match; try (by apply others_pc); by apply others_notify_pc.
  - unfold register. destruct (closing w); by apply others_notify_pc.
  - unfold register_context. case_match; by apply others_pc.
  - unfold retire. cbn zeta. case_match; by apply others_notify_pc.
  - unfold release. cbn zeta. destruct (idle_retiring _ _); apply others_notify_pc; by repeat case_match.
  - case_match; [by apply others_pc|done].
  - pose proof (others_reap i cfg now w). destruct (reap_expired cfg now w). by apply others_set_pc.
  - apply (others_close_wait i (set_flags (started w) true (reaper_task w) w)).
  - case_match; [by apply others_pc|done].
Qed.

(** The task a step moves, if it moves one. *)
Definition mover (w : world) (o : op) : nat := match o with OTask i _ => i | _ => length (tasks w) end.

Lemma others_step cfg w o : others (mover w o) w (step cfg w o).
Proof.
  assert (HS : forall i, others i w w) by (intros; by apply others_same).
  destruct o as [fp| | |i ev|e|e]; cbn; try (by apply others_spawn).
  - destruct (tasks w !! i) as [t|]; [|done]. destruct ev; [apply others_go|unfold fail, cancel, unhealthy..];
      destruct (t_pc t); try done; try (by apply others_pc).
    destruct (enabled cfg); [|by apply others_pc]. pose proof (others_start i false w). destruct (start false w).
    by apply others_set_pc.
  - unfold browser_closed. case_match; [by apply others_same|done].
  - unfold close_done. case_match; [by apply others_notify|done].
Qed.

(** ** Contexts *)

Definition ctx (p : pc) : option nat :=
  match p with PContextReady _ c | PLeased _ c | PReleasing _ c _ | PRelease _ c _ _ => Some c | _ => None end.

(** No two tasks have the same context. *)
Record Contexts (w : world) : Prop := mkContexts {
  x_fresh : forall t c, t ∈ tasks w -> ctx (t_pc t) = Some c -> (c < next_context w)%nat;
  x_inj : forall i j t t' c, tasks w !! i = Some t -> tasks w !! j = Some t' ->
    ctx (t_pc t) = Some c -> ctx (t_pc t') = Some c -> i = j
}.

Lemma drift_ctx p p' : drift p p' -> ctx p' = ctx p.
Proof.
  assert (HC : forall q, ctx (cancel_reaper q) = ctx q) by (intros q; destruct q; try done; by destruct k).
  assert (HN : forall q, ctx (notify_pc q) = ctx q) by (by intros []).
  intros [->|[->|[->| ->]]]; by rewrite ?HC, ?HN.
Qed.

(** Where the task that moves is afterwards. *)
Lemma moved_pc i p w t' : tasks (set_pc i p w) !! i = Some t' -> t_pc t' = p.
Proof. cbn. rewrite list_lookup_alter, decide_True by done. destruct (tasks w !! i); [|done]. by intros [= <-]. Qed.
Lemma moved_notify i p w t' : tasks (notify_all (set_pc i p w)) !! i = Some t' -> t_pc t' = notify_pc p.
Proof.
  cbn. rewrite list_lookup_fmap, list_lookup_alter, decide_True by done. destruct (tasks w !! i); [|done].
  by intros [= <-].
Qed.

Lemma foldl_detach_next w ids : let w' := foldl (fun w e => detach e w) w ids in
  next_context w' = next_context w /\ next_browser w' = next_browser w /\ opened w' = opened w.
Proof. revert w. induction ids as [|e ids IH]; intros w; cbn; [done|]. exact (IH (detach e w)). Qed.

Lemma reap_next cfg now w : let w' := fst (reap_expired cfg now w) in
  next_context w' = next_context w /\ next_browser w' = next_browser w /\ opened w' = opened w.
Proof. unfold reap_expired. cbn. case_bool_decide; cbn; apply foldl_detach_next. Qed.

Lemma start_next ok w : let w' := fst (start ok w) in
  next_context w' = next_context w /\ next_browser w' = next_browser w /\ opened w' = opened w /\
  closers w' = closers w /\ closing_processes w' = closing_processes w.
Proof. unfold start. cbn. by repeat case_match. Qed.

Lemma close_wait_next i w : let w' := close_wait i w in
  next_context w' = next_context w /\ next_browser w' = next_browser w /\ opened w' = opened w /\ closers w' = closers w.
Proof. unfold close_wait, close_detach, stop_reaper. cbn. destruct (launching w =? 0), (reaper_task w); done. Qed.

(** What the step of a task does to the context it has and to the counters. *)
Definition ctx_step (i : nat) (p : pc) (w w' : world) : Prop :=
  (next_context w <= next_context w')%nat /\
  forall t' c, tasks w' !! i = Some t' -> ctx (t_pc t') = Some c ->
    ctx p = Some c \/ (c = next_context w /\ next_context w' = S c).

Lemma ctx_step_pc i p q w w' : next_context w' = next_context w -> (ctx q = None \/ ctx q = ctx p) ->
  ctx_step i p w (set_pc i q w').
Proof. intros E Hq. split; [cbn; lia|]. intros t' c Ht'. rewrite (moved_pc _ _ _ _ Ht'). intros Hc. left. destruct Hq; congruence. Qed.
Lemma ctx_step_notify i p q w w' : next_context w' = next_context w -> (ctx q = None \/ ctx q = ctx p) ->
  ctx_step i p w (notify_all (set_pc i q w')).
Proof.
  intros E Hq. split; [cbn; lia|]. intros t' c Ht'. rewrite (moved_notify _ _ _ _ Ht').
  assert (ctx (notify_pc q) = ctx q) as -> by (by destruct q). intros Hc. left. destruct Hq; congruence.
Qed.
Lemma ctx_step_refl i t w : tasks w !! i = Some t -> ctx_step i (t_pc t) w w.
Proof. intros Hi. split; [done|]. intros t' c Ht' Hc. left. congruence. Qed.

Lemma go_ctx cfg i t now w : tasks w !! i = Some t -> ctx_step i (t_pc t) w (go cfg i t now w).
Proof.
  intros Hi. pose proof (ctx_step_refl _ _ _ Hi) as HR. unfold go.
  destruct (t_pc t) as [acq| | |[]| | |b|[b|]|e|e c|e|e c|e c h|e c cl h|ids k| | | |[]|r ids n|[] n|n|ids|] eqn:Hpc; try done;
    try (apply ctx_step_pc; by auto); try (apply ctx_step_notify; by auto).
  - destruct (enabled cfg); [|apply ctx_step_pc; by auto]. pose proof (start_next true w) as H. destruct (start true w).
    apply ctx_step_pc; [apply H|left; by case_match].
  - pose proof (reap_next cfg now w) as H. destruct (reap_expired cfg now w). apply ctx_step_pc; [apply H|auto].
  - unfold acquire_section. repeat case_match; try (apply ctx_step_pc; by auto); apply ctx_step_notify; by auto.
  - unfold register. destruct (closing w); apply ctx_step_notify; by auto.
  - split; [cbn; lia|]. intros t' c Ht'. rewrite (moved_pc _ _ _ _ Ht'). intros [= <-]. by right.
  - unfold register_context. case_match; apply ctx_step_pc; by auto.
  - unfold retire. cbn zeta. case_match; apply ctx_step_notify; by auto.
  - unfold release. cbn zeta. destruct (idle_retiring _ _); apply ctx_step_notify; by repeat case_match; auto.
  - case_match; [|done]. apply ctx_step_pc; [done|]. left. by destruct k.
  - pose proof (reap_next cfg now w) as H. destruct (reap_expired cfg now w). apply ctx_step_pc; [apply H|auto].
  - unfold close_wait. cbn. case_match; [|apply ctx_step_pc; by auto]. apply ctx_step_pc; [|by auto].
    cbn. by destruct (reaper_task w).
  - unfold close_wait. case_match; [|apply ctx_step_pc; by auto]. apply ctx_step_pc; [|by auto].
    cbn. by destruct (reaper_task w).
  - case_match; [|done]. apply ctx_step_pc; by auto.
  - apply ctx_step_pc; [done|]. left. by case_match.
Qed.

Lemma contexts_step cfg w o : Contexts w -> Contexts (step cfg w o).
Proof.
  intros [F I].
  assert (HM : (next_context w <= next_context (step cfg w o))%nat /\ forall t' c,
     tasks (step cfg w o) !! mover w o = Some t' -> ctx (t_pc t') = Some c ->
     (exists t, tasks w !! mover w o = Some t /\ ctx (t_pc t) = Some c) \/ (c = next_context w /\ next_context (step cfg w o) = S c)).
  { destruct o as [fp| | |i ev|e|e]; cbn [step mover].
    1-3: split; [done|]; intros t' c; cbn; rewrite lookup_app_r, Nat.sub_diag by done; by intros [= <-].
    - destruct (tasks w !! i) as [t|] eqn:Hi; [|split; [done|]; by rewrite Hi].
      assert (HC : ctx_step i (t_pc t) w (match ev with EGo now => go cfg i t now w | EFail => fail cfg i t w
        | ECancel => cancel i t w | EUnhealthy => unhealthy i t w end)).
      { destruct ev; [by apply go_ctx|unfold fail, cancel, unhealthy..]; pose proof (ctx_step_refl _ _ _ Hi) as HR;
          destruct (t_pc t); try done; try (apply ctx_step_pc; by auto).
        destruct (enabled cfg); [|apply ctx_step_pc; by auto]. pose proof (start_next false w) as H. destruct (start false w).
        apply ctx_step_pc; [apply H|left; by case_match]. }
      destruct HC as [H1 H2]. split; [done|]. intros t' c Ht' Hc. destruct (H2 t' c Ht' Hc); eauto.
    - unfold browser_closed. case_match; cbn; (split; [done|]); intros t' c Ht'; apply lookup_lt_Some in Ht'; lia.
    - unfold close_done. case_match; cbn; (split; [done|]); intros t' c Ht'; apply lookup_lt_Some in Ht';
        rewrite ?length_fmap in Ht'; lia. }
  destruct HM as [HM1 HM2]. pose proof (others_step cfg w o) as HO.
  assert (HA : forall j t' c, tasks (step cfg w o) !! j = Some t' -> ctx (t_pc t') = Some c ->
    (exists t, tasks w !! j = Some t /\ ctx (t_pc t) = Some c) \/ (j = mover w o /\ c = next_context w /\ next_context (step cfg w o) = S c)).
  { intros j t' c Hj Hc. destruct (decide (j = mover w o)) as [->|Hne].
    - destruct (HM2 t' c Hj Hc) as [?|?]; [auto|]. right. tauto.
    - destruct (HO j t' Hj Hne) as [(t & Ht & Hd)|Hn]; [|by destruct (t_pc t')].
      left. exists t. split; [done|]. by rewrite <- (drift_ctx _ _ Hd). }
  split.
  - intros t c (j & Hj)%list_elem_of_lookup Hc. destruct (HA j t c Hj Hc) as [(t0 & H0 & Hc0)|(_ & -> & ->)]; [|lia].
    apply list_elem_of_lookup_2 in H0. specialize (F _ _ H0 Hc0). lia.
  - intros i j t t' c Hi Hj Hc Hc'.
    destruct (HA i t c Hi Hc) as [(t0 & H0 & Hc0)|(Ei & Ec & _)], (HA j t' c Hj Hc') as [(t1 & H1 & Hc1)|(Ej & Ec' & _)].
    + eauto.
    + apply list_elem_of_lookup_2 in H0. specialize (F _ _ H0 Hc0). lia.
    + apply list_elem_of_lookup_2 in H1. specialize (F _ _ H1 Hc1). lia.
    + congruence.
Qed.

(** ** Shutdown *)

(** The browsers launched before [close] took the entries out have smaller
    numbers than the mark its task keeps. *)
Definition mark (p : pc) : option nat :=
  match p with
  | PCloseReaper _ _ n | PClosing _ (ToDrain n) | PDrain _ n | PClosed n => Some n
  | _ => None
  end.

(** A browser that is being closed, or whose closing is to start. *)
Definition going (b : nat) (w : world) : Prop := (b, false) ∈ closers w \/ b ∈ tbind pend (tasks w).

Definition Old (n : nat) (w : world) : Prop := forall b, b ∈ opened w -> (b < n)%nat -> going b w.

Record Marks (w : world) : Prop := mkMarks {
  m_le : forall t n, t ∈ tasks w -> mark (t_pc t) = Some n -> (n <= next_browser w)%nat;
  m_old : forall t n, t ∈ tasks w -> mark (t_pc t) = Some n -> Old n w;
  m_closed : forall t n, t ∈ tasks w -> t_pc t = PClosed n -> forall b, b ∈ opened w -> (n <= b)%nat
}.

Lemma drift_mark p p' : drift p p' -> mark p' = mark p /\ forall n, p' = PClosed n -> p = PClosed n.
Proof.
  assert (HC : forall q, mark (cancel_reaper q) = mark q /\ forall n, cancel_reaper q = PClosed n -> q = PClosed n).
  { intros q; destruct q; try done; by destruct k. }
  assert (HN : forall q, mark (notify_pc q) = mark q /\ forall n, notify_pc q = PClosed n -> q = PClosed n) by (by intros []).
  intros [->|[->|[->| ->]]]; auto.
  split; [by rewrite (proj1 (HC _)), (proj1 (HN _))|]. intros n Hn. by apply HN, HC.
Qed.

(** Browsers appear with new numbers, and the ones on their way out stay so. *)
Record grows (w w' : world) : Prop := mkGrows {
  g_next : (next_browser w <= next_browser w')%nat;
  g_open : forall b, b ∈ opened w' -> b ∈ opened w \/ (next_browser w <= b)%nat;
  g_going : forall b, b ∈ opened w' -> going b w -> going b w'
}.

Lemma grows_pc i t q w w' :
  tasks w !! i = Some t -> tasks w' = tasks w -> pend q = pend (t_pc t) ->
  (next_browser w <= next_browser w')%nat -> (forall b, b ∈ opened w' -> b ∈ opened w \/ (next_browser w <= b)%nat) ->
  (forall c, c ∈ closers w -> c ∈ closers w') -> grows w (set_pc i q w').
Proof.
  intros Hi HT Hp HN HO HC. split; [done..|]. intros b _ [Hb|Hb]; [left; by apply HC|right]. cbn.
  rewrite HT. by rewrite (tbind_alter_same pend _ _ _ _ Hi).
Qed.

Lemma grows_notify w w' : grows w w' -> grows w (notify_all w').
Proof.
  intros [G1 G2 G3]. split; [done..|]. intros b Hb Hg. destruct (G3 b Hb Hg) as [?|H]; [by left|right].
  cbn. by rewrite tbind_map by (by intros []).
Qed.

Lemma foldl_detach_closers w ids c : c ∈ closers w -> c ∈ closers (foldl (fun w e => detach e w) w ids).
Proof.
  revert w. induction ids as [|e ids IH]; intros w Hc; cbn; [done|]. apply IH. cbn. apply elem_of_app. by left.
Qed.

Lemma grows_reap cfg now w i t p :
  tasks w !! i = Some t -> pend p = pend (t_pc t) -> grows w (set_pc i p (fst (reap_expired cfg now w))).
Proof.
  intros Hi Hp. unfold reap_expired. cbn. set (ids := List.filter _ _). clearbody ids.
  destruct (foldl_detach_next w ids) as (_ & E1 & E2). pose proof (foldl_detach_tasks w ids) as E3.
  case_bool_decide.
  - eapply grows_pc; [done..| | |apply foldl_detach_closers]; rewrite ?E1, ?E2; auto.
  - split; cbn; rewrite ?E1, ?E2; auto. intros b _ [Hb|Hb]; [left; by apply foldl_detach_closers|right]. cbn. rewrite E3.
    rewrite (tbind_alter_same pend _ _ (mkTask (t_fp t) (notify_pc (t_pc t)))).
    + by rewrite tbind_map by (by intros []).
    + by rewrite list_lookup_fmap, Hi.
    + cbn. rewrite Hp. by destruct (t_pc t).
Qed.

Lemma grows_start ok w i t p :
  tasks w !! i = Some t -> pend p = pend (t_pc t) -> grows w (set_pc i p (fst (start ok w))).
Proof.
  intros Hi Hp. destruct (start_next ok w) as (_ & E1 & E2 & E3 & _).
  split; cbn; rewrite ?E1, ?E2; auto. intros b _ [Hb|Hb]; [left; cbn; by rewrite E3|right]. cbn.
  rewrite (tbind_alter_same pend _ _ t) by (auto using start_task).
  unfold start. repeat case_match; cbn; try done. rewrite tbind_app. apply elem_of_app. by left.
Qed.

Lemma stop_reaper_pend w : tbind pend (tasks (stop_reaper w)) = tbind pend (tasks w).
Proof.
  unfold stop_reaper. destruct (reaper_task w) as [r|]; cbn; [|done]. generalize (tasks w) as ts. intros ts.
  revert r. induction ts as [|t ts IH]; intros [|r]; cbn; try done; rewrite !tbind_cons.
  - f_equal. apply (n_pend _ _ (neutral_reaper (t_pc t))).
  - f_equal. apply IH.
Qed.

Lemma stop_reaper_frame w : let w' := stop_reaper w in
  heap w' = heap w /\ entries w' = entries w /\ launching w' = launching w /\ closing_processes w' = closing_processes w /\
  closers w' = closers w /\ opened w' = opened w /\ next_browser w' = next_browser w.
Proof. unfold stop_reaper. cbn. by destruct (reaper_task w). Qed.

Lemma close_detach_pend w i t : tasks w !! i = Some t -> pend (t_pc t) = [] ->
  tbind pend (tasks (close_detach i w)) ≡ₚ entries w ++ tbind pend (tasks w).
Proof.
  intros Hi Hp. destruct (stop_reaper_task _ _ _ (notify_task _ _ _ Hi)) as (t' & Hi' & _ & Hd).
  assert (pend (t_pc t') = []) as Hp'.
  { cbn in Hd. rewrite <- Hp. destruct Hd as [-> | ->]; rewrite ?(n_pend _ _ (neutral_reaper _)); apply neutral_notify. }
  unfold close_detach. cbn zeta. pose proof (tbind_alter pend _ _ _ (PCloseReaper (reaper_task w)
    (entries (stop_reaper (notify_all w))) (next_browser (stop_reaper (notify_all w)))) Hi') as HP.
  rewrite Hp' in HP. cbn [app] in HP. etransitivity; [exact HP|]. cbn [pend]. rewrite stop_reaper_pend.
  destruct (stop_reaper_frame (notify_all w)) as (_ & -> & _). cbn. by rewrite tbind_map by (by intros []).
Qed.

Lemma grows_close_wait i t w : tasks w !! i = Some t -> pend (t_pc t) = [] -> grows w (close_wait i w).
Proof.
  intros Hi Hp. destruct (close_wait_next i w) as (_ & E1 & E2 & E3).
  split; rewrite ?E1, ?E2; [done|auto|]. intros b _ [Hb|Hb]; [left; by rewrite E3|right].
  unfold close_wait. case_match.
  - rewrite (close_detach_pend _ _ _ Hi Hp). apply elem_of_app. by right.
  - cbn. by rewrite (tbind_alter_same pend _ _ _ _ Hi).
Qed.

Lemma grows_go cfg w i t now : Core cfg w -> tasks w !! i = Some t -> grows w (go cfg i t now w).
Proof.
  intros HC Hi. assert (HR : grows w w) by (split; auto). unfold go.
  assert (HP : forall q w', pend q = pend (t_pc t) -> tasks w' = tasks w -> next_browser w' = next_browser w ->
    opened w' = opened w -> (forall c, c ∈ closers w -> c ∈ closers w') -> grows w (set_pc i q w')).
  { intros q w' H1 H2 H3 H4 H5. eapply grows_pc; try done; rewrite ?H3, ?H4; auto. }
  destruct (t_pc t) as [acq| | |[]| | |b|[b|]|e|e c|e|e c|e c h|e c cl h|ids k| | | |[]|r ids n|[] n|n|ids|] eqn:Hpc;
    try done; try (by apply HP).
  - destruct (enabled cfg); [|by apply HP]. destruct (start true w) as [w' ok] eqn:E.
    change w' with (fst (w', ok)). rewrite <- E. eapply grows_start; [done|]. rewrite Hpc. by case_match.
  - destruct (reap_expired cfg now w) as [w' ids] eqn:E. change w' with (fst (w', ids)). rewrite <- E.
    eapply grows_reap; [done|by rewrite Hpc].
  - unfold acquire_section. repeat case_match; try (by apply HP). apply grows_notify, HP; try done.
    cbn. intros c Hc. apply elem_of_app. by left.
  - eapply grows_pc; try done; [by rewrite Hpc|cbn; lia|]. cbn. intros b [->%elem_of_singleton|?]%elem_of_union; [right; lia|auto].
  - eapply grows_pc; try done; [by rewrite Hpc|cbn; lia|]. cbn. intros b [->%elem_of_singleton|?]%elem_of_union; [right; lia|auto].
  - unfold register. apply grows_notify. destruct (closing w); apply HP; try done.
    cbn. intros c Hc. apply elem_of_app. by left.
  - eapply grows_pc; try done; [by rewrite Hpc|]. cbn. intros b' [? _]%elem_of_difference. auto.
  - by apply grows_notify, HP.
  - unfold register_context. case_match; by apply HP.
  - unfold retire. apply grows_notify. case_match; apply HP; try done. cbn. intros c Hc. apply elem_of_app. by left.
  - unfold release. apply grows_notify. cbn zeta.
    destruct (idle_retiring _ _); apply HP; try done; destruct cl, h; cbn; try (case_bool_decide; by cbn);
      try (intros ? ?; apply elem_of_app; by left); try done.
  - case_match; [|done]. apply HP; try done. by destruct k.
  - destruct (reap_expired cfg now w) as [w' ids] eqn:E. change w' with (fst (w', ids)). rewrite <- E.
    eapply grows_reap; [done|by rewrite Hpc].
  - assert (grows (set_flags (started w) true (reaper_task w) w) (close_wait i (set_flags (started w) true (reaper_task w) w))) as [];
      [by eapply grows_close_wait; [|rewrite Hpc]|]. by split.
  - eapply grows_close_wait; [done|by rewrite Hpc].
  - case_match; [|done]. split; cbn; [done|auto|]. intros b _ [Hb|Hb].
    + left. cbn. apply elem_of_app. by left.
    + pose proof (tbind_alter pend _ _ _ (PClosing ids (ToDrain n)) Hi) as HB. rewrite Hpc in HB. cbn [app pend] in HB.
      rewrite <- HB in Hb. apply elem_of_app in Hb as [Hb|Hb]; [left|by right].
      cbn. apply elem_of_app. right. apply list_elem_of_fmap. by exists b.
  - apply HP; try done. by case_match.
Qed.

Definition mark_step (i : nat) (t : task) (w w' : world) : Prop :=
  forall t' n, tasks w' !! i = Some t' -> mark (t_pc t') = Some n ->
    (mark (t_pc t) = Some n /\ (t_pc t' = PClosed n -> t_pc t = PClosed n \/ closing_processes w = 0)) \/
    (n = next_browser w /\ Old n w' /\ t_pc t' <> PClosed n).

Lemma mark_step_pc i t q w w' : mark q = None -> mark_step i t w (set_pc i q w').
Proof. intros Hq t' n Ht'. rewrite (moved_pc _ _ _ _ Ht'), Hq. done. Qed.
Lemma mark_step_notify i t q w w' : mark q = None -> mark_step i t w (notify_all (set_pc i q w')).
Proof. intros Hq t' n Ht'. rewrite (moved_notify _ _ _ _ Ht'). assert (mark (notify_pc q) = mark q) as -> by (by destruct q). by rewrite Hq. Qed.
Lemma mark_step_refl i t w : tasks w !! i = Some t -> mark_step i t w w.
Proof. intros Hi t' n Ht'. rewrite Hi in Ht'. simplify_eq. auto. Qed.

Lemma lowns_launching cfg w b : Core cfg w -> b ∈ tbind lowns (tasks w) -> launching w <> 0.
Proof.
  intros HC Hb. rewrite (c_launch _ _ HC). unfold tbind in Hb. apply list_elem_of_bind in Hb as (t & Hb & Ht).
  assert (0 < tsum lau (tasks w)); [|lia]. apply (tsum_pos _ _ t); [apply lau_nonneg|done|].
  destruct (t_pc t) as [| | | | | | |[]| | | | | | | | | | | | | | | |]; cbn in *; set_solver.
Qed.

Lemma mark_close_wait cfg i t w : Core cfg w -> tasks w !! i = Some t -> pend (t_pc t) = [] ->
  mark_step i t w (close_wait i w).
Proof.
  intros HC Hi Hp. unfold close_wait. case_match eqn:El; [|by apply mark_step_pc]. apply Z.eqb_eq in El.
  intros t' n Ht' Hn. right.
  assert (opened (close_detach i w) = opened w /\ closers (close_detach i w) = closers w) as [E2 E3].
  { pose proof (close_wait_next i w) as HN. unfold close_wait in HN. rewrite El in HN. tauto. }
  rewrite (moved_pc _ _ _ _ Ht') in Hn |- *. cbn in Hn.
  destruct (stop_reaper_frame (notify_all w)) as (_ & _ & _ & _ & _ & _ & En). cbn in En, Hn. rewrite En in Hn. simplify_eq.
  split; [done|]. split; [|done]. intros b Hb _. rewrite E2 in Hb. unfold going. rewrite E3.
  rewrite (close_detach_pend _ _ _ Hi Hp), elem_of_app.
  destruct (c_open _ _ HC b Hb) as [?|[?|[?|Hl]]]; auto. by apply (lowns_launching _ _ _ HC) in Hl.
Qed.

Lemma mark_go cfg i t now w : Core cfg w -> tasks w !! i = Some t -> mark_step i t w (go cfg i t now w).
Proof.
  intros HC Hi. pose proof (mark_step_refl _ _ _ Hi) as HR. unfold go.
  destruct (t_pc t) as [acq| | |[]| | |b|[b|]|e|e c|e|e c|e c h|e c cl h|ids k| | | |[]|r ids n|[] n|n|ids|] eqn:Hpc; try done;
    try (by apply mark_step_pc); try (by apply mark_step_notify).
  - destruct (enabled cfg); [|by apply mark_step_pc]. destruct (start true w). apply mark_step_pc. by case_match.
  - unfold acquire_section. repeat case_match; try (by apply mark_step_pc). by apply mark_step_notify.
  - unfold register. destruct (closing w); by apply mark_step_notify.
  - unfold register_context. case_match; by apply mark_step_pc.
  - unfold retire. cbn zeta. case_match; by apply mark_step_notify.
  - unfold release. cbn zeta. destruct (idle_retiring _ _); by apply mark_step_notify.
  - case_match; [|done]. destruct k; try (by apply mark_step_pc). intros t' n' Ht'. rewrite (moved_pc _ _ _ _ Ht'), Hpc. by left.
  - assert (mark_step i t (set_flags (started w) true (reaper_task w) w) (close_wait i (set_flags (started w) true (reaper_task w) w))) as H;
      [|done]. eapply mark_close_wait; [by apply (core_flags cfg)|done|by rewrite Hpc].
  - eapply mark_close_wait; [done..|by rewrite Hpc].
  - case_match; [|done]. intros t' n' Ht'. rewrite (moved_pc _ _ _ _ Ht'), Hpc. by left.
  - intros t' n' Ht'. rewrite (moved_pc _ _ _ _ Ht'), Hpc. intros Hn'. left. case_match eqn:E; cbn in *.
    + apply Z.eqb_eq in E. auto.
    + by split.
Qed.

Lemma going_none cfg w b : Core cfg w -> closing_processes w = 0 -> ~ going b w.
Proof.
  intros HC Hz. rewrite (c_closing _ _ HC) in Hz. unfold going.
  destruct (closers w); [|cbn in Hz; lia]. destruct (tbind pend (tasks w)); [|cbn in Hz; lia].
  intros [H|H]; by apply not_elem_of_nil in H.
Qed.

Lemma marks_frame w w' : Marks w -> grows w w' ->
  (forall j t' n, tasks w' !! j = Some t' -> mark (t_pc t') = Some n ->
    (exists t, t ∈ tasks w /\ mark (t_pc t) = Some n /\
      (t_pc t' = PClosed n -> t_pc t = PClosed n \/ forall b, ~ going b w)) \/
    (n = next_browser w /\ Old n w' /\ t_pc t' <> PClosed n)) -> Marks w'.
Proof.
  intros [M1 M2 M3] [G1 G2 G3] HT. split.
  - intros t' n (j & Hj)%list_elem_of_lookup Hn. destruct (HT j t' n Hj Hn) as [(t & Ht & Hm & _)|(-> & _)]; [|done].
    specialize (M1 t n Ht Hm). lia.
  - intros t' n (j & Hj)%list_elem_of_lookup Hn. destruct (HT j t' n Hj Hn) as [(t & Ht & Hm & _)|(_ & ? & _)]; [|done].
    intros b Hb Hlt. apply G3; [done|]. apply (M2 t n Ht Hm); [|done]. specialize (M1 t n Ht Hm).
    destruct (G2 b Hb); [done|lia].
  - intros t' n (j & Hj)%list_elem_of_lookup Hpc b Hb.
    destruct (HT j t' n Hj) as [(t & Ht & Hm & Hcl)|(_ & _ & ?)]; [by rewrite Hpc| |done].
    pose proof (M1 t n Ht Hm). destruct (G2 b Hb) as [Hb'|]; [|lia]. destruct (Hcl Hpc) as [Hc|Hc]; [by apply (M3 t)|].
    destruct (decide (b < n)%nat) as [Hlt|]; [|lia]. by destruct (Hc b (M2 t n Ht Hm b Hb' Hlt)).
Qed.

Lemma grows_step cfg w o : Core cfg w -> grows w (step cfg w o).
Proof.
  intros HC. assert (HR : grows w w) by (split; auto).
  assert (HS : forall t, grows w (spawn t w)).
  { intros t. split; [done|auto|]. intros b _ [?|?]; [by left|right]. cbn. rewrite tbind_app. apply elem_of_app. by left. }
  destruct o as [fp| | |i ev|e|e]; cbn; try (by apply HS).
  - destruct (tasks w !! i) as [t|] eqn:Hi; [|done]. destruct ev; [by eapply grows_go|unfold fail, cancel, unhealthy..];
      destruct (t_pc t) eqn:Hpc; try done; try (eapply grows_pc; try done; [by rewrite Hpc|auto]).
    destruct (enabled cfg); [|eapply grows_pc; try done; [by rewrite Hpc|auto]].
    destruct (start false w) as [w' ok] eqn:E. change w' with (fst (w', ok)). rewrite <- E.
    eapply grows_start; [done|]. rewrite Hpc. by case_match.
  - unfold browser_closed. case_bool_decide; [|done]. split; cbn; [done| |].
    + intros b [? _]%elem_of_difference. auto.
    + intros b [_ Hne]%elem_of_difference [Hb|Hb]; [left|by right]. cbn. apply list_elem_of_fmap. exists (b, false).
      split; [|done]. cbn. destruct (Nat.eqb_spec b e); [set_solver|done].
  - unfold close_done. case_bool_decide as He; [|done]. apply grows_notify. split; cbn; [done|auto|].
    intros b _ [Hb|Hb]; [left|by right]. cbn. apply list_elem_of_filter. split; [|done]. cbn. intros ->.
    destruct (closers_nodup _ _ HC) as [Hnd _]. by pose proof (nodup_fst_inj _ _ _ _ Hnd He Hb).
Qed.

Lemma marks_step cfg w o : Core cfg w -> Marks w -> Marks (step cfg w o).
Proof.
  intros HC HM. apply (marks_frame w); [done|by apply grows_step|]. intros j t' n Hj Hn.
  destruct (decide (j = mover w o)) as [->|Hne].
  - destruct o as [fp| | |i ev|e|e]; cbn [mover step] in *.
    1-3: cbn in Hj; rewrite lookup_app_r, Nat.sub_diag in Hj by done; injection Hj as <-; done.
    + destruct (tasks w !! i) as [t|] eqn:Hi; [|congruence].
      assert (mark_step i t w (match ev with EGo now => go cfg i t now w | EFail => fail cfg i t w
        | ECancel => cancel i t w | EUnhealthy => unhealthy i t w end)) as HS.
      { destruct ev; [by apply mark_go|unfold fail, cancel, unhealthy..]; pose proof (mark_step_refl _ _ _ Hi) as HR;
          destruct (t_pc t); try done; try (by apply mark_step_pc).
        destruct (enabled cfg); [|by apply mark_step_pc]. destruct (start false w). apply mark_step_pc. by case_match. }
      destruct (HS t' n Hj Hn) as [[H1 H2]|H]; [left|by right]. exists t. split; [by eapply list_elem_of_lookup_2|].
      split; [done|]. intros Hc. destruct (H2 Hc); [by left|right]. intros b. by eapply going_none.
    + unfold browser_closed in Hj. apply lookup_lt_Some in Hj. case_bool_decide; cbn in Hj; lia.
    + unfold close_done in Hj. apply lookup_lt_Some in Hj. case_bool_decide; cbn in Hj; rewrite ?length_fmap in Hj; lia.
  - destruct (others_step cfg w o j t' Hj Hne) as [(t & Ht & Hd)|Hb]; [|by destruct (t_pc t')]. left.
    destruct (drift_mark _ _ Hd) as [Em Ec]. exists t. split; [by eapply list_elem_of_lookup_2|]. rewrite Em in Hn. auto.
Qed.

(** ** The theorems *)

Definition reach (cfg : config) (ops : list op) : world := run_ops (step cfg) pool_init ops.

Lemma reach_core cfg ops : 0 <= max_processes cfg -> Core cfg (reach cfg ops).
Proof. intros H. apply (run_ops_invariant _ (Core cfg)); [by apply core_init|intros; by apply core_step]. Qed.

Lemma config_pos en mx idle age : 0 <= max_processes (BrowserPool_config en mx idle age).
Proof. cbn. lia. Qed.

Lemma lowns_le ts : Z.of_nat (length (tbind lowns ts)) <= tsum lau ts.
Proof.
  induction ts as [|t ts IH]; cbn; [done|]. rewrite tbind_cons, length_app.
  assert (Z.of_nat (length (lowns (t_pc t))) <= lau (t_pc t)); [|lia].
  destruct (t_pc t) as [| | | | | | |[]| | | | | | | | | | | | | | | |]; cbn; lia.
Qed.

Lemma size_list_le (X : gset nat) l : (forall x, x ∈ X -> x ∈ l) -> (size X <= length l)%nat.
Proof.
  intros H. transitivity (size (list_to_set l : gset nat)).
  - apply subseteq_size. intros x Hx. apply elem_of_list_to_set. auto.
  - clear. induction l as [|x l IH]; cbn; [done|].
    rewrite size_union_alt, size_singleton. pose proof (subseteq_size (list_to_set l ∖ {[x]} : gset nat) (list_to_set l) ltac:(set_solver)). lia.
Qed.



(**  As long as nobody shuts the pool down, a lease is never interrupted:
    the browser of a lease is open and in the pool, it is the one of the
    fingerprint that was asked for, its closing has not started, and no other
    lease has the same context. *)
Theorem lease_valid en mx idle age ops i t e c :
  let cfg := BrowserPool_config en mx idle age in
  let w := reach cfg ops in
  OClose ∉ ops -> tasks w !! i = Some t -> t_pc t = PLeased e c ->
  e ∈ entries w /\ e ∈ opened w /\
  (exists entry, heap w !! e = Some entry /\ fingerprint entry = t_fp t /\ close_started entry = false /\ 0 < leases entry) /\
  (forall j t' e', tasks w !! j = Some t' -> t_pc t' = PLeased e' c -> j = i).
Proof.
  cbn zeta. set (cfg := BrowserPool_config _ _ _ _). intros Hops Hi Hpc.
  assert (HC : Core cfg (reach cfg ops)) by (apply reach_core, config_pos).
  assert (HX : Contexts (reach cfg ops)).
  { apply (run_ops_invariant _ Contexts); [|intros; by apply contexts_step]. split; cbn; [|done]. intros t' ? Ht'. by apply not_elem_of_nil in Ht'. }
  assert (HK : Calm (reach cfg ops)).
  { clear Hi HC HX. unfold reach. induction ops as [|o ops IH] using rev_ind.
    - split; cbn; [done|..]; intros t' *; intros Ht'; by apply not_elem_of_nil in Ht'.
    - rewrite run_ops_snoc. rewrite elem_of_app, list_elem_of_singleton in Hops.
      apply (calm_step cfg); [apply reach_core, config_pos|tauto|]. intros ->. tauto. }
  set (w := reach cfg ops) in *. clearbody w. pose proof (list_elem_of_lookup_2 _ _ _ Hi) as Ht.
  assert (He : e ∈ entries w) by (apply (k_held _ HK t); [done|by rewrite Hpc]).
  destruct (c_entry _ _ HC e He) as (entry & Hen & Hcs & Hl).
  destruct (c_held _ _ HC t e Ht) as (entry' & Hen' & Hfp); [by rewrite Hpc|]. simplify_eq.
  split; [done|]. split; [apply (c_entry_open _ _ HC); auto|]. split.
  - exists entry. split; [done|]. split; [done|]. split; [done|]. rewrite Hl.
    apply (tsum_pos _ _ t); [apply holds_nonneg|done|]. by rewrite holds_self by (by rewrite Hpc).
  - intros j t' e' Hj Hpc'. eapply (x_inj _ HX); [exact Hj|exact Hi|by rewrite Hpc'|by rewrite Hpc].
Qed.

(**  When [close] returns, every browser launched before it took the entries
    out of the pool (the number [n] of browsers it recorded then) has been
    closed: only browsers launched afterwards can be open. *)
Theorem close_leaves_no_browser en mx idle age ops t n b :
  let w := reach (BrowserPool_config en mx idle age) ops in
  t ∈ tasks w -> t_pc t = PClosed n -> b ∈ opened w -> (n <= b)%nat.
Proof.
  cbn zeta. set (cfg := BrowserPool_config _ _ _ _). intros Ht Hpc Hb.
  assert (Core cfg (reach cfg ops) /\ Marks (reach cfg ops)) as [_ HM]; [|by apply (m_closed _ HM t)].
  apply (run_ops_invariant _ (fun w => Core cfg w /\ Marks w)).
  - split; [apply core_init, config_pos|]. split; cbn; intros t' *; intros Ht'; by apply not_elem_of_nil in Ht'.
  - intros w o [? ?]. split; [by apply core_step|by apply (marks_step cfg)].
Qed.

(** ** Concrete runs *)

(** Task [i] goes on at second [n]. *)
Definition ev (i : nat) (n : Z) : op := OTask i (EGo (sec n)).

(** One request gets a lease; task 1 is the reaper its [start] creates. *)
Definition one_lease (fp : string) : list op :=
  [OAcquire fp] ++ (ev 0 <$> [1; 2; 3; 4; 5; 6; 7; 8]).

Lemma lease_valid_witness :
  let w := reach (BrowserPool_config true 1 (sec 60) (sec 900)) (one_lease "7") in
  0%nat ∈ entries w /\ 0%nat ∈ opened w /\
  (exists entry, heap w !! 0%nat = Some entry /\ fingerprint entry = "7" /\ close_started entry = false /\ 0 < leases entry) /\
  (forall j t' e', tasks w !! j = Some t' -> t_pc t' = PLeased e' 0 -> j = 0%nat).
Proof.
  apply (lease_valid true 1 (sec 60) (sec 900) (one_lease "7") 0 (mkTask "7" (PLeased 0 0)) 0 0).
  - rewrite list_elem_of_In. cbn. intuition discriminate.
  - by vm_compute.
  - done.
Defined.

(** With one process allowed, a request for another fingerprint waits. *)
Definition one_waits : list op := one_lease "7" ++ [OAcquire "8"] ++ (ev 2 <$> [10; 11; 12; 13]).


(** The pool is shut down, then used again. *)
Definition shut_down : list op := one_lease "7" ++ [OClose; ev 2 9; ev 2 10; OBrowserClosed 0; OCloseDone 0; ev 2 11; ev 2 12].
Definition used_again : list op := shut_down ++ [OAcquire "7"] ++ (ev 3 <$> [13; 14; 15; 16; 17]).

Lemma close_leaves_no_browser_witness :
  1%nat ∈ opened (reach (BrowserPool_config true 1 (sec 60) (sec 900)) used_again) /\ (1 <= 1)%nat.
Proof.
  assert (1%nat ∈ opened (reach (BrowserPool_config true 1 (sec 60) (sec 900)) used_again)) as H.
  { apply elem_of_elements. vm_compute. by left. }
  split; [exact H|].
  apply (close_leaves_no_browser true 1 (sec 60) (sec 900) used_again (mkTask EmptyString (PClosed 1)) 1 1).
  - apply (list_elem_of_lookup_2 _ 2). by vm_compute.
  - done.
  - exact H.
Defined.

(** A [close] cancelled while it waits for the reaper: the entries have left the
    pool and nobody closes them; their capacity is never given back and the pool
    cannot be started again. *)
Example cancelled_close_leaks :
  let w := reach (BrowserPool_config true 1 (sec 60) (sec 900)) (one_lease "7" ++ [OClose; ev 2 9; OTask 2 ECancel]) in
  entries w = [] /\ closers w = [] /\ elements (opened w) = [0%nat] /\ closing_processes w = 1 /\ snd (start true w) = false.
Proof. by vm_compute. Qed.
