(* ===== verification/Valkey.v ===== *)
(** * The Valkey interface

    The server is not part of the repository, so it is a parameter: an
    implementation of [Valkey] is anything with the commands the code sends
    ([GET], [SET] with its expiry option, [DEL]), and [ValkeyLaws] states the
    documented behaviour the code relies on.  A Lua script runs atomically, so
    a script is a function on the database built from these commands; a hash
    field ([HGET], [HSET]) is addressed by the pair of its key and field name.
    Expiry happens at moments the code does not choose: it is an operation of
    its own ([DEL] of any key) in the runs of the components that use the store.

    [gmap_valkey] is the reference implementation the witnesses run on. *)

From S2P Require Import Prelude.

Inductive Ttl := KEEPTTL | EX (seconds : Z).

Class Valkey (K V DB : Type) := {
  vget : K -> DB -> option V;
  vset : K -> V -> Ttl -> DB -> DB;
  vdel : K -> DB -> DB
}.

Class ValkeyLaws (K V DB : Type) `{EqDecision K} `{!Valkey K V DB} : Prop := {
  vget_vset_eq : forall k v t (db : DB), vget k (vset k v t db) = Some v;
  vget_vset_ne : forall k k' v t (db : DB), k <> k' -> vget k' (vset k v t db) = vget k' db;
  vget_vdel_eq : forall k (db : DB), vget k (vdel k db) = None;
  vget_vdel_ne : forall k k' (db : DB), k <> k' -> vget k' (vdel k db) = vget k' db
}.

(** Two databases hold the same visible data. *)
Definition db_equiv {K V DB} `{Valkey K V DB} (d1 d2 : DB) : Prop :=
  forall k, vget k d1 = vget k d2.

(** The reference implementation: a finite map, expiry dates not tracked. *)
#[export] Instance gmap_valkey {K V} `{Countable K} : Valkey K V (gmap K V) := {
  vget := fun k m => m !! k;
  vset := fun k v _ m => <[k := v]> m;
  vdel := fun k m => delete k m
}.

#[export] Instance gmap_valkey_laws {K V} `{Countable K} : ValkeyLaws K V (gmap K V).
Proof.
  split; cbn; intros; first [by rewrite lookup_insert_eq | by rewrite lookup_insert_ne
    | by rewrite lookup_delete_eq | by rewrite lookup_delete_ne].
Qed.

Section Facts.
Context {K V DB : Type} `{EqDecision K} `{!Valkey K V DB} `{!ValkeyLaws K V DB}.

#[export] Instance db_equiv_equivalence : Equivalence (@db_equiv K V DB _).
Proof. split; unfold db_equiv; repeat intro; etrans; eauto. Qed.

#[export] Instance vget_proper k : Proper (db_equiv ==> eq) (vget (DB := DB) k).
Proof. intros d1 d2 H. apply H. Qed.

#[export] Instance vset_proper k v t : Proper (db_equiv ==> db_equiv) (vset (DB := DB) k v t).
Proof.
  intros d1 d2 H k'. destruct (decide (k = k')) as [->|Hne].
  - by rewrite !vget_vset_eq.
  - by rewrite !vget_vset_ne.
Qed.

#[export] Instance vdel_proper k : Proper (db_equiv ==> db_equiv) (vdel (DB := DB) k).
Proof.
  intros d1 d2 H k'. destruct (decide (k = k')) as [->|Hne].
  - by rewrite !vget_vdel_eq.
  - by rewrite !vget_vdel_ne.
Qed.

End Facts.

(** Resolve a [vget] of a [vset] or [vdel]. *)
Ltac vk :=
  repeat first
    [ rewrite vget_vset_eq | rewrite vget_vset_ne by congruence
    | rewrite vget_vdel_eq | rewrite vget_vdel_ne by congruence ].
