(* ===== verification/ScrapeCache.v ===== *)
(** * The scraper's page cache ([src/scraper-svc/scraper/cache.py])

    Pages are cached in Valkey under the digest of their normalised URL.  An entry
    is the decoded document ([Corrupt] if it does not decode); dictionaries are
    updated in place, so [_enrich_cache_entry] and [_merge_cache_metadata] return
    the updated one.  The server's answer to the conditional request, the digest
    and the clock are arguments; timestamps are microseconds.  A function that can
    raise inside the [try] of its caller returns an option.  Float multipliers are
    fractions, for which [int(ttl * m)] truncates the exact product.

    The theorems: every entry is written with a lifetime within the configured
    bounds; the counters of an entry count its fetches and its changes; a lookup
    asks the server only for slow tiers with a validator and then answers with the
    confirmed, the new or the stale page; what is stored is what is read back. *)

From S2P Require Import Prelude Strings Url Json Valkey.

(** ** Content types *)

Definition BINARY_TYPE_PREFIXES : list string := ["image/"; "audio/"; "video/"].
Definition BINARY_TYPE_EXACT : list string :=
  ["application/pdf"; "application/epub+zip"; "application/zip"; "application/gzip"; "application/x-tar";
   "application/x-rar-compressed"; "application/x-7z-compressed"; "application/vnd.android.package-archive";
   "application/vnd.openxmlformats-officedocument"].

(** [s.split(";")[0]]. *)
Definition before (c : ascii) (s : string) : string := fst (fst (partition c s)).

Definition is_binary_content_type (content_type : string) : bool :=
  if is_empty content_type then false
  else
    let ct := strip (before ";" (lower content_type)) in
    mem ct BINARY_TYPE_EXACT || existsb (fun p => starts_with p ct) BINARY_TYPE_PREFIXES.

(** [_derive_filename]; [None] when the URL does not parse. *)
Definition ext_map : list (string * string) :=
  [("application/pdf", ".pdf"); ("application/epub+zip", ".epub"); ("application/zip", ".zip");
   ("application/gzip", ".gz"); ("image/png", ".png"); ("image/jpeg", ".jpg"); ("image/gif", ".gif");
   ("image/webp", ".webp"); ("image/svg+xml", ".svg"); ("text/csv", ".csv"); ("application/json", ".json")].

Definition lookup_ext (ct : string) : string :=
  match List.find (fun e => String.eqb (fst e) ct) ext_map with Some e => snd e | None => "" end.

Definition derive_filename (url content_type : string) : option string :=
  parsed ← urlparse url;
  let path := if negb (is_empty (path parsed)) then path parsed
              else if negb (is_empty (query parsed)) then query parsed else "download" in
  let basename := default "" (last (split "/" (rstrip is_slash path))) in
  if negb (is_empty basename) && contains "." basename then Some basename
  else
    let ext := lookup_ext (strip (before ";" content_type)) in
    Some (if is_empty basename then "download" +:+ ext else basename +:+ ext).

(** [_make_download_payload]. *)
Definition make_download_payload (url : string) (size : Z) (content_type : string) : option (list (string * json)) :=
  filename ← derive_filename url content_type;
  Some [("markdown", JStr ""); ("source", JStr "binary"); ("url", JStr url);
        ("download", JObj [("filename", JStr filename); ("content_type", JStr content_type); ("size", JNum size);
                           ("data_url", JNull)])].

(** ** Lifetimes *)

Record Settings := mkSettings {
  SCRAPE_CACHE_TTL : Z;
  SCRAPE_CACHE_MIN_TTL : Z;
  SCRAPE_CACHE_MAX_TTL : Z;
  STABLE_MULTIPLIER : Z * Z;                 (* numerator, denominator *)
  SCRAPE_CACHE_VOLATILE_CAP : Z;
  domain_ttls : list (string * Z)
}.

(** The loop for the longest matching suffix. *)
Fixpoint longest_match (hostname : string) (ttls : list (string * Z)) (matched : option Z) (matched_len : nat) : option Z :=
  match ttls with
  | [] => matched
  | (pattern, ttl) :: ttls =>
      if (String.eqb hostname pattern || ends_with ("." +:+ pattern) hostname) && Nat.ltb matched_len (slen pattern)
      then longest_match hostname ttls (Some ttl) (slen pattern)
      else longest_match hostname ttls matched matched_len
  end.

(** [_resolve_cache_ttl]. *)
Definition resolve_cache_ttl (cfg : Settings) (url : string) (multiplier : Z * Z) : option Z :=
  hostname ← extract_domain url false;
  let base_ttl := default (SCRAPE_CACHE_TTL cfg) (longest_match hostname (domain_ttls cfg) None 0) in
  let adjusted := Z.quot (base_ttl * fst multiplier) (snd multiplier) in
  Some (Z.max (SCRAPE_CACHE_MIN_TTL cfg) (Z.min adjusted (SCRAPE_CACHE_MAX_TTL cfg))).

(** ** Entries *)

Definition obj := list (string * json).
Definition oget (o : obj) (k : string) (dflt : json) : json := default dflt (assoc k o).

(** [x + 1] on a JSON value; [None] for [TypeError]. *)
Definition jsucc (j : json) : option json :=
  match j with JNum n => Some (JNum (n + 1)) | JBool b => Some (JNum (if b then 2 else 1)) | _ => None end.

(** [_migrate_legacy_cached_entry]. *)
Definition migrate_legacy_cached_entry (cached : obj) : obj :=
  match assoc "source_html_size" cached with
  | Some (JStr size) => match py_int size with
                        | Some n => oset "source_html_size" (JNum n) cached
                        | None => odel "source_html_size" cached
                        end
  | _ => cached
  end.

(** [_merge_cache_metadata]. *)
Definition merge_cache_metadata (now : usec) (fresh_result cached : obj) : option obj :=
  fetch_count ← jsucc (oget cached "fetch_count" (JNum 0));
  Some (oset "change_count" (oget cached "change_count" (JNum 0))
    (oset "last_checked_at" (JNum now)
    (oset "first_fetched_at" (oget cached "first_fetched_at" (JNum now))
    (oset "fetch_count" fetch_count fresh_result)))).

Section Cache.
Context (sha256 : string -> string) (cfg : Settings).

Definition set_if (b : bool) (k : string) (v : json) (o : obj) : obj := if b then oset k v o else o.

(** The tracking fields of [_enrich_cache_entry]; an empty prior entry is none. *)
Definition track (now : usec) (new_hash : string) (prior_entry : option obj) (result : obj) : option obj :=
  match prior_entry with
  | Some ((_ :: _) as prior) =>
      fetch_count ← jsucc (oget prior "fetch_count" (JNum 0));
      let result := oset "first_fetched_at" (oget prior "first_fetched_at" (JNum now)) (oset "fetch_count" fetch_count result) in
      let old_hash := oget prior "content_hash" (JStr "") in
      let changed := truthy old_hash && negb match old_hash with JStr h => String.eqb new_hash h | _ => false end in
      if changed then change_count ← jsucc (oget prior "change_count" (JNum 0)); Some (oset "change_count" change_count result)
      else Some (oset "change_count" (oget prior "change_count" (JNum 0)) result)
  | _ => Some (oset "change_count" (JNum 0) (oset "first_fetched_at" (JNum now) (oset "fetch_count" (JNum 1) result)))
  end.

(** [_enrich_cache_entry]; hashing something that is not text raises. *)
Definition enrich_cache_entry (now : usec) (etag last_modified : json) (prior_entry : option obj) (result : obj) : option obj :=
  let result := set_if (truthy etag) "etag" etag result in
  let result := set_if (truthy last_modified) "last_modified" last_modified result in
  let result := oset "source_tier" (oget result "source" (JStr "")) result in
  match oget result "markdown" (JStr "") with
  | JStr markdown =>
      let new_hash := sha256 markdown in
      track now new_hash prior_entry (oset "last_checked_at" (JNum now) (oset "content_hash" (JStr new_hash) result))
  | _ => None
  end.

(** [_scrape_cache_key]. *)
Definition scrape_cache_key (url : string) : option string :=
  normalized ← cache_key_url url; Some ("scrape_cache:" +:+ sha256 normalized).

(** The multiplier [_set_cache] chooses, and the lifetime. *)
Definition stability (change_count : Z) (prior : bool) : Z * Z :=
  if (change_count =? 0) && prior then STABLE_MULTIPLIER cfg
  else if 3 <=? change_count then (1, 2)
  else (1, 1).

Definition entry_ttl (url : string) (change_count : Z) (prior : bool) : option Z :=
  ttl ← resolve_cache_ttl cfg url (stability change_count prior);
  Some (if 5 <=? change_count then Z.min ttl (SCRAPE_CACHE_VOLATILE_CAP cfg) else ttl).

(** The [SETEX] of [_set_cache], if it reaches it. *)
Definition set_cache_write (now : usec) (url : string) (result : obj) (prior_entry : option obj) : option (string * obj * Z) :=
  if match oget result "source" (JStr "") with JStr s => String.eqb s "adapter" | _ => false end then None
  else
    key ← scrape_cache_key url;
    let etag := oget result "etag" JNull in
    let last_modified := oget result "last_modified" JNull in
    let result := odel "last_modified" (odel "etag" result) in
    enriched ← enrich_cache_entry now etag last_modified prior_entry result;
    change_count ← match oget enriched "change_count" (JNum 0) with
                   | JNum n => Some n
                   | JBool b => Some (if b then 1 else 0)
                   | _ => None
                   end;
    ttl ← entry_ttl url change_count (match prior_entry with Some _ => true | None => false end);
    Some (key, enriched, ttl).

(** ** Revalidation *)

(** The server's answer: status 304, status 200, any other, or an error. *)
Inductive response :=
| NotModified
| Page (content_type text : string) (size : Z) (etag last_modified : option string)
| OtherStatus
| ConnectionError.

Definition quote (etag : string) : string :=
  if starts_with (String (ascii_of_nat 34) EmptyString) etag then etag
  else String (ascii_of_nat 34) etag +:+ String (ascii_of_nat 34) EmptyString.

(** The conditional headers. *)
Definition conditional_headers (etag last_modified : string) : list (string * string) :=
  (if is_empty etag then [] else [("If-None-Match", quote etag)]) ++
  (if is_empty last_modified then [] else [("If-Modified-Since", last_modified)]).

Definition opt_header (k : string) (v : option string) (o : obj) : obj :=
  match v with Some s => if is_empty s then o else oset k (JStr s) o | None => o end.

(** [_conditional_revalidate]. *)
Definition conditional_revalidate (answer : response) (url : string) : bool * option obj :=
  match answer with
  | NotModified => (true, None)
  | Page content_type text size etag last_modified =>
      match (if is_binary_content_type content_type then make_download_payload url size content_type
             else Some [("markdown", JStr text); ("source", JStr "revalidation"); ("url", JStr url)]) with
      | Some result => (false, Some (opt_header "last_modified" last_modified (opt_header "etag" etag result)))
      | None => (false, None)
      end
  | OtherStatus | ConnectionError => (false, None)
  end.

Inductive stored := Decoded (j : json) | Corrupt.

Definition SLOW_TIERS : list string := ["playwright"; "flare-solverr"; "browser-svc"].

(** Whether an entry is revalidated, and with which validators. *)
Definition revalidates (cached : obj) : bool :=
  let source_tier := jor (oget cached "source_tier" JNull) (oget cached "source" (JStr "")) in
  match source_tier with JStr s => mem s SLOW_TIERS | _ => false end &&
  (truthy (oget cached "etag" JNull) || truthy (oget cached "last_modified" JNull)).

Context {DB : Type} `{!Valkey string stored DB}.

(** [_set_cache] with a connected client. *)
Definition set_cache (now : usec) (url : string) (result : obj) (prior_entry : option obj) (db : DB) : DB :=
  match set_cache_write now url result prior_entry with
  | Some (key, enriched, ttl) => vset key (Decoded (JObj enriched)) (EX ttl) db
  | None => db
  end.

(** The validators as headers: an [etag] that is not text raises before the request,
    a [last_modified] that is not makes the request fail. *)
Definition text (j : json) : option string := match j with JStr s => Some s | _ => if truthy j then None else Some "" end.

Definition ask (answer : list (string * string) -> response) (cached : obj) : option response :=
  etag ← text (oget cached "etag" JNull);
  Some match text (oget cached "last_modified" JNull) with
       | Some last_modified => answer (conditional_headers etag last_modified)
       | None => ConnectionError
       end.

(** What [_check_cache] does with an entry: the answer, and what it writes back. *)
Definition resolve_entry (now : usec) (answer : list (string * string) -> response) (url : string) (cached : obj)
  : option (obj * option (obj * Z)) :=
  if revalidates cached then
    response ← ask answer cached;
    match conditional_revalidate response url with
    | (true, _) =>
        new_ttl ← resolve_cache_ttl cfg url (1, 1);
        let cached := oset "last_checked_at" (JNum now) cached in
        Some (cached, Some (cached, new_ttl))
    | (false, Some result) =>
        result ← merge_cache_metadata now result cached;
        ttl ← resolve_cache_ttl cfg url (1, 1);
        Some (result, Some (result, ttl))
    | (false, None) => Some (cached, None)
    end
  else Some (cached, None).

(** [_check_cache] with a connected client. *)
Definition check_cache (now : usec) (answer : list (string * string) -> response) (url : string) (db : DB) : DB * option obj :=
  match scrape_cache_key url with
  | None => (db, None)
  | Some key =>
      match vget key db with
      | Some (Decoded (JObj cached)) =>
          match resolve_entry now answer url (migrate_legacy_cached_entry cached) with
          | Some (result, Some (payload, ttl)) => (vset key (Decoded (JObj payload)) (EX ttl) db, Some result)
          | Some (result, None) => (db, Some result)
          | None => (db, None)
          end
      | _ => (db, None)
      end
  end.

End Cache.

(** ** Fields *)

Ltac jk := repeat first
  [ rewrite assoc_oset_eq | rewrite assoc_odel_eq
  | rewrite assoc_oset_ne by (intros ?; discriminate)
  | rewrite assoc_odel_ne by (intros ?; discriminate) ].
Ltac jk_in H := repeat first
  [ rewrite assoc_oset_eq in H | rewrite assoc_odel_eq in H
  | rewrite assoc_oset_ne in H by (intros ?; discriminate)
  | rewrite assoc_odel_ne in H by (intros ?; discriminate) ].

Lemma assoc_set_if b k k' v o : k' <> k -> assoc k' (set_if b k v o) = assoc k' o.
Proof. intros H. destruct b; cbn; [by apply assoc_oset_ne|done]. Qed.

Section Facts.
Context (sha256 : string -> string) (cfg : Settings).

Lemma resolve_bounds url mul t : resolve_cache_ttl cfg url mul = Some t ->
  SCRAPE_CACHE_MIN_TTL cfg <= t <= Z.max (SCRAPE_CACHE_MIN_TTL cfg) (SCRAPE_CACHE_MAX_TTL cfg).
Proof. unfold resolve_cache_ttl. destruct (extract_domain url false); cbn; [|done]. intros [= <-]. lia. Qed.

(** *** What an enriched entry holds *)

(** The text a result is hashed by. *)
Definition page_text (r : obj) : option string :=
  match oget r "markdown" (JStr "") with JStr m => Some m | _ => None end.

Definition changed_from (h : string) (prior : obj) : bool :=
  match oget prior "content_hash" (JStr "") with
  | JStr h' => negb (is_empty h') && negb (String.eqb h h')
  | j => truthy j
  end.

Lemma track_spec now h prior r e : track now h prior r = Some e ->
  (forall k, k <> "fetch_count" -> k <> "first_fetched_at" -> k <> "change_count" -> assoc k e = assoc k r) /\
  match prior with
  | Some ((_ :: _) as p) =>
      (exists f, jsucc (oget p "fetch_count" (JNum 0)) = Some f /\ assoc "fetch_count" e = Some f) /\
      assoc "first_fetched_at" e = Some (oget p "first_fetched_at" (JNum now)) /\
      (exists c, (if changed_from h p then jsucc (oget p "change_count" (JNum 0)) else Some (oget p "change_count" (JNum 0))) = Some c /\
                 assoc "change_count" e = Some c)
  | _ => assoc "fetch_count" e = Some (JNum 1) /\ assoc "first_fetched_at" e = Some (JNum now) /\
         assoc "change_count" e = Some (JNum 0)
  end.
Proof.
  unfold track. destruct prior as [[|x p]|]; cbn -[assoc oset].
  1,3: intros [= <-]; split; [intros k H1 H2 H3; by rewrite !assoc_oset_ne by done|by jk].
  set (P := x :: p). destruct (jsucc (oget P "fetch_count" (JNum 0))) as [f|]; cbn -[assoc oset]; [|done].
  assert (HC : truthy (oget P "content_hash" (JStr "")) &&
               negb match oget P "content_hash" (JStr "") with JStr h' => String.eqb h h' | _ => false end = changed_from h P).
  { unfold changed_from. destruct (oget P "content_hash" (JStr "")) as [| | |[]| |]; cbn -[String.eqb]; try done; by rewrite andb_true_r. }
  rewrite HC. destruct (changed_from h P).
  - destruct (jsucc (oget P "change_count" (JNum 0))) as [c|]; cbn -[assoc oset]; [|done]. intros [= <-]. jk.
    split; [intros k H1 H2 H3; by rewrite !assoc_oset_ne by done|eauto 10].
  - intros [= <-]. jk. split; [intros k H1 H2 H3; by rewrite !assoc_oset_ne by done|eauto 10].
Qed.

Lemma enrich_spec now etag lm prior r e : enrich_cache_entry sha256 now etag lm prior r = Some e ->
  exists m, page_text r = Some m /\ assoc "content_hash" e = Some (JStr (sha256 m)) /\
  assoc "source_tier" e = Some (oget r "source" (JStr "")) /\
  (forall k, mem k ["etag"; "last_modified"; "source_tier"; "content_hash"; "last_checked_at"; "fetch_count"; "first_fetched_at"; "change_count"] = false ->
             assoc k e = assoc k r) /\
  exists r', track now (sha256 m) prior r' = Some e.
Proof.
  unfold enrich_cache_entry, page_text.
  set (r1 := oset "source_tier" _ _).
  assert (H1 : forall k, k <> "etag" -> k <> "last_modified" -> k <> "source_tier" -> assoc k r1 = assoc k r).
  { intros k A B C. unfold r1. rewrite assoc_oset_ne by done. by rewrite !assoc_set_if by done. }
  assert (Hm : oget r1 "markdown" (JStr "") = oget r "markdown" (JStr "")) by (unfold oget; by rewrite H1).
  rewrite Hm. destruct (oget r "markdown" (JStr "")) as [| | |m| |]; try done. intros HT. exists m.
  destruct (track_spec _ _ _ _ _ HT) as [T1 _]. split_and!; [done|..].
  - rewrite T1 by done. by jk.
  - rewrite T1 by done. jk. unfold r1. jk. unfold oget. by rewrite !assoc_set_if by done.
  - intros k Hk. unfold mem in Hk. cbn [existsb] in Hk.
    repeat (apply orb_false_iff in Hk as [?%String.eqb_neq Hk]). rewrite T1 by done.
    rewrite !assoc_oset_ne by done. by apply H1.
  - eauto.
Qed.

Definition as_count (j : json) : option Z :=
  match j with JNum n => Some n | JBool b => Some (if b then 1 else 0) | _ => None end.

Lemma write_spec now url r prior key e ttl : set_cache_write sha256 cfg now url r prior = Some (key, e, ttl) ->
  scrape_cache_key sha256 url = Some key /\
  enrich_cache_entry sha256 now (oget r "etag" JNull) (oget r "last_modified" JNull) prior (odel "last_modified" (odel "etag" r)) = Some e /\
  exists c, as_count (oget e "change_count" (JNum 0)) = Some c /\ entry_ttl cfg url c (match prior with Some _ => true | None => false end) = Some ttl.
Proof.
  unfold set_cache_write, as_count. destruct (match oget r "source" _ with JStr s => _ | _ => _ end); [done|].
  destruct (scrape_cache_key sha256 url) as [k|]; cbn -[enrich_cache_entry entry_ttl odel]; [|done].
  destruct (enrich_cache_entry _ _ _ _ _ _) as [e'|]; cbn -[entry_ttl]; [|done].
  destruct (match oget e' "change_count" _ with JNum n => _ | JBool b => _ | _ => _ end) as [c|] eqn:Ec; cbn -[entry_ttl]; [|done].
  destruct (entry_ttl cfg url c _) as [t|] eqn:Et; cbn; [|done]. intros [= <- <- <-]. eauto 10.
Qed.

Lemma entry_ttl_bounds url c b t : entry_ttl cfg url c b = Some t ->
  t <= Z.max (SCRAPE_CACHE_MIN_TTL cfg) (SCRAPE_CACHE_MAX_TTL cfg) /\
  (c < 5 -> SCRAPE_CACHE_MIN_TTL cfg <= t) /\
  (5 <= c -> Z.min (SCRAPE_CACHE_MIN_TTL cfg) (SCRAPE_CACHE_VOLATILE_CAP cfg) <= t <= SCRAPE_CACHE_VOLATILE_CAP cfg).
Proof.
  unfold entry_ttl. destruct (resolve_cache_ttl cfg url (stability cfg c b)) as [t'|] eqn:E; cbn; [|done].
  intros [= <-]. apply resolve_bounds in E. destruct (Z.leb_spec 5 c); lia.
Qed.

(** *** Successive fetches of a page *)

Fixpoint generations (url : string) (prior : option obj) (l : list (usec * obj)) : option obj :=
  match l with
  | [] => prior
  | (now, r) :: l => match set_cache_write sha256 cfg now url r prior with
                     | Some (_, e, _) => generations url (Some e) l
                     | None => None
                     end
  end.

Definition cacheable (r : obj) : bool :=
  match oget r "source" (JStr "") with JStr s => negb (String.eqb s "adapter") | _ => true end &&
  match page_text r with Some _ => true | None => false end.

Fixpoint changes (l : list string) : Z :=
  match l with
  | h :: ((h' :: _) as l) => (if String.eqb h h' then 0 else 1) + changes l
  | _ => 0
  end.

Definition digest (r : obj) : string := match page_text r with Some m => sha256 m | None => "" end.

(** An entry after [n] fetches, the first at [t0], with [c] changes, the last one of digest [h]. *)
Definition tracked (e : obj) (n : Z) (t0 : usec) (c : Z) (h : string) : Prop :=
  assoc "fetch_count" e = Some (JNum n) /\ assoc "first_fetched_at" e = Some (JNum t0) /\
  assoc "change_count" e = Some (JNum c) /\ assoc "content_hash" e = Some (JStr h).

Lemma oget_some o k v d : assoc k o = Some v -> oget o k d = v.
Proof. unfold oget. by intros ->. Qed.

Lemma page_text_odel k r : k <> "markdown" -> page_text (odel k r) = page_text r.
Proof. intros H. unfold page_text, oget. by rewrite assoc_odel_ne by congruence. Qed.

(** A cacheable result of a URL that parses is written. *)
Lemma write_some now url r prior : is_Some (urlparse url) -> cacheable r = true ->
  match prior with
  | None => True
  | Some p => exists n t c h, tracked p n t c h
  end -> exists key e ttl, set_cache_write sha256 cfg now url r prior = Some (key, e, ttl).
Proof.
  intros [u Hu] HC HP. apply andb_true_iff in HC as [C1 C2].
  unfold set_cache_write. destruct (match oget r "source" _ with JStr s => String.eqb s "adapter" | _ => false end) eqn:E1.
  { destruct (oget r "source" (JStr "")); try done. by rewrite E1 in C1. }
  unfold scrape_cache_key, cache_key_url. rewrite Hu. cbn -[enrich_cache_entry entry_ttl odel].
  assert (HE : exists e, enrich_cache_entry sha256 now (oget r "etag" JNull) (oget r "last_modified" JNull) prior
                 (odel "last_modified" (odel "etag" r)) = Some e).
  { unfold enrich_cache_entry.
    assert (Hm : forall x y r', oget (oset "source_tier" x (set_if y "last_modified" (oget r "last_modified" JNull) r')) "markdown" (JStr "")
                 = oget r' "markdown" (JStr "")).
    { intros. unfold oget. rewrite assoc_oset_ne by done. by rewrite assoc_set_if by done. }
    rewrite Hm. unfold oget at 1. rewrite assoc_set_if by done. jk.
    unfold page_text, oget in C2. destruct (default (JStr "") (assoc "markdown" r)) as [| | |m| |]; try done.
    unfold track. destruct prior as [[|x p]|]; [eauto| |eauto].
    destruct HP as (n & t & c & h & T1 & T2 & T3 & T4). rewrite !(oget_some _ _ _ _ T1), !(oget_some _ _ _ _ T3). cbn -[oset].
    destruct (_ && _); eauto. }
  destruct HE as [e HE]. rewrite HE. cbn -[entry_ttl].
  assert (HK : exists c, as_count (oget e "change_count" (JNum 0)) = Some c).
  { destruct (enrich_spec _ _ _ _ _ _ HE) as (m & _ & _ & _ & _ & r' & HT).
    destruct (track_spec _ _ _ _ _ HT) as [_ HT']. destruct prior as [[|x p]|].
    1,3: destruct HT' as (_ & _ & T); rewrite (oget_some _ _ _ _ T); by eexists.
    destruct HP as (n & t & c & h & T1 & T2 & T3 & T4). destruct HT' as (_ & _ & c' & Hc & T).
    rewrite (oget_some _ _ _ _ T3) in Hc. rewrite (oget_some _ _ _ _ T). destruct (changed_from _ _); injection Hc as <-; by eexists. }
  destruct HK as [c HK]. unfold as_count in HK. rewrite HK. cbn -[entry_ttl].
  unfold entry_ttl, resolve_cache_ttl, extract_domain. rewrite Hu.
  destruct (is_empty (hostname u)); cbn; by eexists _, _, _.
Qed.

(** One more fetch. *)
Lemma write_tracks now url r prior key e ttl : set_cache_write sha256 cfg now url r prior = Some (key, e, ttl) ->
  cacheable r = true ->
  match prior with
  | None => tracked e 1 now 0 (digest r)
  | Some p => forall n t c h, h <> "" -> tracked p n t c h ->
              tracked e (n + 1) t (c + if String.eqb h (digest r) then 0 else 1) (digest r)
  end.
Proof.
  intros HW HC. apply write_spec in HW as (_ & HE & _). destruct (enrich_spec _ _ _ _ _ _ HE) as (m & Hm & Hh & _ & _ & r' & HT).
  rewrite !page_text_odel in Hm by done. unfold digest. rewrite Hm. destruct (track_spec _ _ _ _ _ HT) as [_ HT'].
  destruct prior as [p|]; [|destruct HT' as (T1 & T2 & T3); done].
  intros n t c h Hne (P1 & P2 & P3 & P4). destruct p as [|x p]; [discriminate P1|]. cbn [tracked].
  destruct HT' as ((f & Hf & T1) & T2 & c' & Hc & T3). rewrite (oget_some _ _ _ _ P1) in Hf. rewrite (oget_some _ _ _ _ P2) in T2.
  rewrite (oget_some _ _ _ _ P3) in Hc. injection Hf as <-. unfold changed_from in Hc. rewrite (oget_some _ _ _ _ P4) in Hc.
  rewrite (String.eqb_sym h). destruct h as [|a h]; [done|]. cbn [is_empty negb andb] in Hc.
  split_and!; [done|done| |done]. rewrite T3. destruct (String.eqb _ _); injection Hc as <-; [by rewrite Z.add_0_r|done].
Qed.

Lemma generations_tracked url l : (forall s, sha256 s <> "") -> is_Some (urlparse url) -> Forall (fun x => cacheable (snd x) = true) l ->
  forall p n t c h, h <> "" -> tracked p n t c h ->
  exists e, generations url (Some p) l = Some e /\
    tracked e (n + Z.of_nat (length l)) t (c + changes (h :: (digest ∘ snd <$> l))) (default h (last (digest ∘ snd <$> l))).
Proof.
  intros Hne Hu. induction l as [|[now r] l IH]; intros HF p n t c h Hh HT.
  { exists p. cbn. by rewrite !Z.add_0_r. }
  apply Forall_cons in HF as [HC HF]. cbn [snd] in HC.
  destruct (write_some now url r (Some p) Hu HC ltac:(cbn; eauto 10)) as (key & e & ttl & HW).
  pose proof (write_tracks _ _ _ _ _ _ _ HW HC _ _ _ _ Hh HT) as HT'.
  assert (Hd : digest r <> "").
  { unfold digest. apply andb_true_iff in HC as [_ HC]. destruct (page_text r); [apply Hne|done]. }
  destruct (IH HF e _ _ _ _ Hd HT') as (e' & HG & HT2). exists e'. cbn [generations]. rewrite HW. split; [done|].
  revert HT2. cbn -[changes]. unfold tracked. intros (A & B & C & D). split_and!; [|done|..].
  - rewrite A. do 2 f_equal. lia.
  - rewrite C. do 2 f_equal. cbn [changes]. lia.
  - rewrite D. rewrite last_cons. by destruct (last _).
Qed.

End Facts.

(** ** Lookups *)

Section Lookup.
Context (sha256 : string -> string) (cfg : Settings).
Context {DB : Type} `{!Valkey string stored DB} `{!ValkeyLaws string stored DB}.

(** The fields a reader of a page sees. *)
Definition same_page (a b : obj) : Prop :=
  forall k, k <> "last_checked_at" -> assoc k a = assoc k b.

Lemma page_result ct t n etag lm url fresh r : conditional_revalidate (Page ct t n etag lm) url = (fresh, r) ->
  fresh = false /\ forall res, r = Some res ->
  assoc "markdown" res = Some (JStr (if is_binary_content_type ct then "" else t)) /\
  assoc "source" res = Some (JStr (if is_binary_content_type ct then "binary" else "revalidation")).
Proof.
  assert (HO : forall res k, k <> "etag" -> k <> "last_modified" ->
                assoc k (opt_header "last_modified" lm (opt_header "etag" etag res)) = assoc k res).
  { intros res k H1 H2. unfold opt_header. destruct lm as [s|], etag as [s'|]; try destruct (is_empty s); try destruct (is_empty s');
      rewrite ?assoc_oset_ne by done; done. }
  cbn -[assoc]. destruct (is_binary_content_type ct).
  - unfold make_download_payload. destruct (derive_filename url ct) as [f|]; cbn -[assoc opt_header]; intros [= <- <-]; split; try done.
    intros res [= <-]. by rewrite !HO.
  - cbn -[assoc opt_header]. intros [= <- <-]. split; [done|]. intros res [= <-]. by rewrite !HO.
Qed.

Lemma merge_keeps now f c r k : merge_cache_metadata now f c = Some r ->
  mem k ["fetch_count"; "first_fetched_at"; "last_checked_at"; "change_count"] = false -> assoc k r = assoc k f.
Proof.
  unfold merge_cache_metadata. destruct (jsucc _); cbn -[assoc oset mem]; [|done]. intros [= <-] Hk.
  unfold mem in Hk. cbn [existsb] in Hk. repeat (apply orb_false_iff in Hk as [?%String.eqb_neq Hk]).
  by rewrite !assoc_oset_ne by done.
Qed.

Lemma resolve_spec now answer url cached r w : resolve_entry cfg now answer url cached = Some (r, w) ->
  (w = None /\ r = cached) \/
  (exists ttl, w = Some (r, ttl) /\ SCRAPE_CACHE_MIN_TTL cfg <= ttl <= Z.max (SCRAPE_CACHE_MIN_TTL cfg) (SCRAPE_CACHE_MAX_TTL cfg) /\
   revalidates cached = true /\ exists etag lm,
     text (oget cached "etag" JNull) = Some etag /\ text (oget cached "last_modified" JNull) = Some lm /\
     ((answer (conditional_headers etag lm) = NotModified /\ same_page r cached) \/
      exists ct t n e l, answer (conditional_headers etag lm) = Page ct t n e l /\
        assoc "markdown" r = Some (JStr (if is_binary_content_type ct then "" else t)))).
Proof.
  unfold resolve_entry. destruct (revalidates cached) eqn:Er; [|intros [= <- <-]; by left].
  unfold ask. destruct (text (oget cached "etag" JNull)) as [etag|] eqn:Ee; cbn -[conditional_revalidate merge_cache_metadata]; [|done].
  destruct (text (oget cached "last_modified" JNull)) as [lm|] eqn:El; cbn -[conditional_revalidate merge_cache_metadata]; [|intros [= <- <-]; by left].
  destruct (answer (conditional_headers etag lm)) as [|ct t n e l| |] eqn:Ea.
  - cbn -[oset]. destruct (resolve_cache_ttl cfg url (1, 1)) as [ttl|] eqn:Et; cbn -[oset]; [|done]. intros [= <- <-]. right.
    exists ttl. split; [done|]. split; [by eapply resolve_bounds|]. split; [done|]. exists etag, lm. split; [done|]. split; [done|].
    left. split; [done|]. intros k Hk. by apply assoc_oset_ne.
  - destruct (conditional_revalidate (Page ct t n e l) url) as [fresh res] eqn:Ec. destruct (page_result _ _ _ _ _ _ _ _ Ec) as [-> HP].
    destruct res as [res|]; [|intros [= <- <-]; by left]. destruct (merge_cache_metadata now res cached) as [m|] eqn:Em; cbn; [|done].
    destruct (resolve_cache_ttl cfg url (1, 1)) as [ttl|] eqn:Et; cbn; [|done]. intros [= <- <-]. right. exists ttl.
    split; [done|]. split; [by eapply resolve_bounds|]. split; [done|]. exists etag, lm. split; [done|]. split; [done|]. right.
    exists ct, t, n, e, l. split; [done|]. rewrite (merge_keeps _ _ _ _ _ Em) by done. by apply HP.
  - intros [= <- <-]. by left.
  - intros [= <- <-]. by left.
Qed.

Lemma migrate_text cached k : k <> "source_html_size" -> assoc k (migrate_legacy_cached_entry cached) = assoc k cached.
Proof.
  intros Hk. unfold migrate_legacy_cached_entry. destruct (assoc "source_html_size" cached) as [[| | |s| |]|]; try done.
  destruct (py_int s); [by apply assoc_oset_ne|by apply assoc_odel_ne].
Qed.

End Lookup.

(** ** Theorems *)

(**  Every entry the cache writes lives within the configured bounds: a stored
    page between the minimum and the maximum, at most the volatile cap once it
    changed five times; a revalidated one between the minimum and the maximum. *)
Theorem cache_lifetime_bounded sha256 cfg now url :
  (forall result prior key e ttl, set_cache_write sha256 cfg now url result prior = Some (key, e, ttl) ->
   exists c, as_count (oget e "change_count" (JNum 0)) = Some c /\
     ttl <= Z.max (SCRAPE_CACHE_MIN_TTL cfg) (SCRAPE_CACHE_MAX_TTL cfg) /\
     (c < 5 -> SCRAPE_CACHE_MIN_TTL cfg <= ttl) /\
     (5 <= c -> Z.min (SCRAPE_CACHE_MIN_TTL cfg) (SCRAPE_CACHE_VOLATILE_CAP cfg) <= ttl <= SCRAPE_CACHE_VOLATILE_CAP cfg)) /\
  (forall answer cached r e ttl, resolve_entry cfg now answer url cached = Some (r, Some (e, ttl)) ->
   e = r /\ SCRAPE_CACHE_MIN_TTL cfg <= ttl <= Z.max (SCRAPE_CACHE_MIN_TTL cfg) (SCRAPE_CACHE_MAX_TTL cfg)).
Proof.
  split.
  - intros result prior key e ttl HW. apply write_spec in HW as (_ & _ & c & Hc & Ht). exists c. split; [done|].
    by apply entry_ttl_bounds in Ht.
  - intros answer cached r e ttl HR. apply resolve_spec in HR as [[HW _]|(t & HW & Hb & _)]; [discriminate HW|]. injection HW as -> ->. done.
Qed.

(**  Over the successive fetches of a page, each stored with the entry before it,
    the entry counts exactly: [fetch_count] the fetches, [first_fetched_at] the
    first one's time, [change_count] the fetches whose digest differs from the
    one before, [content_hash] the last digest; none of the stores is dropped. *)
Theorem fetch_history_exact sha256 cfg url t0 r0 l :
  (forall s, sha256 s <> "") -> is_Some (urlparse url) -> Forall (fun x => cacheable (snd x) = true) ((t0, r0) :: l) ->
  exists e, generations sha256 cfg url None ((t0, r0) :: l) = Some e /\
    tracked e (Z.of_nat (S (length l))) t0 (changes (digest sha256 ∘ snd <$> (t0, r0) :: l))
      (digest sha256 (snd (List.last l (t0, r0)))).
Proof.
  intros Hne Hu HF. apply Forall_cons in HF as [HC HF]. cbn [snd] in HC.
  destruct (write_some sha256 cfg t0 url r0 None Hu HC I) as (key & e & ttl & HW).
  pose proof (write_tracks _ _ _ _ _ _ _ _ _ HW HC) as HT.
  assert (Hd : digest sha256 r0 <> "").
  { unfold digest. apply andb_true_iff in HC as [_ HC]. destruct (page_text r0); [apply Hne|done]. }
  destruct (generations_tracked sha256 cfg url l Hne Hu HF e 1 t0 0 _ Hd HT) as (e' & HG & HT'). exists e'.
  cbn [generations]. rewrite HW. split; [done|]. replace (Z.of_nat (S (length l))) with (1 + Z.of_nat (length l)) by lia.
  rewrite Z.add_0_l in HT'. cbn [fmap list_fmap compose snd] in *.
  replace (digest sha256 (snd (List.last l (t0, r0)))) with (default (digest sha256 r0) (last (digest sha256 ∘ snd <$> l))); [done|].
  clear. revert t0 r0. induction l as [|[t r] l IH]; intros t0 r0; [done|].
  change (List.last ((t, r) :: l) (t0, r0)) with (match l with [] => (t, r) | _ => List.last l (t0, r0) end).
  rewrite fmap_cons, last_cons. destruct l as [|x l]; [done|]. rewrite <- IH.
  destruct (last (digest sha256 ∘ snd <$> x :: l)) eqn:E; [done|]. by apply last_None in E.
Qed.

Definition demo_settings : Settings := mkSettings 3600 60 86400 (2, 1) 300 [("org", 7200); ("docs.e.org", 86400)].
Definition demo_page (text : string) : obj := [("markdown", JStr text); ("source", JStr "playwright"); ("etag", JStr "v1")].
Definition demo_digest (s : string) : string := "d" +:+ s.

Lemma fetch_history_exact_witness :
  exists e, generations demo_digest demo_settings "https://docs.e.org/a" None
    [(5, demo_page "x"); (6, demo_page "x"); (9, demo_page "y")] = Some e /\ tracked e 3 5 1 "dy".
Proof.
  exact (fetch_history_exact demo_digest demo_settings "https://docs.e.org/a" 5 (demo_page "x")
    [(6, demo_page "x"); (9, demo_page "y")] ltac:(discriminate) ltac:(vm_compute; eauto) ltac:(repeat constructor)).
Defined.

(**  A lookup serves the page that is stored or the page the server has now: the
    entry as it was stored, or, only when it came from a slow tier and has a
    validator, the entry the server confirmed with 304 or the page it answered
    with.  After a revalidation the store holds what was served, otherwise it is
    unchanged, and no other key ever is. *)
Theorem lookup_serves_stored_or_current {DB} `{!Valkey string stored DB} `{!ValkeyLaws string stored DB}
    sha256 cfg now answer url (db db' : DB) r :
  check_cache sha256 cfg now answer url db = (db', Some r) ->
  exists key cached, scrape_cache_key sha256 url = Some key /\ vget key db = Some (Decoded (JObj cached)) /\
  let c := migrate_legacy_cached_entry cached in
  (forall k, k <> "source_html_size" -> assoc k c = assoc k cached) /\
  (forall key', key' <> key -> vget key' db' = vget key' db) /\
  ((r = c /\ db' = db) \/
   (revalidates c = true /\ vget key db' = Some (Decoded (JObj r)) /\
    exists etag lm, text (oget c "etag" JNull) = Some etag /\ text (oget c "last_modified" JNull) = Some lm /\
     ((answer (conditional_headers etag lm) = NotModified /\ same_page r c) \/
      exists ct t n e l, answer (conditional_headers etag lm) = Page ct t n e l /\
        assoc "markdown" r = Some (JStr (if is_binary_content_type ct then "" else t))))).
Proof.
  unfold check_cache. destruct (scrape_cache_key sha256 url) as [key|]; [|done].
  destruct (vget key db) as [[[| | | | |cached]|]|] eqn:Eg; try done.
  destruct (resolve_entry cfg now answer url (migrate_legacy_cached_entry cached)) as [[r' w]|] eqn:Er; [|done].
  intros HE. exists key, cached. split; [done|]. split; [done|]. split; [intros k; apply migrate_text|].
  apply resolve_spec in Er as [[-> ->]|(ttl & -> & _ & Hv & etag & lm & H1 & H2 & H3)].
  - injection HE as <- <-. split; [done|]. by left.
  - injection HE as <- <-. split; [intros key' Hk; by vk|]. right. split; [done|]. split; [by vk|]. eauto 10.
Qed.

Definition demo_db : gmap string stored :=
  set_cache demo_digest demo_settings 7 "https://e.org/a" (demo_page "old") None ∅.
Definition demo_answer (headers : list (string * string)) : response := Page "text/html" "new" 3 None None.

Lemma lookup_serves_stored_or_current_witness :
  exists r db' key, check_cache demo_digest demo_settings 8 demo_answer "https://e.org/a" demo_db = (db', Some r) /\
    assoc "markdown" r = Some (JStr "new") /\ scrape_cache_key demo_digest "https://e.org/a" = Some key /\
    forall key', key' <> key -> vget key' db' = vget key' demo_db.
Proof.
  assert (Hs : exists r, snd (check_cache demo_digest demo_settings 8 demo_answer "https://e.org/a" demo_db) = Some r /\
                         assoc "markdown" r = Some (JStr "new")) by (eexists; split; vm_compute; reflexivity).
  destruct Hs as (r & Hs & Hm). destruct (check_cache _ _ _ _ _ _) as [db' o] eqn:E. cbn [snd] in Hs. subst o.
  destruct (lookup_serves_stored_or_current _ _ _ _ _ _ _ _ E) as (key & cached & Hk & _ & _ & Hf & _).
  exists r, db', key. done.
Defined.

(**  What is stored is read back: after a page that does not come from a slow
    tier is cached, a lookup under any spelling of its URL returns that entry
    without asking the server, and with a digest that does not collide a lookup
    of another page is not affected. *)
Theorem cached_page_read_back {DB} `{!Valkey string stored DB} `{!ValkeyLaws string stored DB}
    sha256 cfg now now' answer url result prior key e ttl (db : DB) :
  set_cache_write sha256 cfg now url result prior = Some (key, e, ttl) ->
  match oget result "source" (JStr "") with JStr s => mem s SLOW_TIERS | _ => false end = false ->
  match oget result "source_html_size" JNull with JStr _ => false | _ => true end = true ->
  let db' := set_cache sha256 cfg now url result prior db in
  (forall url', cache_key_url url' = cache_key_url url -> check_cache sha256 cfg now' answer url' db' = (db', Some e)) /\
  (forall url' n n', cache_key_url url' = Some n' -> cache_key_url url = Some n -> sha256 n' <> sha256 n ->
     snd (check_cache sha256 cfg now' answer url' db') = snd (check_cache sha256 cfg now' answer url' db)) /\
  assoc "markdown" e = assoc "markdown" result.
Proof.
  intros HW HS HZ db'. pose proof (write_spec _ _ _ _ _ _ _ _ _ HW) as (HK & HE & _).
  destruct (enrich_spec _ _ _ _ _ _ _ HE) as (m & _ & _ & Ht & Hk & _).
  assert (HF : forall k, mem k ["etag"; "last_modified"; "source_tier"; "content_hash"; "last_checked_at"; "fetch_count"; "first_fetched_at"; "change_count"] = false ->
               assoc k e = assoc k result).
  { intros k Hm. rewrite Hk by done. unfold mem in Hm. cbn [existsb] in Hm.
    repeat (apply orb_false_iff in Hm as [?%String.eqb_neq Hm]). by rewrite !assoc_odel_ne by done. }
  assert (HM : migrate_legacy_cached_entry e = e).
  { unfold migrate_legacy_cached_entry. rewrite HF by done. unfold oget in HZ. by destruct (assoc "source_html_size" result) as [[]|]. }
  assert (HR : revalidates e = false).
  { unfold revalidates. rewrite (oget_some _ _ _ _ Ht). unfold oget at 2. rewrite HF by done. unfold oget at 1. jk.
    unfold oget in HS. unfold jor. destruct (truthy _) eqn:Etr.
    - by rewrite HS.
    - by rewrite HS. }
  assert (Hdb : db' = vset key (Decoded (JObj e)) (EX ttl) db) by (unfold db', set_cache; by rewrite HW).
  split_and!.
  - intros url' Hn. unfold check_cache, scrape_cache_key. rewrite Hn. fold (scrape_cache_key sha256 url). rewrite HK, Hdb. vk.
    by rewrite HM; unfold resolve_entry; rewrite HR.
  - intros url' n n' Hn' Hn Hne. unfold check_cache, scrape_cache_key. rewrite Hn'. cbn.
    unfold scrape_cache_key in HK. rewrite Hn in HK. injection HK as <-. rewrite Hdb.
    rewrite vget_vset_ne by (intros [= Hc]; done).
    destruct (vget ("scrape_cache:" +:+ sha256 n') db) as [[[| | | | |c]|]|]; try done.
    by destruct (resolve_entry _ _ _ _ _) as [[r [[p t]|]]|].
  - by apply HF.
Qed.

Lemma cached_page_read_back_witness :
  let result := [("markdown", JStr "hello"); ("source", JStr "llms.txt")] in
  let db := set_cache demo_digest demo_settings 7 "https://e.org/a?y=1&x=2" result None (∅ : gmap string stored) in
  exists e, check_cache demo_digest demo_settings 8 demo_answer "HTTPS://E.org/a/?x=2&y=1" db = (db, Some e) /\
            assoc "markdown" e = Some (JStr "hello").
Proof.
  intros result db. destruct (set_cache_write demo_digest demo_settings 7 "https://e.org/a?y=1&x=2" result None) as [[[key e] ttl]|] eqn:E;
    [|vm_compute in E; discriminate E].
  destruct (cached_page_read_back demo_digest demo_settings 7 8 demo_answer _ _ _ _ _ _ (∅ : gmap string stored) E
    ltac:(reflexivity) ltac:(reflexivity)) as (H1 & _ & H2).
  exists e. split; [apply H1; vm_compute; reflexivity|exact H2].
Defined.

(** ** Cases worth knowing *)

(** The path and the query are folded to lower case, so a page answers for another. *)
Example path_case_collapses :
  scrape_cache_key demo_digest "https://e.org/Doc?id=Ab" = scrape_cache_key demo_digest "https://e.org/doc?id=aB".
Proof. vm_compute. reflexivity. Qed.

(** A page replaced by a revalidation has a source that is never revalidated, whatever
    validators were stored with it. *)
Lemma revalidated_never_again cfg now now' url ct t n etag lm cached r w answer :
  resolve_entry cfg now (fun _ => Page ct t n etag lm) url cached = Some (r, Some w) ->
  resolve_entry cfg now' answer url r = Some (r, None).
Proof.
  intros HR.
  assert (HS : assoc "source_tier" r = None /\ exists s, assoc "source" r = Some (JStr s) /\ mem s SLOW_TIERS = false).
  { revert HR. unfold resolve_entry. destruct (revalidates cached); [|done]. unfold ask.
    destruct (text (oget cached "etag" JNull)); cbn -[conditional_revalidate merge_cache_metadata]; [|done].
    destruct (text (oget cached "last_modified" JNull)); cbn -[conditional_revalidate merge_cache_metadata]; [|done].
    destruct (conditional_revalidate (Page ct t n etag lm) url) as [fresh res] eqn:Ec. pose proof Ec as Ec'.
    apply page_result in Ec as [-> HP]. destruct res as [res|]; [|done].
    destruct (merge_cache_metadata now res cached) as [m|] eqn:Em; cbn; [|done].
    destruct (resolve_cache_ttl cfg url (1, 1)); cbn; [|done]. intros [= <- <-]. destruct (HP _ eq_refl) as [_ Hs].
    rewrite !(merge_keeps _ _ _ _ _ Em) by done. split.
    - revert Ec'. cbn -[assoc opt_header make_download_payload].
      assert (HO : forall o, assoc "source_tier" (opt_header "last_modified" lm (opt_header "etag" etag o)) = assoc "source_tier" o).
      { intros o. unfold opt_header. destruct lm as [a|], etag as [b|]; try destruct (is_empty a); try destruct (is_empty b);
          by rewrite ?assoc_oset_ne by done. }
      destruct (is_binary_content_type ct).
      + unfold make_download_payload. destruct (derive_filename url ct); cbn -[assoc opt_header]; [|done]. intros [= <-]. by rewrite HO.
      + intros [= <-]. by rewrite HO.
    - rewrite Hs. eexists. split; [done|]. by destruct (is_binary_content_type ct). }
  destruct HS as (H1 & s & H2 & H3). unfold resolve_entry, revalidates, oget. rewrite H1, H2. cbn -[mem].
  by rewrite H3.
Qed.

(** A weak entity tag is quoted again, into a header no server can match. *)
Example weak_etag_quoted_again :
  let q := String (ascii_of_nat 34) EmptyString in
  quote ("W/" +:+ q +:+ "a" +:+ q) = q +:+ "W/" +:+ q +:+ "a" +:+ q +:+ q.
Proof. reflexivity. Qed.

(** Word documents are not recognised as binary: the listed type is a prefix, compared exactly. *)
Example word_document_not_binary :
  is_binary_content_type "application/vnd.openxmlformats-officedocument.wordprocessingml.document" = false.
Proof. vm_compute. reflexivity. Qed.
