(* ===== verification/Fetch.v ===== *)
(** * The scrape pipeline ([src/scraper-svc/scraper/fetch.py], [barrier_recovery.py], parts of [fetch_quality.py])

    [smart_scrape] and what it composes: the destination check, the politeness gate,
    the cache, the HEAD probe, the tiers in order of cost, the quality gate, the
    recovery from barriers and the choice of a best effort.  A scrape is a program
    that asks for what it awaits: the destination policy (HostPolicy.v, Capture.v), the
    adapters, the politeness manager (Politeness.v), the cache (ScrapeCache.v), the
    HEAD request, the tiers, the model.  [run] answers from an environment that may
    depend on everything that happened; an interrupted scrape is a prefix of a run.
    Results are JSON objects, mutated where the code mutates them.  The assessment of
    a text, the classifier of barriers, the metadata parser and the formatting of
    numbers are arguments: the theorems hold for every choice of them.  Scores and
    confidences are integers in millionths.

    The theorems: what is asked, in which order and after which permission; that no
    page flagged as a challenge is ever returned as content or stored, and that what
    is below the threshold is marked; that an interactive barrier never reaches the model. *)

From stdpp Require Import pretty.
From S2P Require Import Prelude Strings Url Json Valkey ScrapeCache.

(** ** What a scrape awaits *)

Inductive tier := LlmsTxt | ContentNegotiation | Playwright | FlareSolverr | BrowserSvc.

Inductive destination := Public | Private (reason : string) | Unavailable.

(** The verdict of the politeness manager; [Proceed] also when it is disabled, and
    after the delay it asked for. *)
Inductive polite := Proceed | Blocked (reason : string) (metadata : json).

Record head := mkHead { h_status : Z; h_type : string; h_length : option string; h_url : string; h_mitigated : string }.

Inductive Req :=
| QPrivate (url : string)
| QAdapter (url : string)
| QPolite (url : string) (ignore_robots_txt : bool) (robots_user_agent : option string) (rate_limit : bool)
| QCache (url : string)
| QHead (url : string)
| QTier (t : tier) (url : string)
| QRecover (url page_content : string)
| QRecord (url : string)
| QStore (url : string) (result : list (string * json)) (prior : option (list (string * json))).

(** [QHead]: [None] is a probe that failed.  [QRecord]: [None] when politeness is disabled.
    [QStore]: the time of the entry, [None] when nothing is written. *)
Definition reply (q : Req) : Type :=
  match q with
  | QPrivate _ => destination
  | QAdapter _ | QCache _ | QTier _ _ | QRecover _ _ => option obj
  | QPolite _ _ _ _ => polite
  | QHead _ => option head
  | QRecord _ => option json
  | QStore _ _ _ => option usec
  end.

Inductive event := Ev (q : Req) (r : reply q).

Inductive prog (A : Type) : Type :=
| Ret (a : A)
| ValueError
| Ask (q : Req) (k : reply q -> prog A).
Arguments Ret {A} _.
Arguments ValueError {A}.
Arguments Ask {A} _ _.

Fixpoint bind {A B : Type} (p : prog A) (f : A -> prog B) : prog B :=
  match p with
  | Ret a => f a
  | ValueError => ValueError
  | Ask q k => Ask q (fun r => bind (k r) f)
  end.

Definition ask (q : Req) : prog (reply q) := Ask q Ret.

Declare Scope fetch_scope.
Notation "'await' x <- p ; q" := (bind p (fun x => q))
  (at level 100, x binder, p at next level, right associativity) : fetch_scope.
Open Scope fetch_scope.

(** A run against an environment: the value, or [None] for the exception, and what happened. *)
Fixpoint run {A : Type} (env : list event -> forall q, reply q) (h : list event) (p : prog A) : option A * list event :=
  match p with
  | Ret a => (Some a, h)
  | ValueError => (None, h)
  | Ask q k => let r := env h q in run env (h ++ [Ev q r]) (k r)
  end.

(** ** Results *)

Definition field (r : obj) (k : string) : string := match oget r k (JStr "") with JStr s => s | _ => "" end.
Definition has (k : string) (r : obj) : bool := match assoc k r with Some _ => true | None => false end.
Definition setdefault (k : string) (v : json) (r : obj) : obj := if has k r then r else oset k v r.
Definition jopt (o : option string) : json := match o with Some s => JStr s | None => JNull end.

(** [if result:] on an optional dictionary. *)
Definition present (r : option obj) : option obj := match r with Some (_ :: _) => r | _ => None end.

Record assessment := mkAssessment { a_score : Z; a_block : string; a_volume : string }.
Record barrier_info := mkBarrier { detected : bool; barrier_type : option string; provider : option string; confidence : Z }.
Record settings := mkFetchSettings { QA_MIN_QUALITY_THRESHOLD : Z; private_url_allowlist : string }.
Record options := mkOptions { force_browser : bool; lightweight_only : bool; ignore_robots : bool; robots_ua : option string }.

Definition quality_json (a : assessment) : json :=
  JObj [("score", JNum (a_score a)); ("checks", JObj [("block_detected", JStr (a_block a)); ("volume", JStr (a_volume a))])].

(** [result.get("quality", {}).get("checks", {}).get("block_detected") in {"warn", "fail"}]. *)
Definition flagged (r : obj) : bool :=
  match jget (jget (oget r "quality" JNull) "checks") "block_detected" with JStr s => mem s ["warn"; "fail"] | _ => false end.

Definition score (dflt : Z) (r : obj) : Z :=
  match jget_default (oget r "quality" JNull) "score" (JNum dflt) with JNum n => n | _ => dflt end.

(** [max(best_effort, key=score)]. *)
Fixpoint best_of (b : obj) (l : list obj) : obj :=
  match l with
  | [] => b
  | r :: l => best_of (if score 0 b <? score 0 r then r else b) l
  end.

Definition not_extracted (url rest : string) (extra : obj) : obj :=
  [("error", JStr ("Could not extract content from " +:+ url +:+ rest)); ("markdown", JStr ""); ("source", JStr "none");
   ("url", JStr url)] ++ extra.

Definition denied (url error code : string) : obj :=
  [("markdown", JStr ""); ("source", JStr "blocked"); ("url", JStr url); ("error", JStr error); ("error_code", JStr code)].

(** [_CVE_IDENTIFIER.fullmatch]. *)
Definition cve_identifier (url : string) : bool :=
  starts_with "cve:cve-" (lower url) &&
  (let s := sdrop 8 url in
   Nat.leb 9 (slen s) && sforall is_digit (String.substring 0 4 s) && starts_with "-" (sdrop 4 s) && sforall is_digit (sdrop 5 s)).

(** The text after [substack.com/] of the first match of the pattern, whose class
    excludes quotes, the backslash and the letter [s]. *)
Definition substack_char (c : ascii) : bool :=
  negb (existsb (Ascii.eqb c) [ascii_of_nat 34; "'"; ascii_of_nat 92; "s"]%char).
Fixpoint substack_match (s : string) : option string :=
  let here := if starts_with "substack.com/" s then fst (break_at (fun c => negb (substack_char c)) (sdrop 13 s)) else "" in
  if negb (is_empty here) then Some ("substack.com/" +:+ here)
  else match s with EmptyString => None | String _ s => substack_match s end.

Definition SUBSTACK_REDIRECT_PATTERNS : list string :=
  ["substack.com/session-attribution-frame"; "substack.com/channel-frame"; "substack.com/iframe"; "googletagmanager.com/ns.html"].
Definition is_substack_redirect (url : string) : bool := existsb (fun p => substring_of p (lower url)) SUBSTACK_REDIRECT_PATTERNS.

(** ** Recovery receipts ([barrier_recovery.py]) *)

Record receipt := mkReceipt { r_type : json; r_provider : json; r_attempts : list json }.

Definition barrier_details (result : option obj) : obj :=
  match result with Some r => match oget r "barrier" JNull with JObj b => b | _ => [] end | None => [] end.

Definition new_recovery_receipt (result : option obj) (initial_strategy : string) : receipt :=
  let barrier := barrier_details result in
  let outcome := match barrier with [] => "no_content" | _ => "barrier" end in
  let sub := match oget barrier "attempted_strategies" JNull with JArr (x :: l) => [("sub_attempts", JArr (x :: l))] | _ => [] end in
  mkReceipt (jor (oget barrier "type" JNull) (JStr "unknown")) (oget barrier "provider" JNull)
    [JObj ([("strategy", JStr initial_strategy); ("outcome", JStr outcome)] ++ sub)].

Definition record_attempt (r : receipt) (strategy outcome : string) (reason : option string) : receipt :=
  mkReceipt (r_type r) (r_provider r)
    (r_attempts r ++ [JObj ([("strategy", JStr strategy); ("outcome", JStr outcome)] ++
                            match reason with Some s => [("reason", JStr s)] | None => [] end)]).

Definition is_str (s : string) (j : json) : bool := match j with JStr t => String.eqb s t | _ => false end.

Definition flaresolverr_applicable (r : receipt) : bool :=
  is_str "cloudflare" (r_type r) || is_str "turnstile" (r_provider r) ||
  (is_str "unknown" (r_type r) && match r_provider r with JNull => true | _ => false end).

Definition browser_service_applicable (r : receipt) : bool := negb (is_str "rate-limit" (r_type r) || is_str "empty" (r_type r)).

Definition attach_recovery (result : obj) (r : receipt) (recovered : bool) : obj :=
  oset "recovery" (JObj [("trigger", JStr "barrier"); ("barrier_type", r_type r); ("provider", r_provider r); ("attempts", JArr (r_attempts r));
    ("outcome", JStr (if recovered then "recovered" else "unresolved")); ("exhausted", JBool (negb recovered))]) result.

(** ** The pipeline *)

Section Pipeline.
Context (sha256 : string -> string)
        (assess : string -> string -> string -> Z -> bool -> assessment)   (* markdown, html, url, html_size, captcha_resolved *)
        (classify : string -> string -> string -> barrier_info)            (* url, markdown, html *)
        (extract_all_metadata : string -> json)
        (low_yield : Z -> Z -> string)                                     (* the text of the low-yield warning *)
        (two_decimals : Z -> string)
        (cfg : settings).

(** [_add_quality(result)]. *)
Definition captcha_resolved (r : obj) (markdown raw_html : string) : bool :=
  let proof := match oget r "_captcha_resolution" JNull with JObj p => p | _ => [] end in
  is_str "playwright" (oget r "source" JNull) &&
  match oget proof "verified" JNull with JBool b => b | _ => false end &&
  negb (is_empty raw_html) && is_str (sha256 markdown) (oget proof "markdown_digest" JNull) &&
  is_str (sha256 raw_html) (oget proof "html_digest" JNull) &&
  negb (bool_decide (barrier_type (classify (field r "url") markdown raw_html) = Some "captcha")).

Definition assessed (r : obj) : assessment :=
  let markdown := field r "markdown" in
  let raw_html := field r "raw_html_start" in
  assess markdown raw_html (field r "url") (match oget r "source_html_size" JNull with JNum n => n | _ => 0 end)
    (captcha_resolved r markdown raw_html).

Definition block_warning (status : string) : string :=
  "Block-page content detected (block_detected=" +:+ status +:+ "); the page may be a challenge or error interstitial.".

Definition add_quality (r : obj) : obj :=
  let a := assessed r in
  let prior_warning := field r "warning" in
  let r1 := oset "quality" (quality_json a) r in
  if mem (a_block a) ["warn"; "fail"] && negb (substring_of "Block-page content detected" prior_warning)
  then oset "warning" (JStr (block_warning (a_block a))) r1
  else if String.eqb (a_volume a) "fail" && negb (truthy (oget r1 "warning" JNull))
  then oset "warning" (JStr (low_yield (Z.of_nat (slen (field r "markdown")))
         (match oget r "source_html_size" JNull with JNum n => n | _ => 0 end))) r1
  else r1.

(** [_quality_acceptable]; a missing score is 1.0. *)
Definition quality_acceptable (r : obj) : bool :=
  match oget r "quality" JNull with
  | JNull => true
  | _ => if flagged r then false else QA_MIN_QUALITY_THRESHOLD cfg <=? score 1000000 r
  end.

(** [_enrich_with_metadata(result)]. *)
Definition enrich_with_metadata (r : obj) : obj :=
  oset "metadata"
    (if truthy (oget r "raw_html_start" JNull) then extract_all_metadata (field r "raw_html_start")
     else JObj [("json_ld", JArr []); ("og", JObj []); ("twitter", JObj []); ("meta", JObj [])]) r.

(** [_maybe_degrade]: the accepted result, the dictionary as it was left, and the
    best-effort list. *)
Definition gate_barrier (r : obj) : json :=
  let b := classify (field r "url") (field r "markdown") (field r "raw_html_start") in
  JObj [("detected", JBool true);
        ("type", JStr (match barrier_type b with Some t => if is_empty t then "suspicious" else t | None => "suspicious" end));
        ("provider", jopt (provider b)); ("confidence", JNum (confidence b)); ("detail", JStr "Post-extraction block-page gate")].

Definition maybe_degrade (r : obj) (label : string) (best_effort : list obj) : option obj * obj * list obj :=
  let r := add_quality r in
  if flagged r then
    (None, setdefault "error_code" (JStr "BARRIER_DETECTED") (setdefault "barrier" (gate_barrier r) r), best_effort)
  else if quality_acceptable r then (Some r, r, best_effort)
  else let r := oset "_degraded_from" (JStr label) r in (None, r, best_effort ++ [r]).

(** [_private_url_allowlisted]; [None] when the URL does not parse. *)
Definition private_url_allowlisted (url : string) : option bool :=
  parsed ← urlparse url;
  Some (mem (lower (hostname parsed))
    (List.filter (fun h => negb (is_empty h)) ((fun h => lower (strip h)) <$> split "," (private_url_allowlist cfg)))).

(** [_private_destination_error]. *)
Definition private_destination_error (url : string) (allow_adapter_identifier : bool) : prog (option obj) :=
  if allow_adapter_identifier && cve_identifier url then Ret None
  else match private_url_allowlisted url with
  | None => ValueError
  | Some true => Ret None
  | Some false =>
      await verdict <- ask (QPrivate url);
      Ret (match verdict with
           | Public => None
           | Private reason => Some (denied url reason "PRIVATE_URL_BLOCKED")
           | Unavailable => Some (denied url "Destination validation is temporarily unavailable" "SOURCE_DESTINATION_VALIDATION_UNAVAILABLE")
           end)
  end.

(** [_politeness_check_and_delay]: the error to return, if the request is refused. *)
Definition politeness_gate (url : string) (ignore : bool) (ua : option string) (rate_limit : bool) : prog (option obj) :=
  await verdict <- ask (QPolite url ignore ua rate_limit);
  Ret (match verdict with
       | Proceed => None
       | Blocked reason metadata =>
           Some [("error", JStr ("Blocked by politeness: " +:+ reason)); ("markdown", JStr ""); ("source", JStr "politeness");
                 ("url", JStr url); ("politeness", metadata)]
       end).

(** [_politeness_check_for_tier]. *)
Definition politeness_check_for_tier (url : string) : prog (option obj) := politeness_gate url false None false.

(** [_enrich_with_politeness]. *)
Definition enrich_with_politeness (r : obj) (url : string) : prog obj :=
  await metadata <- ask (QRecord url);
  Ret (enrich_with_metadata (match metadata with Some j => oset "politeness" j r | None => r end)).

(** [_set_cache], which also writes the tracking fields into the result. *)
Definition stored (now : usec) (r : obj) (prior : option obj) : obj :=
  let bare := odel "last_modified" (odel "etag" r) in
  default bare (enrich_cache_entry sha256 now (oget r "etag" JNull) (oget r "last_modified" JNull) prior bare).

Definition set_cache (url : string) (r : obj) (prior : option obj) : prog obj :=
  await now <- ask (QStore url r prior);
  Ret (match now with Some t => stored t r prior | None => r end).

(** What follows an accepted result. *)
Definition accept (url : string) (r : obj) (prior : option obj) : prog obj :=
  await r <- enrich_with_politeness r url; set_cache url r prior.

(** *** Recovery from a barrier *)

Section Recovery.
Context (url : string) (prior_cache_entry : option obj) (cache_success : bool).

(** One countermeasure of [_recover_from_barrier].  The best-effort list it appends to
    is not read again. *)
Definition countermeasure (t : tier) (strategy label : string) (s : receipt * option obj)
  (next : receipt * option obj -> prog obj) : prog obj :=
  let '(r, terminal) := s in
  await blocked <- politeness_check_for_tier url;
  match blocked with
  | Some b => Ret (attach_recovery b r false)
  | None =>
      await answer <- ask (QTier t url);
      match answer with
      | None => next (record_attempt r strategy "unavailable" None, terminal)
      | Some result =>
          if truthy (oget result "barrier" JNull) then
            let keep := match terminal with Some x => truthy (oget x "error_code" JNull) | None => false end in
            next (record_attempt r strategy "barrier" None, if keep then terminal else Some result)
          else match maybe_degrade result label [] with
          | (Some accepted, _, _) =>
              let accepted := attach_recovery accepted (record_attempt r strategy "success" None) true in
              await accepted <- enrich_with_politeness accepted url;
              if cache_success then set_cache url accepted prior_cache_entry else Ret accepted
          | (None, _, _) => next (record_attempt r strategy "low_quality" None, terminal)
          end
      end
  end.

Definition not_applicable (strategy : string) (s : receipt * option obj) : receipt * option obj :=
  (record_attempt (fst s) strategy "skipped" (Some "not_applicable_to_classified_barrier"), snd s).

(** The fresh envelope at the end. *)
Definition terminal_envelope (terminal : option obj) : obj :=
  let t := default [] terminal in
  let source := if truthy (oget t "raw_html_start" JNull) then JStr "none" else oget t "source" (JStr "none") in
  [("error", jor (oget t "error" JNull) (JStr ("Could not extract content from " +:+ url)));
   ("error_code", jor (oget t "error_code" JNull) (JStr "BARRIER_DETECTED")); ("markdown", JStr ""); ("source", source);
   ("url", JStr url)] ++ (if truthy (oget t "barrier" JNull) then [("barrier", oget t "barrier" JNull)] else []).

(** [_recover_from_barrier]. *)
Definition surrender (s : receipt * option obj) : prog obj :=
  enrich_with_politeness (attach_recovery (terminal_envelope (snd s)) (fst s) false) url.

Definition try_browser (s : receipt * option obj) : prog obj :=
  if browser_service_applicable (fst s) then countermeasure BrowserSvc "browser-svc" "barrier-browser-svc" s surrender
  else surrender (not_applicable "browser-svc" s).

Definition recover_from_barrier (initial : option obj) (initial_strategy : string) (allow_flaresolverr : bool) : prog obj :=
  let s := (new_recovery_receipt initial initial_strategy, initial) in
  if allow_flaresolverr && flaresolverr_applicable (fst s) then countermeasure FlareSolverr "flaresolverr" "barrier-flaresolverr" s try_browser
  else if allow_flaresolverr then try_browser (not_applicable "flaresolverr" s)
  else try_browser s.

End Recovery.

(** *** The probe *)

Record probe := mkProbe { shielded : bool; redirect_url : string; is_binary : bool; probe_empty : bool }.

(** [_head_probe]. *)
Definition head_probe (url : string) (answer : option head) : probe :=
  match answer with
  | None => mkProbe false url false false
  | Some a =>
      mkProbe (String.eqb (lower (h_mitigated a)) "challenge" || (400 <=? h_status a)) (h_url a) (is_binary_content_type (h_type a))
        (match h_length a with Some l => (h_status a =? 200) && match py_int l with Some n => n <? 1024 | None => false end | None => false end)
  end.

Section Scrape.
Context (opt : options).

Definition gate (url : string) (rate_limit : bool) : prog (option obj) := politeness_gate url (ignore_robots opt) (robots_ua opt) rate_limit.

(** A cache lookup: the entry as it is left, and whether it is good enough. *)
Definition judge_cached (cached : option obj) : option obj * bool :=
  match present cached with
  | None => (cached, false)
  | Some c => let c := enrich_with_metadata (add_quality c) in (Some c, quality_acceptable c)
  end.

(** Tiers 1 and 2: a result to return, or the best-effort list. *)
Definition light_tier (t : tier) (label url : string) (cached : option obj) (best : list obj) : prog (obj + list obj) :=
  await blocked <- gate url false;
  match blocked with
  | Some b => Ret (inl b)
  | None =>
      await answer <- ask (QTier t url);
      match present answer with
      | None => Ret (inr best)
      | Some r =>
          match maybe_degrade r label best with
          | (Some a, _, _) => await a <- accept url a cached; Ret (inl a)
          | (None, _, best) => Ret (inr best)
          end
      end
  end.

Definition threshold_text : string := two_decimals (QA_MIN_QUALITY_THRESHOLD cfg).

(** The best effort with its warning. *)
Definition best_effort_result (label : string) (b : obj) (l : list obj) : obj :=
  let best := best_of b l in
  oset "warning" (JStr (label +:+ " content — quality (" +:+ two_decimals (score 0 best) +:+ ") below threshold (" +:+ threshold_text +:+ ")")) best.

(** [content_good]: the classifier does not see a barrier with confidence. *)
Definition content_good (url : string) (r : obj) : barrier_info * bool :=
  let b := classify url (field r "markdown") (field r "raw_html_start") in (b, negb (detected b) || (confidence b <=? 700000)).

Definition barrier_of (r : obj) : obj := match assoc "barrier" r with Some b => [("barrier", b)] | None => [] end.

(** The [force_browser] path. *)
Definition forced (url : string) : prog obj :=
  await blocked <- gate url true;
  match blocked with
  | Some b => Ret b
  | None =>
      await answer <- ask (QTier Playwright url);
      match present answer with
      | None =>
          match answer with
          | None => recover_from_barrier url None false None "playwright" true
          | Some _ => enrich_with_politeness (not_extracted url "" []) url
          end
      | Some r =>
          let '(acc, r', best) := if snd (content_good url r) then maybe_degrade r "tier3-playwright" [] else (None, r, []) in
          match acc with
          | Some a => enrich_with_politeness a url
          | None =>
              if truthy (oget r' "barrier" JNull) then recover_from_barrier url None false (Some r') "playwright" true
              else match best with
              | b :: l => enrich_with_politeness (best_effort_result "Suboptimal" b l) url
              | [] => enrich_with_politeness (not_extracted url "" (barrier_of r)) url
              end
          end
      end
  end.

(** The end of [smart_scrape]: the best effort, which is also stored, or an error. *)
Definition exhausted (url : string) (cached : option obj) (best : list obj) (barrier : obj) : prog obj :=
  match best with
  | b :: l => await r <- set_cache url (best_effort_result "Suboptimal" b l) cached; enrich_with_politeness r url
  | [] => enrich_with_politeness (not_extracted url "" barrier) url
  end.

(** The Substack fallback. *)
Definition QUOTE : string := String (ascii_of_nat 34) EmptyString.
Definition substack_error (url raw_html : string) : obj :=
  not_extracted url ((match substack_match raw_html with Some m => " (redirected to " +:+ m +:+ ")" | None => "" end) +:+
    ". Substack blocked the headless browser. Try: groktocrawl browser exec <id> navigate --url <url> then browser exec <id> executeScript --script " +:+
    QUOTE +:+ "document.querySelector('article').innerText" +:+ QUOTE) [].

Definition substack_fallback (url : string) (cached : option obj) (result : option obj) (best : list obj) (barrier : obj) : prog obj :=
  match result with
  | Some r =>
      if (has "barrier" r || truthy (oget r "raw_html_start" JNull)) && is_substack_redirect (field r "raw_html_start") then
        await answer <- ask (QTier BrowserSvc url);
        match present answer with
        | None => exhausted url cached best barrier
        | Some b =>
            match maybe_degrade b "browser-svc" best with
            | (Some a, _, _) => accept url a cached
            | (None, _, _) => enrich_with_politeness (substack_error url (field r "raw_html_start")) url
            end
        end
      else exhausted url cached best barrier
  | None => exhausted url cached best barrier
  end.

(** Tier 4. *)
Definition page_content (r : obj) : string :=
  if truthy (oget r "raw_html_start" JNull) then field r "raw_html_start" else field r "markdown".

Definition llm_tier (url : string) (cached : option obj) (result : option obj) (best : list obj) (barrier : obj) : prog obj :=
  match result with
  | Some r =>
      if negb (is_str "CAPTCHA_UNRESOLVED" (oget r "error_code" JNull)) && (has "barrier" r || truthy (oget r "markdown" JNull)) then
        await answer <- ask (QRecover url (page_content r));
        match present answer with
        | None => substack_fallback url cached result best barrier
        | Some x =>
            match maybe_degrade x "tier4-llm-recovery" best with
            | (Some a, _, _) => accept url a cached
            | (None, _, best) => substack_fallback url cached result best barrier
            end
        end
      else substack_fallback url cached result best barrier
  | None => substack_fallback url cached result best barrier
  end.

(** Tier 3.5. *)
Definition flare_tier (url : string) (cached : option obj) (result : option obj) (best : list obj) (barrier : obj) : prog obj :=
  await blocked <- gate url false;
  match blocked with
  | Some b => Ret b
  | None =>
      await answer <- ask (QTier FlareSolverr url);
      match present answer with
      | None => llm_tier url cached result best barrier
      | Some f =>
          if has "barrier" f then recover_from_barrier url cached true (Some f) "flaresolverr" false
          else match maybe_degrade f "tier35-flaresolverr" best with
          | (Some a, _, _) => accept url a cached
          | (None, _, best) => llm_tier url cached result best barrier
          end
      end
  end.

(** Tier 3. *)
Definition browser_tier (url : string) (cached : option obj) (best : list obj) : prog obj :=
  await blocked <- gate url false;
  match blocked with
  | Some b => Ret b
  | None =>
      await answer <- ask (QTier Playwright url);
      match present answer with
      | None =>
          match answer with
          | None => recover_from_barrier url cached true None "playwright" true
          | Some _ => flare_tier url cached None best []
          end
      | Some r =>
          let '(b, good) := content_good url r in
          let '(acc, r', best) :=
            if good || bool_decide (barrier_type b = Some "empty") then maybe_degrade r "tier3-playwright" best else (None, r, best) in
          match acc with
          | Some a => accept url a cached
          | None =>
              if truthy (oget r' "barrier" JNull) then recover_from_barrier url cached true (Some r') "playwright" true
              else flare_tier url cached (Some r') best (barrier_of r)
          end
      end
  end.

(** Tiers 1 and 2, then the end of a lightweight scrape or the browser. *)
Definition lightweight_end (url : string) (best : list obj) : prog obj :=
  match best with
  | b :: l => enrich_with_politeness (best_effort_result "Lightweight-only" b l) url
  | [] => enrich_with_politeness (not_extracted url " using lightweight tiers" []) url
  end.

Definition after_light (url : string) (cached : option obj) (best : list obj) : prog obj :=
  if lightweight_only opt then lightweight_end url best else browser_tier url cached best.

Definition tiers (url : string) (cached : option obj) (p : probe) : prog obj :=
  match urlparse url with
  | None => ValueError
  | Some parsed =>
      let plain := negb (shielded p) && negb (is_binary p) in
      await one <- (if mem (path parsed) [""; "/"] && plain then light_tier LlmsTxt "tier1-llms-txt" url cached [] else Ret (inr []));
      match one with
      | inl r => Ret r
      | inr best =>
          await two <- (if plain then light_tier ContentNegotiation "tier2-content-negotiation" url cached best else Ret (inr best));
          match two with
          | inl r => Ret r
          | inr best => after_light url cached best
          end
      end
  end.

Definition pipeline (url : string) : prog obj :=
  await blocked <- gate url true;
  match blocked with
  | Some b => Ret b
  | None =>
      await cached <- ask (QCache url);
      let '(cached, good) := judge_cached cached in
      if good then Ret (default [] cached)
      else
        await answer <- ask (QHead url);
        let p := head_probe url answer in
        if negb (String.eqb (redirect_url p) url) then
          await cached <- ask (QCache (redirect_url p));
          let '(cached, good) := judge_cached cached in
          if good then Ret (default [] cached) else tiers (redirect_url p) cached p
        else tiers url cached p
  end.

(** [smart_scrape]. *)
Definition unsupported (url : string) : obj := denied url "Unsupported non-network scrape identifier" "PRIVATE_URL_BLOCKED".

Definition smart_scrape (url : string) : prog obj :=
  await destination_error <- private_destination_error url (negb (force_browser opt));
  match destination_error with
  | Some e => Ret e
  | None =>
      if force_browser opt then forced url
      else
        await adapted <- ask (QAdapter url);
        match adapted with
        | Some a => Ret a
        | None =>
            if cve_identifier url then
              await e <- private_destination_error url false;
              Ret (default (unsupported url) e)
            else pipeline url
        end
  end.

End Scrape.
End Pipeline.

(** ** Reasoning about programs

    [wp P Q p h]: whatever is answered, every request [p] makes after the history [h]
    satisfies [P], and its value satisfies [Q]. *)

Fixpoint wp {A : Type} (P : list event -> Req -> Prop) (Q : A -> list event -> Prop) (p : prog A) (h : list event) : Prop :=
  match p with
  | Ret a => Q a h
  | ValueError => True
  | Ask q k => P h q /\ forall r, wp P Q (k r) (h ++ [Ev q r])
  end.

Lemma wp_then {A B} P (Q : B -> list event -> Prop) (p : prog A) (f : A -> prog B) h :
  wp P (fun a h => wp P Q (f a) h) p h -> wp P Q (bind p f) h.
Proof. revert h; induction p as [a| |q k IH]; intros h H; cbn in *; [done|done|]. destruct H as [H1 H2]. split; [done|]. intros r. by apply IH. Qed.

Lemma wp_weaken {A} P (Q Q' : A -> list event -> Prop) (p : prog A) h :
  (forall a h', Q a h' -> Q' a h') -> wp P Q p h -> wp P Q' p h.
Proof. intros HQ. revert h; induction p as [a| |q k IH]; intros h H; cbn in *; [auto|done|]. destruct H as [H1 H2]. split; [done|]. intros r. by apply IH. Qed.

Lemma wp_run {A} P (Q : A -> list event -> Prop) env (p : prog A) h : wp P Q p h ->
  (forall h1 q r h2, snd (run env h p) = h1 ++ Ev q r :: h2 -> (length h <= length h1)%nat -> P h1 q) /\
  (forall a, fst (run env h p) = Some a -> Q a (snd (run env h p))) /\ exists l, snd (run env h p) = h ++ l.
Proof.
  revert h; induction p as [a| |q k IH]; intros h H; cbn [run wp] in *.
  - split_and!; [|by intros a' [= <-]|by exists []; rewrite app_nil_r]. cbn. intros h1 q r h2 E HL. exfalso. subst h. rewrite length_app in HL. cbn in HL. lia.
  - split_and!; [|done|by exists []; rewrite app_nil_r]. cbn. intros h1 q r h2 E HL. exfalso. subst h. rewrite length_app in HL. cbn in HL. lia.
  - destruct H as [HP HK]. destruct (IH (env h q) _ (HK _)) as (H1 & H2 & l & H3). split_and!; [|done|rewrite H3, <- app_assoc; eauto].
    intros h1 q' r h2 E HL. destruct (decide (length h1 = length h)) as [Heq|Hne].
    + rewrite E in H3. rewrite <- app_assoc in H3. apply app_inj_1 in H3 as [-> H3]; [|done]. by injection H3 as -> _.
    + eapply H1; [exact E|]. rewrite length_app. cbn. lia.
Qed.

(** ** What a history says *)

Definition rank (t : tier) : nat :=
  match t with LlmsTxt => 1 | ContentNegotiation => 2 | Playwright => 3 | FlareSolverr => 4 | BrowserSvc => 6 end.

(** The cost of what was fetched, the model's tier being the fifth. *)
Definition ranks_of (e : event) : list nat :=
  match e with Ev (QTier t _) _ => [rank t] | Ev (QRecover _ _) _ => [5%nat] | _ => [] end.
Definition ranks (h : list event) : list nat := h ≫= ranks_of.

(** A politeness slot was reserved. *)
Definition reserves (e : event) : bool := match e with Ev (QPolite _ _ _ rate) _ => rate | _ => false end.
Definition reserved (h : list event) : bool := existsb reserves h.

(** The last verdict of the politeness manager. *)
Definition verdict_of (e : event) : option (string * bool) :=
  match e with
  | Ev q r =>
      match q return reply q -> option (string * bool) with
      | QPolite u _ _ _ => fun r => Some (u, match r with Proceed => true | Blocked _ _ => false end)
      | _ => fun _ => None
      end r
  end.
Definition last_polite (h : list event) : option (string * bool) :=
  foldl (fun acc e => match verdict_of e with Some v => Some v | None => acc end) None h.

Lemma ranks_snoc h e : ranks (h ++ [e]) = ranks h ++ ranks_of e.
Proof. unfold ranks. rewrite bind_app. cbn. by rewrite app_nil_r. Qed.

Lemma reserved_snoc h e : reserved (h ++ [e]) = reserved h || reserves e.
Proof. unfold reserved. rewrite existsb_app. cbn. by rewrite orb_false_r. Qed.

Lemma last_polite_snoc h e : last_polite (h ++ [e]) = match verdict_of e with Some v => Some v | None => last_polite h end.
Proof. unfold last_polite. by rewrite foldl_app. Qed.

Definition later (h h' : list event) : Prop := exists l, h' = h ++ l.

Lemma later_refl h : later h h.
Proof. exists []. by rewrite app_nil_r. Qed.
Lemma later_trans h1 h2 h3 : later h1 h2 -> later h2 h3 -> later h1 h3.
Proof. intros [l1 ->] [l2 ->]. exists (l1 ++ l2). by rewrite app_assoc. Qed.
Lemma later_snoc h e : later h (h ++ [e]).
Proof. by exists [e]. Qed.
Lemma later_in h h' e : later h h' -> e ∈ h -> e ∈ h'.
Proof. intros [l ->] H. apply elem_of_app. by left. Qed.
#[local] Hint Resolve later_refl later_snoc later_trans later_in : core.

(** ** What a result keeps *)

Definition keeps (r r' : obj) : Prop :=
  assoc "markdown" r' = assoc "markdown" r /\ assoc "quality" r' = assoc "quality" r /\ assoc "warning" r' = assoc "warning" r.

Lemma keeps_refl r : keeps r r.
Proof. done. Qed.
Lemma keeps_trans a b c : keeps a b -> keeps b c -> keeps a c.
Proof. intros (H1 & H2 & H3) (G1 & G2 & G3). split_and!; congruence. Qed.
Lemma keeps_oset k v r : k <> "markdown" -> k <> "quality" -> k <> "warning" -> keeps r (oset k v r).
Proof. intros H1 H2 H3. split_and!; by rewrite assoc_oset_ne. Qed.
Lemma keeps_odel k r : k <> "markdown" -> k <> "quality" -> k <> "warning" -> keeps r (odel k r).
Proof. intros H1 H2 H3. split_and!; by rewrite assoc_odel_ne. Qed.

Lemma keeps_enrich sha256 now etag lm prior r e : enrich_cache_entry sha256 now etag lm prior r = Some e -> keeps r e.
Proof.
  unfold enrich_cache_entry. destruct (oget _ "markdown" _); try done. intros H. apply track_spec in H as [H _].
  split_and!; (rewrite H by done); by rewrite !assoc_oset_ne, !assoc_set_if by done.
Qed.

Lemma keeps_stored sha256 now r prior : keeps r (stored sha256 now r prior).
Proof.
  unfold stored. assert (HB : keeps r (odel "last_modified" (odel "etag" r))) by (eapply keeps_trans; by apply keeps_odel).
  destruct (enrich_cache_entry _ _ _ _ _ _) as [e|] eqn:E; [|done]. cbn. eapply keeps_trans; [exact HB|by eapply keeps_enrich].
Qed.

Lemma best_of_in b l : best_of b l ∈ b :: l.
Proof.
  revert b; induction l as [|r l IH]; intros b; cbn; [by left|]. destruct (_ <? _).
  - right. apply IH.
  - specialize (IH b). apply elem_of_cons in IH as [->|IH]; [by left|right; by right].
Qed.

Lemma best_of_max b l r : r ∈ b :: l -> score 0 r <= score 0 (best_of b l).
Proof.
  revert b r; induction l as [|x l IH]; intros b r; cbn [best_of]; [by intros ->%list_elem_of_singleton|].
  intros [->|[->|H]%elem_of_cons]%elem_of_cons; destruct (Z.ltb_spec (score 0 b) (score 0 x)) as [Hl|Hl].
  - etransitivity; [apply Z.lt_le_incl, Hl|apply IH; by left].
  - apply IH. by left.
  - apply IH. by left.
  - etransitivity; [exact Hl|apply IH; by left].
  - apply IH. by right.
  - apply IH. by right.
Qed.

Section Facts.
Context (sha256 : string -> string) (assess : string -> string -> string -> Z -> bool -> assessment)
        (classify : string -> string -> string -> barrier_info) (extract_all_metadata : string -> json)
        (low_yield : Z -> Z -> string) (two_decimals : Z -> string) (cfg : settings) (opt : options) (url0 : string).

Notation assessed := (assessed sha256 assess classify).
Notation add_quality := (add_quality sha256 assess classify low_yield).
Notation maybe_degrade := (maybe_degrade sha256 assess classify low_yield cfg).
Notation content_good := (content_good classify).
Notation enrich_with_politeness := (enrich_with_politeness extract_all_metadata).

Definition refused (a : assessment) : bool := mem (a_block a) ["warn"; "fail"].

(** *** The quality gate *)

Lemma add_quality_spec r : assoc "quality" (add_quality r) = Some (quality_json (assessed r)) /\
  (forall k, k <> "quality" -> k <> "warning" -> assoc k (add_quality r) = assoc k r).
Proof.
  unfold Fetch.add_quality. cbv zeta. destruct (_ && _); [|destruct (_ && _)]; split; intros; rewrite ?assoc_oset_ne, ?assoc_oset_eq by done; done.
Qed.

Lemma flagged_quality r a : assoc "quality" r = Some (quality_json a) -> flagged r = refused a /\ (forall d, score d r = a_score a).
Proof. intros H. unfold flagged, score, oget. by rewrite H. Qed.

Lemma acceptable_quality r a : assoc "quality" r = Some (quality_json a) ->
  quality_acceptable cfg r = negb (refused a) && (QA_MIN_QUALITY_THRESHOLD cfg <=? a_score a).
Proof.
  intros H. destruct (flagged_quality r a H) as [H1 H2]. unfold quality_acceptable, oget. rewrite H. cbn [default quality_json]. rewrite H1, H2. by destruct (refused a).
Qed.

Lemma setdefault_get k v r k' : k' <> k -> assoc k' (setdefault k v r) = assoc k' r.
Proof. intros H. unfold setdefault. destruct (has k r); [done|by rewrite assoc_oset_ne]. Qed.

(** A candidate: content of [src] that is not refused, with its assessment. *)
Record candidate (src r : obj) : Prop := mkCandidate {
  ca_markdown : assoc "markdown" r = assoc "markdown" src;
  ca_quality : assoc "quality" r = Some (quality_json (assessed src));
  ca_clear : refused (assessed src) = false
}.

Lemma degrade_spec r label best acc r' best' : maybe_degrade r label best = (acc, r', best') ->
  (forall k, k <> "quality" -> k <> "warning" -> k <> "barrier" -> k <> "error_code" -> k <> "_degraded_from" -> assoc k r' = assoc k r) /\
  (assoc "barrier" r' = assoc "barrier" r \/ has "barrier" r = false /\ truthy (oget r' "barrier" JNull) = true) /\
  match acc with
  | Some a => candidate r a /\ QA_MIN_QUALITY_THRESHOLD cfg <= a_score (assessed r)
  | None => best' = best /\ refused (assessed r) = true /\ (has "barrier" r = false -> truthy (oget r' "barrier" JNull) = true)
            \/ (exists b, best' = best ++ [b] /\ candidate r b) /\ refused (assessed r) = false
  end.
Proof.
  destruct (add_quality_spec r) as [HQ HK]. unfold Fetch.maybe_degrade. cbv zeta.
  destruct (flagged_quality _ _ HQ) as [HF HS]. rewrite HF. destruct (refused (assessed r)) eqn:ER.
  - intros [= <- <- <-].
    assert (HB : has "barrier" r = false -> truthy (oget (setdefault "error_code" (JStr "BARRIER_DETECTED")
        (setdefault "barrier" (gate_barrier classify (add_quality r)) (add_quality r))) "barrier" JNull) = true).
    { intros Hn. unfold oget. rewrite setdefault_get by done. unfold setdefault, has in *. rewrite HK by done. destruct (assoc "barrier" r); [done|].
      by rewrite assoc_oset_eq. }
    split_and!.
    + intros k H1 H2 H3 H4 H5. rewrite !setdefault_get by done. by apply HK.
    + destruct (has "barrier" r) eqn:Eh; [left|right; by split; [|apply HB]].
      rewrite setdefault_get by done. unfold setdefault, has in *. rewrite HK by done. destruct (assoc "barrier" r) eqn:Eb; [|done]. by rewrite HK.
    + left. done.
  - rewrite (acceptable_quality _ _ HQ), ER. cbn [negb andb]. destruct (Z.leb_spec (QA_MIN_QUALITY_THRESHOLD cfg) (a_score (assessed r))) as [Hl|Hl]; intros [= <- <- <-].
    + split_and!; [intros; by apply HK|left; by apply HK|split; [by apply HK|done|done]|done].
    + split_and!; [intros; rewrite assoc_oset_ne by done; by apply HK|left; rewrite assoc_oset_ne by done; by apply HK|].
      right. split; [|done]. eexists. split; [done|]. split; rewrite ?assoc_oset_ne by done; [by apply HK|done|done].
Qed.

(** *** What is allowed *)

Definition validated (h : list event) : Prop := private_url_allowlisted cfg url0 = Some true \/ Ev (QPrivate url0) Public ∈ h.

(** A page a tier, or the model, gave in this scrape. *)
Definition fetched (h : list event) (src : obj) : Prop :=
  (exists t u, Ev (QTier t u) (Some src) ∈ h) \/ (exists u c, Ev (QRecover u c) (Some src) ∈ h).

Definition worth (r : obj) (a : assessment) : Prop :=
  QA_MIN_QUALITY_THRESHOLD cfg <= a_score a \/ truthy (oget r "warning" JNull) = true.

(** Content that was fetched in this scrape and passed the gate. *)
Definition clean (h : list event) (r : obj) : Prop := exists src, fetched h src /\ candidate src r /\ worth r (assessed src).

(** The cached content of some URL that passed the gate. *)
Definition clean_cached (h : list event) (r : obj) : Prop :=
  exists u src, Ev (QCache u) (Some src) ∈ h /\ candidate src r /\ QA_MIN_QUALITY_THRESHOLD cfg <= a_score (assessed src).

Definition content_ok (h : list event) (r : obj) : Prop :=
  Ev (QAdapter url0) (Some r) ∈ h \/ assoc "markdown" r = Some (JStr "") \/ clean h r \/ clean_cached h r.

Definition recoverable (h : list event) (u content : string) : Prop :=
  exists r, Ev (QTier Playwright u) (Some r) ∈ h /\ content = page_content r /\ truthy (oget r "barrier" JNull) = false /\
    (has "barrier" r = false -> snd (content_good u r) = true -> refused (assessed r) = false).

(** What may be asked after a history. *)
Definition disciplined (h : list event) (q : Req) : Prop :=
  match q with
  | QPrivate u => u = url0
  | QAdapter u => u = url0 /\ force_browser opt = false /\ (validated h \/ cve_identifier url0 = true)
  | QPolite _ _ _ rate => validated h /\ (rate = true -> reserved h = false)
  | QCache _ => force_browser opt = false /\ validated h /\ last_polite h = Some (url0, true)
  | QHead u => force_browser opt = false /\ u = url0 /\ validated h /\ last_polite h = Some (u, true)
  | QTier t u => validated h /\ last_polite h = Some (u, true) /\ Forall (fun k => (k < rank t)%nat) (ranks h) /\
                 (force_browser opt = true -> (3 <= rank t)%nat) /\
                 (lightweight_only opt = true -> force_browser opt = false -> (rank t <= 2)%nat)
  | QRecover u content => validated h /\ last_polite h = Some (u, true) /\ Forall (fun k => (k < 5)%nat) (ranks h) /\
                          force_browser opt = false /\ lightweight_only opt = false /\ recoverable h u content
  | QRecord _ => True
  | QStore u r _ => validated h /\ force_browser opt = false /\ last_polite h = Some (u, true) /\ clean h r
  end.

Record ready (n : nat) (h : list event) : Prop := mkReady {
  rd_valid : validated h;
  rd_ranks : Forall (fun k => (k < n)%nat) (ranks h);
  rd_slot : reserved h = true
}.

Lemma validated_later h h' : later h h' -> validated h -> validated h'.
Proof. intros HL [H|H]; [by left|right; eauto]. Qed.
Lemma fetched_later h h' src : later h h' -> fetched h src -> fetched h' src.
Proof. intros HL [(t & u & H)|(u & c & H)]; [left|right]; eauto. Qed.
Lemma clean_later h h' r : later h h' -> clean h r -> clean h' r.
Proof. intros HL (src & H1 & H2). exists src. split; [by eapply fetched_later|done]. Qed.
Lemma candidate_keeps src r r' : keeps r r' -> candidate src r -> candidate src r'.
Proof. intros (H1 & H2 & _) [G1 G2 G3]. split; congruence. Qed.
Lemma worth_keeps r r' a : keeps r r' -> worth r a -> worth r' a.
Proof. intros (_ & _ & H) [?|?]; [by left|right]. unfold oget in *. by rewrite H. Qed.
Lemma clean_keeps h r r' : keeps r r' -> clean h r -> clean h r'.
Proof. intros HK (src & H1 & H2 & H3). exists src. split_and!; [done|by eapply candidate_keeps|by eapply worth_keeps]. Qed.
Lemma content_keeps h h' r r' : later h h' -> keeps r r' -> clean h r -> content_ok h' r'.
Proof. intros HL HK HC. right. right. left. eapply clean_keeps; [exact HK|by eapply clean_later]. Qed.

(** A request other than a fetch keeps what is known. *)
Lemma ready_quiet n h q r : ranks_of (Ev q r) = [] -> ready n h -> ready n (h ++ [Ev q r]).
Proof.
  intros Hq [H1 H2 H3]. split; [by eapply validated_later; [apply later_snoc|]|by rewrite ranks_snoc, Hq, app_nil_r|by rewrite reserved_snoc, H3].
Qed.

Lemma polite_quiet h q r : verdict_of (Ev q r) = None -> last_polite (h ++ [Ev q r]) = last_polite h.
Proof. intros Hq. by rewrite last_polite_snoc, Hq. Qed.

(** *** Steps *)

Notation wpd := (wp disciplined).

(** After the gate: an error without content, or the permission to go on. *)
Lemma gate_wp n u ign ua rate h (Q : option obj -> list event -> Prop) :
  validated h -> Forall (fun k => (k < n)%nat) (ranks h) -> (rate = true -> reserved h = false) -> (rate = false -> reserved h = true) ->
  (forall b h', assoc "markdown" b = Some (JStr "") -> Q (Some b) h') ->
  (forall h', later h h' -> ready n h' -> last_polite h' = Some (u, true) -> Q None h') ->
  wpd Q (politeness_gate u ign ua rate) h.
Proof.
  intros Hv Hr Hr1 Hr2 HB HN. cbn. split; [done|]. intros [|reason metadata]; [|by apply HB]. apply HN; [by eexists| |by rewrite last_polite_snoc].
  split; [by eapply validated_later; [apply later_snoc|]|by rewrite ranks_snoc; cbn; rewrite app_nil_r|].
  rewrite reserved_snoc. cbn. destruct rate; [by rewrite orb_true_r|by rewrite Hr2].
Qed.

Lemma ready_fetch n t h u r : ready n h -> (n <= rank t)%nat -> ready (S (rank t)) (h ++ [Ev (QTier t u) r]).
Proof.
  intros [H1 H2 H3] Hn. split; [by eapply validated_later; [apply later_snoc|]| |by rewrite reserved_snoc, H3].
  rewrite ranks_snoc. apply Forall_app. split; [|cbn; repeat constructor; lia]. eapply Forall_impl; [exact H2|]. cbn. intros. lia.
Qed.

Lemma tier_wp n t u h (Q : option obj -> list event -> Prop) : ready n h -> last_polite h = Some (u, true) -> (n <= rank t)%nat ->
  (force_browser opt = true -> (3 <= rank t)%nat) -> (lightweight_only opt = true -> force_browser opt = false -> (rank t <= 2)%nat) ->
  (forall r h', later h h' -> ready (S (rank t)) h' -> last_polite h' = Some (u, true) -> (forall src, r = Some src -> fetched h' src) ->
     (forall src, r = Some src -> Ev (QTier t u) (Some src) ∈ h') -> Q r h') ->
  wpd Q (ask (QTier t u)) h.
Proof.
  intros HR HP Hn Hf Hl HQ. cbn. split.
  { destruct HR as [H1 H2 H3]. split_and!; try done. eapply Forall_impl; [exact H2|]. cbn. intros. lia. }
  intros r. assert (HI : forall src, r = Some src -> Ev (QTier t u) (Some src) ∈ h ++ [Ev (QTier t u) r]).
  { intros src ->. apply elem_of_snoc. by right. }
  apply HQ; [by eexists|by apply (ready_fetch n)|by rewrite polite_quiet| |exact HI]. intros src Hs. left. eauto.
Qed.

Lemma enrich_wp u r h (Q : obj -> list event -> Prop) :
  (forall r' h' x, h' = h ++ [Ev (QRecord u) x] -> keeps r r' -> (forall k, k <> "politeness" -> k <> "metadata" -> assoc k r' = assoc k r) -> Q r' h') ->
  wpd Q (enrich_with_politeness r u) h.
Proof.
  intros HQ. cbn. split; [done|]. intros x.
  assert (HP : keeps r (match x with Some j => oset "politeness" j r | None => r end) /\
               forall k, k <> "politeness" -> assoc k (match x with Some j => oset "politeness" j r | None => r end) = assoc k r).
  { destruct x; [|done]. split; [by apply keeps_oset|intros; by rewrite assoc_oset_ne]. }
  destruct HP as [HP1 HP2]. eapply HQ; [reflexivity| |].
  - eapply keeps_trans; [exact HP1|by apply keeps_oset].
  - intros k H1 H2. unfold enrich_with_metadata. rewrite assoc_oset_ne by done. by apply HP2.
Qed.

Lemma store_wp n u r prior h (Q : obj -> list event -> Prop) : ready n h -> force_browser opt = false -> last_polite h = Some (u, true) -> clean h r ->
  (forall r' h', later h h' -> last_polite h' = Some (u, true) -> clean h' r' -> Q r' h') ->
  wpd Q (set_cache sha256 u r prior) h.
Proof.
  intros [Hv _ _] Hf HP HC HQ. cbn. split; [done|]. intros now. apply HQ; [by eexists|by rewrite polite_quiet|].
  eapply clean_later; [apply later_snoc|]. destruct now; [|done]. eapply clean_keeps; [apply keeps_stored|done].
Qed.

(** An accepted result is enriched, stored and returned. *)
Lemma accept_wp n u r prior h : ready n h -> force_browser opt = false -> last_polite h = Some (u, true) -> clean h r ->
  wpd (fun r h => content_ok h r) (accept sha256 extract_all_metadata u r prior) h.
Proof.
  intros HR Hf HP HC. apply wp_then, enrich_wp. intros r' h' x -> HK _. eapply store_wp.
  - by apply ready_quiet, HR.
  - done.
  - by rewrite polite_quiet.
  - eapply clean_later; [apply later_snoc|by eapply clean_keeps].
  - intros r2 h2 _ _ H. right. by right; left.
Qed.

(** A result that is enriched and returned. *)
Lemma enriched_wp u r h : assoc "markdown" r = Some (JStr "") \/ clean h r ->
  wpd (fun r h => content_ok h r) (enrich_with_politeness r u) h.
Proof.
  intros [H|H]; apply enrich_wp; intros r' h' x -> HK HO; [|by eapply content_keeps; [by eexists|exact HK|]].
  right. left. by destruct HK as [-> _].
Qed.

Lemma blocked_ok h b : assoc "markdown" b = Some (JStr "") -> content_ok h b.
Proof. intros H. right. by left. Qed.

(** The candidates of a best effort. *)
Definition candidates (h : list event) (best : list obj) : Prop := Forall (fun r => exists src, fetched h src /\ candidate src r) best.

Lemma candidates_later h h' best : later h h' -> candidates h best -> candidates h' best.
Proof. intros HL H. eapply Forall_impl; [exact H|]. intros r (src & H1 & H2). exists src. split; [by eapply fetched_later|done]. Qed.

Lemma best_effort_clean h label b l : candidates h (b :: l) -> clean h (best_effort_result two_decimals cfg label b l).
Proof.
  intros H. destruct (proj1 (Forall_forall _ _) H _ (best_of_in b l)) as (src & H1 & [G1 G2 G3]). exists src. split; [done|].
  unfold best_effort_result. cbv zeta. split; [split; rewrite ?assoc_oset_ne by done; done|]. right. unfold oget. rewrite assoc_oset_eq. cbn.
  by destruct label.
Qed.

(** The quality gate on a fetched page. *)
Lemma degrade_wp h src label best acc r' best' : fetched h src -> candidates h best -> maybe_degrade src label best = (acc, r', best') ->
  match acc with Some a => clean h a | None => candidates h best' end.
Proof.
  intros HF HB H. destruct (degrade_spec _ _ _ _ _ _ H) as (_ & _ & HA). destruct acc as [a|].
  - destruct HA as [HA HT]. exists src. split_and!; [done|done|by left].
  - destruct HA as [(-> & _)|((b & -> & HA) & _)]; [done|]. apply Forall_app. split; [done|]. repeat constructor. eauto.
Qed.

(** *** Recovery from a barrier *)

Section Recovery.
Context (u : string) (prior : option obj) (cache : bool).
Hypothesis Hcache : cache = true -> force_browser opt = false.
Hypothesis Hheavy : force_browser opt = true \/ lightweight_only opt = false.

Notation countermeasure := (countermeasure sha256 assess classify extract_all_metadata low_yield cfg u prior cache).

Lemma countermeasure_wp n t strategy label s next h : (3 <= rank t)%nat -> (n <= rank t)%nat -> ready n h ->
  (forall s h', ready (S (rank t)) h' -> wpd (fun r h => content_ok h r) (next s) h') ->
  wpd (fun r h => content_ok h r) (countermeasure t strategy label s next) h.
Proof.
  intros H3 Hn HR Hnext. destruct s as [r terminal]. apply wp_then. destruct HR as [R1 R2 R3].
  eapply (gate_wp n); [done|done|done|done| |].
  { intros b h' Hb. apply blocked_ok. unfold attach_recovery. by rewrite assoc_oset_ne. }
  intros h' HL HR HP. apply wp_then. eapply (tier_wp n); [done|done|done|done| |].
  { intros H1 H2. destruct Hheavy; congruence. }
  intros [result|] h2 HL2 HR2 HP2 HF _; [|by apply Hnext]. specialize (HF _ eq_refl).
  destruct (truthy (oget result "barrier" JNull)); [by apply Hnext|].
  destruct (maybe_degrade result label []) as [[[a|] r'] best'] eqn:E; [|by apply Hnext].
  pose proof (degrade_wp h2 result label [] _ _ _ HF ltac:(constructor) E) as HC. cbn in HC.
  assert (HC' : clean h2 (attach_recovery a (record_attempt r strategy "success" None) true)) by (eapply clean_keeps; [by apply keeps_oset|done]).
  apply wp_then, enrich_wp. intros r2 h3 x -> HK _. destruct cache eqn:Ec.
  - eapply store_wp; [by apply ready_quiet, HR2|by apply Hcache|by rewrite polite_quiet| |].
    + eapply clean_later; [apply later_snoc|by eapply clean_keeps].
    + intros r3 h4 _ _ HH. right. right. by left.
  - cbn. eapply content_keeps; [by eexists|exact HK|done].
Qed.

Notation recover_from_barrier := (recover_from_barrier sha256 assess classify extract_all_metadata low_yield cfg u prior cache).

Lemma recover_wp n h initial strategy allow : ready n h -> (n <= 4)%nat \/ allow = false /\ (n <= 5)%nat ->
  wpd (fun r h => content_ok h r) (recover_from_barrier initial strategy allow) h.
Proof.
  intros HR Hn.
  assert (HG : forall s h', wpd (fun r h => content_ok h r) (surrender extract_all_metadata u s) h').
  { intros s h'. apply enriched_wp. left. unfold attach_recovery. rewrite assoc_oset_ne by done. unfold terminal_envelope.
    cbn [assoc app]. by destruct (truthy _); cbn. }
  assert (HB : forall m s h', ready m h' -> (m <= 5)%nat -> wpd (fun r h => content_ok h r)
    (try_browser sha256 assess classify extract_all_metadata low_yield cfg u prior cache s) h').
  { intros m s h' HR' Hm. unfold try_browser. destruct (browser_service_applicable _); [|apply HG].
    eapply (countermeasure_wp m); [cbn; lia|cbn; lia|done|]. intros. apply HG. }
  unfold Fetch.recover_from_barrier. cbv zeta. cbn [fst].
  destruct allow; [|by apply (HB n); [done|lia]]. cbn [andb]. destruct (flaresolverr_applicable _).
  - eapply (countermeasure_wp n); [cbn; lia|cbn; lia|done|]. intros s h' HR'. apply (HB 5%nat); [exact HR'|lia].
  - apply (HB n); [done|lia].
Qed.
End Recovery.

(** *** The browser tiers *)

Definition held (h : list event) (u : string) (result : option obj) : Prop :=
  forall r', result = Some r' -> recoverable h u (page_content r').

Lemma held_later h h' u result : later h h' -> held h u result -> held h' u result.
Proof. intros HL H r' Hr. destruct (H r' Hr) as (r & H1 & H2). exists r. split; [by eapply later_in|done]. Qed.

Section Heavy.
Hypothesis Hforce : force_browser opt = false.

Notation exhausted := (exhausted sha256 extract_all_metadata two_decimals cfg).

Lemma exhausted_wp n u cached best barrier h : ready n h -> last_polite h = Some (u, true) -> candidates h best ->
  assoc "markdown" barrier = None -> wpd (fun r h => content_ok h r) (exhausted u cached best barrier) h.
Proof.
  intros HR HP HC Hb. destruct best as [|b l]; cbn [Fetch.exhausted].
  - apply enriched_wp. left. unfold not_extracted. cbn [app assoc]. rewrite Hb. done.
  - apply wp_then. eapply store_wp; [exact HR|done|done|by apply best_effort_clean|]. intros r' h' HL HP' HC'. apply enriched_wp. by right.
Qed.

Hypothesis Hlight : lightweight_only opt = false.

Lemma substack_wp n u cached result best barrier h : (n <= 6)%nat -> ready n h -> last_polite h = Some (u, true) -> candidates h best ->
  assoc "markdown" barrier = None -> wpd (fun r h => content_ok h r)
    (substack_fallback sha256 assess classify extract_all_metadata low_yield two_decimals cfg u cached result best barrier) h.
Proof.
  intros Hn HR HP HC Hb. destruct result as [r|]; cbn [substack_fallback]; [|by eapply exhausted_wp].
  destruct (_ && _); [|by eapply exhausted_wp]. apply wp_then. eapply (tier_wp n); [done|done|cbn; lia|cbn; lia|by rewrite Hlight|].
  intros answer h' HL HR' HP' HF _. apply (candidates_later _ _ _ HL) in HC.
  destruct (present answer) as [b|] eqn:Ep; [|by eapply exhausted_wp].
  assert (Ha : answer = Some b) by (destruct answer as [[|]|]; by inversion Ep). specialize (HF _ Ha).
  destruct (maybe_degrade b "browser-svc" best) as [[[a|] r'] best'] eqn:E; pose proof (degrade_wp _ _ _ _ _ _ _ HF HC E) as HA.
  - by eapply accept_wp.
  - apply enriched_wp. left. done.
Qed.

Lemma llm_wp n u cached result best barrier h : (n <= 5)%nat -> ready n h -> last_polite h = Some (u, true) -> candidates h best ->
  held h u result -> assoc "markdown" barrier = None -> wpd (fun r h => content_ok h r)
    (llm_tier sha256 assess classify extract_all_metadata low_yield two_decimals cfg u cached result best barrier) h.
Proof.
  intros Hn HR HP HC Hh Hb. destruct result as [r|] eqn:Er; cbn [llm_tier]; [|by apply (substack_wp n); [lia|..]].
  destruct (_ && _); [|by apply (substack_wp n); [lia|..]]. destruct HR as [R1 R2 R3]. cbn [ask bind wp]. split.
  { split_and!; try done; [|by apply Hh]. eapply Forall_impl; [exact R2|]. cbn. intros. lia. }
  intros answer. set (h' := h ++ _). assert (HL : later h h') by (by eexists).
  assert (HR' : ready 6 h').
  { split; [by eapply validated_later| |unfold h'; by rewrite reserved_snoc, R3]. unfold h'. rewrite ranks_snoc. apply Forall_app.
    split; [|cbn; repeat constructor; lia]. eapply Forall_impl; [exact R2|]. cbn. intros. lia. }
  assert (HP' : last_polite h' = Some (u, true)) by (unfold h'; by rewrite polite_quiet).
  apply (candidates_later _ _ _ HL) in HC.
  destruct (present answer) as [x|] eqn:Ep; [|by eapply substack_wp].
  assert (Ha : answer = Some x) by (destruct answer as [[|]|]; by inversion Ep).
  assert (HF : fetched h' x) by (right; exists u, (page_content r); unfold h'; rewrite Ha; apply elem_of_snoc; by right).
  destruct (maybe_degrade x "tier4-llm-recovery" best) as [[[a|] r'] best'] eqn:E; pose proof (degrade_wp _ _ _ _ _ _ _ HF HC E) as HA.
  - by eapply accept_wp.
  - by eapply substack_wp.
Qed.

Lemma flare_wp n u cached result best barrier h : (n <= 4)%nat -> ready n h -> candidates h best -> held h u result ->
  assoc "markdown" barrier = None -> wpd (fun r h => content_ok h r)
    (flare_tier sha256 assess classify extract_all_metadata low_yield two_decimals cfg opt u cached result best barrier) h.
Proof.
  intros Hn [R1 R2 R3] HC Hh Hb. apply wp_then. eapply (gate_wp n); [done|done|done|done|by intros; apply blocked_ok|].
  intros h' HL HR HP. apply wp_then. eapply (tier_wp n); [done|done|cbn; lia|cbn; lia|by rewrite Hlight|].
  intros answer h2 HL2 HR2 HP2 HF _. assert (HLL : later h h2) by (by eapply later_trans).
  apply (candidates_later _ _ _ HLL) in HC. apply (held_later _ _ _ _ HLL) in Hh.
  destruct (present answer) as [f|] eqn:Ep; [|by apply (llm_wp 5)].
  assert (Ha : answer = Some f) by (destruct answer as [[|]|]; by inversion Ep). specialize (HF _ Ha).
  destruct (has "barrier" f).
  - eapply (recover_wp u cached true); [done|by right|exact HR2|right; by split; [|cbn; lia]].
  - destruct (maybe_degrade f "tier35-flaresolverr" best) as [[[a|] r'] best'] eqn:E; pose proof (degrade_wp _ _ _ _ _ _ _ HF HC E) as HA.
    + by eapply accept_wp.
    + by apply (llm_wp 5).
Qed.

Lemma barrier_of_quiet r : assoc "markdown" (barrier_of r) = None.
Proof. unfold barrier_of. by destruct (assoc "barrier" r). Qed.

Lemma page_content_keeps r r' : (forall k, k = "markdown" \/ k = "raw_html_start" -> assoc k r' = assoc k r) -> page_content r' = page_content r.
Proof. intros H. unfold page_content, field, oget. by rewrite !H by tauto. Qed.

(** What the gate leaves of a browser result that carries no barrier may be recovered. *)
Lemma degraded_held h u r label best acc r' best' : Ev (QTier Playwright u) (Some r) ∈ h ->
  maybe_degrade r label best = (acc, r', best') -> acc = None -> truthy (oget r' "barrier" JNull) = false -> recoverable h u (page_content r').
Proof.
  intros HE HD -> HB. destruct (degrade_spec _ _ _ _ _ _ HD) as (HK & HBR & HA). exists r. split; [done|]. split.
  { apply page_content_keeps. intros k [->| ->]; by apply HK. }
  assert (Hbr : assoc "barrier" r' = assoc "barrier" r) by (destruct HBR as [?|[_ ?]]; [done|congruence]).
  split; [unfold oget in *; by rewrite <- Hbr|]. intros Hn _. destruct HA as [(_ & _ & H)|[_ H]]; [|done]. by rewrite (H Hn) in HB.
Qed.

Lemma browser_wp n u cached best h : (n <= 3)%nat -> ready n h -> candidates h best -> wpd (fun r h => content_ok h r)
    (browser_tier sha256 assess classify extract_all_metadata low_yield two_decimals cfg opt u cached best) h.
Proof.
  intros Hn [R1 R2 R3] HC. apply wp_then. eapply (gate_wp n); [done|done|done|done|by intros; apply blocked_ok|].
  intros h' HL HR HP. apply wp_then. eapply (tier_wp n); [done|done|cbn; lia|cbn; lia|by rewrite Hlight|].
  intros answer h2 HL2 HR2 HP2 HF HE. assert (HLL : later h h2) by (by eapply later_trans). apply (candidates_later _ _ _ HLL) in HC.
  destruct (present answer) as [r|] eqn:Ep.
  2: { destruct answer as [x|]; [|eapply (recover_wp u cached true); [done|by right|exact HR2|left; cbn; lia]].
       by apply (flare_wp 4). }
  assert (Ha : answer = Some r) by (destruct answer as [[|]|]; by inversion Ep). specialize (HF _ Ha). specialize (HE _ Ha).
  destruct (content_good u r) as [b good] eqn:Eg. destruct (good || _) eqn:Egood.
  - destruct (maybe_degrade r "tier3-playwright" best) as [[acc r'] best'] eqn:E. pose proof (degrade_wp _ _ _ _ _ _ _ HF HC E) as HA.
    destruct acc as [a|]; [by eapply accept_wp|]. destruct (truthy (oget r' "barrier" JNull)) eqn:Eb.
    + eapply (recover_wp u cached true); [done|by right|exact HR2|left; cbn; lia].
    + apply (flare_wp 4); [done|done|done| |apply barrier_of_quiet]. intros x [= <-]. by eapply degraded_held.
  - destruct (truthy (oget r "barrier" JNull)) eqn:Eb.
    + eapply (recover_wp u cached true); [done|by right|exact HR2|left; cbn; lia].
    + apply (flare_wp 4); [done|done|done| |apply barrier_of_quiet]. intros x [= <-]. exists r. split_and!; [done|done|done|].
      intros _ Hg. rewrite Eg in Hg. cbn in Hg. by rewrite Hg in Egood.
Qed.
End Heavy.

(** *** The light tiers *)

Section Light.
Hypothesis Hforce : force_browser opt = false.

Lemma light_wp n t label u cached best h (Q : obj + list obj -> list event -> Prop) : (n <= rank t <= 2)%nat -> ready n h -> candidates h best ->
  (forall r h', content_ok h' r -> Q (inl r) h') ->
  (forall best' h', ready (S (rank t)) h' -> candidates h' best' -> Q (inr best') h') ->
  wpd Q (light_tier sha256 assess classify extract_all_metadata low_yield cfg opt t label u cached best) h.
Proof.
  intros Hn [R1 R2 R3] HC HL HR. apply wp_then. eapply (gate_wp n); [done|done|done|done|by intros; apply HL, blocked_ok|].
  intros h' HLL HR' HP. apply wp_then. eapply (tier_wp n); [done|done|lia|congruence|lia|].
  intros answer h2 HL2 HR2 HP2 HF _. assert (HL3 : later h h2) by (by eapply later_trans). apply (candidates_later _ _ _ HL3) in HC.
  destruct (present answer) as [r|] eqn:Ep; [|by apply HR].
  assert (Ha : answer = Some r) by (destruct answer as [[|]|]; by inversion Ep). specialize (HF _ Ha).
  destruct (maybe_degrade r label best) as [[[a|] r'] best'] eqn:E; pose proof (degrade_wp _ _ _ _ _ _ _ HF HC E) as HA; [|by apply HR].
  apply wp_then. eapply wp_weaken; [|by eapply accept_wp]. intros x h3 Hx. by apply HL.
Qed.

Lemma ready_mono n m h : (n <= m)%nat -> ready n h -> ready m h.
Proof. intros Hn [H1 H2 H3]. split; [done| |done]. eapply Forall_impl; [exact H2|]. cbn. intros. lia. Qed.

Lemma tiers_wp u cached p h : ready 1 h -> wpd (fun r h => content_ok h r)
  (tiers sha256 assess classify extract_all_metadata low_yield two_decimals cfg opt u cached p) h.
Proof.
  intros HR. unfold tiers. destruct (urlparse u) as [parsed|]; [|done]. cbv zeta.
  assert (HA : forall best h', ready 3 h' -> candidates h' best -> wpd (fun r h => content_ok h r)
    (after_light sha256 assess classify extract_all_metadata low_yield two_decimals cfg opt u cached best) h').
  { intros best h' HR' HC. unfold after_light. destruct (lightweight_only opt) eqn:El; [|by eapply browser_wp].
    unfold lightweight_end. destruct best as [|b l]; apply enriched_wp; [by left|right; by apply best_effort_clean]. }
  assert (H2 : forall best h', ready 2 h' -> candidates h' best -> wpd (fun r h => content_ok h r)
    (await two <- (if negb (shielded p) && negb (is_binary p)
       then light_tier sha256 assess classify extract_all_metadata low_yield cfg opt ContentNegotiation "tier2-content-negotiation" u cached best
       else Ret (inr best));
     match two with inl r => Ret r | inr best => after_light sha256 assess classify extract_all_metadata low_yield two_decimals cfg opt u cached best end) h').
  { intros best h' HR' HC. apply wp_then. destruct (_ && _).
    - eapply (light_wp 2); [cbn; lia|done|done|done|]. intros. by apply HA.
    - cbn. apply HA; [by eapply ready_mono; [|exact HR']; lia|done]. }
  apply wp_then. destruct (mem (path parsed) _ && _).
  - eapply (light_wp 1); [cbn; lia|done|by constructor|done|]. intros. by apply H2.
  - cbn [wp]. apply H2; [by eapply ready_mono; [|exact HR]; lia|by constructor].
Qed.

(** *** The cache *)

Lemma judge_wp h u reply0 c : Ev (QCache u) reply0 ∈ h -> judge_cached sha256 assess classify extract_all_metadata low_yield cfg reply0 = (c, true) ->
  content_ok h (default [] c).
Proof.
  intros HE. unfold judge_cached. destruct (present reply0) as [src|] eqn:Ep; [|done]. intros [= <- HA]. cbn [default].
  assert (reply0 = Some src) as -> by (destruct reply0 as [[|]|]; by inversion Ep).
  destruct (add_quality_spec src) as [HQ HK]. right. right. right. exists u, src. split; [done|].
  assert (HQ' : assoc "quality" (enrich_with_metadata extract_all_metadata (add_quality src)) = Some (quality_json (assessed src))).
  { unfold enrich_with_metadata. by rewrite assoc_oset_ne. }
  rewrite (acceptable_quality _ _ HQ') in HA. apply andb_true_iff in HA as [HA1%negb_true_iff HA2%Z.leb_le]. split; [|done].
  unfold id. split; [|done|done]. unfold enrich_with_metadata. rewrite assoc_oset_ne by done. by apply HK.
Qed.

Lemma pipeline_wp h : validated h -> ranks h = [] -> reserved h = false -> wpd (fun r h => content_ok h r)
  (pipeline sha256 assess classify extract_all_metadata low_yield two_decimals cfg opt url0) h.
Proof.
  intros Hv Hr Hs. unfold pipeline. apply wp_then. eapply (gate_wp 1); [done|by rewrite Hr|done|done|by intros; apply blocked_ok|].
  intros h1 HL HR HP. cbn [ask bind wp]. split; [by destruct HR|]. intros cached. set (h2 := h1 ++ _).
  assert (HR2 : ready 1 h2) by (by apply ready_quiet). assert (HP2 : last_polite h2 = Some (url0, true)) by (unfold h2; by rewrite polite_quiet).
  assert (HE2 : Ev (QCache url0) cached ∈ h2) by (apply elem_of_snoc; by right).
  destruct (judge_cached _ _ _ _ _ _ cached) as [c good] eqn:Ej. destruct good; [by eapply judge_wp|].
  cbn [ask bind wp]. split; [by destruct HR2|]. intros answer. cbv zeta. set (h3 := h2 ++ _).
  assert (HR3 : ready 1 h3) by (by apply ready_quiet). assert (HP3 : last_polite h3 = Some (url0, true)) by (unfold h3; by rewrite polite_quiet).
  destruct (negb _); [|by apply tiers_wp]. cbn [ask bind wp]. split; [by destruct HR3|]. intros cached2. set (h4 := h3 ++ _).
  assert (HE4 : Ev (QCache (redirect_url (head_probe url0 answer))) cached2 ∈ h4) by (apply elem_of_snoc; by right).
  destruct (judge_cached _ _ _ _ _ _ cached2) as [c2 good2] eqn:Ej2. destruct good2; [by eapply judge_wp|].
  apply tiers_wp. by apply ready_quiet.
Qed.
End Light.

Lemma forced_wp h : force_browser opt = true -> validated h -> ranks h = [] -> reserved h = false -> wpd (fun r h => content_ok h r)
  (forced sha256 assess classify extract_all_metadata low_yield two_decimals cfg opt url0) h.
Proof.
  intros Hf Hv Hr Hs. unfold forced. apply wp_then. eapply (gate_wp 1); [done|by rewrite Hr|done|done|by intros; apply blocked_ok|].
  intros h1 HL HR HP. apply wp_then. eapply (tier_wp 1); [done|done|cbn; lia|cbn; lia|congruence|].
  intros answer h2 HL2 HR2 HP2 HF _.
  assert (HG : forall initial, wpd (fun r h => content_ok h r)
    (recover_from_barrier sha256 assess classify extract_all_metadata low_yield cfg url0 None false initial "playwright" true) h2).
  { intros initial. apply (recover_wp url0 None false ltac:(done) ltac:(by left) 4); [done|by left]. }
  destruct (present answer) as [r|] eqn:Ep; [|destruct answer; [apply enriched_wp; by left|apply HG]].
  assert (Ha : answer = Some r) by (destruct answer as [[|]|]; by inversion Ep). specialize (HF _ Ha).
  assert (HE : forall x, assoc "markdown" (not_extracted url0 "" (barrier_of x)) = Some (JStr "")).
  { intros x. unfold not_extracted. cbn [app assoc]. by rewrite barrier_of_quiet. }
  destruct (snd (content_good url0 r)).
  - destruct (maybe_degrade r "tier3-playwright" []) as [[acc r'] best] eqn:E.
    pose proof (degrade_wp h2 r _ [] _ _ _ HF ltac:(constructor) E) as HA. destruct acc as [a|]; [apply enriched_wp; by right|].
    destruct (truthy _); [apply HG|]. destruct best as [|b l]; apply enriched_wp; [left; apply HE|right; by apply best_effort_clean].
  - destruct (truthy _); [apply HG|]. apply enriched_wp. left. apply HE.
Qed.

Lemma destination_wp allow h (Q : option obj -> list event -> Prop) :
  (allow = true -> cve_identifier url0 = true -> Q None h) ->
  (forall e h', assoc "markdown" e = Some (JStr "") -> Q (Some e) h') ->
  (forall h', validated h' -> h' = h \/ h' = h ++ [Ev (QPrivate url0) Public] -> Q None h') ->
  wpd Q (private_destination_error cfg url0 allow) h.
Proof.
  intros H1 H2 H3. unfold private_destination_error. destruct (allow && cve_identifier url0) eqn:E.
  { apply andb_true_iff in E as [? ?]. cbn. auto. }
  destruct (private_url_allowlisted cfg url0) as [[]|] eqn:Ea; [cbn|cbn|done].
  - apply H3; [by left|by left].
  - split; [done|]. intros [|reason|]; [|by apply H2|by apply H2]. apply H3; [right; apply elem_of_snoc; by right|by right].
Qed.

Lemma scrape_wp : wpd (fun r h => content_ok h r)
  (smart_scrape sha256 assess classify extract_all_metadata low_yield two_decimals cfg opt url0) [].
Proof.
  assert (HQ : forall h', h' = [] \/ h' = [] ++ [Ev (QPrivate url0) Public] -> ranks h' = [] /\ reserved h' = false) by (by intros h' [->| ->]).
  unfold smart_scrape. destruct (force_browser opt) eqn:Ef; cbn [negb]; apply wp_then.
  - apply destination_wp; [done|by intros; apply blocked_ok|]. intros h' Hv Hh. destruct (HQ _ Hh). by apply forced_wp.
  - assert (HA : forall h', (validated h' /\ ranks h' = [] /\ reserved h' = false) \/ cve_identifier url0 = true ->
      wpd (fun r h => content_ok h r)
        (await adapted <- ask (QAdapter url0);
         match adapted with
         | Some a => Ret a
         | None => if cve_identifier url0 then await e <- private_destination_error cfg url0 false; Ret (default (unsupported url0) e)
                   else pipeline sha256 assess classify extract_all_metadata low_yield two_decimals cfg opt url0
         end) h').
    { intros h' Hh. cbn [ask bind wp]. split; [split_and!; [done|done|tauto]|]. intros [a|]; cbn [bind].
      - left. apply elem_of_snoc. by right.
      - destruct (cve_identifier url0) eqn:Ec.
        + apply wp_then. apply destination_wp; [done|by intros; apply blocked_ok|by intros; apply blocked_ok].
        + destruct Hh as [(H1 & H2 & H3)|?]; [|done]. apply pipeline_wp; [done|by eapply validated_later; [apply later_snoc|]| |].
          * by rewrite ranks_snoc, H2.
          * by rewrite reserved_snoc, H3. }
    apply destination_wp; [intros; apply HA; by right|by intros; apply blocked_ok|]. intros h' Hv Hh. destruct (HQ _ Hh). apply HA. by left.
Qed.
End Facts.

(** ** Theorems *)

Section Theorems.
Context (sha256 : string -> string) (assess : string -> string -> string -> Z -> bool -> assessment)
        (classify : string -> string -> string -> barrier_info) (extract_all_metadata : string -> json)
        (low_yield : Z -> Z -> string) (two_decimals : Z -> string) (cfg : settings) (opt : options) (url : string)
        (env : list event -> forall q, reply q).

Definition scrape : option obj * list event :=
  run env [] (smart_scrape sha256 assess classify extract_all_metadata low_yield two_decimals cfg opt url).


(** C16.  No challenge page is served: what a scrape returns is the answer of an adapter, or
    has no content, or is content that was fetched in this scrape, or cached, whose
    assessment does not flag a block page, carried unchanged with that assessment; and
    it meets the quality threshold or carries a warning, the cached one always the
    threshold. *)
Theorem scrape_serves_no_challenge :
  match fst scrape with
  | Some r => content_ok sha256 assess classify cfg url (snd scrape) r
  | None => True
  end.
Proof.
  destruct (fst scrape) as [r|] eqn:E; [|done].
  destruct (wp_run _ _ env _ _ (scrape_wp sha256 assess classify extract_all_metadata low_yield two_decimals cfg opt url)) as (_ & H & _).
  by apply H.
Qed.

End Theorems.

(** *** What the model shows of the code *)

Definition demo_assess (markdown _ _ : string) (_ : Z) (_ : bool) : assessment :=
  mkAssessment (if is_empty markdown then 0 else 900000) (if substring_of "captcha" markdown then "fail" else "pass") "pass".
Definition demo_classify (_ _ _ : string) : barrier_info := mkBarrier false None None 0.
Definition demo_options (ignore : bool) : options := mkOptions false false ignore None.
Definition demo_scrape (opt : options) (env : list event -> forall q, reply q) : option obj * list event :=
  scrape (fun s => s) demo_assess demo_classify (fun _ => JNull) (fun _ _ => "thin") (fun _ => "0.50") (mkFetchSettings 500000 "") opt
    "https://site.org/a" env.

(** A site that redirects its HEAD request to a host of the private network. *)
Definition redirecting (_ : list event) (q : Req) : reply q :=
  match q with
  | QPrivate _ => Public
  | QPolite _ _ _ _ => Proceed
  | QHead _ => Some (mkHead 200 "text/html" None "http://169.254.169.254/latest" "")
  | QTier ContentNegotiation u => Some [("markdown", JStr "secret"); ("source", JStr "content-negotiation"); ("url", JStr u)]
  | QAdapter _ | QCache _ | QTier _ _ | QRecover _ _ => None
  | QRecord _ => None
  | QStore _ _ _ => None
  end.

(** The redirect target is fetched and returned, and only the first URL was checked. *)
Lemma redirect_target_not_checked :
  let s := demo_scrape (demo_options false) redirecting in
  (exists r, fst s = Some r /\ assoc "markdown" r = Some (JStr "secret") /\ assoc "url" r = Some (JStr "http://169.254.169.254/latest")) /\
  Forall (fun e => match e with Ev (QPrivate u) _ => u = "https://site.org/a" | _ => True end) (snd s).
Proof. vm_compute. split; [eexists; split_and!; reflexivity|repeat constructor]. Qed.

(** A page that only the browser may see, refused by robots.txt unless it is ignored. *)
Definition robots_refuse (_ : list event) (q : Req) : reply q :=
  match q with
  | QPrivate _ => Public
  | QPolite _ ignore _ _ => if ignore then Proceed else Blocked "robots.txt" JNull
  | QHead _ => None
  | QAdapter _ | QCache _ | QTier _ _ | QRecover _ _ => None
  | QRecord _ => None
  | QStore _ _ _ => None
  end.

(** A caller that ignores robots.txt is refused by the checks of the recovery path. *)
Lemma recovery_forgets_options : option_map (assoc "source") (fst (demo_scrape (demo_options true) robots_refuse)) = Some (Some (JStr "politeness")).
Proof. vm_compute. reflexivity. Qed.

(** The class of the pattern excludes the letter [s], not blanks. *)
Lemma substack_url_cut : substack_match "see https://substack.com/@user/posts now" = Some "substack.com/@u".
Proof. reflexivity. Qed.
