(* ===== verification/JobStore.v ===== *)
(** * The job store ([src/agent-svc/agent/store.py])

    Job records, results, progress counters and the webhook outbox live in
    Valkey.  [Meta] is the JSON document under [job:{id}:meta], [Execution] its
    internal execution marker, [WebhookEvent] one field of the hash
    [job:{id}:webhooks].  Each Lua script is one atomic function on the
    database ([claim_script], [complete_fenced], ...; the scripts of
    [job_execution.py] are here too since they act on the same record); the
    methods of [JobStore] call them as the code does.  Wall-clock readings
    ([now], in microseconds) and ISO timestamps ([iso]) are arguments.

    The theorems: every operation is a step of the abstract job life cycle
    [lifecycle] (a refinement); terminal jobs never change; a job is claimed at
    most once; completion and failure are fenced; terminal outcomes carry their
    webhook intent; the outbox is idempotent per fingerprint and leased. *)

From S2P Require Import Prelude Json Valkey.

(** ** Data *)

Inductive Status := processing | retry_scheduled | completed | failed | cancelled.

Inductive ExState :=
| queued | running | ex_completed | ex_failed | ex_cancelled | outcome_unknown.

#[export] Instance Status_eq_dec : EqDecision Status.
Proof. solve_decision. Defined.
#[export] Instance ExState_eq_dec : EqDecision ExState.
Proof. solve_decision. Defined.

Inductive Checkpoint :=
| WorkerStarted (at_ : string)
| TerminalCheckpoint (status : Status) (at_ : string).

Record Execution := mkExecution {
  version : Z;
  ex_state : ExState;
  fence : Z;
  lease_owner : option string;
  lease_expires_at : option usec;
  pending_operation : option string;
  started_at : option string;
  checkpoint : option Checkpoint;
  failure_code : option string
}.

(** The retry metadata [schedule_retry] writes. *)
Record RetryInfo := mkRetry {
  retry_at : string;
  retry_attempt : Z;
  retry_limit : Z;
  retry_reason : string;
  retry_after : usec
}.

Record Meta := mkMeta {
  id : string;
  kind : string;
  status : Status;
  created_at : string;
  expires_at : string;
  payload : json;
  execution : option Execution;
  error : option string;
  error_code : option string;
  completed_at : option string;
  retry : option RetryInfo
}.

(** The document under [job:{id}:data]; [completed] is kept apart because the
    store overwrites it with the atomic counter. *)
Record JobData := mkData { data_completed : option Z; data_rest : json }.

Inductive WebhookStatus := pending | delivering | delivered | abandoned.

#[export] Instance WebhookStatus_eq_dec : EqDecision WebhookStatus.
Proof. solve_decision. Defined.

Record WebhookEvent := mkEvent {
  webhookId : string;
  url : string;
  event : string;
  body : string;
  headers : list (string * string);
  wstatus : WebhookStatus;
  attempts : Z;
  wlease_owner : option string;
  wlease_expires_at : usec;
  last_error : option string
}.

(** What [build_webhook_intent] returns: a fingerprint and the event. *)
Record WebhookIntent := mkIntent { fingerprint : string; intent_event : WebhookEvent }.

Inductive key :=
| KMeta (job : string)
| KData (job : string)
| KCompleted (job : string)
| KWebhook (job webhook_id : string)
| KFingerprint (job fp : string)
| KPlan (plan : string).

Inductive value :=
| VMeta (m : Meta)
| VData (d : JobData)
| VInt (n : Z)
| VEvent (e : WebhookEvent)
| VStr (s : string)
| VJson (j : json).

#[export] Instance key_eq_dec : EqDecision key.
Proof. solve_decision. Defined.

#[export] Instance key_countable : Countable key.
Proof.
  refine (inj_countable'
    (fun k => match k with
      | KMeta j => (0%nat, j, EmptyString) | KData j => (1%nat, j, EmptyString)
      | KCompleted j => (2%nat, j, EmptyString) | KWebhook j w => (3%nat, j, w)
      | KFingerprint j f => (4%nat, j, f) | KPlan p => (5%nat, p, EmptyString) end)
    (fun t => match t with
      | (0%nat, j, _) => KMeta j | (1%nat, j, _) => KData j | (2%nat, j, _) => KCompleted j
      | (3%nat, j, w) => KWebhook j w | (4%nat, j, f) => KFingerprint j f
      | (_, j, _) => KPlan j end) _).
  by intros [].
Defined.

(** [_default_ttl]. *)
Definition default_ttl : Z := 86400.

Definition is_terminal (st : Status) : bool :=
  match st with completed | failed | cancelled => true | _ => false end.

(** [meta.status ~= 'processing' and meta.status ~= 'retry_scheduled']. *)
Definition is_active (st : Status) : bool := negb (is_terminal st).

(** ** Record updates *)

Definition with_status (m : Meta) (st : Status) : Meta :=
  mkMeta (id m) (kind m) st (created_at m) (expires_at m) (payload m) (execution m)
    (error m) (error_code m) (completed_at m) (retry m).

Definition with_execution (m : Meta) (e : option Execution) : Meta :=
  mkMeta (id m) (kind m) (status m) (created_at m) (expires_at m) (payload m) e
    (error m) (error_code m) (completed_at m) (retry m).

Definition with_error (m : Meta) (err code : option string) : Meta :=
  mkMeta (id m) (kind m) (status m) (created_at m) (expires_at m) (payload m) (execution m)
    err code (completed_at m) (retry m).

Definition with_completed_at (m : Meta) (iso : string) : Meta :=
  mkMeta (id m) (kind m) (status m) (created_at m) (expires_at m) (payload m) (execution m)
    (error m) (error_code m) (Some iso) (retry m).

Definition with_retry (m : Meta) (r : RetryInfo) : Meta :=
  mkMeta (id m) (kind m) (status m) (created_at m) (expires_at m) (payload m) (execution m)
    (error m) (error_code m) (completed_at m) (Some r).

(** The execution marker of a new job. *)
Definition queued_execution : Execution :=
  mkExecution 1 queued 0 None None None None None None.

(** The marker when a job ends: no lease, no pending operation. *)
Definition ended_execution (e : Execution) (st : ExState) (f : Z)
    (cp : option Checkpoint) (code : option string) : Execution :=
  mkExecution (version e) st f None (Some 0) None (started_at e) cp code.

Definition owns (e : Execution) (owner : string) (f : Z) : bool :=
  match lease_owner e with Some o => String.eqb o owner | None => false end
  && (fence e =? f).

Definition lease_of (e : Execution) : usec := default 0 (lease_expires_at e).

(** ** Operations *)

Section Ops.
Context {DB : Type} `{!Valkey key value DB}.
(** [cjson.encode (cjson.decode d)] inside a script: the library that re-encodes
    a result document is not part of the repository. *)
Context (cjson : json -> json).

Definition get_meta (job : string) (db : DB) : option Meta :=
  match vget (KMeta job) db with Some (VMeta m) => Some m | _ => None end.

Definition get_data (job : string) (db : DB) : option JobData :=
  match vget (KData job) db with Some (VData d) => Some d | _ => None end.

Definition get_event (job wid : string) (db : DB) : option WebhookEvent :=
  match vget (KWebhook job wid) db with Some (VEvent e) => Some e | _ => None end.

Definition get_fingerprint (job fp : string) (db : DB) : option string :=
  match vget (KFingerprint job fp) db with Some (VStr s) => Some s | _ => None end.

Definition put_meta (job : string) (m : Meta) (t : Ttl) (db : DB) : DB :=
  vset (KMeta job) (VMeta m) t db.

(** The outbox tail shared by the terminal scripts: record the intent unless
    its fingerprint is already known. *)
Definition put_intent (job : string) (w : option WebhookIntent) (db : DB) : DB :=
  match w with
  | None => db
  | Some w =>
      match vget (KFingerprint job (fingerprint w)) db with
      | Some _ => db
      | None =>
          let wid := webhookId (intent_event w) in
          vset (KFingerprint job (fingerprint w)) (VStr wid) (EX default_ttl)
            (vset (KWebhook job wid) (VEvent (intent_event w)) KEEPTTL db)
      end
  end.

(** [JobStore.create_job]; the UUID is an argument. *)
Definition create_job (job kd : string) (pl : json) (now_iso exp_iso : string) (db : DB) : DB :=
  let m := mkMeta job kd processing now_iso exp_iso (jor pl (JObj []))
             (Some queued_execution) None None None None in
  vset (KCompleted job) (VInt 0) (EX default_ttl) (put_meta job m (EX default_ttl) db).

(** [JobStore.create_plan_execution_job]: consumes the plan and creates the job
    in one script. *)
Definition create_plan_execution_job (plan job : string) (pl : json)
    (now_iso exp_iso : string) (db : DB) : DB * option string :=
  match vget (KPlan plan) db with
  | None => (db, None)
  | Some _ =>
      let m := mkMeta job "plan_execute" processing now_iso exp_iso pl
                 (Some queued_execution) None None None None in
      (vdel (KPlan plan)
         (vset (KCompleted job) (VInt 0) (EX default_ttl) (put_meta job m (EX default_ttl) db)),
       Some job)
  end.

(** [JobStore.get_completed]. *)
Definition get_completed (job : string) (db : DB) : Z :=
  match vget (KCompleted job) db with Some (VInt n) => n | _ => 0 end.

(** [JobStore.increment_completed]: [INCR], which creates a missing counter. *)
Definition increment_completed (job : string) (db : DB) : DB * Z :=
  let n := get_completed job db + 1 in
  (vset (KCompleted job) (VInt n) KEEPTTL db, n).

(** [JobStore.delete_completed_counter]. *)
Definition delete_completed_counter (job : string) (db : DB) : DB :=
  vdel (KCompleted job) db.

(** [JobStore.update_job_progress]. *)
Definition update_job_progress (job : string) (pages : json) (total : option Z)
    (errors robots : json) (filtered : option json) (db : DB) : DB :=
  let rest := JObj ([("pages", jor pages (JArr [])); ("errors", jor errors (JArr []));
                     ("robots_blocked", jor robots (JArr []))]
                    ++ from_option (fun t => [("total", JNum t)]) [] total
                    ++ from_option (fun f => [("filtered_out", f)]) [] filtered) in
  vset (KData job) (VData (mkData (Some (get_completed job db)) rest)) (EX default_ttl) db.

(** [JobStore.get_job]: the record and, if present, its data. *)
Definition get_job (job : string) (db : DB) : option (Meta * option JobData) :=
  match get_meta job db with
  | None => None
  | Some m => Some (m, get_data job db)
  end.

(** [_CLAIM_SCRIPT] and [JobExecutionCoordinator.claim]. *)
Definition claim_script (job owner : string) (expires : usec) (iso : string) (db : DB) : DB * Z :=
  match get_meta job db with
  | None => (db, -1)
  | Some m =>
      if decide (status m <> processing) then (db, 0)
      else match execution m with
           | None => (db, -2)
           | Some e =>
               if negb (version e =? 1) then (db, -2)
               else if decide (ex_state e <> queued) then (db, 0)
               else let f := fence e + 1 in
                    let e' := mkExecution (version e) running f (Some owner) (Some expires)
                                (Some "worker_execution") (Some iso)
                                (Some (WorkerStarted iso)) (failure_code e) in
                    (put_meta job (with_execution m (Some e')) KEEPTTL db, f)
           end
  end.

Definition claim (lease : usec) (job owner : string) (now : usec) (iso : string) (db : DB)
    : DB * option (string * Z) :=
  let '(db', f) := claim_script job owner (now + lease) iso db in
  (db', if f <=? 0 then None else Some (owner, f)).

(** [_HEARTBEAT_SCRIPT] and [heartbeat]. *)
Definition heartbeat (lease : usec) (job owner : string) (f : Z) (now : usec) (db : DB)
    : DB * bool :=
  match get_meta job db with
  | Some m =>
      match execution m with
      | Some e =>
          if is_active (status m) && owns e owner f then
            let e' := mkExecution (version e) (ex_state e) (fence e) (lease_owner e)
                        (Some (now + lease)) (pending_operation e) (started_at e)
                        (checkpoint e) (failure_code e) in
            (put_meta job (with_execution m (Some e')) KEEPTTL db, true)
          else (db, false)
      | None => (db, false)
      end
  | None => (db, false)
  end.

(** [_RELEASE_SCRIPT] and [release]. *)
Definition release (job owner : string) (f : Z) (db : DB) : DB :=
  match get_meta job db with
  | Some m =>
      match execution m with
      | Some e =>
          if owns e owner f then
            let e' := mkExecution (version e) (ex_state e) (fence e) None (Some 0)
                        (pending_operation e) (started_at e) (checkpoint e) (failure_code e) in
            put_meta job (with_execution m (Some e')) KEEPTTL db
          else db
      | None => db
      end
  | None => db
  end.

(** The three modes of [_FAIL_UNKNOWN_SCRIPT]. *)
Inductive UnknownMode :=
| Stale
| Owner (owner : string) (f : Z)
| Legacy.

Definition unknown_guard (mode : UnknownMode) (now : usec) (e : option Execution) : bool :=
  match mode, e with
  | Stale, Some e => bool_decide (ex_state e = running) && (lease_of e <=? now)
  | Owner o f, Some e => owns e o f
  | Legacy, Some _ => false
  | Legacy, None => true
  | _, None => false
  end.

(** [_FAIL_UNKNOWN_SCRIPT]. *)
Definition fail_unknown (job : string) (mode : UnknownMode) (now : usec) (reason iso : string)
    (w : option WebhookIntent) (db : DB) : DB * bool :=
  match get_meta job db with
  | None => (db, false)
  | Some m =>
      if negb (is_active (status m)) then (db, false)
      else if negb (unknown_guard mode now (execution m)) then (db, false)
      else
        let e' := (fun e => ended_execution e outcome_unknown (fence e) (checkpoint e)
                              (Some "OUTCOME_UNKNOWN")) <$> execution m in
        let m' := with_execution (with_completed_at (with_error (with_status m failed)
                    (Some reason) (Some "OUTCOME_UNKNOWN")) iso) e' in
        (put_intent job w (put_meta job m' KEEPTTL db), true)
  end.

(** The worker's identity in [_EXECUTION_CONTEXT]. *)
Record Context_ := mkContext { ctx_job : string; ctx_owner : string; ctx_fence : Z }.

Definition fenced_guard (c : Context_) (now : usec) (m : Meta) (e : Execution) : bool :=
  is_active (status m) && owns e (ctx_owner c) (ctx_fence c) && (now <? lease_of e).

(** [_COMPLETE_FENCED_SCRIPT]. *)
Definition complete_fenced (c : Context_) (job : string) (d : JobData)
    (w : option WebhookIntent) (now : usec) (iso : string) (db : DB) : DB * bool :=
  match get_meta job db with
  | None => (db, false)
  | Some m =>
      match execution m with
      | None => (db, false)
      | Some e =>
          if fenced_guard c now m e then
            let e' := ended_execution e ex_completed (fence e)
                        (Some (TerminalCheckpoint completed iso)) (failure_code e) in
            let m' := with_execution (with_completed_at (with_status m completed) iso) (Some e') in
            let n := match vget (KCompleted job) db with
                     | Some (VInt n) => n | _ => default 0 (data_completed d) end in
            let d' := mkData (Some n) (cjson (data_rest d)) in
            (put_intent job w
               (vset (KData job) (VData d') (EX default_ttl) (put_meta job m' KEEPTTL db)), true)
          else (db, false)
      end
  end.

(** [_FAIL_FENCED_SCRIPT]. *)
Definition fail_fenced (c : Context_) (job err : string) (w : option WebhookIntent)
    (now : usec) (iso : string) (db : DB) : DB * bool :=
  match get_meta job db with
  | None => (db, false)
  | Some m =>
      match execution m with
      | None => (db, false)
      | Some e =>
          if fenced_guard c now m e then
            let e' := ended_execution e ex_failed (fence e)
                        (Some (TerminalCheckpoint failed iso)) (failure_code e) in
            let m' := with_execution (with_completed_at (with_error (with_status m failed)
                        (Some err) (error_code m)) iso) (Some e') in
            (put_intent job w (put_meta job m' KEEPTTL db), true)
          else (db, false)
      end
  end.

(** [_ENQUEUE_WEBHOOK_SCRIPT] and [enqueue_webhook]; [None] is the [nil] of a
    field that expired before its fingerprint. *)
Definition enqueue_webhook (job fp : string) (ev : WebhookEvent) (db : DB)
    : DB * option WebhookEvent :=
  let fresh := mkEvent (webhookId ev) (url ev) (event ev) (body ev) (headers ev)
                 pending 0 (wlease_owner ev) (wlease_expires_at ev) (last_error ev) in
  match get_fingerprint job fp db with
  | Some wid => (db, get_event job wid db)
  | None =>
      (vset (KFingerprint job fp) (VStr (webhookId ev)) (EX default_ttl)
         (vset (KWebhook job (webhookId ev)) (VEvent fresh) KEEPTTL db), Some fresh)
  end.

Definition enqueue_intent (job : string) (w : option WebhookIntent) (db : DB) : DB :=
  match w with
  | None => db
  | Some w => fst (enqueue_webhook job (fingerprint w) (intent_event w) db)
  end.

(** [complete_job] outside the job's own worker: read the record, then write. *)
Definition complete_plain (job : string) (d : JobData) (w : option WebhookIntent)
    (iso : string) (db : DB) : DB * bool :=
  match get_meta job db with
  | None => (db, false)
  | Some m =>
      if decide (status m = processing) then
        let db1 := put_meta job (with_completed_at (with_status m completed) iso)
                     (EX default_ttl) db in
        let d' := mkData (Some (get_completed job db1)) (data_rest d) in
        (enqueue_intent job w (vset (KData job) (VData d') (EX default_ttl) db1), true)
      else (db, false)
  end.

(** [JobStore.complete_job]: fenced inside the job's own worker, a plain
    read and write elsewhere. *)
Definition complete_job (c : option Context_) (job : string) (d : JobData)
    (w : option WebhookIntent) (now : usec) (iso : string) (db : DB) : DB * bool :=
  match c with
  | Some c =>
      if String.eqb (ctx_job c) job then complete_fenced c job d w now iso db
      else complete_plain job d w iso db
  | None => complete_plain job d w iso db
  end.

(** [fail_job] outside the job's own worker. *)
Definition fail_plain (job err : string) (w : option WebhookIntent) (iso : string) (db : DB)
    : DB * bool :=
  match get_meta job db with
  | None => (db, false)
  | Some m =>
      if is_active (status m) then
        let m' := with_completed_at (with_error (with_status m failed) (Some err) (error_code m)) iso in
        (enqueue_intent job w (put_meta job m' (EX default_ttl) db), true)
      else (db, false)
  end.

(** [JobStore.fail_job]. *)
Definition fail_job (c : option Context_) (job err : string) (w : option WebhookIntent)
    (now : usec) (iso : string) (db : DB) : DB * bool :=
  match c with
  | Some c =>
      if String.eqb (ctx_job c) job then fail_fenced c job err w now iso db
      else fail_plain job err w iso db
  | None => fail_plain job err w iso db
  end.

(** [_CANCEL_SCRIPT] and [JobStore.cancel_job]. *)
Definition cancel_job (job : string) (w : option WebhookIntent) (iso : string) (db : DB)
    : DB * bool :=
  match get_meta job db with
  | None => (db, false)
  | Some m =>
      if is_active (status m) then
        let e' := (fun e => ended_execution e ex_cancelled (fence e + 1)
                              (Some (TerminalCheckpoint cancelled iso)) (failure_code e))
                    <$> execution m in
        let m' := with_execution (with_completed_at (with_status m cancelled) iso) e' in
        (put_intent job w (put_meta job m' KEEPTTL db), true)
      else (db, false)
  end.

(** [JobStore.schedule_retry]: a [GET] ([schedule_retry_read]) and a [SET] of
    the changed record ([schedule_retry_write]), two commands. *)
Definition schedule_retry_read (job : string) (db : DB) : option Meta :=
  match get_meta job db with
  | Some m => if decide (status m = processing) then Some m else None
  | None => None
  end.

Definition schedule_retry_write (job : string) (r : RetryInfo) (m : Meta) (db : DB) : DB :=
  put_meta job (with_retry (with_status m retry_scheduled) r) (EX default_ttl) db.

Definition schedule_retry (job : string) (r : RetryInfo) (db : DB) : DB * bool :=
  match schedule_retry_read job db with
  | None => (db, false)
  | Some m => (schedule_retry_write job r m db, true)
  end.

(** [JobStore.resume_retry]. *)
Definition resume_retry (job : string) (db : DB) : DB * bool :=
  match get_meta job db with
  | None => (db, false)
  | Some m =>
      if decide (status m = retry_scheduled) then
        (put_meta job (with_status m processing) (EX default_ttl) db, true)
      else (db, false)
  end.

(** [JobStore.overwrite_job_data]. *)
Definition overwrite_job_data (job : string) (d : JobData) (db : DB) : DB :=
  vset (KData job) (VData (mkData (Some (get_completed job db)) (data_rest d)))
    (EX default_ttl) db.

(** [_CLAIM_WEBHOOK_SCRIPT] and [claim_webhook]. *)
Definition claim_webhook (job wid owner : string) (now lease : usec) (db : DB)
    : DB * option WebhookEvent :=
  match get_event job wid db with
  | None => (db, None)
  | Some ev =>
      if match wstatus ev with delivered | abandoned => true | _ => false end then (db, None)
      else if match wlease_owner ev with Some _ => now <? wlease_expires_at ev | None => false end
      then (db, None)
      else
        let ev' := mkEvent (webhookId ev) (url ev) (event ev) (body ev) (headers ev)
                     delivering (attempts ev) (Some owner) (now + lease) (last_error ev) in
        (vset (KWebhook job wid) (VEvent ev') KEEPTTL db, Some ev')
  end.

(** [_FINISH_WEBHOOK_SCRIPT] and [finish_webhook]. *)
Definition finish_webhook (job wid owner : string) (st : WebhookStatus) (err : string) (db : DB)
    : DB * bool :=
  match get_event job wid db with
  | None => (db, false)
  | Some ev =>
      if match wlease_owner ev with Some o => String.eqb o owner | None => false end then
        let st' := match st with delivered => delivered | abandoned => abandoned | _ => pending end in
        let ev' := mkEvent (webhookId ev) (url ev) (event ev) (body ev) (headers ev)
                     st' (attempts ev + 1) None 0 (Some err) in
        (vset (KWebhook job wid) (VEvent ev') KEEPTTL db, true)
      else (db, false)
  end.

(** ** Listings: [SCAN] replies, each a batch of pipelined [GET]s *)

Fixpoint take_active (keep : Meta -> bool) (limit : nat) (batch : list (option Meta)) : list Meta :=
  match limit, batch with
  | O, _ | _, [] => []
  | S n, None :: b => take_active keep (S n) b
  | S n, Some m :: b => if keep m then m :: take_active keep n b else take_active keep (S n) b
  end.

(** The scan loop shared by [list_active_jobs] and [list_processing_jobs]: a
    list of batches ends with the reply whose cursor is 0. *)
Fixpoint scan_jobs (keep : Meta -> bool) (limit : nat) (batches : list (list (option Meta)))
    : list Meta :=
  match limit, batches with
  | O, _ | _, [] => []
  | S _, b :: bs =>
      let got := take_active keep limit b in
      got ++ scan_jobs keep (limit - length got) bs
  end.

(** [JobStore.list_active_jobs]. *)
Definition list_active_jobs (kd : option string) (st : Status) (limit : nat)
    (batches : list (list (option Meta))) : list Meta :=
  scan_jobs (fun m => bool_decide (status m = st)
      && match kd with None => true | Some k => String.eqb (kind m) k end) limit batches.

(** [JobStore.list_processing_jobs]. *)
Definition list_processing_jobs (limit : nat) (batches : list (list (option Meta))) : list Meta :=
  scan_jobs (fun m => is_active (status m)) limit batches.

(** [JobStore.count_active_jobs]. *)
Definition count_active_jobs (kd : option string) (batches : list (list (option Meta))) : nat :=
  length (filter (fun m => Is_true (bool_decide (status m = processing)
      && match kd with None => true | Some k => String.eqb (kind m) k end))
    (omap (fun x => x) (concat batches))).

(** [JobStore.list_pending_webhooks]: the hash values of each scanned outbox. *)
Definition list_pending_webhooks (limit : nat) (events : list (string * WebhookEvent))
    : list (string * WebhookEvent) :=
  take limit (filter (fun e => Is_true match wstatus (snd e) with
      pending | delivering => true | _ => false end) events).

End Ops.

(** ** Runs of atomic operations *)

Inductive op :=
| OCreate (job kd : string) (pl : json) (now_iso exp_iso : string)
| OCreatePlan (plan job : string) (pl : json) (now_iso exp_iso : string)
| OClaim (lease : usec) (job owner : string) (now : usec) (iso : string)
| OHeartbeat (lease : usec) (job owner : string) (f : Z) (now : usec)
| ORelease (job owner : string) (f : Z)
| OUnknown (job : string) (mode : UnknownMode) (now : usec) (reason iso : string)
    (w : option WebhookIntent)
| OComplete (c : option Context_) (job : string) (d : JobData) (w : option WebhookIntent)
    (now : usec) (iso : string)
| OFail (c : option Context_) (job err : string) (w : option WebhookIntent)
    (now : usec) (iso : string)
| OCancel (job : string) (w : option WebhookIntent) (iso : string)
| OSchedule (job : string) (r : RetryInfo)
| OResume (job : string)
| OIncr (job : string)
| OProgress (job : string) (pages : json) (total : option Z) (errors robots : json)
    (filtered : option json)
| OOverwrite (job : string) (d : JobData)
| ODeleteCounter (job : string)
| OEnqueue (job fp : string) (ev : WebhookEvent)
| OClaimHook (job wid owner : string) (now lease : usec)
| OFinishHook (job wid owner : string) (st : WebhookStatus) (err : string)
| OExpire (k : key).

Section Runs.
Context {DB : Type} `{!Valkey key value DB}.
Context (cjson : json -> json).

Definition step (db : DB) (o : op) : DB :=
  match o with
  | OCreate job kd pl a b => create_job job kd pl a b db
  | OCreatePlan plan job pl a b => fst (create_plan_execution_job plan job pl a b db)
  | OClaim lease job owner now iso => fst (claim lease job owner now iso db)
  | OHeartbeat lease job owner f now => fst (heartbeat lease job owner f now db)
  | ORelease job owner f => release job owner f db
  | OUnknown job mode now reason iso w => fst (fail_unknown job mode now reason iso w db)
  | OComplete c job d w now iso => fst (complete_job cjson c job d w now iso db)
  | OFail c job err w now iso => fst (fail_job c job err w now iso db)
  | OCancel job w iso => fst (cancel_job job w iso db)
  | OSchedule job r => fst (schedule_retry job r db)
  | OResume job => fst (resume_retry job db)
  | OIncr job => fst (increment_completed job db)
  | OProgress job p t e r f => update_job_progress job p t e r f db
  | OOverwrite job d => overwrite_job_data job d db
  | ODeleteCounter job => delete_completed_counter job db
  | OEnqueue job fp ev => fst (enqueue_webhook job fp ev db)
  | OClaimHook job wid owner now lease => fst (claim_webhook job wid owner now lease db)
  | OFinishHook job wid owner st err => fst (finish_webhook job wid owner st err db)
  | OExpire k => vdel k db
  end.

Definition run (db : DB) (ops : list op) : DB := run_ops step db ops.

(** The operation creates the record of [job]. *)
Definition creates (job : string) (o : op) : bool :=
  match o with
  | OCreate j _ _ _ _ | OCreatePlan _ j _ _ _ => String.eqb j job
  | _ => false
  end.

(** A claim of [job] that wins. *)
Definition wins_claim (job : string) (db : DB) (o : op) : bool :=
  match o with
  | OClaim lease j owner now iso =>
      String.eqb j job && match snd (claim lease j owner now iso db) with
                          | Some _ => true | None => false end
  | _ => false
  end.

(** How many claims of [job] a run grants. *)
Fixpoint claims_won (job : string) (db : DB) (ops : list op) : Z :=
  match ops with
  | [] => 0
  | o :: ops => (if wins_claim job db o then 1 else 0) + claims_won job (step db o) ops
  end.

End Runs.

(** ** The life cycle a job record follows *)

(** What the life cycle is about: the public status and, when the record has an
    execution marker, its state, fence and owner. *)
Definition view : Type := Status * option (ExState * Z * option string).

Definition exec_view (e : Execution) : ExState * Z * option string :=
  (ex_state e, fence e, lease_owner e).

Definition view_of (m : Meta) : view := (status m, exec_view <$> execution m).

Definition fresh_view : view := (processing, Some (queued, 0, None)).

(** [rel o]: the owner [o] gives up its lease in this step. *)
Inductive job_step (rel : string -> Prop) : view -> view -> Prop :=
| js_claim f o owner :
    job_step rel (processing, Some (queued, f, o)) (processing, Some (running, f + 1, Some owner))
| js_release st x f o :
    rel o -> job_step rel (st, Some (x, f, Some o)) (st, Some (x, f, None))
| js_wait x : job_step rel (processing, x) (retry_scheduled, x)
| js_resume x : job_step rel (retry_scheduled, x) (processing, x)
| js_end st st' x :                        (* ended from outside a worker *)
    is_active st = true -> is_terminal st' = true -> job_step rel (st, x) (st', x)
| js_end_fenced st st' x f o x' f' :       (* ended by a script, the lease revoked *)
    is_active st = true -> is_terminal st' = true -> f <= f' -> x' <> queued -> x' <> running ->
    job_step rel (st, Some (x, f, o)) (st', Some (x', f', None)).

(** A step of the life cycle, whoever takes it. *)
Definition lifecycle : view -> view -> Prop := job_step (fun _ => True).

Lemma job_step_mono (r1 r2 : string -> Prop) v v' :
  (forall o, r1 o -> r2 o) -> job_step r1 v v' -> job_step r2 v v'.
Proof. intros Hr. destruct 1; econstructor; eauto. Qed.

Lemma job_step_lifecycle r v v' : job_step r v v' -> lifecycle v v'.
Proof. by apply job_step_mono. Qed.

(** No operation changes the version of an execution marker. *)
Definition same_version (m m' : Meta) : Prop :=
  (version <$> execution m) = (version <$> execution m').

#[export] Hint Constructors job_step : grok.

Section Refinement.
Context {DB : Type} `{!Valkey key value DB} `{!ValkeyLaws key value DB}.
Context (cjson : json -> json).
Implicit Types (db : DB) (m : Meta) (job j : string).

Lemma get_meta_put_meta job j m t db :
  get_meta job (put_meta j m t db) = if decide (job = j) then Some m else get_meta job db.
Proof.
  unfold get_meta, put_meta. case_decide as E; [subst j|]; by vk.
Qed.

Lemma get_meta_vset job k v t db :
  k <> KMeta job -> get_meta job (vset k v t db) = get_meta job db.
Proof. intros. unfold get_meta. by vk. Qed.

Lemma get_meta_vdel job k db :
  k <> KMeta job -> get_meta job (vdel k db) = get_meta job db.
Proof. intros. unfold get_meta. by vk. Qed.

Lemma get_meta_put_intent job j w db : get_meta job (put_intent j w db) = get_meta job db.
Proof.
  unfold put_intent. destruct w as [w|]; [|done]. case_match; [done|].
  by rewrite !get_meta_vset.
Qed.

Lemma get_meta_enqueue_webhook job j fp ev db :
  get_meta job (fst (enqueue_webhook j fp ev db)) = get_meta job db.
Proof. unfold enqueue_webhook. case_match; cbn; [done|]. by rewrite !get_meta_vset. Qed.

Lemma get_meta_enqueue_intent job j w db : get_meta job (enqueue_intent j w db) = get_meta job db.
Proof. destruct w; cbn; [apply get_meta_enqueue_webhook|done]. Qed.

(** What one operation may do to the record of one job. *)
Definition allowed job (o : op) (before after : option Meta) : Prop :=
  match before, after with
  | Some m, Some m' =>
      creates job o = true \/ same_version m m' /\
      (view_of m = view_of m' \/ job_step (fun w => exists f, o = ORelease job w f) (view_of m) (view_of m'))
  | Some _, None => o = OExpire (KMeta job)
  | None, Some m' => creates job o = true /\ view_of m' = fresh_view
  | None, None => True
  end.

Lemma allowed_same job o x : allowed job o x x.
Proof. unfold allowed, same_version. destruct x; auto. Qed.

(** An operation that rewrites the record of [j] from [m] to [m']. *)
Lemma allowed_put job o j m m' (x : option Meta) db :
  get_meta j db = Some m ->
  x = (if decide (job = j) then Some m' else get_meta job db) ->
  same_version m m' ->
  view_of m = view_of m' \/ job_step (fun w => exists f, o = ORelease j w f) (view_of m) (view_of m') ->
  allowed job o (get_meta job db) x.
Proof.
  intros Hm -> Hsv Hv. case_decide as E; [subst j; rewrite Hm|apply allowed_same].
  cbn. auto.
Qed.

Lemma owns_owner e owner f :
  owns e owner f = true -> lease_owner e = Some owner /\ fence e = f.
Proof.
  unfold owns. destruct (lease_owner e) as [o|]; cbn; [|done].
  intros [->%String.eqb_eq ->%Z.eqb_eq]%andb_true_iff. done.
Qed.

Ltac same_version_tac :=
  unfold same_version; cbn;
  repeat match goal with H : execution _ = _ |- _ => rewrite H end;
  try match goal with |- context [execution ?m] => destruct (execution m) end; reflexivity.

Lemma allowed_claim job lease j owner now iso db :
  allowed job (OClaim lease j owner now iso) (get_meta job db)
    (get_meta job (fst (claim lease j owner now iso db))).
Proof.
  unfold claim, claim_script. destruct (get_meta j db) as [m|] eqn:Hm; [|apply allowed_same].
  case_decide as Hs; [apply allowed_same|].
  destruct (execution m) as [e|] eqn:He; [|apply allowed_same].
  destruct (negb (version e =? 1)); [apply allowed_same|].
  case_decide as Hq; [apply allowed_same|].
  cbn. eapply (allowed_put _ _ j m); [done|by rewrite get_meta_put_meta|same_version_tac|].
  right. unfold view_of, exec_view. cbn. rewrite He, Hs. cbn. rewrite Hq. constructor.
Qed.

Lemma allowed_heartbeat job lease j owner f now db :
  allowed job (OHeartbeat lease j owner f now) (get_meta job db)
    (get_meta job (fst (heartbeat lease j owner f now db))).
Proof.
  unfold heartbeat. destruct (get_meta j db) as [m|] eqn:Hm; [|apply allowed_same].
  destruct (execution m) as [e|] eqn:He; [|apply allowed_same].
  case_match; [|apply allowed_same]. cbn.
  eapply (allowed_put _ _ j m); [done|by rewrite get_meta_put_meta|same_version_tac|].
  left. unfold view_of, exec_view. cbn. by rewrite He.
Qed.

Lemma allowed_release job j owner f db :
  allowed job (ORelease j owner f) (get_meta job db) (get_meta job (release j owner f db)).
Proof.
  unfold release. destruct (get_meta j db) as [m|] eqn:Hm; [|apply allowed_same].
  destruct (execution m) as [e|] eqn:He; [|apply allowed_same].
  destruct (owns e owner f) eqn:Ho; [|apply allowed_same].
  apply owns_owner in Ho as [Ho _].
  eapply (allowed_put _ _ j m); [done|by rewrite get_meta_put_meta|same_version_tac|].
  right. unfold view_of, exec_view. cbn. rewrite He. cbn. rewrite Ho. constructor. eauto.
Qed.

Lemma allowed_unknown job j mode now reason iso w db :
  allowed job (OUnknown j mode now reason iso w) (get_meta job db)
    (get_meta job (fst (fail_unknown j mode now reason iso w db))).
Proof.
  unfold fail_unknown. destruct (get_meta j db) as [m|] eqn:Hm; [|apply allowed_same].
  destruct (negb (is_active (status m))) eqn:Ha; [apply allowed_same|]. bool_to_prop.
  case_match; [apply allowed_same|]. cbn.
  eapply (allowed_put _ _ j m); [done|by rewrite get_meta_put_intent, get_meta_put_meta|same_version_tac|].
  right. unfold view_of, exec_view. destruct (execution m) as [e|]; cbn.
  - by apply js_end_fenced; cbn; try lia.
  - by apply js_end.
Qed.

Lemma allowed_complete job c j d w now iso db :
  allowed job (OComplete c j d w now iso) (get_meta job db)
    (get_meta job (fst (complete_job cjson c j d w now iso db))).
Proof.
  unfold complete_job.
  assert (Hplain : allowed job (OComplete c j d w now iso) (get_meta job db)
                     (get_meta job (fst (complete_plain j d w iso db)))).
  { unfold complete_plain. destruct (get_meta j db) as [m|] eqn:Hm; [|apply allowed_same].
    case_decide as Hs; [|apply allowed_same]. cbn.
    eapply (allowed_put _ _ j m); [done|by rewrite get_meta_enqueue_intent, get_meta_vset, get_meta_put_meta by done|same_version_tac|].
    right. unfold view_of. cbn. rewrite Hs. by apply js_end. }
  destruct c as [c|]; [|done]. destruct (String.eqb (ctx_job c) j); [|done].
  unfold complete_fenced. destruct (get_meta j db) as [m|] eqn:Hm; [|apply allowed_same].
  destruct (execution m) as [e|] eqn:He; [|apply allowed_same].
  destruct (fenced_guard c now m e) eqn:Hg; [|apply allowed_same].
  unfold fenced_guard in Hg. bool_to_prop. cbn.
  eapply (allowed_put _ _ j m); [done|by rewrite get_meta_put_intent, get_meta_vset, get_meta_put_meta by done|same_version_tac|].
  right. unfold view_of, exec_view. rewrite He. cbn. by apply js_end_fenced; cbn; try lia.
Qed.

Lemma allowed_fail job c j err w now iso db :
  allowed job (OFail c j err w now iso) (get_meta job db)
    (get_meta job (fst (fail_job c j err w now iso db))).
Proof.
  unfold fail_job.
  assert (Hplain : allowed job (OFail c j err w now iso) (get_meta job db)
                     (get_meta job (fst (fail_plain j err w iso db)))).
  { unfold fail_plain. destruct (get_meta j db) as [m|] eqn:Hm; [|apply allowed_same].
    destruct (is_active (status m)) eqn:Hs; [|apply allowed_same]. cbn.
    eapply (allowed_put _ _ j m); [done|by rewrite get_meta_enqueue_intent, get_meta_put_meta|same_version_tac|].
    right. unfold view_of. cbn. by apply js_end. }
  destruct c as [c|]; [|done]. destruct (String.eqb (ctx_job c) j); [|done].
  unfold fail_fenced. destruct (get_meta j db) as [m|] eqn:Hm; [|apply allowed_same].
  destruct (execution m) as [e|] eqn:He; [|apply allowed_same].
  destruct (fenced_guard c now m e) eqn:Hg; [|apply allowed_same].
  unfold fenced_guard in Hg. bool_to_prop. cbn.
  eapply (allowed_put _ _ j m); [done|by rewrite get_meta_put_intent, get_meta_put_meta|same_version_tac|].
  right. unfold view_of, exec_view. rewrite He. cbn. by apply js_end_fenced; cbn; try lia.
Qed.

Lemma allowed_cancel job j w iso db :
  allowed job (OCancel j w iso) (get_meta job db) (get_meta job (fst (cancel_job j w iso db))).
Proof.
  unfold cancel_job. destruct (get_meta j db) as [m|] eqn:Hm; [|apply allowed_same].
  destruct (is_active (status m)) eqn:Ha; [|apply allowed_same]. cbn.
  eapply (allowed_put _ _ j m); [done|by rewrite get_meta_put_intent, get_meta_put_meta|same_version_tac|].
  right. unfold view_of, exec_view. destruct (execution m) as [e|]; cbn.
  - by apply js_end_fenced; cbn; try lia.
  - by apply js_end.
Qed.

Lemma allowed_retry job j db :
  (forall r, allowed job (OSchedule j r) (get_meta job db)
               (get_meta job (fst (schedule_retry j r db)))) /\
  allowed job (OResume j) (get_meta job db) (get_meta job (fst (resume_retry j db))).
Proof.
  unfold schedule_retry, schedule_retry_read, schedule_retry_write, resume_retry.
  destruct (get_meta j db) as [m|] eqn:Hm; [|split; intros; apply allowed_same].
  split; [intros r|]; case_decide as Hs; try apply allowed_same; cbn;
    (eapply (allowed_put _ _ j m); [done|by rewrite get_meta_put_meta|same_version_tac|]);
    right; unfold view_of; cbn; rewrite Hs; constructor.
Qed.

Lemma allowed_create job j kd pl a b plan db :
  allowed job (OCreate j kd pl a b) (get_meta job db) (get_meta job (create_job j kd pl a b db)) /\
  allowed job (OCreatePlan plan j pl a b) (get_meta job db)
    (get_meta job (fst (create_plan_execution_job plan j pl a b db))).
Proof.
  unfold create_job, create_plan_execution_job. split; [|case_match; [cbn|apply allowed_same]];
    rewrite ?get_meta_vdel, ?get_meta_vset, get_meta_put_meta by done;
    (case_decide as E; [subst j|apply allowed_same]);
    unfold allowed; cbn; rewrite String.eqb_refl; destruct (get_meta job db); auto.
Qed.

Lemma step_allowed job o db :
  allowed job o (get_meta job db) (get_meta job (step cjson db o)).
Proof.
  destruct o; cbn [step];
    eauto using allowed_claim, allowed_heartbeat, allowed_release, allowed_unknown,
      allowed_complete, allowed_fail, allowed_cancel.
  - by eapply (allowed_create _ _ _ _ _ _ EmptyString).
  - by eapply (allowed_create _ _ EmptyString).
  - by apply allowed_retry.
  - by apply allowed_retry.
  - cbn. rewrite get_meta_vset by done. apply allowed_same.
  - unfold update_job_progress. rewrite get_meta_vset by done. apply allowed_same.
  - unfold overwrite_job_data. rewrite get_meta_vset by done. apply allowed_same.
  - unfold delete_completed_counter. rewrite get_meta_vdel by done. apply allowed_same.
  - rewrite get_meta_enqueue_webhook. apply allowed_same.
  - unfold claim_webhook. repeat case_match; cbn; rewrite ?get_meta_vset by done; apply allowed_same.
  - unfold finish_webhook. repeat case_match; cbn; rewrite ?get_meta_vset by done; apply allowed_same.
  - destruct (decide (k = KMeta job)) as [->|Hne].
    + unfold get_meta at 2. rewrite vget_vdel_eq. unfold allowed. by destruct (get_meta job db).
    + rewrite get_meta_vdel by done. apply allowed_same.
Qed.

Lemma run_absent job ops db :
  forallb (fun o => negb (creates job o)) ops = true ->
  get_meta job db = None -> get_meta job (run cjson db ops) = None.
Proof.
  revert db; induction ops as [|o ops IH]; intros db Hc Hn; [done|].
  cbn in Hc. bool_to_prop. cbn. apply IH; [done|].
  pose proof (step_allowed job o db) as Ha. rewrite Hn in Ha. unfold allowed in Ha.
  destruct (get_meta job (step cjson db o)); [|done]. destruct Ha; congruence.
Qed.

Lemma run_refines job ops db m m' :
  forallb (fun o => negb (creates job o)) ops = true ->
  get_meta job db = Some m -> get_meta job (run cjson db ops) = Some m' ->
  rtc lifecycle (view_of m) (view_of m').
Proof.
  revert db m; induction ops as [|o ops IH]; intros db m Hc Hm Hm'.
  { cbn in Hm'. rewrite Hm in Hm'. simplify_eq. constructor. }
  cbn in Hc. bool_to_prop.
  change (run cjson db (o :: ops)) with (run cjson (step cjson db o) ops) in Hm'.
  pose proof (step_allowed job o db) as Ha. rewrite Hm in Ha. unfold allowed in Ha.
  destruct (get_meta job (step cjson db o)) as [m1|] eqn:E.
  - destruct Ha as [Ha|[_ [Ha|Ha]]]; [congruence| |].
    + rewrite Ha. by eapply IH.
    + eapply rtc_l; [exact (job_step_lifecycle _ _ _ Ha)|]. by eapply IH.
  - by rewrite run_absent in Hm'.
Qed.


(** *** Terminal jobs *)

Lemma job_step_terminal r v v' :
  job_step r v v' -> is_terminal (fst v) = true -> fst v' = fst v.
Proof. destruct 1; cbn; try done; destruct st; done. Qed.

Lemma lifecycle_terminal v v' :
  rtc lifecycle v v' -> is_terminal (fst v) = true -> fst v' = fst v.
Proof.
  induction 1 as [|v1 v2 v3 Hs _ IH]; intros Ht; [done|].
  pose proof (job_step_terminal _ _ _ Hs Ht) as He. rewrite IH; [done|]. by rewrite He.
Qed.

(** A job that completed, failed or was cancelled keeps that status under
    every later sequence of operations (late completions and failures,
    cancellations, retries, recovery scans) until its record expires. *)
Theorem terminal_status_is_final job ops db m m' :
  forallb (fun o => negb (creates job o)) ops = true ->
  get_meta job db = Some m -> is_terminal (status m) = true ->
  get_meta job (run cjson db ops) = Some m' ->
  status m' = status m.
Proof.
  intros Hc Hm Ht Hm'.
  exact (lifecycle_terminal _ _ (run_refines _ _ _ _ _ Hc Hm Hm') Ht).
Qed.

(** *** Claims *)

(** The record can still be claimed. *)
Definition claimable (o : option Meta) : bool :=
  match o with
  | Some m => match execution m with Some e => bool_decide (ex_state e = queued) | None => false end
  | None => false
  end.

Lemma claimable_view m :
  claimable (Some m) =
  match snd (view_of m) with Some (x, _, _) => bool_decide (x = queued) | None => false end.
Proof. unfold view_of. cbn. by destruct (execution m). Qed.

Lemma job_step_claimable r v v' :
  job_step r v v' ->
  match snd v with Some (x, _, _) => x <> queued | None => True end ->
  match snd v' with Some (x, _, _) => x <> queued | None => True end.
Proof. destruct 1; cbn; done. Qed.

Lemma claimable_step job o db :
  creates job o = false -> claimable (get_meta job db) = false ->
  claimable (get_meta job (step cjson db o)) = false.
Proof.
  intros Hc Hq. pose proof (step_allowed job o db) as Ha. unfold allowed in Ha.
  destruct (get_meta job (step cjson db o)) as [m'|] eqn:E'; [|done].
  destruct (get_meta job db) as [m|] eqn:E; [|destruct Ha; congruence].
  rewrite claimable_view in *. destruct Ha as [Ha|[_ [<-|Ha]]]; [congruence|done|].
  apply job_step_claimable in Ha.
  - destruct (snd (view_of m')) as [[[x f] o']|]; [|done]. by apply bool_decide_eq_false.
  - destruct (snd (view_of m)) as [[[x f] o']|]; [|done]. by apply bool_decide_eq_false in Hq.
Qed.

Lemma wins_claim_claimable job db o :
  wins_claim job db o = true ->
  claimable (get_meta job db) = true /\ claimable (get_meta job (step cjson db o)) = false.
Proof.
  destruct o; try done. cbn [wins_claim step]. intros [->%String.eqb_eq Hw]%andb_true_iff.
  unfold claim, claim_script in *. destruct (get_meta job db) as [m|] eqn:Hm; [|done].
  case_decide; [done|]. destruct (execution m) as [e|] eqn:He; [|done].
  destruct (negb (version e =? 1)); [done|]. case_decide as Hq; [done|].
  split; cbn.
  - rewrite He. by apply bool_decide_eq_true.
  - rewrite get_meta_put_meta, decide_True by done. done.
Qed.

Lemma claims_won_bound job ops : forall db,
  forallb (fun o => negb (creates job o)) ops = true ->
  0 <= claims_won cjson job db ops <= if claimable (get_meta job db) then 1 else 0.
Proof.
  induction ops as [|o ops IH]; intros db Hc; [cbn; case_match; lia|].
  cbn in Hc. bool_to_prop. cbn [claims_won]. specialize (IH (step cjson db o) H0).
  destruct (wins_claim job db o) eqn:Hw.
  - apply wins_claim_claimable in Hw as [-> H2]. rewrite H2 in IH. lia.
  - destruct (claimable (get_meta job db)) eqn:Hq; [case_match; lia|].
    rewrite (claimable_step _ _ _ H Hq) in IH. lia.
Qed.

(** However many workers and restarts try, a job is claimed at most once,
    and never once it has left the queue: work that may have started an
    external operation is not started again. *)
Theorem claimed_at_most_once job ops db :
  forallb (fun o => negb (creates job o)) ops = true ->
  claims_won cjson job db ops <= 1 /\
  (claimable (get_meta job db) = false -> claims_won cjson job db ops = 0).
Proof.
  intros Hc. pose proof (claims_won_bound job ops db Hc) as H. case_match; split; try lia; done.
Qed.

End Refinement.

(** ** Fencing, terminal intents and the outbox *)

Section Fencing.
Context {DB : Type} `{!Valkey key value DB} `{!ValkeyLaws key value DB}.
Context (cjson : json -> json).
Implicit Types (db : DB) (m : Meta) (job : string).

(** The worker [c] still owns the job and its lease has not run out. *)
Definition lease_live (c : Context_) (job : string) (now : usec) (db : DB) : Prop :=
  exists m e, get_meta job db = Some m /\ execution m = Some e /\
    is_active (status m) = true /\ lease_owner e = Some (ctx_owner c) /\
    fence e = ctx_fence c /\ now < lease_of e.

Lemma fenced_guard_true c now m e :
  fenced_guard c now m e = true <->
  is_active (status m) = true /\ lease_owner e = Some (ctx_owner c) /\
  fence e = ctx_fence c /\ now < lease_of e.
Proof.
  unfold fenced_guard, owns. rewrite !andb_true_iff, Z.eqb_eq, Z.ltb_lt.
  destruct (lease_owner e) as [o|]; [rewrite String.eqb_eq|]; naive_solver.
Qed.

Lemma get_data_put_intent job j w db : get_data job (put_intent j w db) = get_data job db.
Proof.
  unfold put_intent. destruct w as [w|]; [|done]. case_match; [done|]. unfold get_data. by vk.
Qed.

(** Inside a job's worker, [complete_job] and [fail_job] succeed exactly
    when the worker still holds the lease: the record is active, owner and
    fence match, and the lease is unexpired.  A rejected call changes nothing;
    an accepted one sets the terminal status, ends the execution marker, and
    (for a completion) stores the result with the count of the atomic page
    counter. *)
Theorem terminal_updates_are_fenced c d err w now iso db :
  let job := ctx_job c in
  let '(dbc, okc) := complete_job cjson (Some c) job d w now iso db in
  let '(dbf, okf) := fail_job (Some c) job err w now iso db in
  (okc = true <-> lease_live c job now db) /\ (okf = true <-> lease_live c job now db) /\
  (okc = false -> dbc = db) /\ (okf = false -> dbf = db) /\
  (okc = true -> exists m e, get_meta job dbc = Some m /\ status m = completed /\
     execution m = Some e /\ ex_state e = ex_completed /\ lease_owner e = None /\
     get_data job dbc = Some (mkData (Some (match vget (KCompleted job) db with
        | Some (VInt n) => n | _ => default 0 (data_completed d) end)) (cjson (data_rest d)))) /\
  (okf = true -> exists m e, get_meta job dbf = Some m /\ status m = failed /\
     error m = Some err /\ execution m = Some e /\ ex_state e = ex_failed /\ lease_owner e = None).
Proof.
  intros job. unfold complete_job, fail_job. subst job. rewrite String.eqb_refl.
  unfold complete_fenced, fail_fenced, lease_live.
  destruct (get_meta (ctx_job c) db) as [m|] eqn:Hm; [|split_and!; naive_solver].
  destruct (execution m) as [e|] eqn:He; [|split_and!; naive_solver].
  pose proof (fenced_guard_true c now m e) as Hg.
  destruct (fenced_guard c now m e) eqn:E.
  - destruct Hg as [Hg _]. specialize (Hg eq_refl).
    assert (Hlive : exists m0 e0, Some m = Some m0 /\ execution m0 = Some e0 /\
      is_active (status m0) = true /\ lease_owner e0 = Some (ctx_owner c) /\
      fence e0 = ctx_fence c /\ now < lease_of e0) by eauto 10.
    split; [done|]. split; [done|]. split; [done|]. split; [done|]. split; intros _.
    + eexists _, _. rewrite get_meta_put_intent, get_meta_vset, get_meta_put_meta,
        decide_True by done. split_and!; try done.
      rewrite get_data_put_intent. unfold get_data. by vk.
    + eexists _, _. rewrite get_meta_put_intent, get_meta_put_meta,
        decide_True by done. split_and!; done.
  - split_and!; try done; (split; [done|]); intros (m' & e' & ? & ? & ?); simplify_eq;
      destruct Hg as [_ Hg]; by rewrite Hg.
Qed.

(** *** Terminal intents *)

(** The intent [w] is in the outbox of [job]: its fingerprint leads to an
    event, [w]'s own unless the fingerprint was already recorded in [old]. *)
Definition intent_recorded (job : string) (w : WebhookIntent) (old new : DB) : Prop :=
  match get_fingerprint job (fingerprint w) old with
  | Some wid => get_fingerprint job (fingerprint w) new = Some wid /\
                get_event job wid new = get_event job wid old
  | None => get_fingerprint job (fingerprint w) new = Some (webhookId (intent_event w)) /\
            get_event job (webhookId (intent_event w)) new = Some (intent_event w)
  end.

(** Fingerprint keys hold webhook identifiers. *)
Definition fingerprints_ok (db : DB) : Prop :=
  forall job fp v, vget (KFingerprint job fp) db = Some v -> exists s, v = VStr s.

Lemma fingerprints_ok_vset k v t db :
  (forall job fp, k <> KFingerprint job fp) -> fingerprints_ok db ->
  fingerprints_ok (vset k v t db).
Proof. intros Hk Hok j fp v'. rewrite vget_vset_ne by auto. apply Hok. Qed.

Lemma put_intent_recorded job w db0 db :
  fingerprints_ok db ->
  (forall fp, vget (KFingerprint job fp) db = vget (KFingerprint job fp) db0) ->
  (forall wid, get_event job wid db = get_event job wid db0) ->
  intent_recorded job w db0 (put_intent job (Some w) db).
Proof.
  intros Hok Hfp Hev. unfold intent_recorded, put_intent, get_fingerprint in *.
  rewrite <- Hfp. destruct (vget (KFingerprint job (fingerprint w)) db) as [v|] eqn:E.
  - destruct (Hok _ _ _ E) as [s ->]. by rewrite E.
  - unfold get_event in *. by vk.
Qed.

(** A terminal transition and its webhook intent are one atomic step: when
    a worker completes or fails its job, a request cancels it, or recovery
    fails it as unknown, the intent passed along is in the outbox of the
    resulting database (once per fingerprint), and otherwise the database is
    untouched. *)
Theorem terminal_intent_recorded c job d err mode reason w now iso db :
  fingerprints_ok db ->
  Forall (fun r : DB * bool => if snd r then intent_recorded job w db (fst r) else fst r = db)
    [complete_fenced cjson c job d (Some w) now iso db;
     fail_fenced c job err (Some w) now iso db;
     cancel_job job (Some w) iso db;
     fail_unknown job mode now reason iso (Some w) db].
Proof.
  intros Hok.
  assert (Hput : forall m t, intent_recorded job w db
            (put_intent job (Some w) (put_meta job m t db))).
  { intros m t. unfold put_meta. apply put_intent_recorded.
    - intros j fp v. vk. apply Hok.
    - intros fp. by vk.
    - intros wid. unfold get_event. by vk. }
  repeat apply Forall_cons_2; [| | | |apply Forall_nil_2].
  - unfold complete_fenced. destruct (get_meta job db); [|done].
    destruct (execution m); [|done]. destruct (fenced_guard _ _ _ _); [|done]. cbn.
    unfold put_meta. apply put_intent_recorded.
    + intros j fp v. vk. apply Hok.
    + intros fp. by vk.
    + intros wid. unfold get_event. by vk.
  - unfold fail_fenced. repeat (case_match; try done). cbn. apply Hput.
  - unfold cancel_job. repeat (case_match; try done). cbn. apply Hput.
  - unfold fail_unknown. repeat (case_match; try done). cbn. apply Hput.
Qed.

(** *** The outbox *)

(** Enqueueing is idempotent per fingerprint: a second enqueue, even with
    another freshly generated webhook id, returns the first event and leaves
    the database alone. *)
Theorem enqueue_idempotent job fp ev ev' db :
  get_fingerprint job fp db = None ->
  let '(db1, r1) := enqueue_webhook job fp ev db in
  enqueue_webhook job fp ev' db1 = (db1, r1) /\
  exists e, r1 = Some e /\ webhookId e = webhookId ev /\ wstatus e = pending /\ attempts e = 0.
Proof.
  intros Hn. unfold enqueue_webhook. rewrite Hn.
  unfold get_fingerprint. vk. unfold get_event. vk. split; [done|]. by eexists.
Qed.

(** Operations of the deliverers on one outbox event. *)
Inductive hook_op :=
| HClaim (owner : string) (now lease : usec)
| HFinish (owner : string) (st : WebhookStatus) (err : string).

Definition hook_step (job wid : string) (db : DB) (o : hook_op) : DB :=
  match o with
  | HClaim owner now lease => fst (claim_webhook job wid owner now lease db)
  | HFinish owner st err => fst (finish_webhook job wid owner st err db)
  end.

(** [o] is another deliverer's operation before time [limit]. *)
Definition foreign (owner : string) (limit : usec) (o : hook_op) : bool :=
  match o with
  | HClaim _ now _ => now <? limit
  | HFinish owner' _ _ => negb (String.eqb owner' owner)
  end.

Definition leased (job wid owner : string) (limit : usec) (db : DB) : Prop :=
  exists ev, get_event job wid db = Some ev /\ wlease_owner ev = Some owner /\
             wlease_expires_at ev = limit /\ wstatus ev = delivering.

Lemma leased_foreign job wid owner limit o db :
  leased job wid owner limit db -> foreign owner limit o = true ->
  hook_step job wid db o = db.
Proof.
  intros (ev & He & Ho & Hl & Hs) Hf. destruct o as [o now lease|o st err]; cbn in *.
  - unfold claim_webhook. rewrite He, Hs, Ho, Hl, Hf. done.
  - unfold finish_webhook. rewrite He, Ho. rewrite String.eqb_sym. bool_to_prop. by rewrite Hf.
Qed.

(** Deliveries of one event are exclusive: after a deliverer claimed it,
    and until the deliverer reports or its lease runs out, no sequence of other
    deliverers' claims and reports changes the event, and each such claim is
    refused. *)
Theorem delivery_lease_exclusive job wid owner now lease db db1 ev ops :
  claim_webhook job wid owner now lease db = (db1, Some ev) ->
  forallb (foreign owner (now + lease)) ops = true ->
  run_ops (hook_step job wid) db1 ops = db1 /\
  (forall o now' lease', now' < now + lease ->
     snd (claim_webhook job wid o now' lease' db1) = None) /\
  attempts ev = match get_event job wid db with Some e => attempts e | None => 0 end.
Proof.
  intros Hc Hf.
  assert (Hl : leased job wid owner (now + lease) db1 /\
               attempts ev = match get_event job wid db with Some e => attempts e | None => 0 end).
  { unfold claim_webhook in Hc. destruct (get_event job wid db) as [e|]; [|done].
    repeat (case_match; try done); simplify_eq; (split; [|done]);
      eexists; (split; [unfold get_event; by vk|done]). }
  destruct Hl as [Hl Ha]. split_and!; [| |done].
  - induction ops as [|o ops IH]; [done|]. cbn in Hf. bool_to_prop. cbn.
    rewrite (leased_foreign _ _ _ _ _ _ Hl) by done. by apply IH.
  - intros o now' lease' Hlt. destruct Hl as (e & He & Ho & Hx & Hs).
    unfold claim_webhook. rewrite He, Hs, Ho, Hx. by rewrite (proj2 (Z.ltb_lt _ _)).
Qed.

(** A delivered or abandoned event is never claimed again, and a report is
    accepted only from the deliverer holding the claim; it counts one attempt,
    ends the lease, and makes the event final or pending again. *)
Theorem delivery_outcomes job wid owner st err now lease db ev :
  get_event job wid db = Some ev ->
  (wstatus ev = delivered \/ wstatus ev = abandoned ->
     claim_webhook job wid owner now lease db = (db, None)) /\
  (wlease_owner ev <> Some owner -> finish_webhook job wid owner st err db = (db, false)) /\
  (wlease_owner ev = Some owner ->
     exists ev', get_event job wid (fst (finish_webhook job wid owner st err db)) = Some ev' /\
       snd (finish_webhook job wid owner st err db) = true /\
       webhookId ev' = webhookId ev /\ body ev' = body ev /\
       attempts ev' = attempts ev + 1 /\ wlease_owner ev' = None /\
       wstatus ev' = (if bool_decide (st = delivered \/ st = abandoned) then st else pending)).
Proof.
  intros He. unfold claim_webhook, finish_webhook. rewrite He. split_and!.
  - by intros [->| ->].
  - intros Hne. destruct (wlease_owner ev) as [o|]; [|done].
    destruct (String.eqb_spec o owner); congruence.
  - intros Ho. rewrite Ho, String.eqb_refl. cbn. eexists. split; [unfold get_event; by vk|].
    split_and!; try done. cbn. by destruct st.
Qed.

(** *** The window of the unscripted transitions *)

(** [schedule_retry] is not atomic: when a cancellation from another
    process runs between its [GET] and its [SET], the cancellation succeeds and
    is then overwritten, so the cancelled job is active again. *)
Theorem schedule_retry_loses_cancel job r w iso db m :
  schedule_retry_read job db = Some m ->
  let '(db1, ok) := cancel_job job w iso db in
  ok = true /\ (status <$> get_meta job db1) = Some cancelled /\
  (status <$> get_meta job (schedule_retry_write job r m db1)) = Some retry_scheduled.
Proof.
  unfold schedule_retry_read, cancel_job, schedule_retry_write.
  destruct (get_meta job db) as [m0|]; [|done].
  case_decide as Hs; [|done]. intros [= ->]. rewrite Hs. cbn.
  rewrite get_meta_put_intent, !get_meta_put_meta, !decide_True by done. done.
Qed.

End Fencing.

(** ** Witnesses

    The theorems at a concrete database: one queued crawl job. *)

Definition demo_db : gmap key value :=
  create_job "j" "crawl" (JObj [("url", JStr "https://example.com")]) "t0" "t1" empty.

Definition demo_event (wid : string) : WebhookEvent :=
  mkEvent wid "https://hook.example.com" "completed" "{}" [] pending 0 None 0 None.

Definition demo_intent : WebhookIntent := mkIntent "fp" (demo_event "w1").

Definition demo_ctx : Context_ := mkContext "j" "worker" 1.

Definition demo_data : JobData := mkData None (JObj []).

(** Claimed by one worker, refused to another, kept alive, cancelled, then a
    late completion. *)
Definition demo_ops : list op :=
  [OClaim (sec 45) "j" "worker" 0 "t2"; OClaim (sec 45) "j" "other" 1 "t2";
   OHeartbeat (sec 45) "j" "worker" 1 (sec 15); OCancel "j" (Some demo_intent) "t3";
   OComplete (Some demo_ctx) "j" demo_data None (sec 20) "t4"].

Definition demo_running : gmap key value :=
  fst (claim (sec 45) "j" "worker" 0 "t2" demo_db).


Lemma terminal_status_is_final_witness :
  exists m m', get_meta "j" (run (fun j => j) demo_db (take 4 demo_ops)) = Some m /\
    get_meta "j" (run (fun j => j) demo_db demo_ops) = Some m' /\
    is_terminal (status m) = true /\ status m' = status m.
Proof.
  eexists _, _. split; [vm_compute; reflexivity|]. split; [vm_compute; reflexivity|].
  split; [reflexivity|].
  eapply (terminal_status_is_final (fun j => j) "j" (drop 4 demo_ops)
            (run (fun j => j) demo_db (take 4 demo_ops)));
    [reflexivity|vm_compute; reflexivity|reflexivity|vm_compute; reflexivity].
Defined.

Lemma claimed_at_most_once_witness :
  claims_won (fun j => j) "j" demo_db demo_ops = 1 /\
  claims_won (fun j => j) "j" demo_db demo_ops <= 1 /\
  claims_won (fun j => j) "j" demo_running demo_ops = 0.
Proof.
  split; [vm_compute; reflexivity|].
  split; [exact (proj1 (claimed_at_most_once (fun j => j) "j" demo_ops demo_db eq_refl))|].
  exact (proj2 (claimed_at_most_once (fun j => j) "j" demo_ops demo_running eq_refl) eq_refl).
Defined.

Lemma terminal_updates_are_fenced_witness :
  snd (complete_job (fun j => j) (Some demo_ctx) "j" demo_data None (sec 20) "t3" demo_running) = true /\
  snd (complete_job (fun j => j) (Some demo_ctx) "j" demo_data None (sec 46) "t3" demo_running) = false /\
  lease_live demo_ctx "j" (sec 20) demo_running.
Proof.
  split; [vm_compute; reflexivity|]. split; [vm_compute; reflexivity|].
  pose proof (terminal_updates_are_fenced (fun j => j) demo_ctx demo_data "e" None
    (sec 20) "t3" demo_running) as H.
  apply (proj1 (proj1 H)). vm_compute. reflexivity.
Defined.

Lemma demo_fingerprints_ok : fingerprints_ok demo_running.
Proof.
  assert (Hd : fingerprints_ok demo_db).
  { unfold demo_db, create_job, put_meta.
    do 2 (apply fingerprints_ok_vset; [intros; congruence|]). by intros ? ? ? ?. }
  unfold demo_running, claim, claim_script, put_meta. destruct (get_meta "j" demo_db) as [m|]; [|done].
  case_decide; [done|]. destruct (execution m) as [e|]; [|done].
  destruct (negb _); [done|]. case_decide; [done|]. by apply fingerprints_ok_vset; [intros; congruence|].
Qed.

Lemma terminal_intent_recorded_witness :
  snd (complete_fenced (fun j => j) demo_ctx "j" demo_data (Some demo_intent) (sec 20) "t3"
         demo_running) = true /\
  intent_recorded "j" demo_intent demo_running
    (fst (complete_fenced (fun j => j) demo_ctx "j" demo_data (Some demo_intent) (sec 20) "t3"
            demo_running)).
Proof.
  split; [vm_compute; reflexivity|].
  pose proof (terminal_intent_recorded (fun j => j) demo_ctx "j" demo_data "e" Legacy "r"
    demo_intent (sec 20) "t3" demo_running demo_fingerprints_ok) as H.
  apply Forall_inv in H. revert H.
  replace (snd (complete_fenced (fun j => j) demo_ctx "j" demo_data (Some demo_intent) (sec 20) "t3"
         demo_running)) with true by (vm_compute; reflexivity).
  exact (fun H => H).
Defined.

Lemma enqueue_idempotent_witness :
  get_fingerprint "j" "fp" demo_db = None /\
  snd (enqueue_webhook "j" "fp" (demo_event "w2") (fst (enqueue_webhook "j" "fp" (demo_event "w1") demo_db)))
  = Some (demo_event "w1").
Proof.
  split; [vm_compute; reflexivity|].
  pose proof (enqueue_idempotent "j" "fp" (demo_event "w1") (demo_event "w2") demo_db eq_refl) as H.
  cbn [fst]. etransitivity; [apply (f_equal snd (proj1 H))|vm_compute; reflexivity].
Defined.

Definition demo_hooked : gmap key value :=
  fst (enqueue_webhook "j" "fp" (demo_event "w1") demo_db).

Definition demo_delivering : WebhookEvent :=
  mkEvent "w1" "https://hook.example.com" "completed" "{}" [] delivering 0 (Some "a") (sec 30) None.

Lemma delivery_lease_exclusive_witness :
  let r := claim_webhook "j" "w1" "a" 0 (sec 30) demo_hooked in
  snd r = Some demo_delivering /\
  run_ops (hook_step "j" "w1") (fst r) [HClaim "b" (sec 5) (sec 30); HFinish "b" delivered ""] = fst r.
Proof.
  intros r. assert (Hr : snd r = Some demo_delivering) by (vm_compute; reflexivity).
  split; [exact Hr|].
  refine (proj1 (delivery_lease_exclusive "j" "w1" "a" 0 (sec 30) demo_hooked (fst r) demo_delivering
     [HClaim "b" (sec 5) (sec 30); HFinish "b" delivered ""] _ eq_refl)).
  fold r. clearbody r. rewrite <- Hr. apply surjective_pairing.
Defined.

Lemma delivery_outcomes_witness :
  get_event "j" "w1" demo_hooked = Some (demo_event "w1") /\
  finish_webhook "j" "w1" "b" delivered "" demo_hooked = (demo_hooked, false).
Proof.
  assert (H : get_event "j" "w1" demo_hooked = Some (demo_event "w1")) by (vm_compute; reflexivity).
  split; [exact H|].
  apply (proj1 (proj2 (delivery_outcomes "j" "w1" "b" delivered "" 0 0 demo_hooked _ H))).
  discriminate.
Defined.

Lemma schedule_retry_loses_cancel_witness :
  exists m, schedule_retry_read "j" demo_running = Some m /\
    (status <$> get_meta "j" (schedule_retry_write "j" (mkRetry "t9" 1 3 "429" (sec 5)) m
       (fst (cancel_job "j" None "t3" demo_running)))) = Some retry_scheduled.
Proof.
  eexists. assert (H : schedule_retry_read "j" demo_running = Some _) by (vm_compute; reflexivity).
  split; [exact H|].
  exact (proj2 (proj2 (schedule_retry_loses_cancel "j" (mkRetry "t9" 1 3 "429" (sec 5)) None "t3"
    demo_running _ H))).
Defined.
