(* ===== verification/Webhook.v ===== *)
(** * Webhook delivery ([src/agent-svc/agent/webhook.py])

    [build_webhook_intent] turns a job event into an outbox record,
    [send_outbox_event] performs the validated POSTs of one delivery,
    [deliver_outbox_event] claims, sends and reports, [replay_pending_webhooks]
    does so for the pending events after a restart.  The network is a record of
    oracles ([Net]): what destination validation and POST number [n] answer.
    [uuid4], the clock and the hash functions of [hashlib]/[hmac] are arguments.

    The theorems: no POST without an accepted validation, at most
    [MAX_RETRIES] POSTs and all of the recorded bytes; the classification of a
    single recorded attempt; a delivery reports exactly once; a replay delivers
    every pending event it can claim. *)

From S2P Require Import Prelude Strings Url HostPolicy Json Valkey JobStore.

Definition MAX_RETRIES : nat := 3.

(** What [client.post] does. *)
Inductive PostResult :=
| PStatus (code : Z)
| PTimeout                (* httpx.TimeoutException *)
| PError.                 (* any other exception *)

#[export] Instance PostResult_eq_dec : EqDecision PostResult.
Proof. solve_decision. Defined.

(** The outside world during one delivery: validation and POST attempt [n]
    (from 1) and the time the claim is made. *)
Record Net := mkNet {
  net_now : usec;
  net_validate : nat -> Verdict;
  net_post : nat -> PostResult
}.

(** A request that left the process. *)
Record Post := mkPost { post_url : string; post_body : string; post_headers : list (string * string) }.

(** ** Building the record *)

Section Intent.
Context (sha256 : string -> string) (sign : string -> string -> string) (webhook_secret : string).

(** [data or ([] if data is None else data)]. *)
Definition event_data (data : json) : json :=
  if truthy data then data else match data with JNull => JArr [] | _ => data end.

(** [event not in events_filter], for the list of names the request model allows. *)
Definition event_wanted (events_filter : json) (event : string) : bool :=
  negb (truthy events_filter)
  || match events_filter with JArr l => jmem event l | _ => false end.

(** What the fingerprint covers. *)
Definition fingerprint_doc (url : string) (cfg : json) (event job : string) (data : json)
    (success : bool) (err : option string) : json :=
  JObj [("url", JStr url); ("type", JStr event); ("id", JStr job);
        ("success", JBool success); ("error", jopt err); ("data", event_data data);
        ("metadata", jget_default cfg "metadata" (JObj []))].

Definition payload_doc (wid : string) (cfg : json) (event job : string) (data : json)
    (success : bool) (err : option string) : json :=
  JObj [("type", JStr event); ("id", JStr job); ("webhookId", JStr wid);
        ("success", JBool success); ("error", jopt err); ("data", event_data data);
        ("metadata", jget_default cfg "metadata" (JObj []))].

(** [build_webhook_intent]; [wid] is the fresh UUID, [cfg] is [JNull] for an
    absent configuration. *)
Definition build_webhook_intent (wid : string) (cfg : json) (event job : string) (data : json)
    (success : bool) (err : option string) : option WebhookIntent :=
  if negb (truthy cfg) || negb (truthy (jget cfg "url")) then None
  else if negb (event_wanted (jget cfg "events") event) then None
  else match jget cfg "url" with
       | JStr url =>
           let fp := sha256 (dumps_canonical (fingerprint_doc url cfg event job data success err)) in
           let body := dumps (payload_doc wid cfg event job data success err) in
           let headers := ("Content-Type", "application/json")
             :: (if String.eqb webhook_secret EmptyString then []
                 else [("X-Webhook-Signature", "sha256=" +:+ sign webhook_secret body)]) in
           Some (mkIntent fp (mkEvent wid url event body headers pending 0 None 0 None))
       | _ => None                          (* the request model makes it a string *)
       end.

(** The fresh identifier is not part of the fingerprint. *)
Lemma build_fingerprint_stable wid wid' cfg event job data success err w w' :
  build_webhook_intent wid cfg event job data success err = Some w ->
  build_webhook_intent wid' cfg event job data success err = Some w' ->
  fingerprint w = fingerprint w'.
Proof.
  unfold build_webhook_intent. destruct (negb _ || negb _); [done|].
  destruct (negb _); [done|]. destruct (jget cfg "url"); try done. intros. by simplify_eq.
Qed.

Lemma build_some_all_ids wid wid' cfg event job data success err w :
  build_webhook_intent wid cfg event job data success err = Some w ->
  exists w', build_webhook_intent wid' cfg event job data success err = Some w' /\
             webhookId (intent_event w') = wid'.
Proof.
  unfold build_webhook_intent. destruct (negb _ || negb _); [done|].
  destruct (negb _); [done|]. destruct (jget cfg "url"); try done. intros _. by eexists.
Qed.

(** What the record contains. *)
Lemma build_event wid cfg ev job data success err w :
  build_webhook_intent wid cfg ev job data success err = Some w ->
  webhookId (intent_event w) = wid /\ event (intent_event w) = ev /\
  body (intent_event w) = dumps (payload_doc wid cfg ev job data success err).
Proof.
  unfold build_webhook_intent. destruct (negb _ || negb _); [done|].
  destruct (negb _); [done|]. destruct (jget cfg "url"); try done. by intros [= <-].
Qed.

End Intent.

(** ** Sending *)

(** The retry loop of [ensure_deliverable_webhook_destination] from [attempt]
    on, [togo] attempts remaining. *)
Fixpoint ensure_from (validate : nat -> Verdict) (attempt togo : nat) : bool :=
  match togo with
  | O => false
  | S togo =>
      match validate attempt with
      | Accepted => true
      | DNSRetryable => ensure_from validate (S attempt) togo
      | Rejected => false
      end
  end.

Definition ensure_deliverable_webhook_destination (validate : nat -> Verdict) (max_retries : nat)
    : bool := ensure_from validate 1 max_retries.

(** The POST loop of [_send_outbox_event] from [attempt] on: the requests sent
    and the final status. *)
Fixpoint post_from (ev : WebhookEvent) (post : nat -> PostResult) (attempt togo : nat)
    : list Post * WebhookStatus :=
  match togo with
  | O => ([], pending)
  | S togo =>
      let req := mkPost (url ev) (body ev) (headers ev) in
      match post attempt with
      | PStatus code =>
          if code <? 500 then ([req], delivered)
          else let '(l, st) := post_from ev post (S attempt) togo in (req :: l, st)
      | PTimeout | PError =>
          let '(l, st) := post_from ev post (S attempt) togo in (req :: l, st)
      end
  end.

(** [_send_outbox_event]. *)
Definition send_outbox_event (net : Net) (ev : WebhookEvent) : list Post * WebhookStatus :=
  if ensure_deliverable_webhook_destination (net_validate net) MAX_RETRIES
  then post_from ev (net_post net) 1 MAX_RETRIES
  else ([], abandoned).

(** [deliver_recorded_webhook]: one attempt; [size] is the length of the body. *)
Inductive Recorded := r_delivered | r_retry | r_rejected.

#[export] Instance Recorded_eq_dec : EqDecision Recorded.
Proof. solve_decision. Defined.

Definition deliver_recorded_webhook (is_bytes : bool) (size : Z) (v : Verdict) (p : PostResult)
    : Recorded :=
  if negb is_bytes || (1048576 <? size) then r_rejected
  else match v with
       | DNSRetryable => r_retry
       | Rejected => r_rejected
       | Accepted =>
           match p with
           | PStatus code =>
               if (200 <=? code) && (code <? 300) then r_delivered
               else if (500 <=? code) || (code =? 429) then r_retry else r_rejected
           | PTimeout | PError => r_retry    (* httpx.HTTPError, TimeoutError *)
           end
       end.

(** ** Deliveries against the outbox *)

(** The lease of [claim_webhook]. *)
Definition webhook_lease : usec := sec 30.

(** [None if status == "delivered" else status], as [finish_webhook] stores it
    ([error or ""]). *)
Definition finish_error (st : WebhookStatus) : string :=
  match st with
  | delivered => "" | abandoned => "abandoned" | pending => "pending" | delivering => "delivering"
  end.

Section Deliver.
Context {DB : Type} `{!Valkey key value DB}.

(** [_deliver_outbox_event]; [owner] is the fresh UUID. *)
Definition deliver_outbox_event (job : string) (ev : WebhookEvent) (owner : string) (net : Net)
    (db : DB) : DB * list Post :=
  let '(db1, claimed) := claim_webhook job (webhookId ev) owner (net_now net) webhook_lease db in
  match claimed with
  | None => (db1, [])
  | Some c =>
      let '(posts, st) := send_outbox_event net c in
      (fst (finish_webhook job (webhookId ev) owner st (finish_error st) db1), posts)
  end.

(** [deliver_webhook] inside a job's worker: persist, then deliver inline. *)
Definition deliver_webhook (sha256 : string -> string) (sign : string -> string -> string)
    (secret : string) (wid owner : string) (net : Net) (cfg : json) (event job : string)
    (data : json) (success : bool) (err : option string) (db : DB) : DB * list Post :=
  match build_webhook_intent sha256 sign secret wid cfg event job data success err with
  | None => (db, [])
  | Some w =>
      let '(db1, canonical) := enqueue_webhook job (fingerprint w) (intent_event w) db in
      match canonical with
      | None => (db1, [])    (* a fingerprint outliving its event: the script renews
                                the expiry of the hash with every fingerprint it sets *)
      | Some ev => deliver_outbox_event job ev owner net db1
      end
  end.

(** [replay_pending_webhooks], the deliveries awaited one after the other. *)
Fixpoint replay_pending_webhooks (events : list (string * WebhookEvent)) (owner : nat -> string)
    (net : nat -> Net) (n : nat) (db : DB) : DB * nat :=
  match events with
  | [] => (db, n)
  | (job, ev) :: l =>
      let db1 := fst (deliver_outbox_event job ev (owner n) (net n) db) in
      replay_pending_webhooks l owner net (S n) db1
  end.

End Deliver.

(** ** Theorems *)

Lemma ensure_from_true validate attempt togo :
  ensure_from validate attempt togo = true <->
  exists n, (attempt <= n < attempt + togo)%nat /\ validate n = Accepted /\
    forall i, (attempt <= i < n)%nat -> validate i = DNSRetryable.
Proof.
  revert attempt; induction togo as [|togo IH]; intros attempt; cbn.
  { split; [done|]. intros (n & ? & _). lia. }
  destruct (validate attempt) eqn:E.
  - split; [|done]. intros _. exists attempt. split_and!; [lia|lia|done|]. intros; lia.
  - rewrite IH. split; intros (n & Hn & Ha & Hi).
    + exists n. split_and!; [lia|lia|done|]. intros i Hi'.
      destruct (decide (i = attempt)) as [->|]; [done|]. apply Hi. lia.
    + exists n. assert (n <> attempt) by congruence. split_and!; [lia|lia|done|].
      intros i Hi'. apply Hi. lia.
  - split; [done|]. intros (n & Hn & Ha & Hi).
    destruct (decide (n = attempt)) as [->|]; [congruence|]. specialize (Hi attempt). rewrite E in Hi.
    by discriminate Hi; lia.
Qed.

(** The answer ends the POST loop. *)
Definition answered (p : PostResult) : bool :=
  match p with PStatus c => c <? 500 | _ => false end.

Lemma post_from_spec ev post togo : forall attempt,
  let '(posts, st) := post_from ev post attempt togo in
  (length posts <= togo)%nat /\
  Forall (fun p => p = mkPost (url ev) (body ev) (headers ev)) posts /\
  match st with
  | delivered => exists n, posts = replicate (S n) (mkPost (url ev) (body ev) (headers ev)) /\
      answered (post (attempt + n)%nat) = true /\
      forall i, (i < n)%nat -> answered (post (attempt + i)%nat) = false
  | pending => length posts = togo /\
      forall i, (i < togo)%nat -> answered (post (attempt + i)%nat) = false
  | _ => False
  end.
Proof.
  induction togo as [|togo IH]; intros attempt; cbn; [split_and!; [lia|done|done|lia]|].
  assert (Hstep : answered (post attempt) = false ->
    forall l st, post_from ev post (S attempt) togo = (l, st) ->
    (S (length l) <= S togo)%nat /\
    Forall (fun p => p = mkPost (url ev) (body ev) (headers ev))
      (mkPost (url ev) (body ev) (headers ev) :: l) /\
    match st with
    | delivered => exists n, mkPost (url ev) (body ev) (headers ev) :: l
          = replicate (S n) (mkPost (url ev) (body ev) (headers ev)) /\
        answered (post (attempt + n)%nat) = true /\
        forall i, (i < n)%nat -> answered (post (attempt + i)%nat) = false
    | pending => S (length l) = S togo /\
        forall i, (i < S togo)%nat -> answered (post (attempt + i)%nat) = false
    | _ => False
    end).
  { intros Ha l st E. specialize (IH (S attempt)). rewrite E in IH.
    destruct IH as (H1 & H2 & H3). split_and!; [lia|by constructor|].
    assert (Hi : forall n, (forall i, (i < n)%nat -> answered (post (S attempt + i)%nat) = false) ->
                 forall i, (i < S n)%nat -> answered (post (attempt + i)%nat) = false).
    { intros n Hn [|i] Hi; [by rewrite Nat.add_0_r|].
      rewrite Nat.add_succ_r. apply Hn. lia. }
    destruct st; try done.
    - destruct H3 as [H3 H4]. split; [lia|]. by apply Hi.
    - destruct H3 as (n & -> & H4 & H5). exists (S n). split_and!; [done| |by apply Hi].
      by rewrite Nat.add_succ_r. }
  destruct (post attempt) as [code| |] eqn:E; cbn in Hstep.
  - destruct (code <? 500) eqn:Hc.
    + split_and!; [cbn; lia|by repeat constructor|]. exists O. rewrite Nat.add_0_r, E.
      split_and!; [done|done|lia].
    + destruct (post_from _ _ _ _) as [l st] eqn:El. by apply Hstep.
  - destruct (post_from _ _ _ _) as [l st] eqn:El. by apply Hstep.
  - destruct (post_from _ _ _ _) as [l st] eqn:El. by apply Hstep.
Qed.

(** The outbound guard of [_send_outbox_event]: nothing is sent unless
    validation accepted the destination, after at most two transient DNS
    failures; then at most [MAX_RETRIES] requests leave, each with the recorded
    URL, body and headers; the result is [delivered] exactly when some attempt
    got an answer below 500 (the last one sent), [pending] when all three
    attempts failed, and [abandoned] when validation did not pass. *)
Theorem send_outbox_event_guarded net ev :
  let '(posts, st) := send_outbox_event net ev in
  (posts <> [] -> exists n, (1 <= n <= MAX_RETRIES)%nat /\ net_validate net n = Accepted /\
     forall i, (1 <= i < n)%nat -> net_validate net i = DNSRetryable) /\
  (length posts <= MAX_RETRIES)%nat /\
  Forall (fun p => p = mkPost (url ev) (body ev) (headers ev)) posts /\
  match st with
  | delivered => posts <> [] /\ answered (net_post net (length posts)) = true
  | pending => length posts = MAX_RETRIES /\
      forall i, (1 <= i <= MAX_RETRIES)%nat -> answered (net_post net i) = false
  | abandoned => posts = []
  | delivering => False
  end.
Proof.
  unfold send_outbox_event, ensure_deliverable_webhook_destination.
  destruct (ensure_from _ _ _) eqn:E; [|by split_and!; cbn; try lia].
  apply ensure_from_true in E as (n & Hn & Ha & Hi).
  pose proof (post_from_spec ev (net_post net) MAX_RETRIES 1) as H.
  destruct (post_from _ _ _ _) as [posts st]. destruct H as (H1 & H2 & H3).
  split; [intros _; exists n; split_and!; [lia|lia|done|done]|]. split_and!; [done|done|].
  destruct st; try done.
  - destruct H3 as [H3 H4]. split; [done|]. intros i Hi'. specialize (H4 (i - 1)%nat).
    replace (1 + (i - 1))%nat with i in H4 by lia. apply H4. lia.
  - destruct H3 as (k & -> & Hk & _). split; [done|]. by rewrite length_replicate.
Qed.

(** The network of a delivery whose destination is validated with the resolver's
    answers [dns n]. *)
Definition net_of (now : usec) (dns : nat -> Dns) (post : nat -> PostResult) (ev : WebhookEvent) : Net :=
  mkNet now (fun n => validate_outbound_webhook_url (dns n) (url ev)) post.

(** End to end, the outbox never posts to an internal destination: if any
    request leaves for an event, then at one of the at most three validations
    its URL was an http(s) URL whose host resolved to unrestricted addresses
    only. *)
Theorem outbox_posts_only_to_public_hosts now dns post ev :
  fst (send_outbox_event (net_of now dns post ev) ev) <> [] ->
  exists n r, (1 <= n <= MAX_RETRIES)%nat /\ urlparse (url ev) = Some r /\
    mem (lower (scheme r)) ["http"; "https"] = true /\ public_host (dns n) (hostname r).
Proof.
  unfold send_outbox_event, ensure_deliverable_webhook_destination. cbn [net_validate net_of].
  destruct (ensure_from _ _ _) eqn:E; [|done]. intros _.
  apply ensure_from_true in E as (n & Hn & Ha & _).
  apply accepted_public in Ha as (r & Hp & Hm & Hpub). exists n, r. split_and!; [lia|lia|done|done|done].
Qed.

Section Outbox.
Context {DB : Type} `{!Valkey key value DB} `{!ValkeyLaws key value DB}.
Implicit Types (db : DB) (job wid owner : string) (ev : WebhookEvent).

(** [claim_webhook] grants the event at time [now]. *)
Definition deliverable (now : usec) (ev : WebhookEvent) : bool :=
  match wstatus ev with
  | delivered | abandoned => false
  | _ => match wlease_owner ev with Some _ => wlease_expires_at ev <=? now | None => true end
  end.

Lemma claim_webhook_granted job wid owner now lease db :
  match get_event job wid db with
  | Some ev =>
      if deliverable now ev then
        let ev' := mkEvent (webhookId ev) (url ev) (event ev) (body ev) (headers ev)
                     delivering (attempts ev) (Some owner) (now + lease) (last_error ev) in
        claim_webhook job wid owner now lease db = (vset (KWebhook job wid) (VEvent ev') KEEPTTL db, Some ev')
      else claim_webhook job wid owner now lease db = (db, None)
  | None => claim_webhook job wid owner now lease db = (db, None)
  end.
Proof.
  unfold claim_webhook. destruct (get_event job wid db) as [ev|]; [|done].
  unfold deliverable. destruct (wstatus ev); try done;
    (destruct (wlease_owner ev) as [o|]; [|done]);
    rewrite Z.leb_antisym; by destruct (now <? wlease_expires_at ev).
Qed.

Lemma get_event_vset job wid v t db :
  get_event job wid (vset (KWebhook job wid) (VEvent v) t db) = Some v.
Proof. unfold get_event. by vk. Qed.

Lemma get_event_vset_ne job wid job' wid' v t db :
  (job', wid') <> (job, wid) ->
  get_event job' wid' (vset (KWebhook job wid) (VEvent v) t db) = get_event job' wid' db.
Proof. intros Hne. unfold get_event. rewrite vget_vset_ne; [done|congruence]. Qed.

Lemma deliver_outbox_event_spec job ev owner net db :
  let '(db', posts) := deliver_outbox_event job ev owner net db in
  (forall job' wid', (job', wid') <> (job, webhookId ev) ->
     get_event job' wid' db' = get_event job' wid' db) /\
  match get_event job (webhookId ev) db with
  | Some e =>
      if deliverable (net_now net) e then
        let claimed := mkEvent (webhookId e) (url e) (event e) (body e) (headers e)
          delivering (attempts e) (Some owner) (net_now net + webhook_lease) (last_error e) in
        let st := snd (send_outbox_event net claimed) in
        posts = fst (send_outbox_event net claimed) /\
        get_event job (webhookId ev) db' = Some (mkEvent (webhookId e) (url e) (event e) (body e)
          (headers e) (match st with delivered => delivered | abandoned => abandoned | _ => pending end)
          (attempts e + 1) None 0 (Some (finish_error st)))
      else db' = db /\ posts = []
  | None => db' = db /\ posts = []
  end.
Proof.
  unfold deliver_outbox_event.
  pose proof (claim_webhook_granted job (webhookId ev) owner (net_now net) webhook_lease db) as H.
  destruct (get_event job (webhookId ev) db) as [e|] eqn:He; [|by rewrite H].
  destruct (deliverable (net_now net) e); [|by rewrite H].
  rewrite H. destruct (send_outbox_event net _) as [posts st] eqn:Es.
  unfold finish_webhook. rewrite get_event_vset. cbn [wlease_owner]. rewrite String.eqb_refl.
  cbn [fst snd]. split; [|split; [done|by rewrite get_event_vset]].
  intros job' wid' Hne. by rewrite !get_event_vset_ne.
Qed.

(** One delivery reports exactly once: an event that is final, or leased by
    another deliverer, is neither sent nor touched; any other event is claimed,
    its recorded bytes are sent, and its status, attempt count and lease are
    updated with the result.  No other event changes. *)
Theorem delivery_reports_once job ev owner net db :
  let '(db', posts) := deliver_outbox_event job ev owner net db in
  (forall job' wid', (job', wid') <> (job, webhookId ev) ->
     get_event job' wid' db' = get_event job' wid' db) /\
  match get_event job (webhookId ev) db with
  | Some e =>
      if deliverable (net_now net) e then
        exists e', get_event job (webhookId ev) db' = Some e' /\
          attempts e' = attempts e + 1 /\ wlease_owner e' = None /\ body e' = body e /\
          Forall (fun p => post_url p = url e /\ post_body p = body e) posts /\
          (wstatus e' = delivered \/ wstatus e' = abandoned \/ wstatus e' = pending) /\
          (wstatus e' = delivered -> posts <> []) /\ (wstatus e' = abandoned -> posts = [])
      else db' = db /\ posts = []
  | None => db' = db /\ posts = []
  end.
Proof.
  pose proof (deliver_outbox_event_spec job ev owner net db) as H.
  destruct (deliver_outbox_event _ _ _ _ _) as [db' posts]. destruct H as [Hf H]. split; [done|].
  destruct (get_event job (webhookId ev) db) as [e|]; [|done].
  destruct (deliverable _ _); [|done]. destruct H as [-> H]. eexists. split; [exact H|]. cbn [attempts wlease_owner body wstatus].
  set (c := mkEvent _ _ _ _ _ _ _ _ _ _) in *.
  unfold send_outbox_event. destruct (ensure_deliverable_webhook_destination _ _).
  - pose proof (post_from_spec c (net_post net) MAX_RETRIES 1) as Hp.
    destruct (post_from _ _ _ _) as [posts st]. cbn [fst snd]. destruct Hp as (_ & Hp & Hs).
    split_and!; try done.
    + eapply Forall_impl; [exact Hp|]. by intros p ->.
    + destruct st; auto.
    + destruct st; try done. destruct Hs as (n & -> & _). done.
    + by destruct st.
  - cbn. split_and!; auto.
Qed.

(** The destination validates and answers 2xx at the first attempt. *)
Definition net_works (net : Net) : Prop :=
  net_validate net 1 = Accepted /\ net_post net 1 = PStatus 200.

Lemma send_works net ev : net_works net -> snd (send_outbox_event net ev) = delivered.
Proof.
  intros [Hv Hp]. unfold send_outbox_event, ensure_deliverable_webhook_destination, MAX_RETRIES.
  cbn. by rewrite Hv, Hp.
Qed.

Definition event_key (p : string * WebhookEvent) : string * string := (fst p, webhookId (snd p)).

(** The listed events as they are in the database, all deliverable. *)
Definition listed_pending (events : list (string * WebhookEvent)) (net : nat -> Net) (db : DB)
    : Prop :=
  Forall (fun p => get_event (fst p) (webhookId (snd p)) db = Some (snd p) /\
                   forall n, deliverable (net_now (net n)) (snd p) = true) events.

Lemma replay_spec (events : list (string * WebhookEvent)) (owner : nat -> string)
    (net : nat -> Net) : (forall n, net_works (net n)) -> forall k db,
  NoDup (event_key <$> events) -> listed_pending events net db ->
  let '(db', n) := replay_pending_webhooks events owner net k db in
  n = (k + length events)%nat /\
  Forall (fun p => exists e, get_event (fst p) (webhookId (snd p)) db' = Some e /\
                             wstatus e = delivered /\ attempts e = attempts (snd p) + 1) events /\
  forall job wid, (job, wid) ∉ (event_key <$> events) ->
    get_event job wid db' = get_event job wid db.
Proof.
  intros Hw. induction events as [|[job ev] evs IH]; intros k db Hnd Hp.
  { cbn. split_and!; [lia|constructor|done]. }
  cbn [replay_pending_webhooks]. apply NoDup_cons in Hnd as [Hni Hnd].
  apply Forall_cons in Hp as [[He Hd] Hp]. cbn [fst snd] in *.
  pose proof (deliver_outbox_event_spec job ev (owner k) (net k) db) as Hs.
  destruct (deliver_outbox_event _ _ _ _ _) as [db1 posts]. cbn [fst] in *.
  rewrite He, Hd in Hs. destruct Hs as (Hf & _ & He1). rewrite send_works in He1 by done.
  assert (Hp1 : listed_pending evs net db1).
  { eapply Forall_impl; [|intros p Hx; exact Hx]. apply Forall_forall. intros p Hin.
    destruct (proj1 (Forall_forall _ _) Hp p Hin) as [Hp1 Hp2]. split; [|done]. rewrite Hf; [done|].
    intros Heq. apply Hni. unfold event_key at 1. cbn [fst snd]. rewrite <- Heq.
    exact (list_elem_of_fmap_2 event_key _ _ Hin). }
  specialize (IH (S k) db1 Hnd Hp1).
  destruct (replay_pending_webhooks _ _ _ _ _) as [db' n]. destruct IH as (-> & IH1 & IH2).
  split_and!; [cbn; lia| |].
  - constructor; [|done]. cbn [fst snd]. rewrite IH2 by done. by eexists.
  - intros job' wid' Hnin. rewrite fmap_cons, not_elem_of_cons in Hnin.
    destruct Hnin. rewrite IH2 by done. by apply Hf.
Qed.

(** A restart replay makes progress: when the destinations answer, every
    pending event in the listing whose lease (if any) has expired is delivered,
    and the count returned is the number of events listed. *)
Theorem replay_delivers_pending (events : list (string * WebhookEvent)) (owner : nat -> string)
    (net : nat -> Net) db :
  NoDup (event_key <$> events) ->
  (forall n, net_works (net n)) ->
  listed_pending events net db ->
  let '(db', n) := replay_pending_webhooks events owner net 0 db in
  n = length events /\
  Forall (fun p => exists e, get_event (fst p) (webhookId (snd p)) db' = Some e /\
                             wstatus e = delivered /\ attempts e = attempts (snd p) + 1) events.
Proof.
  intros Hnd Hw Hp. pose proof (replay_spec events owner net Hw 0 db Hnd Hp) as H.
  destruct (replay_pending_webhooks _ _ _ _ _). by destruct H as (? & ? & _).
Qed.

End Outbox.

(** ** Witnesses *)

Definition demo_net : Net := mkNet (sec 100) (fun _ => Accepted) (fun _ => PStatus 200).

Lemma delivery_reports_once_witness :
  exists db' posts, deliver_outbox_event "j" (demo_event "w1") "me" demo_net demo_hooked = (db', posts) /\
    posts = [mkPost "https://hook.example.com" "{}" []] /\
    exists e', get_event "j" "w1" db' = Some e' /\ attempts e' = 1 /\ wstatus e' = delivered.
Proof.
  pose proof (delivery_reports_once "j" (demo_event "w1") "me" demo_net demo_hooked) as H.
  eexists _, _. split; [apply surjective_pairing|]. split; [vm_compute; reflexivity|].
  destruct (deliver_outbox_event "j" (demo_event "w1") "me" demo_net demo_hooked) as [db' posts] eqn:E.
  assert (Hd : get_event "j" "w1" demo_hooked = Some (demo_event "w1")) by (vm_compute; reflexivity).
  change (webhookId (demo_event "w1")) with "w1" in H. rewrite Hd in H.
  destruct H as [_ (e' & H1 & H2 & _)]. exists e'. split; [exact H1|]. split; [exact H2|].
  revert H1. replace db' with (fst (deliver_outbox_event "j" (demo_event "w1") "me" demo_net demo_hooked))
    by (rewrite E; reflexivity). vm_compute. intros [= <-]. reflexivity.
Defined.

Lemma replay_delivers_pending_witness :
  let '(db', n) := replay_pending_webhooks [("j", demo_event "w1")] (fun _ => "me") (fun _ => demo_net)
                     0 demo_hooked in
  n = 1%nat /\ Forall (fun p => exists e, get_event (fst p) (webhookId (snd p)) db' = Some e /\
    wstatus e = delivered /\ attempts e = attempts (snd p) + 1) [("j", demo_event "w1")].
Proof.
  apply (replay_delivers_pending [("j", demo_event "w1")] (fun _ => "me") (fun _ => demo_net) demo_hooked).
  - apply NoDup_singleton.
  - intros _. split; reflexivity.
  - constructor; [|constructor]. split; [vm_compute; reflexivity|intros _; reflexivity].
Defined.

Lemma outbox_posts_only_to_public_hosts_witness :
  let ev := mkEvent "w1" "https://example.com/hook" "completed" "{}" [] delivering 0 (Some "a") 9 None in
  let net := net_of 0 (fun _ => demo_dns) (fun _ => PStatus 200) ev in
  length (fst (send_outbox_event net ev)) = 1%nat /\
  exists n r, (1 <= n <= MAX_RETRIES)%nat /\ urlparse (url ev) = Some r /\
    mem (lower (scheme r)) ["http"; "https"] = true /\ public_host demo_dns (hostname r).
Proof.
  intros ev net. split; [vm_compute; reflexivity|].
  apply (outbox_posts_only_to_public_hosts 0 (fun _ => demo_dns) (fun _ => PStatus 200) ev).
  vm_compute. discriminate.
Defined.
