(* ===== verification/Monitor.v ===== *)
(** * Monitors ([src/agent-svc/agent/monitor.py], [src/agent-svc/agent/routes/monitor.py])

    A monitor is a JSON configuration in a Valkey hash, with a history list and, for
    search monitors, a set of URLs already announced.  A check reads the
    configuration, awaits the scraper or the search engine, and then writes.  Only
    the awaits let other code in, so a check is modelled as the reads before the
    fetch and two sections: [commit] after the fetch (which saves the configuration
    and, for a search, updates the seen set) and [record] after the notification
    (which writes the history).  The text of the diff, the answers of the services
    and the timestamps are arguments; the content of a page, when there is one, is
    text.

    The theorems: a check that follows an unchanged page is silent and every
    notification goes to a public destination with a change; a URL is announced by
    at most one check of its monitor; the history holds the last fifty results. *)

From stdpp Require Import pretty.
From S2P Require Import Prelude Strings Url HostPolicy Json Webhook ScrapeCache.

(** ** The store *)

Inductive raw := Config (c : obj) | NotJson.

Record store := mkStore {
  monitors : gmap string raw;
  history : gmap string (list obj);
  seen : gmap string (gset string)
}.

Definition save_monitor (id : string) (config : obj) (s : store) : store :=
  mkStore (<[id := Config config]> (monitors s)) (history s) (seen s).

(** [delete_monitor], and the clean-up the route does before it. *)
Definition delete_monitor (id : string) (s : store) : store :=
  mkStore (delete id (monitors s)) (delete id (history s)) (seen s).

Definition delete_seen (id : string) (s : store) : store := mkStore (monitors s) (history s) (delete id (seen s)).

(** [get_monitor]; [None] also when the document does not decode, which raises. *)
Definition get_monitor (id : string) (s : store) : option obj :=
  match monitors s !! id with Some (Config c) => Some c | _ => None end.

Definition get_all_monitors (s : store) : list (string * obj) :=
  omap (fun '(id, r) => match r with Config c => Some (id, c) | NotJson => None end) (map_to_list (monitors s)).

(** [_store_check]: [LPUSH] and [LTRIM 0 49]. *)
Definition store_check (id : string) (result : obj) (s : store) : store :=
  mkStore (monitors s) (<[id := take 50 (result :: default [] (history s !! id))]> (history s)) (seen s).

(** [SADD] of each new URL. *)
Definition add_seen (id : string) (urls : list string) (s : store) : store :=
  mkStore (monitors s) (history s)
    (match urls with
     | [] => seen s
     | _ => <[id := list_to_set urls ∪ default ∅ (seen s !! id)]> (seen s)
     end).

(** ** Scrape monitors *)

(** A response with a status other than 200, one with a JSON body, or an exception. *)
Inductive scraped :=
| Status (code : Z)
| Body (success : bool) (error : option string) (markdown : string)
| Broken (message : string).

Record notice := mkNotice { n_url : string; n_body : obj }.

Section Check.
Context (compute_diff : string -> string -> string).

Definition text_of (c : obj) (k : string) : string := match oget c k (JStr "") with JStr s => s | _ => "" end.

(** [result] before the fetch. *)
Definition blank_result (id url now : string) : obj :=
  [("monitor_id", JStr id); ("url", JStr url); ("checked_at", JStr now); ("changed", JBool false); ("diff", JStr "")].

(** What the fetch gives: the new content, or the error of the result. *)
Definition content_of (a : scraped) : outcome string string :=
  match a with
  | Status code => Raise ("Scrape returned " +:+ pretty code)
  | Body true _ markdown => Ok markdown
  | Body false error _ => Raise (default "Scrape failed" error)
  | Broken message => Raise ("Scrape error: " +:+ message)
  end.

Definition is_changed (previous current : string) : bool := negb (is_empty previous) && negb (String.eqb current previous).

Definition compared (previous current : string) (result : obj) : obj :=
  if is_changed previous current then
    oset "current_length" (JNum (Z.of_nat (slen current)))
      (oset "previous_length" (JNum (Z.of_nat (slen previous)))
         (oset "diff" (JStr (compute_diff previous current)) (oset "changed" (JBool true) result)))
  else result.

Definition updated_config (current now : string) (changed : bool) (config : obj) : obj :=
  oset "last_result" (JStr (if changed then "changed" else "unchanged"))
    (oset "last_checked" (JStr now) (oset "last_content" (JStr current) config)).

(** The webhook of a configuration, [None] if it is absent or empty. *)
Definition webhook_of (config : obj) : option string :=
  match oget config "webhook" JNull with JStr u => if is_empty u then None else Some u | _ => None end.

(** The notification: it is sent if the destination is accepted. *)
Definition notify (accepted : string -> bool) (config body : obj) : list notice :=
  match webhook_of config with
  | Some u => if accepted u then [mkNotice u body] else []
  | None => []
  end.

(** [check_monitor] after the fetch: the store, the result and whether to notify;
    a configuration without a URL raises [KeyError] before it. *)
Record checked := mkChecked { k_store : store; k_result : obj; k_notice : option obj; k_done : bool }.

Definition commit_scrape (id : string) (config : obj) (now : string) (a : scraped) (s : store) : outcome checked unit :=
  match assoc "url" config with
  | Some (JStr url) =>
      let result := blank_result id url now in
      match content_of a with
      | Raise error =>
          let result := oset "error" (JStr error) result in Ok (mkChecked (store_check id result s) result None true)
      | Ok current =>
          let previous := text_of config "last_content" in
          let changed := is_changed previous current in
          let result := compared previous current result in
          Ok (mkChecked (save_monitor id (updated_config current now changed config) s) result
                (if changed then
                   Some [("event", JStr "monitor.changed"); ("monitor_id", JStr id); ("url", JStr url);
                         ("diff", oget result "diff" JNull); ("checked_at", JStr now)]
                 else None) false)
      end
  | _ => Raise tt
  end.

(** ** Search monitors *)

Definition found_url (item : obj) : string := text_of item "url".

Definition new_items (id : string) (results : list obj) (s : store) : list obj :=
  List.filter (fun item => negb (is_empty (found_url item)) &&
    negb (bool_decide (found_url item ∈ default ∅ (seen s !! id)))) results.

Definition summary (item : obj) : json :=
  JObj [("url", JStr (found_url item)); ("title", oget item "title" (JStr "")); ("description", oget item "description" (JStr ""))].

Definition query_of (config : obj) : json :=
  match oget config "search_config" (JObj []) with JObj c => oget c "query" (JStr "") | _ => JStr "" end.

Definition blank_search (id : string) (query : json) (now : string) : obj :=
  [("monitor_id", JStr id); ("monitor_type", JStr "search"); ("query", query); ("checked_at", JStr now);
   ("changed", JBool false); ("new_results", JArr []); ("total_results", JNum 0)].

Definition search_result (id : string) (query : json) (now : string) (total : nat) (new : list obj) : obj :=
  let result := oset "total_results" (JNum (Z.of_nat total)) (blank_search id query now) in
  let result := oset "new_count" (JNum (Z.of_nat (length new))) (oset "new_results" (JArr (summary <$> new)) result) in
  match new with [] => result | _ => oset "changed" (JBool true) result end.

Definition searched_config (now : string) (count : nat) (config : obj) : obj :=
  oset "last_result" (JStr (match count with O => "no new results" | _ => pretty (Z.of_nat count) +:+ " new results" end))
    (oset "last_checked" (JStr now) config).

(** [run_search_monitor] after the search; [None] is a failed search. *)
Definition commit_search (id : string) (config : obj) (now : string) (message : string) (found : option (list obj)) (s : store)
  : checked :=
  let query := query_of config in
  match found with
  | None =>
      let result := oset "error" (JStr ("Search failed: " +:+ message)) (blank_search id query now) in
      mkChecked (store_check id result s) result None true
  | Some results =>
      let new := new_items id results s in
      let result := search_result id query now (length results) new in
      mkChecked (save_monitor id (searched_config now (length new) config) (add_seen id (found_url <$> new) s)) result
        (match new with
         | [] => None
         | _ => Some [("event", JStr "monitor.changed"); ("monitor_id", JStr id); ("monitor_type", JStr "search");
                      ("query", query); ("new_results", oget result "new_results" JNull); ("checked_at", JStr now)]
         end) false
  end.

(** The end of a check: the notification and the history. *)
Definition record (accepted : string -> bool) (id : string) (config : obj) (k : checked) : store * list notice :=
  if k_done k then (k_store k, [])
  else (store_check id (k_result k) (k_store k),
        match k_notice k with Some body => notify accepted config body | None => [] end).

(** ** Running a check *)

Record world := mkWorld {
  scrape : string -> scraped;
  search : json -> option (list obj);
  dns : string -> nat -> Dns;
  clock : string
}.

(** [ensure_deliverable_webhook_destination] of a URL. *)
Definition accepted (w : world) (u : string) : bool :=
  ensure_deliverable_webhook_destination (fun n => validate_outbound_webhook_url (dns w u n) u) MAX_RETRIES.

(** [check_monitor] and [run_search_monitor] without interleaving. *)
Definition check (w : world) (id : string) (config : obj) (s : store) : outcome (store * list notice * obj) unit :=
  let search_type := match oget config "monitor_type" (JStr "scrape") with JStr t => String.eqb t "search" | _ => false end in
  if search_type then
    let k := commit_search id config (clock w) "" (search w (query_of config)) s in
    let '(s, sent) := record (accepted w) id config k in Ok (s, sent, k_result k)
  else
    match commit_scrape id config (clock w) (scrape w (text_of config "url")) s with
    | Raise e => Raise e
    | Ok k => let '(s, sent) := record (accepted w) id config k in Ok (s, sent, k_result k)
    end.

(** [run_monitor]: [None] is [ValueError]. *)
Definition run_monitor (w : world) (id scraper_url : string) (s : store) : option (outcome (store * list notice * obj) unit) :=
  config ← get_monitor id s; Some (check w id (oset "scraper_url" (JStr scraper_url) config) s).

(** [check_all_async]: a check that raises is logged. *)
Definition check_one (w : world) (acc : store * list notice * list obj) (m : string * obj) : store * list notice * list obj :=
  let '(s, sent, results) := acc in
  match check w (fst m) (snd m) s with
  | Ok (s, new, result) => (s, sent ++ new, results ++ [result])
  | Raise _ => acc
  end.

Definition check_all_async (w : world) (s : store) : store * list notice * list obj :=
  foldl (check_one w) (s, [], []) (get_all_monitors s).

(** [check_all]: the report after the checks; [r["url"]] raises [KeyError] on the
    result of a search monitor. *)
Definition report (results : list obj) : outcome unit unit :=
  if forallb (fun r => negb (truthy (oget r "changed" JNull)) || bool_decide (is_Some (assoc "url" r))) results
  then Ok tt else Raise tt.

Definition check_all (w : world) (s : store) : store * list notice * outcome unit unit :=
  let '(s, sent, results) := check_all_async w s in (s, sent, report results).

(** ** Routes *)

(** [update_monitor]: the fields of the request that are not null. *)
Definition set_opt (k : string) (v : option json) (c : obj) : obj := match v with Some j => oset k j c | None => c end.

Definition update_monitor (id : string) (url schedule webhook search_config : option json) (s : store) : option store :=
  cfg ← get_monitor id s;
  Some (save_monitor id
    (set_opt "search_config" search_config (set_opt "webhook" webhook (set_opt "schedule" schedule (set_opt "url" url cfg)))) s).

(** [delete_monitor_route]. *)
Definition delete_monitor_route (id : string) (s : store) : option store :=
  cfg ← get_monitor id s;
  Some (delete_monitor id
    (if match oget cfg "monitor_type" JNull with JStr t => String.eqb t "search" | _ => false end then delete_seen id s else s)).

End Check.

(** ** Facts *)

Section Facts.
Context (compute_diff : string -> string -> string).
Notation check := (check compute_diff).

Definition is_search (config : obj) : bool :=
  match oget config "monitor_type" (JStr "scrape") with JStr t => String.eqb t "search" | _ => false end.

Definition announced (result : obj) : list string :=
  match assoc "new_results" result with
  | Some (JArr l) => omap (fun j => match jget j "url" with JStr u => Some u | _ => None end) l
  | _ => []
  end.

Lemma pushed id result s0 s : history s0 = history s ->
  history (store_check id result s0) !! id = Some (take 50 (result :: default [] (history s !! id))).
Proof. intros <-. cbn. by rewrite lookup_insert_eq. Qed.

Lemma not_pushed id result s0 s : history s0 = history s -> forall id', id' <> id ->
  history (store_check id result s0) !! id' = history s !! id'.
Proof. intros <- id' Hne. cbn. by rewrite lookup_insert_ne. Qed.

(** The new URLs join the seen set. *)
Lemma add_seen_spec id urls s id' : default ∅ (seen (add_seen id urls s) !! id') =
  if decide (id' = id) then list_to_set urls ∪ default ∅ (seen s !! id) else default ∅ (seen s !! id').
Proof.
  unfold add_seen. cbn. destruct urls as [|u urls].
  - case_decide; subst; [cbn; set_solver|done].
  - case_decide; subst; [by rewrite lookup_insert_eq|by rewrite lookup_insert_ne].
Qed.

Lemma summaries_announced new r : Forall (fun i => is_empty (found_url i) = false) new ->
  assoc "new_results" r = Some (JArr (summary <$> new)) -> announced r = found_url <$> new.
Proof.
  intros HF HA. unfold announced. rewrite HA. clear HA. induction HF as [|i new Hi HF IH]; cbn; [done|]. by rewrite IH.
Qed.

Lemma search_result_fields id q now total new :
  assoc "new_results" (search_result id q now total new) = Some (JArr (summary <$> new)) /\
  assoc "changed" (search_result id q now total new) = Some (JBool (match new with [] => false | _ => true end)).
Proof. unfold search_result. destruct new; split; by jk. Qed.

(** What one check does to the store. *)
Record checked_ok (w : world) (id : string) (config : obj) (s s' : store) (sent : list notice) (result : obj) : Prop := mkCheckedOk {
  c_history : history s' !! id = Some (take 50 (result :: default [] (history s !! id)));
  c_others : forall id', id' <> id -> history s' !! id' = history s !! id';
  c_seen : forall id', default ∅ (seen s' !! id') =
             if decide (id' = id) then list_to_set (announced result) ∪ default ∅ (seen s !! id) else default ∅ (seen s !! id');
  c_new : forall u, u ∈ announced result -> u ∉ default ∅ (seen s !! id);
  c_sent : sent = [] \/ exists u body, sent = [mkNotice u body] /\ webhook_of config = Some u /\ accepted w u = true /\
             assoc "changed" result = Some (JBool true);
  c_silent : assoc "changed" result = Some (JBool true) -> forall u, webhook_of config = Some u -> accepted w u = true ->
             exists body, sent = [mkNotice u body]
}.

Lemma check_search_ok w id config s :
  let k := commit_search id config (clock w) "" (search w (query_of config)) s in
  let '(s', sent) := record (accepted w) id config k in checked_ok w id config s s' sent (k_result k).
Proof.
  intros k. unfold k, commit_search. destruct (search w (query_of config)) as [results|]; cbn -[search_result blank_search store_check oset].
  - set (new := new_items id results s).
    assert (HN : Forall (fun i => is_empty (found_url i) = false /\ found_url i ∉ default ∅ (seen s !! id)) new).
    { apply Forall_forall. intros i [Hi _]%elem_of_list_filter. apply andb_true_iff in Hi as [H1 H2].
      apply negb_true_iff in H1, H2. by apply bool_decide_eq_false in H2. }
    destruct (search_result_fields id (query_of config) (clock w) (length results) new) as [F1 F2].
    set (r := search_result _ _ _ _ _) in *.
    assert (HA : announced r = found_url <$> new).
    { apply summaries_announced; [|done]. eapply Forall_impl; [exact HN|]. by intros ? []. }
    split.
    + by apply pushed.
    + by apply not_pushed.
    + intros id'. rewrite HA. apply add_seen_spec.
    + intros u. rewrite HA. intros (i & -> & Hi)%list_elem_of_fmap. rewrite Forall_forall in HN. by apply HN.
    + destruct new as [|i new]; [by left|]. unfold notify. destruct (webhook_of config) as [u|]; [|by left].
      destruct (accepted w u) eqn:Ea; [|by left]. right. eauto 10.
    + intros Hc u Hu Ha. rewrite F2 in Hc. destruct new as [|i new]; [done|]. unfold notify. rewrite Hu, Ha. eauto.
  - set (r := oset "error" _ _). assert (HA : announced r = []) by (unfold announced, r; by jk).
    assert (HC : assoc "changed" r = Some (JBool false)) by (unfold r; by jk). split.
    + by apply pushed.
    + by apply not_pushed.
    + intros id'. rewrite HA. cbn. case_decide; [subst; set_solver|done].
    + rewrite HA. set_solver.
    + by left.
    + by rewrite HC.
Qed.

Lemma announced_blank id url now : announced (blank_result id url now) = [].
Proof. done. Qed.

Lemma check_scrape_ok w id config s k :
  commit_scrape compute_diff id config (clock w) (scrape w (text_of config "url")) s = Ok k ->
  let '(s', sent) := record (accepted w) id config k in checked_ok w id config s s' sent (k_result k).
Proof.
  unfold commit_scrape. destruct (assoc "url" config) as [[| | |url| |]|]; try done.
  destruct (content_of _) as [current|error]; intros [= <-]; cbn -[store_check compared blank_result updated_config oset].
  - set (previous := text_of config "last_content"). set (r := compared _ _ _ _).
    assert (HA : announced r = []).
    { unfold announced, r, compared. destruct (is_changed previous current); by jk. }
    assert (HC : assoc "changed" r = Some (JBool (is_changed previous current))).
    { unfold r, compared. destruct (is_changed previous current); by jk. }
    split.
    + by apply pushed.
    + by apply not_pushed.
    + intros id'. rewrite HA. cbn. case_decide; [subst; set_solver|done].
    + rewrite HA. set_solver.
    + destruct (is_changed previous current); [|by left]. unfold notify. destruct (webhook_of config) as [u|]; [|by left].
      destruct (accepted w u) eqn:Ea; [|by left]. right. eauto 10.
    + rewrite HC. intros [= ->] u Hu Ha. unfold notify. rewrite Hu, Ha. eauto.
  - split; [by apply pushed|by apply not_pushed| |cbn; set_solver|by left|done].
    intros id'. cbn. case_decide; [subst; set_solver|done].
Qed.

Lemma check_ok w id config s s' sent result : check w id config s = Ok (s', sent, result) -> checked_ok w id config s s' sent result.
Proof.
  unfold Monitor.check. fold (is_search config). destruct (is_search config).
  - pose proof (check_search_ok w id config s) as H. cbv zeta in *. destruct (record _ _ _ _) as [t l]. by intros [= <- <- <-].
  - destruct (commit_scrape _ _ _ _ _ _) as [k|] eqn:E; [|done]. apply check_scrape_ok in E.
    destruct (record _ _ _ _) as [t l]. by intros [= <- <- <-].
Qed.

(** *** Runs *)

(** A run: checks of monitors, each with the configuration stored at that time. *)
Definition run_check (acc : store * list (string * obj)) (c : world * string) : store * list (string * obj) :=
  let '(s, log) := acc in
  match run_monitor compute_diff (fst c) (snd c) "http://scraper-svc:8001" s with
  | Some (Ok (s', _, result)) => (s', log ++ [(snd c, result)])
  | _ => acc
  end.

Definition results_for (id : string) (log : list (string * obj)) : list obj :=
  omap (fun '(i, r) => if String.eqb i id then Some r else None) log.

Definition announced_before (id : string) (log : list (string * obj)) : list string := results_for id log ≫= announced.

Lemma results_for_snoc id log i r : results_for id (log ++ [(i, r)]) = results_for id log ++ (if String.eqb i id then [r] else []).
Proof. unfold results_for. rewrite omap_app. cbn. by destruct (String.eqb i id). Qed.

Definition LogInv (s0 : store) (acc : store * list (string * obj)) : Prop :=
  forall id,
    default [] (history (fst acc) !! id) =
      take 50 (reverse (results_for id (snd acc)) ++ default [] (history s0 !! id)) /\
    default ∅ (seen (fst acc) !! id) = list_to_set (announced_before id (snd acc)) ∪ default ∅ (seen s0 !! id).

Definition OnceInv (s0 : store) (log : list (string * obj)) : Prop :=
  forall pre id r post, log = pre ++ (id, r) :: post ->
  forall u, u ∈ announced r -> u ∉ announced_before id pre /\ u ∉ default ∅ (seen s0 !! id).

Lemma run_check_once s0 acc c : LogInv s0 acc -> OnceInv s0 (snd acc) -> OnceInv s0 (snd (run_check acc c)).
Proof.
  intros HI HO. destruct acc as [s log], c as [w id0]. unfold run_check. cbn [fst snd] in *.
  destruct (run_monitor _ _ _ _ _) as [[[[s' sent] result]|]|] eqn:E; [|done..].
  unfold run_monitor in E. destruct (get_monitor id0 s) as [config|]; cbn in E; [|done]. injection E as E. apply check_ok in E.
  intros pre id r post HE u Hu. destruct post as [|x post _] using rev_ind.
  - apply app_inj_tail in HE as [-> [= -> ->]]. pose proof (c_new _ _ _ _ _ _ _ E u Hu) as Hn.
    destruct (HI id) as [_ Hs]. cbn [fst snd] in Hs. rewrite Hs in Hn. set_solver.
  - rewrite app_comm_cons, app_assoc in HE. apply app_inj_tail in HE as [HE _]. by eapply HO.
Qed.

Lemma run_check_inv s0 acc c : LogInv s0 acc -> LogInv s0 (run_check acc c).
Proof.
  intros HI. destruct acc as [s log], c as [w id0]. unfold run_check. cbn [fst snd].
  destruct (run_monitor _ _ _ _ _) as [[[[s' sent] result]|]|] eqn:E; [|done..].
  unfold run_monitor in E. destruct (get_monitor id0 s) as [config|]; cbn in E; [|done]. injection E as E. apply check_ok in E.
  destruct E. intros id. destruct (HI id) as [H1 H2]. cbn [fst snd] in *. rewrite c_seen0. unfold announced_before.
  rewrite results_for_snoc. destruct (String.eqb_spec id0 id) as [<-|Hne].
  - rewrite c_history0, H1. cbn [default id]. rewrite decide_True by done. split.
    + rewrite reverse_app. cbn [reverse]. change (reverse [result]) with [result]. rewrite <- app_assoc. cbn [app].
      rewrite !firstn_cons. f_equal. by rewrite take_take.
    + rewrite bind_app, list_to_set_app_L. cbn. rewrite app_nil_r, H2. set_solver.
  - rewrite c_others0 by done. rewrite decide_False by done. by rewrite app_nil_r.
Qed.

Lemma run_inv s0 ops acc : LogInv s0 acc -> OnceInv s0 (snd acc) ->
  LogInv s0 (foldl run_check acc ops) /\ OnceInv s0 (snd (foldl run_check acc ops)).
Proof.
  revert acc. induction ops as [|c ops IH]; intros acc HI HO; cbn; [done|]. apply IH; [by apply run_check_inv|by apply run_check_once].
Qed.

Lemma init_inv s : Forall (fun e => (length (snd e) <= 50)%nat) (map_to_list (history s)) -> LogInv s (s, []).
Proof.
  intros HF id. cbn. split; [|set_solver]. destruct (history s !! id) as [l|] eqn:E; [|done]. cbn. rewrite take_ge; [done|].
  rewrite Forall_forall in HF. apply (HF (id, l)). by apply elem_of_map_to_list.
Qed.
End Facts.

(** ** Theorems *)

(**  Over any sequence of checks the history of a monitor is its last fifty
    results, newest first, and a search monitor announces a URL in at most one of
    its checks, and never one its seen set already held. *)
Theorem monitor_history_and_announcements compute_diff s ops :
  Forall (fun e => (length (snd e) <= 50)%nat) (map_to_list (history s)) ->
  let '(s', log) := foldl (run_check compute_diff) (s, []) ops in
  (forall id, default [] (history s' !! id) = take 50 (reverse (results_for id log) ++ default [] (history s !! id))) /\
  (forall pre id r post, log = pre ++ (id, r) :: post ->
   forall u, u ∈ announced r -> u ∉ announced_before id pre /\ u ∉ default ∅ (seen s !! id)).
Proof.
  intros HF. destruct (run_inv compute_diff s ops (s, []) (init_inv compute_diff s HF)) as [HI HO].
  { intros pre id r post HE. by destruct pre. }
  destruct (foldl (run_check compute_diff) (s, []) ops) as [s' log]. split; [intros id; apply HI|done].
Qed.

Definition hit (u : string) : obj := [("url", JStr u); ("title", JStr "t")].
Definition demo_world (results : list obj) (content : string) : world :=
  mkWorld (fun _ => Body true None content) (fun _ => Some results) (fun _ _ _ => Sockaddrs ["93.184.216.34"]) "now".
Definition demo_search : obj := [("monitor_type", JStr "search"); ("search_config", JObj [("query", JStr "rocq")]);
  ("webhook", JStr "https://hooks.example.org/x")].
Definition demo_scrape : obj := [("monitor_type", JStr "scrape"); ("url", JStr "https://a.org/"); ("webhook", JStr "https://hooks.example.org/x")].
Definition demo_store : store := mkStore {[ "m" := Config demo_search ]} ∅ ∅.
Definition demo_ops : list (world * string) :=
  [(demo_world [hit "https://a.org/1"; hit "https://a.org/2"] "", "m"); (demo_world [hit "https://a.org/2"; hit "https://a.org/3"] "", "m")].

Lemma monitor_history_and_announcements_witness :
  let '(s', log) := foldl (run_check (fun _ _ => "")) (demo_store, []) demo_ops in
  announced <$> results_for "m" log = [["https://a.org/1"; "https://a.org/2"]; ["https://a.org/3"]] /\
  default [] (history s' !! "m") = reverse (results_for "m" log).
Proof.
  pose proof (monitor_history_and_announcements (fun _ _ => "") demo_store demo_ops
    ltac:(cbn; rewrite map_to_list_empty; constructor)) as H.
  destruct (foldl _ _ _) as [s' log] eqn:E. destruct H as [H _].
  assert (HL : log = snd (foldl (run_check (fun _ _ => "")) (demo_store, []) demo_ops)) by (by rewrite E).
  split; [rewrite HL; vm_compute; reflexivity|]. rewrite H, HL. vm_compute. reflexivity.
Defined.

(**  A check sends at most one notification; it sends one exactly when it found a
    change, the monitor has a webhook and the destination was accepted, and then
    one of at most three validations found an http(s) URL whose host resolved to
    unrestricted addresses only. *)
Theorem monitor_notifies_public_destinations compute_diff w id config s s' sent result :
  check compute_diff w id config s = Ok (s', sent, result) ->
  (length sent <= 1)%nat /\
  (sent <> [] <-> assoc "changed" result = Some (JBool true) /\ exists u, webhook_of config = Some u /\ accepted w u = true) /\
  (forall n, n ∈ sent -> webhook_of config = Some (n_url n) /\
     exists k r, (1 <= k <= MAX_RETRIES)%nat /\ urlparse (n_url n) = Some r /\
       mem (lower (scheme r)) ["http"; "https"] = true /\ public_host (dns w (n_url n) k) (hostname r)).
Proof.
  intros HC. destruct (check_ok _ _ _ _ _ _ _ _ HC) as [_ _ _ _ HS HN]. split_and!.
  - destruct HS as [->|(u & b & -> & _)]; cbn; lia.
  - split.
    + destruct HS as [->|(u & b & -> & Hw & Ha & Hc)]; [done|]. eauto.
    + intros [Hc (u & Hw & Ha)]. destruct (HN Hc u Hw Ha) as [b ->]. done.
  - intros n Hn. destruct HS as [->|(u & b & -> & Hw & Ha & _)]; [by apply not_elem_of_nil in Hn|].
    apply list_elem_of_singleton in Hn as ->. cbn [n_url]. split; [done|].
    apply ensure_from_true in Ha as (k & Hk & Hv & _). apply accepted_public in Hv as (r & H1 & H2 & H3).
    exists k, r. split; [lia|done].
Qed.

Lemma monitor_notifies_public_destinations_witness :
  exists s' sent result,
    check (fun _ _ => "-a+b") (demo_world [] "b") "m" (oset "last_content" (JStr "a") demo_scrape) demo_store = Ok (s', sent, result) /\
    (length sent <= 1)%nat /\ sent <> [].
Proof.
  eexists _, _, _. split; [reflexivity|].
  destruct (monitor_notifies_public_destinations (fun _ _ => "-a+b") (demo_world [] "b") "m" (oset "last_content" (JStr "a") demo_scrape)
    demo_store _ _ _ eq_refl) as (H1 & H2 & _).
  split; [exact H1|]. apply H2. split; [reflexivity|]. exists "https://hooks.example.org/x". split; vm_compute; reflexivity.
Defined.

(**  A page that did not change is not reported: after a successful check of a
    scrape monitor, a later check that finds the same content reports no change,
    sends nothing and leaves the content as it was; and a first check never
    reports one. *)
Theorem unchanged_page_is_silent compute_diff w w' id config s s1 sent1 r1 content :
  is_search config = false -> scrape w (text_of config "url") = Body true None content ->
  scrape w' (text_of config "url") = Body true None content ->
  check compute_diff w id config s = Ok (s1, sent1, r1) ->
  (text_of config "last_content" = "" -> sent1 = [] /\ assoc "changed" r1 = Some (JBool false)) /\
  exists config1 s2 r2, get_monitor id s1 = Some config1 /\ check compute_diff w' id config1 s1 = Ok (s2, [], r2) /\
    assoc "changed" r2 = Some (JBool false) /\ text_of config1 "last_content" = content /\ assoc "url" config1 = assoc "url" config.
Proof.
  intros Hs Hw Hw'. unfold check at 1. fold (is_search config). rewrite Hs, Hw. unfold commit_scrape at 1.
  destruct (assoc "url" config) as [[| | |url| |]|] eqn:Eu; try done. cbn [content_of].
  set (previous := text_of config "last_content"). set (changed := is_changed previous content).
  set (config1 := updated_config content (clock w) changed config). cbn [record k_done]. intros HE.
  assert (Hstore : s1 = store_check id (compared compute_diff previous content (blank_result id url (clock w))) (save_monitor id config1 s)
    /\ r1 = compared compute_diff previous content (blank_result id url (clock w))
    /\ sent1 = match (if changed then Some [("event", JStr "monitor.changed"); ("monitor_id", JStr id); ("url", JStr url);
          ("diff", oget (compared compute_diff previous content (blank_result id url (clock w))) "diff" JNull); ("checked_at", JStr (clock w))] else None)
        with Some body => notify (accepted w) config body | None => [] end).
  { by injection HE as <- <- <-. }
  destruct Hstore as (-> & -> & ->). split.
  - intros Hp. unfold changed, compared, is_changed. rewrite Hp. done.
  - exists config1.
    assert (H1 : forall k, mem k ["last_result"; "last_checked"; "last_content"] = false -> assoc k config1 = assoc k config).
    { intros k Hk. unfold mem in Hk. cbn [existsb] in Hk. repeat (apply orb_false_iff in Hk as [?%String.eqb_neq Hk]).
      unfold config1, updated_config. by rewrite !assoc_oset_ne by done. }
    assert (H2 : text_of config1 "last_content" = content).
    { unfold text_of, oget, config1, updated_config. by jk. }
    unfold check. assert (Hs1 : is_search config1 = false) by (unfold is_search, oget; by rewrite H1).
    fold (is_search config1). rewrite Hs1. unfold commit_scrape. rewrite H1, Eu by done.
    assert (Ht : text_of config1 "url" = text_of config "url") by (unfold text_of, oget; by rewrite H1).
    rewrite Ht, Hw'. cbn [content_of]. rewrite H2. unfold is_changed at 1, compared, is_changed. rewrite String.eqb_refl, andb_false_r.
    eexists _, _. split; [unfold get_monitor; cbn; by rewrite lookup_insert_eq|]. split; [reflexivity|]. done.
Qed.

Lemma unchanged_page_is_silent_witness :
  exists config1 s1 s2 r2, check (fun _ _ => "d") (demo_world [] "b") "m" demo_scrape demo_store = Ok (s1, [], blank_result "m" "https://a.org/" "now") /\
    get_monitor "m" s1 = Some config1 /\ check (fun _ _ => "d") (demo_world [] "b") "m" config1 s1 = Ok (s2, [], r2).
Proof.
  destruct (unchanged_page_is_silent (fun _ _ => "d") (demo_world [] "b") (demo_world [] "b") "m" demo_scrape demo_store _ _ _ "b"
    eq_refl eq_refl eq_refl eq_refl) as (_ & config1 & s2 & r2 & H1 & H2 & _).
  eexists config1, _, s2, r2. split; [reflexivity|]. split; [exact H1|exact H2].
Defined.

(** ** Cases worth knowing *)

(** The report of [check_all] reads ["url"] in every changed result: a search monitor with
    a new result makes the scheduled run raise. *)
Example report_of_search_change_raises :
  snd (check_all (fun _ _ => "") (demo_world [hit "https://a.org/1"] "") demo_store) = Raise tt.
Proof. vm_compute. reflexivity. Qed.

(** Changing the URL of a monitor keeps the content of the old page: the first check of
    the new page is announced as a change. *)
Lemma url_update_reports_a_change :
  let config := oset "last_content" (JStr "old page") demo_scrape in
  exists s' r s1 sent,
    update_monitor "m" (Some (JStr "https://b.org/")) None None None (mkStore {[ "m" := Config config ]} ∅ ∅) = Some s' /\
    run_monitor (fun _ _ => "d") (demo_world [] "other page") "m" "http://scraper-svc:8001" s' = Some (Ok (s1, sent, r)) /\
    length sent = 1%nat.
Proof. eexists _, _, _, _. split; [reflexivity|]. split; vm_compute; reflexivity. Qed.

(** A check that was fetching when its monitor was deleted brings it back. *)
Lemma check_revives_deleted_monitor : exists s' k,
  delete_monitor_route "m" (mkStore {[ "m" := Config demo_scrape ]} ∅ ∅) = Some s' /\ get_monitor "m" s' = None /\
  commit_scrape (fun _ _ => "") "m" demo_scrape "now" (Body true None "b") s' = Ok k /\ is_Some (get_monitor "m" (k_store k)).
Proof. eexists _, _. split; [reflexivity|]. split; [reflexivity|]. split; [reflexivity|]. vm_compute. eauto. Qed.
