(* ===== verification/Session.v ===== *)
(** * Research sessions ([src/agent-svc/agent/session_store.py])

    [Sess] holds the Valkey keys of one session: the metadata hash, the legacy
    and appended steps, the artifact, the references, the idempotency hash and
    the lock.  Every method that writes is one Lua script (or one command), so
    it is one atomic function here, and a run is a sequence of such calls by any
    number of clients, of expiries and of clock ticks.  Timestamps are strings,
    [now] is in seconds; time to live is not tracked: each write gives the six
    data keys the same one, so they expire together ([ESessionExpires]), while
    the lock has its own ([ELockExpires]).  [_LOCK_OWNER.get() or ""] is the
    [owner] argument.

    The theorems: a step index is never given out twice; an idempotency key is
    committed at most once and later reservations return its result; the step
    and character counters are exact; reservations are bounded; an expired or
    deleted session is never revived; serialized and independent steps exclude
    each other; and the writes of a serialized step are fenced by its lock. *)

From S2P Require Import Prelude Strings Json.

(** ** Data *)

Record SessionMeta := mkSessionMeta {
  s_status : string;
  s_created_at : string;
  s_expires_at : string;
  step_count : Z;
  s_ttl : Z;
  artifact_chars : option Z;           (* absent on sessions older than the counter *)
  revision : Z;
  next_step_index : option Z;
  owner_scope : option string;
  attachment_revision : Z;             (* research_attachment_revision, absent as 0 *)
  attachment_run : option string
}.

(** One field of the idempotency hash. *)
Inductive IdemItem :=
| Sentinel
| Pending (token : string) (index rev expires : Z) (fp : string)
| Committed (result : json) (fp : string).

Record Sess := mkSess {
  s_meta : option SessionMeta;
  s_legacy : list json;
  s_log : list json;
  s_artifact : string;
  s_refs : gmap string json;
  s_idem : gmap string IdemItem;
  s_lock : option string
}.

(** ** Record updates *)

Definition with_meta (s : Sess) (m : SessionMeta) : Sess :=
  mkSess (Some m) (s_legacy s) (s_log s) (s_artifact s) (s_refs s) (s_idem s) (s_lock s).
Definition with_log (s : Sess) (l : list json) : Sess :=
  mkSess (s_meta s) (s_legacy s) l (s_artifact s) (s_refs s) (s_idem s) (s_lock s).
Definition with_artifact (s : Sess) (a : string) : Sess :=
  mkSess (s_meta s) (s_legacy s) (s_log s) a (s_refs s) (s_idem s) (s_lock s).
Definition with_refs (s : Sess) (r : gmap string json) : Sess :=
  mkSess (s_meta s) (s_legacy s) (s_log s) (s_artifact s) r (s_idem s) (s_lock s).
Definition with_idem (s : Sess) (i : gmap string IdemItem) : Sess :=
  mkSess (s_meta s) (s_legacy s) (s_log s) (s_artifact s) (s_refs s) i (s_lock s).
Definition with_lock (s : Sess) (l : option string) : Sess :=
  mkSess (s_meta s) (s_legacy s) (s_log s) (s_artifact s) (s_refs s) (s_idem s) l.

Definition set_expiry (m : SessionMeta) (exp : string) : SessionMeta :=
  mkSessionMeta (s_status m) (s_created_at m) exp (step_count m) (s_ttl m) (artifact_chars m)
    (revision m) (next_step_index m) (owner_scope m) (attachment_revision m) (attachment_run m).
Definition set_counts (m : SessionMeta) (count : Z) (next : option Z) : SessionMeta :=
  mkSessionMeta (s_status m) (s_created_at m) (s_expires_at m) count (s_ttl m) (artifact_chars m)
    (revision m) next (owner_scope m) (attachment_revision m) (attachment_run m).
Definition set_chars (m : SessionMeta) (n : Z) : SessionMeta :=
  mkSessionMeta (s_status m) (s_created_at m) (s_expires_at m) (step_count m) (s_ttl m) (Some n)
    (revision m) (next_step_index m) (owner_scope m) (attachment_revision m) (attachment_run m).
Definition set_revision (m : SessionMeta) (r : Z) : SessionMeta :=
  mkSessionMeta (s_status m) (s_created_at m) (s_expires_at m) (step_count m) (s_ttl m) (artifact_chars m)
    r (next_step_index m) (owner_scope m) (attachment_revision m) (attachment_run m).
Definition set_attachment (m : SessionMeta) (r : Z) (run : string) : SessionMeta :=
  mkSessionMeta (s_status m) (s_created_at m) (s_expires_at m) (step_count m) (s_ttl m) (artifact_chars m)
    (revision m) (next_step_index m) (owner_scope m) r (Some run).

(** ** Operations *)

(** [create]. *)
Definition create (scope : option string) (ttl : Z) (iso exp : string) : Sess :=
  mkSess (Some (mkSessionMeta "active" iso exp 0 ttl (Some 0) 0 (Some 0) scope 0 None))
    [] [] "" ∅ {["__init__" := Sentinel]} None.

(** The guard of the write scripts: the session exists, and a caller that runs
    under a lock still holds it. *)
Definition write_guard (owner : string) (s : Sess) : option SessionMeta :=
  match s_meta s with
  | None => None
  | Some m => if is_empty owner || bool_decide (s_lock s = Some owner) then Some m else None
  end.

(** [next_step_index], caught up with [step_count], then incremented. *)
Definition next_index (m : SessionMeta) : Z :=
  match next_step_index m with
  | Some n => if n <? step_count m then step_count m else n
  | None => step_count m
  end + 1.

(** [append_step]. *)
Definition append_step (owner : string) (step : list (string * json)) (iso exp : string) (s : Sess)
    : Sess * option Z :=
  match write_guard owner s with
  | None => (s, None)
  | Some m =>
      let index := next_index m in
      let rest := List.filter (fun kv => negb (String.eqb (fst kv) "index" || String.eqb (fst kv) "timestamp")) step in
      let payload := JObj (("index", JNum index) :: ("timestamp", JStr iso) :: rest) in
      (with_meta (with_log s (s_log s ++ [payload]))
         (set_expiry (set_counts m (step_count m + 1) (Some index)) exp), Some index)
  end.

(** [get_steps]. *)
Definition get_steps (s : Sess) : list json := s_legacy s ++ s_log s.

(** The character counter, initialised from the artifact when it is absent. *)
Definition chars_of (m : SessionMeta) (s : Sess) : Z :=
  match artifact_chars m with Some n => n | None => Z.of_nat (slen (s_artifact s)) end.

(** [_append_artifact_atomic]. *)
Definition append_artifact (owner content exp : string) (s : Sess) : Sess * bool :=
  match write_guard owner s with
  | None => (s, false)
  | Some m =>
      (with_meta (with_artifact s (s_artifact s +:+ content))
         (set_expiry (set_chars m (chars_of m s + Z.of_nat (slen content))) exp), true)
  end.

(** [HSET key f v ...]. *)
Definition hset_all (kvs : list (string * json)) (m : gmap string json) : gmap string json :=
  foldl (fun m kv => <[kv.1 := kv.2]> m) m kvs.

(** [add_refs]. *)
Definition add_refs (owner : string) (refs : list (string * json)) (exp : string) (s : Sess) : Sess * bool :=
  match write_guard owner s with
  | None => (s, false)
  | Some m => (with_meta (with_refs s (hset_all refs (s_refs s))) (set_expiry m exp), true)
  end.

(** [aattach_research]: the new revision, or the reason it was refused. *)
Definition attach_research (scope run owner : string) (expected : Z) (refs : list (string * json)) (s : Sess)
    : Sess * Z :=
  match s_meta s with
  | None => (s, -2)
  | Some m =>
      if negb (bool_decide (owner_scope m = Some scope)) then (s, -2)
      else if is_empty owner || negb (bool_decide (s_lock s = Some owner)) then (s, -3)
      else if negb (attachment_revision m =? expected) then (s, -1)
      else if bool_decide (attachment_run m = Some run) then (s, attachment_revision m)
      else
        let added := length (List.filter (fun kv => bool_decide (s_refs s !! kv.1 = None)) refs) in
        if (256 <? Z.of_nat (size (s_refs s)) + Z.of_nat added) then (s, -4)
        else (with_meta (with_refs s (hset_all refs (s_refs s)))
                (set_attachment m (attachment_revision m + 1) run), attachment_revision m + 1)
  end.

(** [aremove_document]. *)
Definition remove_document (owner ref_id : string) (s : Sess) : Sess * bool :=
  match s_meta s with
  | None => (s, false)
  | Some _ =>
      if is_empty owner || negb (bool_decide (s_lock s = Some owner)) then (s, false)
      else match s_refs s !! ref_id with
      | Some v =>
          match jget v "source" with
          | JStr src => if String.eqb src "document" then (with_refs s (delete ref_id (s_refs s)), true)
                        else (s, false)
          | _ => (s, false)
          end
      | None => (s, false)
      end
  end.

(** What [reserve_step] returns: the item of the key, with [acquired] when the
    reservation is the caller's. *)
Inductive Reserve :=
| NoSession
| Conflict
| Busy
| Replay (result : json) (fp : string)
| InProgress
| Acquired (index rev : Z).

(** A reservation that has not run out. *)
Definition live (now : Z) (i : IdemItem) : bool :=
  match i with Pending _ _ _ e _ => now <? e | _ => false end.

Definition item_fp (i : IdemItem) : option string :=
  match i with Sentinel => None | Pending _ _ _ _ fp | Committed _ fp => Some fp end.

Definition live_pending (now : Z) (s : Sess) : nat :=
  size (filter (fun ki => live now ki.2 = true) (s_idem s)).

(** [reserve_step]. *)
Definition reserve_step (key token : string) (now lease : Z) (max_pending : Z) (fp : string) (s : Sess)
    : Sess * Reserve :=
  match s_meta s with
  | None => (s, NoSession)
  | Some m =>
      let conflict := match s_idem s !! key with
                      | Some i => match item_fp i with
                                  | Some f => negb (is_empty fp) && negb (String.eqb f fp)
                                  | None => false end
                      | None => false end in
      if conflict then (s, Conflict)
      else match s_idem s !! key with
      | Some (Committed r f) => (s, Replay r f)
      | i =>
          if match i with Some i => live now i | None => false end then (s, InProgress)
          else if bool_decide (s_lock s <> None) then (s, Busy)
          else if max_pending <=? Z.of_nat (live_pending now s) then (s, Busy)
          else
            let index := next_index m in
            (with_idem (with_meta s (set_counts m (step_count m) (Some index)))
               (<[key := Pending token index (revision m) (now + lease) fp]> (s_idem s)),
             Acquired index (revision m))
      end
  end.

(** What the caller keeps of its reservation. *)
Record Reservation := mkReservation {
  r_key : string; r_token : string; r_revision : Z; r_fp : string
}.

(** [commit_step]: the committed result, the caller's own or an earlier one. *)
Definition commit_step (r : Reservation) (step : json) (refs : list (string * json)) (artifact : string)
    (result : json) (exp : string) (now : Z) (s : Sess) : Sess * option json :=
  match s_meta s, s_idem s !! r_key r with
  | Some m, Some i =>
      if negb (String.eqb (default "" (item_fp i)) (r_fp r)) then (s, None)
      else match i with
      | Committed res _ => (s, Some res)
      | Sentinel => (s, None)
      | Pending token index rev expires fp =>
          if negb (String.eqb token (r_token r)) then (s, None)
          else if expires <=? now then (s, None)
          else if revision m <? r_revision r then (s, None)
          else
            let m1 := set_counts (set_chars m (chars_of m s + Z.of_nat (slen artifact)))
                        (step_count m + 1) (next_step_index m) in
            (mkSess (Some (set_expiry (set_revision m1 (revision m + 1)) exp)) (s_legacy s)
               (s_log s ++ [step]) (s_artifact s +:+ artifact) (hset_all refs (s_refs s))
               (<[r_key r := Committed result (r_fp r)]> (s_idem s)) (s_lock s), Some result)
      end
  | _, _ => (s, None)
  end.

(** [release_step]. *)
Definition release_step (key token : string) (s : Sess) : Sess :=
  match s_idem s !! key with
  | Some (Pending t _ _ _ _) => if String.eqb t token then with_idem s (delete key (s_idem s)) else s
  | _ => s
  end.

(** [has_pending_steps]. *)
Definition has_pending_steps (now : Z) (s : Sess) : bool := negb (Nat.eqb (live_pending now s) 0).

(** [delete]. *)
Definition delete_session (s : Sess) : Sess := mkSess None [] [] "" ∅ ∅ None.

(** One attempt of [acquire_lock] ([SET NX]). *)
Definition try_lock (owner : string) (s : Sess) : Sess * bool :=
  match s_lock s with None => (with_lock s (Some owner), true) | Some _ => (s, false) end.

(** [release_lock]: compare and delete. *)
Definition release_lock (owner : string) (s : Sess) : Sess :=
  if bool_decide (s_lock s = Some owner) then with_lock s None else s.

(** [renew_lock]. *)
Definition renew_lock (owner : string) (s : Sess) : bool := bool_decide (s_lock s = Some owner).

Definition is_locked (s : Sess) : bool := bool_decide (s_lock s <> None).

(** [export_snapshot]. *)
Definition export_snapshot (s : Sess) : option (SessionMeta * list json * gmap string json * string) :=
  (fun m => (m, get_steps s, s_refs s, s_artifact s)) <$> s_meta s.

(** The data keys expire. *)
Definition expire_session (s : Sess) : Sess := mkSess None [] [] "" ∅ ∅ (s_lock s).

(** ** Runs *)

Inductive sevent :=
| EAppendStep (owner : string) (step : list (string * json)) (iso exp : string)
| EAppendArtifact (owner content exp : string)
| EAddRefs (owner : string) (refs : list (string * json)) (exp : string)
| EAttach (scope run owner : string) (expected : Z) (refs : list (string * json))
| ERemoveDocument (owner ref_id : string)
| EReserve (key token : string) (lease max_pending : Z) (fp : string)
| ECommit (r : Reservation) (step : json) (refs : list (string * json)) (artifact : string)
    (result : json) (exp : string)
| ERelease (key token : string)
| EDelete
| ETryLock (owner : string)
| EReleaseLock (owner : string)
| ELockExpires
| ESessionExpires
| ETick (d : nat).

(** The session, the clock, and for the theorems only the indices given out and
    the keys whose commit was published. *)
Record World := mkWorld { w_sess : Sess; w_clock : Z; w_issued : list Z; w_commits : list string }.

Definition upd (w : World) (s : Sess) : World := mkWorld s (w_clock w) (w_issued w) (w_commits w).

(** The commit wrote: the key was not committed before, and is now. *)
Definition published (key : string) (s : Sess) : bool :=
  match s_idem s !! key with Some (Committed _ _) => true | _ => false end.

Definition sstep (w : World) (e : sevent) : World :=
  let s := w_sess w in
  match e with
  | EAppendStep owner step iso exp =>
      let '(s', r) := append_step owner step iso exp s in
      mkWorld s' (w_clock w) (w_issued w ++ match r with Some i => [i] | None => [] end) (w_commits w)
  | EAppendArtifact owner content exp => upd w (fst (append_artifact owner content exp s))
  | EAddRefs owner refs exp => upd w (fst (add_refs owner refs exp s))
  | EAttach scope run owner expected refs => upd w (fst (attach_research scope run owner expected refs s))
  | ERemoveDocument owner ref_id => upd w (fst (remove_document owner ref_id s))
  | EReserve key token lease max_pending fp =>
      let '(s', r) := reserve_step key token (w_clock w) lease max_pending fp s in
      mkWorld s' (w_clock w) (w_issued w ++ match r with Acquired i _ => [i] | _ => [] end) (w_commits w)
  | ECommit r step refs artifact result exp =>
      let s' := fst (commit_step r step refs artifact result exp (w_clock w) s) in
      mkWorld s' (w_clock w) (w_issued w)
        (w_commits w ++ if negb (published (r_key r) s) && published (r_key r) s' then [r_key r] else [])
  | ERelease key token => upd w (release_step key token s)
  | EDelete => upd w (delete_session s)
  | ETryLock owner => upd w (fst (try_lock owner s))
  | EReleaseLock owner => upd w (release_lock owner s)
  | ELockExpires => upd w (with_lock s None)
  | ESessionExpires => upd w (expire_session s)
  | ETick d => mkWorld s (w_clock w + Z.of_nat d) (w_issued w) (w_commits w)
  end.

Definition session_run (w : World) (es : list sevent) : World := run_ops sstep w es.

Definition session_start (scope : option string) (ttl : Z) (iso exp : string) (now : Z) : World :=
  mkWorld (create scope ttl iso exp) now [] [].

(** ** The invariant *)

(** The largest index given out. *)
Definition current_index (m : SessionMeta) : Z := next_index m - 1.

(** What holds of the keys while the session exists. *)
Record alive_inv (w : World) (m : SessionMeta) : Prop := {
  al_issued : forall i, i ∈ w_issued w -> i <= current_index m;
  al_commits : forall k, k ∈ w_commits w -> published k (w_sess w) = true;
  al_steps : step_count m = Z.of_nat (length (get_steps (w_sess w)));
  al_chars : artifact_chars m = Some (Z.of_nat (slen (s_artifact (w_sess w))))
}.

Record sess_inv (w : World) : Prop := {
  si_issued : NoDup (w_issued w);
  si_positive : Forall (fun i => 1 <= i) (w_issued w);
  si_commits : NoDup (w_commits w);
  si_alive : forall m, s_meta (w_sess w) = Some m -> alive_inv w m
}.

(** A write that gives out no index and publishes no commit. *)
Lemma inv_write w s' :
  sess_inv w ->
  (forall m', s_meta s' = Some m' -> exists m, s_meta (w_sess w) = Some m /\
     current_index m <= current_index m' /\
     (forall k, published k (w_sess w) = true -> published k s' = true) /\
     (step_count m = Z.of_nat (length (get_steps (w_sess w))) ->
      step_count m' = Z.of_nat (length (get_steps s'))) /\
     (artifact_chars m = Some (Z.of_nat (slen (s_artifact (w_sess w)))) ->
      artifact_chars m' = Some (Z.of_nat (slen (s_artifact s'))))) ->
  sess_inv (upd w s').
Proof.
  intros [Hi Hp Hc Ha] H. split; cbn; try done. intros m' Hm'.
  destruct (H m' Hm') as (m & Hm & Hcur & Hpub & Hst & Hch). destruct (Ha m Hm) as [A1 A2 A3 A4].
  split; cbn; [|by auto|by auto|by auto]. intros i Hin. specialize (A1 i Hin). lia.
Qed.

(** A write that changes none of what the invariant reads. *)
Lemma inv_frame w s' :
  sess_inv w -> s_idem s' = s_idem (w_sess w) -> get_steps s' = get_steps (w_sess w) ->
  s_artifact s' = s_artifact (w_sess w) ->
  (forall m', s_meta s' = Some m' -> exists m, s_meta (w_sess w) = Some m /\
     step_count m' = step_count m /\ next_step_index m' = next_step_index m /\
     artifact_chars m' = artifact_chars m) ->
  sess_inv (upd w s').
Proof.
  intros Hi H1 H2 H3 H4. apply inv_write; [done|]. intros m' Hm'.
  destruct (H4 m' Hm') as (m & Hm & E1 & E2 & E3). exists m. rewrite H2, H3.
  split_and!; [done| | |by rewrite E1|by rewrite E3].
  - unfold current_index, next_index. rewrite E1, E2. lia.
  - intros k. unfold published. by rewrite H1.
Qed.

Lemma write_guard_meta owner s m : write_guard owner s = Some m -> s_meta s = Some m.
Proof. unfold write_guard. destruct (s_meta s); [|done]. by destruct (_ || _). Qed.

Lemma inv_give w s' i m' :
  sess_inv w -> s_meta s' = Some m' -> current_index m' = i -> 1 <= i ->
  (exists m, s_meta (w_sess w) = Some m /\ i = next_index m /\
     (step_count m = Z.of_nat (length (get_steps (w_sess w))) ->
      step_count m' = Z.of_nat (length (get_steps s'))) /\
     artifact_chars m' = artifact_chars m) ->
  s_artifact s' = s_artifact (w_sess w) ->
  (forall k, published k (w_sess w) = true -> published k s' = true) ->
  sess_inv (mkWorld s' (w_clock w) (w_issued w ++ [i]) (w_commits w)).
Proof.
  intros [Hi Hp Hc Ha] Hm' Hcur Hpos (m & Hm & -> & Hst & Hch) Hart Hpub.
  destruct (Ha m Hm) as [A1 A2 A3 A4]. split; cbn.
  - apply NoDup_app. split_and!; [done| |apply NoDup_singleton].
    intros j Hj ->%list_elem_of_singleton. specialize (A1 _ Hj). unfold current_index in A1. lia.
  - apply Forall_app. split; [done|]. by apply Forall_singleton.
  - done.
  - intros m'' Hm''. rewrite Hm' in Hm''. injection Hm'' as <-. split; cbn.
    + intros j [Hj| ->%list_elem_of_singleton]%elem_of_app; [|lia].
      specialize (A1 j Hj). rewrite Hcur. unfold current_index in A1. lia.
    + auto.
    + auto.
    + by rewrite Hch, Hart.
Qed.

Lemma next_index_bounds m : step_count m < next_index m.
Proof. unfold next_index. destruct (next_step_index m); [destruct (_ <? _) eqn:E|]; bool_to_prop; lia. Qed.

Lemma current_index_set m c i : c <= i -> current_index (set_counts m c (Some i)) = i.
Proof. unfold current_index, next_index. cbn. intros H. destruct (i <? c) eqn:E; bool_to_prop; lia. Qed.

Lemma inv_append_step w owner step iso exp :
  sess_inv w -> sess_inv (sstep w (EAppendStep owner step iso exp)).
Proof.
  intros Hi. cbn [sstep]. unfold append_step. destruct (write_guard owner (w_sess w)) as [m|] eqn:E.
  2:{ rewrite app_nil_r. by destruct w. }
  apply write_guard_meta in E. pose proof (next_index_bounds m) as Hb.
  pose proof (al_steps _ _ (si_alive _ Hi m E)) as Hs.
  eapply inv_give; [done|reflexivity|apply (current_index_set m); lia|lia| |done|done].
  exists m. split_and!; [done|done| |done]. cbn. intros _. unfold get_steps in *. cbn.
  rewrite app_assoc, length_app. cbn. lia.
Qed.

Lemma published_insert k k' i s :
  published k s = true -> published k' s = false -> published k (with_idem s (<[k' := i]> (s_idem s))) = true.
Proof.
  unfold published. cbn. intros H H'. rewrite lookup_insert_ne; [done|]. intros ->. congruence.
Qed.

Lemma inv_reserve w key token lease mp fp :
  sess_inv w -> sess_inv (sstep w (EReserve key token lease mp fp)).
Proof.
  intros Hi. cbn [sstep]. unfold reserve_step.
  assert (Hsame : sess_inv (mkWorld (w_sess w) (w_clock w) (w_issued w ++ []) (w_commits w)))
    by (rewrite app_nil_r; by destruct w).
  destruct (s_meta (w_sess w)) as [m|] eqn:Em; [|done].
  destruct (match s_idem (w_sess w) !! key with Some i => _ | None => false end); [done|].
  pose proof (next_index_bounds m) as Hb. pose proof (al_steps _ _ (si_alive _ Hi m Em)) as Hs.
  assert (Hgo : published key (w_sess w) = false ->
    sess_inv (mkWorld (with_idem (with_meta (w_sess w) (set_counts m (step_count m) (Some (next_index m))))
       (<[key := Pending token (next_index m) (revision m) (w_clock w + lease) fp]> (s_idem (w_sess w))))
       (w_clock w) (w_issued w ++ [next_index m]) (w_commits w))).
  { intros Hp. eapply inv_give; [done|reflexivity|apply (current_index_set m); lia|lia| |done|].
    - exists m. by split_and!.
    - intros k Hk. exact (published_insert k key _ (w_sess w) Hk Hp). }
  destruct (s_idem (w_sess w) !! key) as [[|t' i' r' e' f'|r' f']|] eqn:Ek; try done.
  all: cbn [live]; try (destruct (w_clock w <? e'); [done|]); destruct (bool_decide _); try done; destruct (mp <=? _); try done.
  all: apply Hgo; unfold published; by rewrite Ek.
Qed.

Lemma inv_commit w r step refs artifact result exp :
  sess_inv w -> sess_inv (sstep w (ECommit r step refs artifact result exp)).
Proof.
  intros Hi. cbn [sstep]. unfold commit_step.
  assert (Hsame : forall j : option json, sess_inv (mkWorld (fst (w_sess w, j)) (w_clock w) (w_issued w)
    (w_commits w ++ if negb (published (r_key r) (w_sess w)) && published (r_key r) (fst (w_sess w, j))
                    then [r_key r] else []))).
  { intros j. cbn. destruct (published _ _); cbn; rewrite app_nil_r; by destruct w. }
  destruct (s_meta (w_sess w)) as [m|] eqn:Em; [|apply Hsame].
  destruct (s_idem (w_sess w) !! r_key r) as [i|] eqn:Ek; [|apply Hsame].
  destruct (negb (String.eqb _ _)); [apply Hsame|]. destruct i as [|t ix rv e f|res f]; [apply Hsame| |apply Hsame].
  destruct (negb (String.eqb _ _)); [apply Hsame|]. destruct (e <=? _); [apply Hsame|]. destruct (revision m <? _); [apply Hsame|].
  cbn [fst]. assert (Hnp : published (r_key r) (w_sess w) = false) by (unfold published; by rewrite Ek).
  rewrite Hnp. cbn [negb andb].
  set (s' := mkSess _ _ _ _ _ _ _).
  assert (Hp : published (r_key r) s' = true) by (unfold published; cbn; by rewrite lookup_insert_eq).
  rewrite Hp. destruct Hi as [H1 H2 H3 Ha]. destruct (Ha m Em) as [A1 A2 A3 A4]. split; cbn; try done.
  - apply NoDup_app. split_and!; [done| |apply NoDup_singleton].
    intros k Hk ->%list_elem_of_singleton. specialize (A2 _ Hk). congruence.
  - intros m' [= <-]. split; cbn.
    + intros j Hj. specialize (A1 j Hj). unfold current_index, next_index in *. cbn.
      destruct (next_step_index m) as [n|]; cbn in *; repeat (destruct (_ <? _) eqn:?; bool_to_prop); lia.
    + intros k [Hk| ->%list_elem_of_singleton]%elem_of_app; [|done].
      apply (published_insert k (r_key r) (Committed result (r_fp r)) (w_sess w)); auto.
    + unfold get_steps in *. cbn. rewrite app_assoc, length_app. cbn. lia.
    + unfold chars_of. rewrite A4. f_equal. by rewrite slen_app, Nat2Z.inj_add.
Qed.

Lemma inv_release w key token : sess_inv w -> sess_inv (sstep w (ERelease key token)).
Proof.
  intros Hi. cbn [sstep]. unfold release_step.
  assert (Hsame : sess_inv (upd w (w_sess w))) by (by destruct w).
  destruct (s_idem (w_sess w) !! key) as [[|t i r e f|]|] eqn:Ek; try done. destruct (String.eqb t token); [|done].
  apply inv_write; [done|]. cbn. intros m Hm. exists m. split_and!; try done.
  intros k. unfold published. cbn. destruct (decide (key = k)) as [<-|Hne]; [by rewrite Ek|].
  by rewrite lookup_delete_ne.
Qed.

Lemma session_inv_step w e : sess_inv w -> sess_inv (sstep w e).
Proof.
  intros Hi. assert (Hsame : sess_inv (upd w (w_sess w))) by (by destruct w).
  destruct e.
  - by apply inv_append_step.
  - cbn [sstep]. unfold append_artifact. destruct (write_guard _ _) as [m|] eqn:E; [|done].
    apply write_guard_meta in E. apply inv_write; [done|]. cbn. intros m' [= <-]. exists m.
    split_and!; try done. intros Hc. unfold chars_of. rewrite Hc. cbn. f_equal.
    by rewrite slen_app, Nat2Z.inj_add.
  - cbn [sstep]. unfold add_refs. destruct (write_guard _ _) as [m|] eqn:E; [|done].
    apply write_guard_meta in E. apply inv_frame; try done. cbn. intros m' [= <-]. by exists m.
  - cbn [sstep]. unfold attach_research. destruct (s_meta (w_sess w)) as [m|] eqn:E; [|done].
    repeat (case_match; try done). apply inv_frame; try done. cbn. intros m' [= <-]. by exists m.
  - cbn [sstep]. unfold remove_document. destruct (s_meta (w_sess w)) as [m|] eqn:E; [|done].
    repeat (case_match; try done). apply inv_frame; try done. cbn. rewrite E. intros m' [= <-]. by exists m.
  - by apply inv_reserve.
  - by apply inv_commit.
  - by apply inv_release.
  - cbn [sstep]. by apply inv_write.
  - cbn [sstep]. unfold try_lock. destruct (s_lock _); [done|]. apply inv_frame; try done. cbn. eauto 6.
  - cbn [sstep]. unfold release_lock. case_bool_decide; [|done]. apply inv_frame; try done. cbn. eauto 6.
  - cbn [sstep]. apply inv_frame; try done. cbn. eauto 6.
  - cbn [sstep]. by apply inv_write.
  - destruct Hi as [H1 H2 H3 H4]. split; cbn; try done. intros m Hm. destruct (H4 m Hm). by split.
Qed.

Lemma session_inv_run scope ttl iso exp now es :
  sess_inv (session_run (session_start scope ttl iso exp now) es).
Proof.
  unfold session_run. apply run_ops_invariant; [|apply session_inv_step].
  split; cbn; [constructor|constructor|constructor|]. intros m [= <-].
  split; cbn; [by intros i ?%not_elem_of_nil|by intros k ?%not_elem_of_nil|done|done].
Qed.

(** ** Theorems *)

(** Steps are numbered once and counted exactly: whatever clients append,
    reserve, commit, release and abandon concurrently, every index given out is
    positive and given out once, and while the session exists its step counter
    is the number of recorded steps and its character counter the length of the
    artifact. *)
Theorem session_indices_and_counters scope ttl iso exp now es :
  let w := session_run (session_start scope ttl iso exp now) es in
  NoDup (w_issued w) /\ Forall (fun i => 1 <= i) (w_issued w) /\
  (forall m, s_meta (w_sess w) = Some m ->
     step_count m = Z.of_nat (length (get_steps (w_sess w))) /\
     artifact_chars m = Some (Z.of_nat (slen (s_artifact (w_sess w)))) /\
     forall i, i ∈ w_issued w -> i < next_index m).
Proof.
  intros w. destruct (session_inv_run scope ttl iso exp now es) as [H1 H2 H3 H4]. fold w in H1, H2, H3, H4.
  split_and!; [done|done|]. intros m Hm. destruct (H4 m Hm) as [A1 A2 A3 A4].
  split_and!; [done|done|]. intros i Hi. specialize (A1 i Hi). unfold current_index in A1. lia.
Qed.

(** Exactly once: an idempotency key is published at most once in the life of
    a session, and from then on, while the session exists, reserving it again
    with the same request (or without naming one) runs nothing and returns what
    was published, and committing it again changes nothing. *)
Theorem session_commit_exactly_once scope ttl iso exp now es k :
  let w := session_run (session_start scope ttl iso exp now) es in
  NoDup (w_commits w) /\
  (k ∈ w_commits w -> s_meta (w_sess w) <> None -> exists result fp,
     s_idem (w_sess w) !! k = Some (Committed result fp) /\
     (forall token t lease mp fp', fp' = "" \/ fp' = fp ->
        reserve_step k token t lease mp fp' (w_sess w) = (w_sess w, Replay result fp)) /\
     (forall token rev step refs artifact result' exp' t,
        fst (commit_step (mkReservation k token rev fp) step refs artifact result' exp' t (w_sess w)) = w_sess w)).
Proof.
  intros w. destruct (session_inv_run scope ttl iso exp now es) as [H1 H2 H3 H4]. fold w in H1, H2, H3, H4.
  split; [done|]. intros Hk Hm. destruct (s_meta (w_sess w)) as [m|] eqn:Em; [|done].
  pose proof (al_commits _ _ (H4 m eq_refl) k Hk) as Hp. unfold published in Hp.
  destruct (s_idem (w_sess w) !! k) as [[| |result fp]|] eqn:Ek; try done.
  exists result, fp. split_and!; [done| |].
  - intros token t lease mp fp' Hf. unfold reserve_step. rewrite Em, Ek. cbn [item_fp].
    assert (Hc : negb (is_empty fp') && negb (String.eqb fp fp') = false).
    { destruct Hf as [-> | ->]; [done|]. by rewrite String.eqb_refl, andb_false_r. }
    by rewrite Hc.
  - intros token rev step refs artifact result' exp' t. unfold commit_step. rewrite Em. cbn [r_key]. rewrite Ek.
    cbn. by rewrite String.eqb_refl.
Qed.

(** *** Bounded reservations *)

Lemma live_mono now now' i : now <= now' -> live now' i = true -> live now i = true.
Proof. destruct i; cbn; [done| |done]. intros H H'. bool_to_prop. apply Z.ltb_lt. lia. Qed.

Lemma live_pending_subset now now' s s' :
  (forall k i, s_idem s' !! k = Some i -> live now' i = true ->
     exists i', s_idem s !! k = Some i' /\ live now i' = true) ->
  (live_pending now' s' <= live_pending now s)%nat.
Proof.
  intros H. unfold live_pending.
  rewrite <- !(size_dom (D := gset string)). apply subseteq_size.
  intros k. rewrite !elem_of_dom. intros [i Hi]. apply map_lookup_filter_Some in Hi as [Hi Hl]. cbn in Hl.
  destruct (H k i Hi Hl) as (i' & Hi' & Hl'). exists i'. by apply map_lookup_filter_Some.
Qed.

(** The reservation bound [P] is what every reservation asks for. *)
Definition reserves_at_most (P : Z) (e : sevent) : Prop :=
  match e with EReserve _ _ _ mp _ => mp <= P | _ => True end.

Lemma live_pending_insert now s key i :
  live now (default Sentinel (s_idem s !! key)) = false ->
  (live_pending now (with_idem s (<[key := i]> (s_idem s))) <= S (live_pending now s))%nat.
Proof.
  intros Hk. unfold live_pending. cbn. rewrite <- !(size_dom (D := gset string)).
  transitivity (size ({[key]} ∪ dom (filter (fun ki => live now ki.2 = true) (s_idem s)) : gset string)).
  - apply subseteq_size. intros k. rewrite elem_of_union, !elem_of_dom. intros [j Hj].
    apply map_lookup_filter_Some in Hj as [Hj Hl]. destruct (decide (key = k)) as [->|Hne]; [set_solver|].
    right. rewrite lookup_insert_ne in Hj by done. exists j. by apply map_lookup_filter_Some.
  - rewrite size_union_alt, size_singleton.
    pose proof (subseteq_size (dom (filter (fun ki => live now ki.2 = true) (s_idem s)) ∖ {[key]} : gset string)
      (dom (filter (fun ki => live now ki.2 = true) (s_idem s)))). 
    assert (size (dom (filter (fun ki => live now ki.2 = true) (s_idem s)) ∖ {[key]} : gset string)
      <= size (dom (filter (fun ki => live now ki.2 = true) (s_idem s)) : gset string))%nat by (apply H; set_solver).
    lia.
Qed.

Lemma bounded_reserve P w key token lease mp fp :
  mp <= P -> Z.of_nat (live_pending (w_clock w) (w_sess w)) <= P ->
  let w' := sstep w (EReserve key token lease mp fp) in
  Z.of_nat (live_pending (w_clock w') (w_sess w')) <= P.
Proof.
  intros He Hb. cbn. unfold reserve_step. destruct (s_meta (w_sess w)) as [m|]; [|done].
  destruct (match s_idem (w_sess w) !! key with Some i => _ | None => false end); [done|].
  assert (Hgo : live (w_clock w) (default Sentinel (s_idem (w_sess w) !! key)) = false ->
    mp <=? Z.of_nat (live_pending (w_clock w) (w_sess w)) = false -> forall i,
    Z.of_nat (live_pending (w_clock w) (with_idem (with_meta (w_sess w) (set_counts m (step_count m) (Some (next_index m))))
      (<[key := i]> (s_idem (w_sess w))))) <= P).
  { intros Hl Hmp i. bool_to_prop.
    pose proof (live_pending_insert (w_clock w) (w_sess w) key i Hl) as H. unfold live_pending in *. cbn in *. lia. }
  destruct (s_idem (w_sess w) !! key) as [[|t' i' r' e' f'|r' f']|] eqn:Ek; try done.
  all: cbn [live] in *; try (destruct (w_clock w <? e') eqn:El; [done|]);
    destruct (bool_decide _); try done; destruct (mp <=? _) eqn:Em; try done.
  all: by apply Hgo.
Qed.

Lemma bounded_step P w e :
  0 <= P -> reserves_at_most P e -> Z.of_nat (live_pending (w_clock w) (w_sess w)) <= P ->
  Z.of_nat (live_pending (w_clock (sstep w e)) (w_sess (sstep w e))) <= P.
Proof.
  intros HP He Hb.
  assert (Hle : (live_pending (w_clock (sstep w e)) (w_sess (sstep w e))
                 <= live_pending (w_clock w) (w_sess w))%nat ->
    Z.of_nat (live_pending (w_clock (sstep w e)) (w_sess (sstep w e))) <= P) by lia.
  assert (Hidem : w_clock (sstep w e) = w_clock w -> s_idem (w_sess (sstep w e)) = s_idem (w_sess w) ->
    Z.of_nat (live_pending (w_clock (sstep w e)) (w_sess (sstep w e))) <= P).
  { intros Hc Hi. unfold live_pending in *. by rewrite Hc, Hi. }
  destruct e as [owner step iso exp|owner content exp|owner refs exp|scope run owner ex refs|owner ref_id
    |key token lease mp fp|r step refs artifact result exp|key token| |owner|owner| | |d]; cbn [reserves_at_most] in He.
  - apply Hidem; cbn; unfold append_step; by destruct (write_guard _ _).
  - apply Hidem; cbn; [done|]; unfold append_artifact; by destruct (write_guard _ _).
  - apply Hidem; cbn; [done|]; unfold add_refs; by destruct (write_guard _ _).
  - apply Hidem; cbn; [done|]. unfold attach_research. by repeat (case_match; try done).
  - apply Hidem; cbn; [done|]. unfold remove_document. by repeat (case_match; try done).
  - by apply bounded_reserve.
  - apply Hle. cbn. unfold commit_step. destruct (s_meta (w_sess w)) as [m|]; [|done].
    destruct (s_idem (w_sess w) !! r_key r) as [i|]; [|done]. repeat (case_match; try done).
    apply live_pending_subset. cbn. intros k i' Hk Hl. destruct (decide (r_key r = k)) as [<-|Hne].
    + rewrite lookup_insert_eq in Hk. by injection Hk as <-.
    + rewrite lookup_insert_ne in Hk by done. eauto.
  - apply Hle. cbn. unfold release_step. repeat (case_match; try done).
    apply live_pending_subset. cbn. intros k i' Hk Hl. apply lookup_delete_Some in Hk as [_ Hk]. eauto.
  - apply Hle. apply live_pending_subset. cbn. intros k i. by rewrite lookup_empty.
  - apply Hidem; cbn; [done|]; unfold try_lock; by destruct (s_lock _).
  - apply Hidem; cbn; [done|]. unfold release_lock. by case_bool_decide.
  - by apply Hidem.
  - apply Hle. apply live_pending_subset. cbn. intros k i. by rewrite lookup_empty.
  - apply Hle. apply live_pending_subset. cbn. intros k i Hk Hl. exists i. split; [done|].
    eapply live_mono; [|exact Hl]. lia.
Qed.

(** Independent steps are bounded: when every reservation asks for at most [P]
    concurrent ones, there are never more than [P] reservations that have not
    run out. *)
Theorem session_pending_bounded P scope ttl iso exp now es :
  0 <= P -> Forall (reserves_at_most P) es ->
  let w := session_run (session_start scope ttl iso exp now) es in
  Z.of_nat (live_pending (w_clock w) (w_sess w)) <= P.
Proof.
  intros HP He. cbn zeta. unfold session_run, run_ops.
  assert (H0 : Z.of_nat (live_pending (w_clock (session_start scope ttl iso exp now))
                 (w_sess (session_start scope ttl iso exp now))) <= P).
  { cbn. transitivity (Z.of_nat 0); [|done]. apply inj_le. unfold live_pending. cbn.
    rewrite map_filter_singleton. cbn. by rewrite decide_False. }
  revert H0. generalize (session_start scope ttl iso exp now) as w.
  induction He as [|e es He _ IH]; intros w H0; cbn; [done|]. apply IH. by apply bounded_step.
Qed.

(** *** Expired sessions *)

(** Nothing is left to change: no metadata, and the data is gone or as it was. *)
Definition dead_since (w w' : World) : Prop :=
  s_meta (w_sess w') = None /\ w_issued w' = w_issued w /\ w_commits w' = w_commits w /\
  ((s_log (w_sess w') = s_log (w_sess w) /\ s_artifact (w_sess w') = s_artifact (w_sess w) /\
    s_refs (w_sess w') = s_refs (w_sess w)) \/
   (s_log (w_sess w') = [] /\ s_artifact (w_sess w') = "" /\ s_refs (w_sess w') = ∅)).

Lemma dead_step w0 w e : dead_since w0 w -> dead_since w0 (sstep w e).
Proof.
  intros (Hm & Hi & Hc & Hd). destruct e; cbn;
    unfold append_step, append_artifact, add_refs, attach_research, remove_document, reserve_step, commit_step,
      write_guard; rewrite ?Hm; cbn;
    try (unfold try_lock; destruct (s_lock (w_sess w)));
    try (unfold release_lock; case_bool_decide);
    try (unfold release_step; destruct (s_idem (w_sess w) !! _) as [[|t ? ? ? ?|]|]; try destruct (String.eqb t _));
    try (destruct (published _ _); cbn);
    split_and!; cbn; rewrite ?app_nil_r; try done; try (by right); by left.
Qed.

(** An expired or deleted session stays gone: no operation brings its metadata
    back, gives out another index, publishes another commit or adds to its
    steps, artifact or references. *)
Theorem session_never_revived w es :
  s_meta (w_sess w) = None -> dead_since w (session_run w es).
Proof.
  intros Hm. unfold session_run. apply (run_ops_invariant sstep (dead_since w)).
  - split_and!; try done. by left.
  - intros w' e. apply dead_step.
Qed.

(** *** Serialized steps *)

(** The event does not end the lock of [o]. *)
Definition keeps_lock (o : string) (e : sevent) : Prop :=
  match e with
  | EReleaseLock owner => owner <> o
  | ELockExpires | EDelete => False
  | _ => True
  end.

Lemma no_live_pending now s k i :
  live_pending now s = 0%nat -> s_idem s !! k = Some i -> live now i = false.
Proof.
  unfold live_pending. intros H Hk. apply map_size_empty_iff in H.
  destruct (live now i) eqn:E; [|done]. exfalso.
  assert (Hf : filter (fun ki => live now ki.2 = true) (s_idem s) !! k = Some i) by (by apply map_lookup_filter_Some).
  by rewrite H, lookup_empty in Hf.
Qed.

(** The serialized step of [o] runs alone. *)
Definition alone (o : string) (w0 w : World) : Prop :=
  s_lock (w_sess w) = Some o /\ live_pending (w_clock w) (w_sess w) = 0%nat /\ w_commits w = w_commits w0.

Lemma alone_step o w0 w e : keeps_lock o e -> alone o w0 w -> alone o w0 (sstep w e).
Proof.
  intros Hk (Hl & Hp & Hc).
  assert (Hb : live_pending (w_clock (sstep w e)) (w_sess (sstep w e)) = 0%nat).
  { assert (Hz : reserves_at_most 0 e -> live_pending (w_clock (sstep w e)) (w_sess (sstep w e)) = 0%nat).
    { intros Hr. pose proof (bounded_step 0 w e ltac:(lia) Hr ltac:(lia)). lia. }
    destruct e as [| | | | |key token lease mp fp| | | | | | | |]; try (by apply Hz).
    cbn. unfold reserve_step. rewrite Hl, bool_decide_eq_true_2 by done.
    repeat (case_match; simplify_eq/=; try done). }
  split_and!; [|exact Hb|].
  - destruct e; cbn [sstep upd w_sess]; try done;
      unfold append_step, append_artifact, add_refs, attach_research, remove_document, reserve_step, commit_step;
      try (repeat (case_match; simplify_eq/=; try done); done).
    + unfold release_step. by repeat (case_match; try done).
    + unfold try_lock. by rewrite Hl.
    + unfold release_lock. cbn in Hk. rewrite bool_decide_eq_false_2; [done|]. congruence.
  - destruct e as [| | | | | |r step refs artifact result exp| | | | | | |]; cbn; try done.
    + by destruct (append_step _ _ _ _ _).
    + by destruct (reserve_step _ _ _ _ _ _ _).
    + unfold commit_step.
      assert (Hsame : forall j : option json, w_commits w ++ (if negb (published (r_key r) (w_sess w))
        && published (r_key r) (fst (w_sess w, j)) then [r_key r] else []) = w_commits w0).
      { intros j. cbn. destruct (published _ _); cbn; by rewrite app_nil_r. }
      destruct (s_meta (w_sess w)) as [m|]; [|apply Hsame].
      destruct (s_idem (w_sess w) !! r_key r) as [i|] eqn:Ek; [|apply Hsame].
      destruct (negb (String.eqb _ _)); [apply Hsame|]. destruct i as [|t ix rv e f|res f]; [apply Hsame| |apply Hsame].
      destruct (negb (String.eqb _ _)); [apply Hsame|].
      pose proof (no_live_pending _ _ _ _ Hp Ek) as Hlive. cbn in Hlive.
      replace (e <=? w_clock w) with true; [apply Hsame|]. symmetry. apply Z.leb_le. bool_to_prop. lia.
Qed.

(** Serialized and independent steps exclude each other: once a serialized
    step holds the session's lock and has seen no pending reservation, then as
    long as its lock is not released, lost or deleted, no reservation becomes
    pending and no independent step is published, whatever the other clients
    do; and every write of a client that lost the lock, or never held it, is
    refused without a trace. *)
Theorem session_serial_exclusive o w es :
  s_lock (w_sess w) = Some o -> has_pending_steps (w_clock w) (w_sess w) = false ->
  Forall (keeps_lock o) es ->
  let w' := session_run w es in
  s_lock (w_sess w') = Some o /\ has_pending_steps (w_clock w') (w_sess w') = false /\
  w_commits w' = w_commits w /\
  (forall owner step iso exp content refs, owner <> "" -> owner <> o ->
     append_step owner step iso exp (w_sess w') = (w_sess w', None) /\
     append_artifact owner content exp (w_sess w') = (w_sess w', false) /\
     add_refs owner refs exp (w_sess w') = (w_sess w', false)).
Proof.
  intros Hl Hp He. cbn zeta.
  assert (H : alone o w (session_run w es)).
  { assert (H0 : alone o w w).
    { split_and!; [done| |done]. unfold has_pending_steps in Hp. bool_to_prop. by apply Nat.eqb_eq. }
    clear Hl Hp. unfold session_run, run_ops. revert H0. generalize w at 2 4 as v. revert w.
    induction He as [|e es He _ IH]; intros w v H0; cbn; [done|]. apply IH. by apply alone_step. }
  destruct H as (H1 & H2 & H3). split_and!; [done|unfold has_pending_steps; by rewrite H2|done|].
  intros owner step iso exp content refs Hne Hno.
  assert (Hg : write_guard owner (w_sess (session_run w es)) = None).
  { unfold write_guard. destruct (s_meta _); [|done]. rewrite H1.
    rewrite bool_decide_eq_false_2 by congruence. by destruct owner. }
  unfold append_step, append_artifact, add_refs. by rewrite Hg.
Qed.

(** ** Witnesses *)

Definition demo_session : World := session_start None 3600 "t0" "t1" 100.

Lemma session_pending_bounded_witness :
  let es := [EReserve "a" "ta" 120 2 ""; EReserve "b" "tb" 120 2 ""; EReserve "c" "tc" 120 2 ""] in
  let w := session_run demo_session es in
  w_issued w = [1; 2] /\ Z.of_nat (live_pending (w_clock w) (w_sess w)) <= 2.
Proof.
  intros es w. split; [vm_compute; reflexivity|].
  apply (session_pending_bounded 2 None 3600 "t0" "t1" 100 es); [lia|].
  repeat constructor; cbn; lia.
Defined.

Lemma session_never_revived_witness :
  let w := session_run demo_session [EReserve "a" "ta" 120 8 ""; ESessionExpires] in
  let w' := session_run w [ECommit (mkReservation "a" "ta" 0 "") (JObj []) [] "text" JNull "t2";
                           EAppendStep "" [] "t2" "t3"; EReserve "b" "tb" 120 8 ""] in
  s_meta (w_sess w) = None /\ dead_since w w' /\ w_issued w' = [1].
Proof.
  intros w w'. assert (Hm : s_meta (w_sess w) = None) by (vm_compute; reflexivity).
  split; [exact Hm|]. split; [exact (session_never_revived w _ Hm)|vm_compute; reflexivity].
Defined.

Lemma session_serial_exclusive_witness :
  let w := session_run demo_session [ETryLock "o"] in
  let w' := session_run w [EReserve "a" "ta" 120 8 ""; ETryLock "p"; EAppendStep "o" [] "t1" "t2"] in
  s_lock (w_sess w') = Some "o" /\ w_issued w' = [1] /\
  append_step "p" [] "t1" "t2" (w_sess w') = (w_sess w', None).
Proof.
  intros w w'.
  assert (Hl : s_lock (w_sess w) = Some "o") by (vm_compute; reflexivity).
  assert (Hp : has_pending_steps (w_clock w) (w_sess w) = false) by (vm_compute; reflexivity).
  destruct (session_serial_exclusive "o" w [EReserve "a" "ta" 120 8 ""; ETryLock "p";
    EAppendStep "o" [] "t1" "t2"] Hl Hp ltac:(repeat constructor)) as (H1 & _ & _ & H2).
  split; [exact H1|]. split; [vm_compute; reflexivity|].
  exact (proj1 (H2 "p" [] "t1" "t2" "" [] ltac:(discriminate) ltac:(discriminate))).
Defined.
