(* ===== verification/SessionStep.v ===== *)
(** * Session steps ([src/agent-svc/agent/session.py])

    [SessionManager.step] and the four actions it dispatches to, as programs
    that call the session store ([Session]), the search, scraping and language
    model services and the reference resolver.  Between two calls anything may
    happen: other clients change the session, and a call may be carried out, be
    lost, or be carried out and then fail or be cancelled.  [exec] runs a program
    against a list of such turns.

    A program is a tree of calls; [try_] is [try]/[except] and [await] sequence.
    The tokens that [uuid4] makes, the clock strings and the number of lock
    attempts that the deadline leaves are arguments.  Search results and scraper
    responses are JSON objects whose text fields are strings; a value printed
    into a message is a scalar.  The em dash of the headings is one character
    here, as there.  The heartbeat that renews the lock has no effect on the
    model, where the lock may be lost at any moment. *)

From stdpp Require Import pretty.
From S2P Require Import Prelude Strings Json Barrier Evidence SearchMeta Session.

(** ** Calls *)

Inductive Reason :=
| SessionNotFound | ReservedFields | ParallelUnsupported | ModelRequired | KeyConflict | StepRunning
| PendingSteps | UnknownAction | MissingQuery | MissingUrls | MissingQuestion | NoContext
| BadEvidence (e : EvidenceError) | SelectionNotFound | SelectionNotRetained | NeedsResolver
| MissingRefId | MissingTopic | RefNotFound | RefNotScraped
| CommitLost            (* the session expired, was deleted or was taken over during the commit *)
| ChangedOrDeleted.     (* the independent step could not be published *)

Inductive Exn :=
| Cancelled
| ServiceError          (* what a store or a service call raised *)
| ValueError (r : Reason).

Inductive Req :=
| QGet
| QGetArtifact
| QGetRefs
| QGetRef (id : string)
| QAppendStep (owner : string) (step : list (string * json))
| QAppendArtifact (owner content : string)
| QAddRefs (owner : string) (refs : list (string * json))
| QReserve (key token fp : string)
| QCommit (r : Reservation) (step : json) (refs : list (string * json)) (artifact : string) (result : json)
| QReleaseStep (key token : string)
| QHasPending
| QTryLock (token : string)
| QReleaseLock (token : string)
| QSearch (args : json)
| QScrape (url : string)
| QGenerate (prompt : json)
| QResolve (ref : json)
| QPause.               (* an await with no effect: a sleep, a worker thread, the end of the heartbeat *)

Definition reply (q : Req) : Type :=
  match q with
  | QGet => option SessionMeta
  | QGetArtifact => string
  | QGetRefs => list (string * json)
  | QGetRef _ => option json
  | QAppendStep _ _ => option Z
  | QAppendArtifact _ _ | QAddRefs _ _ => bool
  | QReserve _ _ _ => Reserve * bool         (* and whether the caller was cancelled meanwhile *)
  | QCommit _ _ _ _ _ => option json
  | QHasPending | QTryLock _ => bool
  | QSearch _ => list json * json            (* the results and their coverage *)
  | QScrape _ | QResolve _ => json
  | QGenerate _ => string
  | QReleaseStep _ _ | QReleaseLock _ | QPause => unit
  end.

(** ** Programs *)

Inductive prog (A : Type) : Type :=
| Ret (a : A)
| Fail (e : Exn)
| Call (q : Req) (k : reply q + Exn -> prog A).
Arguments Ret {A} _.
Arguments Fail {A} _.
Arguments Call {A} _ _.

(** [try: p] followed by what is done with its value or its exception. *)
Fixpoint try_ {A B : Type} (p : prog A) (h : A + Exn -> prog B) : prog B :=
  match p with
  | Ret a => h (inl a)
  | Fail e => h (inr e)
  | Call q k => Call q (fun r => try_ (k r) h)
  end.

Definition bind {A B : Type} (p : prog A) (f : A -> prog B) : prog B :=
  try_ p (fun r => match r with inl a => f a | inr e => Fail e end).

Definition call (q : Req) : prog (reply q) :=
  Call q (fun r => match r with inl a => Ret a | inr e => Fail e end).

Declare Scope step_scope.
Delimit Scope step_scope with step.
Notation "'await' x <- p ; q" := (bind p (fun x => q))
  (at level 100, x binder, p at next level, right associativity) : step_scope.
Notation "p ;; q" := (bind p (fun _ => q)) (at level 100, right associativity) : step_scope.
Open Scope step_scope.

(** [raise ValueError(...)], and the same unless a condition holds. *)
Definition reject {A : Type} (r : Reason) : prog A := Fail (ValueError r).
Definition require (b : bool) (r : Reason) : prog unit := if b then Ret tt else reject r.

(** [try: p finally: q]. *)
Definition finally {A : Type} (p : prog A) (q : prog unit) : prog A :=
  try_ p (fun r => q ;; match r with inl a => Ret a | inr e => Fail e end).

(** ** Running *)

Inductive Net := NSearch (results : list json) (coverage : json) | NDoc (j : json) | NText (s : string) | NNone.

(** Why a call does not return: the caller is cancelled, or the service raises. *)
Inductive Fault := Cancel | Broken.

Definition exn_of (f : Fault) : Exn := match f with Cancel => Cancelled | Broken => ServiceError end.

(** What becomes of a call: carried out, lost before it had an effect, or carried
    out although the caller sees an exception. *)
Inductive Fate := Done | Lost (f : Fault) | Late (f : Fault).

Record Turn := mkTurn {
  t_env : list sevent;        (* what the others do before the call *)
  t_fate : Fate;
  t_iso : string;             (* the clock strings of the call *)
  t_exp : string;
  t_cancel : bool;            (* the caller is cancelled while it waits for a reservation *)
  t_net : Net
}.

Definition RESERVATION_TTL : Z := 120.
Definition MAX_PENDING : Z := 8.

(** What a call does to the session. *)
Definition event_of (t : Turn) (q : Req) : option sevent :=
  match q with
  | QAppendStep owner step => Some (EAppendStep owner step (t_iso t) (t_exp t))
  | QAppendArtifact owner content => Some (EAppendArtifact owner content (t_exp t))
  | QAddRefs owner refs => Some (EAddRefs owner refs (t_exp t))
  | QReserve key token fp => Some (EReserve key token RESERVATION_TTL MAX_PENDING fp)
  | QCommit r step refs artifact result => Some (ECommit r step refs artifact result (t_exp t))
  | QReleaseStep key token => Some (ERelease key token)
  | QTryLock token => Some (ETryLock token)
  | QReleaseLock token => Some (EReleaseLock token)
  | _ => None
  end.

Definition perform (t : Turn) (q : Req) (w : World) : World :=
  match event_of t q with Some e => sstep w e | None => w end.

(** What the caller is told; [None] is a service that did not answer in kind. *)
Definition reply_of (t : Turn) (q : Req) (w : World) : option (reply q) :=
  let s := w_sess w in
  match q with
  | QGet => Some (s_meta s)
  | QGetArtifact => Some (s_artifact s)
  | QGetRefs => Some (map_to_list (s_refs s))
  | QGetRef id => Some (s_refs s !! id)
  | QAppendStep owner step => Some (snd (append_step owner step (t_iso t) (t_exp t) s))
  | QAppendArtifact owner content => Some (snd (append_artifact owner content (t_exp t) s))
  | QAddRefs owner refs => Some (snd (add_refs owner refs (t_exp t) s))
  | QReserve key token fp =>
      Some (snd (reserve_step key token (w_clock w) RESERVATION_TTL MAX_PENDING fp s), t_cancel t)
  | QCommit r step refs artifact result => Some (snd (commit_step r step refs artifact result (t_exp t) (w_clock w) s))
  | QHasPending => Some (has_pending_steps (w_clock w) s)
  | QTryLock token => Some (snd (try_lock token s))
  | QSearch _ => match t_net t with NSearch rs cov => Some (rs, cov) | _ => None end
  | QScrape _ => match t_net t with NDoc j => Some j | _ => None end
  | QResolve _ => match t_net t with NDoc j => Some j | _ => None end
  | QGenerate _ => match t_net t with NText a => Some a | _ => None end
  | QReleaseStep _ _ | QReleaseLock _ | QPause => Some tt
  end.

(** A call that was made, and the session it met. *)
Record Entry := mkEntry { e_req : Req; e_turn : Turn; e_world : World }.

(** What the caller sees and the world it leaves. *)
Definition respond (t : Turn) (q : Req) (w : World) : World * (reply q + Exn) :=
  match t_fate t with
  | Lost f => (w, inr (exn_of f))
  | Late f => (perform t q w, inr (exn_of f))
  | Done => (perform t q w, match reply_of t q w with Some r => inl r | None => inr ServiceError end)
  end.

(** The world at the end, the outcome ([None]: the turns ran out, the process is
    still waiting or is gone), and the calls made. *)
Fixpoint exec {A : Type} (p : prog A) (ts : list Turn) (w : World) (tr : list Entry)
    : World * option (A + Exn) * list Entry :=
  match p with
  | Ret a => (w, Some (inl a), tr)
  | Fail e => (w, Some (inr e), tr)
  | Call q k =>
      match ts with
      | [] => (w, None, tr)
      | t :: ts =>
          let w1 := session_run w (t_env t) in
          let '(w2, r) := respond t q w1 in
          exec (k r) ts w2 (tr ++ [mkEntry q t w1])
      end
  end.

(** ** Values *)

Definition as_text (j : json) : string := match j with JStr s => s | _ => "" end.
Definition as_num (j : json) : Z := match j with JNum n => n | _ => 0 end.
Definition show (j : json) : string := default "" (fmt j).
Definition em_dash : string := String (Ascii.ascii_of_nat 151) EmptyString.

(** [f"ref_{step_index}_{i}"]. *)
Definition ref_id (index : Z) (i : nat) : string := "ref_" +:+ pretty index +:+ "_" +:+ pretty (Z.of_nat i).

(** The pairs of [enumerate(l, 1)]. *)
Definition enumerate {A : Type} (l : list A) : list (nat * A) := zip (seq 1 (length l)) l.

Fixpoint concat_map {A : Type} (f : A -> string) (l : list A) : string :=
  match l with [] => "" | x :: l => f x +:+ concat_map f l end.

(** ** Store calls that must succeed ([_store_call], [_store_refs]) *)

Definition put_step (owner : string) (step : list (string * json)) : prog Z :=
  await i <- call (QAppendStep owner step); match i with Some n => Ret n | None => reject CommitLost end.

Definition put_refs (owner : string) (refs : list (string * json)) : prog unit :=
  await ok <- call (QAddRefs owner refs); require ok CommitLost.

Definition put_artifact (owner section : string) : prog unit :=
  await ok <- call (QAppendArtifact owner section); require ok CommitLost.

Definition publish (r : Reservation) (step : list (string * json)) (refs : list (string * json)) (section : string)
    (result : json) : prog json :=
  await c <- call (QCommit r (JObj step) refs section result);
  match c with Some res => Ret res | None => reject ChangedOrDeleted end.

(** The common end of the search and scrape actions: a serialized step writes its
    step, references and section under its lock; an independent one publishes
    them with its reservation. *)
Definition conclude (owner : string) (par : option (Z * Reservation)) (step : list (string * json))
    (refs : Z -> list (string * json)) (section : Z -> string) (result : Z -> json) : prog json :=
  match par with
  | None =>
      await index <- put_step owner step;
      put_refs owner (refs index) ;;
      put_artifact owner (section index) ;;
      Ret (result index)
  | Some (index, r) => publish r (step ++ [("index", JNum index)]) (refs index) (section index) (result index)
  end.

(** ** Search *)

(** The reference kept for a search result. *)
Definition search_ref (r : json) : json :=
  let description := jget_default r "description" (JStr "") in
  JObj ([("url", jget_default r "url" (JStr "")); ("title", jget_default r "title" (JStr "")); ("markdown", description);
         ("scraped_at", JStr ""); ("source", JStr "search")]
        ++ search_metadata r
        ++ [("relevance", description); ("char_count", JNum (len (as_text description)))]).

(** The results with a URL, with their positions. *)
Definition with_url (results : list json) : list (nat * json) :=
  List.filter (fun ir => truthy (jget_default (snd ir) "url" (JStr ""))) (enumerate results).

Definition search_refs (results : list json) (index : Z) : list (string * json) :=
  (fun ir => (ref_id index (fst ir), search_ref (snd ir))) <$> with_url results.

Definition top_urls (results : list json) (index : Z) : list json :=
  (fun ir => JObj ([("ref_id", JStr (ref_id index (fst ir))); ("url", jget_default (snd ir) "url" (JStr ""));
                    ("title", jget_default (snd ir) "title" (JStr ""))] ++ search_metadata (snd ir)))
    <$> with_url results.

Definition search_section (query : json) (results : list json) (index : Z) : string :=
  nl +:+ nl +:+ "## Step " +:+ pretty index +:+ ": Search " +:+ em_dash +:+ " " +:+ show query +:+ nl +:+ nl
  +:+ concat_map (fun r => "- [" +:+ show (jor (jget r "title") (jget r "url")) +:+ "](" +:+ show (jget r "url")
                           +:+ ") `" +:+ as_text (jget r "ref_id") +:+ "`" +:+ nl) (take 10 (top_urls results index))
  +:+ nl +:+ "*" +:+ pretty (Z.of_nat (length (with_url results))) +:+ " results stored as references.*" +:+ nl.

Definition search_result (params query : json) (results : list json) (coverage : json) (index : Z) : json :=
  let n := Z.of_nat (length (with_url results)) in
  JObj [("step_index", JNum index); ("action", JStr "search"); ("query", query); ("coverage", coverage);
        ("continuation",
          if truthy coverage && truthy (jget coverage "has_more_in_page") then
            JObj [("query", query); ("limit", jget_default params "limit" (JNum 10));
                  ("page", jget_default params "page" (JNum 1));
                  ("offset", JNum (as_num (jget_default params "offset" (JNum 0)) + Z.of_nat (length results)));
                  ("sources", jget params "sources"); ("categories", jget params "categories")]
          else JNull);
        ("ref_count", JNum n); ("top_refs", JArr (take 10 (top_urls results index)));
        ("summary", JStr ("Search '" +:+ show query +:+ "' returned " +:+ pretty n +:+ " results, stored as refs "
                          +:+ pretty index +:+ "_1 through " +:+ pretty index +:+ "_" +:+ pretty n))].

(** The page arguments are passed only when they differ from the defaults. *)
Definition page_args (params : json) : list (string * json) :=
  let page := jget_default params "page" (JNum 1) in
  let offset := jget_default params "offset" (JNum 0) in
  if match page with JNum 1 => false | _ => true end || truthy offset
  then [("page", page); ("offset", offset)] else [].

(** [_step_search]. *)
Definition _step_search (owner stamp : string) (par : option (Z * Reservation)) (params : json) : prog json :=
  let query := jget_default params "query" (JStr "") in
  let limit := jget_default params "limit" (JNum 10) in
  require (truthy query) MissingQuery ;;
  await found <- call (QSearch (JObj ([("query", query); ("limit", limit); ("sources", jget params "sources");
                                       ("categories", jget params "categories")] ++ page_args params)));
  let results := fst found in
  let step := [("action", JStr "search"); ("params", JObj [("query", query); ("limit", limit)]);
               ("summary", JStr ("Search: " +:+ show query +:+ " (" +:+ pretty (Z.of_nat (length results)) +:+ " results)"));
               ("timestamp", JStr stamp)] in
  conclude owner par step (search_refs results) (search_section query results)
    (search_result params query results (snd found)).

(** ** Scrape *)

Record Scraped := mkScraped { sc_url : string; sc_markdown : string; sc_source : json }.

(** The part of [_scrape_one] that decides whether a response is used; a response
    it cannot read raises, which [_scrape_one] turns into nothing. *)
Definition usable (url : string) (result : json) : option Scraped :=
  let data := jget_default result "data" (JObj []) in
  if truthy (jget result "success") && is_obj data && truthy (jget data "markdown") then
    match is_barrier_flagged result, jget data "markdown" with
    | Some false, JStr m => Some (mkScraped url m (jget_default data "source" (JStr "unknown")))
    | _, _ => None
    end
  else None.

(** [_scrape_one] for every URL; only a cancellation escapes. *)
Fixpoint scrape_all (urls : list string) : prog (list Scraped) :=
  match urls with
  | [] => Ret []
  | url :: urls =>
      Call (QScrape url) (fun r =>
        match r with
        | inr Cancelled => Fail Cancelled
        | inr _ => scrape_all urls
        | inl result =>
            match usable url result with
            | Some s => await rest <- scrape_all urls; Ret (s :: rest)
            | None => scrape_all urls
            end
        end)
  end.

Definition scraped_ref (s : Scraped) : json :=
  JObj [("url", JStr (sc_url s)); ("title", JStr (sc_url s)); ("markdown", JStr (sc_markdown s)); ("scraped_at", JStr "");
        ("source", sc_source s); ("char_count", JNum (len (sc_markdown s)))].

Definition scraped_refs (scraped : list Scraped) (index : Z) : list (string * json) :=
  (fun ns => (ref_id index (fst ns), scraped_ref (snd ns))) <$> enumerate scraped.

Definition refs_added (scraped : list Scraped) (index : Z) : list json :=
  (fun ns => JObj [("ref_id", JStr (ref_id index (fst ns))); ("url", JStr (sc_url (snd ns)));
                   ("char_count", JNum (len (sc_markdown (snd ns))))]) <$> enumerate scraped.

(** The preview shows the first document scraped from the URL. *)
Definition preview (scraped : list Scraped) (url : string) : string :=
  match List.find (fun s => String.eqb (sc_url s) url) scraped with
  | Some s => stake 500 (sc_markdown s) +:+ "..." +:+ nl +:+ nl
  | None => ""
  end.

Definition scrape_section (scraped : list Scraped) (index : Z) : string :=
  nl +:+ nl +:+ "## Step " +:+ pretty index +:+ ": Scrape " +:+ em_dash +:+ " " +:+ pretty (Z.of_nat (length scraped))
  +:+ " URLs" +:+ nl +:+ nl
  +:+ concat_map (fun ns => "### Source: " +:+ sc_url (snd ns) +:+ nl +:+ nl +:+ "> Reference: `" +:+ ref_id index (fst ns)
        +:+ "` | " +:+ pretty (len (sc_markdown (snd ns))) +:+ " chars" +:+ nl +:+ nl +:+ preview scraped (sc_url (snd ns)))
      (enumerate scraped).

Definition scrape_result (n_urls : nat) (scraped : list Scraped) (index : Z) : json :=
  let n := Z.of_nat (length scraped) in
  let urls := Z.of_nat n_urls in
  JObj [("step_index", JNum index); ("action", JStr "scrape"); ("ref_count", JNum n); ("refs", JArr (refs_added scraped index));
        ("char_count", JNum (foldr (fun s acc => len (sc_markdown s) + acc) 0 scraped));
        ("succeeded", JNum n); ("failed", JNum (urls - n));
        ("summary", JStr ("Scraped " +:+ pretty n +:+ "/" +:+ pretty urls +:+ " URLs, stored as refs " +:+ pretty index
                          +:+ "_1 through " +:+ pretty index +:+ "_" +:+ pretty n))].

(** The elements of a list of strings. *)
Definition as_list (j : json) : list json := match j with JArr l => l | _ => [] end.

(** [_step_scrape]. *)
Definition _step_scrape (owner stamp : string) (par : option (Z * Reservation)) (params : json) : prog json :=
  let urls := as_list (jget_default params "urls" (JArr [])) in
  require (negb (Nat.eqb (length urls) 0)) MissingUrls ;;
  await scraped <- scrape_all (as_text <$> urls);
  let n := pretty (Z.of_nat (length scraped)) in
  let step := [("action", JStr "scrape"); ("params", JObj [("urls", JArr urls)]);
               ("summary", JStr ("Scrape: " +:+ n +:+ "/" +:+ pretty (Z.of_nat (length urls)) +:+ " URLs succeeded"));
               ("timestamp", JStr stamp)] in
  conclude owner par step (scraped_refs scraped) (scrape_section scraped) (scrape_result (length urls) scraped).

(** ** References linked to retained research ([_resolve_attached_ref]) *)

Definition resolve_attached (has_resolver : bool) (ref : json) : prog json :=
  if negb (truthy (jget ref "research_source")) then Ret ref
  else if negb has_resolver then reject NeedsResolver
  else call (QResolve ref).

(** [{key: await self._resolve_attached_ref(ref) for key, ref in refs.items()}]. *)
Fixpoint resolve_all (has_resolver : bool) (refs : list (string * json)) : prog (list (string * json)) :=
  match refs with
  | [] => Ret []
  | (k, ref) :: refs =>
      await r <- resolve_attached has_resolver ref;
      await rest <- resolve_all has_resolver refs;
      Ret ((k, r) :: rest)
  end.

(** The revalidation before an answer is published. *)
Fixpoint revalidate (has_resolver : bool) (refs : list (string * json)) : prog unit :=
  match refs with
  | [] => Ret tt
  | (_, ref) :: refs =>
      (if truthy (jget ref "research_source") then resolve_attached has_resolver ref ;; Ret tt else Ret tt) ;;
      revalidate has_resolver refs
  end.

(** [resolve_ref]. *)
Definition resolve_ref (has_resolver : bool) (id : string) : prog (option json) :=
  await ref <- call (QGetRef id);
  match ref with
  | Some r => await r' <- resolve_attached has_resolver r; Ret (Some r')
  | None => Ret None
  end.

(** [resolve_refs]: the ones that are missing are left out. *)
Fixpoint resolve_refs (has_resolver : bool) (ids : list string) : prog (list (string * json)) :=
  match ids with
  | [] => Ret []
  | id :: ids =>
      await ref <- resolve_ref has_resolver id;
      await rest <- resolve_refs has_resolver ids;
      Ret (match ref with Some r => (id, r) :: rest | None => rest end)
  end.

(** ** Query *)

(** [{"id": id, **ref}]. *)
Definition as_source (id : string) (ref : json) : json :=
  JObj (("id", JStr id) :: match ref with JObj l => l | _ => [] end).

(** [build_evidence_async]: an await, then the selection or its error. *)
Definition evidence (sha256 : string -> string) (sources : list json) (query : json) (budget : json) : prog Evidence :=
  call QPause ;;
  match build_evidence sha256 sources (as_text query) budget with
  | Ok e => Ret e
  | Raise err => reject (BadEvidence err)
  end.

(** The references of [ref_ids], in their order without repetition; [None] when
    the selection is not a nonempty list of known references. *)
Definition selected_refs (ids : json) (refs : list (string * json)) : option (list (string * json)) :=
  match ids with
  | JArr (i :: l) =>
      let names := omap (fun j => match j with JStr s => Some s | _ => None end) (i :: l) in
      if negb (Nat.eqb (length names) (S (length l))) then None
      else
        let known := fun n => match assoc n refs with Some _ => true | None => false end in
        if forallb known names
        then Some (omap (fun n => (fun r => (n, r)) <$> assoc n refs) (reverse (remove_dups (reverse names))))
        else None
  | _ => None
  end.

Definition has_text (ref : json) : bool := truthy (jget ref "markdown").

(** The sources shown to the model: the references with text, or the notes. *)
Definition evidence_sources (artifact : string) (refs : list (string * json)) : list json :=
  match List.filter (fun kr => has_text (snd kr)) refs with
  | [] => [JObj [("id", JStr "session-notes");
                 ("markdown", JStr (if is_empty artifact
                    then sjoin nl ((fun kr => show (jget_default (snd kr) "description" (JStr ""))) <$> refs)
                    else artifact))]]
  | l => (fun kr => as_source (fst kr) (snd kr)) <$> l
  end.

(** The sources of the coverage that are references with text. *)
Definition citable (refs : list (string * json)) (sources : list SourceEvidence) : list string :=
  omap (fun e => match ev_id e with
                 | JStr id => match assoc id refs with
                              | Some r => if has_text r then Some id else None
                              | None => None end
                 | _ => None end) sources.

(** [citation_numbers]. *)
Definition citation_numbers (refs : list (string * json)) (sources : list SourceEvidence) : list (string * nat) :=
  (fun ni => (snd ni, fst ni)) <$> enumerate (citable refs sources).

(** The last number given to an identifier, as in the dictionary. *)
Fixpoint number_of (id : string) (l : list (string * nat)) : option nat :=
  match l with
  | [] => None
  | (k, n) :: l => match number_of id l with Some m => Some m | None => if String.eqb id k then Some n else None end
  end.

Definition citation_guidance (numbers : list (string * nat)) : string :=
  match numbers with
  | [] => nl +:+ nl +:+ "Citation guidance: This context contains session notes, not a retained source that can be resolved to an exact passage. You may summarize the notes, but they cannot be cited as a retained source. Do not add citation markers or invent a source identity."
  | _ => nl +:+ nl +:+ "Citation key (use these exact markers in your answer):" +:+ nl
         +:+ sjoin nl ((fun kn => "[" +:+ pretty (Z.of_nat (snd kn)) +:+ "] = " +:+ fst kn) <$> numbers)
  end.

(** The text begins with the marker, and the marker is not followed by a word character. *)
Definition marker_here (marker s : string) : bool :=
  starts_with marker s && match sdrop (slen marker) s with String c _ => negb (word_char c) | EmptyString => true end.

(** [re.search(rf"(?<![\w])\[{n}\](?![\w])", answer)]. *)
Fixpoint marker_in (marker : string) (after_word : bool) (s : string) : bool :=
  (negb after_word && marker_here marker s) ||
  match s with
  | EmptyString => false
  | String c s => marker_in marker (word_char c) s
  end.

Definition cited (answer id : string) (n : nat) : bool :=
  substring_of ("[" +:+ id +:+ "]") answer || marker_in ("[" +:+ pretty (Z.of_nat n) +:+ "]") false answer.

Definition spans_doc (ps : list Passage) : json :=
  JArr ((fun p => JObj [("start", JNum (pa_start p)); ("end", JNum (pa_end p)); ("passage_id", JStr (passage_id p));
                        ("quote_digest", JStr (quote_digest p))]) <$> ps).

Definition citation (refs : list (string * json)) (e : SourceEvidence) (id : string) (n : nat) : json :=
  let ref := default (JObj []) (assoc id refs) in
  JObj [("index", JNum (Z.of_nat n)); ("ref_id", JStr id); ("snapshot_id", ev_snapshot e);
        ("content_digest", JStr (content_sha256 (ev_selection e)));
        ("spans", spans_doc (ev_passages e));
        ("url", jget_default ref "url" (JStr "")); ("anchors", jget_default ref "anchors" (JArr []));
        ("extraction", jget_default ref "extraction" (JObj []))].

(** The citations of an answer. *)
Definition citations (refs : list (string * json)) (sources : list SourceEvidence) (answer : string) : list json :=
  omap (fun e => match ev_id e with
                 | JStr id => match number_of id (citation_numbers refs sources) with
                              | Some n => if cited answer id n then Some (citation refs e id n) else None
                              | None => None end
                 | _ => None end) sources.

(** [selected["coverage"]]. *)
Definition coverage_doc (query : json) (e : Evidence) : json :=
  JObj [("method", JStr "lexical_passages_v1"); ("budget_chars", JNum (budget_chars e));
        ("selected_chars", JNum (all_selected_chars e)); ("complete", JBool (all_complete e));
        ("coverage_scope", JStr "supplied_retained_text_only"); ("coverage_complete", JBool false);
        ("source_chars", JNum (all_source_chars e)); ("omitted_chars", JNum (all_omitted_chars e));
        ("sources", JArr ((fun s => let sel := ev_selection s in
           JObj [("id", ev_id s); ("snapshot_id", ev_snapshot s); ("url", ev_url s);
                 ("content_sha256", JStr (content_sha256 sel)); ("source_chars", JNum (source_chars sel));
                 ("selected_chars", JNum (selected_chars sel)); ("omitted_chars", JNum (omitted_chars sel));
                 ("complete", JBool (complete sel)); ("spans", spans_doc (ev_passages s));
                 ("recovery", JObj [("action", JStr "select_evidence"); ("id", ev_id s); ("snapshot_id", ev_snapshot s);
                                    ("content_digest", JStr (content_sha256 sel)); ("query", query);
                                    ("budget_chars", JNum (budget_chars e))])]) <$> sources e))].

(** [_step_query]; the fixed system prompt is left out of the request. *)
Definition _step_query (sha256 : string -> string) (has_resolver : bool) (llm_model owner : string) (params : json)
    : prog json :=
  let question := jget_default params "question" (JStr "") in
  require (truthy question) MissingQuestion ;;
  await artifact <- call QGetArtifact;
  await refs <- call QGetRefs;
  require (negb (is_empty artifact && Nat.eqb (length refs) 0)) NoContext ;;
  let budget := jget_default params "evidence_budget_chars" (JNum DEFAULT_EVIDENCE_CHARS) in
  require (match validate_evidence_budget budget with Some _ => true | None => false end) (BadEvidence BadBudget) ;;
  await refs <- match jget params "ref_ids" with
                | JNull => resolve_all has_resolver refs
                | ids => match selected_refs ids refs with
                         | None => reject SelectionNotFound
                         | Some sel =>
                             await sel' <- resolve_all has_resolver sel;
                             require (forallb (fun kr => has_text (snd kr)) sel') SelectionNotRetained ;;
                             Ret sel'
                         end
                end;
  await selected <- evidence sha256 (evidence_sources artifact refs) question budget;
  let numbers := citation_numbers refs (sources selected) in
  let model := jget_default params "model" (JStr llm_model) in
  let model := match model with JStr "default" => JStr llm_model | m => m end in
  await answer <- call (QGenerate (JObj [("model", model); ("user_prompt", question);
                                         ("context", JStr (context selected +:+ citation_guidance numbers))]));
  revalidate has_resolver refs ;;
  await index <- put_step owner [("action", JStr "query"); ("params", JObj [("question", question)]);
                                 ("summary", JStr ("Query: " +:+ stake 80 (as_text question) +:+ "..."))];
  put_artifact owner (nl +:+ nl +:+ "## Step " +:+ pretty index +:+ ": Query" +:+ nl +:+ nl +:+ "**Q:** " +:+ show question
                      +:+ nl +:+ nl +:+ "**A:** " +:+ answer +:+ nl) ;;
  Ret (JObj [("step_index", JNum index); ("action", JStr "query"); ("question", question); ("answer", JStr answer);
             ("evidence_coverage", coverage_doc question selected);
             ("ref_count", JNum (Z.of_nat (length refs))); ("citations", JArr (citations refs (sources selected) answer));
             ("summary", JStr ("Query answered (" +:+ pretty (len answer) +:+ " chars), "
                               +:+ pretty (Z.of_nat (length refs)) +:+ " refs available"))]).

(** ** Deepen *)

(** The results with a URL that is not known yet, in order; [known] grows with
    every URL taken. *)
Fixpoint fresh_results (known : list string) (results : list json) : list json :=
  match results with
  | [] => []
  | r :: results =>
      let url := as_text (jget_default r "url" (JStr "")) in
      if is_empty url || bool_decide (url ∈ known) then fresh_results known results
      else r :: fresh_results (url :: known) results
  end.

Definition result_url (r : json) : string := as_text (jget_default r "url" (JStr "")).

Definition splitlines_sep (c : ascii) : bool :=
  let n := chr c in (Nat.leb 10 n && Nat.leb n 13) || (Nat.leb 28 n && Nat.leb n 30) || Nat.eqb n 133.

(** The lines of a text; a carriage return before a line feed leaves an empty
    line, which the caller drops. *)
Fixpoint lines_from (acc s : string) : list string :=
  match s with
  | EmptyString => if is_empty acc then [] else [acc]
  | String c s => if splitlines_sep c then acc :: lines_from EmptyString s
                  else lines_from (acc +:+ String c EmptyString) s
  end.

(** The search queries in the model's answer. *)
Definition gen_queries (response : string) : list string :=
  List.filter (fun q => negb (is_empty q) && negb (starts_with "#" q || starts_with "//" q))
    (strip <$> lines_from EmptyString response).

(** The loop over the generated queries: at most [max] URLs in all, a failing
    search is skipped. *)
Fixpoint more_urls (max : nat) (known : list string) (taken : list json) (queries : list string) : prog (list json) :=
  match queries with
  | [] => Ret taken
  | q :: queries =>
      if Nat.leb max (length taken) then Ret taken
      else Call (QSearch (JObj [("query", JStr q); ("limit", JNum 3)])) (fun r =>
        match r with
        | inr Cancelled => Fail Cancelled
        | inr _ => more_urls max known taken queries
        | inl found =>
            let new := take (max - length taken) (fresh_results known (fst found)) in
            more_urls max ((result_url <$> new) ++ known) (taken ++ new) queries
        end)
  end.

(** The URLs of the references stored so far. *)
Definition existing_urls (refs : list (string * json)) : list string :=
  List.filter (fun u => negb (is_empty u)) ((fun kr => as_text (jget_default (snd kr) "url" (JStr ""))) <$> refs).

(** [max(1, min(max_sources, 10))]. *)
Definition clamp_sources (n : Z) : nat := Z.to_nat (Z.max 1 (Z.min n 10)).

Definition query_prompt (title url : json) (source_context sub_topic : string) : string :=
  "Based on the following source content and the user's follow-up question, generate 2-3 highly specific web search queries to find additional information that deepens the investigation."
  +:+ nl +:+ nl +:+ "SOURCE (" +:+ show (jor title url) +:+ "):" +:+ nl +:+ source_context +:+ nl +:+ nl
  +:+ "FOLLOW-UP QUESTION: " +:+ sub_topic +:+ nl +:+ nl
  +:+ "Return ONLY the search queries, one per line. No other text.".

(** Discovery of new sources: the search for the sub-topic, then for the queries
    the model suggests. *)
Definition discover (llm_model : string) (max : nat) (sub_topic : json) (prompt : string) : prog (list json) :=
  await primary <- call (QSearch (JObj [("query", sub_topic); ("limit", JNum (Z.of_nat max))]));
  await refs <- call QGetRefs;
  let known := existing_urls refs in
  let new := fresh_results known (fst primary) in
  if Nat.ltb (length new) max then
    await response <- call (QGenerate (JObj [("model", JStr llm_model); ("user_prompt", JStr prompt)]));
    more_urls max ((result_url <$> new) ++ known) new (take 3 (gen_queries response))
  else Ret new.

Definition scraped_source (s : Scraped) : json :=
  JObj [("id", JStr (sc_url s)); ("url", JStr (sc_url s)); ("markdown", JStr (sc_markdown s)); ("source", sc_source s);
        ("char_count", JNum (len (sc_markdown s)))].

Definition quoted_name (s : string) : string := "'" +:+ s +:+ "'".

Definition deepen_section (ref_name sub_topic findings : string) (scraped : list Scraped) (index : Z) : string :=
  nl +:+ nl +:+ "## Step " +:+ pretty index +:+ ": Deepen " +:+ em_dash +:+ " " +:+ ref_name +:+ nl +:+ nl
  +:+ "**Sub-topic:** " +:+ sub_topic +:+ nl +:+ nl +:+ findings +:+ nl +:+ nl +:+ "*Deeper sources:*" +:+ nl
  +:+ concat_map (fun ns => "- [" +:+ sc_url (snd ns) +:+ "](" +:+ sc_url (snd ns) +:+ ") `" +:+ ref_id index (fst ns)
        +:+ "` (" +:+ pretty (len (sc_markdown (snd ns))) +:+ " chars)" +:+ nl) (enumerate scraped) +:+ nl.

(** The synthesis of the findings, and the evidence it rests on; the fixed
    instructions of the request are left out. *)
Definition synthesise (sha256 : string -> string) (llm_model ref_name : string) (ref sub_topic budget : json)
    (source_selection : Evidence) (scraped : list Scraped) : prog (Evidence * string) :=
  match scraped with
  | [] => Ret (source_selection,
               "No new sources could be discovered or scraped for the deep-dive on " +:+ quoted_name ref_name
               +:+ " with prompt: " +:+ as_text sub_topic)
  | _ =>
      await sel <- evidence sha256 (as_source ref_name ref :: (scraped_source <$> scraped)) sub_topic budget;
      await answer <- (call (QGenerate (JObj [("model", JStr llm_model); ("evidence", JStr (context sel));
                                             ("depth_prompt", sub_topic)])) : prog string);
      Ret (sel, answer)
  end.

(** [_step_deepen]. *)
Definition _step_deepen (sha256 : string -> string) (has_resolver : bool) (llm_model owner : string) (params : json)
    : prog json :=
  let ref_name := as_text (jget_default params "ref_id" (JStr "")) in
  let sub_topic := jget_default params "sub_topic" (JStr "") in
  let topic := as_text sub_topic in
  let max := clamp_sources (as_num (jget_default params "max_sources" (JNum 3))) in
  require (negb (is_empty ref_name)) MissingRefId ;;
  require (truthy sub_topic) MissingTopic ;;
  await found <- resolve_ref has_resolver ref_name;
  match found with
  | None => call QGetRefs ;; reject RefNotFound
  | Some ref =>
      require (has_text ref) RefNotScraped ;;
      let budget := jget_default params "evidence_budget_chars" (JNum DEFAULT_EVIDENCE_CHARS) in
      require (match validate_evidence_budget budget with Some _ => true | None => false end) (BadEvidence BadBudget) ;;
      await source_selection <- evidence sha256 [as_source ref_name ref] sub_topic budget;
      await new <- discover llm_model max sub_topic
                     (query_prompt (jget_default ref "title" (JStr "")) (jget_default ref "url" (JStr ""))
                        (context source_selection) topic);
      await scraped <- scrape_all (result_url <$> take max new);
      await found <- synthesise sha256 llm_model ref_name ref sub_topic budget source_selection scraped;
      resolve_attached has_resolver ref ;;
      await index <- put_step owner
        [("action", JStr "deepen");
         ("params", JObj [("ref_id", JStr ref_name); ("sub_topic", sub_topic); ("max_sources", JNum (Z.of_nat max))]);
         ("summary", JStr ("Deepen: " +:+ quoted_name ref_name +:+ " " +:+ em_dash +:+ " " +:+ stake 80 topic +:+ "..."))];
      put_refs owner (scraped_refs scraped index) ;;
      put_artifact owner (deepen_section ref_name topic (snd found) scraped index) ;;
      Ret (JObj [("step_index", JNum index); ("action", JStr "deepen"); ("new_findings", JStr (snd found));
                 ("new_sources", JArr ((fun ns => JObj [("url", JStr (sc_url (snd ns))); ("title", JStr (sc_url (snd ns)));
                                                        ("ref_id", JStr (ref_id index (fst ns)))]) <$> enumerate scraped));
                 ("inserted_at", JStr ref_name); ("ref_id", JStr ref_name);
                 ("evidence_coverage", coverage_doc sub_topic (fst found));
                 ("summary", JStr ("Deepen on " +:+ quoted_name ref_name +:+ ": " +:+ pretty (Z.of_nat (length scraped))
                                   +:+ " new sources, " +:+ pretty (len (snd found)) +:+ " chars of findings"))])
  end.

(** ** Dispatch *)

(** [_execute_step]. *)
Definition _execute_step (sha256 : string -> string) (has_resolver : bool) (llm_model : option string)
    (owner stamp action : string) (params : json) (par : option (Z * Reservation)) : prog json :=
  match llm_model with
  | None => reject ModelRequired
  | Some model =>
      if String.eqb action "search" then _step_search owner stamp par params
      else if String.eqb action "scrape" then _step_scrape owner stamp par params
      else if String.eqb action "query" then _step_query sha256 has_resolver model owner params
      else if String.eqb action "deepen" then _step_deepen sha256 has_resolver model owner params
      else reject UnknownAction
  end.

(** ** The lock *)

(** [acquire_lock] of the store, [attempts] being how often the deadline lets it
    try: a cancelled attempt releases what it may have taken. *)
Fixpoint acquire_lock (attempts : nat) (token : string) : prog (option string) :=
  match attempts with
  | O => Ret None
  | S attempts =>
      Call (QTryLock token) (fun r =>
        match r with
        | inl true => Ret (Some token)
        | inl false => call QPause ;; acquire_lock attempts token
        | inr Cancelled => call (QReleaseLock token) ;; Fail Cancelled
        | inr e => Fail e
        end)
  end.

Definition serial_action (action : string) : bool :=
  existsb (String.eqb action) ["search"; "scrape"; "query"; "deepen"].

(** The serialized branch of [step]: under the lock, unless independent steps are
    pending; the heartbeat is stopped and the lock released whatever happens. *)
Definition serial_step (sha256 : string -> string) (has_resolver : bool) (llm_model : option string)
    (attempts : nat) (token stamp action : string) (params : json) : prog json :=
  await owner <- acquire_lock attempts token;
  match owner with
  | None => reject StepRunning
  | Some owner =>
      finally
        ((if serial_action action then
            await pending <- (call QHasPending : prog bool); require (negb pending) PendingSteps
          else Ret tt) ;;
         _execute_step sha256 has_resolver llm_model owner stamp action params None)
        (finally (call QPause) (call (QReleaseLock owner)))
  end.

(** ** Independent steps *)

(** [sha256(json.dumps({"action": ..., "params": ...}, sort_keys=True, ...))]. *)
Definition request_fingerprint (sha256 : string -> string) (action : string) (params : json) : string :=
  sha256 (dumps_canonical (JObj [("action", JStr action); ("params", params)])).

(** The independent branch: reserve, run, publish; every exception after the
    reservation, a cancellation included, releases it. *)
Definition parallel_step (sha256 : string -> string) (has_resolver : bool) (llm_model : option string)
    (key token stamp action : string) (params : json) : prog json :=
  let fp := request_fingerprint sha256 action params in
  require (match llm_model with Some _ => true | None => false end) ModelRequired ;;
  await reserved <- call (QReserve key token fp);
  if snd reserved then
    match fst reserved with
    | Acquired _ _ => call (QReleaseStep key token) ;; Fail Cancelled
    | _ => Fail Cancelled
    end
  else
    match fst reserved with
    | NoSession => reject SessionNotFound
    | Conflict => reject KeyConflict
    | Replay result _ => Ret result
    | Busy | InProgress => reject StepRunning
    | Acquired index rev =>
        try_ (_execute_step sha256 has_resolver llm_model "" stamp action params
                (Some (index, mkReservation key token rev fp)))
          (fun r => match r with
                    | inl res => Ret res
                    | inr e => call (QReleaseStep key token) ;; Fail e
                    end)
    end.

(** [step]. *)
Definition step (sha256 : string -> string) (has_resolver : bool) (llm_model : option string) (attempts : nat)
    (key token stamp action : string) (params : json) (parallel : bool) : prog json :=
  await session <- call QGet;
  require (match session with Some _ => true | None => false end) SessionNotFound ;;
  require (match jindex params "parallel", jindex params "idempotency_key" with None, None => true | _, _ => false end)
    ReservedFields ;;
  let independent := String.eqb action "search" || String.eqb action "scrape" in
  require (negb parallel || independent) ParallelUnsupported ;;
  if parallel && independent
  then parallel_step sha256 has_resolver llm_model key token stamp action params
  else serial_step sha256 has_resolver llm_model attempts token stamp action params.

(** ** Export *)

(** The compact view of a reference in [export_session]. *)
Definition compact_ref (ref : json) : json :=
  JObj ([("url", jget_default ref "url" (JStr "")); ("title", jget_default ref "title" (JStr ""));
         ("char_count", JStr (show (jget_default ref "char_count" (JNum 0))))] ++ search_metadata ref).

(** [export_session]: the artifact, the steps, the references and the length. *)
Definition export_session (s : Sess) : outcome (string * list json * list (string * json) * Z) Reason :=
  match export_snapshot s with
  | None => Raise SessionNotFound
  | Some (_, steps, refs, artifact) =>
      Ok (artifact, steps, (fun kr => (fst kr, compact_ref (snd kr))) <$> map_to_list refs, len artifact)
  end.
