(* ===== verification/SessionSources.v ===== *)
(** * Session steps: what is written, and from which sources

    With the logic of [SessionRun]: a step that is rejected has written nothing;
    every reference a scrape or deepen step stores comes from a response that
    was not refused as a barrier; the sources a deepen step scrapes are new,
    distinct and bounded; and reference identifiers of different steps never
    collide, so a citation marker names one retained source. *)

From stdpp Require Import pretty.
From S2P Require Import Prelude Strings Json Barrier Evidence SearchMeta Session SessionStep SessionRun.
Local Open Scope Z_scope.

(** ** Rejections *)

(** The reasons that are found out while publishing. *)
Definition late (r : Reason) : Prop := r = CommitLost \/ r = ChangedOrDeleted.

(** A service does not raise the manager's own errors. *)
Definition fed {A : Type} (r : A + Exn) : Prop := match r with inr (ValueError _) => False | _ => True end.

Lemma respond_fed t q w : fed (snd (respond t q w)).
Proof. unfold respond. destruct (t_fate t) as [|[]|[]]; cbn; try done. by destruct (reply_of t q w). Qed.

(** After its first write a program rejects only for a late reason. *)
Fixpoint late_only {A : Type} (p : prog A) : Prop :=
  match p with
  | Ret _ => True
  | Fail e => match e with ValueError r => late r | _ => True end
  | Call q k => forall r, fed r -> late_only (k r)
  end.

Fixpoint two_phase {A : Type} (p : prog A) : Prop :=
  match p with
  | Call q k => forall r, fed r -> (is_write q -> late_only (k r)) /\ (~ is_write q -> two_phase (k r))
  | _ => True
  end.

Lemma late_two_phase {A} (p : prog A) : late_only p -> two_phase p.
Proof. induction p as [a|e|q k IH]; cbn; [done|done|]. intros H r Hr. split; auto. Qed.

Lemma late_only_bind {A B} (p : prog A) (f : A -> prog B) :
  late_only p -> (forall a, late_only (f a)) -> late_only (bind p f).
Proof. unfold bind. intros Hp Hf. induction p as [a|e|q k IH]; cbn in *; auto. Qed.

Lemma two_phase_try {A B} (p : prog A) (h : A + Exn -> prog B) :
  all_req (fun q => ~ is_write q) p -> (forall r, two_phase (h r)) -> two_phase (try_ p h).
Proof.
  intros Hp Hh. induction p as [a|e|q k IH]; cbn in *; [auto|auto|]. destruct Hp as [Hq Hk].
  intros r Hr. split; [done|]. intros _. auto.
Qed.

Lemma two_phase_bind {A B} (p : prog A) (f : A -> prog B) :
  all_req (fun q => ~ is_write q) p -> (forall a, two_phase (f a)) -> two_phase (bind p f).
Proof. intros Hp Hf. apply two_phase_try; [done|]. by intros [a|e]. Qed.

Definition verdict {A : Type} : Post A := fun _ tr r =>
  match r with inr (ValueError rs) => late rs \/ nowrites tr | _ => True end.

Lemma late_only_wp {A} ok (p : prog A) w tr : late_only p ->
  wp ok p (fun _ _ r => match r with inr (ValueError rs) => late rs | _ => True end) w tr.
Proof.
  revert w tr. induction p as [a|e|q k IH]; intros w tr H; cbn in *; [done|done|].
  intros t _. apply IH, H, respond_fed.
Qed.

Lemma two_phase_wp {A} ok (p : prog A) w tr : two_phase p -> nowrites tr -> wp ok p verdict w tr.
Proof.
  revert w tr. induction p as [a|e|q k IH]; intros w tr H Ht; cbn in *; [done|by destruct e; auto|].
  intros t _. destruct (H _ (respond_fed t q (met w t))) as [Hw Hr].
  assert (Hdec : is_write q \/ ~ is_write q) by (destruct q; cbn; tauto).
  destruct Hdec as [Hq|Hq].
  - eapply wp_mono; [by apply late_only_wp, Hw|]. intros w2 tr2 [|[| |]]; cbn; auto.
  - apply IH; [auto|]. by apply nowrites_snoc.
Qed.

Lemma reads_nowrites {A} (p : prog A) : all_req read_req p -> all_req (fun q => ~ is_write q) p.
Proof. apply all_req_impl. intros []; cbn; tauto. Qed.

Lemma late_call q : late_only (call q).
Proof. intros [a|[| |r]]; cbn; done. Qed.

Lemma late_put_step owner s : late_only (put_step owner s).
Proof. apply late_only_bind; [apply late_call|]. intros [n|]; [done|by left]. Qed.

Lemma late_put_refs owner refs : late_only (put_refs owner refs).
Proof. apply late_only_bind; [apply late_call|]. intros []; [done|by left]. Qed.

Lemma late_put_artifact owner a : late_only (put_artifact owner a).
Proof. apply late_only_bind; [apply late_call|]. intros []; [done|by left]. Qed.

Lemma late_publish r s refs a j : late_only (publish r s refs a j).
Proof. apply late_only_bind; [apply late_call|]. intros [n|]; [done|by right]. Qed.

#[local] Hint Resolve late_put_step late_put_refs late_put_artifact late_publish reads_nowrites : grok.

(** Follow a program through its reads to its writes. *)
Ltac phases :=
  repeat match goal with
  | |- two_phase (bind (put_step _ _) _) => apply late_two_phase
  | |- two_phase (bind _ _) => apply two_phase_bind; [apply reads_nowrites; calls; auto with grok|intros ?]
  | |- two_phase (publish _ _ _ _ _) => apply late_two_phase
  | |- two_phase (match ?x with _ => _ end) => destruct x
  | |- two_phase (Ret _) => exact I
  | |- two_phase (Fail _) => exact I
  | |- two_phase (reject _) => exact I
  | |- late_only (bind _ _) => apply late_only_bind; [|intros ?]
  | |- late_only (Ret _) => exact I
  end.

Lemma two_phase_execute sha256 hr model owner stamp action params par :
  two_phase (_execute_step sha256 hr model owner stamp action params par).
Proof.
  unfold _execute_step. destruct model as [m|]; [|done].
  destruct (String.eqb _ _); [unfold _step_search, conclude; phases; auto with grok|].
  destruct (String.eqb _ _); [unfold _step_scrape, conclude; phases; auto with grok|].
  destruct (String.eqb _ _); [unfold _step_query; phases; auto with grok|].
  destruct (String.eqb _ _); [unfold _step_deepen; phases; auto with grok|done].
Qed.

(** The calls after a step body do not write. *)
Lemma verdict_snoc {A} w w' tr e (r : A + Exn) : verdict w tr r -> ~ is_write (e_req e) -> verdict w' (tr ++ [e]) r.
Proof. destruct r as [|[| |rs]]; cbn; auto. intros [|H] He; [by left|right]. by apply nowrites_snoc. Qed.

Lemma serial_verdict ok sha256 hr model n token stamp action params w tr : nowrites tr ->
  wp ok (serial_step sha256 hr model n token stamp action params) verdict w tr.
Proof.
  intros Ht. apply wp_bind. eapply wp_mono; [by apply nowrites_keep; [apply nowrites_acquire|]|].
  intros w1 tr1 [[o|]|e] H1; [|by right|destruct e; [done|done|by right]]. apply wp_finally.
  eapply wp_mono; [apply two_phase_wp; [|exact H1]|].
  - apply two_phase_bind; [|intros ?; apply two_phase_execute]. destruct (serial_action action); [|done].
    apply all_req_bind; [apply all_req_call; by intros []|]. by intros [].
  - intros w2 tr2 r H2. apply wp_finally, wp_call. intros t _. apply wp_call. intros t' _.
    pose proof (respond_fed t' (QReleaseLock o) (met (fst (respond t QPause (met w2 t))) t')) as Hf'.
    pose proof (respond_fed t QPause (met w2 t)) as Hf.
    set (e1 := mkEntry QPause t _). set (e2 := mkEntry (QReleaseLock o) t' _).
    assert (H3 : verdict w2 ((tr2 ++ [e1]) ++ [e2]) r).
    { apply (verdict_snoc w2 w2); [|by intros []]. by apply (verdict_snoc w2 w2); [|intros []]. }
    destruct (snd (respond t' _ _)) as [|[]]; [|done|done|done].
    by destruct (snd (respond t QPause _)) as [|[]].
Qed.

Lemma parallel_verdict ok sha256 hr model key token stamp action params w tr : nowrites tr ->
  wp ok (parallel_step sha256 hr model key token stamp action params) verdict w tr.
Proof.
  intros Ht. apply wp_bind, wp_require; [intros _|by right]. apply wp_bind, wp_call. intros t _.
  set (e1 := mkEntry _ t _). assert (H1 : nowrites (tr ++ [e1])) by (apply nowrites_snoc; [done|by intros []]).
  pose proof (respond_fed t (QReserve key token (request_fingerprint sha256 action params)) (met w t)) as Hf.
  destruct (snd (respond t _ _)) as [[rv cancelled]|[| |r]]; try done. cbn [fst snd].
  assert (Hend : forall e w2 tr2, verdict (A := json) w2 tr2 (inr e) ->
    wp ok (call (QReleaseStep key token) ;; Fail e) (verdict (A := json)) w2 tr2).
  { intros e w2 tr2 H2. apply wp_bind, wp_call. intros t2 _.
    pose proof (respond_fed t2 (QReleaseStep key token) (met w2 t2)) as Hf2.
    pose proof (verdict_snoc (A := json) w2 w2 tr2 (mkEntry (QReleaseStep key token) t2 (met w2 t2)) (inr e) H2 ltac:(by intros [])).
    by destruct (snd _) as [|[]]. }
  destruct cancelled; destruct rv; try (by right); try done; try by apply Hend.
  apply wp_try. eapply wp_mono; [apply two_phase_wp; [apply two_phase_execute|exact H1]|].
  intros w2 tr2 [res|e] H2; [done|by apply Hend].
Qed.

(** A rejected step has written nothing: whenever a step ends with a rejection
    (an unknown session or action, reserved fields, a missing parameter, a busy
    session, a key conflict, a bad budget or selection, a missing reference),
    it has made no call that writes a step, a reference or text; the exceptions
    are the two rejections that publishing itself can give. *)
Theorem rejected_step_writes_nothing sha256 hr model n key token stamp action params parallel ts w w' r tr :
  exec (step sha256 hr model n key token stamp action params parallel) ts w [] = (w', Some (inr (ValueError r)), tr) ->
  r <> CommitLost -> r <> ChangedOrDeleted -> forall e, e ∈ tr -> ~ is_write (e_req e).
Proof.
  intros He H1 H2. assert (H : verdict (A := json) w' tr (inr (ValueError r))).
  { eapply (wp_sound (fun _ => True)); [|exact He|by apply Forall_true]. apply wp_bind, wp_call. intros t _.
    set (e1 := mkEntry _ t _). assert (H3 : nowrites ([] ++ [e1])) by (apply nowrites_snoc; [constructor|by intros []]).
    pose proof (respond_fed t QGet (met w t)) as Hf. destruct (snd (respond t QGet _)) as [m|[| |]]; try done.
    do 3 (apply wp_bind, wp_require; [intros ?|by right]).
    destruct (_ && _); [by apply parallel_verdict|by apply serial_verdict]. }
  destruct H as [[|]|H]; [done|done|]. unfold nowrites in H. by rewrite Forall_forall in H.
Qed.

(** ** Barriers *)

(** The references a call writes. *)
Definition refs_of (q : Req) : list (string * json) :=
  match q with QAddRefs _ refs | QCommit _ _ refs _ _ => refs | _ => [] end.

(** The scrape that a document comes from. *)
Definition from_scrape (s : Scraped) (e : Entry) : Prop :=
  e_req e = QScrape (sc_url s) /\ exists j, t_net (e_turn e) = NDoc j /\ usable (sc_url s) j = Some s.

(** Every reference written so far is a document scraped before. *)
Definition sourced (tr : list Entry) : Prop := forall e kr, e ∈ tr -> kr ∈ refs_of (e_req e) ->
  exists s e', e' ∈ tr /\ from_scrape s e' /\ snd kr = scraped_ref s.

Definition has_sources (l : list Scraped) (tr : list Entry) : Prop :=
  Forall (fun s => exists e, e ∈ tr /\ from_scrape s e) l.

Lemma has_sources_prefix l tr tr' : tr `prefix_of` tr' -> has_sources l tr -> has_sources l tr'.
Proof.
  intros [k ->] H. eapply Forall_impl; [exact H|]. intros s (e & He & Hs). exists e. split; [|done].
  apply elem_of_app. by left.
Qed.

(** The call writes only references to documents of [l]. *)
Definition writes_from (l : list Scraped) (q : Req) : Prop :=
  forall kr, kr ∈ refs_of q -> exists s, s ∈ l /\ snd kr = scraped_ref s.

Lemma sourced_keep {A} ok l (p : prog A) w tr :
  all_req (writes_from l) p -> has_sources l tr -> sourced tr -> wp ok p (fun _ tr _ => sourced tr) w tr.
Proof.
  intros Hp Hl Ht. eapply wp_mono; [apply (wp_keep _ (writes_from l) (fun _ tr => has_sources l tr /\ sourced tr))|].
  - intros q t w2 tr2 Hq _ [H1 H2]. split; [by eapply has_sources_prefix; [apply prefix_app_r|]|].
    intros e kr He Hkr. apply elem_of_app in He as [He|He].
    + destruct (H2 e kr He Hkr) as (s & e' & He' & Hs). exists s, e'. split; [|done]. apply elem_of_app. by left.
    + apply list_elem_of_singleton in He as ->. destruct (Hq kr Hkr) as (s & Hin & Hs).
      unfold has_sources in H1. rewrite Forall_forall in H1. destruct (H1 s Hin) as (e' & He' & Hf).
      exists s, e'. split; [apply elem_of_app; by left|done].
  - done.
  - done.
  - by intros ? ? ? [_ ?].
Qed.

Lemma no_refs_writes l q : refs_of q = [] -> writes_from l q.
Proof. intros H kr. rewrite H. by intros ?%not_elem_of_nil. Qed.

Lemma reads_writes_from {A} l (p : prog A) : all_req read_req p -> all_req (writes_from l) p.
Proof. apply all_req_impl. intros q Hq. apply no_refs_writes. by destruct q. Qed.

Lemma scrape_all_sources ok urls w tr :
  wp ok (scrape_all urls) (fun _ tr r => forall l, r = inl l -> has_sources l tr) w tr.
Proof.
  revert w tr. induction urls as [|u urls IH]; intros w tr; cbn [scrape_all]; [intros l [= <-]; by constructor|].
  intros t _. set (e := mkEntry (QScrape u) t (met w t)). unfold respond.
  destruct (t_fate t) as [|[]|[]]; cbn [snd fst exn_of]; try done; try apply IH.
  cbn [reply_of]. destruct (t_net t) as [| j | |] eqn:En; try apply IH. destruct (usable u j) as [s|] eqn:Eu; [|apply IH].
  assert (Hs : from_scrape s e).
  { assert (sc_url s = u) as Hu by (unfold usable in Eu; by case_all). split; [by rewrite Hu|].
    exists j. split; [done|]. by rewrite Hu. }
  apply wp_bind. eapply wp_mono; [apply wp_and; [apply wp_prefix|apply IH]|].
  intros w2 tr2 [rest|err] [[k ->] Hr]; [|done]. intros l [= <-]. constructor; [|by apply Hr].
  exists e. split; [|done]. rewrite !elem_of_app. left; right. by left.
Qed.

(** A piece of a step body that stores only what was scraped. *)
Definition stores_scraped {A} ok (p : prog A) : Prop := forall w tr, nowrites tr -> wp ok p (fun _ tr _ => sourced tr) w tr.

Lemma nowrites_sourced tr : nowrites tr -> sourced tr.
Proof.
  unfold nowrites. rewrite Forall_forall. intros H e kr He Hkr. specialize (H e He).
  destruct (e_req e); cbn in *; try (by apply not_elem_of_nil in Hkr); done.
Qed.

Lemma stores_bind {A B} ok (p : prog A) (f : A -> prog B) :
  all_req read_req p -> (forall a, stores_scraped ok (f a)) -> stores_scraped ok (bind p f).
Proof.
  intros Hp Hf w tr Ht. apply wp_bind. eapply wp_mono; [by apply nowrites_keep; [apply reads_nowrites|]|].
  intros w2 tr2 [a|e] H2; [by apply Hf|by apply nowrites_sourced].
Qed.

Lemma stores_scrape {B} ok urls (f : list Scraped -> prog B) :
  (forall l, all_req (writes_from l) (f l)) -> stores_scraped ok (bind (scrape_all urls) f).
Proof.
  intros Hf w tr Ht. apply wp_bind.
  eapply wp_mono; [apply wp_and; [by apply nowrites_keep; [apply reads_nowrites, reads_scrape_all|]|apply scrape_all_sources]|].
  intros w2 tr2 [l|e] [H2 Hl]; [|by apply nowrites_sourced]. apply (sourced_keep ok l); [done|by apply Hl|by apply nowrites_sourced].
Qed.

Lemma stores_reads {A} ok (p : prog A) : all_req read_req p -> stores_scraped ok p.
Proof.
  intros Hp w tr Ht. eapply wp_mono; [by apply nowrites_keep; [apply reads_nowrites|]|]. intros ? ? ?. apply nowrites_sourced.
Qed.

Lemma enumerate_elem {A} (l : list A) n x : (n, x) ∈ enumerate l -> x ∈ l.
Proof. intros H. unfold enumerate in H. by apply elem_of_zip_r in H. Qed.

Lemma scraped_refs_from l index kr : kr ∈ scraped_refs l index -> exists s, s ∈ l /\ snd kr = scraped_ref s.
Proof.
  intros ([n s] & -> & H)%list_elem_of_fmap. exists s. split; [by eapply enumerate_elem|done].
Qed.

Lemma execute_stores ok sha256 hr model owner stamp action params par :
  action = "scrape" \/ action = "deepen" ->
  stores_scraped ok (_execute_step sha256 hr model owner stamp action params par).
Proof.
  intros Ha. unfold _execute_step. destruct model as [m|]; [|by apply stores_reads].
  assert (Hrefs : forall l owner index, writes_from l (QAddRefs owner (scraped_refs l index)))
    by (intros l o i kr; apply scraped_refs_from).
  destruct Ha as [-> | ->]; cbn [String.eqb Ascii.eqb Bool.eqb].
  - unfold _step_scrape. apply stores_bind; [by calls|]. intros _. apply stores_scrape. intros l.
    unfold conclude, publish, put_step, put_refs, put_artifact. destruct par as [[i r]|]; calls.
    all: try (apply no_refs_writes; done); try apply Hrefs. intros kr. apply scraped_refs_from.
  - unfold _step_deepen.
    do 3 (apply stores_bind; [calls; auto with grok|intros ?]). case_match; [|apply stores_reads; by calls].
    do 4 (apply stores_bind; [calls; auto with grok|intros ?]). apply stores_scrape. intros l.
    apply all_req_bind; [apply reads_writes_from; auto with grok|intros ?].
    apply all_req_bind; [apply reads_writes_from; auto with grok|intros ?].
    unfold put_step, put_refs, put_artifact. calls. all: try (apply no_refs_writes; done); try apply Hrefs.
Qed.

(** A call that writes no reference keeps the trace sourced. *)
Lemma sourced_snoc tr e : sourced tr -> refs_of (e_req e) = [] -> sourced (tr ++ [e]).
Proof.
  intros H He e1 kr [H1|H1]%elem_of_app Hkr.
  - destruct (H e1 kr H1 Hkr) as (s & e' & He' & Hs). exists s, e'. split; [apply elem_of_app; by left|done].
  - apply list_elem_of_singleton in H1 as ->. rewrite He in Hkr. by apply not_elem_of_nil in Hkr.
Qed.

Lemma step_sourced ok sha256 hr model n key token stamp action params parallel w tr :
  action = "scrape" \/ action = "deepen" -> nowrites tr ->
  wp ok (step sha256 hr model n key token stamp action params parallel) (fun _ tr _ => sourced tr) w tr.
Proof.
  intros Ha Ht. apply wp_bind, wp_call. intros t _. set (e1 := mkEntry QGet t _).
  assert (H1 : nowrites (tr ++ [e1])) by (apply nowrites_snoc; [done|by intros []]). pose proof (nowrites_sourced _ H1) as Hs1.
  destruct (snd (respond t QGet _)) as [m|]; [|done]. do 3 (apply wp_bind, wp_require; [intros _|done]).
  destruct (_ && _).
  - apply wp_bind, wp_require; [intros _|done]. apply wp_bind, wp_call. intros t2 _. set (e2 := mkEntry _ t2 _).
    assert (H2 : nowrites ((tr ++ [e1]) ++ [e2])) by (apply nowrites_snoc; [done|by intros []]).
    pose proof (nowrites_sourced _ H2) as Hs2. destruct (snd (respond t2 _ _)) as [[rv cancelled]|]; [|done]. cbn [fst snd].
    assert (Hend : forall e w2 tr2, sourced tr2 ->
      wp ok (call (QReleaseStep key token) ;; Fail e : prog json) (fun _ tr _ => sourced tr) w2 tr2).
    { intros e w2 tr2 Hs. apply wp_bind, wp_call. intros t3 _.
      pose proof (sourced_snoc tr2 (mkEntry (QReleaseStep key token) t3 (met w2 t3)) Hs eq_refl). by destruct (snd _). }
    destruct cancelled; destruct rv; try done; try by apply Hend.
    apply wp_try. eapply wp_mono; [by apply execute_stores|]. intros w3 tr3 [res|e] H3; [done|by apply Hend].
  - apply wp_bind. eapply wp_mono; [by apply nowrites_keep; [apply nowrites_acquire|]|].
    intros w1 tr1 [[o|]|e] H2; try by apply nowrites_sourced. apply wp_finally, wp_bind.
    assert (Hfin : forall (r : json + Exn) w2 tr2, sourced tr2 -> wp ok (finally (call QPause) (call (QReleaseLock o)))
      (fun w' tr' r' => match r' with inl _ => sourced tr' | inr _ => sourced tr' end) w2 tr2).
    { intros r w2 tr2 Hs. apply wp_finally, wp_call. intros t2 _. apply wp_call. intros t3 _.
      set (e2 := mkEntry QPause t2 _). set (e3 := mkEntry (QReleaseLock o) t3 _).
      assert (sourced ((tr2 ++ [e2]) ++ [e3])) by (apply sourced_snoc; [by apply sourced_snoc|done]). by repeat case_match. }
    eapply wp_mono; [apply (nowrites_keep _ _ _ tr1)|]; [|done|].
    + destruct (serial_action action); [|done]. apply all_req_bind; [apply all_req_call; by intros []|by intros []].
    + intros w2 tr2 [u|e] H3; [|by apply (Hfin (inr e)), nowrites_sourced].
      eapply wp_mono; [by apply execute_stores|]. intros w3 tr3 r H4. by apply (Hfin r).
Qed.

Lemma usable_spec url j s : usable url j = Some s ->
  truthy (jget j "success") = true /\ is_barrier_flagged j = Some false /\ sc_url s = url /\
  jget (jget_default j "data" (JObj [])) "markdown" = JStr (sc_markdown s) /\ sc_markdown s <> "".
Proof.
  unfold usable. intros H. destruct (_ && _) eqn:E; [|done]. bool_to_prop.
  destruct (is_barrier_flagged j) as [[]|]; try done. destruct (jget _ "markdown") as [| | |m| |] eqn:Em; try done.
  injection H as <-. cbn. split_and!; try done. by intros ->.
Qed.

(** C23. Barrier content never becomes evidence: every reference that a scrape or
    deepen step writes, however the step ends, carries the nonempty text and the
    URL of a response it received for that URL in the same step, successful and
    not flagged as a barrier. *)
Theorem barrier_never_stored sha256 hr model n key token stamp action params parallel ts w w' r tr :
  action = "scrape" \/ action = "deepen" ->
  exec (step sha256 hr model n key token stamp action params parallel) ts w [] = (w', Some r, tr) ->
  forall e kr, e ∈ tr -> kr ∈ refs_of (e_req e) ->
    exists e' url j m, e' ∈ tr /\ e_req e' = QScrape url /\ t_net (e_turn e') = NDoc j /\
      truthy (jget j "success") = true /\ is_barrier_flagged j = Some false /\ m <> "" /\
      jget (jget_default j "data" (JObj [])) "markdown" = JStr m /\
      jget (snd kr) "markdown" = JStr m /\ jget (snd kr) "url" = JStr url.
Proof.
  intros Ha He e kr Hin Hkr.
  assert (H : sourced tr).
  { eapply (wp_sound (fun _ => True) _ (fun _ tr _ => sourced tr)); [|exact He|by apply Forall_true].
    apply step_sourced; [done|constructor]. }
  destruct (H e kr Hin Hkr) as (s & e' & He' & (Hq & j & Hj & Hu) & Hs).
  apply usable_spec in Hu as (H1 & H2 & _ & H4 & H5).
  exists e', (sc_url s), j, (sc_markdown s). rewrite Hs. by split_and!.
Qed.

(** ** New sources *)

(** The URLs scraped so far. *)
Definition scraped_urls (tr : list Entry) : list string :=
  omap (fun e => match e_req e with QScrape u => Some u | _ => None end) tr.

Lemma fresh_results_spec known results :
  NoDup (result_url <$> fresh_results known results) /\
  Forall (fun u => u <> "" /\ u ∉ known) (result_url <$> fresh_results known results).
Proof.
  revert known. induction results as [|r results IH]; intros known; cbn [fresh_results]; [by split; constructor|].
  fold (result_url r). destruct (is_empty (result_url r) || bool_decide (result_url r ∈ known)) eqn:E; [apply IH|].
  apply orb_false_iff in E as [E1 E2]. apply bool_decide_eq_false in E2.
  destruct (IH (result_url r :: known)) as [H1 H2]. cbn [fmap list_fmap]. split.
  - constructor; [|done]. intros Hin. rewrite Forall_forall in H2. destruct (H2 _ Hin) as [_ H3]. apply H3. by left.
  - constructor; [split; [by intros H; rewrite H in E1|done]|]. eapply Forall_impl; [exact H2|]. intros u [A B]. split; [done|].
    intros Hin. apply B. by right.
Qed.

(** Distinct URLs, none of them empty or among [known]. *)
Definition novel (known : list string) (l : list json) : Prop :=
  NoDup (result_url <$> l) /\ Forall (fun u => u <> "" /\ u ∉ known) (result_url <$> l).

Lemma novel_take known n l : novel known l -> novel known (take n l).
Proof.
  intros [H1 H2]. unfold novel. rewrite fmap_take. split; [|by apply Forall_take].
  eapply sublist_NoDup; [exact H1|apply sublist_take].
Qed.

Lemma novel_app known l k : novel known l -> novel ((result_url <$> l) ++ known) k -> novel known (l ++ k).
Proof.
  intros [H1 H2] [H3 H4]. unfold novel. rewrite fmap_app. split.
  - apply NoDup_app. split_and!; [done| |done]. intros u Hu Hu'. rewrite Forall_forall in H4. destruct (H4 u Hu') as [_ H5].
    apply H5. apply elem_of_app. by left.
  - apply Forall_app. split; [done|]. eapply Forall_impl; [exact H4|]. intros u [A B]. split; [done|].
    intros Hin. apply B. apply elem_of_app. by right.
Qed.

Lemma novel_mono known known' l : (forall u, u ∈ known -> u ∈ known') -> novel known' l -> novel known l.
Proof. intros Hk [H1 H2]. split; [done|]. eapply Forall_impl; [exact H2|]. intros u [A B]. split; auto. Qed.

Lemma more_urls_novel ok max known known' taken queries w tr :
  novel known taken -> (forall u, u ∈ (result_url <$> taken) ++ known -> u ∈ known') ->
  wp ok (more_urls max known' taken queries) (fun _ _ r => forall l, r = inl l -> novel known l) w tr.
Proof.
  revert known' taken w tr. induction queries as [|q queries IH]; intros known' taken w tr Hn Hk; cbn [more_urls]; [by intros l [= <-]|].
  destruct (Nat.leb _ _); [by intros l [= <-]|]. intros t _.
  destruct (snd (respond t _ _)) as [found|[| |]]; [|done|by apply IH|by apply IH].
  set (new := take _ (fresh_results _ _)).
  assert (Hnew : novel known' new) by (apply novel_take, fresh_results_spec).
  apply IH; [apply novel_app; [done|by eapply novel_mono]|].
  intros u. rewrite fmap_app, !elem_of_app. specialize (Hk u). rewrite elem_of_app in Hk. tauto.
Qed.

(** The references known when the sources were looked for. *)
Definition known_at (e : Entry) : list string := existing_urls (map_to_list (s_refs (w_sess (e_world e)))).

Lemma discover_novel ok model max topic prompt w tr :
  wp ok (discover model max topic prompt) (fun _ tr r => forall l, r = inl l ->
    exists e0, e0 ∈ tr /\ e_req e0 = QGetRefs /\ novel (known_at e0) l) w tr.
Proof.
  unfold discover. apply wp_seq; [done|]. intros primary w1 tr1. apply wp_bind, wp_call. intros t _.
  set (e0 := mkEntry QGetRefs t (met w1 t)). unfold respond. destruct (t_fate t); cbn [fst snd]; [|done|done].
  cbn [reply_of]. fold (known_at e0). pose proof (fresh_results_spec (known_at e0) (fst primary)) as Hn.
  assert (Hin : e0 ∈ tr1 ++ [e0]) by (apply elem_of_app; right; by left).
  destruct (Nat.ltb _ _); [|intros l [= <-]; by exists e0]. apply wp_bind.
  eapply wp_mono; [apply wp_prefix|]. intros w2 tr2 [response|e] [k ->]; [|done].
  eapply wp_mono; [apply wp_and; [apply wp_prefix|apply (more_urls_novel ok max (known_at e0))]|]; [exact Hn|done|].
  intros w3 tr3 r [[k' ->] H3] l Hl. exists e0. split; [|split; [done|by apply H3]].
  rewrite !elem_of_app. rewrite elem_of_app in Hin. tauto.
Qed.

Lemma scraped_urls_snoc tr e : scraped_urls (tr ++ [e])
  = scraped_urls tr ++ match e_req e with QScrape u => [u] | _ => [] end.
Proof. unfold scraped_urls. rewrite omap_app. cbn. by destruct (e_req e). Qed.

Lemma scrape_all_urls ok urls w tr :
  wp ok (scrape_all urls) (fun _ tr' _ => exists us, us `prefix_of` urls /\ scraped_urls tr' = scraped_urls tr ++ us) w tr.
Proof.
  revert w tr. induction urls as [|u urls IH]; intros w tr; cbn [scrape_all].
  { exists []. by rewrite app_nil_r. }
  intros t _. set (e := mkEntry (QScrape u) t (met w t)).
  assert (Hgo : forall w2, wp ok (scrape_all urls) (fun _ tr' _ => exists us, us `prefix_of` u :: urls /\
    scraped_urls tr' = scraped_urls tr ++ us) w2 (tr ++ [e])).
  { intros w2. eapply wp_mono; [apply IH|]. intros w3 tr3 r (us & Hus & Ht). exists (u :: us).
    split; [by apply prefix_cons|]. by rewrite Ht, scraped_urls_snoc, <- app_assoc. }
  assert (H1 : exists us, us `prefix_of` u :: urls /\ scraped_urls (tr ++ [e]) = scraped_urls tr ++ us).
  { exists [u]. split; [apply prefix_cons, prefix_nil|apply scraped_urls_snoc]. }
  destruct (snd (respond t _ _)) as [result|[| |]]; [|done|apply Hgo|apply Hgo].
  destruct (usable u result); [|apply Hgo]. apply wp_bind. eapply wp_mono; [apply Hgo|]. by intros w2 tr2 [rest|] H2.
Qed.

(** The calls that do not scrape. *)
Definition no_scrape (q : Req) : Prop := match q with QScrape _ => False | _ => True end.

Lemma scraped_urls_keep {A} ok l (p : prog A) w tr : all_req no_scrape p -> scraped_urls tr = l ->
  wp ok p (fun _ tr _ => scraped_urls tr = l) w tr.
Proof.
  intros Hp Ht. apply (wp_keep _ no_scrape (fun _ tr => scraped_urls tr = l)); [|done|done].
  intros q t w2 tr2 Hq _ H2. rewrite scraped_urls_snoc, H2. destruct q; cbn in *; try done; by rewrite app_nil_r.
Qed.

Lemma quiet_no_scrape {A} (p : prog A) : all_req quiet_req p -> all_req no_scrape p.
Proof. apply all_req_impl. by intros []. Qed.

(** What is scraped is new: nothing yet, or at most [max] distinct URLs that no
    stored reference had when they were looked for. *)
Definition scrapes_new (max : nat) (tr : list Entry) : Prop :=
  (length (scraped_urls tr) <= max)%nat /\ NoDup (scraped_urls tr) /\
  forall u, u ∈ scraped_urls tr -> exists e0, e0 ∈ tr /\ e_req e0 = QGetRefs /\ u ∉ known_at e0.

Lemma scrapes_none max tr : scraped_urls tr = [] -> scrapes_new max tr.
Proof. intros H. unfold scrapes_new. rewrite H. split_and!; [cbn; lia|constructor|]. by intros u ?%not_elem_of_nil. Qed.

Lemma scrapes_new_prefix max tr tr' : tr `prefix_of` tr' -> scraped_urls tr' = scraped_urls tr -> scrapes_new max tr -> scrapes_new max tr'.
Proof.
  intros [k ->] Heq (H1 & H2 & H3). unfold scrapes_new. rewrite Heq. split_and!; [done|done|].
  intros u Hu. destruct (H3 u Hu) as (e0 & He0 & Hq). exists e0. split; [apply elem_of_app; by left|done].
Qed.

(** A piece of the deepen step before it scrapes. *)
Definition before_scraping {A} ok max (p : prog A) : Prop :=
  forall w tr, scraped_urls tr = [] -> wp ok p (fun _ tr _ => scrapes_new max tr) w tr.

Lemma before_bind {A B} ok max (p : prog A) (f : A -> prog B) :
  all_req no_scrape p -> (forall a, before_scraping ok max (f a)) -> before_scraping ok max (bind p f).
Proof.
  intros Hp Hf w tr Ht. apply wp_bind. eapply wp_mono; [by apply scraped_urls_keep|].
  intros w2 tr2 [a|e] H2; [by apply Hf|by apply scrapes_none].
Qed.

Lemma before_only {A} ok max (p : prog A) : all_req no_scrape p -> before_scraping ok max p.
Proof. intros Hp w tr Ht. eapply wp_mono; [by apply scraped_urls_keep|]. intros ? ? ?. apply scrapes_none. Qed.

(** Discovery, scraping, and the rest of the step. *)
Lemma discover_then_scrape {B} ok max model topic prompt (f : list Scraped -> prog B) :
  (forall l, all_req no_scrape (f l)) ->
  before_scraping ok max (await new <- discover model max topic prompt;
                          await scraped <- scrape_all (result_url <$> take max new); f scraped).
Proof.
  intros Hf w tr Ht. apply wp_bind.
  eapply wp_mono; [apply wp_and; [apply scraped_urls_keep; [apply quiet_no_scrape, quiet_discover|exact Ht]|apply discover_novel]|].
  intros w1 tr1 [new|e] [H1 Hn]; [|by apply scrapes_none]. destruct (Hn new eq_refl) as (e0 & He0 & Hq0 & Hnov).
  apply wp_bind. eapply wp_mono; [apply wp_and; [apply wp_prefix|apply scrape_all_urls]|].
  intros w2 tr2 r [[k ->] (us & Hus & Hu)]. rewrite H1 in Hu. cbn [app] in Hu.
  assert (Hnew : scrapes_new max (tr1 ++ k)).
  { apply (novel_take _ max) in Hnov as [N1 N2]. unfold scrapes_new. rewrite Hu. split_and!.
    - apply prefix_length in Hus. rewrite length_fmap, length_take in Hus. lia.
    - destruct Hus as [k' Hk]. rewrite Hk in N1. by apply NoDup_app in N1 as [? _].
    - intros u Hin. exists e0. split; [apply elem_of_app; by left|]. split; [done|].
      rewrite Forall_forall in N2. apply N2. destruct Hus as [k' ->]. apply elem_of_app. by left. }
  destruct r as [l|e]; [|done]. eapply wp_mono; [apply wp_and; [apply wp_prefix|by apply (scraped_urls_keep _ (scraped_urls (tr1 ++ k)))]|].
  intros w3 tr3 r3 [Hp H3]. by eapply scrapes_new_prefix.
Qed.

(** A deepen step looks further: whatever the searches and the model answer,
    and however the step ends, it scrapes at most [max_sources] URLs (and never
    more than ten), all different, and none that a reference of the session
    already had when the new sources were looked for. *)
Theorem deepen_scrapes_new sha256 hr model owner params ts w w' r tr :
  exec (_step_deepen sha256 hr model owner params) ts w [] = (w', Some r, tr) ->
  let max := clamp_sources (as_num (jget_default params "max_sources" (JNum 3))) in
  (1 <= max <= 10)%nat /\ (length (scraped_urls tr) <= max)%nat /\ NoDup (scraped_urls tr) /\
  forall u, u ∈ scraped_urls tr -> exists e0, e0 ∈ tr /\ e_req e0 = QGetRefs /\ u ∉ known_at e0.
Proof.
  intros He max. split; [unfold max, clamp_sources; lia|].
  assert (H : before_scraping (fun _ => True) max (_step_deepen sha256 hr model owner params)).
  { unfold _step_deepen. fold max. cbn zeta.
    do 3 (apply before_bind; [apply quiet_no_scrape; calls; auto with grok|intros ?]).
    case_match; [|apply before_only, quiet_no_scrape; by calls].
    do 3 (apply before_bind; [apply quiet_no_scrape; calls; auto with grok|intros ?]).
    apply discover_then_scrape. intros l.
    do 2 (apply all_req_bind; [apply quiet_no_scrape; auto with grok|intros ?]).
    unfold put_step, put_refs, put_artifact. by calls. }
  exact (wp_sound _ _ _ _ _ _ _ _ _ (H w [] eq_refl) He ltac:(by apply Forall_true)).
Qed.

(** ** Identifiers and citations *)

Lemma ref_id_inj i a j b : ref_id i a = ref_id j b -> i = j /\ a = b.
Proof.
  unfold ref_id. intros H. rewrite !sapp_cons, !sapp_nil in H. injection H as H.
  apply (f_equal (partition "_")) in H. rewrite !partition_at in H by (apply pretty_contains; [done|discriminate]).
  injection H as H1 H2. apply (inj pretty) in H1, H2. lia.
Qed.

Lemma enumerate_NoDup {A} (l : list A) : NoDup (fst <$> enumerate l).
Proof.
  unfold enumerate. rewrite fst_zip by (by rewrite length_seq). apply NoDup_seq.
Qed.

Lemma filter_fmap_sublist {A B} (f : A -> B) (P : A -> bool) l : (f <$> List.filter P l) `sublist_of` (f <$> l).
Proof. induction l as [|x l IH]; cbn; [done|]. destruct (P x); cbn; by constructor. Qed.

Lemma ids_NoDup {A} (f : nat * A -> json) (l : list (nat * A)) index :
  NoDup (fst <$> l) -> NoDup (fst <$> ((fun nx => (ref_id index (fst nx), f nx)) <$> l)).
Proof.
  intros H. rewrite <- list_fmap_compose. replace (fst ∘ _) with (ref_id index ∘ @fst nat A) by done.
  rewrite list_fmap_compose. apply NoDup_fmap_2; [|done]. intros a b Hab. by apply ref_id_inj in Hab as [_ ?].
Qed.

(** The identifiers a step gives to its references. *)
Definition step_ids (results : list json) (scraped : list Scraped) (index : Z) : list string :=
  (fst <$> search_refs results index) ++ (fst <$> scraped_refs scraped index).

Lemma step_ids_form results scraped index k : k ∈ step_ids results scraped index -> exists n, k = ref_id index n.
Proof.
  unfold step_ids, search_refs, scraped_refs.
  intros [(kv & -> & (nx & -> & _)%list_elem_of_fmap)%list_elem_of_fmap
         |(kv & -> & (nx & -> & _)%list_elem_of_fmap)%list_elem_of_fmap]%elem_of_app; cbn; eauto.
Qed.

(** References never overwrite each other: the references of a step have
    distinct identifiers, and since no two steps have the same index, no step
    uses an identifier of another one. *)
Theorem reference_ids_unique results scraped index :
  NoDup (fst <$> search_refs results index) /\ NoDup (fst <$> scraped_refs scraped index) /\
  forall results' scraped' index' k, k ∈ step_ids results scraped index ->
    k ∈ step_ids results' scraped' index' -> index' = index.
Proof.
  split_and!.
  - apply (ids_NoDup (fun nx => search_ref (snd nx))). eapply sublist_NoDup; [apply (enumerate_NoDup results)|].
    apply filter_fmap_sublist.
  - apply (ids_NoDup (fun nx => scraped_ref (snd nx))), enumerate_NoDup.
  - intros results' scraped' index' k [n ->]%step_ids_form [m H]%step_ids_form. by apply ref_id_inj in H as [-> _].
Qed.

Lemma number_of_elem id l n : number_of id l = Some n -> (id, n) ∈ l.
Proof.
  induction l as [|[k m] l IH]; cbn; [done|]. destruct (number_of id l) as [x|]; [intros [= ->]; right; by apply IH|].
  destruct (String.eqb id k) eqn:E; [|done]. apply String.eqb_eq in E as ->. intros [= ->]. by left.
Qed.

Lemma enumerate_lookup {A} (l : list A) n x : (n, x) ∈ enumerate l -> (1 <= n)%nat /\ l !! (n - 1)%nat = Some x.
Proof.
  unfold enumerate. intros [i H]%list_elem_of_lookup. apply lookup_zip_Some in H as [H1 H2]. cbn in *.
  apply lookup_seq in H1 as [-> Hi]. split; [lia|]. by replace (1 + i - 1)%nat with i by lia.
Qed.

(** A marker names one retained source: every citation of an answer belongs to a
    source of the coverage that is a reference of the session with text, its
    number or identifier occurs in the answer, and no other reference has its
    number. *)
Theorem citations_resolve refs sources answer c :
  c ∈ citations refs sources answer ->
  exists e id n ref, e ∈ sources /\ ev_id e = JStr id /\ assoc id refs = Some ref /\ has_text ref = true /\
    c = citation refs e id n /\ cited answer id n = true /\ (id, n) ∈ citation_numbers refs sources /\
    forall id', (id', n) ∈ citation_numbers refs sources -> id' = id.
Proof.
  intros (e & He & Hc)%list_elem_of_omap. destruct (ev_id e) as [| | |id| |] eqn:Ei; try done.
  destruct (number_of id _) as [n|] eqn:En; [|done]. destruct (cited answer id n) eqn:Ec; [|done]. injection Hc as <-.
  apply number_of_elem in En as Hn. assert (Hin : forall i m, (i, m) ∈ citation_numbers refs sources ->
    citable refs sources !! (m - 1)%nat = Some i).
  { intros i m ([k x] & [= -> ->] & Hk)%list_elem_of_fmap. by apply enumerate_lookup in Hk as [_ ?]. }
  pose proof (Hin id n Hn) as Hid. apply list_elem_of_lookup_2, list_elem_of_omap in Hid as (e' & _ & Hid).
  exists e, id, n. destruct (ev_id e') as [| | |id'| |]; try done. destruct (assoc id' refs) as [ref|] eqn:Ea; [|done].
  destruct (has_text ref) eqn:Et; [|done]. injection Hid as ->. exists ref. split_and!; try done.
  intros id2 H2. pose proof (Hin id2 n H2). pose proof (Hin id n Hn). congruence.
Qed.

(** ** Witnesses *)

(** A query in a session that has no context is rejected. *)
Definition demo_rejected : World * option (json + Exn) * list Entry :=
  exec (step flat_digest false (Some "m") 3 "k" "tok" "t1" "query" (JObj [("question", JStr "why?")]) false)
    (replicate 7 (turn NNone)) demo_session [].

Lemma rejected_step_writes_nothing_witness :
  let out := demo_rejected in
  snd (fst out) = Some (inr (ValueError NoContext)) /\ length (snd out) = 7%nat /\
  forall e, e ∈ snd out -> ~ is_write (e_req e).
Proof.
  intros out. split; [vm_compute; reflexivity|]. split; [vm_compute; reflexivity|].
  refine (rejected_step_writes_nothing flat_digest false (Some "m") 3 "k" "tok" "t1" "query"
    (JObj [("question", JStr "why?")]) false (replicate 7 (turn NNone)) demo_session (fst (fst out)) NoContext (snd out) _ _ _).
  - vm_compute. reflexivity.
  - discriminate.
  - discriminate.
Defined.

(** A scrape of two pages, the second of which is a challenge page. *)
Definition page (text verdict : string) : json :=
  JObj [("success", JBool true);
        ("data", JObj [("markdown", JStr text); ("quality", JObj [("checks", JObj [("block_detected", JStr verdict)])])])].

Definition scrape_params : json := JObj [("urls", JArr [JStr "http://a.example/"; JStr "http://b.example/"])].

Definition scrape_turns : list Turn :=
  [turn NNone; turn NNone; turn NNone; turn (NDoc (page "pumps" "pass")); turn (NDoc (page "checking your browser" "fail"));
   turn NNone; turn NNone; turn NNone; turn NNone; turn NNone].

Definition demo_scrape : World * option (json + Exn) * list Entry :=
  exec (step flat_digest false (Some "m") 3 "k" "tok" "t1" "scrape" scrape_params false) scrape_turns demo_session [].

Lemma barrier_never_stored_witness :
  let out := demo_scrape in
  map_to_list (s_refs (w_sess (fst (fst out)))) = [("ref_1_1", scraped_ref (mkScraped "http://a.example/" "pumps" (JStr "unknown")))] /\
  forall e kr, e ∈ snd out -> kr ∈ refs_of (e_req e) ->
    exists e' url j, e' ∈ snd out /\ e_req e' = QScrape url /\ t_net (e_turn e') = NDoc j /\ is_barrier_flagged j = Some false.
Proof.
  intros out. split; [vm_compute; reflexivity|]. intros e kr He Hkr.
  destruct (barrier_never_stored flat_digest false (Some "m") 3 "k" "tok" "t1" "scrape" scrape_params false scrape_turns
    demo_session (fst (fst out)) (inl (value_of (snd (fst out)))) (snd out) (or_introl eq_refl)) with (e := e) (kr := kr)
    as (e' & url & j & m & H1 & H2 & H3 & _ & H4 & _).
  - vm_compute. reflexivity.
  - exact He.
  - exact Hkr.
  - exists e', url, j. split_and!; assumption.
Defined.

(** A deepen step on the page scraped above: the search finds the page it came
    from and a new one. *)
Definition deepen_params : json :=
  JObj [("ref_id", JStr "ref_1_1"); ("sub_topic", JStr "valves"); ("max_sources", JNum 1)].

Definition found_urls : list json :=
  [JObj [("url", JStr "http://a.example/")]; JObj [("url", JStr "http://c.example/")]; JObj [("url", JStr "http://d.example/")]].

Definition deepen_turns : list Turn :=
  [turn NNone; turn NNone; turn (NSearch found_urls JNull); turn NNone; turn (NDoc (page "valves" "pass"));
   turn NNone; turn (NText "new findings"); turn NNone; turn NNone; turn NNone].

Lemma deepen_scrapes_new_witness :
  let out := exec (_step_deepen flat_digest false "m" "" deepen_params) deepen_turns (fst (fst demo_scrape)) [] in
  scraped_urls (snd out) = ["http://c.example/"] /\ (length (scraped_urls (snd out)) <= 1)%nat /\
  NoDup (scraped_urls (snd out)).
Proof.
  intros out. split; [vm_compute; reflexivity|].
  destruct (deepen_scrapes_new flat_digest false "m" "" deepen_params deepen_turns (fst (fst demo_scrape)) (fst (fst out))
    (inl (value_of (snd (fst out)))) (snd out)) as (_ & H1 & H2 & _).
  - vm_compute. reflexivity.
  - split; [exact H1|exact H2].
Defined.

Lemma citations_resolve_witness :
  let refs := [("ref_1_1", scraped_ref (mkScraped "http://a.example/" "pumps" (JStr "unknown")))] in
  let srcs := [mkSourceEvidence (JStr "ref_1_1") (JStr "s") (JStr "") (select_passages flat_digest "pumps" "pumps" 300) []] in
  exists c id, citations refs srcs "Pumps hum [1]." = [c] /\ jget c "ref_id" = JStr id /\ assoc id refs <> None.
Proof.
  intros refs srcs.
  assert (Hc : exists c, citations refs srcs "Pumps hum [1]." = [c]) by (eexists; vm_compute; reflexivity).
  destruct Hc as [c Hc]. destruct (citations_resolve refs srcs "Pumps hum [1]." c) as (e & id & n & ref & He & Hid & Hr & _).
  { rewrite Hc. by left. }
  exists c, "ref_1_1". split; [exact Hc|]. apply list_elem_of_singleton in He. subst e. injection Hid as <-. split.
  - assert (Hv : (fun l => match l with [c] => jget c "ref_id" | _ => JNull end) (citations refs srcs "Pumps hum [1].") = JStr "ref_1_1")
      by (vm_compute; reflexivity). by rewrite Hc in Hv.
  - rewrite Hr. discriminate.
Defined.
