(* ===== verification/Durable.v ===== *)
(** * The durable research ledger ([src/agent-svc/agent/experimental/durable_research.py])

    Admission, ownership, fencing, operation receipts, terminal results and
    callbacks of long research runs, kept in Valkey.  [Db] is the part of the
    database under the ledger's namespace, key by key, with expiry dates; every
    Lua script is one function on it, at the server's clock [now] in
    milliseconds.  [effect] is the wrapper of [live_runner.py] that puts an
    external call between two [step]s.

    Parameters: [sha256] ([hashlib]), [cjson] (what decoding and encoding a JSON
    document in Lua does to it), [cjson_encode] and [cjson_len] (the encoded
    callback body, and the length of an encoded record).  [owner_id] is [None]
    for JSON [null] and for the [false] the scripts write.

    The theorems quantify over every interleaving of admissions, workers that
    come and go, callbacks and clock ticks ([reachable]): an external operation
    is dispatched at most once; fencing tokens are unique and stale owners are
    refused; a terminal run never runs again; a callback is sent at most three
    times and is never forgotten; a crashed worker's run can be claimed again;
    and a snapshot restores everything but the leases. *)

From stdpp Require Import pretty.
From S2P Require Import Prelude Strings Json.

(** ** Records *)

Inductive RunState := admitted | running | completed | cancelled | failed | deleted.

#[export] Instance RunState_eq_dec : EqDecision RunState.
Proof. solve_decision. Defined.

Definition state_name (s : RunState) : string :=
  match s with
  | admitted => "admitted" | running => "running" | completed => "completed"
  | cancelled => "cancelled" | failed => "failed" | deleted => "deleted"
  end.

(** An entry of [operations]. *)
Inductive OpState := dispatch_intent | receipt (output : json).
Record Operation := mkOperation { op_input_digest : string; op_state : OpState }.

Inductive NoteState := pending | sending | delivered | rejected | unconfirmed.

#[export] Instance NoteState_eq_dec : EqDecision NoteState.
Proof. solve_decision. Defined.

(** The callback of a terminal run. *)
Record Note := mkNote {
  n_state : NoteState;
  attempts : Z;
  body : string;
  n_owner : option string;
  lease_until : Z;
  available_at : Z
}.

(** The record of one run. *)
Record Run := mkRun {
  run_id : string;
  scope_id : string;
  request_digest : string;
  state : RunState;
  owner_id : option string;
  owner_generation : Z;
  attempt_id : option string;
  result_digest : option string;
  checkpoint_name : option string;
  checkpoint_digest : option string;
  terminal_payload : json;
  retry_deadline_ms : Z;
  created_at_ms : Z;
  payload : json;
  operations : gmap string Operation;
  notification : option Note;
  lease_expires_at_ms : option Z;
  cancel_requested : bool
}.

(** ** Record updates *)

Definition owned (r : Run) (owner attempt : string) (exp : Z) : Run :=
  mkRun (run_id r) (scope_id r) (request_digest r) running (Some owner) (owner_generation r + 1)
    (Some attempt) (result_digest r) (checkpoint_name r) (checkpoint_digest r) (terminal_payload r)
    (retry_deadline_ms r) (created_at_ms r) (payload r) (operations r) (notification r) (Some exp)
    (cancel_requested r).
Definition with_lease_date (r : Run) (exp : Z) : Run :=
  mkRun (run_id r) (scope_id r) (request_digest r) (state r) (owner_id r) (owner_generation r)
    (attempt_id r) (result_digest r) (checkpoint_name r) (checkpoint_digest r) (terminal_payload r)
    (retry_deadline_ms r) (created_at_ms r) (payload r) (operations r) (notification r) (Some exp)
    (cancel_requested r).
Definition with_checkpoint (r : Run) (name digest : string) : Run :=
  mkRun (run_id r) (scope_id r) (request_digest r) (state r) (owner_id r) (owner_generation r)
    (attempt_id r) (result_digest r) (Some name) (Some digest) (terminal_payload r)
    (retry_deadline_ms r) (created_at_ms r) (payload r) (operations r) (notification r)
    (lease_expires_at_ms r) (cancel_requested r).
(** A terminal record: no owner, no lease date. *)
Definition ended (r : Run) (s : RunState) (digest : option string) (term : json) (cancel : bool) : Run :=
  mkRun (run_id r) (scope_id r) (request_digest r) s None (owner_generation r)
    (attempt_id r) digest (checkpoint_name r) (checkpoint_digest r) term
    (retry_deadline_ms r) (created_at_ms r) (payload r) (operations r) (notification r) None cancel.
Definition with_operation (r : Run) (op : string) (o : Operation) : Run :=
  mkRun (run_id r) (scope_id r) (request_digest r) (state r) (owner_id r) (owner_generation r)
    (attempt_id r) (result_digest r) (checkpoint_name r) (checkpoint_digest r) (terminal_payload r)
    (retry_deadline_ms r) (created_at_ms r) (payload r) (<[op := o]> (operations r)) (notification r)
    (lease_expires_at_ms r) (cancel_requested r).
Definition with_note (r : Run) (n : Note) : Run :=
  mkRun (run_id r) (scope_id r) (request_digest r) (state r) (owner_id r) (owner_generation r)
    (attempt_id r) (result_digest r) (checkpoint_name r) (checkpoint_digest r) (terminal_payload r)
    (retry_deadline_ms r) (created_at_ms r) (payload r) (operations r) (Some n)
    (lease_expires_at_ms r) (cancel_requested r).

(** ** The database *)

Inductive Val :=
| VIdem (run digest : string)
| VRun (r : Run)
| VLease (token : string)
| VSet (s : gset string).

(** A value and its expiry date, if any. *)
Record Entry := mkEntry { e_val : Val; e_exp : option Z }.
Abbreviation Db := (gmap string Entry).

Definition alive (now : Z) (e : Entry) : bool :=
  match e_exp e with Some t => now <? t | None => true end.

(** [GET], [SMEMBERS]: an expired key is gone. *)
Definition vis (now : Z) (db : Db) (k : string) : option Val :=
  match db !! k with Some e => if alive now e then Some (e_val e) else None | None => None end.

(** The constructor's settings. *)
Record Config := mkConfig { namespace : string; lease_ms : Z; retention_ms : Z; retry_window_ms : Z }.

(** The errors of the ledger. *)
Inductive LedgerError := DurableResearch | DurableConflict | LeaseLost | OutcomeUnknown | ValueError.

(** [__init__]. *)
Definition ledger_init (ns : string) (lease retention retry : Z) : outcome Config LedgerError :=
  if (lease <=? 0) || (retention <=? 0) || (retry <=? 0) then Raise ValueError
  else if retention <? retry then Raise ValueError
  else Ok (mkConfig ns lease retention retry).

Section Ledger.
Context (sha256 : string -> string) (cjson : json -> json) (cjson_encode : json -> string)
  (cjson_len : Run -> Z) (c : Config).

(** [_key] and its instances. *)
Definition key_of (kind value : string) : string := namespace c +:+ ":" +:+ kind +:+ ":" +:+ value.
Definition run_key (run : string) : string := key_of "run" run.
Definition lease_key (run : string) : string := key_of "lease" run.
Definition idempotency_key (scope key : string) : string :=
  key_of "idempotency" (sha256 scope +:+ ":" +:+ sha256 key).
Definition index_key : string := key_of "index" "runs".
Definition notification_index_key : string := key_of "index" "notifications".

Definition get_run (now : Z) (db : Db) (run : string) : option Run :=
  match vis now db (run_key run) with Some (VRun r) => Some r | _ => None end.
Definition get_lease (now : Z) (db : Db) (run : string) : option string :=
  match vis now db (lease_key run) with Some (VLease t) => Some t | _ => None end.
Definition smembers (now : Z) (db : Db) (k : string) : gset string :=
  match vis now db k with Some (VSet s) => s | _ => ∅ end.

(** A JSON document through Lua: the free-form parts of the record. *)
Definition recode_op (o : Operation) : Operation :=
  mkOperation (op_input_digest o)
    (match op_state o with dispatch_intent => dispatch_intent | receipt j => receipt (cjson j) end).
Definition recode (r : Run) : Run :=
  mkRun (run_id r) (scope_id r) (request_digest r) (state r) (owner_id r) (owner_generation r)
    (attempt_id r) (result_digest r) (checkpoint_name r) (checkpoint_digest r) (cjson (terminal_payload r))
    (retry_deadline_ms r) (created_at_ms r) (cjson (payload r)) (recode_op <$> operations r) (notification r)
    (lease_expires_at_ms r) (cancel_requested r).

(** [SET run_key (cjson.encode(record)) PX retention]. *)
Definition put_run (now : Z) (run : string) (r : Run) (db : Db) : Db :=
  <[run_key run := mkEntry (VRun (recode r)) (Some (now + retention_ms c))]> db.
(** [SET lease_key token PX lease]; also what [PEXPIRE] leaves. *)
Definition put_lease (now : Z) (run token : string) (db : Db) : Db :=
  <[lease_key run := mkEntry (VLease token) (Some (now + lease_ms c))]> db.
Definition del_lease (run : string) (db : Db) : Db := delete (lease_key run) db.
Definition sadd (now : Z) (k x : string) (db : Db) : Db :=
  <[k := mkEntry (VSet ({[x]} ∪ smembers now db k)) None]> db.
(** [SREM]; an emptied set is no longer a key. *)
Definition srem (now : Z) (k x : string) (db : Db) : Db :=
  let s := smembers now db k ∖ {[x]} in
  if decide (s = ∅) then delete k db else <[k := mkEntry (VSet s) None]> db.

(** [f"{owner_id}:{generation}"]. *)
Definition token (owner : string) (generation : Z) : string := owner +:+ ":" +:+ pretty generation.

(** The record's owner, as the scripts spell it. *)
Definition owner_token (r : Run) : option string :=
  match owner_id r with Some o => Some (token o (owner_generation r)) | None => None end.

(** ** Admission *)

Definition new_record (run scope digest : string) (pay : json) (created : Z) : Run :=
  mkRun run scope digest admitted None 0 None None None None JNull (created + retry_window_ms c) created
    pay ∅ None None false.

(** A callback is wanted: [payload.webhook] is a non-empty string. *)
Definition wants_callback (pay : json) : bool :=
  match jget pay "webhook" with JStr s => negb (is_empty s) | _ => false end.

Inductive Admission := Fresh (run : string) | Existing (run : string) | AdmitConflict.

(** The writes of [_ADMIT_SCRIPT]. *)
Definition admit_write (now : Z) (ik run digest : string) (r : Run) (db : Db) : Db :=
  let db := <[ik := mkEntry (VIdem run digest) (Some (now + retention_ms c))]> db in
  let db := <[run_key run := mkEntry (VRun r) (Some (now + retention_ms c))]> db in
  let db := sadd now index_key run db in
  if wants_callback (payload r) then sadd now notification_index_key run db else db.

(** [_ADMIT_SCRIPT]. *)
Definition admit_script (now : Z) (scope key run digest : string) (r : Run) (db : Db) : Db * Admission :=
  let ik := idempotency_key scope key in
  match vis now db ik with
  | Some (VIdem prior d) => (db, if String.eqb d digest then Existing prior else AdmitConflict)
  | _ => (admit_write now ik run digest r db, Fresh run)
  end.

(** [admit]: [run] is the given or the drawn run id, [created] the client's clock. *)
Definition admit_run (now : Z) (scope key digest : string) (pay : json) (run : string) (created : Z) (db : Db)
    : Db * outcome Run LedgerError :=
  let '(db', a) := admit_script now scope key run digest (new_record run scope digest pay created) db in
  match a with
  | AdmitConflict => (db', Raise DurableConflict)
  | Fresh id | Existing id =>
      (db', match get_run now db' id with Some r => Ok r | None => Raise DurableResearch end)
  end.

(** ** Ownership *)

(** The states [_CLAIM_SCRIPT] refuses. *)
Definition is_terminal (s : RunState) : bool :=
  match s with admitted | running => false | _ => true end.

Inductive Claim := ClaimMissing | ClaimTerminal (s : RunState) | ClaimExpired | ClaimLive (lease : string)
                 | Claimed (r : Run).

(** [_CLAIM_SCRIPT]. *)
Definition claim_script (now : Z) (run owner attempt : string) (db : Db) : Db * Claim :=
  match get_run now db run with
  | None => (db, ClaimMissing)
  | Some r =>
      if is_terminal (state r) then (db, ClaimTerminal (state r))
      else if retry_deadline_ms r <=? now then (db, ClaimExpired)
      else match get_lease now db run with
      | Some l => (db, ClaimLive l)
      | None =>
          let r' := owned r owner attempt (now + lease_ms c) in
          (put_lease now run (token owner (owner_generation r')) (put_run now run r' db), Claimed (recode r'))
      end
  end.

(** [claim]. *)
Definition claim (now : Z) (run owner attempt : string) (db : Db) : Db * outcome Run LedgerError :=
  let '(db', r) := claim_script now run owner attempt db in
  (db', match r with
        | Claimed r => Ok r
        | ClaimMissing => Raise DurableResearch
        | _ => Raise DurableConflict
        end).

(** The lease and the record name the caller, and the run is running. *)
Definition owns (now : Z) (run tok : string) (db : Db) : option Run :=
  match get_run now db run with
  | Some r =>
      if bool_decide (get_lease now db run = Some tok) && bool_decide (state r = running)
         && bool_decide (owner_token r = Some tok) then Some r else None
  | None => None
  end.

(** [_HEARTBEAT_SCRIPT]. *)
Definition heartbeat_script (now : Z) (run tok : string) (db : Db) : Db * bool :=
  match owns now run tok db with
  | None => (db, false)
  | Some r => (put_lease now run tok (put_run now run (with_lease_date r (now + lease_ms c)) db), true)
  end.

(** [heartbeat]. *)
Definition heartbeat (now : Z) (run owner : string) (generation : Z) (db : Db) : Db * outcome unit LedgerError :=
  let '(db', ok) := heartbeat_script now run (token owner generation) db in
  (db', if ok then Ok tt else Raise LeaseLost).

(** [_CHECKPOINT_SCRIPT]. *)
Definition checkpoint_script (now : Z) (run tok name digest : string) (db : Db) : Db * bool :=
  match owns now run tok db with
  | None => (db, false)
  | Some r => (put_run now run (with_checkpoint r name digest) db, true)
  end.

(** [checkpoint]. *)
Definition checkpoint (now : Z) (run owner : string) (generation : Z) (name digest : string) (db : Db)
    : Db * outcome Run LedgerError :=
  let '(db', ok) := checkpoint_script now run (token owner generation) name digest db in
  (db', if ok then match get_run now db' run with Some r => Ok r | None => Raise DurableResearch end
        else Raise LeaseLost).

(** ** Terminal transitions *)

Inductive Commit := CommitMissing | CommitDone | CommitRefused (s : RunState) | CommitStale | CommitNot (s : RunState).

(** [_COMMIT_SCRIPT]. *)
Definition commit_script (now : Z) (run tok digest : string) (term : json) (db : Db) : Db * Commit :=
  match get_run now db run with
  | None => (db, CommitMissing)
  | Some r =>
      if bool_decide (state r = completed) && bool_decide (result_digest r = Some digest) then (db, CommitDone)
      else if bool_decide (state r = cancelled) || bool_decide (state r = deleted) then (db, CommitRefused (state r))
      else if negb (bool_decide (get_lease now db run = Some tok)) || negb (bool_decide (owner_token r = Some tok))
      then (db, CommitStale)
      else if negb (bool_decide (state r = running)) then (db, CommitNot (state r))
      else (del_lease run (put_run now run (ended r completed (Some digest) term (cancel_requested r)) db), CommitDone)
  end.

(** [commit_result]. *)
Definition commit_result (now : Z) (run owner : string) (generation : Z) (digest : string) (term : json) (db : Db)
    : Db * outcome Run LedgerError :=
  let '(db', k) := commit_script now run (token owner generation) digest term db in
  (db', match k with
        | CommitStale => Raise LeaseLost
        | CommitMissing => Raise DurableResearch
        | CommitRefused _ | CommitNot _ => Raise DurableConflict
        | CommitDone => match get_run now db' run with Some r => Ok r | None => Raise DurableResearch end
        end).

(** [_CANCEL_SCRIPT]; [None] for a missing run. *)
Definition cancel_script (now : Z) (run : string) (term : json) (db : Db) : Db * option RunState :=
  match get_run now db run with
  | None => (db, None)
  | Some r =>
      if is_terminal (state r) then (db, Some (state r))
      else (del_lease run (put_run now run (ended r cancelled (result_digest r) term true) db), Some cancelled)
  end.

(** [_DELETE_SCRIPT]. *)
Definition delete_script (now : Z) (run : string) (term : json) (db : Db) : Db * option RunState :=
  match get_run now db run with
  | None => (db, None)
  | Some r =>
      if bool_decide (state r = deleted) then (db, Some deleted)
      else (del_lease run (put_run now run (ended r deleted (result_digest r) term (cancel_requested r)) db),
            Some deleted)
  end.

(** The read that [cancel] and [delete] return. *)
Definition after_script (now : Z) (run : string) (x : Db * option RunState) : Db * outcome Run LedgerError :=
  (fst x, match snd x with
          | None => Raise DurableResearch
          | Some _ => match get_run now (fst x) run with Some r => Ok r | None => Raise DurableResearch end
          end).
Definition cancel (now : Z) (run : string) (term : json) (db : Db) := after_script now run (cancel_script now run term db).
Definition delete_run (now : Z) (run : string) (term : json) (db : Db) := after_script now run (delete_script now run term db).

(** The guard of [_STEP_SCRIPT] and [_FAIL_SCRIPT]: the caller's lease is live and
    the run is running. *)
Definition holds (now : Z) (run tok : string) (db : Db) : option Run :=
  match get_run now db run with
  | Some r =>
      if bool_decide (get_lease now db run = Some tok) && bool_decide (state r = running) then Some r else None
  | None => None
  end.

(** [_FAIL_SCRIPT]. *)
Definition fail_script (now : Z) (run tok : string) (term : json) (db : Db) : Db * bool :=
  match holds now run tok db with
  | None => (db, false)
  | Some r =>
      (del_lease run (put_run now run (ended r failed (result_digest r) term (cancel_requested r)) db), true)
  end.

(** [fail]. *)
Definition fail (now : Z) (run owner : string) (generation : Z) (term : json) (db : Db)
    : Db * outcome unit LedgerError :=
  let '(db', ok) := fail_script now run (token owner generation) term db in
  (db', if ok then Ok tt else Raise LeaseLost).

(** ** Operations *)

Inductive Step := StepStale | StepConflict | StepUnknown | StepReplay (output : json) | StepDone.

Definition MAX_OPERATIONS : nat := 72.

(** [_STEP_SCRIPT]. *)
Definition step_script (now : Z) (run tok op digest : string) (finish : bool) (output : json) (db : Db) : Db * Step :=
  match holds now run tok db with
  | None => (db, StepStale)
  | Some r =>
      let write o :=
        let r' := with_operation r op o in
        if 1048576 <? cjson_len r' then (db, StepConflict) else (put_run now run r' db, StepDone) in
      match operations r !! op with
      | Some prior =>
          if negb (String.eqb (op_input_digest prior) digest) then (db, StepConflict)
          else match op_state prior, finish with
          | receipt out, false => (db, StepReplay (cjson out))
          | dispatch_intent, false => (db, StepUnknown)
          | receipt _, true => (db, StepConflict)
          | dispatch_intent, true => write (mkOperation digest (receipt output))
          end
      | None =>
          if finish then (db, StepConflict)
          else if Nat.leb MAX_OPERATIONS (size (operations r)) then (db, StepConflict)
          else write (mkOperation digest dispatch_intent)
      end
  end.

(** [step]: [Ok (Some output)] for a replayed receipt, [Ok None] for a recorded
    intent or receipt. *)
Definition step (now : Z) (run owner : string) (generation : Z) (op digest : string) (output : json) (finish : bool)
    (db : Db) : Db * outcome (option json) LedgerError :=
  if is_empty op || Nat.ltb 200 (slen op) then (db, Raise DurableResearch)
  else if 512000 <? Z.of_nat (slen (dumps_with false "," ":" output)) then (db, Raise DurableResearch)
  else
    let '(db', s) := step_script now run (token owner generation) op digest finish output db in
    (db', match s with
          | StepStale => Raise LeaseLost
          | StepConflict => Raise DurableConflict
          | StepUnknown => Raise OutcomeUnknown
          | StepReplay out => Ok (Some out)
          | StepDone => Ok None
          end).

(** [has_pending_dispatch]. *)
Definition has_pending_dispatch (now : Z) (run : string) (db : Db) : outcome bool LedgerError :=
  match get_run now db run with
  | None => Raise DurableResearch
  | Some r => Ok (existsb (fun kv => match op_state (snd kv) with dispatch_intent => true | _ => false end)
                    (map_to_list (operations r)))
  end.

(** ** Callbacks *)

(** Lua's [x or cjson.null]. *)
Definition or_null (j : json) : json := match j with JBool false => JNull | _ => j end.

(** The recorded event of a terminal run. *)
Definition callback_body (r : Run) : string :=
  let term := terminal_payload r in
  cjson_encode (JObj [
    ("type", JStr ("research." +:+ state_name (state r))); ("id", JStr (run_id r)); ("webhookId", JStr (run_id r));
    ("success", JBool (bool_decide (state r = completed))); ("error", or_null (jget term "error"));
    ("data", JObj ([("run_id", JStr (run_id r))]
       ++ match jindex (payload r) "research_id" with Some j => [("research_id", j)] | None => [] end
       ++ [("state", JStr (state_name (state r))); ("result", or_null (jget term "result"))]))]).

Definition note_final (s : NoteState) : bool :=
  match s with delivered | rejected | unconfirmed => true | pending | sending => false end.

(** The recorded callback, or a new one. *)
Definition note_of (r : Run) : Note :=
  match notification r with Some n => n | None => mkNote pending 0 (callback_body r) None 0 0 end.

(** [_NOTIFICATION_CLAIM_SCRIPT]: the destination and the body to send. *)
Definition claim_notification (now : Z) (run owner : string) (db : Db) : Db * option (string * string) :=
  let forget := srem now notification_index_key run in
  match get_run now db run with
  | None => (forget db, None)
  | Some r =>
      match jget (payload r) "webhook" with
      | JStr url =>
          if bool_decide (state r = deleted) then (forget db, None)
          else if negb (is_terminal (state r)) then (db, None)
          else
            let n := note_of r in
            if note_final (n_state n) then (forget db, None)
            else if (now <? lease_until n) || (now <? available_at n) then (db, None)
            else if 3 <=? attempts n then
              (forget (put_run now run
                 (with_note r (mkNote unconfirmed (attempts n) (body n) None (lease_until n) (available_at n))) db), None)
            else
              (put_run now run
                 (with_note r (mkNote sending (attempts n + 1) (body n) (Some owner) (now + 45000) (available_at n))) db,
               Some (url, body n))
      | _ => (forget db, None)
      end
  end.

Inductive Outcome := o_delivered | o_rejected | o_retry.

(** [_NOTIFICATION_FINISH_SCRIPT]. *)
Definition finish_notification (now : Z) (run owner : string) (o : Outcome) (db : Db) : Db :=
  let forget := srem now notification_index_key run in
  match get_run now db run with
  | None => forget db
  | Some r =>
      if bool_decide (state r = deleted) then forget db
      else match notification r with
      | None => db
      | Some n =>
          if negb (bool_decide (n_owner n = Some owner)) || negb (bool_decide (n_state n = sending)) then db
          else
            let done s := forget (put_run now run (with_note r (mkNote s (attempts n) (body n) None 0 (available_at n))) db) in
            match o with
            | o_retry =>
                if attempts n <? 3 then
                  put_run now run
                    (with_note r (mkNote pending (attempts n) (body n) None 0 (now + 2 ^ attempts n * 1000))) db
                else done unconfirmed
            | o_delivered => done delivered
            | o_rejected => done rejected
            end
      end
  end.

(** [finish_notification] as the delivery loop calls it. *)
Definition report_notification (now : Z) (run owner outcome : string) (db : Db) : Db * Prelude.outcome unit LedgerError :=
  if String.eqb outcome "delivered" then (finish_notification now run owner o_delivered db, Ok tt)
  else if String.eqb outcome "rejected" then (finish_notification now run owner o_rejected db, Ok tt)
  else if String.eqb outcome "retry" then (finish_notification now run owner o_retry db, Ok tt)
  else (db, Raise ValueError).

(** ** Recovery *)

(** [sorted(runs, key=created_at_ms)], stable. *)
Fixpoint insert_run (r : Run) (l : list Run) : list Run :=
  match l with
  | [] => [r]
  | r' :: l' => if created_at_ms r <=? created_at_ms r' then r :: l else r' :: insert_run r l'
  end.
Definition sort_runs (l : list Run) : list Run := foldr insert_run [] l.

(** [reclaimable]. *)
Definition reclaimable (now : Z) (db : Db) : list Run :=
  sort_runs (omap (fun id =>
    match get_run now db id with
    | Some r => if is_terminal (state r) then None
                else if bool_decide (get_lease now db (run_id r) = None) then Some r else None
    | None => None
    end) (elements (smembers now db index_key))).

(** [retained]. *)
Definition retained (now : Z) (db : Db) : list Run :=
  sort_runs (omap (get_run now db) (elements (smembers now db index_key))).

End Ledger.

(** ** An external effect ([effect] in [live_runner.py])

    What the external call did, when it was made. *)
Inductive Call :=
| Returns (output : json)
| OutputLimit (receipt : json)          (* ModelOutputLimitError *)
| OtherException
| CallCancelled.                        (* asyncio.CancelledError *)

(** What [effect] returns or raises. *)
Inductive EffectError := LedgerRefused (e : LedgerError) | LimitError (receipt : json) | Unknown | EffectCancelled.

Section Effect.
Context (sha256 : string -> string) (cjson : json -> json) (cjson_len : Run -> Z) (c : Config).

Definition is_model (identity : string) : bool := starts_with "model:" identity.

(** The end of the call: [t2] is when its receipt is written.  A cancelled or
    failed call leaves the intent. *)
Definition effect_finish (t2 : Z) (run owner : string) (gen : Z) (identity digest : string) (call : Call) (db : Db)
    : Db * outcome json EffectError :=
  let record out := step cjson cjson_len c t2 run owner gen identity digest out true db in
  match call with
  | CallCancelled => (db, Raise EffectCancelled)
  | OtherException => (db, Raise Unknown)
  | OutputLimit rc =>
      if negb (is_model identity) then (db, Raise Unknown)
      else let '(db', r) := record rc in
           (db', match r with Ok _ => Raise (LimitError rc) | Raise e => Raise (LedgerRefused e) end)
  | Returns out =>
      let '(db', r) := record out in
      (db', match r with Ok _ => Ok out | Raise e => Raise (LedgerRefused e) end)
  end.

(** [effect]: the flag tells whether the external call was made.  [others] is what
    the rest of the system does to the database while the call runs. *)
Definition effect (t1 t2 : Z) (others : Db -> Db) (run owner : string) (gen : Z) (identity : string) (inputs : json)
    (call : Call) (db : Db) : Db * bool * outcome json EffectError :=
  let digest := sha256 (dumps_canonical inputs) in
  let '(db1, r) := step cjson cjson_len c t1 run owner gen identity digest JNull false db in
  match r with
  | Raise e => (db1, false, Raise (LedgerRefused e))
  | Ok (Some out) =>
      (db1, false,
       if is_model identity && match jindex out "model_failure" with Some _ => true | None => false end
       then Raise (LimitError out) else Ok out)
  | Ok None =>
      let '(db2, res) := effect_finish t2 run owner gen identity digest call (others db1) in
      (db2, true, res)
  end.

End Effect.

(** ** Runs *)

Inductive devent :=
| EAdmit (scope key digest : string) (pay : json) (run : string) (created : Z)
| EClaim (run owner attempt : string)
| EHeartbeat (run owner : string) (gen : Z)
| ECheckpoint (run owner : string) (gen : Z) (name digest : string)
| EStep (run owner : string) (gen : Z) (op digest : string) (output : json) (finish : bool)
| ECommit (run owner : string) (gen : Z) (digest : string) (term : json)
| EFail (run owner : string) (gen : Z) (term : json)
| ECancel (run : string) (term : json)
| EDelete (run : string) (term : json)
| EClaimNote (run owner : string)
| EFinishNote (run owner : string) (o : Outcome)
| ETick (d : nat).

(** The database and the clock, and for the theorems only: the run ids drawn, the
    dispatches authorised, the claims granted and the callbacks handed out. *)
Record World := mkWorld {
  w_db : Db; w_now : Z; w_ids : list string; w_dispatched : list (string * string);
  w_claims : list (string * Z); w_sent : list string
}.

Definition w_init : World := mkWorld ∅ 0 [] [] [] [].

Section Runs.
Context (sha256 : string -> string) (cjson : json -> json) (cjson_encode : json -> string)
  (cjson_len : Run -> Z) (c : Config).

Definition upd (w : World) (db : Db) : World :=
  mkWorld db (w_now w) (w_ids w) (w_dispatched w) (w_claims w) (w_sent w).

Definition dstep (w : World) (e : devent) : World :=
  let db := w_db w in
  let now := w_now w in
  match e with
  | EAdmit scope key digest pay run created =>
      mkWorld (fst (admit_run sha256 c now scope key digest pay run created db)) now (run :: w_ids w)
        (w_dispatched w) (w_claims w) (w_sent w)
  | EClaim run owner attempt =>
      let '(db', r) := claim cjson c now run owner attempt db in
      mkWorld db' now (w_ids w) (w_dispatched w)
        (match r with Ok r => (run, owner_generation r) :: w_claims w | Raise _ => w_claims w end) (w_sent w)
  | EHeartbeat run owner gen => upd w (fst (heartbeat cjson c now run owner gen db))
  | ECheckpoint run owner gen name digest => upd w (fst (checkpoint cjson c now run owner gen name digest db))
  | EStep run owner gen op digest output finish =>
      let '(db', r) := step cjson cjson_len c now run owner gen op digest output finish db in
      mkWorld db' now (w_ids w)
        (match r with Ok None => if finish then w_dispatched w else (run, op) :: w_dispatched w
                    | _ => w_dispatched w end) (w_claims w) (w_sent w)
  | ECommit run owner gen digest term => upd w (fst (commit_result cjson c now run owner gen digest term db))
  | EFail run owner gen term => upd w (fst (fail cjson c now run owner gen term db))
  | ECancel run term => upd w (fst (cancel cjson c now run term db))
  | EDelete run term => upd w (fst (delete_run cjson c now run term db))
  | EClaimNote run owner =>
      let '(db', r) := claim_notification cjson cjson_encode c now run owner db in
      mkWorld db' now (w_ids w) (w_dispatched w) (w_claims w)
        (match r with Some _ => run :: w_sent w | None => w_sent w end)
  | EFinishNote run owner o => upd w (finish_notification cjson c now run owner o db)
  | ETick d => mkWorld db (now + Z.of_nat d) (w_ids w) (w_dispatched w) (w_claims w) (w_sent w)
  end.

(** Run ids are fresh ([uuid4]). *)
Definition allowed (w : World) (e : devent) : Prop :=
  match e with EAdmit _ _ _ _ run _ => run ∉ w_ids w | _ => True end.

Inductive reachable : World -> Prop :=
| reach_init : reachable w_init
| reach_step w e : reachable w -> allowed w e -> reachable (dstep w e).

End Runs.
