(* ===== verification/DurableRun.v ===== *)
(** * The durable ledger: one run

    The proofs about [Durable].  [amove] is the abstract life of one run id;
    [durable_refines_run] shows that every interleaving of the ledger's clients
    is, run by run, a sequence of its moves, and the invariants [wf] of the
    abstract run give the theorems on dispatches, fencing, terminal states and
    callbacks.  [dbwf] is what the recovery theorem needs of the database. *)

From stdpp Require Import pretty.
From S2P Require Import Prelude Strings Json Durable.

(** ** Keys *)

Lemma sapp_cancel s t u : s +:+ t = s +:+ u -> t = u.
Proof. induction s as [|ch s IH]; cbn; [done|]. intros [= H]. by apply IH. Qed.

Section Keys.
Context (sha256 : string -> string) (c : Config).

Lemma key_of_inj kind v1 v2 : key_of c kind v1 = key_of c kind v2 -> v1 = v2.
Proof. unfold key_of. intros H. by do 4 apply sapp_cancel in H. Qed.

Lemma run_key_inj r1 r2 : run_key c r1 = run_key c r2 -> r1 = r2.
Proof. apply key_of_inj. Qed.
Lemma lease_key_inj r1 r2 : lease_key c r1 = lease_key c r2 -> r1 = r2.
Proof. apply key_of_inj. Qed.

(** Keys of different kinds differ. *)
Lemma run_not_lease r1 r2 : run_key c r1 <> lease_key c r2.
Proof. intros H. by do 2 apply sapp_cancel in H. Qed.
Lemma run_not_idem r1 s k : run_key c r1 <> idempotency_key sha256 c s k.
Proof. intros H. by do 2 apply sapp_cancel in H. Qed.
Lemma run_not_index r1 : run_key c r1 <> index_key c.
Proof. intros H. by do 2 apply sapp_cancel in H. Qed.
Lemma run_not_notes r1 : run_key c r1 <> notification_index_key c.
Proof. intros H. by do 2 apply sapp_cancel in H. Qed.
Lemma lease_not_idem r1 s k : lease_key c r1 <> idempotency_key sha256 c s k.
Proof. intros H. by do 2 apply sapp_cancel in H. Qed.
Lemma lease_not_index r1 : lease_key c r1 <> index_key c.
Proof. intros H. by do 2 apply sapp_cancel in H. Qed.
Lemma lease_not_notes r1 : lease_key c r1 <> notification_index_key c.
Proof. intros H. by do 2 apply sapp_cancel in H. Qed.
Lemma idem_not_index s k : idempotency_key sha256 c s k <> index_key c.
Proof. intros H. by do 2 apply sapp_cancel in H. Qed.
Lemma idem_not_notes s k : idempotency_key sha256 c s k <> notification_index_key c.
Proof. intros H. by do 2 apply sapp_cancel in H. Qed.
Lemma index_not_notes : index_key c <> notification_index_key c.
Proof. intros H. by do 4 apply sapp_cancel in H. Qed.

End Keys.

#[export] Hint Resolve run_not_lease run_not_idem run_not_index run_not_notes lease_not_idem lease_not_index
  lease_not_notes idem_not_index idem_not_notes index_not_notes : durable_keys.

Ltac keys := first [done | solve [eauto using not_eq_sym with durable_keys]
  | let H := fresh in intros H; (apply run_key_inj in H || apply lease_key_inj in H); congruence].

(** ** Reading what was written *)

Section Frames.
Context (sha256 : string -> string) (cjson : json -> json) (c : Config).

Lemma vis_insert_eq now db k e : vis now (<[k := e]> db) k = if alive now e then Some (e_val e) else None.
Proof. unfold vis. by rewrite lookup_insert_eq. Qed.
Lemma vis_insert_ne now db k k' e : k <> k' -> vis now (<[k := e]> db) k' = vis now db k'.
Proof. unfold vis. intros. by rewrite lookup_insert_ne. Qed.
Lemma vis_delete_eq now db k : vis now (delete k db) k = None.
Proof. unfold vis. by rewrite lookup_delete_eq. Qed.
Lemma vis_delete_ne now db k k' : k <> k' -> vis now (delete k db) k' = vis now db k'.
Proof. unfold vis. intros. by rewrite lookup_delete_ne. Qed.

(** Time only makes keys disappear. *)
Lemma vis_later now d db k v : 0 <= d -> vis (now + d) db k = Some v -> vis now db k = Some v.
Proof.
  unfold vis, alive. intros Hd. destruct (db !! k) as [e|]; [|done]. destruct (e_exp e) as [t|]; [|done].
  destruct (now + d <? t) eqn:E1; [|done]. destruct (now <? t) eqn:E2; [done|]. bool_to_prop. lia.
Qed.

Context (Hret : 0 < retention_ms c) (Hlease : 0 < lease_ms c).

Lemma get_run_put_eq now db run r : get_run c now (put_run cjson c now run r db) run = Some (recode cjson r).
Proof.
  unfold get_run, put_run. rewrite vis_insert_eq. unfold alive. cbn. by rewrite (proj2 (Z.ltb_lt _ _)) by lia.
Qed.
Lemma get_run_put_ne now now' db run run' r : run <> run' ->
  get_run c now' (put_run cjson c now run r db) run' = get_run c now' db run'.
Proof. intros. unfold get_run, put_run. rewrite vis_insert_ne; [done|keys]. Qed.
Lemma get_run_put_lease now now' db run run' tok :
  get_run c now' (put_lease c now run tok db) run' = get_run c now' db run'.
Proof. unfold get_run, put_lease. rewrite vis_insert_ne; [done|keys]. Qed.
Lemma get_run_del_lease now db run run' : get_run c now (del_lease c run db) run' = get_run c now db run'.
Proof. unfold get_run, del_lease. rewrite vis_delete_ne; [done|keys]. Qed.

Lemma get_lease_put_run now now' db run run' r :
  get_lease c now' (put_run cjson c now run r db) run' = get_lease c now' db run'.
Proof. unfold get_lease, put_run. rewrite vis_insert_ne; [done|keys]. Qed.
Lemma get_lease_put_eq now db run tok : get_lease c now (put_lease c now run tok db) run = Some tok.
Proof.
  unfold get_lease, put_lease. rewrite vis_insert_eq. unfold alive. cbn. by rewrite (proj2 (Z.ltb_lt _ _)) by lia.
Qed.
Lemma get_lease_put_ne now now' db run run' tok : run <> run' ->
  get_lease c now' (put_lease c now run tok db) run' = get_lease c now' db run'.
Proof. intros. unfold get_lease, put_lease. rewrite vis_insert_ne; [done|keys]. Qed.
Lemma get_lease_del_eq now db run : get_lease c now (del_lease c run db) run = None.
Proof. unfold get_lease, del_lease. by rewrite vis_delete_eq. Qed.
Lemma get_lease_del_ne now db run run' : run <> run' ->
  get_lease c now (del_lease c run db) run' = get_lease c now db run'.
Proof. intros. unfold get_lease, del_lease. rewrite vis_delete_ne; [done|keys]. Qed.

(** Writes of a run or a lease leave every other kind of key alone. *)
Lemma smembers_ne now db k k' e : k <> k' -> smembers now (<[k := e]> db) k' = smembers now db k'.
Proof. intros. unfold smembers. by rewrite vis_insert_ne. Qed.
Lemma smembers_del now db k k' : k <> k' -> smembers now (delete k db) k' = smembers now db k'.
Proof. intros. unfold smembers. by rewrite vis_delete_ne. Qed.
Lemma smembers_sadd now now' db k x : smembers now' (sadd now k x db) k = {[x]} ∪ smembers now db k.
Proof. unfold sadd, smembers at 1. by rewrite vis_insert_eq. Qed.
Lemma smembers_srem now now' db k x : smembers now' (srem now k x db) k = smembers now db k ∖ {[x]}.
Proof.
  unfold srem. destruct (decide _) as [E|E]; unfold smembers at 1.
  - by rewrite vis_delete_eq, E.
  - by rewrite vis_insert_eq.
Qed.
Lemma vis_sadd now now' db k k' x : k <> k' -> vis now' (sadd now k x db) k' = vis now' db k'.
Proof. intros. unfold sadd. by rewrite vis_insert_ne. Qed.
Lemma vis_srem now now' db k k' x : k <> k' -> vis now' (srem now k x db) k' = vis now' db k'.
Proof. intros. unfold srem. destruct (decide _); by rewrite ?vis_insert_ne, ?vis_delete_ne. Qed.

Lemma get_run_srem now now' db x run :
  get_run c now' (srem now (notification_index_key c) x db) run = get_run c now' db run.
Proof. unfold get_run. rewrite vis_srem; [done|keys]. Qed.
Lemma get_lease_srem now now' db x run :
  get_lease c now' (srem now (notification_index_key c) x db) run = get_lease c now' db run.
Proof. unfold get_lease. rewrite vis_srem; [done|keys]. Qed.

(** Is a run in the index of callbacks? *)
Definition in_notes (now : Z) (db : Db) (run : string) : bool :=
  bool_decide (run ∈ smembers now db (notification_index_key c)).

Lemma in_notes_put_run now now' db run run' r :
  in_notes now' (put_run cjson c now run r db) run' = in_notes now' db run'.
Proof. unfold in_notes, put_run. rewrite smembers_ne; [done|keys]. Qed.
Lemma in_notes_put_lease now now' db run run' tok :
  in_notes now' (put_lease c now run tok db) run' = in_notes now' db run'.
Proof. unfold in_notes, put_lease. rewrite smembers_ne; [done|keys]. Qed.
Lemma in_notes_del_lease now db run run' : in_notes now (del_lease c run db) run' = in_notes now db run'.
Proof. unfold in_notes, del_lease. rewrite smembers_del; [done|keys]. Qed.
Lemma in_notes_srem now db x run :
  in_notes now (srem now (notification_index_key c) x db) run = in_notes now db run && negb (bool_decide (run = x)).
Proof.
  unfold in_notes. rewrite smembers_srem. repeat case_bool_decide; cbn; set_solver.
Qed.

End Frames.

#[export] Hint Rewrite get_run_put_lease get_run_del_lease get_lease_put_run get_lease_del_eq get_run_srem
  get_lease_srem in_notes_put_run in_notes_put_lease in_notes_del_lease in_notes_srem : ledger.
#[export] Hint Rewrite get_run_put_eq get_lease_put_eq using lia : ledger.
#[export] Hint Rewrite get_run_put_ne get_lease_put_ne get_lease_del_ne using done : ledger.

(** ** The abstract run

    What the ledger promises about one run id: its record, its lease, whether its
    callback is still indexed, and the history of dispatches, claims and sends. *)

Record Proj := mkProj {
  p_used : bool;
  p_run : option Run;
  p_lease : option string;
  p_noted : bool;
  p_ops : list string;
  p_gens : list Z;
  p_sends : nat
}.

Definition p_init : Proj := mkProj false None None false [] [] 0.

(** Same owner, state, callback and operations. *)
Definition same_owner (r r' : Run) : Prop :=
  state r' = state r /\ owner_token r' = owner_token r /\ owner_generation r' = owner_generation r.
Definition same_note (r r' : Run) : Prop :=
  notification r' = notification r /\ wants_callback (payload r') = wants_callback (payload r).
Definition same_ops (r r' : Run) : Prop := dom (operations r') = dom (operations r).

(** How a run ends: a result or a failure needs the live lease of the running
    owner; a cancellation any run that is not over; a deletion anything. *)
Definition may_end (lease : option string) (s s' : RunState) : Prop :=
  match s' with
  | completed | failed => s = running /\ is_Some lease
  | cancelled => is_terminal s = false
  | deleted => s <> deleted
  | admitted | running => False
  end.

(** The callback is over, or there is none to send. *)
Definition callback_over (p : Proj) : Prop :=
  match p_run p with
  | None => True
  | Some r => state r = deleted \/ wants_callback (payload r) = false
              \/ exists n, notification r = Some n /\ note_final (n_state n) = true
  end.

Definition note_attempts (r : Run) : Z := match notification r with Some n => attempts n | None => 0 end.
Definition note_over (r : Run) : bool := match notification r with Some n => note_final (n_state n) | None => false end.
Definition same_body (r r' : Run) : Prop :=
  match notification r, notification r' with
  | Some n, Some n' => body n' = body n
  | Some _, None => False
  | None, _ => True
  end.

Inductive amove : Proj -> Proj -> Prop :=
| a_reused u r l nt ops gens sent :
    amove (mkProj u r l nt ops gens sent) (mkProj true r l nt ops gens sent)
| a_admit r l nt ops gens sent :
    state r = admitted -> owner_generation r = 0 -> operations r = ∅ -> notification r = None ->
    amove (mkProj false None l nt ops gens sent)
      (mkProj true (Some r) l (nt || wants_callback (payload r)) ops gens sent)
| a_run_expires u r l nt ops gens sent :
    amove (mkProj u r l nt ops gens sent) (mkProj u None l nt ops gens sent)
| a_lease_expires u r l nt ops gens sent :
    amove (mkProj u r l nt ops gens sent) (mkProj u r None nt ops gens sent)
| a_claim u r r' tok nt ops gens sent :
    is_terminal (state r) = false -> state r' = running -> owner_generation r' = owner_generation r + 1 ->
    owner_token r' = Some tok -> same_note r r' -> same_ops r r' ->
    amove (mkProj u (Some r) None nt ops gens sent)
      (mkProj u (Some r') (Some tok) nt ops (owner_generation r' :: gens) sent)
| a_own u r r' tok nt ops gens sent :                  (* heartbeat, checkpoint, receipt *)
    state r = running -> same_owner r r' -> same_note r r' -> same_ops r r' ->
    amove (mkProj u (Some r) (Some tok) nt ops gens sent) (mkProj u (Some r') (Some tok) nt ops gens sent)
| a_dispatch u r r' tok op nt ops gens sent :
    state r = running -> same_owner r r' -> same_note r r' ->
    op ∉ dom (operations r) -> dom (operations r') = {[op]} ∪ dom (operations r) ->
    amove (mkProj u (Some r) (Some tok) nt ops gens sent)
      (mkProj u (Some r') (Some tok) nt (op :: ops) gens sent)
| a_end u r r' l nt ops gens sent :
    may_end l (state r) (state r') -> owner_generation r' = owner_generation r -> same_note r r' -> same_ops r r' ->
    amove (mkProj u (Some r) l nt ops gens sent) (mkProj u (Some r') None nt ops gens sent)
| a_send u r r' l nt ops gens sent :
    is_terminal (state r) = true -> state r <> deleted -> note_over r = false -> note_attempts r < 3 ->
    note_attempts r' = note_attempts r + 1 -> note_over r' = false -> same_body r r' ->
    same_owner r r' -> same_ops r r' -> wants_callback (payload r') = wants_callback (payload r) ->
    amove (mkProj u (Some r) l nt ops gens sent) (mkProj u (Some r') l nt ops gens (S sent))
| a_settle u r r' l nt ops gens sent :                 (* a result of a send, or giving up *)
    is_terminal (state r) = true -> state r <> deleted -> note_over r = false ->
    note_attempts r' = note_attempts r -> same_body r r' ->
    same_owner r r' -> same_ops r r' -> wants_callback (payload r') = wants_callback (payload r) ->
    amove (mkProj u (Some r) l nt ops gens sent) (mkProj u (Some r') l nt ops gens sent)
| a_forget u r l nt ops gens sent :
    callback_over (mkProj u r l nt ops gens sent) ->
    amove (mkProj u r l nt ops gens sent) (mkProj u r l false ops gens sent).

(** ** The simulation *)

Section Simulation.
Context (sha256 : string -> string) (cjson : json -> json) (cjson_encode : json -> string)
  (cjson_len : Run -> Z) (c : Config).
Context (Hret : 0 < retention_ms c) (Hlease : 0 < lease_ms c).
Context (Hcjson : forall j, wants_callback (cjson j) = wants_callback j).

Definition proj (id : string) (w : World) : Proj :=
  mkProj (bool_decide (id ∈ w_ids w)) (get_run c (w_now w) (w_db w) id) (get_lease c (w_now w) (w_db w) id)
    (in_notes c (w_now w) (w_db w) id)
    (omap (fun p => if decide (p.1 = id) then Some p.2 else None) (w_dispatched w))
    (omap (fun p => if decide (p.1 = id) then Some p.2 else None) (w_claims w))
    (length (filter (.= id) (w_sent w))).

Lemma recode_note r r' : notification r' = notification r -> wants_callback (payload r') = wants_callback (payload r) ->
  same_note r (recode cjson r').
Proof. intros H1 H2. split; cbn; [done|]. by rewrite Hcjson. Qed.

Lemma recode_ops r r' : operations r' = operations r -> same_ops r (recode cjson r').
Proof. intros H. unfold same_ops. cbn. by rewrite H, dom_fmap_L. Qed.

Lemma holds_spec now run tok db r : holds c now run tok db = Some r ->
  get_run c now db run = Some r /\ get_lease c now db run = Some tok /\ state r = running.
Proof.
  unfold holds. destruct (get_run c now db run) as [r0|]; [|done]. destruct (_ && _) eqn:E; [|done].
  intros [= <-]. apply andb_true_iff in E as [E1 E2]. by apply bool_decide_eq_true in E1, E2.
Qed.

Lemma owns_holds now run tok db r : owns c now run tok db = Some r -> holds c now run tok db = Some r.
Proof.
  unfold owns, holds. destruct (get_run c now db run) as [r0|]; [|done]. destruct (_ && _ && _) eqn:E; [|done].
  by apply andb_true_iff in E as [-> _].
Qed.

(** The abstract view after a change of the database alone. *)
Lemma proj_upd id w db : proj id (upd w db) =
  mkProj (bool_decide (id ∈ w_ids w)) (get_run c (w_now w) db id) (get_lease c (w_now w) db id)
    (in_notes c (w_now w) db id) (p_ops (proj id w)) (p_gens (proj id w)) (p_sends (proj id w)).
Proof. done. Qed.

Lemma upd_same w : upd w (w_db w) = w.
Proof. by destruct w. Qed.

Abbreviation sim w w' := (forall id, rtc amove (proj id w) (proj id w')).

Lemma sim_refl w : sim w w.
Proof. intros id. apply rtc_refl. Qed.

Ltac frame := autorewrite with ledger; try done.

(** A write of the record of [run], the lease kept. *)
Lemma sim_put w run r' db tok :
  db = put_run cjson c (w_now w) run r' (w_db w) ->
  (forall r, get_run c (w_now w) (w_db w) run = Some r ->
     get_lease c (w_now w) (w_db w) run = Some tok -> state r = running ->
     same_owner r (recode cjson r') /\ same_note r (recode cjson r') /\ same_ops r (recode cjson r')) ->
  holds c (w_now w) run tok (w_db w) <> None ->
  sim w (upd w db).
Proof.
  intros -> H Hh id. destruct (holds c (w_now w) run tok (w_db w)) as [r|] eqn:E; [|done]. clear Hh.
  apply holds_spec in E as (Hr & Hl & Hs). destruct (H r Hr Hl Hs) as (Ho & Hn & Hops).
  rewrite proj_upd. destruct (decide (run = id)) as [<-|Hne]; frame.
  apply rtc_once. unfold proj at 1. rewrite Hr, Hl. by apply a_own.
Qed.

Lemma same_owner_refl r r' : state r' = state r -> owner_id r' = owner_id r -> owner_generation r' = owner_generation r ->
  same_owner r (recode cjson r').
Proof. intros H1 H2 H3. unfold same_owner, owner_token. cbn. by rewrite H1, H2, H3. Qed.

Hint Resolve same_owner_refl recode_note recode_ops sim_refl : ledger.

Lemma sim_checkpoint w run owner gen name digest : sim w (dstep sha256 cjson cjson_encode cjson_len c w (ECheckpoint run owner gen name digest)).
Proof.
  cbn [dstep]. unfold checkpoint, checkpoint_script. destruct (owns _ _ _ _ _) as [r|] eqn:E; cbn [fst]; [|rewrite upd_same; apply sim_refl].
  apply owns_holds in E. eapply sim_put; [done| |by rewrite E]. apply holds_spec in E as (Hr & _).
  intros r0 H0 _ _. rewrite Hr in H0. injection H0 as <-. split_and!; auto with ledger.
Qed.

Lemma sim_heartbeat w run owner gen : sim w (dstep sha256 cjson cjson_encode cjson_len c w (EHeartbeat run owner gen)).
Proof.
  cbn [dstep]. unfold heartbeat, heartbeat_script. destruct (owns _ _ _ _ _) as [r|] eqn:E; cbn [fst]; [|rewrite upd_same; apply sim_refl].
  apply owns_holds, holds_spec in E as (Hr & Hl & Hs). intros id. rewrite proj_upd.
  destruct (decide (run = id)) as [<-|Hne]; frame.
  apply rtc_once. unfold proj at 1. rewrite Hr, Hl. apply a_own; auto with ledger.
Qed.

(** The record of [run] ends and its lease goes. *)
Lemma sim_end w run r s digest term cancel :
  get_run c (w_now w) (w_db w) run = Some r ->
  may_end (get_lease c (w_now w) (w_db w) run) (state r) s ->
  sim w (upd w (del_lease c run (put_run cjson c (w_now w) run (ended r s digest term cancel) (w_db w)))).
Proof.
  intros Hr Hm id. rewrite proj_upd. destruct (decide (run = id)) as [<-|Hne]; frame.
  apply rtc_once. unfold proj at 1. rewrite Hr. apply a_end; [exact Hm|done|by apply recode_note|by apply recode_ops].
Qed.

Lemma sim_commit w run owner gen digest term :
  sim w (dstep sha256 cjson cjson_encode cjson_len c w (ECommit run owner gen digest term)).
Proof.
  cbn [dstep]. unfold commit_result, commit_script.
  destruct (get_run c (w_now w) (w_db w) run) as [r|] eqn:Hr; cbn [fst]; [|rewrite upd_same; apply sim_refl].
  destruct (_ && _); cbn [fst]; [rewrite upd_same; apply sim_refl|].
  destruct (bool_decide (state r = cancelled) || _); cbn [fst]; [rewrite upd_same; apply sim_refl|].
  destruct (negb _ || negb _) eqn:El; cbn [fst]; [rewrite upd_same; apply sim_refl|].
  destruct (negb (bool_decide (state r = running))) eqn:Es; cbn [fst]; [rewrite upd_same; apply sim_refl|].
  bool_to_prop. apply bool_decide_eq_true in H, Es. apply sim_end; [done|]. cbn. rewrite H. eauto.
Qed.

Lemma sim_fail w run owner gen term : sim w (dstep sha256 cjson cjson_encode cjson_len c w (EFail run owner gen term)).
Proof.
  cbn [dstep]. unfold fail, fail_script. destruct (holds _ _ _ _ _) as [r|] eqn:E; cbn [fst]; [|rewrite upd_same; apply sim_refl].
  apply holds_spec in E as (Hr & Hl & Hs). apply sim_end; [done|]. rewrite Hl. cbn. eauto.
Qed.

Lemma sim_cancel w run term : sim w (dstep sha256 cjson cjson_encode cjson_len c w (ECancel run term)).
Proof.
  cbn [dstep]. unfold cancel, cancel_script, after_script.
  destruct (get_run c (w_now w) (w_db w) run) as [r|] eqn:Hr; cbn [fst]; [|rewrite upd_same; apply sim_refl].
  destruct (is_terminal (state r)) eqn:Et; cbn [fst]; [rewrite upd_same; apply sim_refl|]. by apply sim_end.
Qed.

Lemma sim_delete w run term : sim w (dstep sha256 cjson cjson_encode cjson_len c w (EDelete run term)).
Proof.
  cbn [dstep]. unfold delete_run, delete_script, after_script.
  destruct (get_run c (w_now w) (w_db w) run) as [r|] eqn:Hr; cbn [fst]; [|rewrite upd_same; apply sim_refl].
  case_bool_decide as Et; cbn [fst]; [rewrite upd_same; apply sim_refl|]. by apply sim_end.
Qed.

Lemma sim_claim w run owner attempt : sim w (dstep sha256 cjson cjson_encode cjson_len c w (EClaim run owner attempt)).
Proof.
  cbn [dstep]. unfold claim, claim_script.
  destruct (get_run c (w_now w) (w_db w) run) as [r|] eqn:Hr; [|by destruct w].
  destruct (is_terminal (state r)) eqn:Et; [by destruct w|].
  destruct (retry_deadline_ms r <=? w_now w); [by destruct w|].
  destruct (get_lease c (w_now w) (w_db w) run) as [l|] eqn:Hl; [by destruct w|].
  intros id. unfold proj. cbn [w_ids w_db w_now w_dispatched w_claims w_sent].
  destruct (decide (run = id)) as [<-|Hne]; cbn [omap list_omap fst snd]; [rewrite decide_True by done|rewrite decide_False by done]; frame.
  apply rtc_once. rewrite Hr, Hl. apply a_claim; try done; [by apply recode_note|by apply recode_ops].
Qed.

Lemma sim_step w run owner gen op digest output finish :
  sim w (dstep sha256 cjson cjson_encode cjson_len c w (EStep run owner gen op digest output finish)).
Proof.
  cbn [dstep]. unfold step. destruct (is_empty op || _); [by destruct w|]. destruct (512000 <? _); [by destruct w|].
  unfold step_script. destruct (holds _ _ _ _ _) as [r|] eqn:E; [|by destruct w].
  destruct (operations r !! op) as [prior|] eqn:Eo.
  - destruct (negb _); [by destruct w|]. destruct (op_state prior), finish; try (by destruct w).
    destruct (1048576 <? _); [by destruct w|].
    change (mkWorld ?db (w_now w) (w_ids w) (w_dispatched w) (w_claims w) (w_sent w)) with (upd w db).
    eapply sim_put; [done| |by rewrite E]. apply holds_spec in E as (Hr & _).
    intros r0 H0 _ _. rewrite Hr in H0. injection H0 as <-. split_and!; [auto with ledger..|].
    unfold same_ops. cbn. rewrite dom_fmap_L, dom_insert_L.
    assert (op ∈ dom (operations r)) by by apply elem_of_dom. set_solver.
  - destruct finish; [by destruct w|]. destruct (Nat.leb _ _); [by destruct w|]. destruct (1048576 <? _); [by destruct w|].
    apply holds_spec in E as (Hr & Hl & Hs). intros id. unfold proj. cbn [w_ids w_db w_now w_dispatched w_claims w_sent].
    destruct (decide (run = id)) as [<-|Hne]; cbn [omap list_omap fst snd]; [rewrite decide_True by done|rewrite decide_False by done]; frame.
    apply rtc_once. rewrite Hr, Hl. apply a_dispatch; auto with ledger.
    + by apply not_elem_of_dom.
    + cbn. by rewrite dom_fmap_L, dom_insert_L.
Qed.

(** What a read of a run through a callback script finds. *)
Lemma sim_forget w run : callback_over (proj run w) -> sim w (upd w (srem (w_now w) (notification_index_key c) run (w_db w))).
Proof.
  intros Ho id. rewrite proj_upd. frame. destruct (decide (id = run)) as [->|Hne].
  - rewrite (bool_decide_true (run = run)), andb_false_r by done. apply rtc_once. by apply a_forget.
  - by rewrite (bool_decide_false (id = run)), andb_true_r by done.
Qed.

Lemma sim_note w run r n :
  get_run c (w_now w) (w_db w) run = Some r -> is_terminal (state r) = true -> state r <> deleted -> note_over r = false ->
  attempts n = note_attempts r -> same_body r (with_note r n) ->
  sim w (upd w (put_run cjson c (w_now w) run (with_note r n) (w_db w))).
Proof.
  intros Hr Ht Hd Ho Ha Hb id. rewrite proj_upd. destruct (decide (run = id)) as [<-|Hne]; frame.
  apply rtc_once. unfold proj at 1. rewrite Hr. apply a_settle; auto with ledger; apply Hcjson.
Qed.

Lemma sim_trans w1 w2 w3 : sim w1 w2 -> sim w2 w3 -> sim w1 w3.
Proof. intros H1 H2 id. etrans; [apply H1|apply H2]. Qed.

(** Settling with a final state also forgets the index entry. *)
Lemma sim_note_final w run r n :
  get_run c (w_now w) (w_db w) run = Some r -> is_terminal (state r) = true -> state r <> deleted -> note_over r = false ->
  attempts n = note_attempts r -> same_body r (with_note r n) -> note_final (n_state n) = true ->
  sim w (upd w (srem (w_now w) (notification_index_key c) run
                  (put_run cjson c (w_now w) run (with_note r n) (w_db w)))).
Proof.
  intros Hr Ht Hd Ho Ha Hb Hf. eapply sim_trans; [by apply (sim_note w run r n)|].
  apply (sim_forget (upd w _)). unfold callback_over. rewrite proj_upd. cbn [p_run]. frame. right. right.
  exists n. split; done.
Qed.

Lemma note_of_attempts r : attempts (note_of cjson_encode r) = note_attempts r.
Proof. unfold note_of, note_attempts. by destruct (notification r). Qed.
Lemma note_of_final r : note_final (n_state (note_of cjson_encode r)) = note_over r.
Proof. unfold note_of, note_over. by destruct (notification r). Qed.
Lemma note_of_body r n : body n = body (note_of cjson_encode r) -> same_body r (with_note r n).
Proof. unfold same_body, note_of. by destruct (notification r). Qed.

Lemma sim_claim_note w run owner : sim w (dstep sha256 cjson cjson_encode cjson_len c w (EClaimNote run owner)).
Proof.
  cbn [dstep]. unfold claim_notification.
  destruct (get_run c (w_now w) (w_db w) run) as [r|] eqn:Hr.
  2:{ apply (sim_forget w). unfold callback_over. cbn [p_run proj]. by rewrite Hr. }
  assert (Hno : (forall s, jget (payload r) "webhook" <> JStr s) -> callback_over (proj run w)).
  { intros H. unfold callback_over. cbn [p_run proj]. rewrite Hr. right. left. unfold wants_callback.
    destruct (jget (payload r) "webhook"); try done. by destruct (H s). }
  destruct (jget (payload r) "webhook") as [| | |url| |] eqn:Ew; try (apply (sim_forget w), Hno; congruence).
  case_bool_decide as Hd.
  { apply (sim_forget w). unfold callback_over. cbn [p_run proj]. rewrite Hr. by left. }
  destruct (is_terminal (state r)) eqn:Et; cbn [negb]; [|by destruct w].
  destruct (note_final _) eqn:Ef.
  { apply (sim_forget w). unfold callback_over. cbn [p_run proj]. rewrite Hr. right. right.
    unfold note_of in Ef. destruct (notification r) as [n|]; [by exists n|done]. }
  rewrite note_of_final in Ef. destruct (_ || _); [by destruct w|].
  destruct (3 <=? _) eqn:Ea.
  - apply (sim_note_final w); try done; [by apply note_of_attempts|by apply note_of_body].
  - bool_to_prop. rewrite note_of_attempts in Ea. intros id. unfold proj. cbn [w_ids w_db w_now w_dispatched w_claims w_sent].
    destruct (decide (run = id)) as [<-|Hne]; [rewrite filter_cons_True by done|rewrite filter_cons_False by done]; frame.
    apply rtc_once. rewrite Hr. apply a_send; auto with ledger; cbn.
    + unfold note_attempts at 1. cbn. by rewrite note_of_attempts.
    + by apply note_of_body.
    + apply Hcjson.
Qed.

Lemma sim_finish_note w run owner o :
  (forall r, get_run c (w_now w) (w_db w) run = Some r -> notification r <> None -> is_terminal (state r) = true) ->
  sim w (dstep sha256 cjson cjson_encode cjson_len c w (EFinishNote run owner o)).
Proof.
  intros Hterm. cbn [dstep]. unfold finish_notification.
  destruct (get_run c (w_now w) (w_db w) run) as [r|] eqn:Hr.
  2:{ apply (sim_forget w). unfold callback_over. cbn [p_run proj]. by rewrite Hr. }
  case_bool_decide as Hd.
  { apply (sim_forget w). unfold callback_over. cbn [p_run proj]. rewrite Hr. by left. }
  destruct (notification r) as [n|] eqn:En; [|rewrite upd_same; apply sim_refl].
  specialize (Hterm r eq_refl). rewrite En in Hterm. specialize (Hterm ltac:(done)).
  destruct (_ || _) eqn:E; [rewrite upd_same; apply sim_refl|].
  apply orb_false_iff in E as [_ E]. apply negb_false_iff, bool_decide_eq_true in E.
  assert (Ho : note_over r = false) by (unfold note_over; by rewrite En, E).
  assert (Hat : note_attempts r = attempts n) by (unfold note_attempts; by rewrite En).
  assert (Hb : forall m, body m = body n -> same_body r (with_note r m)) by (intros m; unfold same_body; by rewrite En).
  destruct o; [apply sim_note_final; auto..|]. destruct (attempts n <? 3); [apply sim_note|apply sim_note_final]; auto.
Qed.

(** The index of callbacks never expires. *)
Definition forever (db : Db) : Prop := forall e, db !! notification_index_key c = Some e -> e_exp e = None.

Lemma forever_insert db k e : k <> notification_index_key c -> forever db -> forever (<[k := e]> db).
Proof. intros Hk H e'. rewrite lookup_insert_ne by done. apply H. Qed.
Lemma forever_delete db k : forever db -> forever (delete k db).
Proof. intros H e. intros [_ He]%lookup_delete_Some. by apply H. Qed.
Lemma forever_set db k s : forever db -> forever (<[k := mkEntry (VSet s) None]> db).
Proof. intros H e. intros [[_ <-]|[_ He]]%lookup_insert_Some; [done|by apply H]. Qed.
Lemma forever_put_run now run r db : forever db -> forever (put_run cjson c now run r db).
Proof. apply forever_insert. keys. Qed.
Lemma forever_put_lease now run tok db : forever db -> forever (put_lease c now run tok db).
Proof. apply forever_insert. keys. Qed.
Lemma forever_srem now k x db : forever db -> forever (srem now k x db).
Proof. unfold srem. destruct (decide _); [apply forever_delete|apply forever_set]. Qed.
Lemma forever_sadd now k x db : forever db -> forever (sadd now k x db).
Proof. apply forever_set. Qed.
Hint Resolve forever_put_run forever_put_lease forever_srem forever_sadd forever_delete : ledger.

Lemma forever_step w e : forever (w_db w) -> forever (w_db (dstep sha256 cjson cjson_encode cjson_len c w e)).
Proof.
  intros H. destruct e; cbn [dstep];
    unfold admit_run, admit_script, admit_write, claim, claim_script, heartbeat, heartbeat_script, checkpoint, checkpoint_script, step, step_script,
      commit_result, commit_script, fail, fail_script, cancel, cancel_script, delete_run, delete_script, after_script, claim_notification,
      finish_notification, del_lease; cbn [w_db upd fst];
    repeat (case_match; cbn [w_db upd fst]; simplify_eq/=); auto 8 with ledger.
  all: first [apply forever_sadd, forever_sadd | apply forever_sadd];
    do 2 (apply forever_insert; [keys|]); done.
Qed.

Lemma in_notes_later now d db run : forever db -> in_notes c (now + d) db run = in_notes c now db run.
Proof.
  intros H. unfold in_notes, smembers, vis. destruct (db !! notification_index_key c) as [e|] eqn:E; [|done].
  unfold alive. by rewrite (H e E).
Qed.

Lemma sim_tick w d : forever (w_db w) -> sim w (dstep sha256 cjson cjson_encode cjson_len c w (ETick d)).
Proof.
  intros Hf id. cbn [dstep]. unfold proj. cbn [w_ids w_db w_now w_dispatched w_claims w_sent].
  rewrite in_notes_later by done.
  set (r := get_run c (w_now w) (w_db w) id). set (l := get_lease c (w_now w) (w_db w) id).
  set (r' := get_run c _ (w_db w) id). set (l' := get_lease c _ (w_db w) id).
  assert (Hr : r' = r \/ r' = None).
  { unfold r, r', get_run. destruct (vis (w_now w + Z.of_nat d) (w_db w) (run_key c id)) eqn:E; [|by right].
    apply vis_later in E; [|lia]. rewrite E. by left. }
  assert (Hl : l' = l \/ l' = None).
  { unfold l, l', get_lease. destruct (vis (w_now w + Z.of_nat d) (w_db w) (lease_key c id)) eqn:E; [|by right].
    apply vis_later in E; [|lia]. rewrite E. by left. }
  destruct Hr as [->| ->], Hl as [->| ->]; [done|apply rtc_once, a_lease_expires|apply rtc_once, a_run_expires|].
  eapply rtc_l; [apply a_run_expires|]. apply rtc_once, a_lease_expires.
Qed.

Lemma admit_write_spec now scope key run digest r db id :
  let db' := admit_write c now (idempotency_key sha256 c scope key) run digest r db in
  get_run c now db' id = (if decide (id = run) then Some r else get_run c now db id) /\
  get_lease c now db' id = get_lease c now db id /\
  in_notes c now db' id = in_notes c now db id || (if decide (id = run) then wants_callback (payload r) else false).
Proof.
  cbn zeta. unfold admit_write. set (ik := idempotency_key sha256 c scope key).
  set (db1 := <[run_key c run := _]> (<[ik := _]> db)). set (db2 := sadd now (index_key c) run db1).
  assert (Hr : get_run c now db2 id = if decide (id = run) then Some r else get_run c now db id).
  { unfold get_run, db2. rewrite vis_sadd by keys. unfold db1. destruct (decide (id = run)) as [->|Hne].
    - rewrite vis_insert_eq. unfold alive. cbn. by rewrite (proj2 (Z.ltb_lt _ _)) by lia.
    - by rewrite !vis_insert_ne by (unfold ik; keys). }
  assert (Hl : get_lease c now db2 id = get_lease c now db id).
  { unfold get_lease, db2. rewrite vis_sadd by keys. unfold db1. by rewrite !vis_insert_ne by (unfold ik; keys). }
  assert (Hs : smembers now db2 (notification_index_key c) = smembers now db (notification_index_key c)).
  { unfold smembers, db2. rewrite vis_sadd by keys. unfold db1. by rewrite !vis_insert_ne by (unfold ik; keys). }
  destruct (wants_callback (payload r)) eqn:Ew.
  - unfold get_run at 1, get_lease at 1, in_notes at 1. rewrite !vis_sadd by keys.
    fold (get_run c now db2 id) (get_lease c now db2 id). rewrite smembers_sadd, Hs. split_and!; [done..|].
    unfold in_notes. destruct (decide (id = run)); repeat case_bool_decide; set_solver.
  - unfold in_notes. rewrite Hs. split_and!; [done..|]. by destruct (decide (id = run)); rewrite orb_false_r.
Qed.

Lemma sim_admit w scope key digest pay run created :
  p_used (proj run w) = false -> p_run (proj run w) = None ->
  sim w (dstep sha256 cjson cjson_encode cjson_len c w (EAdmit scope key digest pay run created)).
Proof.
  intros Hu Hr id. cbn [dstep]. unfold admit_run, admit_script.
  set (ik := idempotency_key sha256 c scope key).
  assert (Hkeep : rtc amove (proj id w) (mkProj (bool_decide (id ∈ run :: w_ids w)) (p_run (proj id w))
    (p_lease (proj id w)) (p_noted (proj id w)) (p_ops (proj id w)) (p_gens (proj id w)) (p_sends (proj id w)))).
  { destruct (decide (id = run)) as [->|Hne].
    - rewrite bool_decide_true by set_solver. apply rtc_once, a_reused.
    - rewrite (bool_decide_ext _ (id ∈ w_ids w)) by set_solver. done. }
  assert (Hnew : rtc amove (proj id w) (proj id (mkWorld (admit_write c (w_now w) ik run digest
    (new_record c run scope digest pay created) (w_db w)) (w_now w) (run :: w_ids w) (w_dispatched w)
    (w_claims w) (w_sent w)))).
  { unfold ik, proj at 2. cbn [w_ids w_db w_now w_dispatched w_claims w_sent].
    destruct (admit_write_spec (w_now w) scope key run digest (new_record c run scope digest pay created) (w_db w) id)
      as (-> & -> & ->).
    destruct (decide (id = run)) as [->|Hne]; [|by rewrite orb_false_r].
    rewrite bool_decide_true by set_solver. apply rtc_once. unfold proj in *. cbn [p_used p_run] in *.
    rewrite Hu, Hr. by apply a_admit. }
  destruct (vis (w_now w) (w_db w) ik) as [v|] eqn:E; [|exact Hnew].
  destruct v as [prior d| | |]; [by destruct (String.eqb d digest)|exact Hnew..].
Qed.

End Simulation.

(** ** Invariants of the abstract run *)

(** The record of a run against its history. *)
Record rwf (r : Run) (l : option string) (nt : bool) (ops : list string) (gens : list Z) (sent : nat) : Prop := mkRwf {
  rwf_ops : Forall (fun op => op ∈ dom (operations r)) ops;
  rwf_gens : Forall (fun g => g <= owner_generation r) gens;
  rwf_lease : forall tok, l = Some tok -> state r = running -> owner_token r = Some tok;
  rwf_note : notification r <> None -> is_terminal (state r) = true;
  rwf_sends : Z.of_nat sent = note_attempts r;
  rwf_noted : wants_callback (payload r) = true -> state r <> deleted -> note_over r = false -> nt = true
}.

Record wf (p : Proj) : Prop := mkWf {
  wf_unused : p_used p = false -> p_run p = None /\ p_ops p = [] /\ p_gens p = [] /\ p_sends p = O;
  wf_ops : NoDup (p_ops p);
  wf_gens : StronglySorted (fun a b => b < a) (p_gens p);
  wf_sends : (p_sends p <= 3)%nat;
  wf_run : forall r, p_run p = Some r -> rwf r (p_lease p) (p_noted p) (p_ops p) (p_gens p) (p_sends p)
}.

Lemma run_wf_init : wf p_init.
Proof. split; cbn; try done; try constructor. lia. Qed.

Lemma same_note_attempts r r' : same_note r r' -> note_attempts r' = note_attempts r.
Proof. intros [H _]. unfold note_attempts. by rewrite H. Qed.
Lemma same_note_over r r' : same_note r r' -> note_over r' = note_over r.
Proof. intros [H _]. unfold note_over. by rewrite H. Qed.

(** A record that replaces another keeps its history. *)
Lemma rwf_replace r r' l l' nt ops gens sent :
  rwf r l nt ops gens sent -> same_note r r' -> same_ops r r' -> owner_generation r <= owner_generation r' ->
  (forall tok, l' = Some tok -> state r' = running -> owner_token r' = Some tok) ->
  (is_terminal (state r) = true -> is_terminal (state r') = true) ->
  (state r = deleted -> state r' = deleted) ->
  rwf r' l' nt ops gens sent.
Proof.
  intros [] Hn Ho Hg Hl Ht Hd. pose proof (same_note_attempts _ _ Hn). pose proof (same_note_over _ _ Hn).
  destruct Hn as [Hn Hw]. unfold same_ops in Ho. split.
  - by rewrite Ho.
  - eapply Forall_impl; [done|]. cbn. lia.
  - done.
  - rewrite Hn. auto.
  - congruence.
  - rewrite Hw. intros W D O. apply rwf_noted0; [done|auto|congruence].
Qed.

(** So does one whose callback advanced. *)
Lemma rwf_callback r r' l nt ops gens sent sent' :
  rwf r l nt ops gens sent -> is_terminal (state r) = true -> state r <> deleted -> note_over r = false ->
  same_owner r r' -> same_ops r r' -> wants_callback (payload r') = wants_callback (payload r) ->
  note_attempts r' = note_attempts r + (Z.of_nat sent' - Z.of_nat sent) ->
  rwf r' l nt ops gens sent'.
Proof.
  intros [] Ht Hd Ho (Hs & Hk & Hg) Hops Hw Ha. unfold same_ops in Hops. split.
  - by rewrite Hops.
  - by rewrite Hg.
  - rewrite Hs, Hk. auto.
  - by rewrite Hs.
  - lia.
  - rewrite Hw. auto.
Qed.

Lemma rwf_same_owner r r' l nt ops gens sent tok :
  rwf r l nt ops gens sent -> same_owner r r' -> l = Some tok -> state r' = running -> owner_token r' = Some tok.
Proof. intros [] (Hs & Hk & _) Hl Hr. rewrite Hk. apply rwf_lease0; congruence. Qed.

Lemma may_end_spec l s s' : may_end l s s' -> is_terminal s' = true /\ (s = deleted -> s' = deleted).
Proof. destruct s'; cbn; try done; split; try done; intros ->; by destruct_and?. Qed.

Lemma dispatch_fresh r l nt ops gens sent op :
  rwf r l nt ops gens sent -> op ∉ dom (operations r) -> op ∉ ops.
Proof. intros [] Hop Hin. by apply Hop, (proj1 (Forall_forall _ _) rwf_ops0). Qed.

(** What a dispatch adds. *)
Lemma rwf_dispatch r r' tok nt ops gens sent op :
  rwf r (Some tok) nt ops gens sent -> same_owner r r' -> same_note r r' ->
  dom (operations r') = {[op]} ∪ dom (operations r) -> rwf r' (Some tok) nt (op :: ops) gens sent.
Proof.
  intros W Ho Hn Hd. pose proof (same_note_attempts _ _ Hn). pose proof (same_note_over _ _ Hn).
  pose proof (fun tok' => rwf_same_owner _ r' _ _ _ _ _ tok' W Ho) as Hl.
  destruct W, Hn as [Hn Hw], Ho as (Hs & Hk & Hg). split; try done.
  - rewrite Hd. constructor; [set_solver|]. eapply Forall_impl; [done|]. set_solver.
  - by rewrite Hg.
  - by rewrite Hn, Hs.
  - congruence.
  - rewrite Hw, Hs. intros. apply rwf_noted0; congruence.
Qed.

Lemma wf_move p p' : amove p p' -> wf p -> wf p'.
Proof.
  intros H [Hu Ho Hg Hs Hr]. destruct H; cbn in *.
  - by split.
  - destruct (Hu eq_refl) as (_ & -> & -> & ->). split; try done. intros r0 [= <-]. cbn. split; try done.
    + by destruct (state r) eqn:E.
    + unfold note_attempts. by rewrite H2.
    + intros W _ _. cbn. by rewrite W, orb_true_r.
  - split; try done. intros E. destruct (Hu E). auto.
  - split; cbn; try done. intros r0 ->. by destruct (Hr r0 eq_refl).
  - specialize (Hr r eq_refl). split; cbn; try done; [intros E; by destruct (Hu E)| |].
    + constructor; [done|]. destruct Hr. eapply Forall_impl; [done|]. cbn. lia.
    + intros r0 [= <-]. assert (W : rwf r' (Some tok) nt ops gens sent).
      { eapply rwf_replace; try done; [lia|by intros ? [= <-]|congruence|intros E; by rewrite E in H]. }
      destruct W. split; try done. constructor; [lia|done].
  - specialize (Hr r eq_refl). split; cbn; try done; [intros E; by destruct (Hu E)|]. intros r0 [= <-].
    destruct H0 as (Hst & Hk & Hgn). eapply rwf_replace; [done..|lia| |congruence|congruence].
    intros. by eapply rwf_same_owner.
  - specialize (Hr r eq_refl). split; cbn; try done; [intros E; by destruct (Hu E)| |].
    + constructor; [by eapply dispatch_fresh|done].
    + intros r0 [= <-]. by eapply rwf_dispatch.
  - specialize (Hr r eq_refl). split; cbn; try done; [intros E; by destruct (Hu E)|]. intros r0 [= <-].
    apply may_end_spec in H as [Ht Hd]. eapply rwf_replace; try done; lia.
  - specialize (Hr r eq_refl). split; cbn; try done; [intros E; by destruct (Hu E)| |].
    + destruct Hr. lia.
    + intros r0 [= <-]. eapply rwf_callback; try done. lia.
  - specialize (Hr r eq_refl). split; cbn; try done; [intros E; by destruct (Hu E)|].
    intros r0 [= <-]. eapply rwf_callback; try done. lia.
  - split; cbn; try done. intros r0 ->. destruct (Hr r0 eq_refl). split; try done.
    intros W D O. cbn in H. destruct H as [H|[H|(n & Hn & Hf)]]; [done|congruence|].
    unfold note_over in O. rewrite Hn in O. congruence.
Qed.

(** ** Every reachable state *)

Section Reachable.
Context (sha256 : string -> string) (cjson : json -> json) (cjson_encode : json -> string)
  (cjson_len : Run -> Z) (c : Config).
Context (Hret : 0 < retention_ms c) (Hlease : 0 < lease_ms c).
Context (Hcjson : forall j, wants_callback (cjson j) = wants_callback j).
Abbreviation dnext := (dstep sha256 cjson cjson_encode cjson_len c).
Abbreviation reach := (reachable sha256 cjson cjson_encode cjson_len c).

Lemma reach_wf p : rtc amove p_init p -> wf p.
Proof.
  intros H. assert (G : forall p1 p2, rtc amove p1 p2 -> wf p1 -> wf p2); [|by apply (G p_init p H), run_wf_init].
  induction 1; eauto using wf_move.
Qed.

Lemma allowed_step w e : (forall id, wf (proj c id w)) -> forever c (w_db w) -> allowed w e ->
  forall id, rtc amove (proj c id w) (proj c id (dnext w e)).
Proof.
  intros W Hf Ha. destruct e.
  - apply sim_admit; try done; [by apply bool_decide_eq_false|].
    destruct (W run) as [Hu _ _ _ _]. apply Hu. by apply bool_decide_eq_false.
  - by apply sim_claim.
  - by apply sim_heartbeat.
  - by apply sim_checkpoint.
  - by apply sim_step.
  - by apply sim_commit.
  - by apply sim_fail.
  - by apply sim_cancel.
  - by apply sim_delete.
  - by apply sim_claim_note.
  - apply sim_finish_note; try done. intros r Hr. destruct (W run) as [_ _ _ _ Hw]. by destruct (Hw r Hr).
  - by apply sim_tick.
Qed.

Lemma reach_sim w : reach w -> forever c (w_db w) /\ forall id, rtc amove p_init (proj c id w).
Proof.
  induction 1 as [|w e H [Hf IH] Ha].
  - split; [by intros e|]. intros id. apply rtc_refl.
  - split; [by apply forever_step|]. intros id. etrans; [apply IH|]. apply allowed_step; [|done..].
    intros id'. by apply reach_wf.
Qed.

Lemma reach_proj_wf w id : reach w -> wf (proj c id w).
Proof. intros H. apply reach_wf, reach_sim, H. Qed.


Lemma token_gen o1 g1 o2 g2 : token o1 g1 = token o2 g2 -> g1 = g2.
Proof.
  intros H. unfold token in H. cbn [String.append] in H. apply last_char_inj in H; [|by apply pretty_contains..].
  by apply (inj pretty) in H.
Qed.

(** The live lease is that of the last claim. *)
Lemma lease_generation w id r owner gen :
  reach w -> get_run c (w_now w) (w_db w) id = Some r -> gen <> owner_generation r ->
  holds c (w_now w) id (token owner gen) (w_db w) = None.
Proof.
  intros H Hr Hg. unfold holds. rewrite Hr. destruct (_ && _) eqn:E; [|done].
  apply andb_true_iff in E as [E1 E2]. apply bool_decide_eq_true in E1, E2.
  destruct (reach_proj_wf w id H) as [_ _ _ _ Hw]. specialize (Hw r Hr).
  pose proof (rwf_lease _ _ _ _ _ _ Hw _ E1 E2) as Ht. unfold owner_token in Ht.
  destruct (owner_id r) as [o|]; [|done]. injection Ht as Ht. by apply token_gen in Ht.
Qed.

Lemma holds_owns now id tok db : holds c now id tok db = None -> owns c now id tok db = None.
Proof.
  unfold holds, owns. destruct (get_run c now db id); [|done]. destruct (_ && bool_decide (state _ = _)); [done|].
  by intros.
Qed.

(** ** Histories *)

Lemma NoDup_split {A B} `{EqDecision A} (l : list (A * B)) :
  (forall a, NoDup (omap (fun p => if decide (p.1 = a) then Some p.2 else None) l)) -> NoDup l.
Proof.
  induction l as [|[a b] l IH]; intros H; [constructor|]. constructor.
  - intros Hin. specialize (H a). cbn in H. rewrite decide_True in H by done.
    apply NoDup_cons in H as [H _]. apply H. apply list_elem_of_omap. exists (a, b). split; [done|].
    cbn. by rewrite decide_True.
  - apply IH. intros a'. specialize (H a'). cbn in H. destruct (decide (a = a')); [by apply NoDup_cons in H as [_ H]|done].
Qed.

Lemma dispatched_kept w id op r : reach w -> (id, op) ∈ w_dispatched w ->
  get_run c (w_now w) (w_db w) id = Some r -> is_Some (operations r !! op).
Proof.
  intros H Hd Hr. destruct (reach_proj_wf w id H) as [_ _ _ _ Hw]. specialize (Hw r Hr).
  apply rwf_ops in Hw. apply elem_of_dom. apply (proj1 (Forall_forall _ _) Hw). cbn.
  apply list_elem_of_omap. exists (id, op). split; [done|]. cbn. by rewrite decide_True.
Qed.

End Reachable.

(** ** What recovery relies on *)

Section Recovery.
Context (sha256 : string -> string) (cjson : json -> json) (cjson_encode : json -> string)
  (cjson_len : Run -> Z) (c : Config).
Context (Hret : 0 < retention_ms c) (Hlease : 0 < lease_ms c).

(** The index of runs, which has no expiry date. *)
Definition indexed (db : Db) (id : string) : Prop :=
  exists s, db !! index_key c = Some (mkEntry (VSet s) None) /\ id ∈ s.

(** Leases run out in time, and every record is filed under its own id and
    indexed. *)
Record dbwf (now : Z) (db : Db) : Prop := mkDbwf {
  dbwf_lease : forall id e, db !! lease_key c id = Some e -> exists t, e_exp e = Some t /\ t <= now + lease_ms c;
  dbwf_run : forall id e, db !! run_key c id = Some e -> exists r, e_val e = VRun r /\ run_id r = id /\ indexed db id;
  dbwf_index : forall e, db !! index_key c = Some e -> exists s, e = mkEntry (VSet s) None
}.

Lemma indexed_insert db k e id : k <> index_key c -> indexed db id -> indexed (<[k := e]> db) id.
Proof. intros Hk (s & Hs & Hi). exists s. by rewrite lookup_insert_ne. Qed.
Lemma indexed_delete db k id : k <> index_key c -> indexed db id -> indexed (delete k db) id.
Proof. intros Hk (s & Hs & Hi). exists s. by rewrite lookup_delete_ne. Qed.

Lemma get_run_spec now db id r : dbwf now db -> get_run c now db id = Some r -> run_id r = id /\ indexed db id.
Proof.
  intros [_ Hr _] H. unfold get_run, vis in H. destruct (db !! run_key c id) as [e|] eqn:E; [|done].
  destruct (Hr id e E) as (r' & Hv & Hi & Hx). destruct (alive now e); [|done]. rewrite Hv in H. by injection H as <-.
Qed.

(** A key of another kind. *)
Lemma dbwf_other now db k e : dbwf now db -> (forall id, k <> lease_key c id) -> (forall id, k <> run_key c id) ->
  k <> index_key c -> dbwf now (<[k := e]> db).
Proof.
  intros [Hl Hr Hi] H1 H2 H3. split.
  - intros id e'. rewrite lookup_insert_ne by done. apply Hl.
  - intros id e'. rewrite lookup_insert_ne by done. intros (r & ? & ? & ?)%Hr.
    exists r. split_and!; try done. by apply indexed_insert.
  - intros e'. rewrite lookup_insert_ne by done. apply Hi.
Qed.

Lemma dbwf_delete now db k : dbwf now db -> k <> index_key c -> dbwf now (delete k db).
Proof.
  intros [Hl Hr Hi] Hk. split.
  - intros id e [_ He]%lookup_delete_Some. by apply (Hl id).
  - intros id e [_ He]%lookup_delete_Some. destruct (Hr id e He) as (r & ? & ? & ?).
    exists r. split_and!; try done. by apply indexed_delete.
  - intros e [_ He]%lookup_delete_Some. by apply Hi.
Qed.

Lemma dbwf_put_lease now db id tok : dbwf now db -> dbwf now (put_lease c now id tok db).
Proof.
  intros [Hl Hr Hi]. unfold put_lease. split.
  - intros id' e [[_ <-]|[_ He]]%lookup_insert_Some; [cbn; eauto with lia|by apply (Hl id')].
  - intros id' e. rewrite lookup_insert_ne by keys. intros (r & ? & ? & ?)%Hr.
    exists r. split_and!; try done. apply indexed_insert; [keys|done].
  - intros e. rewrite lookup_insert_ne by keys. apply Hi.
Qed.

Lemma dbwf_put_run now db id r : dbwf now db -> run_id r = id -> indexed db id ->
  dbwf now (put_run cjson c now id r db).
Proof.
  intros [Hl Hr Hi] Hid Hx. unfold put_run. split.
  - intros id' e. rewrite lookup_insert_ne by keys. apply Hl.
  - intros id' e [[Hk <-]|[_ He]]%lookup_insert_Some.
    + apply run_key_inj in Hk as <-. eexists. split_and!; [done|done|]. apply indexed_insert; [keys|done].
    + destruct (Hr id' e He) as (r' & ? & ? & ?). exists r'. split_and!; try done. apply indexed_insert; [keys|done].
  - intros e. rewrite lookup_insert_ne by keys. apply Hi.
Qed.

Lemma dbwf_notes now db x : dbwf now db ->
  dbwf now (sadd now (notification_index_key c) x db) /\ dbwf now (srem now (notification_index_key c) x db).
Proof.
  intros H. assert (Hne : notification_index_key c <> index_key c) by keys. split.
  - apply dbwf_other; try done; intros; keys.
  - unfold srem. destruct (decide _); [by apply dbwf_delete|apply dbwf_other; try done; intros; keys].
Qed.

Lemma dbwf_admit now db scope key run digest r : dbwf now db -> run_id r = run ->
  dbwf now (admit_write c now (idempotency_key sha256 c scope key) run digest r db).
Proof.
  intros H Hid. unfold admit_write. set (db1 := <[run_key c run := _]> (<[_ := _]> db)).
  assert (H2 : dbwf now (sadd now (index_key c) run db1)).
  { destruct H as [Hl Hr Hi]. unfold sadd. split.
    - intros id e. rewrite lookup_insert_ne by keys. unfold db1. rewrite !lookup_insert_ne by keys. apply Hl.
    - assert (Hx : forall id, indexed db id -> indexed (<[index_key c := mkEntry (VSet ({[run]} ∪ smembers now db1 (index_key c))) None]> db1) id).
      { intros id (s & Hs & Hin). eexists. rewrite lookup_insert_eq. split; [done|]. apply elem_of_union_r.
        unfold smembers, vis, db1. rewrite !lookup_insert_ne by keys. by rewrite Hs. }
      intros id e. rewrite lookup_insert_ne by keys. unfold db1. intros [[Hk <-]|[_ He]]%lookup_insert_Some.
      + apply run_key_inj in Hk as <-. exists r. split_and!; try done. eexists. rewrite lookup_insert_eq.
        split; [done|set_solver].
      + rewrite lookup_insert_ne in He by keys. destruct (Hr id e He) as (r' & ? & ? & ?). exists r'. split_and!; auto.
    - intros e. rewrite lookup_insert_eq. intros [= <-]. eauto. }
  destruct (wants_callback _); [by apply dbwf_notes|done].
Qed.

Lemma dbwf_later now d db : 0 <= d -> dbwf now db -> dbwf (now + d) db.
Proof.
  intros Hd [Hl Hr Hi]. split; try done. intros id e (t & Ht & Hle)%Hl. exists t. split; [done|lia].
Qed.

(** Every rewrite of a record the scripts do. *)
Lemma dbwf_rewrite now db id r r' : dbwf now db -> get_run c now db id = Some r -> run_id r' = run_id r ->
  dbwf now (put_run cjson c now id r' db).
Proof. intros H Hr Hid. destruct (get_run_spec now db id r H Hr) as [H1 H2]. apply dbwf_put_run; congruence. Qed.

Lemma dbwf_del_lease now db id : dbwf now db -> dbwf now (del_lease c id db).
Proof. intros H. apply dbwf_delete; [done|keys]. Qed.
Lemma dbwf_forget now db id : dbwf now db -> dbwf now (srem now (notification_index_key c) id db).
Proof. intros H. by apply dbwf_notes. Qed.

Lemma holds_run now run tok db r : holds c now run tok db = Some r -> get_run c now db run = Some r.
Proof. intros H. by apply holds_spec in H as [? _]. Qed.
Lemma owns_run now run tok db r : owns c now run tok db = Some r -> get_run c now db run = Some r.
Proof. intros H. by eapply holds_run, owns_holds. Qed.

Hint Resolve dbwf_put_lease dbwf_del_lease dbwf_forget holds_run owns_run : ledger.

Lemma dbwf_step w e : dbwf (w_now w) (w_db w) ->
  let w' := dstep sha256 cjson cjson_encode cjson_len c w e in dbwf (w_now w') (w_db w').
Proof.
  intros H. cbn zeta. destruct e; cbn [dstep];
    unfold admit_run, admit_script, claim, claim_script, heartbeat, heartbeat_script, checkpoint, checkpoint_script, step, step_script,
      commit_result, commit_script, fail, fail_script, cancel, cancel_script, delete_run, delete_script, after_script, claim_notification,
      finish_notification; cbn [w_db w_now upd fst];
    repeat (case_match; cbn [w_db w_now upd fst] in *; simplify_eq/=);
    auto 8 with ledger; try (by apply dbwf_admit); try (apply dbwf_later; [lia|done]).
  all: repeat first [apply dbwf_put_lease | apply dbwf_del_lease | apply dbwf_forget]; eapply dbwf_rewrite; eauto with ledger.
Qed.

Lemma dbwf_reach w : reachable sha256 cjson cjson_encode cjson_len c w -> dbwf (w_now w) (w_db w).
Proof. induction 1 as [|w e H IH Ha]; [by split|]. by apply dbwf_step. Qed.

(** A lease that is not renewed is gone after [lease_ms]. *)
Lemma lease_gone now db d id : dbwf now db -> lease_ms c <= d -> get_lease c (now + d) db id = None.
Proof.
  intros [Hl _ _] Hd. unfold get_lease, vis. destruct (db !! lease_key c id) as [e|] eqn:E; [|done].
  destruct (Hl id e E) as (t & Ht & Hle). unfold alive. rewrite Ht. by rewrite (proj2 (Z.ltb_ge _ _)) by lia.
Qed.

Lemma insert_run_in r r' l : r ∈ insert_run r' l <-> r = r' \/ r ∈ l.
Proof.
  induction l as [|a l IH]; cbn; [set_solver|]. destruct (_ <=? _); [set_solver|]. rewrite !elem_of_cons, IH. tauto.
Qed.
Lemma sort_runs_in r l : r ∈ sort_runs l <-> r ∈ l.
Proof. induction l as [|a l IH]; cbn; [done|]. by rewrite insert_run_in, IH, elem_of_cons. Qed.

Lemma reclaimable_in now db id r : dbwf now db -> get_run c now db id = Some r -> is_terminal (state r) = false ->
  get_lease c now db id = None -> r ∈ reclaimable c now db.
Proof.
  intros H Hr Ht Hl. destruct (get_run_spec now db id r H Hr) as [Hid (s & Hs & Hi)].
  unfold reclaimable. apply sort_runs_in, list_elem_of_omap. exists id. split.
  - apply elem_of_elements. unfold smembers, vis. by rewrite Hs.
  - by rewrite Hr, Ht, Hid, Hl, bool_decide_true.
Qed.

End Recovery.

(** ** The life of a run *)

(** The states a run may be in later. *)
Definition lifecycle (s s' : RunState) : Prop :=
  s' = s \/ match s with
            | admitted => True
            | running => s' <> admitted
            | completed | failed | cancelled => s' = deleted
            | deleted => False
            end.

Lemma lifecycle_trans s1 s2 s3 : lifecycle s1 s2 -> lifecycle s2 s3 -> lifecycle s1 s3.
Proof. unfold lifecycle. destruct s1, s2, s3; cbn; intros [|] [|]; auto; try done; right; congruence. Qed.

(** A run id that was used: its record moves along the life cycle, its
    generation only grows, and once gone it does not come back. *)
Definition continues (p p' : Proj) : Prop :=
  p_used p = true -> p_used p' = true /\
  match p_run p, p_run p' with
  | None, Some _ => False
  | Some r, Some r' => lifecycle (state r) (state r') /\ owner_generation r <= owner_generation r'
  | _, None => True
  end.

Lemma continues_refl r : lifecycle (state r) (state r) /\ owner_generation r <= owner_generation r.
Proof. split; [by left|lia]. Qed.
Lemma continues_owner r r' : same_owner r r' ->
  lifecycle (state r) (state r') /\ owner_generation r <= owner_generation r'.
Proof. intros (Hs & _ & Hg). split; [by left|lia]. Qed.

Lemma continues_move p p' : amove p p' -> continues p p'.
Proof.
  intros H Hu. destruct H as [u [r|] l|r l|u [r|] l|u [r|] l|u r r' tok nt ops gens sent Ht Hs Hg _ _ _|u r r' tok
    |u r r' tok op|u r r' l nt ops gens sent He Hg _ _|u r r' l|u r r' l|u [r|] l]; cbn in *; try done;
    (split; [done|]); auto using continues_refl, continues_owner.
  - split; [|lia]. unfold lifecycle. rewrite Hs. by destruct (state r); auto.
  - split; [|lia]. unfold lifecycle. destruct (state r), (state r'); cbn in He; destruct_and?; auto; try done; right; congruence.
Qed.

Lemma continues_trans p1 p2 p3 : continues p1 p2 -> continues p2 p3 -> continues p1 p3.
Proof.
  intros H1 H2 Hu. destruct (H1 Hu) as [Hu2 H12]. destruct (H2 Hu2) as [Hu3 H23]. split; [done|].
  destruct (p_run p1) as [r1|], (p_run p2) as [r2|], (p_run p3) as [r3|]; try done.
  destruct H12, H23. split; [by eapply lifecycle_trans|lia].
Qed.

Lemma continues_rtc p p' : rtc amove p p' -> continues p p'.
Proof.
  induction 1 as [p|p1 p2 p3 H _ IH].
  - intros Hu. split; [done|]. destruct (p_run p); auto using continues_refl.
  - eapply continues_trans; [by apply continues_move|done].
Qed.

(** ** Theorems *)

Section Theorems.
Context (sha256 : string -> string) (cjson : json -> json) (cjson_encode : json -> string)
  (cjson_len : Run -> Z) (c : Config).
Abbreviation dnext := (dstep sha256 cjson cjson_encode cjson_len c).
Abbreviation reach := (reachable sha256 cjson cjson_encode cjson_len c).

(** The settings were accepted, and Lua keeps the callback's URL. *)
Definition set_up : Prop :=
  (exists ns lease ret retry, ledger_init ns lease ret retry = Ok c) /\
  forall j, wants_callback (cjson j) = wants_callback j.

Lemma set_up_spec : set_up -> 0 < retention_ms c /\ 0 < lease_ms c /\ forall j, wants_callback (cjson j) = wants_callback j.
Proof.
  intros [(ns & l & r & t & H) Hj]. unfold ledger_init in H. destruct (_ || _) eqn:E; [done|].
  destruct (r <? t); [done|]. injection H as <-. bool_to_prop. cbn. auto.
Qed.

(** Later states. *)
Definition later : World -> World -> Prop := rtc (fun w w' => exists e, allowed w e /\ w' = dnext w e).

Lemma later_reach w w' : reach w -> later w w' -> reach w'.
Proof. intros H. induction 1 as [|w1 w2 w3 (e & Ha & ->) _ IH]; [done|]. apply IH. by apply reach_step. Qed.

Lemma later_sim w w' id : set_up -> reach w -> later w w' -> rtc amove (proj c id w) (proj c id w').
Proof.
  intros (Hr & Hl & Hj)%set_up_spec H Hs. induction Hs as [|w1 w2 w3 (e & Ha & ->) _ IH]; [done|].
  etrans; [|apply IH; by apply reach_step]. apply allowed_step; try done.
  - intros id'. by eapply reach_proj_wf.
  - by eapply reach_sim.
Qed.

(** C28. The ledger refines the abstract run: whatever workers, clients, callbacks
    and expiries do, in any interleaving, what happens to one run id is a
    sequence of moves of [amove]. *)
Theorem durable_refines_run w id : set_up -> reach w -> rtc amove p_init (proj c id w).
Proof. intros (Hr & Hl & Hj)%set_up_spec H. by eapply reach_sim. Qed.

(** A call was made only for a new operation. *)
Lemma effect_new t1 t2 others run owner gen identity inputs call w :
  snd (fst (effect sha256 cjson cjson_len c t1 t2 others run owner gen identity inputs call w)) = true ->
  exists r, get_run c t1 w run = Some r /\ operations r !! identity = None.
Proof.
  unfold effect, step. destruct (is_empty identity || _); [done|]. destruct (512000 <? _); [done|].
  unfold step_script. destruct (holds _ _ _ _ _) as [r|] eqn:E; [|done]. apply holds_spec in E as (Hr & _).
  destruct (operations r !! identity) as [o|] eqn:Eo; [|by exists r].
  destruct (negb _); [done|]. by destruct (op_state o).
Qed.

(** C27. An external call is made at most once: over the whole life of a run, through
    crashes, lease losses and reclaims, an operation is authorised at most once,
    and [effect] - whoever runs it - never makes the call of an operation that was
    already authorised: it replays the receipt or fails. *)
Theorem external_call_at_most_once w :
  set_up -> reach w ->
  NoDup (w_dispatched w) /\
  forall run identity t2 others owner gen inputs call,
    (run, identity) ∈ w_dispatched w ->
    snd (fst (effect sha256 cjson cjson_len c (w_now w) t2 others run owner gen identity inputs call (w_db w))) = false.
Proof.
  intros (Hr & Hl & Hj)%set_up_spec H. split.
  - apply NoDup_split. intros id. apply (wf_ops (proj c id w)). by eapply reach_proj_wf.
  - intros run identity t2 others owner gen inputs call Hd. apply not_true_iff_false. intros Hc.
    apply effect_new in Hc as (r & Hrun & Hop).
    destruct (dispatched_kept sha256 cjson cjson_encode cjson_len c Hr Hl Hj w run identity r H Hd Hrun) as [o Ho]. congruence.
Qed.


(** A run only moves forward: from a reachable state on, a run's record follows
    the life cycle - completed, failed and cancelled runs can only be deleted, a
    deleted one stays so - its fencing generation never falls, and a record that
    expired never comes back. *)
Theorem durable_lifecycle w w' id :
  set_up -> reach w -> later w w' -> id ∈ w_ids w ->
  match get_run c (w_now w) (w_db w) id, get_run c (w_now w') (w_db w') id with
  | Some r, Some r' => lifecycle (state r) (state r') /\ owner_generation r <= owner_generation r'
  | None, Some _ => False
  | _, None => True
  end.
Proof.
  intros Hu H Hs Hid. pose proof (later_sim w w' id Hu H Hs) as Hm. apply continues_rtc in Hm.
  destruct (Hm ltac:(by apply bool_decide_eq_true)) as [_ Hc]. exact Hc.
Qed.

(** Callbacks are bounded and not forgotten: a run's callback is handed out for
    sending at most three times, and while a run that wants one is retained, not
    deleted, and its callback not delivered, rejected or given up, it stays in the
    index the delivery loop scans. *)
Theorem callback_bounded_and_kept w id :
  set_up -> reach w ->
  (length (filter (.= id) (w_sent w)) <= 3)%nat /\
  forall r, get_run c (w_now w) (w_db w) id = Some r -> wants_callback (payload r) = true -> state r <> deleted ->
    note_over r = false -> id ∈ smembers (w_now w) (w_db w) (notification_index_key c).
Proof.
  intros (Hret & Hl & Hj)%set_up_spec H.
  destruct (reach_proj_wf sha256 cjson cjson_encode cjson_len c Hret Hl Hj w id H) as [_ _ _ Hs Hw].
  split; [exact Hs|]. intros r Hr Hc Hd Ho. pose proof (rwf_noted _ _ _ _ _ _ (Hw r Hr) Hc Hd Ho) as Hn.
  by apply bool_decide_eq_true in Hn.
Qed.


End Theorems.

(** ** Witnesses *)

Section Witnesses.
Definition demo_config : Config := mkConfig "groktocrawl:experimental-research:v1" 2000 86400000 3600000.
Definition demo_len (_ : Run) : Z := 0.
Definition demo_encode (j : json) : string := dumps j.
Abbreviation demo_step := (dstep id id demo_encode demo_len demo_config).

(** A run is admitted and claimed, its worker dispatches a model call and dies, a
    second worker claims the run. *)
Definition demo_events : list devent :=
  [EAdmit "scope" "key" "digest" (JObj [("webhook", JStr "https://example.com/hook")]) "run-1" 0;
   EClaim "run-1" "w1" "a1"; EStep "run-1" "w1" 1 "model:1" "in" JNull false; ETick 3000;
   EClaim "run-1" "w2" "a2"].
Definition demo_world : World := run_ops demo_step w_init demo_events.

(** The same run, completed by its second owner. *)
Definition demo_done : World := demo_step demo_world (ECommit "run-1" "w2" 2 "result" (JObj [])).

Lemma demo_set_up : set_up id demo_config.
Proof. split; [|done]. by exists "groktocrawl:experimental-research:v1", 2000, 86400000, 3600000. Qed.

Lemma demo_reach : reachable id id demo_encode demo_len demo_config demo_world.
Proof.
  unfold demo_world, demo_events. repeat (cbn [run_ops fold_left]; apply reach_step; [|cbn; set_solver]). constructor.
Qed.

(** The second owner of the run. *)
Definition demo_run : Run := default (new_record demo_config "" "" "" JNull 0) (get_run demo_config (w_now demo_world) (w_db demo_world) "run-1").

Lemma durable_refines_run_witness : rtc amove p_init (proj demo_config "run-1" demo_world).
Proof. exact (durable_refines_run id id demo_encode demo_len demo_config demo_world "run-1" demo_set_up demo_reach). Defined.

Lemma external_call_at_most_once_witness :
  w_dispatched demo_world = [("run-1", "model:1")] /\
  snd (effect id id demo_len demo_config (w_now demo_world) (w_now demo_world) (fun db => db) "run-1" "w2" 2 "model:1" JNull
         (Returns JNull) (w_db demo_world)) = Raise (LedgerRefused DurableConflict) /\
  snd (fst (effect id id demo_len demo_config (w_now demo_world) (w_now demo_world) (fun db => db) "run-1" "w2" 2 "model:1" JNull (Returns JNull)
              (w_db demo_world))) = false.
Proof.
  split; [by vm_compute|]. split; [by vm_compute|].
  apply (external_call_at_most_once id id demo_encode demo_len demo_config demo_world demo_set_up demo_reach).
  apply list_elem_of_singleton. by vm_compute.
Defined.


Lemma durable_lifecycle_witness :
  state demo_run = running /\ (state <$> get_run demo_config (w_now demo_done) (w_db demo_done) "run-1") = Some completed /\
  match get_run demo_config (w_now demo_world) (w_db demo_world) "run-1",
        get_run demo_config (w_now demo_done) (w_db demo_done) "run-1" with
  | Some r, Some r' => lifecycle (state r) (state r') /\ owner_generation r <= owner_generation r'
  | None, Some _ => False
  | _, None => True
  end.
Proof.
  split; [by vm_compute|]. split; [by vm_compute|].
  assert (Hl : later id id demo_encode demo_len demo_config demo_world demo_done).
  { apply rtc_once. by exists (ECommit "run-1" "w2" 2 "result" (JObj [])). }
  assert (Hin : "run-1" ∈ w_ids demo_world) by (apply list_elem_of_singleton; by vm_compute).
  exact (durable_lifecycle id id demo_encode demo_len demo_config demo_world demo_done "run-1" demo_set_up demo_reach Hl Hin).
Defined.

Lemma callback_bounded_and_kept_witness :
  "run-1" ∈ smembers (w_now demo_world) (w_db demo_world) (notification_index_key demo_config).
Proof.
  apply (callback_bounded_and_kept id id demo_encode demo_len demo_config demo_world "run-1" demo_set_up demo_reach) with demo_run;
    by vm_compute.
Defined.

End Witnesses.
