(* ===== verification/Snapshot.v ===== *)
(** * Backup and restore of the durable ledger
    ([export_snapshot] and [restore_snapshot] of
    [src/agent-svc/agent/experimental/durable_research.py])

    A snapshot is a JSON document: every retained key under the namespace but the
    leases, with its remaining time to live, its serialised value and digests.
    [restore_snapshot] checks a document from anywhere before it touches the
    database.  Parameters: [sha256], base64, and the server's [DUMP] and
    [RESTORE] formats.  The namespace is assumed to hold no glob characters, so
    [SCAN MATCH prefix*] is the prefix test.

    The theorems: what was exported is restored key by key, with its remaining
    time to live and without the leases; a tampered document is refused and
    changes nothing. *)

From S2P Require Import Prelude Strings Json Durable.

(** [ServerError]: a value [RESTORE] does not accept. *)
Inductive BackupError := BackupInvalid | BackupConflict | ServerError.

Section Backup.
Context (sha256 : string -> string).
Context (b64encode : string -> string) (b64decode : string -> option string).
Context (dump : Val -> string) (undump : string -> option Val).
Context (c : Config).

Definition prefix : string := namespace c +:+ ":".
Definition lease_prefix : string := key_of c "lease" "".

(** [PTTL] of a key that is there: the remaining time, or -1. *)
Definition pttl (now : Z) (e : Entry) : Z := match e_exp e with Some t => t - now | None => -1 end.

Definition snapshot_item (now : Z) (k : string) (e : Entry) : json :=
  let value := dump (e_val e) in
  JObj [("key", JStr k); ("ttl_ms", JNum (pttl now e)); ("value_b64", JStr (b64encode value));
        ("value_digest", JStr (sha256 value))].

(** The keys of the snapshot, in the order of [sorted]. *)
Definition snapshot_keys (db : Db) : list string :=
  List.filter (fun k => negb (starts_with lease_prefix k))
    (sorted_strs (List.filter (starts_with prefix) ((map_to_list db).*1))).

Definition live_entry (now : Z) (db : Db) (k : string) : option Entry :=
  match db !! k with Some e => if alive now e then Some e else None | None => None end.

(** The document without its digest. *)
Definition unsigned (now : Z) (db : Db) : list (string * json) :=
  [("schema_version", JStr "durable-research-backup/1"); ("namespace", JStr (namespace c));
   ("keys", JArr (omap (fun k => snapshot_item now k <$> live_entry now db k) (snapshot_keys db)))].

(** [export_snapshot]. *)
Definition export_snapshot (now : Z) (db : Db) : json :=
  JObj (unsigned now db ++ [("snapshot_digest", JStr (sha256 (dumps_canonical (JObj (unsigned now db)))))]).

(** [int(x)] of a JSON value; [None] for [TypeError] or [ValueError]. *)
Definition json_int (j : json) : option Z :=
  match j with
  | JNum n => Some n
  | JBool b => Some (if b then 1 else 0)
  | JStr s => py_int s
  | _ => None
  end.

Definition str_of (j : json) : option string := match j with JStr s => Some s | _ => None end.

(** One entry of the document: key, time to live and serialised value. *)
Definition check_item (seen : list string) (item : json) : option (string * Z * string) :=
  match item with
  | JObj _ =>
      match jget item "key" with
      | JStr k =>
          if negb (starts_with prefix k) || starts_with lease_prefix k || bool_decide (k ∈ seen) then None
          else
            match match str_of (jget item "value_b64") with Some s => b64decode s | None => None end,
                  json_int (jget item "ttl_ms") with
            | Some value, Some ttl =>
                if bool_decide (str_of (jget item "value_digest") = Some (sha256 value)) then Some (k, ttl, value) else None
            | _, _ => None
            end
      | _ => None
      end
  | _ => None
  end.

Fixpoint check_items (seen : list string) (items : list json) : option (list (string * Z * string)) :=
  match items with
  | [] => Some []
  | i :: items =>
      match check_item seen i with
      | None => None
      | Some x => cons x <$> check_items (x.1.1 :: seen) items
      end
  end.

(** Every check of [restore_snapshot] on the document. *)
Definition check_snapshot (snapshot : json) : outcome (list (string * Z * string)) BackupError :=
  match snapshot with
  | JObj fields =>
      if negb (bool_decide (str_of (jget snapshot "schema_version") = Some "durable-research-backup/1")) then Raise BackupInvalid
      else if negb (bool_decide (str_of (jget snapshot "namespace") = Some (namespace c))) then Raise BackupConflict
      else
        let rest := JObj (List.filter (fun kv => negb (String.eqb (fst kv) "snapshot_digest")) fields) in
        if negb (bool_decide (str_of (jget snapshot "snapshot_digest") = Some (sha256 (dumps_canonical rest)))) then
          Raise BackupInvalid
        else match jget snapshot "keys" with
        | JArr items => match check_items [] items with Some l => Ok l | None => Raise BackupInvalid end
        | _ => Raise BackupInvalid
        end
  | _ => Raise BackupInvalid
  end.

(** [RESTORE key ttl value REPLACE]; a time to live of 0 means none. *)
Definition restore_one (now : Z) (x : string * Z * string) (acc : Db * bool) : Db * bool :=
  let '(k, ttl, value) := x in
  match undump value with
  | None => (fst acc, false)
  | Some v => (<[k := mkEntry v (if Z.max ttl 0 =? 0 then None else Some (now + Z.max ttl 0))]> (fst acc), snd acc)
  end.

(** The keys of the ledger that are there. *)
Definition existing (now : Z) (db : Db) : list string :=
  List.filter (fun k => starts_with prefix k && bool_decide (is_Some (live_entry now db k))) ((map_to_list db).*1).

(** [restore_snapshot]: the number of keys restored. *)
Definition restore_snapshot (now : Z) (snapshot : json) (replace : bool) (db : Db) : Db * outcome nat BackupError :=
  match check_snapshot snapshot with
  | Raise e => (db, Raise e)
  | Ok entries =>
      let old := existing now db in
      if match old with [] => false | _ => negb replace end then (db, Raise BackupConflict)
      else
        let db0 := if replace then foldr delete db old else db in
        let '(db1, ok) := fold_left (fun acc x => restore_one now x acc) entries (db0, true) in
        (db1, if ok then Ok (length entries) else Raise ServerError)
  end.

End Backup.

(** ** Round trip *)

Section RoundTrip.
Context (sha256 : string -> string).
Context (b64encode : string -> string) (b64decode : string -> option string).
Context (dump : Val -> string) (undump : string -> option Val).
Context (c : Config).
Context (Hb64 : forall s, b64decode (b64encode s) = Some s).

Lemma snapshot_keys_spec db k :
  k ∈ snapshot_keys c db <-> is_Some (db !! k) /\ starts_with (prefix c) k = true /\ starts_with (lease_prefix c) k = false.
Proof.
  unfold snapshot_keys. rewrite elem_of_list_filter, negb_true_iff, sorted_strs_perm, elem_of_list_filter.
  rewrite list_elem_of_fmap. split.
  - intros (Hl & Hp & (k' & e) & -> & He). apply elem_of_map_to_list in He. cbn in *. eauto.
  - intros ([e He] & Hp & Hl). split_and!; try done. exists (k, e). by rewrite elem_of_map_to_list.
Qed.

Lemma snapshot_keys_NoDup db : NoDup (snapshot_keys c db).
Proof.
  unfold snapshot_keys. apply NoDup_list_filter. rewrite sorted_strs_perm. apply NoDup_list_filter, NoDup_fst_map_to_list.
Qed.

(** What the snapshot holds of one key. *)
Definition item_of (now : Z) (db : Db) (k : string) : option (string * Z * string) :=
  (fun e => (k, pttl now e, dump (e_val e))) <$> live_entry now db k.

Lemma check_item_export now k e seen :
  starts_with (prefix c) k = true -> starts_with (lease_prefix c) k = false -> k ∉ seen ->
  check_item sha256 b64decode c seen (snapshot_item sha256 b64encode dump now k e) = Some (k, pttl now e, dump (e_val e)).
Proof.
  intros Hp Hl Hs. unfold check_item.
  change (jget (snapshot_item sha256 b64encode dump now k e) "key") with (JStr k).
  change (jget (snapshot_item sha256 b64encode dump now k e) "value_b64") with (JStr (b64encode (dump (e_val e)))).
  change (jget (snapshot_item sha256 b64encode dump now k e) "ttl_ms") with (JNum (pttl now e)).
  change (jget (snapshot_item sha256 b64encode dump now k e) "value_digest") with (JStr (sha256 (dump (e_val e)))).
  unfold snapshot_item. cbn [str_of json_int]. rewrite Hp, Hl, Hb64.
  by rewrite (bool_decide_false (k ∈ seen)), bool_decide_true by done.
Qed.

Lemma check_items_export now db ks : forall seen,
  NoDup ks -> Forall (fun k => starts_with (prefix c) k = true /\ starts_with (lease_prefix c) k = false /\ k ∉ seen) ks ->
  check_items sha256 b64decode c seen (omap (fun k => snapshot_item sha256 b64encode dump now k <$> live_entry now db k) ks)
  = Some (omap (item_of now db) ks).
Proof.
  induction ks as [|k ks IH]; intros seen Hnd Hk; [done|]. cbn [omap list_omap].
  apply NoDup_cons in Hnd as [Hnk Hnd]. apply Forall_cons in Hk as [(Hp & Hl & Hs) Hk].
  unfold item_of at 1. destruct (live_entry now db k) as [e|]; cbn [fmap option_fmap option_map check_items]; [|by apply IH].
  rewrite check_item_export by done. cbn [fst]. rewrite IH; [done|done|].
  rewrite Forall_forall in Hk |- *. intros k' Hin. destruct (Hk k' Hin) as (? & ? & ?). split_and!; try done.
  apply not_elem_of_cons. split; [|done]. by intros ->.
Qed.

Lemma check_export now db :
  check_snapshot sha256 b64decode c (export_snapshot sha256 b64encode dump c now db)
  = Ok (omap (item_of now db) (snapshot_keys c db)).
Proof.
  unfold check_snapshot, export_snapshot. set (d := sha256 (dumps_canonical _)).
  set (snap := JObj (unsigned sha256 b64encode dump c now db ++ [("snapshot_digest", JStr d)])).
  unfold snap at 1. cbv beta iota.
  change (jget snap "schema_version") with (JStr "durable-research-backup/1").
  change (jget snap "namespace") with (JStr (namespace c)). change (jget snap "snapshot_digest") with (JStr d).
  cbn [str_of]. rewrite !bool_decide_true by done. cbn [negb].
  change (jget snap "keys") with (JArr (omap (fun k => snapshot_item sha256 b64encode dump now k <$> live_entry now db k) (snapshot_keys c db))).
  cbv beta iota. rewrite check_items_export; [done|apply snapshot_keys_NoDup|].
  apply Forall_forall. intros k (_ & Hp & Hl)%snapshot_keys_spec. split_and!; try done. apply not_elem_of_nil.
Qed.

(** The checks of each entry, and no key twice. *)
Lemma check_items_spec items : forall seen l,
  check_items sha256 b64decode c seen items = Some l ->
  NoDup (l.*1.*1) /\
  Forall (fun k => starts_with (prefix c) k = true /\ starts_with (lease_prefix c) k = false /\ k ∉ seen) (l.*1.*1).
Proof.
  induction items as [|i items IH]; intros seen l H; cbn [check_items] in H; [by injection H as <-; split; constructor|].
  destruct (check_item sha256 b64decode c seen i) as [[[k ttl] v]|] eqn:E; [|done]. cbn [fst] in H.
  destruct (check_items _ _ _ (k :: seen) items) as [l'|] eqn:E'; [|done]. injection H as <-.
  destruct (IH _ _ E') as [Hnd Hall]. cbn.
  assert (Hk : starts_with (prefix c) k = true /\ starts_with (lease_prefix c) k = false /\ k ∉ seen).
  { unfold check_item in E. destruct i; try done. destruct (jget _ "key") as [| | |k'| |]; try done.
    destruct (_ || _ || _) eqn:Eb; [done|]. bool_to_prop. apply bool_decide_eq_false in H0.
    repeat case_match; try done. by injection E as -> _ _. }
  split; constructor; try done.
  - intros Hin. destruct (proj1 (Forall_forall _ _) Hall k Hin) as (_ & _ & Hn). apply Hn. by left.
  - eapply Forall_impl; [done|]. cbn. intros k' (? & ? & Hn). split_and!; try done.
    intros Hin. apply Hn. by right.
Qed.

(** The entry of a key after [shift] milliseconds, counted from the backup. *)
Definition shifted (d : Z) (e : Entry) : Entry := mkEntry (e_val e) ((fun t => t + d) <$> e_exp e).

Lemma restored_exp now now' e : alive now e = true ->
  (if Z.max (pttl now e) 0 =? 0 then None else Some (now' + Z.max (pttl now e) 0)) = (fun t => t + (now' - now)) <$> e_exp e.
Proof.
  unfold alive, pttl. destruct (e_exp e) as [t|]; cbn; [|done]. intros H. bool_to_prop.
  rewrite (proj2 (Z.eqb_neq _ _)) by lia. f_equal. lia.
Qed.

(** [RESTORE] accepts what [DUMP] gave, for the values of [db]. *)
Definition dump_faithful (db : Db) : Prop := forall k e, db !! k = Some e -> undump (dump (e_val e)) = Some (e_val e).

Lemma live_entry_spec now db k e : live_entry now db k = Some e -> db !! k = Some e /\ alive now e = true.
Proof.
  unfold live_entry. destruct (db !! k) as [e'|]; [|done]. destruct (alive now e') eqn:E; [|done]. by intros [= <-].
Qed.

Lemma restore_fold now now' db ks : dump_faithful db -> forall acc b, NoDup ks ->
  let r := fold_left (fun acc x => restore_one undump now' x acc) (omap (item_of now db) ks) (acc, b) in
  snd r = b /\
  forall k, fst r !! k = match (if bool_decide (k ∈ ks) then live_entry now db k else None) with
                        | Some e => Some (shifted (now' - now) e) | None => acc !! k end.
Proof.
  intros Hdump. induction ks as [|k0 ks IH]; intros acc b Hnd; cbn zeta; cbn [omap list_omap fold_left].
  { split; [done|]. intros k. by rewrite bool_decide_false by apply not_elem_of_nil. }
  apply NoDup_cons in Hnd as [Hn Hnd].
  assert (Hdrop : forall k, k <> k0 -> bool_decide (k ∈ k0 :: ks) = bool_decide (k ∈ ks)).
  { intros k Hk. apply bool_decide_ext. rewrite elem_of_cons. tauto. }
  assert (Hi : item_of now db k0 = (fun e => (k0, pttl now e, dump (e_val e))) <$> live_entry now db k0) by done.
  destruct (live_entry now db k0) as [e|] eqn:El; rewrite Hi; cbn [fmap option_fmap option_map fold_left].
  - assert (Hone : restore_one undump now' (k0, pttl now e, dump (e_val e)) (acc, b) =
      (<[k0 := mkEntry (e_val e) (if Z.max (pttl now e) 0 =? 0 then None else Some (now' + Z.max (pttl now e) 0))]> acc, b))
      
      by (unfold restore_one; destruct (live_entry_spec _ _ _ _ El) as [Hk _]; by rewrite (Hdump _ _ Hk)).
    rewrite Hone. destruct (IH (<[k0 := mkEntry (e_val e) (if Z.max (pttl now e) 0 =? 0 then None else Some (now' + Z.max (pttl now e) 0))]> acc) b Hnd)
      as [H1 H2]. split; [exact H1|]. intros k. etrans; [exact (H2 k)|]. destruct (decide (k = k0)) as [->|Hk].
    + rewrite (bool_decide_false (k0 ∈ ks)) by done. rewrite bool_decide_true by by left.
      rewrite El, lookup_insert_eq. unfold shifted. rewrite restored_exp; [done|].
      by apply live_entry_spec in El as [_ ?].
    + rewrite Hdrop, lookup_insert_ne by done. done.
  - destruct (IH acc b Hnd) as [H1 H2]. split; [exact H1|]. intros k. etrans; [exact (H2 k)|].
    destruct (decide (k = k0)) as [->|Hk]; [|by rewrite Hdrop].
    rewrite (bool_decide_false (k0 ∈ ks)), bool_decide_true by (done || by left). by rewrite El.
Qed.

(** C31. Backup and restore are a round trip: a snapshot taken at [now] and restored
    at [now'] into an empty ledger brings back every key that was alive, with its
    value and its remaining time to live, and nothing else; the leases are left
    out, so no worker of before is still an owner. *)
Theorem snapshot_round_trip now now' db :
  dump_faithful db ->
  (forall k, is_Some (db !! k) -> starts_with (prefix c) k = true) ->
  let '(db', r) := restore_snapshot sha256 b64decode undump c now'
                     (export_snapshot sha256 b64encode dump c now db) false ∅ in
  is_ok r = true /\
  forall k, db' !! k = if starts_with (lease_prefix c) k then None else shifted (now' - now) <$> live_entry now db k.
Proof.
  intros Hdump Hpre. unfold restore_snapshot. rewrite check_export.
  change (existing c now' ∅) with (@nil string). cbv beta iota zeta.
  pose proof (restore_fold now now' db (snapshot_keys c db) Hdump ∅ true (snapshot_keys_NoDup db)) as H. cbn zeta in H.
  destruct (fold_left _ _ _) as [db' b]. cbn [fst snd] in H. destruct H as [-> H]. split; [done|]. intros k. rewrite H.
  case_bool_decide as Hk.
  - apply snapshot_keys_spec in Hk as (_ & _ & ->). by destruct (live_entry now db k).
  - rewrite lookup_empty. destruct (starts_with (lease_prefix c) k) eqn:El; [done|].
    destruct (live_entry now db k) as [e|] eqn:Ee; [|done]. exfalso. apply Hk, snapshot_keys_spec.
    apply live_entry_spec in Ee as [Ee _]. split_and!; eauto.
Qed.

(** C32. A backup that does not check is refused whole: whatever the document, a
    restore that raises before talking to the server leaves the ledger as it is,
    and one that succeeds had the digest of its own contents, the ledger's
    namespace, and only keys of the namespace that are not leases, none twice. *)
Theorem restore_refuses_tampering now snapshot replace db :
  let '(db', r) := restore_snapshot sha256 b64decode undump c now snapshot replace db in
  match r with
  | Raise BackupInvalid | Raise BackupConflict => db' = db
  | Raise ServerError => True
  | Ok n => exists fields entries,
      snapshot = JObj fields /\ jget snapshot "namespace" = JStr (namespace c) /\
      jget snapshot "snapshot_digest" =
        JStr (sha256 (dumps_canonical (JObj (List.filter (fun kv => negb (String.eqb (fst kv) "snapshot_digest")) fields)))) /\
      check_snapshot sha256 b64decode c snapshot = Ok entries /\ n = length entries /\
      NoDup (entries.*1.*1) /\
      Forall (fun k => starts_with (prefix c) k = true /\ starts_with (lease_prefix c) k = false) (entries.*1.*1)
  end.
Proof.
  unfold restore_snapshot. destruct (check_snapshot _ _ _ snapshot) as [entries|e] eqn:Ec.
  2:{ unfold check_snapshot in Ec. by repeat case_match; simplify_eq. }
  destruct (match existing c now db with [] => false | _ => negb replace end); [done|].
  destruct (fold_left _ _ _) as [db' b]. destruct b; [|done].
  pose proof Ec as Ec'. unfold check_snapshot in Ec'. destruct snapshot as [| | | | |fields]; try done.
  exists fields, entries. set (snap := JObj fields) in *.
  destruct (negb _) eqn:E1; [done|]. destruct (negb (bool_decide (_ = Some (namespace c)))) eqn:E2; [done|].
  destruct (negb (bool_decide (_ = Some (sha256 _)))) eqn:E3; [done|].
  destruct (jget snap "keys") as [| | | |items|] eqn:Ek; try done.
  destruct (check_items _ _ _ _ items) as [l|] eqn:El; [|done]. injection Ec' as ->.
  apply negb_false_iff, bool_decide_eq_true in E2, E3. apply check_items_spec in El as [Hnd Hall].
  assert (Hs : forall j s, str_of j = Some s -> j = JStr s) by (intros [] ?; cbn; congruence).
  split_and!; auto. eapply Forall_impl; [exact Hall|]. cbn. tauto.
Qed.

End RoundTrip.

(** ** Witness *)

Section Witnesses.
Definition backup_config : Config := mkConfig "ns" 2000 86400000 3600000.
Definition backup_run : Run := new_record backup_config "r1" "scope" "digest" JNull 0.

(** A serialisation of the three values below. *)
Definition demo_dump (v : Val) : string :=
  match v with VIdem _ _ => "i" | VRun _ => "r" | VLease _ => "l" | VSet _ => "s" end.
Definition demo_undump (s : string) : option Val :=
  if String.eqb s "r" then Some (VRun backup_run)
  else if String.eqb s "s" then Some (VSet {["r1"]})
  else if String.eqb s "l" then Some (VLease "w:1") else None.

Definition backup_db : Db :=
  <[run_key backup_config "r1" := mkEntry (VRun backup_run) (Some 5000)]>
  (<[lease_key backup_config "r1" := mkEntry (VLease "w:1") (Some 2000)]>
  (<[index_key backup_config := mkEntry (VSet {["r1"]}) None]> ∅)).

Lemma backup_db_values k e : backup_db !! k = Some e ->
  demo_undump (demo_dump (e_val e)) = Some (e_val e) /\ starts_with (prefix backup_config) k = true.
Proof.
  unfold backup_db. rewrite !lookup_insert_Some, lookup_empty.
  intros [[<- <-]|[_ [[<- <-]|[_ [[<- <-]|[_ ?]]]]]]; [by vm_compute..|done].
Qed.

Lemma snapshot_round_trip_witness :
  let '(db', r) := restore_snapshot id Some demo_undump backup_config 9000
                     (export_snapshot id id demo_dump backup_config 1000 backup_db) false ∅ in
  is_ok r = true /\
  forall k, db' !! k = if starts_with (lease_prefix backup_config) k then None
                       else shifted 8000 <$> live_entry 1000 backup_db k.
Proof.
  refine (snapshot_round_trip id id Some demo_dump demo_undump backup_config _ 1000 9000 backup_db _ _).
  - done.
  - intros k e H. by apply (backup_db_values k e H).
  - intros k [e H]. by apply (backup_db_values k e H).
Defined.
End Witnesses.
