(* ===== verification/JobExecution.v ===== *)
(** * Job ownership and recovery ([src/agent-svc/agent/job_execution.py])

    [mark_outcome_unknown] fails a job whose external effects cannot be known;
    [run_job] ([_run]) and [stream_job_events] ([stream]) run a job's coroutine
    under a claimed lease and settle the record afterwards; [rebuild]
    reconstructs the worker call of a stored request; [recover_record] and
    [recover_queued_jobs] are the periodic scan.

    While a coroutine runs, the store changes under it: the coroutine's own
    updates, heartbeats, other requests, other processes.  [body] is that
    interleaved sequence of store operations, and the theorems hold for every
    such sequence that respects the lease ([keeps_lease]: a fresh UUID is not
    used to claim or release by anybody else).

    The Pydantic validation of an agent request, the request fingerprint and
    [app.state] are parameters of [rebuild]. *)

From S2P Require Import Prelude Json Valkey JobStore Webhook.

Definition LEASE : usec := sec 45.

(** ** Rebuilding a worker from its stored request *)

(** A call of a worker coroutine: its name and keyword arguments. *)
Record WorkerCall := mkCall { call_fn : string; call_args : list (string * json) }.

(** The exceptions [recover_queued_jobs] catches. *)
Inductive RebuildError := KeyError (k : string) | ValueError (s : string).

Section Rebuild.
Context (app_state : string -> json).
(** [AgentRequest.model_validate]: the validated body, or a [ValidationError]. *)
Context (agent_validate : json -> option json).
Context (agent_fingerprint : json -> json).

Open Scope py_scope.

(** [payload[k]]. *)
Definition need (payload : json) (k : string) : outcome json RebuildError :=
  match jindex payload k with Some v => Ok v | None => Raise (KeyError k) end.

Definition rebuild_crawl (job : string) (payload webhook : json) : outcome WorkerCall RebuildError :=
  try url <- need payload "url";
  Ok (mkCall "_process_crawl_async"
    [("job_id", JStr job); ("url", url);
     ("max_pages", jget_default payload "effective_max_pages" (jget_default payload "max_pages" (JNum 0)));
     ("max_depth", jget_default payload "max_depth" (JNum 2));
     ("scraper_url", app_state "scraper_url"); ("webhook_config", webhook);
     ("ignore_query_parameters", jget_default payload "ignore_query_parameters" (JBool false));
     ("include_paths", jget payload "include_paths");
     ("exclude_paths", jget payload "exclude_paths");
     ("regex_on_full_url", jget_default payload "regex_on_full_url" (JBool false));
     ("verbose", jget_default payload "verbose" (JBool false));
     ("sitemap_mode", jget_default payload "sitemap" (JStr "include"));
     ("crawl_entire_domain", jget_default payload "crawl_entire_domain" (JBool false));
     ("allow_subdomains", jget_default payload "allow_subdomains" (JBool false));
     ("allow_external_links", jget_default payload "allow_external_links" (JBool false));
     ("max_concurrency", jget_default payload "max_concurrency" (JNum 3));
     ("delay", jget payload "delay");
     ("ignore_robots_txt", jget_default payload "ignore_robots_txt" (JBool false));
     ("robots_user_agent", jget payload "robots_user_agent");
     ("scrape_options", jget payload "scrape_options")]).

Definition rebuild_agent (job : string) (payload webhook : json) : outcome WorkerCall RebuildError :=
  match agent_validate payload with
  | None => Raise (ValueError "ValidationError")
  | Some b =>
      Ok (mkCall "_process_agent_async"
        [("job_id", JStr job); ("prompt", jget b "prompt"); ("urls", jget b "urls");
         ("schema_", jor (jget b "output_schema") (jget b "schema_"));
         ("llm_base_url", app_state "llm_base_url"); ("llm_api_key", app_state "llm_api_key");
         ("llm_model", app_state "llm_model"); ("searxng_url", app_state "searxng_url");
         ("scraper_url", app_state "scraper_url"); ("webhook_config", webhook);
         ("requested_model", jget b "model"); ("include_images", jget b "include_images");
         ("include_source_content", jget b "include_source_content");
         ("citation_style", jget b "citation_style"); ("force_fresh", jget b "force_fresh");
         ("stale_while_revalidate", jget b "stale_while_revalidate");
         ("max_stale_hours", jget b "max_stale_hours");
         ("user_id", jget payload "recovery_user_id");
         ("research_memory", app_state "research_memory");
         ("search_type", jget b "search_type");
         ("max_searches_per_request", app_state "max_searches_per_request");
         ("max_credits", jget b "max_credits"); ("fingerprint", agent_fingerprint b);
         ("evidence_budget_chars", jget b "evidence_budget_chars")])
  end.

Definition rebuild_batch_scrape (job : string) (payload webhook : json)
    : outcome WorkerCall RebuildError :=
  try urls <- need payload "urls";
  Ok (mkCall "_process_batch_scrape_async"
    [("job_id", JStr job); ("urls", urls); ("scraper_url", app_state "scraper_url");
     ("webhook_config", webhook);
     ("max_concurrency", jget_default payload "max_concurrency" (JNum 3))]).

Definition rebuild_extract (job : string) (payload webhook : json)
    : outcome WorkerCall RebuildError :=
  try urls <- need payload "urls";
  Ok (mkCall "_process_extract_async"
    [("job_id", JStr job); ("urls", urls); ("prompt", jget payload "prompt");
     ("schema_", jget payload "schema"); ("llm_base_url", app_state "llm_base_url");
     ("llm_api_key", app_state "llm_api_key"); ("llm_model", app_state "llm_model");
     ("scraper_url", app_state "scraper_url"); ("webhook_config", webhook)]).

Definition rebuild_llmstxt (job : string) (payload webhook : json)
    : outcome WorkerCall RebuildError :=
  try url <- need payload "url";
  Ok (mkCall "_process_llmstxt_async"
    [("job_id", JStr job); ("url", url);
     ("max_pages", jget_default payload "max_pages" (JNum 10));
     ("scraper_url", app_state "scraper_url"); ("webhook_config", webhook)]).

Definition rebuild_plan (job : string) (payload webhook : json) : outcome WorkerCall RebuildError :=
  try prompt <- need payload "prompt";
  try plan <- need payload "plan";
  Ok (mkCall "_process_plan_execution_async"
    [("job_id", JStr job); ("prompt", prompt); ("plan", plan);
     ("modifications", jget payload "modifications");
     ("llm_base_url", app_state "llm_base_url"); ("llm_api_key", app_state "llm_api_key");
     ("llm_model", app_state "llm_model"); ("searxng_url", app_state "searxng_url");
     ("scraper_url", app_state "scraper_url"); ("webhook_config", webhook)]).

(** [_rebuild]; the shared [task_tracker] argument is left out. *)
Definition rebuild (m : Meta) : outcome WorkerCall RebuildError :=
  let job := id m in
  let payload := jor (payload m) (JObj []) in
  let webhook := jget payload "webhook" in
  let kd := kind m in
  if String.eqb kd "crawl" then rebuild_crawl job payload webhook
  else if String.eqb kd "agent" then rebuild_agent job payload webhook
  else if String.eqb kd "batch_scrape" then rebuild_batch_scrape job payload webhook
  else if String.eqb kd "extract" then rebuild_extract job payload webhook
  else if String.eqb kd "llmstxt" then rebuild_llmstxt job payload webhook
  else if String.eqb kd "plan_execute" then rebuild_plan job payload webhook
  else Raise (ValueError ("unsupported background job kind: " +:+ kd)).

End Rebuild.

(** ** Running one job *)

(** How the awaited coroutine ended. *)
Inductive BodyResult := Returned | CancelledError | OtherException.

Section Exec.
Context {DB : Type} `{!Valkey key value DB}.
Context (cjson : json -> json).
(** [build_webhook_intent] with its hash functions and secret. *)
Context (build : string -> json -> string -> string -> json -> bool -> option string
                 -> option WebhookIntent).

(** [mark_outcome_unknown]; [wid] is the identifier the intent would get. *)
Definition mark_outcome_unknown (job reason : string) (mode : UnknownMode) (wid : string)
    (now : usec) (iso : string) (db : DB) : DB * bool :=
  let payload := match get_job job db with Some (m, _) => payload m | None => JNull end in
  let cfg := jget (jor payload (JObj [])) "webhook" in
  let intent := build wid cfg "failed" job
                  (JObj [("error", JStr reason); ("error_code", JStr "OUTCOME_UNKNOWN")])
                  false (Some reason) in
  fail_unknown job mode now reason iso intent db.

Definition has_status (job : string) (sts : list Status) (db : DB) : bool :=
  match get_job job db with
  | Some (m, _) => bool_decide (status m ∈ sts)
  | None => false
  end.

(** The [try]/[except] clauses of [_run] after the coroutine ended. *)
Definition settle (job owner : string) (f : Z) (res : BodyResult) (wid : string) (now : usec)
    (iso : string) (db : DB) : DB :=
  match res with
  | Returned =>
      if has_status job [processing] db then
        fst (mark_outcome_unknown job
          "Worker stopped without a terminal result; external outcome is unknown."
          (Owner owner f) wid now iso db)
      else db
  | CancelledError =>
      if has_status job [processing] db then
        fst (mark_outcome_unknown job
          "Worker was interrupted; external outcome is unknown and was not replayed."
          (Owner owner f) wid now iso db)
      else db
  | OtherException =>
      fst (mark_outcome_unknown job
        "Worker executor failed before recording a terminal result; external outcome is unknown."
        (Owner owner f) wid now iso db)
  end.

(** [_run]: claim, await the coroutine ([body] is what happens to the store
    meanwhile), settle, release.  [None]: the claim was refused and the
    coroutine closed unstarted. *)
Definition run_job (job owner : string) (start : usec) (iso : string) (body : list op)
    (res : BodyResult) (wid : string) (stop : usec) (iso' : string) (db : DB) : option DB :=
  match claim LEASE job owner start iso db with
  | (_, None) => None
  | (db1, Some (o, f)) =>
      let db2 := run cjson db1 body in
      let db3 := settle job o f res wid stop iso' db2 in
      Some (release job o f db3)
  end.

(** [stream]: the same ownership around an inline event stream, settled in a
    [finally] clause that also covers a waiting retry. *)
Definition stream_job_events (job owner : string) (start : usec) (iso : string) (body : list op)
    (wid : string) (stop : usec) (iso' : string) (db : DB) : option DB :=
  match claim LEASE job owner start iso db with
  | (_, None) => None
  | (db1, Some (o, f)) =>
      let db2 := run cjson db1 body in
      let db3 := if has_status job [processing; retry_scheduled] db2 then
                   fst (mark_outcome_unknown job
                     "Streaming job ended without a terminal result; external outcome is unknown."
                     (Owner o f) wid stop iso' db2)
                 else db2 in
      Some (release job o f db3)
  end.

(** ** Recovery *)

Section Recover.
Context (rebuild_worker : Meta -> outcome WorkerCall RebuildError).

Definition error_name (e : RebuildError) : string :=
  match e with KeyError _ => "KeyError" | ValueError _ => "ValueError" end.

(** One iteration of [recover_queued_jobs]: [m] is the record as listed, [db]
    the store now.  The second component is the worker submitted, if any. *)
Definition recover_record (m : Meta) (wid : string) (now : usec) (iso : string) (db : DB)
    : DB * option (string * WorkerCall) :=
  let job := id m in
  if String.eqb job EmptyString then (db, None)
  else match execution m with
  | None =>
      (fst (mark_outcome_unknown job
        "Job predates durable ownership; its external outcome is unknown and it was not replayed."
        Legacy wid now iso db), None)
  | Some e =>
      if negb (version e =? 1) then
        (fst (mark_outcome_unknown job
          "Job predates durable ownership; its external outcome is unknown and it was not replayed."
          Legacy wid now iso db), None)
      else if decide (status m = retry_scheduled) then
        (fst (mark_outcome_unknown job
          "Job was interrupted between attempts; retry was not replayed because the prior external outcome cannot be proven."
          Stale wid now iso db), None)
      else if decide (ex_state e = queued) then
        match rebuild_worker m with
        | Ok c => (db, Some (job, c))
        | Raise err =>
            (fst (mark_outcome_unknown job
              ("Queued job cannot be reconstructed safely (" +:+ error_name err
               +:+ "); submit it again explicitly.")
              Legacy wid now iso db), None)
        end
      else if decide (ex_state e = running) then
        if lease_of e <=? now then
          (fst (mark_outcome_unknown job
            "Worker lease expired after an external operation began; outcome is unknown and the operation was not replayed."
            Stale wid now iso db), None)
        else (db, None)
      else (db, None)
  end.

(** [recover_queued_jobs] over the listed records. *)
Fixpoint recover_queued_jobs (records : list Meta) (wid : nat -> string) (now : usec)
    (iso : string) (db : DB) : DB * list (string * WorkerCall) :=
  match records with
  | [] => (db, [])
  | m :: l =>
      let '(db1, d) := recover_record m (wid (length l)) now iso db in
      let '(db2, ds) := recover_queued_jobs l wid now iso db1 in
      (db2, match d with Some c => c :: ds | None => ds end)
  end.

End Recover.

End Exec.

(** ** Ownership while the coroutine runs *)

(** [o] neither recreates nor expires the record of [job], and does not release
    the lease of [owner]: the owner's UUID is known to its worker only, which
    releases at the end. *)
Definition keeps_lease (job owner : string) (o : op) : bool :=
  negb (creates job o) &&
  match o with
  | OExpire k => negb (bool_decide (k = KMeta job))
  | ORelease j w _ => negb (String.eqb j job && String.eqb w owner)
  | _ => true
  end.

(** The record is terminal, or [owner] holds it with fence [f]. *)
Definition held (owner : string) (f : Z) (o : option Meta) : Prop :=
  exists m, o = Some m /\
    (is_terminal (status m) = true \/
     exists e, execution m = Some e /\ version e = 1 /\ exec_view e = (running, f, Some owner)).

Section Theorems.
Context {DB : Type} `{!Valkey key value DB} `{!ValkeyLaws key value DB}.
Context (cjson : json -> json).
Context (build : string -> json -> string -> string -> json -> bool -> option string
                 -> option WebhookIntent).
Implicit Types (db : DB) (m : Meta) (e : Execution) (job owner wid iso : string) (f : Z).

Lemma job_step_held r v v' f owner :
  job_step r v v' -> ~ r owner ->
  is_terminal (fst v) = true \/ snd v = Some (running, f, Some owner) ->
  is_terminal (fst v') = true \/ snd v' = Some (running, f, Some owner).
Proof.
  intros Hs Hr [Ht|Hv]; [left; by rewrite (job_step_terminal _ _ _ Hs Ht)|].
  destruct Hs; cbn in *; simplify_eq; auto.
Qed.

Lemma keeps_lease_held job owner f o db :
  keeps_lease job owner o = true -> held owner f (get_meta job db) ->
  held owner f (get_meta job (step cjson db o)).
Proof.
  intros Hk (m & Hm & Hh). apply andb_true_iff in Hk as [Hc Hk]. bool_to_prop.
  pose proof (step_allowed cjson job o db) as Ha. rewrite Hm in Ha. unfold allowed in Ha.
  destruct (get_meta job (step cjson db o)) as [m'|].
  2:{ subst o. by rewrite bool_decide_eq_true_2 in Hk. }
  exists m'. split; [done|]. destruct Ha as [Ha|[Hsv Ha]]; [congruence|].
  assert (Hr : ~ exists f, o = ORelease job owner f).
  { intros [f' ->]. by rewrite !String.eqb_refl in Hk. }
  assert (Hv : is_terminal (fst (view_of m')) = true \/
               snd (view_of m') = Some (running, f, Some owner)).
  { assert (Hv0 : is_terminal (fst (view_of m)) = true \/
                  snd (view_of m) = Some (running, f, Some owner)).
    { destruct Hh as [Hh|(e & He & _ & Hx)]; [by left|right]. cbn. by rewrite He, <- Hx. }
    destruct Ha as [<-|Ha]; [done|]. by eapply job_step_held. }
  destruct Hh as [Hh|(e & He & Hver & Hx)].
  - left. destruct Ha as [Ha|Ha]; [by rewrite <- Hh; apply (f_equal (is_terminal ∘ fst)) in Ha|].
    pose proof (job_step_terminal _ _ _ Ha Hh) as E. cbn in E. by rewrite E.
  - destruct Hv as [Hv|Hv]; [by left|right]. unfold same_version in Hsv. rewrite He in Hsv.
    cbn in Hv, Hsv. destruct (execution m') as [e'|]; [|done]. cbn in *.
    exists e'. split_and!; congruence.
Qed.

Lemma run_held job owner f ops : forall db,
  forallb (keeps_lease job owner) ops = true -> held owner f (get_meta job db) ->
  held owner f (get_meta job (run cjson db ops)).
Proof.
  induction ops as [|o ops IH]; intros db Hk Hh; [done|]. cbn in Hk. bool_to_prop.
  change (run cjson db (o :: ops)) with (run cjson (step cjson db o) ops).
  apply IH; [done|]. by apply keeps_lease_held.
Qed.

Lemma claim_held lease job owner now iso db db1 o f :
  claim lease job owner now iso db = (db1, Some (o, f)) ->
  o = owner /\ held owner f (get_meta job db1).
Proof.
  unfold claim, claim_script. destruct (get_meta job db) as [m|]; [|done].
  case_decide; [done|]. destruct (execution m) as [e|]; [|done].
  destruct (version e =? 1) eqn:Ev; [|done]. cbn [negb]. case_decide; [done|].
  destruct (fence e + 1 <=? 0) eqn:Ef; [done|]. intros [= <- <- <-]. split; [done|].
  eexists. split; [by rewrite get_meta_put_meta, decide_True|]. right. cbn.
  eexists. split; [done|]. bool_to_prop. by split.
Qed.

Lemma has_status_spec job sts db m :
  get_meta job db = Some m -> has_status job sts db = bool_decide (status m ∈ sts).
Proof. intros Hm. unfold has_status, get_job. by rewrite Hm. Qed.

(** [mark_outcome_unknown] in owner mode ends a held record. *)
Lemma mark_owner job reason owner f wid now iso db :
  held owner f (get_meta job db) ->
  exists m, get_meta job (fst (mark_outcome_unknown build job reason (Owner owner f) wid now iso db)) = Some m /\
    is_terminal (status m) = true.
Proof.
  intros (m & Hm & Hh). unfold mark_outcome_unknown, fail_unknown. rewrite Hm.
  destruct (is_active (status m)) eqn:Ha; cbn [negb].
  - destruct Hh as [Hh|(e & He & _ & Hx)]; [unfold is_active in Ha; by rewrite Hh in Ha|].
    injection Hx as _ Hf Ho. rewrite He. unfold unknown_guard, owns. rewrite Ho, Hf, String.eqb_refl, Z.eqb_refl.
    cbn. rewrite get_meta_put_intent, get_meta_put_meta, decide_True by done. by eexists.
  - exists m. split; [done|]. unfold is_active in Ha. by bool_to_prop.
Qed.

(** [mark_outcome_unknown] in stale mode ends an active record whose lease ran out. *)
Lemma mark_stale job reason wid now iso db m e :
  get_meta job db = Some m -> execution m = Some e -> is_active (status m) = true ->
  ex_state e = running ->
  let db' := fst (mark_outcome_unknown build job reason Stale wid now iso db) in
  if lease_of e <=? now then
    exists m', get_meta job db' = Some m' /\ status m' = failed /\
      error_code m' = Some "OUTCOME_UNKNOWN" /\ error m' = Some reason
  else db' = db.
Proof.
  intros Hm He Ha Hr. unfold mark_outcome_unknown, fail_unknown. cbn.
  rewrite Hm, Ha, He. cbn. rewrite Hr, bool_decide_eq_true_2 by done. cbn.
  destruct (lease_of e <=? now); [|done]. cbn.
  rewrite get_meta_put_intent, get_meta_put_meta, decide_True by done. by eexists.
Qed.

Lemma release_terminal job owner f db m :
  get_meta job db = Some m -> is_terminal (status m) = true ->
  exists m', get_meta job (release job owner f db) = Some m' /\ is_terminal (status m') = true.
Proof.
  intros Hm Ht. unfold release. rewrite Hm. destruct (execution m) as [e|]; [|eauto].
  destruct (owns e owner f); [|eauto]. rewrite get_meta_put_meta, decide_True by done.
  eexists. by split.
Qed.

(** ** Settlement *)

(** The record waits for a retry that nobody owns any more. *)
Definition orphaned_retry (m : Meta) : Prop :=
  status m = retry_scheduled /\
  exists e, execution m = Some e /\ version e = 1 /\ ex_state e = running /\
            lease_owner e = None /\ lease_of e = 0.

Lemma settle_spec job owner f res wid now iso db :
  held owner f (get_meta job db) ->
  exists m, get_meta job (settle build job owner f res wid now iso db) = Some m /\
    (is_terminal (status m) = true \/
     res <> OtherException /\ status m = retry_scheduled /\
     exists e, execution m = Some e /\ version e = 1 /\ exec_view e = (running, f, Some owner)).
Proof.
  intros Hh. assert (Hskip : res <> OtherException -> has_status job [processing] db = false ->
    exists m, get_meta job db = Some m /\ (is_terminal (status m) = true \/
     res <> OtherException /\ status m = retry_scheduled /\
     exists e, execution m = Some e /\ version e = 1 /\ exec_view e = (running, f, Some owner))).
  { destruct Hh as (m & Hm & Hh). intros Hne Hs. exists m. split; [done|].
    rewrite (has_status_spec _ _ _ _ Hm) in Hs. apply bool_decide_eq_false in Hs.
    destruct Hh as [Hh|Hh]; [by left|]. destruct (status m) eqn:Est; try (by left); [|by right].
    destruct Hs. apply elem_of_cons. by left. }
  unfold settle. destruct res.
  - destruct (has_status _ _ _) eqn:E; [|by apply Hskip].
    destruct (mark_owner job "Worker stopped without a terminal result; external outcome is unknown."
      owner f wid now iso db Hh) as (m & ? & ?). eauto.
  - destruct (has_status _ _ _) eqn:E; [|by apply Hskip].
    destruct (mark_owner job "Worker was interrupted; external outcome is unknown and was not replayed."
      owner f wid now iso db Hh) as (m & ? & ?). eauto.
  - destruct (mark_owner job
      "Worker executor failed before recording a terminal result; external outcome is unknown."
      owner f wid now iso db Hh) as (m & ? & ?). eauto.
Qed.

Lemma release_held job owner f db m e :
  get_meta job db = Some m -> execution m = Some e -> version e = 1 ->
  exec_view e = (running, f, Some owner) -> status m = retry_scheduled ->
  exists m', get_meta job (release job owner f db) = Some m' /\ id m' = id m /\ orphaned_retry m'.
Proof.
  intros Hm He Hv Hx Hs. injection Hx as Hr Hf Ho. unfold release, owns.
  rewrite Hm, He, Ho, Hf, String.eqb_refl, Z.eqb_refl. cbn.
  rewrite get_meta_put_meta, decide_True by done. eexists. split; [done|]. split; [done|].
  split; [done|]. by eexists.
Qed.

(** A job that was claimed is settled when its coroutine ends, however it
    ends and whatever happened to the store meanwhile: the record is terminal,
    or it waits for a retry nobody owns (never [processing]). *)
Theorem run_job_settles job owner start iso body res wid stop iso' db db' :
  run_job cjson build job owner start iso body res wid stop iso' db = Some db' ->
  forallb (keeps_lease job owner) body = true ->
  exists m, get_meta job db' = Some m /\
    (is_terminal (status m) = true \/ res <> OtherException /\ orphaned_retry m).
Proof.
  unfold run_job. destruct (claim LEASE job owner start iso db) as [db1 [[o f]|]] eqn:Ec; [|done].
  intros [= <-] Hk. apply claim_held in Ec as [-> Hh]. apply (run_held _ _ _ _ _ Hk) in Hh.
  apply (settle_spec _ _ _ res wid stop iso') in Hh as (m & Hm & [Ht|(Hne & Hs & e & He & Hv & Hx)]).
  - destruct (release_terminal _ owner f _ _ Hm Ht) as (m' & ? & ?). eauto.
  - destruct (release_held _ _ _ _ _ _ Hm He Hv Hx Hs) as (m' & ? & _ & ?). eauto.
Qed.

(** An inline streaming job is terminal when its stream ends. *)
Theorem stream_job_settles job owner start iso body wid stop iso' db db' :
  stream_job_events cjson build job owner start iso body wid stop iso' db = Some db' ->
  forallb (keeps_lease job owner) body = true ->
  exists m, get_meta job db' = Some m /\ is_terminal (status m) = true.
Proof.
  unfold stream_job_events.
  destruct (claim LEASE job owner start iso db) as [db1 [[o f]|]] eqn:Ec; [|done].
  intros [= <-] Hk. apply claim_held in Ec as [-> Hh]. apply (run_held _ _ _ _ _ Hk) in Hh.
  destruct (has_status _ _ _) eqn:E.
  - destruct (mark_owner job "Streaming job ended without a terminal result; external outcome is unknown."
      owner f wid stop iso' _ Hh) as (m & Hm & Ht). by eapply release_terminal.
  - destruct Hh as (m & Hm & Hh). rewrite (has_status_spec _ _ _ _ Hm) in E.
    apply bool_decide_eq_false in E. eapply release_terminal; [exact Hm|].
    destruct (status m); try done; destruct E; set_solver.
Qed.

(** ** Recovery *)

Section Scan.
Context (rebuild_worker : Meta -> outcome WorkerCall RebuildError).

(** Recovery fails closed: a job whose worker had started and whose lease
    has run out becomes [failed] with [OUTCOME_UNKNOWN] and is never dispatched
    again; one whose lease is live is left alone. *)
Theorem recovery_fails_closed job m e wid now iso db :
  get_meta job db = Some m -> id m = job -> job <> "" ->
  execution m = Some e -> version e = 1 -> is_active (status m) = true -> ex_state e = running ->
  let '(db', dispatched) := recover_record build rebuild_worker m wid now iso db in
  dispatched = None /\
  if lease_of e <=? now then
    exists m', get_meta job db' = Some m' /\ status m' = failed /\
               error_code m' = Some "OUTCOME_UNKNOWN"
  else db' = db.
Proof.
  intros Hm Hid Hne He Hv Ha Hr. unfold recover_record. subst job.
  destruct (String.eqb_spec (id m) EmptyString); [done|].
  rewrite He, Hv, Hr. cbn [Z.eqb negb].
  assert (Hstale : forall reason,
    let db' := fst (mark_outcome_unknown build (id m) reason Stale wid now iso db) in
    if lease_of e <=? now then
      exists m', get_meta (id m) db' = Some m' /\ status m' = failed /\
                 error_code m' = Some "OUTCOME_UNKNOWN"
    else db' = db).
  { intros reason. pose proof (mark_stale (id m) reason wid now iso db m e Hm He Ha Hr) as H.
    cbn in *. destruct (lease_of e <=? now); [|done]. destruct H as (m' & ? & ? & ? & _). eauto. }
  case_decide; [split; [done|apply Hstale]|].
  rewrite decide_False by done. rewrite decide_True by done.
  destruct (lease_of e <=? now) eqn:El; [|done]. split; [done|].
  specialize (Hstale "Worker lease expired after an external operation began; outcome is unknown and the operation was not replayed.").
  by rewrite ?El in Hstale.
Qed.

(** Recovery never replays started work: each worker it dispatches comes
    from a listed record that was still queued and not waiting for a retry,
    rebuilt from that record's own request. *)
Theorem recovery_dispatches_only_queued records (wid : nat -> string) now iso db job c :
  (job, c) ∈ snd (recover_queued_jobs build rebuild_worker records wid now iso db) ->
  exists m e, m ∈ records /\ id m = job /\ status m <> retry_scheduled /\
    execution m = Some e /\ version e = 1 /\ ex_state e = queued /\ rebuild_worker m = Ok c.
Proof.
  revert db; induction records as [|m records IH]; intros db; cbn; [by intros ?%not_elem_of_nil|].
  destruct (recover_record build rebuild_worker m _ now iso db) as [db1 d] eqn:E.
  destruct (recover_queued_jobs build rebuild_worker records wid now iso db1) as [db2 ds] eqn:E2.
  cbn. intros Hin. specialize (IH db1). rewrite E2 in IH. cbn in IH.
  assert (Hrest : (job, c) ∈ ds -> exists m0 e, m0 ∈ m :: records /\ id m0 = job /\
    status m0 <> retry_scheduled /\ execution m0 = Some e /\ version e = 1 /\
    ex_state e = queued /\ rebuild_worker m0 = Ok c).
  { intros H. destruct (IH H) as (m0 & e & ? & ?). exists m0, e. split; [by right|done]. }
  destruct d as [[job' c']|]; [|by apply Hrest].
  apply elem_of_cons in Hin as [[= -> ->]|Hin]; [|by apply Hrest].
  exists m. unfold recover_record in E. destruct (String.eqb (id m) EmptyString); [done|].
  destruct (execution m) as [e|]; [|done]. exists e.
  destruct (version e =? 1) eqn:Ev; [|done]. cbn [negb] in E. case_decide; [done|].
  case_decide as Hq; [|repeat case_match; done]. destruct (rebuild_worker m) as [c0|err]; [|done].
  injection E as _ <- <-. bool_to_prop. split_and!; try done. by left.
Qed.

(** An orphaned retry is closed by the next scan. *)
Theorem recovery_closes_orphaned_retry job m wid now iso db :
  get_meta job db = Some m -> id m = job -> job <> "" -> orphaned_retry m -> 0 <= now ->
  exists m', get_meta job (fst (recover_record build rebuild_worker m wid now iso db)) = Some m' /\
    status m' = failed /\ error_code m' = Some "OUTCOME_UNKNOWN".
Proof.
  intros Hm Hid Hne (Hs & e & He & Hv & Hr & _ & Hl) Hnow. unfold recover_record. subst job.
  destruct (String.eqb_spec (id m) EmptyString); [done|].
  rewrite He, Hv, Hs. cbn [Z.eqb negb]. rewrite decide_True by done. cbn [fst].
  assert (Ha : is_active (status m) = true) by by rewrite Hs.
  pose proof (fun reason => mark_stale (id m) reason wid now iso db m e Hm He Ha Hr) as H.
  rewrite Hl in H. rewrite (proj2 (Z.leb_le _ _) Hnow) in H.
  match goal with |- context [mark_outcome_unknown _ _ ?r Stale] =>
    destruct (H r) as (m' & ? & ? & ? & _) end. eauto.
Qed.

(** A queued record that cannot be rebuilt is not failed: the scan asks for
    the legacy transition, which refuses every record with an execution marker,
    so scanning any number of times neither dispatches nor changes anything. *)
Theorem unrebuildable_job_stays_queued job m e err (wid : nat -> string) now iso db n :
  get_meta job db = Some m -> id m = job ->
  execution m = Some e -> ex_state e = queued -> status m = processing ->
  rebuild_worker m = Raise err ->
  recover_queued_jobs build rebuild_worker (replicate n m) wid now iso db = (db, []).
Proof.
  intros Hm Hid He Hq Hs Hr. induction n as [|n IH]; [done|]. cbn [replicate recover_queued_jobs].
  assert (Hrec : forall w, recover_record build rebuild_worker m w now iso db = (db, None)).
  { intros w. assert (Hl : forall reason,
      fst (mark_outcome_unknown build job reason Legacy w now iso db) = db).
    { intros reason. unfold mark_outcome_unknown, fail_unknown. rewrite Hm, He. cbn.
      by destruct (negb _). }
    unfold recover_record. rewrite Hid. destruct (String.eqb job EmptyString); [done|].
    rewrite He. destruct (negb (version e =? 1)); [by rewrite Hl|].
    rewrite decide_False by congruence. rewrite decide_True by done. by rewrite Hr, Hl. }
  rewrite Hrec, IH. done.
Qed.

End Scan.

End Theorems.

(** ** Witnesses *)

Definition demo_build : string -> json -> string -> string -> json -> bool -> option string
    -> option WebhookIntent := build_webhook_intent (fun s => s) (fun _ s => s) EmptyString.

Definition demo_rebuild : Meta -> outcome WorkerCall RebuildError :=
  rebuild (fun _ => JNull) Some (fun j => j).

(** Other workers claim and beat while the job runs; the worker stops waiting
    for a retry, or without a result. *)
Definition demo_body : list op :=
  [OClaim LEASE "j" "other" 5 "t2"; OHeartbeat LEASE "j" "worker" 1 (sec 15);
   OSchedule "j" (mkRetry "t9" 1 3 "429" (sec 5))].

Lemma run_job_settles_witness :
  exists db', run_job (fun j => j) demo_build "j" "worker" 0 "t2" demo_body CancelledError "w" (sec 20) "t3"
      demo_db = Some db' /\
    exists m, get_meta "j" db' = Some m /\
      (is_terminal (status m) = true \/ CancelledError <> OtherException /\ orphaned_retry m).
Proof.
  set (r := run_job _ _ _ _ _ _ _ _ _ _ _ _).
  assert (Hr : match r with Some _ => true | None => false end = true) by (vm_compute; reflexivity).
  destruct r as [db'|] eqn:E; [|discriminate Hr].
  exists db'. split; [reflexivity|].
  exact (run_job_settles (fun j => j) demo_build "j" "worker" 0 "t2" demo_body CancelledError "w"
            (sec 20) "t3" demo_db db' E eq_refl).
Defined.

Lemma stream_job_settles_witness :
  exists db', stream_job_events (fun j => j) demo_build "j" "worker" 0 "t2" demo_body "w" (sec 20) "t3"
      demo_db = Some db' /\
    exists m, get_meta "j" db' = Some m /\ is_terminal (status m) = true.
Proof.
  set (r := stream_job_events _ _ _ _ _ _ _ _ _ _ _).
  assert (Hr : match r with Some _ => true | None => false end = true) by (vm_compute; reflexivity).
  destruct r as [db'|] eqn:E; [|discriminate Hr].
  exists db'. split; [reflexivity|].
  exact (stream_job_settles (fun j => j) demo_build "j" "worker" 0 "t2" demo_body "w"
            (sec 20) "t3" demo_db db' E eq_refl).
Defined.

Definition demo_meta : Meta :=
  default (mkMeta "" "" failed "" "" JNull None None None None None) (get_meta "j" demo_db).

Definition demo_running_meta : Meta := default demo_meta (get_meta "j" demo_running).

Lemma recovery_fails_closed_witness :
  exists m', get_meta "j" (fst (recover_record demo_build demo_rebuild demo_running_meta "w" (sec 60) "t5"
      demo_running)) = Some m' /\ status m' = failed.
Proof.
  pose proof (recovery_fails_closed demo_build demo_rebuild "j" demo_running_meta
    (mkExecution 1 running 1 (Some "worker") (Some (sec 45)) (Some "worker_execution") (Some "t2")
       (Some (WorkerStarted "t2")) None) "w" (sec 60) "t5" demo_running) as H.
  destruct (recover_record _ _ _ _ _ _ _) as [db' d].
  destruct H as [_ (m' & H1 & H2 & _)];
    [vm_compute; reflexivity|reflexivity|discriminate|vm_compute; reflexivity|reflexivity
    |reflexivity|reflexivity|].
  exists m'. exact (conj H1 H2).
Defined.

Lemma recovery_dispatches_only_queued_witness :
  exists c, ("j", c) ∈ snd (recover_queued_jobs demo_build demo_rebuild [demo_meta] (fun _ => "w")
      (sec 1) "t5" demo_db) /\
    exists m e, m ∈ [demo_meta] /\ id m = "j" /\ status m <> retry_scheduled /\
      execution m = Some e /\ version e = 1 /\ ex_state e = queued /\ demo_rebuild m = Ok c.
Proof.
  eexists. assert (Hin : ("j", _) ∈ snd (recover_queued_jobs demo_build demo_rebuild [demo_meta]
    (fun _ => "w") (sec 1) "t5" demo_db)) by (apply list_elem_of_here).
  split; [exact Hin|].
  exact (recovery_dispatches_only_queued demo_build demo_rebuild [demo_meta] (fun _ => "w")
           (sec 1) "t5" demo_db "j" _ Hin).
Defined.

Definition demo_orphan : Meta :=
  with_execution (with_status demo_meta retry_scheduled)
    (Some (mkExecution 1 running 1 None (Some 0) None None None None)).

Lemma recovery_closes_orphaned_retry_witness :
  let db := put_meta "j" demo_orphan KEEPTTL demo_db in
  exists m', get_meta "j" (fst (recover_record demo_build demo_rebuild demo_orphan "w" (sec 60) "t5" db))
    = Some m' /\ status m' = failed /\ error_code m' = Some "OUTCOME_UNKNOWN".
Proof.
  intros db. apply (recovery_closes_orphaned_retry demo_build demo_rebuild "j" demo_orphan "w" (sec 60) "t5" db);
    [vm_compute; reflexivity|reflexivity|discriminate| |discriminate].
  split; [reflexivity|]. eexists. split; [reflexivity|]. repeat split.
Defined.

(** A stored crawl request without its URL. *)
Definition demo_broken : gmap key value := create_job "j" "crawl" (JObj []) "t0" "t1" empty.

Definition demo_broken_meta : Meta := default demo_meta (get_meta "j" demo_broken).

Lemma unrebuildable_job_stays_queued_witness :
  recover_queued_jobs demo_build demo_rebuild (replicate 5 demo_broken_meta) (fun _ => "w") (sec 9) "t5"
    demo_broken = (demo_broken, []) /\ status demo_broken_meta = processing.
Proof.
  split; [|vm_compute; reflexivity].
  apply (unrebuildable_job_stays_queued demo_build demo_rebuild "j" demo_broken_meta queued_execution
    (KeyError "url")); vm_compute; reflexivity.
Defined.
