(* ===== verification/CrawlStream.v ===== *)
(** * The crawl's event stream ([src/agent-svc/agent/crawl_stream.py])

    [crawl_event_stream] runs a crawl inside a request: the engine is a task that
    puts its pages and errors into a queue, an asynchronous generator reads the
    queue and yields server-sent events.  The generator is a state machine over the
    points where it can be suspended, [Pc]: the timed wait for the queue and its
    [yield]s.  A step of the run ([action]) is one of the world's: a callback or the
    end of the engine's task, an operation of somebody else on the job store, the
    consumer asking for the next event, the queue answering, the wait timing out,
    the request being cancelled during the wait, or the generator being closed at a
    [yield].  Between two suspensions the generator runs alone, as in an event loop.

    The theorems: whatever the interleaving, the events are numbered without gaps and
    carry every page and every error in the order the engine reported them, each
    once, and the last event comes after all of them; the text of the stream decodes
    to those events by the rules of the event-stream format; once the crawl has ended
    a consumer that keeps reading gets to the end in a bounded number of steps; and
    on the job store a stream is a worker that writes one outcome, which makes the
    coordinator's guarantee apply to it.

    The webhook deliveries are started as background tasks, as the one caller's
    tracker does; metrics and logs are left out, and the store answers. *)

From stdpp Require Import pretty.
From S2P Require Import Prelude Strings Json Valkey JobStore JobExecution.

Definition HEARTBEAT_INTERVAL : usec := sec 15.
Definition PROGRESS_INTERVAL : Z := 5.

Definition entry : Type := list (string * json).

(** What is yielded: an event with its number, a comment line, the closing mark. *)
Inductive chunk := Heartbeat | Event (id : Z) (payload : json) | DoneMark.

Definition LF : string := String (Ascii.ascii_of_nat 10) EmptyString.

Definition render (c : chunk) : string :=
  match c with
  | Heartbeat => ": heartbeat" +:+ LF +:+ LF
  | Event n p => "id: " +:+ pretty n +:+ LF +:+ "data: " +:+ dumps p +:+ LF +:+ LF
  | DoneMark => "data: [DONE]" +:+ LF +:+ LF
  end.

(** The parts of [CrawlResult] that are used. *)
Record CrawlResult := mkResult {
  r_completed : Z; r_total : Z;
  r_pages : list json; r_errors : list json; r_robots_blocked : list json
}.

(** How the engine's task ends. *)
Inductive Outcome := Finished (r : CrawlResult) | Crashed (msg : string) | TaskCancelled.

Inductive Task := NotCreated | Running | TaskDone (o : Outcome).

(** The points of suspension. *)
Inductive Pc :=
| Unstarted
| Waiting                 (* [wait_for(page_queue.get(), ...)] *)
| BeatSent                (* at the [yield] of a heartbeat *)
| EventSent               (* at a [yield] after which the loop goes on *)
| PageSent                (* at the [yield] of a page *)
| LastSent                (* at the [yield] of the final event *)
| Ended                   (* the generator has ended *)
| CancelRaised            (* it has raised [CancelledError] *)
| Closed.                 (* [aclose] has ended it *)

(** The clients the generator owns. *)
Inductive Clients := Unopened | Open | Shut.

(** A background delivery: the event and, for a failure, its message. *)
Record Hook := mkHook { hook_event : string; hook_error : option string }.

(** What a step reads from the world: the clocks and the engine's frontier. *)
Record Tick := mkTick { t_now : usec; t_iso : string; t_frontier : Z; t_elapsed_ms : Z }.

Inductive action :=
| PagePut (page : entry)
| ErrorPut (err : entry)
| CrawlEnds (o : Outcome)
| StoreOp (o : op)
| Next (t : Tick)
| Item
| Timeout_
| Disconnect (t : Tick)
| Close.

(** ** Payloads *)

Definition get_or (e : entry) (k : string) (dflt : json) : json := default dflt (assoc k e).

Definition progress_payload (completed : Z) (total : json) : json :=
  JObj [("type", JStr "progress"); ("completed", JNum completed); ("total", total); ("status", JStr "scraping")].

Definition page_payload (e : entry) : json :=
  JObj [("type", JStr "page"); ("url", get_or e "url" (JStr "")); ("markdown", get_or e "markdown" (JStr ""));
        ("metadata", get_or e "metadata" (JObj []))].

Definition error_payload (e : entry) : json :=
  JObj [("type", JStr "error"); ("url", get_or e "url" (JStr ""));
        ("error", get_or e "error" (JStr "Unknown scrape error"))].

Definition is_error (e : entry) : bool := truthy (get_or e "_error" JNull).

(** The event of an entry of the queue. *)
Definition entry_payload (e : entry) : json := if is_error e then error_payload e else page_payload e.

Definition done_payload (job status : string) (r : CrawlResult) (elapsed_ms : Z) : json :=
  JObj [("type", JStr "done"); ("id", JStr job); ("status", JStr status); ("pages", JArr (r_pages r));
        ("total", JNum (r_total r)); ("completed", JNum (r_completed r)); ("latency_ms", JNum elapsed_ms)].

Definition failure_payload (url msg : string) : json :=
  JObj [("type", JStr "error"); ("url", JStr url); ("error", JStr msg)].

(** What [_error_callback] puts. *)
Definition error_entry (e : entry) : entry := oset "_error" (JBool true) e.

(** The data of [complete_job]. *)
Definition result_data (r : CrawlResult) : JobData :=
  mkData (Some (r_completed r))
    (JObj [("total", JNum (r_total r)); ("pages", JArr (r_pages r)); ("errors", JArr (r_errors r));
           ("robots_blocked", JArr (r_robots_blocked r))]).

(** ** The generator *)

Section Stream.
Context {DB : Type} `{!Valkey key value DB}.
Context (cjson : json -> json) (c : option Context_) (job url : string) (max_pages : Z).

Record Stream := mkStream {
  db : DB;
  page_queue : list entry;
  crawl_task : Task;
  pc : Pc;
  event_id : Z;
  pages_yielded : Z;
  last_progress_count : Z;
  sent : list chunk;
  hooks : list Hook;
  clients : Clients;
  own_ops : list op         (* the operations of the generator on the store *)
}.

Definition init (d : DB) : Stream := mkStream d [] NotCreated Unstarted 0 0 0 [] [] Unopened [].

Definition at_pc (p : Pc) (s : Stream) : Stream :=
  mkStream (db s) (page_queue s) (crawl_task s) p (event_id s) (pages_yielded s) (last_progress_count s) (sent s) (hooks s) (clients s) (own_ops s).

Definition with_queue (q : list entry) (s : Stream) : Stream :=
  mkStream (db s) q (crawl_task s) (pc s) (event_id s) (pages_yielded s) (last_progress_count s) (sent s) (hooks s) (clients s) (own_ops s).

Definition with_task (t : Task) (s : Stream) : Stream :=
  mkStream (db s) (page_queue s) t (pc s) (event_id s) (pages_yielded s) (last_progress_count s) (sent s) (hooks s) (clients s) (own_ops s).

Definition with_db (d : DB) (s : Stream) : Stream :=
  mkStream d (page_queue s) (crawl_task s) (pc s) (event_id s) (pages_yielded s) (last_progress_count s) (sent s) (hooks s) (clients s) (own_ops s).

Definition with_clients (k : Clients) (s : Stream) : Stream :=
  mkStream (db s) (page_queue s) (crawl_task s) (pc s) (event_id s) (pages_yielded s) (last_progress_count s) (sent s) (hooks s) k (own_ops s).

Definition with_counts (y l : Z) (s : Stream) : Stream :=
  mkStream (db s) (page_queue s) (crawl_task s) (pc s) (event_id s) y l (sent s) (hooks s) (clients s) (own_ops s).

(** [task_tracker.create_background_task(deliver_webhook(...))]. *)
Definition fire (h : Hook) (s : Stream) : Stream :=
  mkStream (db s) (page_queue s) (crawl_task s) (pc s) (event_id s) (pages_yielded s) (last_progress_count s) (sent s) (hooks s ++ [h]) (clients s) (own_ops s).

(** An operation of the generator on the store. *)
Definition perform (o : op) (s : Stream) : Stream :=
  mkStream (step cjson (db s) o) (page_queue s) (crawl_task s) (pc s) (event_id s) (pages_yielded s) (last_progress_count s) (sent s) (hooks s) (clients s)
    (own_ops s ++ [o]).

(** [event_id += 1; yield f"id: ..."], suspending at [p]. *)
Definition emit (payload : json) (p : Pc) (s : Stream) : Stream :=
  mkStream (db s) (page_queue s) (crawl_task s) p (event_id s + 1) (pages_yielded s) (last_progress_count s) (sent s ++ [Event (event_id s + 1) payload])
    (hooks s) (clients s) (own_ops s).

(** [yield ": heartbeat\n\n"]. *)
Definition beat (s : Stream) : Stream :=
  mkStream (db s) (page_queue s) (crawl_task s) BeatSent (event_id s) (pages_yielded s) (last_progress_count s) (sent s ++ [Heartbeat]) (hooks s) (clients s)
    (own_ops s).

Definition job_status (s : Stream) : option Status := (fun r => status (fst r)) <$> get_job job (db s).

(** The [except asyncio.CancelledError] clause and the [finally] clause: the engine's
    task is cancelled and awaited, the clients are closed, the error goes on. *)
Definition on_cancelled (t : Tick) (s : Stream) : Stream :=
  let already_terminal := match job_status s with Some st => is_terminal st | None => false end in
  let s := if already_terminal then s
           else fire (mkHook "crawl.completed" None) (perform (OCancel job None (t_iso t)) s) in
  let s := match crawl_task s with Running => with_task (TaskDone TaskCancelled) s | _ => s end in
  at_pc CancelRaised (with_clients Shut s).

(** The [except Exception] clause. *)
Definition on_exception (t : Tick) (msg : string) (s : Stream) : Stream :=
  emit (failure_payload url msg) LastSent
    (fire (mkHook "crawl.failed" (Some msg)) (perform (OFail c job msg None (t_now t) (t_iso t)) s)).

(** After the loop: [await crawl_task] and what follows it. *)
Definition finish (t : Tick) (s : Stream) : Stream :=
  match crawl_task s with
  | TaskDone (Finished r) =>
      let was_cancelled := bool_decide (job_status s = Some cancelled) in
      let s := if was_cancelled then s else perform (OComplete c job (result_data r) None (t_now t) (t_iso t)) s in
      let s := fire (mkHook "crawl.completed" None) s in
      emit (done_payload job (if was_cancelled then "cancelled" else "completed") r (t_elapsed_ms t)) LastSent s
  | TaskDone (Crashed msg) => on_exception t msg s
  | TaskDone TaskCancelled => on_cancelled t s
  | NotCreated | Running => s
  end.

Definition is_running (s : Stream) : bool := match crawl_task s with Running => true | _ => false end.

(** [while not crawl_task.done() or not page_queue.empty()]. *)
Definition loop_head (t : Tick) (s : Stream) : Stream :=
  if is_running s || negb (bool_decide (page_queue s = [])) then at_pc Waiting s else finish t s.

(** The total of a progress event sent after a heartbeat. *)
Definition total_estimate (s : Stream) : json :=
  match get_job job (db s) with
  | Some (_, d) => jget_default (from_option data_rest (JObj []) d) "total" (JNum max_pages)
  | None => JNum (Z.max (pages_yielded s) max_pages)
  end.

(** The start: the webhook, the task, the loop. *)
Definition start (t : Tick) (s : Stream) : Stream :=
  loop_head t (with_task Running (fire (mkHook "crawl.started" None) (with_clients Open s))).

(** After the [yield] of a page. *)
Definition after_page (t : Tick) (s : Stream) : Stream :=
  let n := pages_yielded s + 1 in
  if PROGRESS_INTERVAL <=? n - last_progress_count s then
    emit (progress_payload n (JNum (Z.max n (t_frontier t)))) EventSent (with_counts n n s)
  else loop_head t (with_counts n (last_progress_count s) s).

(** [__anext__]. *)
Definition next (t : Tick) (s : Stream) : Stream :=
  match pc s with
  | Unstarted => start t s
  | BeatSent => emit (progress_payload (pages_yielded s) (total_estimate s)) EventSent s
  | EventSent => loop_head t s
  | PageSent => after_page t s
  | LastSent => at_pc Ended (with_clients Shut s)
  | Waiting | Ended | CancelRaised | Closed => s
  end.

(** The queue's answer. *)
Definition item (s : Stream) : Stream :=
  match pc s, page_queue s with
  | Waiting, e :: q =>
      let s := with_queue q s in
      if is_error e then emit (error_payload e) EventSent s else emit (page_payload e) PageSent s
  | _, _ => s
  end.

(** [aclose] at a [yield]: only the [finally] clause runs.  Awaiting the task it has
    cancelled raises [CancelledError], which [suppress(Exception)] lets through, so
    the clients are closed only if the task had ended. *)
Definition close (s : Stream) : Stream :=
  match pc s with
  | Unstarted => at_pc Closed s
  | BeatSent | EventSent | PageSent | LastSent =>
      if is_running s then at_pc Closed (with_task (TaskDone TaskCancelled) s) else at_pc Closed (with_clients Shut s)
  | Waiting | Ended | CancelRaised | Closed => s
  end.

Definition put (e : entry) (s : Stream) : Stream := if is_running s then with_queue (page_queue s ++ [e]) s else s.

Definition act (s : Stream) (a : action) : Stream :=
  match a with
  | PagePut p => put p s
  | ErrorPut e => put (error_entry e) s
  | CrawlEnds o => if is_running s then with_task (TaskDone o) s else s
  | StoreOp o => with_db (step cjson (db s) o) s
  | Next t => next t s
  | Item => item s
  | Timeout_ => match pc s with Waiting => beat s | _ => s end
  | Disconnect t => match pc s with Waiting => on_cancelled t s | _ => s end
  | Close => close s
  end.

Definition stream_run (s : Stream) (acts : list action) : Stream := run_ops act s acts.

(** What the engine reports in a run, as it is put into the queue. *)
Definition accepted (s : Stream) (a : action) : list entry :=
  match a with
  | PagePut p => if is_running s then [p] else []
  | ErrorPut e => if is_running s then [error_entry e] else []
  | _ => []
  end.

Fixpoint reported (s : Stream) (acts : list action) : list entry :=
  match acts with
  | [] => []
  | a :: acts => accepted s a ++ reported (act s a) acts
  end.

(** The operations on the store in a run, the generator's own among them. *)
Definition ops_of (s : Stream) (a : action) : list op :=
  match a with
  | StoreOp o => [o]
  | _ => drop (length (own_ops s)) (own_ops (act s a))
  end.

Fixpoint store_ops (s : Stream) (acts : list action) : list op :=
  match acts with
  | [] => []
  | a :: acts => ops_of s a ++ store_ops (act s a) acts
  end.

(** A consumer that keeps reading, with the queue answering when it can. *)
Definition consume (t : Tick) (s : Stream) : action :=
  match pc s with
  | Waiting => match page_queue s with [] => Timeout_ | _ => Item end
  | _ => Next t
  end.

Fixpoint drain (t : Tick) (n : nat) (s : Stream) : Stream :=
  match n with
  | O => s
  | S n => drain t n (act s (consume t s))
  end.

End Stream.
Arguments Stream DB : clear implicits.

(** ** What a run has sent *)

Definition ids (l : list chunk) : list Z := omap (fun ch => match ch with Event n _ => Some n | _ => None end) l.
Definition payloads (l : list chunk) : list json := omap (fun ch => match ch with Event _ p => Some p | _ => None end) l.

Definition has_type (k : string) (p : json) : bool := match jget p "type" with JStr t => String.eqb t k | _ => false end.

(** The pages and errors among the events, and the number of pages. *)
Definition items (l : list chunk) : list json := List.filter (fun p => has_type "page" p || has_type "error" p) (payloads l).
Definition pages_in (l : list chunk) : Z := Z.of_nat (length (List.filter (has_type "page") (payloads l))).

(** After the final event nothing is sent. *)
Definition final (p : Pc) : bool := match p with LastSent | Ended | Closed => true | _ => false end.
Definition live (p : Pc) : bool := match p with Ended | CancelRaised | Closed => false | _ => true end.

(** The page that is sent and not counted yet. *)
Definition uncounted (p : Pc) : Z := match p with PageSent => 1 | _ => 0 end.

#[local] Arguments items : simpl never.
#[local] Arguments pages_in : simpl never.
#[local] Arguments ids : simpl never.

Section Invariant.
Context {DB : Type} `{!Valkey key value DB}.
Context (cjson : json -> json) (c : option Context_) (job url : string) (max_pages : Z).
Notation act := (act cjson c job url max_pages).
Notation stream_run := (stream_run cjson c job url max_pages).
Notation finish := (finish cjson c job url).
Notation loop_head := (loop_head cjson c job url).

(** Everything reported is either in an event or still in the queue. *)
Definition delivered (s : Stream DB) (acc : list entry) : Prop :=
  exists read, acc = read ++ page_queue s /\
    (items (sent s) = entry_payload <$> read \/
     exists msg, crawl_task s = TaskDone (Crashed msg) /\ page_queue s = [] /\ final (pc s) = true /\
       items (sent s) = (entry_payload <$> read) ++ [failure_payload url msg]).

Record inv (s : Stream DB) (acc : list entry) : Prop := {
  i_ids : ids (sent s) = seqZ 1 (event_id s);
  i_nonneg : 0 <= event_id s;
  i_items : delivered s acc;
  i_count : live (pc s) = true -> pages_in (sent s) = pages_yielded s + uncounted (pc s);
  i_progress : forall i n p, sent s !! i = Some (Event n p) -> has_type "progress" p = true ->
    jget p "completed" = JNum (pages_in (take i (sent s)));
  i_done : forall n p, Event n p ∈ sent s -> has_type "done" p = true ->
    final (pc s) = true /\ page_queue s = [] /\ last (sent s) = Some (Event n p) /\
    exists r st ms, crawl_task s = TaskDone (Finished r) /\ p = done_payload job st r ms;
  i_final : final (pc s) = true -> is_running s = false;
  i_started : crawl_task s = NotCreated -> pc s = Unstarted \/ pc s = Closed;
  i_unstarted : pc s = Unstarted -> page_queue s = [] /\ crawl_task s = NotCreated /\ items (sent s) = []
}.

Lemma payloads_snoc l n p : payloads (l ++ [Event n p]) = payloads l ++ [p].
Proof. unfold payloads. by rewrite omap_app. Qed.

Lemma ids_snoc l n p : ids (l ++ [Event n p]) = ids l ++ [n].
Proof. unfold ids. by rewrite omap_app. Qed.

Lemma items_snoc l n p : items (l ++ [Event n p]) = items l ++ (if has_type "page" p || has_type "error" p then [p] else []).
Proof. unfold items. rewrite payloads_snoc, List.filter_app. cbn. by destruct (_ || _). Qed.

Lemma pages_snoc l n p : pages_in (l ++ [Event n p]) = pages_in l + (if has_type "page" p then 1 else 0).
Proof. unfold pages_in. rewrite payloads_snoc, List.filter_app. cbn. destruct (has_type _ _); rewrite length_app; cbn; lia. Qed.

Lemma seqZ_snoc n : 0 <= n -> seqZ 1 (n + 1) = seqZ 1 n ++ [n + 1].
Proof.
  intros H. rewrite seqZ_app by lia. replace (1 + n) with (n + 1) by lia.
  by change (seqZ (n + 1) 1) with [n + 1].
Qed.

(** What one more event asks of the invariant. *)
Lemma inv_emit s s' acc p q :
  inv s acc -> final (pc s) = false ->
  event_id s' = event_id s + 1 -> sent s' = sent s ++ [Event (event_id s + 1) p] -> pc s' = q ->
  delivered s' acc ->
  (live q = true -> pages_in (sent s) + (if has_type "page" p then 1 else 0) = pages_yielded s' + uncounted q) ->
  (has_type "progress" p = true -> jget p "completed" = JNum (pages_in (sent s))) ->
  (has_type "done" p = true -> final q = true /\ page_queue s' = [] /\
     exists r st ms, crawl_task s' = TaskDone (Finished r) /\ p = done_payload job st r ms) ->
  (final q = true -> is_running s' = false) ->
  crawl_task s' <> NotCreated -> q <> Unstarted -> inv s' acc.
Proof.
  intros [] Hf He Hs Hq Hd Hc Hp Hdone Hl Ht Hu. rewrite <- Hq in *.
  assert (Hin : forall n r, Event n r ∈ sent s -> has_type "done" r = true -> False).
  { intros n r H1 H2. destruct (i_done0 n r H1 H2) as (H & _). congruence. }
  split; try done; rewrite ?He, ?Hs.
  - by rewrite ids_snoc, i_ids0, seqZ_snoc.
  - lia.
  - intros L. rewrite pages_snoc. auto.
  - intros i n r Hi Hr. apply lookup_app_Some in Hi as [Hi|[Hi1 Hi]].
    + rewrite take_app_le; [eauto|]. apply lookup_lt_Some in Hi. lia.
    + apply list_lookup_singleton_Some in Hi as [Hi Heq]. simplify_eq.
      rewrite take_app_ge by lia. replace (i - length (sent s))%nat with 0%nat by lia. cbn. rewrite app_nil_r. auto.
  - intros n r Hi Hr. apply elem_of_snoc in Hi as [Hi|Hi]; [by destruct (Hin n r)|]. simplify_eq.
    destruct (Hdone Hr) as (? & ? & ?). split_and!; [done|done|by rewrite last_snoc|done].
Qed.

(** A step that sends nothing. *)
Lemma inv_quiet s s' acc acc' :
  inv s acc -> sent s' = sent s -> event_id s' = event_id s -> delivered s' acc' ->
  (live (pc s') = true -> pages_in (sent s) = pages_yielded s' + uncounted (pc s')) ->
  (final (pc s) = true -> final (pc s') = true /\ page_queue s' = page_queue s /\ crawl_task s' = crawl_task s) ->
  (final (pc s') = true -> is_running s' = false) ->
  (crawl_task s' = NotCreated -> pc s' = Unstarted \/ pc s' = Closed) ->
  (pc s' = Unstarted -> page_queue s' = [] /\ crawl_task s' = NotCreated /\ items (sent s) = []) -> inv s' acc'.
Proof.
  intros [] Hs He Hd Hc Hf Hl Ht Hu. split; try done; rewrite ?Hs, ?He; try done.
  intros n p Hi Hp. destruct (i_done0 n p Hi Hp) as (F & Q & L & r & st & ms & T & E).
  destruct (Hf F) as (-> & -> & ->). split_and!; eauto 10.
Qed.

Lemma delivered_ext s s' acc : delivered s acc -> page_queue s' = page_queue s -> sent s' = sent s ->
  crawl_task s' = crawl_task s -> (final (pc s) = true -> final (pc s') = true) -> delivered s' acc.
Proof.
  intros (read & -> & H) Hq Hs Ht Hf. exists read. rewrite Hq, Hs, Ht. split; [done|].
  destruct H as [H|(msg & ? & ? & ? & ?)]; [by left|right]. exists msg. auto.
Qed.

(** Before the final event the events are those of what was read. *)
Lemma delivered_live s acc : delivered s acc -> final (pc s) = false ->
  exists read, acc = read ++ page_queue s /\ items (sent s) = entry_payload <$> read.
Proof. intros (read & -> & [H|(msg & _ & _ & H & _)]) Hf; [eauto|congruence]. Qed.

Lemma running_task (s : Stream DB) : is_running s = true -> crawl_task s = Running.
Proof. unfold is_running. by destruct (crawl_task s). Qed.

(** While the engine runs nothing final was sent. *)
Lemma running_live s acc : inv s acc -> is_running s = true -> final (pc s) = false /\ pc s <> Unstarted.
Proof.
  intros H R. split.
  - destruct (final (pc s)) eqn:F; [|done]. apply (i_final _ _ H) in F. congruence.
  - intros U. apply (i_unstarted _ _ H) in U as (_ & T & _). unfold is_running in R. by rewrite T in R.
Qed.

Lemma inv_put s acc e : inv s acc -> inv (put e s) (acc ++ (if is_running s then [e] else [])).
Proof.
  intros H. unfold put. destruct (is_running s) eqn:R; [|by rewrite app_nil_r].
  pose proof (running_task _ R) as T. destruct (running_live _ _ H R) as [F U].
  apply (inv_quiet s _ acc); try done; cbn; [|apply (i_count _ _ H)|congruence|congruence|congruence].
  destruct (delivered_live _ _ (i_items _ _ H) F) as (read & -> & E).
  exists read. cbn. split; [by rewrite app_assoc|by left].
Qed.

Lemma inv_ends s acc o : inv s acc -> inv (if is_running s then with_task (TaskDone o) s else s) acc.
Proof.
  intros H. destruct (is_running s) eqn:R; [|done].
  destruct (running_live _ _ H R) as [F U].
  apply (inv_quiet s _ acc); try done; cbn; [|apply (i_count _ _ H)|congruence].
  destruct (delivered_live _ _ (i_items _ _ H) F) as (read & -> & E). exists read. split; [done|by left].
Qed.

Lemma inv_db s acc d : inv s acc -> inv (with_db d s) acc.
Proof. intros []. by split. Qed.

Lemma inv_cancelled t s acc : inv s acc -> live (pc s) = true -> final (pc s) = false ->
  crawl_task s <> NotCreated -> inv (on_cancelled cjson job t s) acc.
Proof.
  intros H L F N. destruct (delivered_live _ _ (i_items _ _ H) F) as (read & Ha & E).
  unfold on_cancelled. cbv zeta.
  set (s1 := if match job_status job s with Some st => is_terminal st | None => false end then s else _).
  assert (H1 : page_queue s1 = page_queue s /\ sent s1 = sent s /\ event_id s1 = event_id s /\ crawl_task s1 = crawl_task s)
    by (unfold s1; by destruct (match job_status job s with Some st => _ | None => _ end)).
  clearbody s1. destruct H1 as (Q1 & S1 & E1 & T1).
  apply (inv_quiet s _ acc); try done; cbn; rewrite ?F; try done.
  - destruct (crawl_task s1); cbn; done.
  - destruct (crawl_task s1); cbn; done.
  - exists read. destruct (crawl_task s1); cbn; rewrite ?Q1, ?S1; split; auto.
  - intros T. exfalso. rewrite T1 in T. destruct (crawl_task s) eqn:X; cbn in T; congruence.
Qed.

(** The final event of a crawl that ended. *)
Lemma sinv_finish t s acc : inv s acc -> live (pc s) = true -> final (pc s) = false -> uncounted (pc s) = 0 ->
  page_queue s = [] -> is_running s = false -> crawl_task s <> NotCreated -> inv (finish t s) acc.
Proof.
  intros H L F U Q R N. destruct (delivered_live _ _ (i_items _ _ H) F) as (read & Ha & E).
  pose proof (i_count _ _ H L) as C. rewrite U, Z.add_0_r in C.
  unfold CrawlStream.finish. unfold is_running in R. destruct (crawl_task s) as [| |[r|msg|]] eqn:T; try done.
  - cbv zeta. case_bool_decide; (eapply (inv_emit s _ acc _ LastSent H F); [done..| | | | | | |]); cbn; rewrite ?T; try done.
    1,5: exists read; cbn; split; [done|left]; by rewrite items_snoc, app_nil_r.
    1,4: intros _; by rewrite C.
    1,3: intros _; split_and!; [done|done|]; eauto 10.
    all: intros _; unfold is_running; cbn; by rewrite T.
  - eapply (inv_emit s _ acc _ LastSent H F); [done..| | | | | | |]; cbn; rewrite ?T; try done; [|intros _; by rewrite C|intros _; unfold is_running; cbn; by rewrite T].
    exists read. cbn. split; [done|right]. exists msg. rewrite items_snoc. cbn. by rewrite E.
  - apply inv_cancelled; try done. by rewrite T.
Qed.

Lemma inv_loop t s acc : inv s acc -> live (pc s) = true -> final (pc s) = false -> uncounted (pc s) = 0 ->
  crawl_task s <> NotCreated -> inv (loop_head t s) acc.
Proof.
  intros H L F U N. unfold CrawlStream.loop_head. destruct (is_running s || _) eqn:B.
  - apply (inv_quiet s _ acc); try done; cbn.
    + apply (delivered_ext s); [apply (i_items _ _ H)|done..|congruence].
    + intros _. rewrite (i_count _ _ H L). by rewrite U.
    + congruence.
  - apply orb_false_iff in B as [R Q]. apply negb_false_iff, bool_decide_eq_true in Q. by apply sinv_finish.
Qed.

Lemma inv_counts s acc : inv s acc -> pc s = PageSent -> inv (at_pc EventSent (with_counts (pages_yielded s + 1) (last_progress_count s) s)) acc.
Proof.
  intros H P. pose proof (i_count _ _ H) as C. rewrite P in C. specialize (C eq_refl). cbn in C.
  apply (inv_quiet s _ acc); try done; cbn; rewrite ?P; try done.
  - apply (delivered_ext s); [apply (i_items _ _ H)|done..|by rewrite P].
  - intros _. rewrite C. lia.
  - intros [X|X]%(i_started _ _ H); congruence.
Qed.

Lemma loop_head_pc t p s : crawl_task s <> NotCreated -> loop_head t (at_pc p s) = loop_head t s.
Proof.
  intros N. unfold CrawlStream.loop_head. change (is_running (at_pc p s)) with (is_running s). cbn.
  destruct (is_running s || _) eqn:B; [done|]. apply orb_false_iff in B as [R _]. unfold CrawlStream.finish, is_running in *. cbn.
  change (job_status job (at_pc p s)) with (job_status job s).
  destruct (crawl_task s) as [| |[r|msg|]] eqn:T; try done.
  - by case_bool_decide.
  - unfold on_cancelled. change (job_status job (at_pc p s)) with (job_status job s). cbv zeta.
    destruct (match job_status job s with Some st => _ | None => _ end); cbn; by rewrite T.
Qed.

Lemma inv_after_page t s acc : inv s acc -> pc s = PageSent -> inv (after_page cjson c job url t s) acc.
Proof.
  intros H P. pose proof (i_count _ _ H) as C. rewrite P in C. specialize (C eq_refl). cbn in C.
  destruct (delivered_live _ _ (i_items _ _ H)) as (read & Ha & E); [by rewrite P|].
  assert (N : crawl_task s <> NotCreated) by (intros [X|X]%(i_started _ _ H); congruence).
  unfold after_page. cbv zeta. destruct (PROGRESS_INTERVAL <=? _).
  - eapply (inv_emit s _ acc _ EventSent H); [by rewrite P|done..| | | | | | |]; try done.
    + exists read. cbn. split; [done|left]. by rewrite items_snoc, app_nil_r.
    + intros _. rewrite C. change (pages_yielded s + 1 + 0 = pages_yielded s + 1 + 0). done.
    + intros _. by rewrite C.
  - rewrite <- (loop_head_pc t EventSent) by done. by apply (inv_loop t _ _ (inv_counts _ _ H P)).
Qed.

Lemma inv_next t s acc : inv s acc -> inv (next cjson c job url max_pages t s) acc.
Proof.
  intros H. unfold next. destruct (pc s) eqn:P; try done.
  - destruct (i_unstarted _ _ H P) as (Q & T & I). unfold start, CrawlStream.loop_head. cbn.
    apply (inv_quiet s _ acc); try done; cbn; rewrite ?P; try done.
    + destruct (delivered_live _ _ (i_items _ _ H)) as (read & -> & E); [by rewrite P|]. exists read. cbn. auto.
    + intros _. rewrite (i_count _ _ H) by (by rewrite P). by rewrite P.
  - destruct (delivered_live _ _ (i_items _ _ H)) as (read & Ha & E); [by rewrite P|].
    pose proof (i_count _ _ H) as C. rewrite P in C. cbn in C. specialize (C eq_refl). rewrite Z.add_0_r in C.
    assert (N : crawl_task s <> NotCreated) by (intros [X|X]%(i_started _ _ H); congruence).
    eapply (inv_emit s _ acc _ EventSent H); [by rewrite P|done..| | | | | | |]; try done.
    + exists read. cbn. split; [done|left]. by rewrite items_snoc, app_nil_r.
    + intros _. by rewrite C.
    + intros _. by rewrite C.
  - apply inv_loop; rewrite ?P; try done. intros [X|X]%(i_started _ _ H); congruence.
  - by apply inv_after_page.
  - apply (inv_quiet s _ acc); try done; cbn; rewrite ?P; try done.
    + apply (delivered_ext s); [apply (i_items _ _ H)|done..].
    + intros _. apply (i_final _ _ H). by rewrite P.
    + intros [X|X]%(i_started _ _ H); congruence.
Qed.

Lemma inv_item s acc : inv s acc -> inv (item s) acc.
Proof.
  intros H. unfold item. destruct (pc s) eqn:P; try done. destruct (page_queue s) as [|e q] eqn:Q; [done|].
  destruct (delivered_live _ _ (i_items _ _ H)) as (read & Ha & E); [by rewrite P|].
  pose proof (i_count _ _ H) as C. rewrite P in C. cbn in C. specialize (C eq_refl). rewrite Z.add_0_r in C.
  assert (N : crawl_task s <> NotCreated) by (intros [X|X]%(i_started _ _ H); congruence).
  assert (D : forall p pc', has_type "page" p || has_type "error" p = true -> p = entry_payload e ->
    delivered (emit p pc' (with_queue q s)) acc).
  { intros p pc' Hp ->. exists (read ++ [e]). cbn. rewrite Ha, Q. split; [by rewrite <- app_assoc|left].
    by rewrite items_snoc, Hp, E, fmap_app. }
  cbv zeta. unfold entry_payload in D. destruct (is_error e) eqn:B.
  - eapply (inv_emit s _ acc _ EventSent H); [by rewrite P|done..| | | | | | |]; try done; [by apply D|].
    intros _. by rewrite C.
  - eapply (inv_emit s _ acc _ PageSent H); [by rewrite P|done..| | | | | | |]; try done; [by apply D|].
    intros _. by rewrite C.
Qed.

Lemma inv_beat s acc : inv s acc -> pc s = Waiting -> inv (beat s) acc.
Proof.
  intros H P. assert (I : items (sent s ++ [Heartbeat]) = items (sent s)) by (unfold items, payloads; by rewrite omap_app, app_nil_r).
  assert (G : pages_in (sent s ++ [Heartbeat]) = pages_in (sent s)) by (unfold pages_in, payloads; by rewrite omap_app, app_nil_r).
  destruct H. split; cbn; try done.
  - unfold ids. rewrite omap_app. cbn. by rewrite app_nil_r.
  - destruct i_items0 as (read & Ha & [E|(msg & _ & _ & F & _)]); [|by rewrite P in F]. exists read. cbn. rewrite I. auto.
  - intros _. rewrite G, i_count0 by (by rewrite P). by rewrite P.
  - intros i n p [Hi|[Hl Hi]]%lookup_app_Some Hp; [|by apply list_lookup_singleton_Some in Hi as [_ ?]].
    rewrite take_app_le; [eauto|]. apply lookup_lt_Some in Hi. lia.
  - intros n p [Hi|Hi]%elem_of_snoc Hp; [|done]. destruct (i_done0 n p Hi Hp) as (F & _). by rewrite P in F.
  - intros [X|X]%i_started0; congruence.
Qed.

Lemma inv_close s acc : inv s acc -> inv (close s) acc.
Proof.
  intros H. unfold close.
  assert (L : forall s', sent s' = sent s -> event_id s' = event_id s -> page_queue s' = page_queue s -> pc s' = Closed ->
    (crawl_task s' = crawl_task s /\ is_running s = false \/ is_running s = true /\ crawl_task s' = TaskDone TaskCancelled) -> inv s' acc).
  { intros s' Hs He Hq Hp HT. apply (inv_quiet s _ acc); rewrite ?Hp; try done.
    - destruct HT as [[T _]|[R _]]; [apply (delivered_ext s); try done; [apply (i_items _ _ H)|by rewrite Hp]|].
      destruct (running_live _ _ H R) as [F _]. destruct (delivered_live _ _ (i_items _ _ H) F) as (read & ? & ?).
      exists read. rewrite Hq, Hs. auto.
    - intros F. split_and!; try done. destruct HT as [[T _]|[R _]]; [done|]. apply (i_final _ _ H) in F. congruence.
    - intros _. destruct HT as [[T R]|[_ T]]; unfold is_running in *; by rewrite T.
    - by right. }
  destruct (pc s) eqn:P; try done; [apply L; try done; left; split; [done|]; destruct (i_unstarted _ _ H P) as (_ & T & _);
    unfold is_running; by rewrite T|..]; destruct (is_running s) eqn:R; apply L; auto.
Qed.

Lemma inv_act s a acc : inv s acc -> inv (act s a) (acc ++ accepted s a).
Proof.
  intros H. destruct a; cbn -[put item next close]; rewrite ?app_nil_r.
  - by apply inv_put.
  - by apply inv_put.
  - by apply inv_ends.
  - by apply inv_db.
  - by apply inv_next.
  - by apply inv_item.
  - destruct (pc s) eqn:P; try done. by apply inv_beat.
  - destruct (pc s) eqn:P; try done. apply inv_cancelled; rewrite ?P; try done.
    intros [X|X]%(i_started _ _ H); congruence.
  - by apply inv_close.
Qed.

Lemma sinv_run s acts acc : inv s acc -> inv (stream_run s acts) (acc ++ reported cjson c job url max_pages s acts).
Proof.
  revert s acc. induction acts as [|a acts IH]; intros s acc H; cbn -[reported]; [cbn; by rewrite app_nil_r|].
  cbn [reported]. rewrite app_assoc. apply IH. by apply inv_act.
Qed.

Lemma sinv_init d : inv (init d) [].
Proof. split; try done; [exists []; split; [done|by left]|by intros n p H%not_elem_of_nil|by left]. Qed.

End Invariant.

(** ** The event-stream format

    A reference decoder, from the rules of the format: lines end with a line feed, a
    carriage return or both; a line that starts with a colon is a comment; [id] sets
    the last event identifier, [data] adds a line to the data; an empty line
    dispatches the event unless its data is empty; an unfinished event is dropped. *)

Definition is_lf (ch : ascii) : bool := Nat.eqb (chr ch) 10.
Definition is_cr (ch : ascii) : bool := Nat.eqb (chr ch) 13.

Definition push_char (ch : ascii) (l : list string) : list string :=
  match l with
  | [] => [String ch EmptyString]
  | x :: l => String ch x :: l
  end.

(** The finished lines, and last the unfinished one. *)
Fixpoint sse_lines (after_cr : bool) (s : string) : list string :=
  match s with
  | EmptyString => [EmptyString]
  | String ch s =>
      if is_lf ch then (if after_cr then sse_lines false s else EmptyString :: sse_lines false s)
      else if is_cr ch then EmptyString :: sse_lines true s
      else push_char ch (sse_lines false s)
  end.

Record SseState := mkSse { last_id : string; data : option string }.

(** The value of a field: one leading space is dropped. *)
Definition field_value (s : string) : string := if starts_with " " s then sdrop 1 s else s.

(** One line: the state after it, and the event it dispatches. *)
Definition sse_line (st : SseState) (line : string) : SseState * option (string * string) :=
  if is_empty line then
    match data st with
    | Some d => (mkSse (last_id st) None, Some (last_id st, d))
    | None => (st, None)
    end
  else
    let '(name, found, rest) := partition ":" line in
    if is_empty name && found then (st, None)
    else let v := field_value rest in
      if String.eqb name "id" then (mkSse v (data st), None)
      else if String.eqb name "data" then
        (mkSse (last_id st) (Some (match data st with Some d => d +:+ LF +:+ v | None => v end)), None)
      else (st, None).

Fixpoint sse_events (st : SseState) (lines : list string) : list (string * string) :=
  match lines with
  | [] | [_] => []
  | line :: lines =>
      let '(st, e) := sse_line st line in
      match e with Some e => e :: sse_events st lines | None => sse_events st lines end
  end.

Definition sse_decode (text : string) : list (string * string) := sse_events (mkSse "" None) (sse_lines false text).

(** The events a reader should see: each with the last identifier. *)
Fixpoint events_of (last : string) (l : list chunk) : list (string * string) :=
  match l with
  | [] => []
  | Heartbeat :: l => events_of last l
  | Event n p :: l => (pretty n, dumps p) :: events_of (pretty n) l
  | DoneMark :: l => (last, "[DONE]") :: events_of last l
  end.

(** What the connection carries. *)
Definition text_of (l : list chunk) : string := foldr (fun ch t => render ch +:+ t) EmptyString l.

Section Format.

Definition one_line (s : string) : bool := sforall (fun ch => negb (is_lf ch || is_cr ch)) s.

Lemma lines_app s t : one_line s = true -> sse_lines false (s +:+ LF +:+ t) = s :: sse_lines false t.
Proof.
  induction s as [|ch s IH]; [done|]. intros [H1 H2]%andb_true_iff.
  apply negb_true_iff, orb_false_iff in H1 as [E1 E2]. rewrite sapp_cons. cbn [sse_lines]. by rewrite E1, E2, IH.
Qed.

Lemma lines_blank t : sse_lines false (LF +:+ t) = EmptyString :: sse_lines false t.
Proof. done. Qed.

Lemma one_line_app s t : one_line (s +:+ t) = one_line s && one_line t.
Proof. apply sforall_app. Qed.

(** [json.dumps] writes no line end. *)
Lemma one_line_esc s : one_line (esc s) = true.
Proof.
  induction s as [|ch s IH]; [done|]. cbn [esc]. rewrite one_line_app, IH, andb_true_r.
  destruct ch as [[] [] [] [] [] [] [] []]; reflexivity.
Qed.

Lemma one_line_str s : one_line (dumps_str s) = true.
Proof. unfold dumps_str. cbv zeta. by rewrite !one_line_app, one_line_esc. Qed.

Lemma one_line_join sep l : one_line sep = true -> Forall (fun s => one_line s = true) l -> one_line (sjoin sep l) = true.
Proof.
  intros Hs H. induction H as [|x l Hx Hl IH]; [done|]. destruct l; [done|].
  change (sjoin sep (x :: s :: l)) with (x +:+ sep +:+ sjoin sep (s :: l)). by rewrite !one_line_app, Hx, Hs, IH.
Qed.

Lemma one_line_pretty (z : Z) : one_line (pretty z) = true.
Proof.
  assert (H : forall n : N, one_line (pretty n) = true).
  { intros n. apply pretty_N_forall. intros ch. unfold is_digit, is_lf, is_cr. intros [H1%Nat.leb_le H2%Nat.leb_le]%andb_true_iff.
    apply negb_true_iff, orb_false_iff. split; apply Nat.eqb_neq; lia. }
  destruct z as [|p|p]; [done|apply H|]. change (one_line ("-" +:+ pretty (N.pos p)) = true). by rewrite one_line_app, H.
Qed.

Lemma one_line_dumps : forall j, one_line (dumps j) = true.
Proof.
  fix IH 1. intros [| [] |n|s|l|l]; [done..|apply one_line_pretty|apply one_line_str| |].
  - unfold dumps. cbn [dumps_with]. rewrite !one_line_app, andb_true_r. apply one_line_join; [done|].
    induction l as [|j l IHl]; constructor; [apply IH|exact IHl].
  - unfold dumps. cbn [dumps_with]. rewrite !one_line_app, andb_true_r. apply one_line_join; [done|].
    induction l as [|[k j] l IHl]; constructor; [|exact IHl]. cbn [fst snd].
    rewrite !one_line_app, one_line_str. apply IH.
Qed.

(** The lines of a chunk. *)
Definition chunk_lines (ch : chunk) : list string :=
  match ch with
  | Heartbeat => [": heartbeat"; ""]
  | Event n p => ["id: " +:+ pretty n; "data: " +:+ dumps p; ""]
  | DoneMark => ["data: [DONE]"; ""]
  end.

Lemma render_lines ch t : sse_lines false (render ch +:+ t) = chunk_lines ch ++ sse_lines false t.
Proof.
  destruct ch as [|n p|]; cbn [render chunk_lines app]; rewrite ?sapp_assoc.
  - rewrite lines_app by done. by rewrite lines_blank.
  - rewrite <- (sapp_assoc "id: "), <- (sapp_assoc "data: ").
    rewrite lines_app by (by rewrite one_line_app, one_line_pretty).
    rewrite lines_app by (by rewrite one_line_app, one_line_dumps). by rewrite lines_blank.
  - rewrite lines_app by done. by rewrite lines_blank.
Qed.

Lemma lines_cons b s : exists x l, sse_lines b s = x :: l.
Proof.
  revert b. induction s as [|ch s IH]; intros b; cbn; [eauto|]. destruct (is_lf ch); [destruct b; eauto|].
  destruct (is_cr ch); [eauto|]. destruct (IH false) as (x & l & ->). cbn. eauto.
Qed.

(** A chunk dispatches its event and leaves no data behind. *)
Lemma sse_chunk ch last l : (exists x l', l = x :: l') ->
  sse_events (mkSse last None) (chunk_lines ch ++ l) =
  match ch with
  | Heartbeat => sse_events (mkSse last None) l
  | Event n p => (pretty n, dumps p) :: sse_events (mkSse (pretty n) None) l
  | DoneMark => (last, "[DONE]") :: sse_events (mkSse last None) l
  end.
Proof. intros (x & l' & ->). by destruct ch. Qed.

Lemma sse_decode_chunks last l : sse_events (mkSse last None) (sse_lines false (text_of l)) = events_of last l.
Proof.
  revert last. induction l as [|ch l IH]; intros last; [done|]. cbn [text_of foldr]. rewrite render_lines.
  rewrite sse_chunk by apply lines_cons. cbn [events_of]. destruct ch; by rewrite <- IH.
Qed.

End Format.

Section Theorems.
Context {DB : Type} `{!Valkey key value DB} `{!ValkeyLaws key value DB}.
Context (cjson : json -> json) (c : option Context_) (job url : string) (max_pages : Z).
Notation act := (act cjson c job url max_pages).
Notation stream_run := (stream_run cjson c job url max_pages).
Notation reported := (reported cjson c job url max_pages).
Notation store_ops := (store_ops cjson c job url max_pages).
Notation finish := (finish cjson c job url).
Notation loop_head := (loop_head cjson c job url).
Notation drain := (drain cjson c job url max_pages).
Notation inv := (inv job url).

(** *** The end of a stream *)

(** The last event says how the crawl ended. *)
Definition closing_event (s : Stream DB) : Prop :=
  match crawl_task s with
  | TaskDone (Finished r) => exists n st ms, last (sent s) = Some (Event n (done_payload job st r ms))
  | TaskDone (Crashed msg) => exists n, last (sent s) = Some (Event n (failure_payload url msg))
  | _ => False
  end.

Definition closing (s : Stream DB) : Prop := pc s = LastSent \/ pc s = Ended -> closing_event s.

Lemma closing_finish t s : is_running s = false -> crawl_task s <> NotCreated -> closing (finish t s).
Proof.
  unfold is_running, CrawlStream.finish. intros R N. destruct (crawl_task s) as [| |[r|msg|]] eqn:T; try done.
  - intros _. unfold closing_event. cbv zeta. case_bool_decide; cbn; rewrite T, last_snoc; eauto.
  - intros _. unfold closing_event. cbn. rewrite T, last_snoc. eauto.
  - intros [H|H]; unfold on_cancelled in H; done.
Qed.

Lemma closing_loop t s : crawl_task s <> NotCreated -> closing (loop_head t s).
Proof.
  intros N. unfold CrawlStream.loop_head. destruct (is_running s) eqn:R; cbn; [by intros [|]|].
  destruct (negb _); [by intros [|]|]. by apply closing_finish.
Qed.

Lemma closing_act s a acc : inv s acc -> closing s -> closing (act s a).
Proof.
  intros H C.
  assert (N : pc s <> Unstarted -> pc s <> Closed -> crawl_task s <> NotCreated) by (intros ?? []%(i_started _ _ _ _ H); done).
  destruct a; cbn -[next close].
  - unfold put. destruct (is_running s); [exact C|done].
  - unfold put. destruct (is_running s); [exact C|done].
  - destruct (is_running s) eqn:R; [|done]. intros F. destruct (running_live _ _ _ _ H R) as [F' _].
    by destruct F as [F|F]; cbn in F; rewrite F in F'.
  - exact C.
  - unfold next. destruct (pc s) eqn:P; try done.
    + unfold start. by apply closing_loop.
    + by intros [|].
    + apply closing_loop. by apply N.
    + unfold after_page. cbv zeta. destruct (_ <=? _); [by intros [|]|]. apply closing_loop. by apply N.
    + intros _. apply C. by left.
  - unfold item. destruct (pc s), (page_queue s); try done. cbv zeta. by destruct (is_error _); intros [|].
  - destruct (pc s) eqn:P; try done. by intros [|].
  - destruct (pc s) eqn:P; try done. by intros [|].
  - unfold close. destruct (pc s) eqn:P; try done; try (destruct (is_running s)); by intros [|].
Qed.

Lemma closing_run d acts : closing (stream_run (init d) acts).
Proof.
  assert (G : forall s acc, inv s acc -> closing s -> closing (stream_run s acts)); [|eapply G; [apply sinv_init|by intros [|]]].
  induction acts as [|a acts IH]; intros s acc H C; [done|]. cbn. eapply IH; [by apply inv_act|by eapply closing_act].
Qed.

(** How many reads a consumer still has to make. *)
Definition rank (s : Stream DB) : nat :=
  let n := length (page_queue s) in
  match pc s with
  | Unstarted | Ended | CancelRaised | Closed => 0
  | LastSent => 1
  | EventSent => 3 * n + 2
  | PageSent | BeatSent => 3 * n + 3
  | Waiting => match page_queue s with [] => 4 | _ => 3 * n + 1 end
  end.

Lemma finish_drained t s o : crawl_task s = TaskDone o ->
  crawl_task (finish t s) = TaskDone o /\ (pc (finish t s) = LastSent \/ o = TaskCancelled /\ pc (finish t s) = CancelRaised).
Proof.
  intros T. unfold CrawlStream.finish. rewrite T. destruct o as [r|msg|].
  - cbv zeta. case_bool_decide; cbn; auto.
  - cbn. auto.
  - unfold on_cancelled. cbv zeta. destruct (match job_status job s with Some st => _ | None => _ end); cbn; rewrite T; auto.
Qed.

Lemma loop_drained t s o : crawl_task s = TaskDone o -> live (pc s) = true -> pc s <> Unstarted ->
  let s' := loop_head t s in
  crawl_task s' = TaskDone o /\ (rank s' < 3 * length (page_queue s) + 2)%nat /\
  (live (pc s') = true /\ pc s' <> Unstarted \/ o = TaskCancelled /\ pc s' = CancelRaised).
Proof.
  intros T L U. unfold CrawlStream.loop_head, is_running. rewrite T. cbn.
  destruct (page_queue s) as [|e q] eqn:Q; cbn.
  - destruct (finish_drained t s o T) as (T' & [P|[E P]]); unfold rank; rewrite P; split_and!; try lia; auto.
  - unfold rank. cbn. rewrite Q. cbn. split_and!; try lia; auto.
Qed.

Lemma drain_step t s o : crawl_task s = TaskDone o -> live (pc s) = true -> pc s <> Unstarted ->
  let s' := act s (consume t s) in
  crawl_task s' = TaskDone o /\ (rank s' < rank s)%nat /\
  (live (pc s') = true /\ pc s' <> Unstarted \/ pc s' = Ended \/ o = TaskCancelled /\ pc s' = CancelRaised).
Proof.
  intros T L U. unfold consume. destruct (pc s) eqn:P; try done; cbn -[next].
  - destruct (page_queue s) as [|e q] eqn:Q; cbn -[beat item]; rewrite ?P.
    + unfold rank. cbn. rewrite P, Q. cbn. split_and!; auto; lia.
    + unfold item. rewrite P, Q. cbv zeta. unfold rank. rewrite P, Q. destruct (is_error e); cbn; split_and!; auto; lia.
  - unfold next. rewrite P. unfold rank. cbn. rewrite P. split_and!; auto; lia.
  - unfold next. rewrite P. destruct (loop_drained t s o T) as (T' & R & D); [by rewrite P..|].
    unfold rank at 2. rewrite P. split_and!; [done|done|naive_solver].
  - unfold next. rewrite P. unfold after_page. cbv zeta. unfold rank at 2. rewrite P. destruct (_ <=? _).
    + unfold rank. cbn. split_and!; auto; lia.
    + match goal with |- context [loop_head t ?x] => destruct (loop_drained t x o T) as (T' & R & D); [cbn; by rewrite P..|] end.
      cbn in R. split_and!; [done|lia|naive_solver].
  - unfold next. rewrite P. unfold rank. cbn. rewrite P. split_and!; auto; lia.
Qed.

Lemma drain_still t n s : live (pc s) = false -> drain t n s = s.
Proof.
  intros L. induction n as [|n IH]; [done|]. cbn. replace (act s (consume t s)) with s; [done|].
  unfold consume. destruct (pc s) eqn:P; try done; cbn; unfold next; by rewrite P.
Qed.

Lemma drain_ends t n s o : crawl_task s = TaskDone o -> live (pc s) = true -> pc s <> Unstarted -> (rank s <= n)%nat ->
  crawl_task (drain t n s) = TaskDone o /\
  (pc (drain t n s) = Ended \/ o = TaskCancelled /\ pc (drain t n s) = CancelRaised).
Proof.
  revert s. induction n as [|n IH]; intros s T L U R.
  - exfalso. unfold rank in R. destruct (pc s); try done; try lia. destruct (page_queue s); cbn in R; lia.
  - cbn. destruct (drain_step t s o T L U) as (T' & R' & [[L' U']|E]); [apply IH; try done; lia|].
    rewrite drain_still; [auto|]. by destruct E as [->|[_ ->]].
Qed.

(** Reading reports nothing. *)
Lemma drain_run t n s o : crawl_task s = TaskDone o -> live (pc s) = true -> pc s <> Unstarted ->
  exists acts, drain t n s = stream_run s acts /\ reported s acts = [].
Proof.
  revert s. induction n as [|n IH]; intros s T L U; [by exists []|]. cbn.
  assert (A : accepted s (consume t s) = []) by (unfold consume; destruct (pc s); try done; by destruct (page_queue s)).
  destruct (drain_step t s o T L U) as (T' & _ & [[L' U']|E]).
  - destruct (IH _ T' L' U') as (acts & -> & Ha). exists (consume t s :: acts). split; [done|]. cbn. by rewrite A, Ha.
  - rewrite drain_still; [|by destruct E as [->|[_ ->]]]. exists [consume t s]. split; [done|]. cbn. by rewrite A.
Qed.

Lemma reported_app s l1 l2 : reported s (l1 ++ l2) = reported s l1 ++ reported (stream_run s l1) l2.
Proof. revert s. induction l1 as [|a l1 IH]; intros s; [done|]. cbn. by rewrite IH, app_assoc. Qed.

(** *** The job store *)

(** From one state to the next the generator performs [new] on the store. *)
Definition performs (s s' : Stream DB) (new : list op) : Prop :=
  own_ops s' = own_ops s ++ new /\ db s' = run cjson (db s) new.

(** An outcome of the job. *)
Definition outcome_op (o : op) : Prop :=
  match o with
  | OComplete _ j _ _ _ _ | OFail _ j _ _ _ _ | OCancel j _ _ => j = job
  | _ => False
  end.

(** The generator writes to the store only when it leaves its loop. *)
Definition one_outcome (s s' : Stream DB) : Prop :=
  exists new, performs s s' new /\
    (new = [] \/ exists o, new = [o] /\ outcome_op o /\ pc s' <> Waiting /\ final (pc s) = false /\ live (pc s) = true /\
       (pc s' = LastSent \/ pc s' = CancelRaised)).

Lemma one_none s s' : own_ops s' = own_ops s -> db s' = db s -> one_outcome s s'.
Proof. intros H1 H2. exists []. split; [split; [by rewrite app_nil_r|done]|by left]. Qed.

Lemma one_cancelled t s : live (pc s) = true -> final (pc s) = false -> one_outcome s (on_cancelled cjson job t s).
Proof.
  intros L F. unfold on_cancelled. cbv zeta. destruct (match job_status job s with Some st => _ | None => _ end).
  - apply one_none; by destruct (crawl_task s).
  - exists [OCancel job None (t_iso t)]. split.
    + cbn. destruct (crawl_task s) eqn:T; split; done.
    + right. eexists. split_and!; [done..|by right].
Qed.

Lemma one_finish t s : live (pc s) = true -> final (pc s) = false -> one_outcome s (finish t s).
Proof.
  intros L F. unfold CrawlStream.finish. destruct (crawl_task s) as [| |[r|msg|]]; [by apply one_none..| | |by apply one_cancelled].
  - cbv zeta. case_bool_decide; [by apply one_none|]. eexists [_]. split; [by split|]. right. eexists. split_and!; [done..|by left].
  - eexists [_]. split; [by split|]. right. eexists. split_and!; [done..|by left].
Qed.

Lemma one_loop t s : live (pc s) = true -> final (pc s) = false -> one_outcome s (loop_head t s).
Proof.
  intros L F. unfold CrawlStream.loop_head. destruct (is_running s || _); [by apply one_none|by apply one_finish].
Qed.

Lemma one_act s a : (forall o, a <> StoreOp o) -> one_outcome s (act s a).
Proof.
  intros N. destruct a; cbn -[next close]; try (by destruct (N o)); try (unfold put; destruct (is_running s); by apply one_none).
  - unfold next. destruct (pc s) eqn:P; try by apply one_none.
    + apply one_loop; by rewrite P.
    + unfold after_page. cbv zeta. destruct (_ <=? _); [by apply one_none|].
      match goal with |- one_outcome s (loop_head t ?x) => destruct (one_loop t x) as (new & H & D); [cbn; by rewrite P..|] end.
      exists new. split; [exact H|]. exact D.
  - unfold item. destruct (pc s), (page_queue s); try by apply one_none. cbv zeta. by destruct (is_error _); apply one_none.
  - destruct (pc s); by apply one_none.
  - destruct (pc s) eqn:P; try by apply one_none. apply one_cancelled; by rewrite P.
  - unfold close. destruct (pc s); try (destruct (is_running s)); by apply one_none.
Qed.

Lemma ops_step s a : db (act s a) = run cjson (db s) (ops_of cjson c job url max_pages s a).
Proof.
  destruct (match a with StoreOp _ => true | _ => false end) eqn:B; [by destruct a|].
  destruct (one_act s a) as (new & [H1 H2] & _); [by intros o ->|].
  assert (E : ops_of cjson c job url max_pages s a = new) by (unfold ops_of; destruct a; try done; by rewrite H1, drop_app_length).
  by rewrite E.
Qed.

Lemma run_store s acts : db (stream_run s acts) = run cjson (db s) (store_ops s acts).
Proof.
  revert s. induction acts as [|a acts IH]; intros s; [done|]. cbn [CrawlStream.store_ops]. unfold run. rewrite run_ops_app.
  change (stream_run s (a :: acts)) with (stream_run (act s a) acts). rewrite IH, ops_step. done.
Qed.

Definition looping (p : Pc) : bool := live p && negb (final p).

Lemma looping_act s a : looping (pc (act s a)) = true -> looping (pc s) = true.
Proof.
  intros H. destruct (pc s) eqn:P; try done; exfalso; revert H; destruct a; cbn -[next]; unfold put, next, item, close;
    rewrite ?P; try (destruct (is_running s)); cbn; by rewrite ?P.
Qed.

(** At most one outcome, and none before the loop is left. *)
Lemma outcomes_run d acts :
  let s := stream_run (init d) acts in
  (length (own_ops s) <= 1)%nat /\ Forall outcome_op (own_ops s) /\ (looping (pc s) = true -> own_ops s = []).
Proof.
  cbv zeta. apply (run_ops_invariant act (fun s => (length (own_ops s) <= 1)%nat /\ Forall outcome_op (own_ops s) /\ (looping (pc s) = true -> own_ops s = []))).
  - split_and!; [cbn; lia|by constructor|done].
  - intros s a (H1 & H2 & H3). destruct (match a with StoreOp _ => true | _ => false end) eqn:B; [by destruct a|].
    destruct (one_act s a) as (new & [E _] & D); [by intros o ->|]. rewrite E. destruct D as [->|(o & -> & O & _ & F & L & P)].
    + rewrite app_nil_r. split_and!; [done|done|]. intros K. by apply H3, (looping_act s a).
    + rewrite H3 by (unfold looping; by rewrite F, L). cbn. split_and!; [lia|by constructor|].
      by destruct P as [->| ->].
Qed.

(** What the last event says about a cancellation is in the store. *)
Definition cancelled_in (d : DB) : Prop := exists m, get_meta job d = Some m /\ status m = cancelled.

Lemma cancelled_stays owner d ops : forallb (keeps_lease job owner) ops = true -> cancelled_in d -> cancelled_in (run cjson d ops).
Proof.
  intros K (m & Hm & Hs).
  destruct (run_held cjson job owner 0 ops d K) as (m' & Hm' & _); [exists m; split; [done|left; by rewrite Hs]|].
  exists m'. split; [done|]. rewrite <- Hs. eapply (terminal_status_is_final cjson job ops d); [|done|by rewrite Hs|done].
  eapply forallb_forall. intros o Ho. eapply forallb_forall in K; [|done]. unfold keeps_lease in K. by apply andb_true_iff in K as [K _].
Qed.

Lemma cancelled_sent t s : sent (on_cancelled cjson job t s) = sent s.
Proof.
  unfold on_cancelled. cbv zeta. destruct (match job_status job s with Some st => _ | None => _ end); cbn; by destruct (crawl_task s).
Qed.

Lemma told_finish t s n r ms : Event n (done_payload job "cancelled" r ms) ∈ sent (finish t s) ->
  Event n (done_payload job "cancelled" r ms) ∈ sent s \/ job_status job s = Some cancelled /\ db (finish t s) = db s.
Proof.
  unfold CrawlStream.finish. destruct (crawl_task s) as [| |[r'|msg|]]; [by left..| | |].
  - cbv zeta. case_bool_decide as E; cbn; intros [H|H]%elem_of_snoc; [by left|right|by left|]; [by split|].
    apply (f_equal (fun ch => match ch with Event _ p => jget p "status" | _ => JNull end)) in H. by cbn in H.
  - cbn. intros [H|H]%elem_of_snoc; [by left|].
    apply (f_equal (fun ch => match ch with Event _ p => jget p "type" | _ => JNull end)) in H. by cbn in H.
  - rewrite cancelled_sent. by left.
Qed.

Lemma told_loop t s n r ms : Event n (done_payload job "cancelled" r ms) ∈ sent (loop_head t s) ->
  Event n (done_payload job "cancelled" r ms) ∈ sent s \/ job_status job s = Some cancelled /\ db (loop_head t s) = db s.
Proof. unfold CrawlStream.loop_head. destruct (_ || _); [by left|apply told_finish]. Qed.

Lemma told_emit (s : Stream DB) n (i : Prop) p r ms pc' :
  Event n (done_payload job "cancelled" r ms) ∈ sent (emit p pc' s) -> has_type "done" p = false ->
  Event n (done_payload job "cancelled" r ms) ∈ sent s \/ i.
Proof. cbn. intros [H|H]%elem_of_snoc Hp; [by left|]. by injection H as _ <-. Qed.

Lemma told_act s a n r ms : Event n (done_payload job "cancelled" r ms) ∈ sent (act s a) ->
  Event n (done_payload job "cancelled" r ms) ∈ sent s \/ job_status job s = Some cancelled /\ db (act s a) = db s.
Proof.
  destruct a; cbn -[next close].
  - unfold put. destruct (is_running s); by left.
  - unfold put. destruct (is_running s); by left.
  - destruct (is_running s); by left.
  - by left.
  - unfold next. destruct (pc s); try (by left); [intros H; exact (told_emit _ _ _ _ _ _ _ H eq_refl)|apply told_loop| ].
    unfold after_page. cbv zeta. destruct (_ <=? _); [intros H; exact (told_emit _ _ _ _ _ _ _ H eq_refl)|intros H; exact (told_loop _ _ _ _ _ H)].
  - unfold item. destruct (pc s), (page_queue s); try (by left). cbv zeta. destruct (is_error _); intros H; exact (told_emit _ _ _ _ _ _ _ H eq_refl).
  - destruct (pc s); try (by left). cbn. intros [H|H]%elem_of_snoc; [by left|done].
  - destruct (pc s); try (by left). rewrite cancelled_sent. by left.
  - unfold close. destruct (pc s); try (destruct (is_running s)); by left.
Qed.

(** What others do to the store in a run. *)
Definition others (acts : list action) : list op := omap (fun a => match a with StoreOp o => Some o | _ => None end) acts.

Lemma outcome_keeps owner o : outcome_op o -> keeps_lease job owner o = true.
Proof. by destruct o. Qed.

Lemma ops_keep owner s a : forallb (keeps_lease job owner) (others [a]) = true ->
  forallb (keeps_lease job owner) (ops_of cjson c job url max_pages s a) = true.
Proof.
  intros K. destruct (match a with StoreOp _ => true | _ => false end) eqn:B; [by destruct a|].
  destruct (one_act s a) as (new & [E _] & D); [by intros o ->|].
  assert (ops_of cjson c job url max_pages s a = new) as -> by (unfold ops_of; destruct a; try done; by rewrite E, drop_app_length).
  destruct D as [->|(o & -> & O & _)]; [done|]. cbn. by rewrite outcome_keeps.
Qed.

Lemma store_ops_keep owner s acts : forallb (keeps_lease job owner) (others acts) = true ->
  forallb (keeps_lease job owner) (store_ops s acts) = true.
Proof.
  revert s. induction acts as [|a acts IH]; intros s K; [done|]. cbn [CrawlStream.store_ops]. rewrite forallb_app.
  assert (K' : forallb (keeps_lease job owner) (others [a] ++ others acts) = true) by (unfold others in *; by rewrite <- omap_app).
  rewrite forallb_app in K'. apply andb_true_iff in K' as [K1 K2]. by rewrite ops_keep, IH.
Qed.

Lemma told_run owner d acts n r ms : forallb (keeps_lease job owner) (others acts) = true ->
  Event n (done_payload job "cancelled" r ms) ∈ sent (stream_run (init d) acts) -> cancelled_in (db (stream_run (init d) acts)).
Proof.
  assert (G : forall s, (Event n (done_payload job "cancelled" r ms) ∈ sent s -> cancelled_in (db s)) ->
    forallb (keeps_lease job owner) (others acts) = true ->
    Event n (done_payload job "cancelled" r ms) ∈ sent (stream_run s acts) -> cancelled_in (db (stream_run s acts)));
    [|by apply G; intros H%not_elem_of_nil].
  induction acts as [|a acts IH]; intros s H K; [done|].
  assert (K' : forallb (keeps_lease job owner) (others [a] ++ others acts) = true) by (unfold others in *; by rewrite <- omap_app).
  rewrite forallb_app in K'. apply andb_true_iff in K' as [K1 K2].
  apply (IH (act s a)); [|done]. intros [T|[J E]]%told_act.
  - rewrite ops_step. eapply cancelled_stays; [by apply ops_keep|auto].
  - rewrite E. unfold job_status, get_job in J. unfold cancelled_in. destruct (get_meta job (db s)) as [m|]; [|done].
    cbn in J. exists m. split; congruence.
Qed.

Lemma release_status owner f d m : get_meta job d = Some m ->
  exists m', get_meta job (release job owner f d) = Some m' /\ status m' = status m.
Proof.
  intros Hm. unfold release. rewrite Hm. destruct (execution m) as [e|]; [|eauto]. destruct (owns e owner f); [|eauto].
  rewrite get_meta_put_meta, decide_True by done. by eexists.
Qed.

(** *** Claims *)

(** A final event comes after everything that was reported. *)
Lemma done_complete d acts n p :
  let s := stream_run (init d) acts in
  Event n p ∈ sent s -> has_type "done" p = true ->
  items (sent s) = entry_payload <$> reported (init d) acts /\ last (sent s) = Some (Event n p) /\
  exists r st ms, crawl_task s = TaskDone (Finished r) /\ p = done_payload job st r ms.
Proof.
  cbv zeta. intros Hi Hp. pose proof (sinv_run cjson c job url max_pages (init d) acts [] (sinv_init job url d)) as H.
  destruct (i_done _ _ _ _ H n p Hi Hp) as (_ & Q & L & r & st & ms & T & E).
  split_and!; [|done|eauto]. destruct (i_items _ _ _ _ H) as (read & Ha & [I|(msg & T' & _)]); [|congruence].
  rewrite Q, app_nil_r in Ha. cbn in Ha. by rewrite Ha.
Qed.

Lemma not_ended t s : pc s <> Ended -> pc (loop_head t s) <> Ended.
Proof.
  intros N. unfold CrawlStream.loop_head. destruct (_ || _); [done|]. unfold CrawlStream.finish.
  destruct (crawl_task s) as [| |[r|msg|]]; try done; cbv zeta; by case_bool_decide.
Qed.

(** A stream that has ended has closed its clients. *)
Lemma shut_run d acts : pc (stream_run (init d) acts) = Ended -> clients (stream_run (init d) acts) = Shut.
Proof.
  apply (run_ops_invariant act (fun s => pc s = Ended -> clients s = Shut)); [done|]. intros s a IH.
  destruct a; cbn -[next close]; try done.
  - unfold put. by destruct (is_running s).
  - unfold put. by destruct (is_running s).
  - by destruct (is_running s).
  - unfold next. destruct (pc s) eqn:P; try (intros; first [congruence|by apply IH]); try done.
    + intros E. exfalso. revert E. apply not_ended. by rewrite P.
    + unfold after_page. cbv zeta. destruct (_ <=? _); [done|]. intros E. exfalso. revert E. apply not_ended. cbn. by rewrite P.
  - unfold item. destruct (pc s) eqn:P; try (intros; first [congruence|by apply IH]). destruct (page_queue s); [intros; first [congruence|by apply IH]|]. cbv zeta. by destruct (is_error _).
  - destruct (pc s) eqn:P; try (intros; first [congruence|by apply IH]); try done.
  - destruct (pc s) eqn:P; try (intros; first [congruence|by apply IH]); try done.
  - unfold close. destruct (pc s) eqn:P; try (intros; first [congruence|by apply IH]); try done; by destruct (is_running s).
Qed.

(** C13.  Whatever the interleaving of the engine, the store, the consumer and the
    clock: the events of a stream are numbered from one without gaps; the pages and
    errors among them are those the engine reported, in its order and each once, up
    to what is still in the queue, and at most one more error that says how the crawl
    failed; a progress event counts the pages sent before it; and a final event comes
    after everything that was reported, is the last one and carries the result. *)
Theorem stream_reports_crawl d acts :
  let s := stream_run (init d) acts in
  ids (sent s) = seqZ 1 (event_id s) /\ delivered url s (reported (init d) acts) /\
  (forall i n p, sent s !! i = Some (Event n p) -> has_type "progress" p = true ->
     jget p "completed" = JNum (pages_in (take i (sent s)))) /\
  (forall n p, Event n p ∈ sent s -> has_type "done" p = true ->
     items (sent s) = entry_payload <$> reported (init d) acts /\ last (sent s) = Some (Event n p) /\
     exists r st ms, crawl_task s = TaskDone (Finished r) /\ p = done_payload job st r ms).
Proof.
  cbv zeta. pose proof (sinv_run cjson c job url max_pages (init d) acts [] (sinv_init job url d)) as H.
  split_and!; [apply H..|]. intros n p. apply done_complete.
Qed.

(**  Once the crawl has ended, a consumer that keeps reading reaches the end of a
    stream that was not given up within three reads for each entry of the queue and
    four more; the clients are closed, every page and error that was reported has been
    sent, and the last event is the result or the failure of the crawl. *)
Theorem stream_drains d acts t o :
  let s := stream_run (init d) acts in
  crawl_task s = TaskDone o -> o <> TaskCancelled -> live (pc s) = true ->
  let s' := drain t (3 * length (page_queue s) + 4) s in
  pc s' = Ended /\ clients s' = Shut /\ closing_event s' /\ crawl_task s' = TaskDone o /\
  (forall r, o = Finished r -> items (sent s') = entry_payload <$> reported (init d) acts).
Proof.
  cbv zeta. set (s := stream_run (init d) acts). intros T N L.
  pose proof (sinv_run cjson c job url max_pages (init d) acts [] (sinv_init job url d)) as H. fold s in H. cbn [app] in H.
  assert (U : pc s <> Unstarted) by (intros (_ & X & _)%(i_unstarted _ _ _ _ H); congruence).
  assert (R : (rank s <= 3 * length (page_queue s) + 4)%nat) by (unfold rank; destruct (pc s), (page_queue s); cbn; lia).
  destruct (drain_ends t _ s o T L U R) as (T' & [P|[? _]]); [|done].
  destruct (drain_run t (3 * length (page_queue s) + 4) s o T L U) as (acts' & E & A). rewrite E in *.
  assert (E2 : stream_run s acts' = stream_run (init d) (acts ++ acts')) by (unfold s, CrawlStream.stream_run; by rewrite run_ops_app).
  assert (C : closing_event (stream_run s acts')) by (rewrite E2; apply closing_run; rewrite <- E2; by right).
  split_and!; try done; [rewrite E2 in *; by apply shut_run|]. intros r ->. unfold closing_event in C. rewrite T' in C. destruct C as (n & st & ms & C).
  destruct (done_complete d (acts ++ acts') n (done_payload job st r ms)) as (I & _); [rewrite <- E2; by apply last_Some_elem_of|done|].
  rewrite <- E2 in I. rewrite I, reported_app. fold s. by rewrite A, app_nil_r.
Qed.

(** C34.  The text of a stream is a faithful encoding: decoded by the rules of the
    event-stream format it gives exactly the events that were sent, with their numbers
    and payloads, whatever the crawled pages contain. *)
Theorem stream_text_decodes d acts :
  let s := stream_run (init d) acts in
  sse_decode (text_of (sent s)) = events_of "" (sent s).
Proof. apply sse_decode_chunks. Qed.

(** C14.  On the job store a streaming request is a worker that writes at most one
    outcome: when the coordinator has claimed the job and others neither recreate nor
    drop its record, the store sees the operations of others and of the stream in
    order, at most one of them the stream's, the job is terminal when the stream has
    ended however it ended, and if the consumer was told that the crawl was cancelled
    the job is cancelled. *)
Theorem streaming_request_settles build owner start iso d d1 o f acts wid stop iso' :
  claim LEASE job owner start iso d = (d1, Some (o, f)) ->
  forallb (keeps_lease job owner) (others acts) = true ->
  let s := stream_run (init d1) acts in
  db s = run cjson d1 (store_ops (init d1) acts) /\ (length (own_ops s) <= 1)%nat /\ Forall outcome_op (own_ops s) /\
  exists d' m, stream_job_events cjson build job owner start iso (store_ops (init d1) acts) wid stop iso' d = Some d' /\
    get_meta job d' = Some m /\ is_terminal (status m) = true /\
    (forall n r ms, Event n (done_payload job "cancelled" r ms) ∈ sent s -> status m = cancelled).
Proof.
  intros Hc K. cbv zeta. destruct (outcomes_run d1 acts) as (O1 & O2 & _). split_and!; [apply run_store|done|done|].
  pose proof (store_ops_keep owner (init d1) acts K) as KS.
  destruct (stream_job_events cjson build job owner start iso (store_ops (init d1) acts) wid stop iso' d) as [d'|] eqn:E;
    [|unfold stream_job_events in E; by rewrite Hc in E].
  destruct (stream_job_settles _ _ _ _ _ _ _ _ _ _ _ _ E KS) as (m & Hm & Ht). exists d', m. split_and!; try done.
  intros n r ms Hi. destruct (told_run owner d1 acts n r ms K Hi) as (m1 & Hm1 & Hs1). rewrite run_store in Hm1. cbn [db init] in Hm1.
  unfold stream_job_events in E. rewrite Hc, (has_status_spec job _ _ m1 Hm1), Hs1 in E.
  rewrite bool_decide_false in E by set_solver. injection E as <-.
  destruct (release_status o f _ m1 Hm1) as (m2 & Hm2 & Hs2). congruence.
Qed.

End Theorems.

(** ** Runs

    A crawl of two pages and an error, in the job [j] that a worker has claimed. *)

Definition demo_tick : Tick := mkTick (sec 20) "t3" 4 1500.
Definition demo_page (u : string) : entry := [("url", JStr u); ("markdown", JStr "text")].
Definition demo_error : entry := [("url", JStr "https://site.org/c"); ("error", JStr "timeout")].
Definition demo_result : CrawlResult := mkResult 2 3 [JObj (demo_page "https://site.org/a"); JObj (demo_page "https://site.org/b")] [JObj demo_error] [].
Definition demo_stream (acts : list action) : Stream (gmap key value) :=
  stream_run (fun j => j) (Some demo_ctx) "j" "https://site.org" 10 (init demo_running) acts.

Definition demo_acts : list action :=
  [Next demo_tick; PagePut (demo_page "https://site.org/a"); Item; ErrorPut demo_error; Next demo_tick; Timeout_; Next demo_tick;
   PagePut (demo_page "https://site.org/b"); CrawlEnds (Finished demo_result)].

Lemma stream_drains_witness :
  let s := demo_stream demo_acts in
  crawl_task s = TaskDone (Finished demo_result) /\ live (pc s) = true /\
  let s' := drain (fun j => j) (Some demo_ctx) "j" "https://site.org" 10 demo_tick (3 * length (page_queue s) + 4) s in
  pc s' = Ended /\ length (items (sent s')) = 3%nat.
Proof.
  split; [reflexivity|]. split; [reflexivity|].
  destruct (stream_drains (fun j => j) (Some demo_ctx) "j" "https://site.org" 10 demo_running demo_acts demo_tick (Finished demo_result)
    eq_refl ltac:(discriminate) eq_refl) as (H & _ & _ & _ & I).
  split; [exact H|]. unfold demo_stream. rewrite (I demo_result eq_refl). reflexivity.
Defined.

(** The job is cancelled by somebody else while its pages are streamed. *)
Definition demo_cancel_acts : list action :=
  demo_acts ++ [StoreOp (OCancel "j" None "t3"); Next demo_tick; Item; Next demo_tick; Item; Next demo_tick; Next demo_tick].

Lemma streaming_request_settles_witness :
  exists d' m, stream_job_events (fun j => j) demo_build "j" "worker" 0 "t2"
      (store_ops (fun j => j) (Some demo_ctx) "j" "https://site.org" 10 (init demo_running) demo_cancel_acts) "w" (sec 30) "t4" demo_db = Some d' /\
    get_meta "j" d' = Some m /\ is_terminal (status m) = true.
Proof.
  assert (Hc : claim LEASE "j" "worker" 0 "t2" demo_db = (demo_running, Some ("worker", 1)))
    by exact (eq_trans (surjective_pairing _) (f_equal (pair demo_running) eq_refl)).
  destruct (streaming_request_settles (fun j => j) (Some demo_ctx) "j" "https://site.org" 10 demo_build "worker" 0 "t2" demo_db demo_running
    "worker" 1 demo_cancel_acts "w" (sec 30) "t4" Hc eq_refl) as (_ & _ & _ & d' & m & H & Hm & Ht & _).
  exists d', m. split; [exact H|split; [exact Hm|exact Ht]].
Defined.

(** That stream ends with the event that says so. *)
Lemma cancelled_crawl_told :
  last (sent (demo_stream demo_cancel_acts)) = Some (Event 5 (done_payload "j" "cancelled" demo_result 1500)).
Proof. vm_compute. reflexivity. Qed.

(** *** What the model shows of the code *)

(** Nothing wakes the generator when the crawl ends: with an empty queue it stays in
    its wait until the heartbeat's timeout, whatever else happens. *)
Lemma end_waits_for_heartbeat {DB} `{!Valkey key value DB} cjson c job url mp (s : Stream DB) acts :
  pc s = Waiting -> page_queue s = [] -> is_running s = false ->
  Forall (fun a => match a with Timeout_ | Disconnect _ => False | _ => True end) acts ->
  pc (stream_run cjson c job url mp s acts) = Waiting /\ sent (stream_run cjson c job url mp s acts) = sent s.
Proof.
  intros P Q R H. revert s P Q R. induction H as [|a acts Ha _ IH]; intros s P Q R; [done|].
  assert (E : let s' := act cjson c job url mp s a in pc s' = Waiting /\ page_queue s' = [] /\ is_running s' = false /\ sent s' = sent s).
  { destruct a; cbn -[next item close]; try done; unfold put, next, item, close; by rewrite ?R, ?P, ?Q. }
  destruct E as (P' & Q' & R' & S'). destruct (IH _ P' Q' R') as [H1 H2]. split; [exact H1|]. rewrite <- S'. exact H2.
Qed.

(** A generator that is closed at a [yield] leaves its clients open and the job as it
    was: the clause for a disconnected client does not run. *)
Lemma close_leaves_clients_open :
  let s := demo_stream [Next demo_tick; PagePut (demo_page "https://site.org/a"); Item; Close] in
  pc s = Closed /\ clients s = Open /\ own_ops s = [] /\ status <$> get_meta "j" (db s) = Some processing.
Proof. vm_compute. done. Qed.

(** The answer of [complete_job] is not looked at: when the store refuses because the
    job was failed in the meantime, the consumer is told that the crawl completed. *)
Lemma refused_completion_reported :
  let s := demo_stream [Next demo_tick; CrawlEnds (Finished demo_result); StoreOp (OFail None "j" "lost" None 0 "t3"); Timeout_; Next demo_tick; Next demo_tick] in
  last (sent s) = Some (Event 2 (done_payload "j" "completed" demo_result 1500)) /\
  status <$> get_meta "j" (db s) = Some failed.
Proof. vm_compute. done. Qed.
