(* ===== verification/Retry.v ===== *)
(** * Retry delays ([src/agent-svc/agent/retry.py])

    [clamp_retry_delay] resolves the wait before the next attempt of a
    rate-limited job.  Durations are whole microseconds. *)

From S2P Require Import Prelude.

Record RetryPolicy := mkPolicy {
  max_attempts : Z;
  fallback_seconds : usec;
  max_wait_seconds : usec
}.

(** The dataclass defaults. *)
Definition RetryPolicy_default : RetryPolicy := mkPolicy 3 (sec 1) (sec 60).

Definition MIN_RETRY_DELAY : usec := sec 1.

Definition clamp_retry_delay (server_delay : option usec) (attempt : Z) (p : RetryPolicy)
    (jitter : usec) : usec :=
  if max_wait_seconds p <=? 0 then MIN_RETRY_DELAY
  else
    let fallback := Z.min (fallback_seconds p * 2 ^ (attempt - 1)) (max_wait_seconds p) in
    let by_fallback := Z.min (Z.max (fallback + jitter) MIN_RETRY_DELAY) (max_wait_seconds p) in
    match server_delay with
    | Some d => if 0 <? d then Z.min (Z.max d MIN_RETRY_DELAY) (max_wait_seconds p) else by_fallback
    | None => by_fallback
    end.

(** The largest wait a policy allows. *)
Definition wait_ceiling (p : RetryPolicy) : usec :=
  if max_wait_seconds p <=? 0 then MIN_RETRY_DELAY else max_wait_seconds p.

Lemma clamp_bounds d a p j :
  0 < clamp_retry_delay d a p j <= wait_ceiling p /\
  Z.min MIN_RETRY_DELAY (wait_ceiling p) <= clamp_retry_delay d a p j.
Proof.
  unfold clamp_retry_delay, wait_ceiling. assert (0 < MIN_RETRY_DELAY) by done.
  destruct (max_wait_seconds p <=? 0) eqn:E; bool_to_prop; [lia|].
  destruct d as [d|]; [destruct (0 <? d)|]; lia.
Qed.

(** Every wait is positive and at most the policy's ceiling, and at least one
    second unless the ceiling itself is lower; a usable server delay within the
    bounds is honoured exactly; without one the wait never shrinks from one
    attempt to the next (same jitter). *)
Theorem retry_delay_bounded d s a p j :
  (0 < clamp_retry_delay d a p j <= wait_ceiling p) /\
  Z.min MIN_RETRY_DELAY (wait_ceiling p) <= clamp_retry_delay d a p j /\
  (MIN_RETRY_DELAY <= s <= max_wait_seconds p -> clamp_retry_delay (Some s) a p j = s) /\
  (1 <= a -> 0 <= fallback_seconds p ->
   clamp_retry_delay None a p j <= clamp_retry_delay None (a + 1) p j).
Proof.
  destruct (clamp_bounds d a p j) as [H1 H2]. split_and!; [lia|lia|done| |].
  - intros H. unfold clamp_retry_delay. assert (0 < MIN_RETRY_DELAY) by done.
    rewrite (proj2 (Z.leb_gt _ _)) by lia. rewrite (proj2 (Z.ltb_lt _ _)) by lia. lia.
  - intros Ha Hf. unfold clamp_retry_delay. case_match; [done|].
    assert (2 ^ (a + 1 - 1) = 2 * 2 ^ (a - 1)) as E.
    { rewrite <- Z.pow_succ_r by lia. f_equal. lia. }
    assert (0 <= 2 ^ (a - 1)) by (apply Z.pow_nonneg; lia). rewrite E. nia.
Qed.

Lemma retry_delay_bounded_witness :
  clamp_retry_delay (Some (sec 5)) 1 RetryPolicy_default 0 = sec 5 /\
  clamp_retry_delay None 1 RetryPolicy_default 0 <= clamp_retry_delay None 2 RetryPolicy_default 0.
Proof.
  pose proof (retry_delay_bounded None (sec 5) 1 RetryPolicy_default 0) as (_ & _ & H3 & H4).
  split; [apply H3; split; discriminate|apply H4; discriminate].
Defined.
