(* ===== verification/Worker.v ===== *)
(** * The worker's retry loop ([src/agent-svc/agent/worker.py])

    [run_job_with_observability] executes a job's work function until it
    returns, fails, is cancelled or exhausts its rate-limit retries, records the
    outcome with its webhook intent, and delivers the webhooks.  What the world
    does is an [Env]: how attempt [n] ends, which store operations others
    perform during the attempt and during the retry sleep after it, and how the
    sleep ends.  Metrics and logs are left out.

    The theorems: the loop is total with at most [max_attempts] attempts and
    bounded waits; a job cancelled while it waits starts no further attempt; and
    two behaviours of its webhooks that differ from what the module intends. *)

From stdpp Require Import pretty.
From S2P Require Import Prelude HostPolicy Json Valkey JobStore Webhook Retry.

(** How [await work_fn()] ends. *)
Inductive WorkResult :=
| Result (data : json)
| RetryableRateLimit (error_code : string) (retry_after_seconds : option usec)
| JobCancelledError
| TaskCancelled                       (* asyncio.CancelledError *)
| Failure (message : string).         (* any other exception *)

(** How [retry_sleep] ends. *)
Inductive SleepResult := Slept | SleepJobCancelled | SleepTaskCancelled.

Record Env := mkEnv {
  env_work : nat -> WorkResult;
  env_during : nat -> list op;        (* operations during attempt [n] *)
  env_sleep : nat -> SleepResult;
  env_sleeping : nat -> list op;      (* operations during the sleep after it *)
  env_jitter : nat -> usec;
  env_now : nat -> usec;
  env_iso : nat -> string;
  env_retry_at : nat -> string;
  env_wid : nat -> string;            (* identifier of the recorded intent *)
  env_wid' : nat -> string;           (* identifier made by [deliver_webhook] *)
  env_owner : nat -> string;
  env_net : nat -> Net
}.

(** Which branch ended the job. *)
Inductive Ending :=
| Completed (recorded : bool)         (* what [complete_job] answered *)
| Exhausted
| NotRetryable                        (* [schedule_retry] refused *)
| CancelledWaiting                    (* [resume_retry] refused *)
| Cancelled                           (* JobCancelledError *)
| Interrupted                         (* asyncio.CancelledError, re-raised *)
| Failed.

#[export] Instance Ending_eq_dec : EqDecision Ending.
Proof. solve_decision. Defined.

Record Report {DB : Type} := mkReport {
  final : DB;
  attempts_made : nat;
  waits : list usec;
  posts : list Post;
  ending : Ending
}.
Arguments Report : clear implicits.
Arguments mkReport {DB} _ _ _ _ _.

(** [f"{d:.0f}"] of a duration in seconds: round half to even. *)
Definition round_seconds (d : usec) : Z :=
  let q := d / 1000000 in
  let r := d mod 1000000 in
  if r <? 500000 then q else if 500000 <? r then q + 1 else if Z.even q then q else q + 1.

Definition exhausted_message (attempt : Z) (code : string) (last_delay : option usec) : string :=
  "Rate limit retry budget exhausted after " +:+ pretty attempt +:+ " attempt(s) (reason=" +:+ code
  +:+ match last_delay with
      | Some d => ", last retry delay " +:+ pretty (round_seconds d) +:+ "s)"
      | None => ")"
      end.

Section Worker.
Context {DB : Type} `{!Valkey key value DB}.
Context (cjson : json -> json).
Context (sha256 : string -> string) (sign : string -> string -> string) (secret : string).
(** How a float appears in a JSON document. *)
Context (float_json : usec -> json).

Context (c : option Context_) (job job_type : string) (cfg : json) (p : RetryPolicy) (env : Env).

Definition intent (n : nat) (ev : string) (data : json) (success : bool) (err : option string)
    : option WebhookIntent :=
  build_webhook_intent sha256 sign secret (env_wid env n) cfg ev job data success err.

Definition deliver (n : nat) (ev : string) (data : json) (success : bool) (err : option string)
    (db : DB) : DB * list Post :=
  deliver_webhook sha256 sign secret (env_wid' env n) (env_owner env n) (env_net env n) cfg ev job
    data success err db.

(** The success branch. *)
Definition finish_success (n : nat) (waits : list usec) (posts : list Post) (data : json) (db : DB)
    : Report DB :=
  let '(db1, ok) := complete_job cjson c job (mkData None data) (intent n "completed" data true None)
                      (env_now env n) (env_iso env n) db in
  let '(db2, sent) := deliver n "completed" data true None db1 in
  mkReport db2 n waits (posts ++ sent) (Completed ok).

(** The exhausted-budget branch. *)
Definition finish_exhausted (n : nat) (waits : list usec) (posts : list Post) (code : string)
    (last : option usec) (db : DB) : Report DB :=
  let msg := exhausted_message (Z.of_nat n) code last in
  let data := JObj [("error", JStr msg)] in
  let '(db1, _) := fail_job c job msg (intent n "failed" data false (Some msg))
                     (env_now env n) (env_iso env n) db in
  let '(db2, sent) := deliver n "failed" data false (Some msg) db1 in
  mkReport db2 n waits (posts ++ sent) Exhausted.

(** The [except Exception] clause: the delivery passes neither [success] nor
    [error]. *)
Definition finish_failure (n : nat) (waits : list usec) (posts : list Post) (msg : string) (db : DB)
    : Report DB :=
  let data := JObj [("error", JStr msg)] in
  let '(db1, _) := fail_job c job msg (intent n "failed" data false (Some msg))
                     (env_now env n) (env_iso env n) db in
  let '(db2, sent) := deliver n "failed" data true None db1 in
  mkReport db2 n waits (posts ++ sent) Failed.

(** The retry branch after attempt [n]: either the job ends here, or it goes on
    with the store, the wait and the requests sent. *)
Definition retry_phase (n : nat) (code : string) (after : option usec) (db : DB)
    : (DB * usec * list Post) + (DB * list usec * list Post * Ending) :=
  let delay := clamp_retry_delay after (Z.of_nat n) p (env_jitter env n) in
  let '(db1, ok) := schedule_retry job (mkRetry (env_retry_at env n) (Z.of_nat n) (max_attempts p)
                      code delay) db in
  if negb ok then inr (db1, [], [], NotRetryable)
  else
    let '(db2, sent) := deliver n "retry_scheduled"
      (JObj [("operation", JStr job_type); ("reason_code", JStr code);
             ("retry_attempt", JNum (Z.of_nat n)); ("retry_limit", JNum (max_attempts p));
             ("retry_at", JStr (env_retry_at env n)); ("retry_after_seconds", float_json delay)])
      true None db1 in
    let db3 := run cjson db2 (env_sleeping env n) in
    match env_sleep env n with
    | SleepJobCancelled => inr (db3, [delay], sent, Cancelled)
    | SleepTaskCancelled => inr (db3, [delay], sent, Interrupted)
    | Slept =>
        let '(db4, ok) := resume_retry job db3 in
        if negb ok then inr (db4, [delay], sent, CancelledWaiting)
        else inl (db4, delay, sent)
    end.

(** The [while True] loop, [n] attempts already made. *)
Fixpoint attempt_loop (fuel n : nat) (last : option usec) (waits : list usec) (posts : list Post)
    (db : DB) : option (Report DB) :=
  match fuel with
  | O => None
  | S fuel =>
      let n := S n in
      let db1 := run cjson db (env_during env n) in
      match env_work env n with
      | Result data => Some (finish_success n waits posts data db1)
      | RetryableRateLimit code after =>
          if max_attempts p <=? Z.of_nat n then
            Some (finish_exhausted n waits posts code last db1)
          else
            match retry_phase n code after db1 with
            | inl (db2, delay, sent) =>
                attempt_loop fuel n (Some delay) (waits ++ [delay]) (posts ++ sent) db2
            | inr (db2, w, sent, e) => Some (mkReport db2 n (waits ++ w) (posts ++ sent) e)
            end
      | JobCancelledError => Some (mkReport db1 n waits posts Cancelled)
      | TaskCancelled => Some (mkReport db1 n waits posts Interrupted)
      | Failure msg => Some (finish_failure n waits posts msg db1)
      end
  end.

(** Attempts the policy allows: the first one always runs. *)
Definition attempt_bound : nat := Nat.max 1 (Z.to_nat (max_attempts p)).

Definition run_job_with_observability (db : DB) : option (Report DB) :=
  attempt_loop attempt_bound 0 None [] [] db.

End Worker.

Section Theorems.
Context {DB : Type} `{!Valkey key value DB} `{!ValkeyLaws key value DB}.
Context (cjson : json -> json).
Context (sha256 : string -> string) (sign : string -> string -> string) (secret : string).
Context (float_json : usec -> json).
Context (c : option Context_) (job job_type : string) (cfg : json) (p : RetryPolicy) (env : Env).
Implicit Types (db : DB) (n : nat).


(** A wait within the policy. *)
Definition wait_ok (w : usec) : Prop := 0 < w <= wait_ceiling p.

Lemma retry_phase_waits n code after db :
  match retry_phase cjson sha256 sign secret float_json job job_type cfg p env n code after db with
  | inl (_, d, _) => wait_ok d
  | inr (_, w, _, _) => Forall wait_ok w /\ (length w <= 1)%nat
  end.
Proof.
  unfold retry_phase, wait_ok. pose proof (clamp_bounds after (Z.of_nat n) p (env_jitter env n)) as [H _].
  destruct (schedule_retry _ _ _) as [db1 ok]. destruct ok; cbn [negb]; [|split; [constructor|cbn; lia]].
  destruct (deliver _ _ _ _ _ _ _ _ _ _ _ _) as [db2 sent].
  destruct (env_sleep env n); [|split; [by apply Forall_singleton|cbn; lia]..].
  destruct (resume_retry _ _) as [db4 ok]. destruct ok; cbn [negb]; [done|].
  split; [by apply Forall_singleton|cbn; lia].
Qed.

Lemma loop_total fuel : forall n last ws ps db,
  (n < attempt_bound p)%nat -> (n + fuel = attempt_bound p)%nat -> Forall wait_ok ws -> length ws = n ->
  exists r, attempt_loop cjson sha256 sign secret float_json c job job_type cfg p env fuel n last ws ps db = Some r /\
    (n < attempts_made r <= attempt_bound p)%nat /\ Forall wait_ok (waits r) /\
    (length (waits r) <= attempts_made r)%nat.
Proof.
  induction fuel as [|fuel IH]; intros n last ws ps db Hn Hf Hw Hl; [lia|]. cbn [attempt_loop].
  assert (Hbase : forall (r : Report DB), attempts_made r = S n -> waits r = ws ->
    (n < attempts_made r <= attempt_bound p)%nat /\ Forall wait_ok (waits r) /\
    (length (waits r) <= attempts_made r)%nat) by (intros r -> ->; split_and!; [lia|lia|done|lia]).
  destruct (env_work env (S n)) as [data|code after| | |msg].
  - eexists. split; [done|]. apply Hbase; unfold finish_success; by repeat case_match.
  - destruct (max_attempts p <=? Z.of_nat (S n)) eqn:Em; bool_to_prop.
    { eexists. split; [done|]. apply Hbase; unfold finish_exhausted; by repeat case_match. }
    pose proof (retry_phase_waits (S n) code after (run cjson db (env_during env (S n)))) as Hd.
    destruct (retry_phase _ _ _ _ _ _ _ _ _ _ _ _ _ _) as [[[db2 d] sent]|[[[db2 w] sent] e]].
    + unfold attempt_bound in *.
      destruct (IH (S n) (Some d) (ws ++ [d]) (ps ++ sent) db2) as (r & -> & Hr & ?); try lia.
      * apply Forall_app. split; [done|by apply Forall_singleton].
      * rewrite length_app. cbn. lia.
      * exists r. split_and!; [done|lia|lia|tauto|tauto].
    + destruct Hd as [Hd1 Hd2]. eexists. split; [done|]. cbn.
      split_and!; [lia|lia|by apply Forall_app|rewrite length_app; lia].
  - eexists. split; [done|]. by apply Hbase.
  - eexists. split; [done|]. by apply Hbase.
  - eexists. split; [done|]. apply Hbase; unfold finish_failure; by repeat case_match.
Qed.

(** The worker's retry loop terminates: it returns after at least one and at
    most [max_attempts] attempts (one when the policy allows none), whatever
    the attempts do, and every wait in between is positive and at most the
    policy's ceiling. *)
Theorem worker_attempts_bounded db :
  exists r, run_job_with_observability cjson sha256 sign secret float_json c job job_type cfg p env db
            = Some r /\
    (1 <= attempts_made r)%nat /\ Z.of_nat (attempts_made r) <= Z.max 1 (max_attempts p) /\
    Forall (fun w => 0 < w <= wait_ceiling p) (waits r) /\
    (length (waits r) <= attempts_made r)%nat.
Proof.
  destruct (loop_total (attempt_bound p) 0 None [] [] db) as (r & ? & ? & ? & ?);
    unfold attempt_bound in *; try lia; [by constructor|done|].
  exists r. split_and!; [done|lia|lia|done|done].
Qed.

(** *** Cancellation while waiting *)

Lemma cancelled_not_resumable l1 l2 w iso db :
  forallb (fun o => negb (creates job o)) (l1 ++ OCancel job w iso :: l2) = true ->
  snd (resume_retry job (run cjson db (l1 ++ OCancel job w iso :: l2))) = false.
Proof.
  rewrite forallb_app. intros [_ Hc]%andb_true_iff. cbn in Hc.
  unfold run. rewrite run_ops_app. set (db1 := run_ops (step cjson) db l1).
  change (run_ops (step cjson) db1 (OCancel job w iso :: l2))
    with (run cjson (fst (cancel_job job w iso db1)) l2).
  set (db2 := fst (cancel_job job w iso db1)).
  assert (H2 : match get_meta job db2 with Some m => is_terminal (status m) = true | None => True end).
  { subst db2. unfold cancel_job. destruct (get_meta job db1) as [m|] eqn:Hm; [|by cbn; rewrite Hm].
    destruct (is_active (status m)) eqn:Ha; cbn.
    - by rewrite get_meta_put_intent, get_meta_put_meta, decide_True.
    - rewrite Hm. unfold is_active in Ha. by bool_to_prop. }
  unfold resume_retry. destruct (get_meta job db2) as [m2|] eqn:E2.
  - destruct (get_meta job (run cjson db2 l2)) as [m'|] eqn:E'; [|done].
    pose proof (run_refines cjson _ _ _ _ _ Hc E2 E') as Hr.
    apply lifecycle_terminal in Hr; [|done]. cbn in Hr. rewrite Hr.
    rewrite decide_False; [done|]. intros E. by rewrite E in H2.
  - by rewrite (run_absent cjson _ _ _ Hc E2).
Qed.

(** A job cancelled while it waits for a retry never starts another attempt:
    whatever else happens during the sleep, the retry phase ends the job. *)
Theorem cancelled_while_waiting_ends n code after db l1 l2 w iso :
  env_sleeping env n = l1 ++ OCancel job w iso :: l2 ->
  forallb (fun o => negb (creates job o)) (env_sleeping env n) = true ->
  exists db' ws sent e, retry_phase cjson sha256 sign secret float_json job job_type cfg p env n code after db = inr (db', ws, sent, e).
Proof.
  intros Hs Hc. rewrite Hs in Hc. unfold retry_phase.
  destruct (schedule_retry _ _ _) as [db1 ok]. destruct ok; cbn [negb]; [|by eexists _, _, _, _].
  destruct (deliver _ _ _ _ _ _ _ _ _ _ _ _) as [db2 sent].
  destruct (env_sleep env n); [|by eexists _, _, _, _..].
  pose proof (cancelled_not_resumable l1 l2 w iso db2 Hc) as Hr. rewrite Hs.
  destruct (resume_retry _ _) as [db4 ok]. cbn in Hr. subst ok. by eexists _, _, _, _.
Qed.

(** *** What the webhooks report *)

Lemma get_meta_deliver_outbox j0 j ev owner net db :
  get_meta j0 (fst (deliver_outbox_event j ev owner net db)) = get_meta j0 db.
Proof.
  unfold deliver_outbox_event.
  pose proof (claim_webhook_granted j (webhookId ev) owner (net_now net) webhook_lease db) as H.
  destruct (get_event j (webhookId ev) db) as [e|]; [|by rewrite H].
  destruct (deliverable _ _); [|by rewrite H]. rewrite H.
  destruct (send_outbox_event _ _) as [l st]. unfold finish_webhook. rewrite get_event_vset.
  cbn [wlease_owner]. rewrite String.eqb_refl. cbn [fst]. by rewrite !get_meta_vset.
Qed.

(** A delivery with a new fingerprint leaves its event in the outbox, keeps the
    other events, and does not touch the job records. *)
Lemma deliver_records wid owner net ev data success err db w :
  build_webhook_intent sha256 sign secret wid cfg ev job data success err = Some w ->
  get_fingerprint job (fingerprint w) db = None ->
  let db' := fst (deliver_webhook sha256 sign secret wid owner net cfg ev job data success err db) in
  (forall j, get_meta j db' = get_meta j db) /\
  (exists e, get_event job (webhookId (intent_event w)) db' = Some e /\
     event e = event (intent_event w) /\ body e = body (intent_event w)) /\
  (forall wid', wid' <> webhookId (intent_event w) ->
     get_event job wid' db' = get_event job wid' db).
Proof.
  intros Hb Hf. unfold deliver_webhook, enqueue_webhook. rewrite Hb, Hf.
  set (ev0 := mkEvent _ _ _ _ _ _ _ _ _ _). set (db1 := vset _ _ _ (vset _ _ _ db)). cbv zeta.
  assert (He0 : get_event job (webhookId ev0) db1 = Some ev0).
  { subst db1. unfold get_event. cbn [webhookId ev0]. by vk. }
  assert (He1 : forall wid', wid' <> webhookId ev0 -> get_event job wid' db1 = get_event job wid' db).
  { intros wid' Hne. subst db1. unfold get_event. cbn [webhookId ev0] in Hne.
    by rewrite !vget_vset_ne by congruence. }
  pose proof (deliver_outbox_event_spec job ev0 owner net db1) as Hs. rewrite He0 in Hs.
  pose proof (fun j => get_meta_deliver_outbox j job ev0 owner net db1) as Hm.
  destruct (deliver_outbox_event _ _ _ _ _) as [db' l]. cbn [fst] in *. destruct Hs as [Hfr Hs].
  split_and!.
  - intros j. rewrite Hm. subst db1. by rewrite !get_meta_vset.
  - destruct (deliverable _ _).
    + destruct Hs as [_ Hs]. eexists. by split; [exact Hs|].
    + destruct Hs as [-> _]. exists ev0. by split.
  - intros wid' Hne. rewrite Hfr; [by apply He1|]. intros [= Hx]. by apply Hne.
Qed.

(** A [completed] webhook is recorded and sent even when the job did not
    complete: for a job cancelled before its work returned, [complete_job]
    refuses and the record stays cancelled, yet its outbox holds a [completed]
    event. *)
Theorem completed_event_after_cancel n ws ps data db m w :
  get_meta job db = Some m -> status m = cancelled ->
  build_webhook_intent sha256 sign secret (env_wid' env n) cfg "completed" job data true None = Some w ->
  get_fingerprint job (fingerprint w) db = None ->
  let r := finish_success cjson sha256 sign secret c job cfg env n ws ps data db in
  ending r = Completed false /\ get_meta job (final r) = Some m /\
  exists e, get_event job (webhookId (intent_event w)) (final r) = Some e /\ event e = "completed".
Proof.
  intros Hm Hs Hb Hf. unfold finish_success.
  assert (Hc : forall it now iso, complete_job cjson c job (mkData None data) it now iso db = (db, false)).
  { intros it now iso. unfold complete_job, complete_plain, complete_fenced. rewrite Hm, Hs.
    destruct c as [c'|]; [|done]. destruct (String.eqb _ _); [|done].
    destruct (execution m) as [e|]; [|done]. unfold fenced_guard. by rewrite Hs. }
  rewrite Hc. unfold deliver.
  pose proof (deliver_records _ (env_owner env n) (env_net env n) _ _ _ _ db w Hb Hf) as (H1 & (e & H2 & H3 & _) & _).
  destruct (deliver_webhook _ _ _ _ _ _ _ _ _ _ _ _ _) as [db' l]. cbn in *.
  split_and!; [done|by rewrite H1|]. exists e. split; [done|].
  apply build_event in Hb as (_ & He & _). congruence.
Qed.

(** A recorded failure leaves its intent, and only its fingerprint. *)
Lemma fail_job_records msg w now iso db :
  vget (KFingerprint job (fingerprint w)) db = None ->
  snd (fail_job c job msg (Some w) now iso db) = true ->
  let db' := fst (fail_job c job msg (Some w) now iso db) in
  (exists e, get_event job (webhookId (intent_event w)) db' = Some e /\
     event e = event (intent_event w) /\ body e = body (intent_event w)) /\
  (forall fp, fp <> fingerprint w -> get_fingerprint job fp db' = get_fingerprint job fp db).
Proof.
  intros Hf. unfold fail_job.
  assert (Hplain : snd (fail_plain job msg (Some w) iso db) = true ->
    let db' := fst (fail_plain job msg (Some w) iso db) in
    (exists e, get_event job (webhookId (intent_event w)) db' = Some e /\
       event e = event (intent_event w) /\ body e = body (intent_event w)) /\
    (forall fp, fp <> fingerprint w -> get_fingerprint job fp db' = get_fingerprint job fp db)).
  { unfold fail_plain. destruct (get_meta job db) as [m|]; [|done].
    destruct (is_active (status m)); [|done]. intros _. cbn.
    unfold enqueue_webhook, put_meta, get_fingerprint at 1 3. vk. rewrite Hf. cbn.
    split; [eexists; split; [unfold get_event; by vk|done]|]. intros fp Hne.
    unfold get_fingerprint. by rewrite !vget_vset_ne by congruence. }
  assert (Hfenced : forall c', snd (fail_fenced c' job msg (Some w) now iso db) = true ->
    let db' := fst (fail_fenced c' job msg (Some w) now iso db) in
    (exists e, get_event job (webhookId (intent_event w)) db' = Some e /\
       event e = event (intent_event w) /\ body e = body (intent_event w)) /\
    (forall fp, fp <> fingerprint w -> get_fingerprint job fp db' = get_fingerprint job fp db)).
  { intros c'. unfold fail_fenced. destruct (get_meta job db) as [m|]; [|done].
    destruct (execution m) as [e|]; [|done]. destruct (fenced_guard _ _ _ _); [|done]. intros _. cbn.
    unfold put_meta. vk. rewrite Hf.
    split; [eexists; split; [unfold get_event; by vk|done]|]. intros fp Hne.
    unfold get_fingerprint. by rewrite !vget_vset_ne by congruence. }
  destruct c as [c'|]; [|exact Hplain]. destruct (String.eqb _ _); [apply Hfenced|exact Hplain].
Qed.

(** A job that fails with an ordinary exception gets two [failed] events: the
    intent recorded with the failure, and a second one, with another
    fingerprint, built by the delivery call that omits [success] and [error];
    the second tells the receiver [success: true]. *)
Theorem failure_sends_two_events n ws ps msg db w1 w2 :
  let data := JObj [("error", JStr msg)] in
  build_webhook_intent sha256 sign secret (env_wid env n) cfg "failed" job data false (Some msg) = Some w1 ->
  build_webhook_intent sha256 sign secret (env_wid' env n) cfg "failed" job data true None = Some w2 ->
  fingerprint w1 <> fingerprint w2 -> env_wid env n <> env_wid' env n ->
  vget (KFingerprint job (fingerprint w1)) db = None -> get_fingerprint job (fingerprint w2) db = None ->
  snd (fail_job c job msg (Some w1) (env_now env n) (env_iso env n) db) = true ->
  let r := finish_failure sha256 sign secret c job cfg env n ws ps msg db in
  exists e1 e2,
    get_event job (env_wid env n) (final r) = Some e1 /\ event e1 = "failed" /\
    body e1 = dumps (payload_doc (env_wid env n) cfg "failed" job data false (Some msg)) /\
    get_event job (env_wid' env n) (final r) = Some e2 /\ event e2 = "failed" /\
    body e2 = dumps (payload_doc (env_wid' env n) cfg "failed" job data true None).
Proof.
  intros data Hb1 Hb2 Hfp Hwid Hf1 Hf2 Hok. subst data. cbv zeta. unfold finish_failure, intent. rewrite Hb1.
  destruct (fail_job_records msg w1 (env_now env n) (env_iso env n) db Hf1 Hok)
    as ((e1 & H1 & H1e & H1b) & Hfr).
  destruct (fail_job _ _ _ _ _ _ _) as [db1 ok]. cbn [fst] in *. unfold deliver.
  assert (Hf2' : get_fingerprint job (fingerprint w2) db1 = None) by (rewrite Hfr; done).
  pose proof (deliver_records _ (env_owner env n) (env_net env n) _ _ _ _ db1 w2 Hb2 Hf2')
    as (_ & (e2 & H2 & H2e & H2b) & Hot).
  destruct (deliver_webhook _ _ _ _ _ _ _ _ _ _ _ _ _) as [db2 l]. cbn [fst final] in *.
  apply build_event in Hb1 as (Hi1 & He1 & Hbd1). apply build_event in Hb2 as (Hi2 & He2 & Hbd2).
  exists e1, e2. rewrite Hi2 in *. rewrite Hi1 in *. split_and!; try congruence.
  rewrite Hot by done. done.
Qed.

End Theorems.

(** ** Witnesses *)

Definition demo_cfg : json := JObj [("url", JStr "https://hook.example.com")].

Definition demo_env (work : nat -> WorkResult) : Env :=
  mkEnv work (fun _ => []) (fun _ => Slept) (fun _ => [OIncr "j"; OCancel "j" None "t4"])
    (fun _ => 0) (fun _ => sec 20) (fun _ => "t3") (fun _ => "t9") (fun _ => "w1") (fun _ => "w2")
    (fun _ => "me") (fun _ => mkNet (sec 21) (fun _ => Accepted) (fun _ => PStatus 200)).

Lemma worker_attempts_bounded_witness :
  exists r, run_job_with_observability (fun j => j) (fun s => s) (fun _ s => s) EmptyString JNum
      (Some demo_ctx) "j" "crawl" demo_cfg RetryPolicy_default
      (demo_env (fun _ => RetryableRateLimit "429" None)) demo_running = Some r /\
    (1 <= attempts_made r)%nat /\ Z.of_nat (attempts_made r) <= 3.
Proof.
  destruct (worker_attempts_bounded (fun j => j) (fun s => s) (fun _ s => s) EmptyString JNum
      (Some demo_ctx) "j" "crawl" demo_cfg RetryPolicy_default
      (demo_env (fun _ => RetryableRateLimit "429" None)) demo_running) as (r & H1 & H2 & H3 & _).
  exists r. split; [exact H1|]. split; [exact H2|exact H3].
Defined.

Lemma cancelled_while_waiting_ends_witness :
  exists db' ws sent e, retry_phase (fun j => j) (fun s => s) (fun _ s => s) EmptyString JNum "j" "crawl"
    demo_cfg RetryPolicy_default (demo_env (fun _ => JobCancelledError)) 1 "429" None demo_running
    = inr (db', ws, sent, e).
Proof.
  exact (cancelled_while_waiting_ends (fun j => j) (fun s => s) (fun _ s => s) EmptyString JNum "j" "crawl"
    demo_cfg RetryPolicy_default (demo_env (fun _ => JobCancelledError)) 1 "429" None demo_running
    [OIncr "j"] [] None "t4" eq_refl eq_refl).
Defined.

Definition demo_cancelled : gmap key value := fst (cancel_job "j" None "t3" demo_running).

Lemma completed_event_after_cancel_witness :
  exists e, get_event "j" "w2" (final (finish_success (fun j => j) (fun s => s) (fun _ s => s) EmptyString
      (Some demo_ctx) "j" demo_cfg (demo_env (fun _ => JobCancelledError)) 1 [] [] (JObj []) demo_cancelled))
    = Some e /\ event e = "completed".
Proof.
  epose proof (completed_event_after_cancel (fun j => j) (fun s => s) (fun _ s => s) EmptyString
      (Some demo_ctx) "j" demo_cfg (demo_env (fun _ => JobCancelledError)) 1 [] [] (JObj [])
      demo_cancelled) as H.
  destruct (H _ _ ltac:(vm_compute; reflexivity) ltac:(reflexivity) ltac:(reflexivity)
              ltac:(vm_compute; reflexivity)) as (_ & _ & He). exact He.
Defined.

Lemma failure_sends_two_events_witness :
  exists e1 e2, let db' := final (finish_failure (fun s => s) (fun _ s => s) EmptyString
      (Some demo_ctx) "j" demo_cfg (demo_env (fun _ => JobCancelledError)) 1 [] [] "boom" demo_running) in
    get_event "j" "w1" db' = Some e1 /\ get_event "j" "w2" db' = Some e2 /\
    event e1 = "failed" /\ event e2 = "failed".
Proof.
  epose proof (failure_sends_two_events (fun s => s) (fun _ s => s) EmptyString
      (Some demo_ctx) "j" demo_cfg (demo_env (fun _ => JobCancelledError)) 1 [] [] "boom"
      demo_running) as H.
  destruct (H _ _ ltac:(reflexivity) ltac:(reflexivity)
      ltac:(vm_compute; discriminate) ltac:(discriminate) ltac:(vm_compute; reflexivity)
      ltac:(vm_compute; reflexivity) ltac:(vm_compute; reflexivity))
    as (e1 & e2 & H1 & H2 & _ & H3 & H4 & _).
  exists e1, e2. cbv zeta. repeat split; assumption.
Defined.
