(* ===== verification/TaskTracker.v ===== *)
(** * Background tasks ([src/agent-svc/agent/tasks.py])

    [TaskTracker] keeps the set of running tasks, the owning task of each job
    and the job's cancel token.  A finished task's callbacks run on a later turn
    of the event loop, so finishing ([finish]) and the callbacks ([callback])
    are separate steps, and other steps may come between them. *)

From S2P Require Import Prelude.

Record Tracker := mkTracker {
  tasks : gset nat;
  shutdown_event : bool;
  job_tokens : gmap string bool;      (* whether the token is set *)
  job_tasks : gmap string nat;
  (* the event loop's side: who is done, cancelled, and which job a task serves *)
  finished : gset nat;
  cancelled_tasks : gset nat;
  task_job : gmap nat string
}.

Definition tracker_init : Tracker := mkTracker ∅ false ∅ ∅ ∅ ∅ ∅.

(** [task.done()]. *)
Definition done_ (s : Tracker) (t : nat) : bool := bool_decide (t ∈ finished s).

(** [create_background_task]; [t] is the identity a new task would get. *)
Definition create_background_task (t : nat) (job_id : option string) (s : Tracker) : Tracker * nat :=
  let fresh :=
    (mkTracker ({[t]} ∪ tasks s) (shutdown_event s) (job_tokens s)
       (match job_id with Some j => <[j := t]> (job_tasks s) | None => job_tasks s end)
       (finished s) (cancelled_tasks s)
       (match job_id with Some j => <[t := j]> (task_job s) | None => task_job s end), t) in
  match job_id with
  | Some j =>
      match job_tasks s !! j with
      | Some existing => if negb (done_ s existing) then (s, existing) else fresh
      | None => fresh
      end
  | None => fresh
  end.

(** The task [t] ends; its callbacks are scheduled. *)
Definition finish (t : nat) (s : Tracker) : Tracker :=
  mkTracker (tasks s) (shutdown_event s) (job_tokens s) (job_tasks s) ({[t]} ∪ finished s)
    (cancelled_tasks s) (task_job s).

(** The callbacks of [t]: [_tasks.discard] and, for a job, [_job_task_done]. *)
Definition job_task_done (j : string) (s : Tracker) : Tracker :=
  mkTracker (tasks s) (shutdown_event s) (delete j (job_tokens s)) (delete j (job_tasks s))
    (finished s) (cancelled_tasks s) (task_job s).

Definition callback (t : nat) (s : Tracker) : Tracker :=
  if done_ s t then
    let s1 := mkTracker (tasks s ∖ {[t]}) (shutdown_event s) (job_tokens s) (job_tasks s)
                (finished s) (cancelled_tasks s) (task_job s) in
    match task_job s !! t with Some j => job_task_done j s1 | None => s1 end
  else s.

(** [cancel_token]. *)
Definition cancel_token (j : string) (s : Tracker) : Tracker * bool :=
  match job_tokens s !! j with
  | Some b => (s, b)
  | None => (mkTracker (tasks s) (shutdown_event s) (<[j := false]> (job_tokens s)) (job_tasks s)
               (finished s) (cancelled_tasks s) (task_job s), false)
  end.

(** [cancel_job]. *)
Definition cancel_job (j : string) (s : Tracker) : Tracker * bool :=
  let tokens := match job_tokens s !! j with
                | Some _ => <[j := true]> (job_tokens s) | None => job_tokens s end in
  match job_tasks s !! j with
  | Some t =>
      if negb (done_ s t) then
        (mkTracker (tasks s) (shutdown_event s) tokens (job_tasks s) (finished s)
           ({[t]} ∪ cancelled_tasks s) (task_job s), true)
      else (mkTracker (tasks s) (shutdown_event s) tokens (job_tasks s) (finished s)
              (cancelled_tasks s) (task_job s), false)
  | None => (mkTracker (tasks s) (shutdown_event s) tokens (job_tasks s) (finished s)
               (cancelled_tasks s) (task_job s), false)
  end.

(** [shutdown]; [ended] are the tasks that finish within the grace period. *)
Definition shutdown (ended : gset nat) (s : Tracker) : Tracker :=
  if bool_decide (tasks s = ∅) then
    mkTracker (tasks s) true (job_tokens s) (job_tasks s) (finished s) (cancelled_tasks s) (task_job s)
  else
    let fin := finished s ∪ ended in
    mkTracker (tasks s) true (job_tokens s) (job_tasks s) fin
      (cancelled_tasks s ∪ (tasks s ∖ fin)) (task_job s).

Inductive top :=
| TCreate (job_id : option string)
| TFinish (t : nat)
| TCallback (t : nat)
| TToken (j : string)
| TCancel (j : string).

(** A run numbers the tasks in order of creation. *)
Definition tstep (sn : Tracker * nat) (o : top) : Tracker * nat :=
  let '(s, n) := sn in
  match o with
  | TCreate job_id => (fst (create_background_task n job_id s), S n)
  | TFinish t => (if bool_decide (t ∈ tasks s) then finish t s else s, n)
  | TCallback t => (if bool_decide (t ∈ tasks s) then callback t s else s, n)   (* once *)
  | TToken j => (fst (cancel_token j s), n)
  | TCancel j => (fst (cancel_job j s), n)
  end.

Definition trun (ops : list top) : Tracker * nat := run_ops tstep (tracker_init, O) ops.

(** The live tasks of a job. *)
Definition live (s : Tracker) (j : string) (t : nat) : Prop :=
  task_job s !! t = Some j /\ t ∉ finished s.

(** ** Theorems *)

(** The callbacks of the finished tasks of [j] have run. *)
Definition settled (s : Tracker) (j : string) : Prop :=
  forall t, task_job s !! t = Some j -> t ∈ tasks s -> t ∉ finished s.

(** Runs in which a job is only created again once the callbacks of its previous
    task have run. *)
Inductive prompt : Tracker -> nat -> Prop :=
| prompt_init : prompt tracker_init 0
| prompt_step s n o s' n' :
    prompt s n ->
    match o with TCreate (Some j) => settled s j | _ => True end ->
    tstep (s, n) o = (s', n') -> prompt s' n'.

Record tracker_inv (s : Tracker) (n : nat) : Prop := {
  inv_below : forall t, (n <= t)%nat -> task_job s !! t = None /\ t ∉ finished s /\ t ∉ tasks s;
  inv_owner : forall j t, live s j t -> job_tasks s !! j = Some t /\ t ∈ tasks s;
  inv_entry : forall j t, job_tasks s !! j = Some t -> task_job s !! t = Some j;
  inv_stale : forall j t t', task_job s !! t = Some j -> t ∈ finished s -> t ∈ tasks s ->
                ~ live s j t'
}.

Lemma tracker_inv_create s n job_id :
  tracker_inv s n -> match job_id with Some j => settled s j | None => True end ->
  tracker_inv (fst (create_background_task n job_id s)) (S n).
Proof.
  intros [Hb Ho He Hs] Hset. destruct (Hb n) as (Hbn1 & Hbn2 & _); [lia|].
  assert (Hb' : forall t, (S n <= t)%nat ->
            task_job s !! t = None /\ t ∉ finished s /\ t ∉ tasks s /\ t ∉ {[n]} ∪ tasks s).
  { intros t Ht. destruct (Hb t) as (? & ? & ?); [lia|]. set_solver by lia. }
  unfold create_background_task. destruct job_id as [j|]; cbn [fst].
  2:{ split; cbn; [intros t Ht; by destruct (Hb' t Ht) as (? & ? & ? & ?)| |done|].
      - intros j t [H1 H2]. destruct (Ho j t) as [? ?]; [by split|]. set_solver.
      - intros j t t' H1 H2 H3. apply (Hs j t t' H1 H2). set_solver. }
  destruct (job_tasks s !! j) as [t0|] eqn:Ej; [destruct (done_ s t0) eqn:Ed|]; cbn [negb].
  2:{ cbn. split; [|done..]. intros t Ht. by destruct (Hb' t Ht) as (? & ? & ? & ?). }
  all: assert (Hnolive : forall t, ~ live s j t).
  1:{ intros t Hl. destruct (Ho _ _ Hl) as [E _]. rewrite Ej in E. injection E as <-.
      destruct Hl as [_ Hl]. unfold done_ in Ed. by apply bool_decide_eq_true in Ed. }
  2:{ intros t Hl. destruct (Ho _ _ Hl) as [E _]. congruence. }
  all: split; cbn.
  all: try (intros t Ht; rewrite lookup_insert_ne by lia; by destruct (Hb' t Ht) as (? & ? & ? & ?)).
  all: try (intros j' t [H1 H2]; cbn in *; destruct (decide (t = n)) as [->|Hne];
    [rewrite lookup_insert_eq in H1; simplify_eq; rewrite lookup_insert_eq; set_solver|
     rewrite lookup_insert_ne in H1 by done; destruct (Ho j' t) as [H3 H4]; [by split|];
     rewrite lookup_insert_ne; [set_solver|]; intros ->; by apply (Hnolive t)]).
  all: try (intros j' t H1; destruct (decide (j' = j)) as [->|Hne];
    [rewrite lookup_insert_eq in H1; simplify_eq; by rewrite lookup_insert_eq|
     rewrite lookup_insert_ne in H1 by done; apply He in H1;
     rewrite lookup_insert_ne; [done|]; intros ->; congruence]).
  all: intros j' t t' H1 H2 H3 [H4 H5]; cbn in *;
    (destruct (decide (t = n)) as [->|Hne]; [done|]); rewrite lookup_insert_ne in H1 by done;
    (destruct (decide (t' = n)) as [->|Hne']);
    [rewrite lookup_insert_eq in H4; simplify_eq; apply (Hset t H1); set_solver|
     rewrite lookup_insert_ne in H4 by done; apply (Hs j' t t' H1 H2); [set_solver|by split]].
Qed.

Lemma tracker_inv_finish s n t : tracker_inv s n -> t ∈ tasks s -> tracker_inv (finish t s) n.
Proof.
  intros [Hb Ho He Hs] Ht. split; cbn.
  - intros t' Ht'. destruct (Hb t' Ht') as (? & ? & ?). set_solver.
  - intros j t' [H1 H2]. cbn in *. apply Ho. split; [done|set_solver].
  - done.
  - intros j t1 t2 H1 H2 H3 [H4 H5]. cbn in *. apply elem_of_union in H2 as [H2|H2].
    + apply elem_of_singleton in H2 as ->.
      destruct (Ho j t2) as [E2 _]; [split; [done|set_solver]|].
      destruct (decide (t ∈ finished s)) as [Hf|Hf].
      * apply (Hs j t t2 H1 Hf H3). split; [done|set_solver].
      * destruct (Ho j t) as [E1 _]; [by split|]. rewrite E1 in E2. injection E2 as ->. set_solver.
    + apply (Hs j t1 t2 H1 H2 H3). split; [done|set_solver].
Qed.

Lemma tracker_inv_callback s n t : tracker_inv s n -> t ∈ tasks s -> tracker_inv (callback t s) n.
Proof.
  intros [Hb Ho He Hs] Ht. unfold callback. destruct (done_ s t) eqn:Ed; [|done].
  unfold done_ in Ed. apply bool_decide_eq_true in Ed.
  destruct (task_job s !! t) as [j|] eqn:Ej; split; cbn; try done;
    try (intros t' Ht'; destruct (Hb t' Ht') as (? & ? & ?); set_solver).
  - intros j' t' Hl. destruct (Ho j' t' Hl) as [H1 H2].
    assert (j' <> j) by (intros ->; by apply (Hs j t t')). rewrite lookup_delete_ne by done.
    split; [done|]. destruct Hl as [? Hl]. cbn in Hl. set_solver.
  - intros j' t' [_ H1]%lookup_delete_Some. by apply He.
  - intros j' t1 t2 H1 H2 H3. apply (Hs j' t1 t2 H1 H2). set_solver.
  - intros j' t' Hl. destruct (Ho j' t' Hl) as [H1 H2]. split; [done|].
    destruct Hl as [? Hl]. cbn in Hl. set_solver.
  - intros j' t1 t2 H1 H2 H3. apply (Hs j' t1 t2 H1 H2). set_solver.
Qed.

(** The token and cancellation operations change neither ownership nor the set. *)
Lemma tracker_inv_cancel s n j : tracker_inv s n ->
  tracker_inv (fst (cancel_token j s)) n /\ tracker_inv (fst (cancel_job j s)) n.
Proof.
  intros [Hb Ho He Hs]. unfold cancel_token, cancel_job. split.
  - destruct (job_tokens s !! j); by split.
  - destruct (job_tasks s !! j) as [t|]; [destruct (negb (done_ s t))|]; by split.
Qed.

Lemma prompt_inv s n : prompt s n -> tracker_inv s n.
Proof.
  induction 1 as [|s n o s' n' _ IH Hp E].
  - split; cbn; try done. intros j t [H _]. done.
  - destruct o as [job_id|t|t|j|j]; cbn in E; injection E as <- <-.
    + by apply tracker_inv_create.
    + case_bool_decide; [by apply tracker_inv_finish|done].
    + case_bool_decide; [by apply tracker_inv_callback|done].
    + by apply tracker_inv_cancel.
    + by apply tracker_inv_cancel.
Qed.

(** One worker per job: in every run where a job is recreated only after its
    previous task's callbacks ran, a job has at most one unfinished task,
    creating it again returns that task without starting another, and
    cancelling the job cancels exactly that task. *)
Theorem one_live_task_per_job s n j t :
  prompt s n -> live s j t ->
  (forall t', live s j t' -> t' = t) /\
  (forall t', create_background_task t' (Some j) s = (s, t)) /\
  snd (cancel_job j s) = true /\ cancelled_tasks (fst (cancel_job j s)) = {[t]} ∪ cancelled_tasks s.
Proof.
  intros Hp Hl. pose proof (prompt_inv _ _ Hp) as [_ Ho _ _]. destruct (Ho _ _ Hl) as [Hj _].
  assert (Hd : done_ s t = false) by (apply bool_decide_eq_false; apply Hl).
  split_and!.
  - intros t' Hl'. destruct (Ho _ _ Hl') as [Hj' _]. congruence.
  - intros t'. unfold create_background_task. by rewrite Hj, Hd.
  - unfold cancel_job. by rewrite Hj, Hd.
  - unfold cancel_job. by rewrite Hj, Hd.
Qed.

Lemma one_live_task_per_job_witness :
  exists s n, prompt s n /\ live s "j" 0 /\ (forall t', live s "j" t' -> t' = 0%nat).
Proof.
  assert (Hp : prompt (fst (trun [TCreate (Some "j")])) 1).
  { eapply (prompt_step tracker_init 0 (TCreate (Some "j")));
      [constructor|intros t Ht; discriminate Ht|reflexivity]. }
  assert (Hl : live (fst (trun [TCreate (Some "j")])) "j" 0).
  { split; [reflexivity|]. cbn. apply not_elem_of_empty. }
  eexists _, 1%nat. split; [exact Hp|]. split; [exact Hl|].
  exact (proj1 (one_live_task_per_job _ _ "j" 0 Hp Hl)).
Defined.

(** When a job is recreated between the end of its previous task and that
    task's callbacks, the late callback forgets the new task: it keeps running
    unowned, a further creation starts a second live task for the job, and
    cancelling the job reaches only the second one. *)
Theorem stale_callback_orphans_task :
  let s := fst (trun [TCreate (Some "j"); TFinish 0; TCreate (Some "j"); TCallback 0;
                      TCreate (Some "j")]) in
  live s "j" 1 /\ live s "j" 2 /\ cancelled_tasks (fst (cancel_job "j" s)) = {[2%nat]}.
Proof. split_and!; [split; [done|by vm_compute]..|by vm_compute]. Qed.
