(* ===== verification/PathFilter.v ===== *)
(** * Path filters of a crawl ([src/agent-svc/agent/crawler.py])

    [_glob_to_regex] builds an anchored regular expression from a glob; the
    regular expressions it can build have four kinds of atoms, so a regex is
    the list of its atoms ([glob_to_regex] prints it) and [atoms_match] is what
    [re.search] does with it.  In regex mode the pattern is the user's and the
    engine a parameter ([re_search], [None] for [re.error]).

    The theorems: a glob matches exactly what its documentation says; the filter
    admits a URL exactly when no exclude pattern and some include pattern (if
    any are given) matches; a refused URL always gets a reason, the right one. *)

From S2P Require Import Prelude Strings Url.

(** ** Globs *)

Inductive atom :=
| AnyStar           (* .*    *)
| SegStar           (* [^/]* *)
| AnyChar           (* .     *)
| Lit (c : ascii).

Definition newline : ascii := ascii_of_nat 10.

(** The loop of [_glob_to_regex]. *)
Fixpoint glob_atoms (pattern : string) : list atom :=
  match pattern with
  | EmptyString => []
  | String c rest =>
      if Ascii.eqb c "*" then
        match rest with
        | String d rest' => if Ascii.eqb d "*" then AnyStar :: glob_atoms rest' else SegStar :: glob_atoms rest
        | EmptyString => SegStar :: glob_atoms rest
        end
      else if Ascii.eqb c "?" then AnyChar :: glob_atoms rest
      else Lit c :: glob_atoms rest
  end.

Definition special (c : ascii) : bool := contains c ".^$+{}[]\|()".

Definition print_atom (a : atom) : string :=
  match a with
  | AnyStar => ".*"
  | SegStar => "[^/]*"
  | AnyChar => "."
  | Lit c => if special c then String "\" (String c EmptyString) else String c EmptyString
  end.

Definition glob_to_regex (pattern : string) : string :=
  "^" +:+ foldr String.append EmptyString (print_atom <$> glob_atoms pattern) +:+ "$".

(** [$] matches at the end and before a final newline. *)
Definition at_end (s : string) : bool :=
  match s with
  | EmptyString => true
  | String c EmptyString => Ascii.eqb c newline
  | _ => false
  end.

(** The matcher for the atoms after [^]: a star tries every number of
    characters. *)
Fixpoint atoms_match (l : list atom) : string -> bool :=
  match l with
  | [] => at_end
  | Lit c :: l => fun s => match s with String d s => Ascii.eqb c d && atoms_match l s | _ => false end
  | AnyChar :: l => fun s =>
      match s with String d s => negb (Ascii.eqb d newline) && atoms_match l s | _ => false end
  | AnyStar :: l =>
      fix star s := atoms_match l s ||
        match s with String d s => negb (Ascii.eqb d newline) && star s | EmptyString => false end
  | SegStar :: l =>
      fix star s := atoms_match l s ||
        match s with String d s => negb (Ascii.eqb d "/") && star s | EmptyString => false end
  end.

(** [bool(re.search(_glob_to_regex(pattern), target))]. *)
Definition glob_search (pattern target : string) : bool := atoms_match (glob_atoms pattern) target.

(** ** Filters *)

Section Filters.
Context (re_search : string -> string -> option bool).

(** [_matches_pattern]. *)
Definition matches_pattern (regex_on_full_url : bool) (target pattern : string) : bool :=
  if regex_on_full_url then default false (re_search pattern target)
  else glob_search pattern target.

Definition filter_target (regex_on_full_url : bool) (url : string) : option string :=
  if regex_on_full_url then Some url else path <$> urlparse url.

(** The loops of [_match_path] over the exclude and the include patterns. *)
Fixpoint excluded (rx : bool) (target : string) (patterns : list string) : bool :=
  match patterns with
  | [] => false
  | p :: ps => if matches_pattern rx target p then true else excluded rx target ps
  end.

Fixpoint included (rx : bool) (target : string) (patterns : list string) : bool :=
  match patterns with
  | [] => false
  | p :: ps => if matches_pattern rx target p then true else included rx target ps
  end.

(** [_match_path]; an absent list is the empty one ([if exclude_paths:]). *)
Definition match_path (include_paths exclude_paths : list string) (rx : bool) (url : string)
    : option bool :=
  match filter_target rx url with
  | None => None
  | Some target =>
      Some (if excluded rx target exclude_paths then false
            else match include_paths with
                 | [] => true
                 | _ => included rx target include_paths
                 end)
  end.

Record FilterReason := mkReason { fr_url : string; fr_reason : string; fr_pattern : option string }.

Fixpoint first_match (rx : bool) (target : string) (patterns : list string) : option string :=
  match patterns with
  | [] => None
  | p :: ps => if matches_pattern rx target p then Some p else first_match rx target ps
  end.

(** [_get_filter_reason]. *)
Definition get_filter_reason (include_paths exclude_paths : list string) (rx : bool) (url : string)
    : option FilterReason :=
  match filter_target rx url with
  | None => None
  | Some target =>
      match first_match rx target exclude_paths with
      | Some p => Some (mkReason url "exclude_paths" (Some p))
      | None =>
          match include_paths with
          | [] => None
          | _ => Some (mkReason url "include_paths" None)
          end
      end
  end.

(** ** Theorems *)

Lemma excluded_exists rx t ps : excluded rx t ps = true <-> exists p, p ∈ ps /\ matches_pattern rx t p = true.
Proof.
  induction ps as [|p ps IH]; cbn; [split; [done|by intros (p & ?%not_elem_of_nil & _)]|].
  destruct (matches_pattern rx t p) eqn:E.
  - split; [|done]. intros _. exists p. split; [by left|done].
  - rewrite IH. split; intros (q & Hq & Hm); exists q; (split; [|done]).
    + by right.
    + apply elem_of_cons in Hq as [->|Hq]; [congruence|done].
Qed.

Lemma included_excluded rx t ps : included rx t ps = excluded rx t ps.
Proof. by induction ps as [|p ps IH]; cbn; rewrite ?IH. Qed.

Lemma first_match_spec rx t ps :
  match first_match rx t ps with
  | Some p => p ∈ ps /\ matches_pattern rx t p = true
  | None => excluded rx t ps = false
  end.
Proof.
  induction ps as [|p ps IH]; cbn; [done|]. destruct (matches_pattern rx t p) eqn:E.
  - split; [by left|done].
  - destruct (first_match rx t ps); [|done]. destruct IH. split; [by right|done].
Qed.

(** The crawl filter: a URL passes exactly when no exclude pattern matches
    its target and, if include patterns are given, some include pattern does
    (exclusion wins); and a URL that does not pass always gets a reason, naming
    an exclude pattern that matches it or the include list. *)
Theorem match_path_spec inc exc rx url target :
  filter_target rx url = Some target ->
  (match_path inc exc rx url = Some true <->
     (forall p, p ∈ exc -> matches_pattern rx target p = false) /\
     (inc = [] \/ exists p, p ∈ inc /\ matches_pattern rx target p = true)) /\
  (match_path inc exc rx url = Some false ->
     exists r, get_filter_reason inc exc rx url = Some r /\
       match fr_pattern r with
       | Some p => fr_reason r = "exclude_paths" /\ p ∈ exc /\ matches_pattern rx target p = true
       | None => fr_reason r = "include_paths" /\
                 forall p, p ∈ inc -> matches_pattern rx target p = false
       end).
Proof.
  intros Ht. unfold match_path, get_filter_reason. rewrite Ht.
  assert (Hex : excluded rx target exc = false <-> forall p, p ∈ exc -> matches_pattern rx target p = false).
  { pose proof (excluded_exists rx target exc) as H. destruct (excluded rx target exc).
    - split; [done|]. intros Hn. destruct H as [H _]. destruct (H eq_refl) as (p & Hp & Hm).
      by rewrite Hn in Hm.
    - split; [|done]. intros _ p Hp. destruct (matches_pattern rx target p) eqn:E; [|done].
      destruct H as [_ H]. symmetry. apply H. eauto. }
  pose proof (first_match_spec rx target exc) as Hf. split.
  - destruct (excluded rx target exc) eqn:E.
    + split; [done|]. intros [Hn _]. by rewrite <- Hex in Hn.
    + rewrite <- Hex. destruct inc as [|i inc]; [split; [auto|done]|].
      rewrite included_excluded. split.
      * intros [= H]. split; [done|]. right. by apply excluded_exists.
      * intros [_ [?|H]]; [done|]. f_equal. by apply excluded_exists.
  - intros Hm. destruct (first_match rx target exc) as [p|] eqn:Ef.
    + eexists. split; [done|]. cbn. by destruct Hf.
    + rewrite Hf in Hm. destruct inc as [|i inc]; [done|]. eexists. split; [done|]. cbn. split; [done|].
      injection Hm as Hm. change (included rx target (i :: inc) = false) in Hm.
      rewrite included_excluded in Hm. intros p Hp.
      destruct (matches_pattern rx target p) eqn:E; [|done].
      assert (excluded rx target (i :: inc) = true) by (apply excluded_exists; eauto). congruence.
Qed.

End Filters.

(** What the documentation of [_glob_to_regex] says a glob matches. *)
Inductive glob_spec : string -> string -> Prop :=
| gs_nil : glob_spec "" ""
| gs_double p u v : glob_spec p v -> glob_spec ("**" +:+ p) (u +:+ v)
| gs_star p u v :
    starts_with "*" p = false -> contains "/" u = false -> glob_spec p v ->
    glob_spec ("*" +:+ p) (u +:+ v)
| gs_question p c v : glob_spec p v -> glob_spec ("?" +:+ p) (String c v)
| gs_char c p v : c <> "*"%char -> c <> "?"%char -> glob_spec p v -> glob_spec (String c p) (String c v).

(** The strings a star of [l] can leave to the rest. *)
Lemma star_match (ok : ascii -> bool) (rest : string -> bool) s :
  (fix star s := rest s || match s with String d s => ok d && star s | EmptyString => false end) s = true
  <-> exists u v, s = u +:+ v /\ sforall ok u = true /\ rest v = true.
Proof.
  induction s as [|d s IH].
  - rewrite orb_false_r. split; [intros H; by exists "", ""|]. intros (u & v & E & _ & H).
    destruct u; [|done]. rewrite sapp_nil in E. by subst.
  - rewrite orb_true_iff, andb_true_iff, IH. split.
    + intros [H|(Hd & u & v & -> & Hu & Hv)]; [by exists "", (String d s)|].
      exists (String d u), v. rewrite sapp_cons. cbn. by rewrite Hd.
    + intros (u & v & E & Hu & Hv). destruct u as [|c u].
      * left. rewrite sapp_nil in E. by subst.
      * right. rewrite sapp_cons in E. injection E as -> ->. cbn in Hu. bool_to_prop. eauto 10.
Qed.

Lemma sforall_not c s : sforall (fun d => negb (Ascii.eqb d c)) s = negb (contains c s).
Proof.
  induction s as [|d s IH]; cbn; [done|]. by rewrite IH, negb_orb, (Ascii.eqb_sym c d).
Qed.

(** Matching the atoms, for targets without a newline. *)
Inductive atoms_spec : list atom -> string -> Prop :=
| as_nil : atoms_spec [] ""
| as_any_star l u v : atoms_spec l v -> atoms_spec (AnyStar :: l) (u +:+ v)
| as_seg_star l u v : contains "/" u = false -> atoms_spec l v -> atoms_spec (SegStar :: l) (u +:+ v)
| as_any l c v : atoms_spec l v -> atoms_spec (AnyChar :: l) (String c v)
| as_lit l c v : atoms_spec l v -> atoms_spec (Lit c :: l) (String c v).

Lemma atoms_match_spec l : forall s, contains newline s = false ->
  (atoms_match l s = true <-> atoms_spec l s).
Proof.
  induction l as [|a l IH]; intros s Hs.
  { cbn. destruct s as [|c s]; [split; [constructor|done]|]. cbn in Hs. rewrite Ascii.eqb_sym in Hs.
    apply orb_false_iff in Hs as [Hc _]. split; [|by inversion 1].
    destruct s; cbn; [by rewrite Hc|done]. }
  destruct a as [| | |c]; cbn [atoms_match].
  - rewrite (star_match (fun d => negb (Ascii.eqb d newline))). split.
    + intros (u & v & -> & _ & Hv). rewrite contains_app in Hs. apply orb_false_iff in Hs as [_ Hs].
      constructor. by apply IH.
    + inversion 1; subst. rewrite contains_app in Hs. apply orb_false_iff in Hs as [Hu Hs].
      eexists _, _. split; [done|]. rewrite sforall_not, Hu. split; [done|]. by apply IH.
  - rewrite (star_match (fun d => negb (Ascii.eqb d "/"))). split.
    + intros (u & v & -> & Hu & Hv). rewrite contains_app in Hs. apply orb_false_iff in Hs as [_ Hs].
      rewrite sforall_not in Hu. constructor; [by bool_to_prop|]. by apply IH.
    + inversion 1 as [| |? u v Hu Hv| |]; subst. rewrite contains_app in Hs. apply orb_false_iff in Hs as [_ Hs].
      eexists _, _. split; [done|]. rewrite sforall_not, Hu. split; [done|]. by apply IH.
  - destruct s as [|d s]; [split; [done|by inversion 1]|]. cbn in Hs. apply orb_false_iff in Hs as [Hd Hs].
    rewrite Ascii.eqb_sym, Hd. cbn. rewrite IH by done. split; [by constructor|by inversion 1].
  - destruct s as [|d s]; [split; [done|by inversion 1]|]. cbn in Hs. apply orb_false_iff in Hs as [Hd Hs].
    rewrite andb_true_iff, Ascii.eqb_eq, IH by done. split; [intros [-> ?]; by constructor|by inversion 1].
Qed.

Lemma glob_spec_atoms p t : glob_spec p t -> atoms_spec (glob_atoms p) t.
Proof.
  induction 1 as [|p u v _ IH|p u v Hp Hu _ IH|p c v _ IH|c p v H1 H2 _ IH].
  - constructor.
  - exact (as_any_star _ u v IH).
  - rewrite sapp_cons, sapp_nil. cbn [glob_atoms]. change (Ascii.eqb "*" "*") with true. cbv iota.
    destruct p as [|d p]; [by constructor|]. cbn [starts_with] in Hp. rewrite andb_true_r, Ascii.eqb_sym in Hp.
    rewrite Hp. by constructor.
  - by constructor.
  - cbn [glob_atoms]. rewrite (proj2 (Ascii.eqb_neq _ _) H1), (proj2 (Ascii.eqb_neq _ _) H2). by constructor.
Qed.

Lemma atoms_glob_spec n : forall p t, (slen p <= n)%nat -> atoms_spec (glob_atoms p) t -> glob_spec p t.
Proof.
  induction n as [|n IH]; intros p t Hn H; destruct p as [|c p]; cbn in Hn; try lia;
    try (inversion H; constructor).
  cbn [glob_atoms] in H. destruct (Ascii.eqb_spec c "*") as [->|Hc].
  - destruct p as [|d p].
    + inversion H as [| |? u v Hu Hv| |]; subst. apply (gs_star "" u v); [done|done|]. by apply IH; cbn; [lia|].
    + destruct (Ascii.eqb_spec d "*") as [->|Hd].
      * inversion H as [|? u v Hv| | |]; subst. apply (gs_double p u v). apply IH; [cbn in Hn; lia|done].
      * inversion H as [| |? u v Hu Hv| |]; subst. apply (gs_star (String d p) u v); [|done|].
        -- cbn. rewrite andb_true_r, Ascii.eqb_sym. by apply Ascii.eqb_neq.
        -- apply IH; [cbn in *; lia|done].
  - destruct (Ascii.eqb_spec c "?") as [->|Hq]; inversion H; subst.
    + apply (gs_question p). apply IH; [lia|done].
    + constructor; [done|done|]. apply IH; [lia|done].
Qed.

(** Globs mean what the documentation says: on a target without newlines
    (URL parsing removes them) [re.search] with the built expression succeeds
    exactly when [**] stands for any characters, [*] for any characters but
    [/], [?] for one character and every other character, special to regular
    expressions or not, for itself, over the whole target. *)
Theorem glob_search_correct pattern target :
  contains newline target = false ->
  (glob_search pattern target = true <-> glob_spec pattern target).
Proof.
  intros Hn. unfold glob_search. rewrite (atoms_match_spec _ _ Hn).
  split; [by apply (atoms_glob_spec (slen pattern))|apply glob_spec_atoms].
Qed.

Lemma glob_search_correct_witness :
  contains newline "/blog/2024/a.html" = false /\ glob_spec "/blog/**.html" "/blog/2024/a.html" /\
  glob_search "/blog/*.html" "/blog/2024/a.html" = false.
Proof.
  split; [reflexivity|]. split; [|reflexivity].
  apply (glob_search_correct "/blog/**.html" "/blog/2024/a.html" eq_refl). reflexivity.
Defined.

Lemma match_path_spec_witness :
  match_path (fun _ _ => None) ["/docs/**"] ["/docs/old/*"] false "https://h/docs/old/x" = Some false /\
  exists r, get_filter_reason (fun _ _ => None) ["/docs/**"] ["/docs/old/*"] false "https://h/docs/old/x"
    = Some r.
Proof.
  assert (H : match_path (fun _ _ => None) ["/docs/**"] ["/docs/old/*"] false "https://h/docs/old/x"
    = Some false) by (vm_compute; reflexivity).
  split; [exact H|].
  destruct (proj2 (match_path_spec (fun _ _ => None) ["/docs/**"] ["/docs/old/*"] false
    "https://h/docs/old/x" "/docs/old/x" eq_refl) H) as (r & Hr & _).
  exists r. exact Hr.
Defined.
