(* ===== verification/Politeness.v ===== *)
(** * Scraper politeness ([src/scraper-svc/scraper/politeness.py])

    [PolitenessManager]: robots.txt rules and per-domain pacing.  [Manager] is its
    state, [check] the whole gate (the per-domain lock makes it one step for a
    domain; what the cache, the network and the clock answer are arguments), and
    [reserve_slot] the shared reservation script of [valkey_control.py].
    [check_and_delay] is the caller in [fetch.py].  Times are microseconds, the
    shared slots milliseconds as in the script.  [py_float] is [float()] of a
    Crawl-delay value.  A disallowed path is kept as the path, and [robots_match]
    is what the compiled pattern matches; reasons in messages are left out.

    The theorems: a path is blocked exactly when a rule of an applicable group
    matches it; shared slots are never closer than the delay and never more than
    the ceiling away; a burst of local checks is staggered; and two runs where
    the local pacing and the grouping of user agents fail. *)

From S2P Require Import Prelude Strings Url PathFilter.

(** ** robots.txt *)

(** The line breaks of [str.splitlines] below code point 256. *)
Definition is_break (c : ascii) : bool :=
  let n := chr c in
  Nat.eqb n 10 || Nat.eqb n 11 || Nat.eqb n 12 || Nat.eqb n 13 || Nat.eqb n 28 || Nat.eqb n 29 || Nat.eqb n 30
  || Nat.eqb n 133.

(** [text.splitlines()]: [cur] is the line being read, reversed. *)
Fixpoint splitlines_from (cur : string -> string) (fresh : bool) (s : string) : list string :=
  match s with
  | EmptyString => if fresh then [] else [cur EmptyString]
  | String c s' =>
      if is_break c then
        cur EmptyString ::
        match s' with
        | String d s'' =>
            if Nat.eqb (chr c) 13 && Nat.eqb (chr d) 10 then splitlines_from id true s''
            else splitlines_from id true s'
        | EmptyString => []
        end
      else splitlines_from (fun t => cur (String c t)) false s'
  end.
Definition splitlines (s : string) : list string := splitlines_from id true s.

(** [line.split(":", 1)[1].strip()], of a line that has a colon. *)
Definition directive_value (line : string) : string :=
  let '(_, _, v) := partition ":" line in strip v.

Definition is_directive (name line : string) : bool := starts_with name (lower line).

Section Politeness.
Context (py_float : string -> option usec).

(** The accumulators of the loop of [_parse_robots_txt]. *)
Record RobotsParse := mkRobotsParse {
  p_disallowed : list string; p_delay : option usec; p_sitemaps : list string; p_applicable : bool
}.

(** One line. *)
Definition parse_line (p : RobotsParse) (raw : string) : RobotsParse :=
  let line := strip raw in
  if is_empty line || starts_with "#" line then p
  else
    let applicable :=
      if is_directive "user-agent:" line then
        let ua := lower (directive_value line) in
        String.eqb ua "*" || String.eqb ua "groktocrawl" || String.eqb ua "bot"
      else p_applicable p in
    if negb applicable then mkRobotsParse (p_disallowed p) (p_delay p) (p_sitemaps p) applicable
    else
      let v := directive_value line in
      mkRobotsParse
        (if is_directive "disallow:" line && negb (is_empty v) then p_disallowed p ++ [v] else p_disallowed p)
        (if is_directive "crawl-delay:" line then
           match py_float v with Some d => Some d | None => p_delay p end
         else p_delay p)
        (if is_directive "sitemap:" line then p_sitemaps p ++ [v] else p_sitemaps p)
        applicable.

Definition parse_lines (text : string) : RobotsParse :=
  foldl parse_line (mkRobotsParse [] None [] false) (splitlines text).

(** ** Patterns *)

(** The compiled pattern of a path, without its anchor at the end: [*] is [.*]. *)
Fixpoint prefix_match (p : string) (anchored : bool) : string -> bool :=
  match p with
  | EmptyString => fun t => if anchored then at_end t else true
  | String c p =>
      if Ascii.eqb c "*" then
        fix star (t : string) : bool :=
          prefix_match p anchored t
          || match t with
             | String d t => negb (Ascii.eqb d newline) && star t
             | EmptyString => false
             end
      else fun t => match t with String d t => Ascii.eqb c d && prefix_match p anchored t | EmptyString => false end
  end.

(** [pattern.search(path)] for the pattern compiled from [rule]. *)
Definition robots_match (rule path : string) : bool :=
  if ends_with "$" rule then prefix_match (String.substring 0 (slen rule - 1) rule) true path
  else prefix_match rule false path.

(** ** State *)

Record DomainState := mkDomain {
  last_request : usec;
  reserved_slot : usec;
  crawl_delay : usec;
  robots_cached_at : usec;
  disallowed_paths : list string;
  robots_sitemaps : list string
}.

Record Manager := mkManager {
  domains : gmap string DomainState; enabled : bool; distributed : bool
}.

Inductive Action :=
| Proceed
| Delay (wait : usec)
| BlockedByRobots (rule : string)
| BlockedQueue                           (* the shared queue exceeds the ceiling *)
| BlockedUnavailable.                    (* no coordination *)

Context (DEFAULT_CRAWL_DELAY : usec).

Definition new_domain : DomainState := mkDomain 0 0 DEFAULT_CRAWL_DELAY 0 [] [].

(** [self._domains.setdefault(domain, _DomainState())]. *)
Definition domain_of (m : Manager) (d : string) : DomainState := default new_domain (domains m !! d).
Definition put_domain (m : Manager) (d : string) (s : DomainState) : Manager :=
  mkManager (<[d := s]> (domains m)) (enabled m) (distributed m).

(** [_parse_robots_txt]. *)
Definition parse_robots_txt (text : string) (s : DomainState) : DomainState :=
  let p := parse_lines text in
  mkDomain (last_request s) (reserved_slot s) (default (crawl_delay s) (p_delay p)) (robots_cached_at s)
    (p_disallowed p) (match p_sitemaps p with [] => robots_sitemaps s | l => l end).

Definition with_cached_at (s : DomainState) (t : usec) : DomainState :=
  mkDomain (last_request s) (reserved_slot s) (crawl_delay s) t (disallowed_paths s) (robots_sitemaps s).
Definition with_times (s : DomainState) (last slot : usec) : DomainState :=
  mkDomain last slot (crawl_delay s) (robots_cached_at s) (disallowed_paths s) (robots_sitemaps s).

(** What the fetch of robots.txt finds: the shared cache, then the site. *)
Record Robots := mkRobots {
  cached : option string;
  response : option (Z * string);        (* None: an exception *)
  fetched_at : usec
}.

(** [_fetch_and_parse_robots]. *)
Definition fetch_and_parse_robots (r : Robots) (s : DomainState) : DomainState :=
  let from_site :=
    match response r with
    | Some (status, text) =>
        if (status =? 200) && negb (is_empty (strip text)) then parse_robots_txt text s else s
    | None => s
    end in
  match cached r with
  | Some text => if is_empty text then with_cached_at from_site (fetched_at r)
                 else with_cached_at (parse_robots_txt text s) (fetched_at r)
  | None => with_cached_at from_site (fetched_at r)
  end.

(** The shared reservation: the next free slot of a domain and when the key
    expires, in milliseconds. *)
Record Slot := mkSlot { next_slot : Z; slot_expires : Z }.

(** [RESERVE_SLOT_SCRIPT]: [None] is the answer -1. *)
Definition reserve_slot (now delay ceiling : Z) (key : option Slot) : option Slot * option Z :=
  let stored := match key with Some s => if now <? slot_expires s then next_slot s else 0 | None => 0 end in
  let slot := Z.max now stored in
  let wait := slot - now in
  if ceiling <? wait then (key, None)
  else (Some (mkSlot (slot + delay) (now + Z.max 1000 (wait + delay + 1000))), Some wait).

(** What [eval] gives: the script ran at the server's time [now], or anything
    else. *)
Inductive Shared := ScriptRuns (now : Z) | Unavailable.

(** [_reserve_distributed]. *)
Definition reserve_distributed (delay : usec) (sh : Shared) (key : option Slot) : option Slot * Action :=
  match sh with
  | Unavailable => (key, BlockedUnavailable)
  | ScriptRuns now =>
      match reserve_slot now (Z.max 0 (delay / 1000)) 30000 key with
      | (key', Some wait) => (key', if wait =? 0 then Proceed else Delay (wait * 1000))
      | (key', None) => (key', BlockedQueue)
      end
  end.

(** The local pacing: [valkey_last] is the shared timestamp, 0 when there is none. *)
Definition pace (s : DomainState) (valkey_last now : usec) : DomainState * Action :=
  let effective_last := Z.max (last_request s) valkey_last in
  let elapsed := now - effective_last in
  if (elapsed <? crawl_delay s) && (0 <? effective_last) then
    let base := Z.max effective_last (reserved_slot s) in
    let reserved := base + crawl_delay s in
    (with_times s (last_request s) reserved, Delay (Z.max 0 (reserved - now)))
  else (with_times s now 0, Proceed).

(** What [check] meets: robots.txt, the shared slot, the shared timestamp and the
    clock. *)
Record CheckEnv := mkCheckEnv {
  e_robots : Robots; e_shared : Shared; e_slot : option Slot; e_valkey_last : usec; e_now : usec
}.

(** The first rule that matches. *)
Definition blocking_rule (rules : list string) (path : string) : option string :=
  List.find (fun r => robots_match r path) rules.

(** [check]; [None] is the exception of a URL that does not parse.  The second
    component is the shared slot afterwards. *)
Definition check (m : Manager) (url : string) (ignore_robots rate_limit : bool) (e : CheckEnv)
    : option (Manager * option Slot * Action) :=
  if negb (enabled m) then Some (m, e_slot e, Proceed)
  else match extract_domain url false with
  | None => None
  | Some d =>
      if is_empty d then Some (m, e_slot e, Proceed)
      else match urlparse url with
      | None => None
      | Some u =>
          let s := domain_of m d in
          let s := if robots_cached_at s =? 0 then fetch_and_parse_robots (e_robots e) s else s in
          let path := if is_empty (Url.path u) then "/" else Url.path u in
          let m' := put_domain m d s in
          match (if ignore_robots then None else blocking_rule (disallowed_paths s) path) with
          | Some rule => Some (m', e_slot e, BlockedByRobots rule)
          | None =>
              if negb rate_limit then Some (m', e_slot e, Proceed)
              else if distributed m then
                let '(slot, a) := reserve_distributed (crawl_delay s) (e_shared e) (e_slot e) in
                Some (m', slot, a)
              else
                let '(s', a) := pace s (e_valkey_last e) (e_now e) in
                Some (put_domain m d s', e_slot e, a)
          end
      end
  end.

(** [rollback_reservation]. *)
Definition rollback_reservation (m : Manager) (url : string) : Manager :=
  if negb (enabled m) then m
  else match extract_domain url false with
  | Some d =>
      if is_empty d then m
      else match domains m !! d with
      | Some s => put_domain m d (with_times s (last_request s) 0)
      | None => m
      end
  | None => m
  end.

(** [record_request]. *)
Definition record_request (m : Manager) (url : string) (now : usec) : Manager :=
  if negb (enabled m) then m
  else match extract_domain url false with
  | Some d => if is_empty d then m else put_domain m d (with_times (domain_of m d) now 0)
  | None => m
  end.

(** [get_politeness_metadata]: the domain, its delay, whether the rules are
    loaded and their number. *)
Definition get_politeness_metadata (m : Manager) (url : string) : option (string * option (usec * bool * nat)) :=
  if negb (enabled m) then None
  else match extract_domain url false with
  | Some d => Some (d, (fun s => (crawl_delay s, 0 <? robots_cached_at s, length (disallowed_paths s))) <$> domains m !! d)
  | None => None
  end.

(** How [check_and_delay] ends: the request starts after [wait], is refused, or
    was cancelled while it waited. *)
Inductive Gate := Start (wait : usec) | Refused (a : Action) | CancelledWaiting.

(** [_politeness_check_and_delay]; [cancelled]: the sleep is cancelled. *)
Definition check_and_delay (m : Manager) (url : string) (ignore_robots rate_limit cancelled : bool) (e : CheckEnv)
    : option (Manager * option Slot * Gate) :=
  if negb (enabled m) then Some (m, e_slot e, Start 0)
  else match check m url ignore_robots rate_limit e with
  | None => None
  | Some (m', slot, a) =>
      Some match a with
      | Proceed => (m', slot, Start 0)
      | Delay w =>
          if 0 <? w then
            if cancelled then (rollback_reservation m' url, slot, CancelledWaiting) else (m', slot, Start w)
          else (m', slot, Start 0)
      | _ => (m', slot, Refused a)
      end
  end.

End Politeness.

(** ** What a rule means *)

(** The reference: a rule matches the paths it is a prefix of, [*] standing for any
    characters of the line, and with a final [$] the whole path. *)
Inductive prefix_spec (anchored : bool) : string -> string -> Prop :=
| ps_end t : (anchored = true -> at_end t = true) -> prefix_spec anchored "" t
| ps_star p u v : contains newline u = false -> prefix_spec anchored p v -> prefix_spec anchored (String "*" p) (u +:+ v)
| ps_char c p t : c <> "*"%char -> prefix_spec anchored p t -> prefix_spec anchored (String c p) (String c t).

Definition robots_spec (rule path : string) : Prop :=
  if ends_with "$" rule then prefix_spec true (String.substring 0 (slen rule - 1) rule) path
  else prefix_spec false rule path.

Lemma prefix_match_star p b t :
  prefix_match (String "*" p) b t = true <-> exists u v, t = u +:+ v /\ contains newline u = false /\ prefix_match p b v = true.
Proof.
  induction t as [|d t IH].
  - change (prefix_match (String "*" p) b "") with (prefix_match p b "" || false). rewrite orb_false_r. split; [by exists "", ""|]. intros (u & v & H & _ & Hv). destruct u; [|done]. cbn in H. by rewrite H.
  - change (prefix_match (String "*" p) b (String d t)) with
      (prefix_match p b (String d t) || negb (Ascii.eqb d newline) && prefix_match (String "*" p) b t).
    rewrite orb_true_iff, andb_true_iff, IH, negb_true_iff. split.
    + intros [H|[Hd (u & v & -> & Hu & Hv)]]; [by exists "", (String d t)|].
      exists (String d u), v. split_and!; [done| |done]. cbn [contains]. rewrite Ascii.eqb_sym, Hd. done.
    + intros (u & v & H & Hu & Hv). destruct u as [|d' u]; cbn in H; [left; by rewrite H|]. injection H as -> ->.
      right. cbn [contains] in Hu. apply orb_false_iff in Hu as [Hd Hu]. rewrite Ascii.eqb_sym in Hd. eauto 6.
Qed.

Lemma prefix_match_spec p b : forall t, prefix_match p b t = true <-> prefix_spec b p t.
Proof.
  induction p as [|c p IH]; intros t.
  - cbn. split; [intros H; constructor; by intros ->|]. inversion 1 as [t' H' | |]; subst. destruct b; [by apply H'|done].
  - destruct (Ascii.eqb_spec c "*") as [->|Hc].
    + rewrite prefix_match_star. split.
      * intros (u & v & -> & Hu & Hv). constructor; [done|by apply IH].
      * inversion 1; subst; [|done]. exists u, v. by rewrite IH.
    + cbn [prefix_match]. rewrite (proj2 (Ascii.eqb_neq _ _) Hc). destruct t as [|d t]; [split; [done|]; inversion 1; by subst|].
      rewrite andb_true_iff, IH. split.
      * intros [->%Ascii.eqb_eq H]. by constructor.
      * inversion 1; subst; [done|]. by rewrite Ascii.eqb_refl.
Qed.

Lemma robots_match_spec rule path : robots_match rule path = true <-> robots_spec rule path.
Proof. unfold robots_match, robots_spec. destruct (ends_with "$" rule); apply prefix_match_spec. Qed.

(** ** Which rules apply *)

(** A line that says something. *)
Definition meaningful (raw : string) : bool := negb (is_empty (strip raw) || starts_with "#" (strip raw)).

Definition agent_applies (line : string) : bool :=
  let ua := lower (directive_value line) in String.eqb ua "*" || String.eqb ua "groktocrawl" || String.eqb ua "bot".

(** The last User-agent line read decides. *)
Fixpoint governed (applicable : bool) (lines : list string) : bool :=
  match lines with
  | [] => applicable
  | raw :: lines =>
      governed (if meaningful raw && is_directive "user-agent:" (strip raw) then agent_applies (strip raw) else applicable) lines
  end.

(** [rule] is the value of a Disallow line under an applicable User-agent line. *)
Definition declared (text rule : string) : Prop :=
  exists before raw after, splitlines text = before ++ raw :: after /\ governed false before = true /\
    meaningful raw = true /\ is_directive "disallow:" (strip raw) = true /\
    rule = directive_value (strip raw) /\ rule <> "".

Section Rules.
Context (py_float : string -> option usec).

Lemma directives_differ line : is_directive "disallow:" line = true -> is_directive "user-agent:" line = false.
Proof.
  unfold is_directive. destruct (lower line) as [|c s]; [done|]. cbn [starts_with].
  intros [H _]%andb_true_iff. apply Ascii.eqb_eq in H as <-. done.
Qed.

Lemma governed_snoc b l raw : governed b (l ++ [raw]) =
  if meaningful raw && is_directive "user-agent:" (strip raw) then agent_applies (strip raw) else governed b l.
Proof. revert b. induction l as [|x l IH]; intros b; cbn; [done|apply IH]. Qed.

(** One line: the flag and the rules. *)
Lemma parse_line_spec p raw :
  let p' := parse_line py_float p raw in
  p_applicable p' = (if meaningful raw && is_directive "user-agent:" (strip raw) then agent_applies (strip raw) else p_applicable p) /\
  p_disallowed p' = p_disallowed p ++
    (if meaningful raw && p_applicable p && is_directive "disallow:" (strip raw) && negb (is_empty (directive_value (strip raw)))
     then [directive_value (strip raw)] else []).
Proof.
  cbn zeta. unfold parse_line, meaningful. destruct (is_empty (strip raw) || _) eqn:E; cbn [negb andb]; [by rewrite app_nil_r|].
  fold (agent_applies (strip raw)).
  set (a := if is_directive "user-agent:" (strip raw) then agent_applies (strip raw) else p_applicable p).
  assert (Ha : is_directive "disallow:" (strip raw) = true -> a = p_applicable p).
  { intros Hd. unfold a. by rewrite (directives_differ _ Hd). }
  destruct (is_directive "disallow:" (strip raw)) eqn:Ed; cbn [andb].
  - rewrite (Ha eq_refl). destruct (p_applicable p); cbn [negb andb p_applicable p_disallowed]; [|by rewrite app_nil_r].
    by destruct (is_empty (directive_value (strip raw))); rewrite ?app_nil_r.
  - rewrite andb_false_r. cbn [andb]. destruct a; cbn [negb p_applicable p_disallowed]; by rewrite app_nil_r.
Qed.

Lemma parse_fold lines : forall before p,
  p_applicable p = governed false before ->
  forall rule, rule ∈ p_disallowed (foldl (parse_line py_float) p lines) <->
    rule ∈ p_disallowed p \/
    exists l1 raw l2, lines = l1 ++ raw :: l2 /\ governed false (before ++ l1) = true /\ meaningful raw = true /\
      is_directive "disallow:" (strip raw) = true /\ rule = directive_value (strip raw) /\ rule <> "".
Proof.
  induction lines as [|raw lines IH]; intros before p Hp rule; cbn [foldl].
  - split; [by left|]. intros [H|(l1 & raw & l2 & H & _)]; [done|]. by destruct l1.
  - destruct (parse_line_spec p raw) as [Ha Hd].
    rewrite (IH (before ++ [raw])) by (rewrite Ha, governed_snoc, Hp; done). rewrite Hd, elem_of_app.
    split.
    + intros [[H|H]|(l1 & raw' & l2 & -> & H)].
      * by left.
      * right. match type of H with _ ∈ (if ?b then _ else _) => destruct b eqn:E; [|by apply not_elem_of_nil in H] end. apply list_elem_of_singleton in H as ->.
        bool_to_prop. exists [], raw, lines. rewrite app_nil_r. split_and!; try done; [congruence|].
        intros Hn. by rewrite Hn in H0.
      * right. exists (raw :: l1), raw', l2. rewrite <- (app_assoc before [raw] l1) in H. done.
    + intros [H|(l1 & raw' & l2 & H & Hg & Hm & Hdir & -> & Hne)]; [by left; left|].
      destruct l1 as [|x l1]; cbn in H; injection H as -> ->.
      * left. right. rewrite app_nil_r, <- Hp in Hg. rewrite Hm, Hg, Hdir. cbn [andb].
        destruct (directive_value (strip raw')) eqn:Ev; [done|]. by left.
      * right. exists l1, raw', l2. rewrite <- app_assoc. done.
Qed.

Lemma parse_lines_declared text rule : rule ∈ p_disallowed (parse_lines py_float text) <-> declared text rule.
Proof.
  unfold parse_lines, declared. rewrite (parse_fold (splitlines text) [] (mkRobotsParse [] None [] false)) by done. cbn [p_disallowed].
  split; [intros [H|H]; [by apply not_elem_of_nil in H|done]|by right].
Qed.

Lemma blocking_rule_spec rules path :
  (exists r, blocking_rule rules path = Some r) <-> exists r, r ∈ rules /\ robots_spec r path.
Proof.
  unfold blocking_rule. split.
  - intros [r H]. apply find_some in H as [Hin Hm]. exists r. by rewrite <- robots_match_spec, list_elem_of_In.
  - intros (r & Hin & Hs). destruct (List.find _ _) as [r'|] eqn:E; [eauto|].
    apply list_elem_of_In, (find_none _ _ E) in Hin. apply robots_match_spec in Hs. congruence.
Qed.

End Rules.

(** ** Theorems *)


(** A key outlives the slot it holds. *)
Definition slot_ok (key : option Slot) : Prop :=
  match key with Some s => next_slot s <= slot_expires s | None => True end.

(** The calls of the script, in order: server time and delay; the slots granted,
    each with the delay it keeps free after it. *)
Fixpoint grants (key : option Slot) (calls : list (Z * Z)) : list (Z * Z) :=
  match calls with
  | [] => []
  | (now, delay) :: calls =>
      match reserve_slot now delay 30000 key with
      | (key', Some wait) => (now + wait, delay) :: grants key' calls
      | (key', None) => grants key' calls
      end
  end.

Lemma reserve_slot_spec now delay key :
  0 <= delay -> slot_ok key ->
  match reserve_slot now delay 30000 key with
  | (key', Some wait) => exists s',
      key' = Some s' /\ slot_ok key' /\ 0 <= wait <= 30000 /\ next_slot s' = now + wait + delay /\
      forall s, key = Some s -> next_slot s <= now + wait
  | (key', None) => key' = key
  end.
Proof.
  intros Hd Hk. unfold reserve_slot.
  set (stored := match key with Some s => if now <? slot_expires s then next_slot s else 0 | None => 0 end).
  assert (Hs : forall s, key = Some s -> next_slot s <= Z.max now stored).
  { intros s ->. unfold stored. cbn in Hk. destruct (now <? slot_expires s) eqn:E; bool_to_prop; lia. }
  destruct (30000 <? _) eqn:E; [done|]. bool_to_prop. eexists. split; [done|].
  cbn [slot_ok next_slot slot_expires]. split_and!; try lia. intros s Hks. specialize (Hs s Hks). lia.
Qed.

Lemma grants_after calls : forall key s,
  key = Some s -> slot_ok key -> Forall (fun c => 0 <= c.2) calls ->
  Forall (fun g => next_slot s <= g.1) (grants key calls).
Proof.
  induction calls as [|[now delay] calls IH]; intros key s Hks Hk Hd; cbn [grants]; [constructor|].
  apply Forall_cons in Hd as [Hd0 Hd]. pose proof (reserve_slot_spec now delay key Hd0 Hk) as H. cbn in Hd0.
  destruct (reserve_slot now delay 30000 key) as [key' [wait|]]; [|subst; by apply IH].
  destruct H as (s' & -> & Hk' & Hw & Hn & Hle). specialize (Hle s Hks). constructor; [done|].
  eapply Forall_impl; [by apply (IH (Some s') s')|]. cbn. intros g. lia.
Qed.

(** Shared slots are spaced: whatever instances reserve, in whatever order and
    at whatever server times, each granted request starts at least its
    predecessors' delay after every earlier one, and none waits more than the
    ceiling. *)
Theorem shared_slots_spaced calls :
  Forall (fun c => 0 <= c.2) calls ->
  StronglySorted (fun g g' => g.1 + g.2 <= g'.1) (grants None calls) /\
  forall key now delay wait, 0 <= delay -> slot_ok key ->
    snd (reserve_slot now delay 30000 key) = Some wait -> 0 <= wait <= 30000.
Proof.
  intros Hd. split.
  - assert (H : forall key, slot_ok key -> StronglySorted (fun g g' => g.1 + g.2 <= g'.1) (grants key calls)); [|by apply H].
    induction calls as [|[now delay] calls IH]; intros key Hk; cbn [grants]; [constructor|].
    apply Forall_cons in Hd as [Hd0 Hd]. pose proof (reserve_slot_spec now delay key Hd0 Hk) as H. cbn in Hd0.
    destruct (reserve_slot now delay 30000 key) as [key' [wait|]]; [|subst; by apply IH].
    destruct H as (s' & -> & Hk' & Hw & Hn & _). constructor; [by apply IH|].
    eapply Forall_impl; [by apply (grants_after calls (Some s') s')|]. cbn. intros g. lia.
  - intros key now delay wait H0 Hk H. pose proof (reserve_slot_spec now delay key H0 Hk) as Hs.
    destruct (reserve_slot now delay 30000 key) as [key' [w|]]; [|done]. cbn in H. injection H as ->.
    by destruct Hs as (s' & _ & _ & ? & _).
Qed.

Lemma shared_slots_spaced_witness :
  grants None [(1000, 500); (1000, 500); (1200, 500); (4000, 500)] = [(1000, 500); (1500, 500); (2000, 500); (4000, 500)] /\
  StronglySorted (fun g g' => g.1 + g.2 <= g'.1) (grants None [(1000, 500); (1000, 500); (1200, 500); (4000, 500)]).
Proof.
  split; [by vm_compute|]. apply shared_slots_spaced. repeat constructor; done.
Defined.

(** Checks of one domain at the times [ts], and when each request starts. *)
Fixpoint local_starts (s : DomainState) (ts : list usec) : list usec :=
  match ts with
  | [] => []
  | t :: ts =>
      let '(s', a) := pace s 0 t in
      (match a with Delay w => t + w | _ => t end) :: local_starts s' ts
  end.

(** A burst is staggered: requests that are checked before the delay since the
    last one has passed start one delay apart, in the order of their checks. *)
Theorem burst_staggered s ts k :
  0 < last_request s -> 0 < crawl_delay s -> 0 <= k ->
  (reserved_slot s = last_request s + k * crawl_delay s \/ k = 0 /\ reserved_slot s <= last_request s) ->
  Forall (fun t => last_request s <= t < last_request s + crawl_delay s) ts ->
  local_starts s ts = (fun i => last_request s + (k + Z.of_nat i + 1) * crawl_delay s) <$> seq 0 (length ts).
Proof.
  intros Hl Hd Hk Hr Ht. revert s k Hl Hd Hk Hr Ht.
  induction ts as [|t ts IH]; intros s k Hl Hd Hk Hr Ht; [done|]. apply Forall_cons in Ht as [Ht0 Ht].
  cbn [local_starts length seq fmap list_fmap]. unfold pace.
  rewrite Z.max_l by lia. rewrite (proj2 (Z.ltb_lt _ _)), (proj2 (Z.ltb_lt 0 _)) by lia. cbn [andb].
  set (s' := with_times s _ _).
  assert (Hs' : reserved_slot s' = last_request s + (k + 1) * crawl_delay s).
  { unfold s'. cbn. destruct Hr as [->|[-> Hr]]; nia. }
  f_equal.
  - cbn in Hs'. rewrite Hs'. rewrite Z.max_r by nia. lia.
  - rewrite (IH s' (k + 1)) by (cbn in *; auto; lia). rewrite <- (fmap_S_seq 0), <- list_fmap_compose.
    apply list_fmap_ext. intros i x _. cbn. nia.
Qed.

Definition demo_domain (last slot : usec) : DomainState := mkDomain last slot (sec 1) 1 [] [].

Lemma burst_staggered_witness :
  local_starts (demo_domain (sec 10) 0) [sec 10 + 100; sec 10 + 200; sec 10 + 300] = [sec 11; sec 12; sec 13].
Proof.
  rewrite (burst_staggered _ _ 0); [by vm_compute|done..|right; by split; vm_compute|].
  repeat constructor; by vm_compute.
Defined.

(** Beyond a burst the spacing is lost: with a delay of one second, the request
    checked at 12 s starts at once, at the very slot reserved for the one checked
    at 10.2 s, because [last_request] is not advanced by requests that wait. *)
Theorem local_slots_collide :
  local_starts (demo_domain 0 0) [sec 10; sec 10 + 100000; sec 10 + 200000; sec 12] = [sec 10; sec 11; sec 12; sec 12].
Proof. by vm_compute. Qed.

(** A line break. *)
Definition nl : string := String newline EmptyString.
Definition grouped_robots : string :=
  "User-agent: *" +:+ nl +:+ "User-agent: ExampleBot" +:+ nl +:+ "Disallow: /private" +:+ nl.

(** Rules of a group of several agents are lost: only the last of adjacent
    User-agent lines counts, so a group for [*] and another agent forbids
    nothing. *)
Theorem grouped_agents_dropped py_float :
  p_disallowed (parse_lines py_float grouped_robots) = [].
Proof. by vm_compute. Qed.

Section Witnesses.
Definition demo_robots : string := "User-agent: *" +:+ nl +:+ "Disallow: /private" +:+ nl.
Definition demo_manager : Manager := mkManager ∅ true false.
Definition demo_env : CheckEnv := mkCheckEnv (mkRobots None (Some (200, demo_robots)) (sec 1)) Unavailable None 0 (sec 2).

End Witnesses.
