(* ===== verification/ValkeyControl.v ===== *)
(** * The Valkey capability socket ([src/scraper-svc/scraper/valkey_control.py], [cookie_store.py])

    The isolated scraper has no connection to Valkey.  It sends one JSON document over a
    socket; the control server validates it and sends at most one command to the database,
    on keys of four families: cached pages, cached robots files, pacing, and clearance
    cookies.  [authorize] is the validation of [_dispatch], [perform] the command and the
    answer; [serve_frame] is a connection, [serve_all] any sequence of them.  The client
    ([ValkeyControlClient]) validates the same way before it sends.  [cookie_store.py] is a
    client that keeps the clearance cookies of a site.

    The theorems: whatever the scraper sends, it neither changes nor observes a key
    outside the families; slot reservations are made by the reservation script only, so
    that their spacing does not depend on the scraper; what a client stores it reads back;
    and at most two connections are served at a time.

    A frame that is no JSON text, too long or late is [None]; numbers are integers; the
    length of an encoded answer is given by an encoder; permissions of the socket are
    left out. *)

From S2P Require Import Prelude Strings Url Json Valkey Politeness.

Definition MAX_VALUE_BYTES : Z := 8 * 1024 * 1024.
Definition MAX_LINE_BYTES : Z := MAX_VALUE_BYTES * 6 + 8192.
Definition MAX_ACTIVE_CONNECTIONS : nat := 2.
Definition MAX_TTL_SECONDS : Z := 365 * 24 * 60 * 60.

(** ** Keys *)

Definition is_lower_hex (ch : ascii) : bool := is_digit ch || (Nat.leb 97 (chr ch) && Nat.leb (chr ch) 102).

(** [_HEX.fullmatch]. *)
Definition hex64 (s : string) : bool := Nat.eqb (slen s) 64 && sforall is_lower_hex s.

(** [_COOKIE_DOMAIN.fullmatch]. *)
Definition cookie_char (ch : ascii) : bool := is_lower ch || is_digit ch || Ascii.eqb ch "." || Ascii.eqb ch "-".
Definition cookie_domain (s : string) : bool := Nat.leb 1 (slen s) && Nat.leb (slen s) 253 && sforall cookie_char s.

Definition is_alnum (ch : ascii) : bool := is_alpha ch || is_digit ch.

Fixpoint last_char (s : string) : option ascii :=
  match s with
  | EmptyString => None
  | String ch EmptyString => Some ch
  | String _ s => last_char s
  end.

Definition label_ok (l : string) : bool :=
  Nat.leb 1 (slen l) && Nat.leb (slen l) 63 && match l with String ch _ => is_alnum ch | EmptyString => false end
  && match last_char l with Some ch => is_alnum ch | None => false end.

(** [s.removesuffix(suf)]. *)
Definition removesuffix (suf s : string) : string :=
  if ends_with suf s then String.substring 0 (slen s - slen suf) s else s.

(** [value[len(p):]] of a value that starts with [p]. *)
Definition after (p s : string) : option string := if starts_with p s then Some (sdrop (slen p) s) else None.

Definition holds (test : string -> bool) (o : option string) : bool := match o with Some s => test s | None => false end.

(** [_valid_key] of a string. *)
Definition valid_key (k : string) : bool :=
  Nat.leb (slen k) 512 &&
  (holds hex64 (after "scrape_cache:" k) || holds hex64 (after "politeness:robots:" k)
   || holds (fun s => hex64 (removesuffix ":slots" s)) (after "politeness:rate:" k)
   || holds (fun d => cookie_domain d && forallb label_ok (split "." d)) (after "cf:clearance:" k)).

(** [_value_key]. *)
Definition value_key (k : string) : bool := valid_key k && negb (ends_with ":slots" k).

(** The keys of the reservation script. *)
Definition slot_key (k : string) : bool := valid_key k && starts_with "politeness:rate:" k && ends_with ":slots" k.

(** [len(s.encode("utf-8"))] of a string of code points below 256. *)
Fixpoint utf8_len (s : string) : Z :=
  match s with
  | EmptyString => 0
  | String ch s => (if Nat.ltb (chr ch) 128 then 1 else 2) + utf8_len s
  end.

(** [_validate_ttl_value] of decoded arguments. *)
Definition ttl_value_ok (ttl : Z) (v : string) : bool := (1 <=? ttl) && (ttl <=? MAX_TTL_SECONDS) && (utf8_len v <=? MAX_VALUE_BYTES).

(** ** Requests *)

(** No object of the document has a field twice ([_pairs]). *)
Fixpoint unique_fields (j : json) : bool :=
  match j with
  | JArr l => forallb unique_fields l
  | JObj l =>
      (fix distinct (l : list (string * json)) : bool :=
         match l with
         | [] => true
         | (k, v) :: l => negb (existsb (fun kv => String.eqb k (fst kv)) l) && unique_fields v && distinct l
         end) l
  | _ => true
  end.

(** [set(request) == {...}]. *)
Definition has_fields (l : list (string * json)) (names : list string) : bool :=
  forallb (fun kv => mem (fst kv) names) l && forallb (fun n => existsb (fun kv => String.eqb n (fst kv)) l) names.

(** The commands that can be sent. *)
Inductive command :=
| Ping
| Get (k : string)
| SetEx (k : string) (ttl : Z) (v : string)
| Reserve (k : string) (delay : Z).

(** [_dispatch] up to the command; [None] is [ValueError]. *)
Definition authorize (request : json) : option command :=
  match request with
  | JObj l =>
      match jget request "operation" with
      | JStr "ping" => if has_fields l ["operation"] then Some Ping else None
      | JStr "get" =>
          if has_fields l ["operation"; "key"] then
            match jget request "key" with JStr k => if value_key k then Some (Get k) else None | _ => None end
          else None
      | JStr "setex" =>
          if has_fields l ["operation"; "key"; "ttl"; "value"] then
            match jget request "key", jget request "ttl", jget request "value" with
            | JStr k, JNum ttl, JStr v => if value_key k && ttl_value_ok ttl v then Some (SetEx k ttl v) else None
            | _, _, _ => None
            end
          else None
      | JStr "reserve_slot" =>
          if has_fields l ["operation"; "key"; "delay_ms"; "ceiling_ms"] then
            match jget request "key", jget request "delay_ms", jget request "ceiling_ms" with
            | JStr k, JNum delay, JNum ceiling =>
                if slot_key k && (0 <=? delay) && (delay <=? 2 ^ 31 - 1) && (ceiling =? 30000) then Some (Reserve k delay) else None
            | _, _, _ => None
            end
          else None
      | _ => None
      end
  | _ => None
  end.

(** What the database holds under a key. *)
Inductive cell := Text_ (s : string) | SlotAt (s : Slot) | Other_.

Section Server.
Context {DB : Type} `{!Valkey string cell DB}.
Context (encode : json -> string).

(** What a connection meets: whether the database answers, and its clock in milliseconds. *)
Record moment := mkMoment { up : bool; clock : Z }.

Definition stored_slot (k : string) (d : DB) : option Slot := match vget k d with Some (SlotAt s) => Some s | _ => None end.

(** The command and the fields of the answer; [None] when an exception was raised. *)
Definition perform (t : moment) (c : command) (d : DB) : option (list (string * json)) * DB :=
  if negb (up t) then (None, d)
  else
    match c with
    | Ping => (Some [("value", JBool true)], d)
    | Get k =>
        match vget k d with
        | None => (Some [("value", JNull)], d)
        | Some (Text_ s) => (if utf8_len s <=? MAX_VALUE_BYTES then Some [("value", JStr s)] else None, d)
        | Some _ => (None, d)
        end
    | SetEx k ttl v => (Some [], vset k (Text_ v) (EX ttl) d)
    | Reserve k delay =>
        match vget k d with
        | Some (Text_ _ | Other_) => (None, d)
        | _ =>
            match reserve_slot (clock t) delay 30000 (stored_slot k d) with
            | (Some s, Some wait) => (Some [("value", JNum wait)], vset k (SlotAt s) (EX ((Z.max 1000 (wait + delay + 1000)) / 1000)) d)
            | (_, Some wait) => (Some [("value", JNum wait)], d)
            | (_, None) => (Some [("value", JNum (-1))], d)
            end
        end
    end.

Definition unavailable : json := JObj [("ok", JBool false); ("error", JStr "unavailable")].

(** The answer that is written. *)
Definition respond (result : option (list (string * json))) : json :=
  let response := match result with Some fields => JObj (("ok", JBool true) :: fields) | None => unavailable end in
  if MAX_LINE_BYTES <? Z.of_nat (slen (encode response)) + 1 then unavailable else response.

(** A connection: its frame, the answer. *)
Definition serve_frame (t : moment) (frame : option json) (d : DB) : json * DB :=
  let '(result, d) :=
    match frame with
    | None => (None, d)
    | Some j => if unique_fields j then match authorize j with Some c => perform t c d | None => (None, d) end else (None, d)
    end in
  (respond result, d).

Fixpoint serve_all (l : list (moment * option json)) (d : DB) : list json * DB :=
  match l with
  | [] => ([], d)
  | (t, f) :: l => let '(r, d) := serve_frame t f d in let '(rs, d) := serve_all l d in (r :: rs, d)
  end.

End Server.

(** ** The client *)

(** What the methods of the client send; [None] is [ValueError]. *)
Definition client_get (k : string) : option json :=
  if value_key k then Some (JObj [("operation", JStr "get"); ("key", JStr k)]) else None.

Definition client_setex (k : string) (ttl : Z) (v : string) : option json :=
  if ttl_value_ok ttl v && value_key k then
    Some (JObj [("operation", JStr "setex"); ("key", JStr k); ("ttl", JNum ttl); ("value", JStr v)])
  else None.

Definition client_reserve (k : string) (delay ceiling : Z) : option json :=
  if slot_key k && (0 <=? delay) && (delay <=? 2 ^ 31 - 1) && (ceiling =? 30000) then
    Some (JObj [("operation", JStr "reserve_slot"); ("key", JStr k); ("delay_ms", JNum delay); ("ceiling_ms", JNum ceiling)])
  else None.

(** The answer of [get]; [None] is [RuntimeError]. *)
Definition read_answer (r : json) : option (option string) :=
  match jget r "ok" with
  | JBool true => match jget r "value" with JNull => Some None | JStr s => Some (Some s) | _ => None end
  | _ => None
  end.

(** ** Connections *)

(** A connection arrives or its handler ends; a handler that found two others active
    closed the connection at once. *)
Inductive conn_event := Arrives | Ends.

Record listener := mkListener { active : nat; refused : nat }.

Definition conn_step (s : listener) (e : conn_event) : listener :=
  match e with
  | Arrives => if Nat.leb MAX_ACTIVE_CONNECTIONS (active s) then mkListener (active s) (S (refused s)) else mkListener (S (active s)) (refused s)
  | Ends => match active s with O => s | S n => mkListener n (refused s) end
  end.

(** ** Cookies *)

Definition COOKIE_TTL_SECONDS : Z := 1500.

(** [_cookie_key] of a URL that parses. *)
Definition cookie_key (url : string) : option string :=
  r ← urlparse url;
  let host := hostname r in
  let parts := split "." (if is_empty host then "unknown" else host) in
  let n := length parts in
  Some ("cf:clearance:" +:+ sjoin "." (drop (n - 2) parts)).

Definition cf_cookies (l : list json) : list json :=
  List.filter (fun c => match jget c "name" with JStr s => String.eqb s "cf_clearance" | _ => false end) l.

(** The document [store_cookies] writes. *)
Definition cookie_document (cookies : list json) (now : json) : json :=
  JObj [("cookies", JArr cookies); ("resolved_at", now); ("ttl", JNum COOKIE_TTL_SECONDS)].

(** ** Facts *)

(** A command passes the validation exactly as its family asks. *)
Definition authorized (c : command) : Prop :=
  match c with
  | Ping => True
  | Get k => value_key k = true
  | SetEx k ttl v => value_key k = true /\ 1 <= ttl <= MAX_TTL_SECONDS /\ utf8_len v <= MAX_VALUE_BYTES
  | Reserve k delay => slot_key k = true /\ 0 <= delay <= 2 ^ 31 - 1
  end.

Lemma ttl_value_spec ttl v : ttl_value_ok ttl v = true -> 1 <= ttl <= MAX_TTL_SECONDS /\ utf8_len v <= MAX_VALUE_BYTES.
Proof. unfold ttl_value_ok. intros [[H1%Z.leb_le H2%Z.leb_le]%andb_true_iff H3%Z.leb_le]%andb_true_iff. lia. Qed.

Lemma authorize_spec j c : authorize j = Some c -> authorized c.
Proof.
  unfold authorize. intros H. repeat case_match; simplify_eq; cbn; try done.
  all: repeat match goal with H : _ && _ = true |- _ => apply andb_true_iff in H as [? ?] end; bool_to_prop.
  - split; [done|]. by apply ttl_value_spec.
  - split; [done|lia].
Qed.

(** The key a command is about. *)
Definition key_of (c : command) : option string :=
  match c with Ping => None | Get k | SetEx k _ _ | Reserve k _ => Some k end.

Lemma authorized_valid c k : authorized c -> key_of c = Some k -> valid_key k = true.
Proof.
  destruct c; cbn; [done|..]; intros A [= <-]; [apply andb_true_iff in A; tauto|destruct A as [A _]; apply andb_true_iff in A; tauto|].
  destruct A as [A _]. unfold slot_key in A. apply andb_true_iff in A as [A _]. apply andb_true_iff in A. tauto.
Qed.

Definition families : list string := ["scrape_cache:"; "politeness:robots:"; "politeness:rate:"; "cf:clearance:"].

Lemma holds_after test p k : holds test (after p k) = true -> starts_with p k = true.
Proof. unfold after. by destruct (starts_with p k). Qed.

Lemma valid_key_family k : valid_key k = true -> existsb (fun p => starts_with p k) families = true.
Proof.
  unfold valid_key. intros [_ H]%andb_true_iff. cbn [families existsb].
  repeat match goal with H : _ || _ = true |- _ => apply orb_true_iff in H as [H|H] end; apply holds_after in H; by rewrite H, ?orb_true_r.
Qed.

Section Confinement.
Context {DB : Type} `{!Valkey string cell DB} `{!ValkeyLaws string cell DB}.
Context (encode : json -> string).
Implicit Types (d : DB).

(** The databases look the same through the socket. *)
Definition agree (d1 d2 : DB) : Prop := forall k, valid_key k = true -> vget k d1 = vget k d2.

Lemma perform_agree t c d1 d2 : authorized c -> agree d1 d2 ->
  fst (perform t c d1) = fst (perform t c d2) /\ agree (snd (perform t c d1)) (snd (perform t c d2)) /\
  forall k, valid_key k = false -> vget k (snd (perform t c d1)) = vget k d1.
Proof.
  intros A G.
  assert (V : forall k v e (x1 x2 : DB), agree x1 x2 -> agree (vset k v e x1) (vset k v e x2)).
  { intros k v e x1 x2 H k' Hk'. destruct (decide (k = k')) as [->|]; vk; [done|]. by apply H. }
  assert (U : forall k v e, key_of c = Some k -> forall k', valid_key k' = false -> vget k' (vset k v e d1) = vget k' d1).
  { intros k v e Hk k' Hk'. apply (authorized_valid c k A) in Hk. rewrite vget_vset_ne; [done|]. intros ->. congruence. }
  unfold perform. destruct (negb (up t)); [done|]. destruct c as [|k|k ttl v|k delay]; cbn in U.
  - done.
  - rewrite <- (G k) by (by apply (authorized_valid (Get k))). repeat case_match; done.
  - split_and!; [done|by apply V|by apply U].
  - unfold stored_slot. rewrite <- (G k) by (by apply (authorized_valid (Reserve k delay))).
    repeat case_match; cbn; split_and!; try done; try (by apply V); by apply U.
Qed.

Lemma serve_frame_agree t f d1 d2 : agree d1 d2 ->
  fst (serve_frame encode t f d1) = fst (serve_frame encode t f d2) /\ agree (snd (serve_frame encode t f d1)) (snd (serve_frame encode t f d2)) /\
  forall k, valid_key k = false -> vget k (snd (serve_frame encode t f d1)) = vget k d1.
Proof.
  intros G. unfold serve_frame. destruct f as [j|]; [|done]. destruct (unique_fields j); [|done].
  destruct (authorize j) as [c|] eqn:E; [|done]. apply authorize_spec in E. destruct (perform_agree t c d1 d2 E G) as (H1 & H2 & H3).
  destruct (perform t c d1) as [r1 d1'], (perform t c d2) as [r2 d2']. cbn in *. by subst.
Qed.

(** C7.  The socket confines the scraper: whatever documents it sends, no key outside the
    four families changes, in particular no key of a job or of a session; and two
    databases that differ only in such keys give the same answers and go on to differ in
    nothing else, so that nothing of those keys can be observed. *)
Theorem socket_confines_scraper l d1 d2 :
  agree d1 d2 ->
  fst (serve_all encode l d1) = fst (serve_all encode l d2) /\
  agree (snd (serve_all encode l d1)) (snd (serve_all encode l d2)) /\
  (forall k, existsb (fun p => starts_with p k) families = false -> vget k (snd (serve_all encode l d1)) = vget k d1).
Proof.
  intros G. cut (fst (serve_all encode l d1) = fst (serve_all encode l d2) /\ agree (snd (serve_all encode l d1)) (snd (serve_all encode l d2)) /\
                 forall k, valid_key k = false -> vget k (snd (serve_all encode l d1)) = vget k d1).
  { intros (H1 & H2 & H3). split_and!; [done|done|]. intros k Hk. apply H3. destruct (valid_key k) eqn:E; [|done]. apply valid_key_family in E. congruence. }
  revert d1 d2 G. induction l as [|[t f] l IH]; intros d1 d2 G; [done|]. cbn [serve_all].
  destruct (serve_frame_agree t f d1 d2 G) as (H1 & H2 & H3). destruct (serve_frame encode t f d1) as [r1 x1], (serve_frame encode t f d2) as [r2 x2]. cbn in H1, H2, H3.
  destruct (IH x1 x2 H2) as (I1 & I2 & I3). destruct (serve_all encode l x1) as [rs1 y1], (serve_all encode l x2) as [rs2 y2]. cbn in *. split_and!; [congruence|done|].
  intros k Hk. by rewrite I3, H3.
Qed.

(** *** Reservations *)

(** The key holds a slot or nothing. *)
Definition slots_only (k : string) (d : DB) : Prop := match vget k d with Some (SlotAt _) | None => True | _ => False end.

(** The calls of the reservation script for a key, among the documents of a run. *)
Definition reservation (k : string) (x : moment * option json) : option (Z * Z) :=
  match snd x with
  | Some j => if unique_fields j then
                match authorize j with
                | Some (Reserve k' delay) => if up (fst x) && String.eqb k k' then Some (clock (fst x), delay) else None
                | _ => None
                end
              else None
  | None => None
  end.

(** The slot in the database after the calls. *)
Fixpoint slot_after (key : option Slot) (calls : list (Z * Z)) : option Slot :=
  match calls with
  | [] => key
  | (now, delay) :: calls => slot_after (fst (reserve_slot now delay 30000 key)) calls
  end.

Lemma perform_slot k t c d : slot_key k = true -> authorized c -> slots_only k d ->
  slots_only k (snd (perform t c d)) /\
  stored_slot k (snd (perform t c d)) =
    match c with
    | Reserve k' delay => if up t && String.eqb k k' then fst (reserve_slot (clock t) delay 30000 (stored_slot k d)) else stored_slot k d
    | _ => stored_slot k d
    end.
Proof.
  intros SK A SO. unfold perform. destruct (up t); cbn [negb andb]; [|by destruct c].
  destruct c as [|k'|k' ttl v|k' delay]; [done|by repeat case_match| |].
  - cbn. assert (k' <> k) as N.
    { intros ->. destruct A as [A _]. unfold value_key, slot_key in *. apply andb_true_iff in A as [_ A%negb_true_iff]. apply andb_true_iff in SK as [_ SK]. congruence. }
    unfold slots_only, stored_slot. vk. done.
  - destruct (String.eqb_spec k k') as [<-|N].
    + unfold slots_only in SO. assert (E : vget k d = SlotAt <$> stored_slot k d) by (unfold stored_slot; by destruct (vget k d) as [[]|]).
      rewrite E. unfold reserve_slot. destruct (stored_slot k d) as [s|]; cbn; (destruct (30000 <? _) eqn:W; cbn; [split; [unfold slots_only; by rewrite E|unfold stored_slot; by rewrite E]|]);
        unfold slots_only, stored_slot; vk; done.
    + assert (H : forall x : option (list (string * json)) * DB, (snd x = d \/ exists v e, snd x = vset k' v e d) -> slots_only k (snd x) /\ stored_slot k (snd x) = stored_slot k d).
      { intros x [->|(v & e & ->)]; [done|]. unfold slots_only, stored_slot. vk. done. }
      apply H. repeat case_match; cbn; eauto.
Qed.

(**  Reservations are the script's alone: whatever documents the scraper sends, the
    slot of a key is the one that the calls of the reservation script for this key leave,
    in their order, so that what is shown of the script's slots holds for every
    sequence of documents; no other command reaches the key, and no command can read it. *)
Theorem reservations_isolated k l d :
  slot_key k = true -> slots_only k d ->
  slots_only k (snd (serve_all encode l d)) /\
  stored_slot k (snd (serve_all encode l d)) = slot_after (stored_slot k d) (omap (reservation k) l).
Proof.
  intros SK. revert d. induction l as [|[t f] l IH]; intros d SO; [done|]. cbn [serve_all omap list_omap].
  assert (H : slots_only k (snd (serve_frame encode t f d)) /\
              stored_slot k (snd (serve_frame encode t f d)) =
                match reservation k (t, f) with Some (now, delay) => fst (reserve_slot now delay 30000 (stored_slot k d)) | None => stored_slot k d end).
  { unfold serve_frame, reservation. cbn [snd fst]. destruct f as [j|]; [|done]. destruct (unique_fields j); [|done]. destruct (authorize j) as [c|] eqn:E; [|done].
    apply authorize_spec in E. destruct (perform_slot k t c d SK E SO) as [P1 P2]. destruct (perform t c d) as [r d']. cbn in *. split; [done|]. rewrite P2.
    destruct c; try done. by destruct (up t && String.eqb k k0). }
  destruct (serve_frame encode t f d) as [r d']. cbn in H. destruct H as [H1 H2]. specialize (IH d' H1).
  destruct (serve_all encode l d') as [rs d'']. cbn in *. destruct IH as [I1 I2]. split; [done|]. rewrite I2, H2.
  by destruct (reservation k (t, f)) as [[now delay]|].
Qed.

(** *** The client *)

Lemma serve_authorized t j c d : unique_fields j = true -> authorize j = Some c ->
  serve_frame encode t (Some j) d = (respond encode (fst (perform t c d)), snd (perform t c d)).
Proof. intros H1 H2. unfold serve_frame. rewrite H1, H2. by destruct (perform t c d). Qed.

Lemma client_get_authorized k : value_key k = true -> authorize (JObj [("operation", JStr "get"); ("key", JStr k)]) = Some (Get k).
Proof. intros H. transitivity (if value_key k then Some (Get k) else None); [reflexivity|]. by rewrite H. Qed.

Lemma client_setex_authorized k ttl v : value_key k = true -> ttl_value_ok ttl v = true ->
  authorize (JObj [("operation", JStr "setex"); ("key", JStr k); ("ttl", JNum ttl); ("value", JStr v)]) = Some (SetEx k ttl v).
Proof. intros H1 H2. transitivity (if value_key k && ttl_value_ok ttl v then Some (SetEx k ttl v) else None); [reflexivity|]. by rewrite H1, H2. Qed.

Lemma perform_keeps k x t c d : value_key k = true -> authorized c -> match c with SetEx k' _ _ => k' <> k | _ => True end ->
  vget k d = x -> vget k (snd (perform t c d)) = x.
Proof.
  intros K A N W. unfold perform. destruct (negb (up t)); [done|]. destruct c as [|k'|k' ttl' v'|k' delay]; [done|by repeat case_match|cbn; by vk|].
  assert (k' <> k).
  { intros ->. destruct A as [A _]. unfold value_key, slot_key in *. apply andb_true_iff in K as [_ K%negb_true_iff]. apply andb_true_iff in A as [_ A]. congruence. }
  repeat case_match; cbn; by vk.
Qed.

(**  What a client stores it reads back: a value the client accepts is accepted by the
    server, and a later read of the key, before it expires or is written again, gives the
    value, as long as the database answers and the encoded answer fits into a line. *)
Theorem stored_value_read_back k ttl v set read t1 t2 l d :
  client_setex k ttl v = Some set -> client_get k = Some read -> up t1 = true -> up t2 = true ->
  Z.of_nat (slen (encode (JObj [("ok", JBool true); ("value", JStr v)]))) + 1 <= MAX_LINE_BYTES ->
  Forall (fun x => match snd x with Some j => match authorize j with Some (SetEx k' _ _) => k' <> k | _ => True end | None => True end) l ->
  read_answer (fst (serve_frame encode t2 (Some read) (snd (serve_all encode l (snd (serve_frame encode t1 (Some set) d)))))) = Some (Some v).
Proof.
  unfold client_setex, client_get. intros HS HG U1 U2 HL HF.
  destruct (ttl_value_ok ttl v) eqn:T; [|done]. destruct (value_key k) eqn:K; [|done]. cbn in HS. injection HS as <-. injection HG as <-.
  assert (W : vget k (snd (serve_frame encode t1 (Some (JObj [("operation", JStr "setex"); ("key", JStr k); ("ttl", JNum ttl); ("value", JStr v)])) d)) = Some (Text_ v)).
  { rewrite (serve_authorized _ _ (SetEx k ttl v)) by (reflexivity || by apply client_setex_authorized). unfold perform. rewrite U1. cbn. by vk. }
  revert W. generalize (snd (serve_frame encode t1 (Some (JObj [("operation", JStr "setex"); ("key", JStr k); ("ttl", JNum ttl); ("value", JStr v)])) d)). intros d1 W.
  assert (R : vget k (snd (serve_all encode l d1)) = Some (Text_ v)).
  { clear HL. revert d1 W. induction l as [|[t f] l IH]; intros d1 W; [done|]. cbn [serve_all]. apply Forall_cons in HF as [HF HF'].
    assert (W' : vget k (snd (serve_frame encode t f d1)) = Some (Text_ v)).
    { unfold serve_frame. destruct f as [j|]; [|done]. destruct (unique_fields j); [|done]. cbn in HF. destruct (authorize j) as [c|] eqn:E; [|done].
      pose proof (perform_keeps k (Some (Text_ v)) t c d1 K (authorize_spec _ _ E) HF W) as P. by destruct (perform t c d1). }
    destruct (serve_frame encode t f d1) as [r d2]. cbn in W'. specialize (IH HF' d2 W'). by destruct (serve_all encode l d2). }
  rewrite (serve_authorized _ _ (Get k)) by (reflexivity || by apply client_get_authorized). unfold perform. rewrite U2, R. cbn [negb fst].
  apply ttl_value_spec in T as [_ T]. rewrite (proj2 (Z.leb_le _ _) T). unfold respond. by rewrite (proj2 (Z.ltb_ge _ _) HL).
Qed.

End Confinement.

(** At most two connections are served at a time. *)
Lemma connections_bounded l : (active (run_ops conn_step (mkListener 0 0) l) <= MAX_ACTIVE_CONNECTIONS)%nat.
Proof.
  apply run_ops_invariant; [unfold MAX_ACTIVE_CONNECTIONS; cbn; lia|]. unfold conn_step. intros s [] H.
  - destruct (Nat.leb_spec MAX_ACTIVE_CONNECTIONS (active s)); cbn [active]; lia.
  - destruct (active s) eqn:E; cbn [active]; lia.
Qed.

(** ** Runs *)

Definition demo_digest : string := "0123456789abcdef0123456789abcdef0123456789abcdef0123456789abcdef".
Definition demo_page_key : string := "scrape_cache:" +:+ demo_digest.
Definition demo_slot_key : string := "politeness:rate:" +:+ demo_digest +:+ ":slots".
Definition demo_moment (n : Z) : moment := mkMoment true n.
Definition demo_set : json := JObj [("operation", JStr "setex"); ("key", JStr demo_page_key); ("ttl", JNum 60); ("value", JStr "page")].
Definition demo_get (k : string) : json := JObj [("operation", JStr "get"); ("key", JStr k)].
Definition demo_reserve : json :=
  JObj [("operation", JStr "reserve_slot"); ("key", JStr demo_slot_key); ("delay_ms", JNum 500); ("ceiling_ms", JNum 30000)].
Definition demo_store : gmap string cell := {[ "job:1:meta" := Other_ ]}.

Lemma demo_keys : value_key demo_page_key = true /\ slot_key demo_slot_key = true /\ valid_key "job:1:meta" = false /\ value_key demo_slot_key = false.
Proof. split_and!; vm_compute; reflexivity. Qed.

(** With and without the record of a job the answers are the same. *)
Lemma socket_confines_scraper_witness :
  fst (serve_all (fun _ => "") [(demo_moment 0, Some (demo_get "job:1:meta")); (demo_moment 0, Some demo_set)] demo_store) =
    fst (serve_all (fun _ => "") [(demo_moment 0, Some (demo_get "job:1:meta")); (demo_moment 0, Some demo_set)] (∅ : gmap string cell)) /\
  vget "job:1:meta" (snd (serve_all (fun _ => "") [(demo_moment 0, Some (demo_get "job:1:meta")); (demo_moment 0, Some demo_set)] demo_store)) = Some Other_.
Proof.
  assert (A : agree demo_store (∅ : gmap string cell)).
  { intros k Hk. change (demo_store !! k = (∅ : gmap string cell) !! k). unfold demo_store. rewrite lookup_singleton_ne; [done|].
    intros <-. revert Hk. vm_compute. discriminate. }
  destruct (socket_confines_scraper (fun _ => "") [(demo_moment 0, Some (demo_get "job:1:meta")); (demo_moment 0, Some demo_set)] demo_store ∅ A) as (H1 & _ & H3).
  split; [exact H1|]. rewrite H3; reflexivity.
Defined.

Lemma reservations_isolated_witness :
  stored_slot demo_slot_key (snd (serve_all (fun _ => "") [(demo_moment 100, Some demo_reserve); (demo_moment 100, Some demo_set); (demo_moment 200, Some demo_reserve)]
    (∅ : gmap string cell))) = slot_after None [(100, 500); (200, 500)].
Proof.
  destruct (reservations_isolated (fun _ => "") demo_slot_key [(demo_moment 100, Some demo_reserve); (demo_moment 100, Some demo_set); (demo_moment 200, Some demo_reserve)]
    (∅ : gmap string cell)) as [_ H].
  - apply demo_keys.
  - exact Logic.I.
  - rewrite H. vm_compute. reflexivity.
Defined.

Lemma stored_value_read_back_witness :
  read_answer (fst (serve_frame (fun _ => "") (demo_moment 9) (Some (demo_get demo_page_key))
    (snd (serve_all (fun _ => "") [(demo_moment 5, Some demo_reserve)] (snd (serve_frame (fun _ => "") (demo_moment 1) (Some demo_set) (∅ : gmap string cell))))))) = Some (Some "page").
Proof.
  apply (stored_value_read_back (fun _ => "") demo_page_key 60 "page"); [vm_compute; reflexivity|vm_compute; reflexivity|reflexivity|reflexivity|vm_compute; discriminate|].
  constructor; [|constructor]. vm_compute. exact Logic.I.
Defined.

(** ** What the model shows of the code *)

(** The cookies of a site are kept under the last two labels of its host, which for many
    country domains is not the site: two sites of different owners share an entry. *)
Lemma cookies_shared_by_sites :
  cookie_key "https://shop.example.co.uk/" = Some "cf:clearance:co.uk" /\ cookie_key "https://bank.other.co.uk/" = Some "cf:clearance:co.uk".
Proof. split; vm_compute; reflexivity. Qed.
