(* ===== verification/RateLimit.v ===== *)
(** * Rate limiter and backoff
    ([src/agent-svc/agent/rate_limiter.py], [src/common/retry.py])

    [SlidingWindowRateLimiter] counts requests per key and window with [INCR] and
    [EXPIRE]; [Counters] is the part of Valkey it uses, with expiry dates, at a
    clock [now] in whole seconds ([int(time.time())]).  [retry_with_backoff] is
    the shared retry loop, its attempts an argument.

    The theorems: in every window exactly the first [limit] requests of a key are
    admitted, whatever other keys do; the advertised retry time leads into the
    next window; a written limit reads back; across a boundary twice the limit
    passes; and the retry loop's attempts and waits are bounded. *)

From stdpp Require Import pretty.
From S2P Require Import Prelude Strings.

(** ** The limiter *)

(** A counter and its expiry date; [INCR] creates it without one. *)
Record Counter := mkCounter { count : Z; expires : option Z }.
Abbreviation Counters := (gmap string Counter).

Record Limiter := mkLimiter { limit : Z; window : Z }.

Definition slot_key (key : string) (slot : Z) : string := "rate_limit:search:" +:+ key +:+ ":" +:+ pretty slot.
Definition window_key (l : Limiter) (key : string) (now : Z) : string := slot_key key (now / window l).

(** The value [INCR] starts from: an expired counter is gone. *)
Definition current (now : Z) (db : Counters) (k : string) : option Counter :=
  match db !! k with
  | Some x => match expires x with
              | Some t => if now <? t then Some x else None
              | None => Some x
              end
  | None => None
  end.

(** [INCR] keeps the expiry of a counter it finds. *)
Definition incr (now : Z) (k : string) (db : Counters) : Counters * Z :=
  match current now db k with
  | Some x => (<[k := mkCounter (count x + 1) (expires x)]> db, count x + 1)
  | None => (<[k := mkCounter 1 None]> db, 1)
  end.

Definition expire (now ttl : Z) (k : string) (db : Counters) : Counters :=
  match current now db k with
  | Some x => <[k := mkCounter (count x) (Some (now + ttl))]> db
  | None => db
  end.

(** [check]; [up]: the server answers. *)
Definition check (l : Limiter) (now : Z) (key : string) (up : bool) (db : Counters) : Counters * (bool * Z) :=
  if negb up then (db, (true, limit l))                            (* fail open *)
  else
    let k := window_key l key now in
    let '(db1, n) := incr now k db in
    let db2 := if n =? 1 then expire now (window l * 2) k db1 else db1 in
    (db2, (n <=? limit l, Z.max 0 (limit l - n))).

(** [retry_after_seconds]. *)
Definition retry_after_seconds (l : Limiter) (now : Z) : Z := Z.max 1 (window l - now mod window l).

(** The instant [reset_at_iso] prints. *)
Definition reset_at (l : Limiter) (now : Z) : Z := now + retry_after_seconds l now.

(** [parse_limit]; [None] is [ValueError]. *)
Definition parse_limit (s : string) : option (Z * Z) :=
  match split "/" s with
  | [a; b] =>
      let w := strip b in
      let w := if ends_with "s" w then String.substring 0 (slen w - 1) w else w in
      match py_int a, py_int w with
      | Some l, Some n => if (l <=? 0) || (n <=? 0) then None else Some (l, n)
      | _, _ => None
      end
  | _ => None
  end.

(** [build_rate_limiter]: [Ok None] is the disabled limiter. *)
Definition build_rate_limiter (spec : string) : outcome (option Limiter) unit :=
  let normalized := lower (strip spec) in
  if bool_decide (normalized ∈ [""; "off"; "none"; "disabled"; "0"]) then Ok None
  else match parse_limit normalized with
  | Some (l, w) => Ok (Some (mkLimiter l w))
  | None => Raise tt
  end.

(** The disabled limiter: [check], [retry_after_seconds]. *)
Definition disabled_check (key : string) : bool * Z := (true, 0).
Definition disabled_retry_after (now : Z) : Z := 0.

(** ** Runs *)

(** Requests in order: time and key; what each was answered. *)
Fixpoint answers (l : Limiter) (db : Counters) (reqs : list (Z * string)) : list (bool * Z) :=
  match reqs with
  | [] => []
  | (now, key) :: reqs => let '(db', a) := check l now key true db in a :: answers l db' reqs
  end.

(** Requests of the same key in the same window. *)
Definition same_window (l : Limiter) (a b : Z * string) : bool :=
  String.eqb a.2 b.2 && (a.1 / window l =? b.1 / window l).

(** How many of [past] share the window of [r]. *)
Definition seen_in_window (l : Limiter) (past : list (Z * string)) (r : Z * string) : Z :=
  Z.of_nat (length (List.filter (same_window l r) past)).

(** The reference: a request is admitted while fewer than [limit] of its key came
    before it in its window. *)
Fixpoint reference (l : Limiter) (past reqs : list (Z * string)) : list (bool * Z) :=
  match reqs with
  | [] => []
  | r :: reqs =>
      let n := seen_in_window l past r + 1 in
      (n <=? limit l, Z.max 0 (limit l - n)) :: reference l (past ++ [r]) reqs
  end.

(** ** Backoff *)

(** One call of the function: a value, an exception worth a retry, any other. *)
Inductive Attempt (A E : Type) := Returned (a : A) | Retryable (e : E) | Fatal (e : E).
Arguments Returned {A E} _.
Arguments Retryable {A E} _.
Arguments Fatal {A E} _.

Inductive RetryError (E : Type) := Failed (e : E) | NothingToRaise.   (* raise None: TypeError *)
Arguments Failed {E} _.
Arguments NothingToRaise {E}.

Definition delay_of (base_delay max_delay : usec) (attempt : nat) : usec :=
  Z.min (base_delay * 2 ^ Z.of_nat attempt) max_delay.

(** The loop: [more] further attempts are allowed after this one.  The result and
    the delays slept. *)
Fixpoint retry_loop {A E} (fn : nat -> Attempt A E) (base_delay max_delay : usec) (attempt more : nat)
    : outcome A E * list usec :=
  match fn attempt with
  | Returned a => (Ok a, [])
  | Fatal e => (Raise e, [])
  | Retryable e =>
      match more with
      | O => (Raise e, [])
      | S more =>
          let '(r, ds) := retry_loop fn base_delay max_delay (S attempt) more in
          (r, delay_of base_delay max_delay attempt :: ds)
      end
  end.

(** [retry_with_backoff]. *)
Definition retry_with_backoff {A E} (fn : nat -> Attempt A E) (max_retries : Z) (base_delay max_delay : usec)
    : outcome A (RetryError E) * list usec :=
  if max_retries <? 0 then (Raise NothingToRaise, [])
  else let '(r, ds) := retry_loop fn base_delay max_delay 0 (Z.to_nat max_retries) in
       (match r with Ok a => Ok a | Raise e => Raise (Failed e) end, ds).

(** ** Counting *)

Lemma slot_key_inj k1 n1 k2 n2 : slot_key k1 n1 = slot_key k2 n2 -> k1 = k2 /\ n1 = n2.
Proof.
  unfold slot_key. intros H.
  assert (Hc : forall s t u : string, s +:+ t = s +:+ u -> t = u).
  { intros s. induction s as [|ch s IH]; intros t u; [done|]. rewrite !sapp_cons. intros [= Ht]. by apply IH. }
  apply Hc in H. change (k1 +:+ String ":" (pretty n1) = k2 +:+ String ":" (pretty n2)) in H.
  assert (Hn : n1 = n2).
  { apply last_char_inj in H; [|by apply pretty_contains..]. by apply (inj pretty) in H. }
  split; [|done]. subst n2. clear Hc. revert k2 H.
  induction k1 as [|a k1 IH]; intros [|b k2] H; [done| | |].
  - apply (f_equal slen) in H. rewrite !slen_app in H. cbn in H. lia.
  - apply (f_equal slen) in H. rewrite !slen_app in H. cbn in H. lia.
  - rewrite !sapp_cons in H. injection H as -> H. f_equal. by apply IH.
Qed.

Section Counting.
Context (l : Limiter) (Hw : 0 < window l).

(** The number of requests of a key in a window. *)
Definition seen (past : list (Z * string)) (key : string) (slot : Z) : Z :=
  Z.of_nat (length (List.filter (fun r => String.eqb key r.2 && (slot =? r.1 / window l)) past)).

Lemma seen_window past t key : seen_in_window l past (t, key) = seen past key (t / window l).
Proof. done. Qed.

Lemma seen_snoc past t key key' slot :
  seen (past ++ [(t, key)]) key' slot =
  seen past key' slot + (if String.eqb key' key && (slot =? t / window l) then 1 else 0).
Proof.
  unfold seen. rewrite List.filter_app, length_app. cbn. destruct (_ && _); cbn; lia.
Qed.

(** The counter of a window holds the number of its requests, and outlives it. *)
Definition counts (past : list (Z * string)) (db : Counters) : Prop :=
  forall key slot,
    match db !! slot_key key slot with
    | Some x => count x = seen past key slot /\ 0 < count x /\ exists e, expires x = Some e /\ (slot + 1) * window l <= e
    | None => seen past key slot = 0
    end.

(** During its window a counter is there. *)
Lemma current_window past db t key : counts past db ->
  current t db (window_key l key t) = db !! window_key l key t.
Proof.
  intros H. specialize (H key (t / window l)). unfold current, window_key.
  destruct (db !! slot_key key (t / window l)) as [x|]; [|done]. destruct H as (_ & _ & e & -> & He).
  pose proof (Z.mul_succ_div_gt t (window l) Hw). rewrite (proj2 (Z.ltb_lt _ _)); [done|lia].
Qed.

Lemma check_counts past db t key : counts past db ->
  let n := seen_in_window l past (t, key) + 1 in
  snd (check l t key true db) = (n <=? limit l, Z.max 0 (limit l - n)) /\
  counts (past ++ [(t, key)]) (fst (check l t key true db)).
Proof.
  intros H. cbn zeta. unfold check, incr. cbn [negb]. rewrite (current_window past) by done.
  rewrite seen_window. pose proof (H key (t / window l)) as Hk. unfold window_key in *.
  set (slot := t / window l) in *. set (k := slot_key key slot) in *.
  assert (Hput : forall x, count x = seen past key slot + 1 -> (exists e, expires x = Some e /\ (slot + 1) * window l <= e) ->
    counts (past ++ [(t, key)]) (<[k := x]> db)).
  { intros x Hx He key' slot'. rewrite seen_snoc. destruct (decide (slot_key key' slot' = k)) as [E|E].
    - rewrite E, lookup_insert_eq. apply slot_key_inj in E as [-> ->]. fold slot.
      rewrite String.eqb_refl, Z.eqb_refl. cbn [andb]. split_and!; [done|unfold seen in Hx; lia|done].
    - rewrite lookup_insert_ne by done. fold slot.
      replace (String.eqb key' key && (slot' =? slot)) with false by
        (symmetry; apply not_true_iff_false; intros [->%String.eqb_eq ->%Z.eqb_eq]%andb_true_iff; done).
      rewrite Z.add_0_r. apply H. }
  destruct (db !! k) as [x|] eqn:Ek; cbn [fst snd].
  - destruct Hk as (Hc & Hpos & He). rewrite (proj2 (Z.eqb_neq _ 1)) by lia. rewrite Hc. split; [done|].
    apply Hput; cbn; [lia|done].
  - rewrite Hk. change (1 =? 1) with true. split; [done|]. unfold expire, current. rewrite lookup_insert_eq. cbn [expires count].
    rewrite insert_insert_eq. apply Hput; cbn; [lia|]. eexists. split; [done|].
    pose proof (Z.mul_div_le t (window l) Hw). fold slot in H0. nia.
Qed.

Lemma answers_reference reqs : forall past db, counts past db -> answers l db reqs = reference l past reqs.
Proof.
  induction reqs as [|[t key] reqs IH]; intros past db H; [done|]. cbn [answers reference].
  destruct (check_counts past db t key H) as [Ha Hc]. destruct (check l t key true db) as [db' a]. cbn in Ha, Hc.
  rewrite Ha. f_equal. by apply IH.
Qed.
End Counting.

(** ** The retry loop *)

Lemma retry_loop_spec {A E} (fn : nat -> Attempt A E) base_delay max_delay more : forall attempt,
  exists k : nat, (k <= more)%nat /\
    snd (retry_loop fn base_delay max_delay attempt more) = delay_of base_delay max_delay <$> seq attempt k /\
    (forall i, (i < k)%nat -> exists e, fn (attempt + i)%nat = Retryable e) /\
    match fn (attempt + k)%nat with
    | Returned a => fst (retry_loop fn base_delay max_delay attempt more) = Ok a
    | Fatal e => fst (retry_loop fn base_delay max_delay attempt more) = Raise e
    | Retryable e => fst (retry_loop fn base_delay max_delay attempt more) = Raise e /\ k = more
    end.
Proof.
  induction more as [|more IH]; intros attempt; cbn [retry_loop].
  - exists O. rewrite Nat.add_0_r. destruct (fn attempt); split_and!; try done; lia.
  - destruct (fn attempt) as [a|e|e] eqn:Ef.
    + exists O. rewrite Nat.add_0_r, Ef. split_and!; [lia|done|lia|done].
    + destruct (IH (S attempt)) as (k & Hk & Hd & Hi & Hr). exists (S k).
      destruct (retry_loop fn base_delay max_delay (S attempt) more) as [r ds]. cbn [fst snd] in *.
      rewrite <- plus_n_Sm. split_and!; [lia|cbn; by rewrite Hd| |].
      * intros [|i] Hlt; [rewrite Nat.add_0_r; eauto|]. rewrite <- plus_n_Sm. apply Hi. lia.
      * cbn [Nat.add] in Hr. destruct (fn (S (attempt + k))); [done|destruct Hr; split; [done|lia]|done].
    + exists O. rewrite Nat.add_0_r, Ef. split_and!; [lia|done|lia|done].
Qed.

(** ** Theorems *)

(** The limiter counts exactly: for any sequence of requests, of any keys and
    at any times, the answers of the Valkey counters with their expiries are those
    of the reference that looks back over the whole history - within a window the
    first [limit] requests of a key are admitted and no more, whatever other keys
    do. *)
Theorem limiter_counts_exactly l reqs :
  0 < window l -> answers l ∅ reqs = reference l [] reqs.
Proof. intros Hw. apply answers_reference; [done|]. intros key slot. by rewrite lookup_empty. Qed.

Lemma limiter_counts_exactly_witness :
  answers (mkLimiter 2 60) ∅ [(10, "a"); (20, "a"); (30, "b"); (40, "a"); (60, "a")]
    = [(true, 1); (true, 0); (true, 1); (false, 0); (true, 1)] /\
  answers (mkLimiter 2 60) ∅ [(10, "a"); (20, "a"); (30, "b"); (40, "a"); (60, "a")]
    = reference (mkLimiter 2 60) [] [(10, "a"); (20, "a"); (30, "b"); (40, "a"); (60, "a")].
Proof. split; [by vm_compute|]. apply (limiter_counts_exactly (mkLimiter 2 60)). done. Defined.

(** The advertised wait is right: it is at least one second and at most a
    window, and a client that waits exactly so long is in the next window, while
    one second less is not enough. *)
Theorem retry_after_reaches_next_window l now :
  0 < window l ->
  1 <= retry_after_seconds l now <= window l /\
  (now + retry_after_seconds l now) / window l = now / window l + 1 /\
  (now + retry_after_seconds l now - 1) / window l = now / window l.
Proof.
  intros Hw. unfold retry_after_seconds. pose proof (Z.mod_pos_bound now (window l) Hw).
  pose proof (Z.div_mod now (window l) ltac:(lia)) as E. rewrite Z.max_r by lia. split; [lia|]. split.
  - symmetry. apply Z.div_unique with 0; lia.
  - symmetry. apply Z.div_unique with (window l - 1); lia.
Qed.

Lemma retry_after_reaches_next_window_witness :
  retry_after_seconds (mkLimiter 10 60) 70 = 50 /\ (70 + 50) / 60 = 70 / 60 + 1.
Proof. split; [by vm_compute|]. apply (retry_after_reaches_next_window (mkLimiter 10 60) 70). done. Defined.

(** The window is fixed, not sliding: a client that waits for a boundary gets
    twice its limit within two seconds. *)
Theorem boundary_doubles_limit :
  answers (mkLimiter 2 60) ∅ [(59, "a"); (59, "a"); (60, "a"); (60, "a")] =
    [(true, 1); (true, 0); (true, 1); (true, 0)].
Proof. by vm_compute. Qed.

Lemma py_int_pretty n : 0 < n -> py_int (pretty n) = Some n.
Proof.
  intros Hn. destruct n as [|p|p]; try lia. change (pretty (Z.pos p)) with (pretty (N.pos p)).
  unfold py_int. rewrite strip_pretty. unfold pretty, pretty_N. destruct (decide _); [done|].
  assert (Hd : sforall is_digit (pretty_N_go (N.pos p) "") = true) by by apply pretty_go_forall.
  assert (Hi : int_digits 0 false (pretty_N_go (N.pos p) "") = Some (Z.pos p)) by by rewrite int_digits_go.
  destruct (pretty_N_go (N.pos p) "") as [|ch s]; [done|]. cbn in Hd. apply andb_true_iff in Hd as [Hd _].
  rewrite <- Hi. destruct (Ascii.eqb_spec ch "-") as [->|]; [done|]. destruct (Ascii.eqb_spec ch "+") as [->|]; done.
Qed.

(** No blanks around a number of seconds. *)
Lemma strip_unit n : 0 < n -> strip (pretty n +:+ "s") = pretty n +:+ "s".
Proof.
  intros Hn. destruct n as [|p|p]; try lia.
  assert (H : sforall (fun c => negb (is_space c)) (pretty (Z.pos p) +:+ "s") = true).
  { rewrite sforall_app. change (pretty (Z.pos p)) with (pretty (N.pos p)). rewrite pretty_N_nonspace. done. }
  unfold strip. by rewrite lstrip_none, rstrip_none.
Qed.

(** A limit that is written is read back. *)
Theorem parse_limit_round_trip limit window :
  0 < limit -> 0 < window ->
  parse_limit (pretty limit +:+ "/" +:+ pretty window +:+ "s") = Some (limit, window).
Proof.
  intros Hl Hw. unfold parse_limit. change (pretty limit +:+ "/" +:+ ?t) with (pretty limit +:+ String "/" t).
  rewrite split_at by by apply pretty_contains. rewrite split_absent.
  2:{ rewrite contains_app. by rewrite pretty_contains. }
  cbv zeta. rewrite strip_unit by done. rewrite ends_with_app, substring_app by done.
  rewrite !py_int_pretty by done. by rewrite (proj2 (Z.leb_gt limit 0)), (proj2 (Z.leb_gt window 0)).
Qed.

Lemma parse_limit_round_trip_witness : parse_limit "10/60s" = Some (10, 60).
Proof. apply (parse_limit_round_trip 10 60); done. Defined.

(** Retries are bounded: the loop calls the function at most [max_retries + 1]
    times, sleeping before each further call the doubled delay up to the cap; it
    ends with the first result that is not worth a retry, and with the last
    exception when there is none. *)
Theorem backoff_bounded {A E} (fn : nat -> Attempt A E) max_retries base_delay max_delay :
  0 <= max_retries -> 0 <= base_delay -> 0 <= max_delay ->
  exists k : nat,
    Z.of_nat k <= max_retries /\
    snd (retry_with_backoff fn max_retries base_delay max_delay) = delay_of base_delay max_delay <$> seq 0 k /\
    Forall (fun d => 0 <= d <= max_delay) (snd (retry_with_backoff fn max_retries base_delay max_delay)) /\
    (forall i, (i < k)%nat -> exists e, fn i = Retryable e) /\
    match fn k with
    | Returned a => fst (retry_with_backoff fn max_retries base_delay max_delay) = Ok a
    | Fatal e => fst (retry_with_backoff fn max_retries base_delay max_delay) = Raise (Failed e)
    | Retryable e => fst (retry_with_backoff fn max_retries base_delay max_delay) = Raise (Failed e) /\
                     Z.of_nat k = max_retries
    end.
Proof.
  intros Hm Hb Hx. unfold retry_with_backoff. rewrite (proj2 (Z.ltb_ge max_retries 0)) by done.
  destruct (retry_loop_spec fn base_delay max_delay (Z.to_nat max_retries) 0) as (k & Hk & Hd & Hi & Hr).
  exists k. destruct (retry_loop fn base_delay max_delay 0 (Z.to_nat max_retries)) as [r ds]. cbn [fst snd] in *.
  split_and!; [lia|done| |done|].
  - subst ds. apply Forall_fmap, Forall_forall. intros i _. cbn. unfold delay_of.
    pose proof (Z.pow_nonneg 2 (Z.of_nat i) ltac:(lia)). nia.
  - rewrite Nat.add_0_l in Hr. destruct (fn k); [by subst|destruct Hr as [-> ?]; split; [done|lia]|by subst].
Qed.

Lemma backoff_bounded_witness :
  exists k : nat, Z.of_nat k <= 3 /\
    snd (retry_with_backoff (fun n => if Nat.ltb n 2 then @Retryable Z Z 7 else Returned 1) 3 500 10000)
      = delay_of 500 10000 <$> seq 0 k.
Proof.
  destruct (backoff_bounded (fun n => if Nat.ltb n 2 then @Retryable Z Z 7 else Returned 1) 3 500 10000)
    as (k & H1 & H2 & _); [done..|]. by exists k.
Defined.
