(* ===== verification/Budget.v ===== *)
(** * The calibration budget
    ([src/agent-svc/agent/experimental/calibration_budget.py])

    [CalibrationLedger] reserves every external dispatch before it is made,
    journals it, and latches a stop when an outcome is unknown.  [Ledger] is its
    state, with one function per method; the clock readings of a method and
    whether the journal accepts its event are arguments.  [dispatch] and [settle]
    are the two halves of [BudgetedTransport.handle_async_request] around the
    awaited exchange, so that exchanges interleave; what [_bounded_request]
    decides about a request is an argument.  Times are microseconds.

    The theorems: the dispatches of an experiment never exceed the caps; a stop is
    final; the journal alone shows exactly the operations still unresolved; and an
    exchange either completes or stops the experiment. *)

From S2P Require Import Prelude Strings.

Inductive Kind := search | acquire | model.

#[export] Instance Kind_eq_dec : EqDecision Kind.
Proof. solve_decision. Defined.

(** [ScreeningCaps]. *)
Record Caps := mkCaps {
  cap_attempts : Z;
  per_attempt : Kind -> Z;
  output_tokens : Z;
  model_input_bytes : Z;
  response_bytes : Z;
  request_seconds : usec;
  attempt_seconds : usec;
  experiment_seconds : usec
}.

Definition SCREENING_MAXIMA : Caps :=
  mkCaps 6 (fun k => match k with search => 2 | acquire => 4 | model => 4 end) 256 12000 (1024 * 1024)
    (sec 15) (sec 45) (sec 300).

Definition within (v hi : Z) : bool := (0 <? v) && (v <=? hi).

(** [ScreeningCaps.__post_init__]. *)
Definition caps_valid (c : Caps) : bool :=
  within (cap_attempts c) (cap_attempts SCREENING_MAXIMA)
  && within (per_attempt c search) (per_attempt SCREENING_MAXIMA search)
  && within (per_attempt c acquire) (per_attempt SCREENING_MAXIMA acquire)
  && within (per_attempt c model) (per_attempt SCREENING_MAXIMA model)
  && within (output_tokens c) (output_tokens SCREENING_MAXIMA)
  && within (model_input_bytes c) (model_input_bytes SCREENING_MAXIMA)
  && within (response_bytes c) (response_bytes SCREENING_MAXIMA)
  && within (request_seconds c) (request_seconds SCREENING_MAXIMA)
  && within (attempt_seconds c) (attempt_seconds SCREENING_MAXIMA)
  && within (experiment_seconds c) (experiment_seconds SCREENING_MAXIMA).

(** The journaled states. *)
Inductive EventState :=
| attempt_started
| dispatch_reserved (op : string) (k : Kind) (tokens bytes : Z)
| response_complete (op : string)
| outcome_unknown (op reason : string)
| stopped (reason : string)
| attempt_finished (status : string) (reason : option string).

Record Event := mkEvent { ev_attempt : option string; ev_sequence : Z; ev_state : EventState }.

(** [CalibrationLedger]. *)
Record Ledger := mkLedger {
  events : list Event;
  halted : option string;
  attempt : option string;
  seen_attempts : list string;
  counts : Kind -> Z;
  pending : gset string;
  started : usec;
  attempt_start : usec
}.

Definition ledger_init (now : usec) : Ledger := mkLedger [] None None [] (fun _ => 0) ∅ now now.

Definition with_halted (l : Ledger) (reason : string) : Ledger :=
  mkLedger (events l) (Some reason) (attempt l) (seen_attempts l) (counts l) (pending l) (started l) (attempt_start l).
Definition with_attempt (l : Ledger) (a : option string) : Ledger :=
  mkLedger (events l) (halted l) a (seen_attempts l) (counts l) (pending l) (started l) (attempt_start l).
Definition with_pending (l : Ledger) (p : gset string) : Ledger :=
  mkLedger (events l) (halted l) (attempt l) (seen_attempts l) (counts l) p (started l) (attempt_start l).
Definition with_count (l : Ledger) (k : Kind) : Ledger :=
  mkLedger (events l) (halted l) (attempt l) (seen_attempts l)
    (fun k' => if decide (k' = k) then counts l k' + 1 else counts l k') (pending l) (started l) (attempt_start l).

(** A method's effect and what it returns or raises. *)
Abbreviation Done A := (Ledger * outcome A string)%type.

(** [_record]: [ok] tells whether the journal takes the event. *)
Definition record (ok : bool) (st : EventState) (l : Ledger) : Done unit :=
  if ok then
    (mkLedger (events l ++ [mkEvent (attempt l) (Z.of_nat (length (events l)) + 1) st]) (halted l) (attempt l)
       (seen_attempts l) (counts l) (pending l) (started l) (attempt_start l), Ok tt)
  else (with_halted l "journal_failed", Raise "journal failed; no further dispatch").

(** [_stop]. *)
Definition stop {A} (ok : bool) (reason : string) (l : Ledger) : Done A :=
  let '(l', r) := record ok (stopped reason) (with_halted l reason) in
  (l', match r with Ok _ => Raise reason | Raise e => Raise e end).

Section Ledger.
Context (c : Caps).

(** [start_attempt]; [t1] and [t2] are its clock readings. *)
Definition start_attempt (id : string) (t1 t2 : usec) (ok : bool) (l : Ledger) : Done unit :=
  match halted l with
  | Some h => (l, Raise h)
  | None =>
      if bool_decide (attempt l <> None) || bool_decide (id ∈ seen_attempts l) then stop ok "attempt_overlap_or_replay" l
      else if cap_attempts c <=? Z.of_nat (length (seen_attempts l)) then stop ok "attempt_cap" l
      else if experiment_seconds c <=? t1 - started l then stop ok "experiment_deadline" l
      else record ok attempt_started
             (mkLedger (events l) (halted l) (Some id) (id :: seen_attempts l) (fun _ => 0) (pending l) (started l) t2)
  end.

(** [remaining_seconds]. *)
Definition remaining_seconds (t1 t2 : usec) (l : Ledger) : usec :=
  Z.min (Z.min (experiment_seconds c - (t1 - started l)) (attempt_seconds c - (t2 - attempt_start l))) (request_seconds c).

Definition cap_reason (k : Kind) : string :=
  match k with search => "search_cap" | acquire => "acquire_cap" | model => "model_cap" end.

(** [reserve]: [op] is the drawn operation id. *)
Definition reserve (k : Kind) (bytes : Z) (op : string) (t1 t2 : usec) (ok : bool) (l : Ledger) : Done string :=
  match halted l with
  | Some h => (l, Raise h)
  | None =>
      if bool_decide (attempt l = None) then stop ok "no_active_attempt" l
      else if remaining_seconds t1 t2 l <=? 0 then stop ok "deadline" l
      else if per_attempt c k <=? counts l k then stop ok (cap_reason k) l
      else
        let tokens := if decide (k = model) then output_tokens c else 0 in
        let '(l1, r) := record ok (dispatch_reserved op k tokens bytes) l in
        match r with
        | Raise e => (l1, Raise e)
        | Ok _ => (let l2 := with_count l1 k in with_pending l2 ({[op]} ∪ pending l2), Ok op)
        end
  end.

(** [complete]; a [KeyError] when [op] is not pending. *)
Definition complete (op : string) (ok : bool) (l : Ledger) : Done unit :=
  let '(l1, r) := record ok (response_complete op) l in
  match r with
  | Raise e => (l1, Raise e)
  | Ok _ => if bool_decide (op ∈ pending l1) then (with_pending l1 (pending l1 ∖ {[op]}), Ok tt) else (l1, Raise "KeyError")
  end.

(** [unknown]. *)
Definition unknown (op reason : string) (ok : bool) (l : Ledger) : Done unit :=
  record ok (outcome_unknown op reason) (with_halted l "outcome_unknown").

(** [finish_attempt]. *)
Definition finish_attempt (status : string) (ok : bool) (l : Ledger) : Done unit :=
  if bool_decide (attempt l = None) then stop ok "no_active_attempt" l
  else if bool_decide (pending l <> ∅) then stop ok "outcome_unknown" l
  else match halted l with
  | Some h =>
      let '(l1, r) := record ok (attempt_finished "failed" (Some h)) l in
      match r with Raise e => (l1, Raise e) | Ok _ => (with_attempt l1 None, Raise h) end
  | None =>
      let '(l1, r) := record ok (attempt_finished status None) l in
      match r with Raise e => (l1, Raise e) | Ok _ => (with_attempt l1 None, Ok tt) end
  end.

(** ** Recovery diagnosis *)

(** The loop of [inspect_journal]. *)
Definition unresolved_step (p : gset string) (e : Event) : gset string :=
  match ev_state e with
  | dispatch_reserved op _ _ _ => {[op]} ∪ p
  | response_complete op => p ∖ {[op]}
  | _ => p
  end.
Definition unresolved (evs : list Event) : gset string := foldl unresolved_step ∅ evs.

(** [inspect_journal]: the number of events, the unresolved operations in order,
    whether replay is authorised, and the status. *)
Definition inspect_journal (evs : list Event) : nat * list string * bool * string :=
  let p := unresolved evs in
  (length evs, sorted_strs (elements p), false,
   if decide (p = ∅) then "no_unresolved_dispatch_in_journal" else "outcome_unknown").

(** ** The transport *)

(** What the exchange with the service did: no response, or a body (its chunks, or
    an exception while it was read) and how closing it went. *)
Inductive Body := BodyRead (chunks : list Z) | BodyRaises (name : string).
Inductive Exchange :=
| NoResponse (name : string)
| Response (b : Body) (close_error : option string) (retries fallbacks : option string) (usage : option (Z * Z)).

(** The first half of [handle_async_request]: [refusal] is the reason
    [_bounded_request] stops with. *)
Definition dispatch (k : Kind) (refusal : option string) (bytes : Z) (op : string) (t1 t2 : usec) (ok : bool) (l : Ledger)
    : Done string :=
  match refusal with
  | Some reason => stop ok reason l
  | None => reserve k bytes op t1 t2 ok l
  end.

(** The running length against the cap, chunk by chunk. *)
Fixpoint fits (cap len : Z) (chunks : list Z) : bool :=
  match chunks with
  | [] => true
  | n :: chunks => if cap <? len + n then false else fits cap (len + n) chunks
  end.

(** The exception of the exchange, if any. *)
Definition exchange_error (x : Exchange) : option string :=
  match x with
  | NoResponse name => Some name
  | Response (BodyRaises name) _ _ _ _ => Some name
  | Response (BodyRead chunks) _ _ _ _ =>
      if fits (response_bytes c) 0 chunks then None else Some "CalibrationStoppedError"
  end.

(** [complete], then [_stop]. *)
Definition complete_and_stop (op reason : string) (ok1 ok2 : bool) (l : Ledger) : Done unit :=
  let '(l1, r) := complete op ok1 l in
  match r with Raise e => (l1, Raise e) | Ok _ => stop ok2 reason l1 end.

(** The receipts and the accounting, after the exchange and its clean-up. *)
Definition account (k : Kind) (op : string) (x : Exchange) (ok1 ok2 : bool) (l : Ledger) : Done unit :=
  match k, x with
  | model, Response _ _ retries fallbacks usage =>
      if negb (bool_decide (retries = Some "0") && bool_decide (fallbacks = Some "0")) then
        complete_and_stop op "gateway_attempt_accounting_unavailable_or_changed" ok1 ok2 l
      else match usage with
      | None => complete_and_stop op "model_usage_unavailable" ok1 ok2 l
      | Some (_, completion) =>
          let '(l1, r) := complete op ok1 l in
          match r with
          | Raise e => (l1, Raise e)
          | Ok _ => if output_tokens c <? completion then stop ok2 "provider_exceeded_output_cap" l1 else (l1, Ok tt)
          end
      end
  | _, _ => complete op ok1 l
  end.

(** The second half of [handle_async_request]. *)
Definition settle (k : Kind) (op : string) (x : Exchange) (ok1 ok2 : bool) (l : Ledger) : Done unit :=
  match exchange_error x with
  | Some name =>
      let '(l1, r) := unknown op name ok1 l in
      (l1, match x with
           | Response _ (Some e) _ _ _ => Raise e                (* closing raised, too *)
           | _ => match r with Ok _ => Raise name | Raise e => Raise e end
           end)
  | None =>
      match x with
      | Response _ (Some e) _ _ _ =>
          match halted l with
          | None => let '(l1, r) := unknown op ("response_close_" +:+ e) ok1 l in
                    (l1, match r with Ok _ => Raise e | Raise e' => Raise e' end)
          | Some _ => (l, Raise e)
          end
      | _ => account k op x ok1 ok2 l
      end
  end.

End Ledger.

(** ** Runs *)

Inductive bevent :=
| BStart (id : string) (t1 t2 : usec) (ok : bool)
| BDispatch (k : Kind) (refusal : option string) (bytes : Z) (op : string) (t1 t2 : usec) (ok : bool)
| BSettle (k : Kind) (op : string) (x : Exchange) (ok1 ok2 : bool)
| BFinish (status : string) (ok : bool).

Definition bstep (c : Caps) (l : Ledger) (e : bevent) : Ledger :=
  match e with
  | BStart id t1 t2 ok => fst (start_attempt c id t1 t2 ok l)
  | BDispatch k refusal bytes op t1 t2 ok => fst (dispatch c k refusal bytes op t1 t2 ok l)
  | BSettle k op x ok1 ok2 => fst (settle c k op x ok1 ok2 l)
  | BFinish status ok => fst (finish_attempt status ok l)
  end.

(** The dispatches of a kind in the journal, and the tokens reserved. *)
Definition is_dispatch (k : Kind) (e : Event) : bool :=
  match ev_state e with dispatch_reserved _ k' _ _ => bool_decide (k' = k) | _ => false end.
Definition dispatches (k : Kind) (evs : list Event) : Z := Z.of_nat (length (List.filter (is_dispatch k) evs)).
Definition tokens_of (e : Event) : Z := match ev_state e with dispatch_reserved _ _ t _ => t | _ => 0 end.
Definition token_total (evs : list Event) : Z := foldr (fun e n => tokens_of e + n) 0 evs.

Lemma dispatches_snoc k evs e : dispatches k (evs ++ [e]) = dispatches k evs + (if is_dispatch k e then 1 else 0).
Proof. unfold dispatches. rewrite List.filter_app, length_app. cbn. destruct (is_dispatch k e); cbn; lia. Qed.
Lemma token_total_snoc evs e : token_total (evs ++ [e]) = token_total evs + tokens_of e.
Proof. unfold token_total. induction evs as [|e' evs IH]; cbn; [lia|]. rewrite IH. lia. Qed.
Lemma unresolved_snoc evs e : unresolved (evs ++ [e]) = unresolved_step (unresolved evs) e.
Proof. unfold unresolved. by rewrite foldl_app. Qed.

(** An event that is neither a dispatch nor a completion. *)
Definition neutral (st : EventState) : bool :=
  match st with dispatch_reserved _ _ _ _ | response_complete _ => false | _ => true end.

Section Invariants.
Context (c : Caps) (Hc : forall k, 0 < per_attempt c k).

(** What every method keeps. *)
Record bwf (l : Ledger) : Prop := mkBwf {
  bwf_seen : Z.of_nat (length (seen_attempts l)) <= cap_attempts c;
  bwf_distinct : NoDup (seen_attempts l);
  bwf_attempt : attempt l <> None -> seen_attempts l <> [];
  bwf_counts : forall k, 0 <= counts l k <= per_attempt c k;
  bwf_used : forall k, dispatches k (events l) + (match seen_attempts l with [] => 0 | _ => per_attempt c k - counts l k end)
               <= Z.of_nat (length (seen_attempts l)) * per_attempt c k;
  bwf_tokens : token_total (events l) = dispatches model (events l) * output_tokens c;
  bwf_pending : unresolved (events l) = pending l
}.

Lemma bwf_halt l reason : bwf l -> bwf (with_halted l reason).
Proof. intros []. by split. Qed.

Lemma bwf_record l st ok : neutral st = true -> bwf l -> bwf (fst (record ok st l)).
Proof.
  intros Hn H. unfold record. destruct ok; cbn [fst]; [|by apply bwf_halt]. destruct H. split; cbn; try done.
  - intros k. rewrite dispatches_snoc. cbn. unfold is_dispatch. cbn. destruct st; try done; rewrite Z.add_0_r; apply bwf_used0.
  - rewrite token_total_snoc, dispatches_snoc. unfold is_dispatch, tokens_of. cbn. destruct st; try done; rewrite !Z.add_0_r; done.
  - rewrite unresolved_snoc. unfold unresolved_step. cbn. by destruct st.
Qed.

Lemma bwf_stop {A} l ok reason : bwf l -> bwf (fst (@stop A ok reason l)).
Proof.
  intros H. unfold stop. pose proof (bwf_record (with_halted l reason) (stopped reason) ok eq_refl (bwf_halt _ _ H)) as Hr.
  by destruct (record ok (stopped reason) _) as [l' r].
Qed.

Lemma bwf_start l id t1 t2 ok : bwf l -> bwf (fst (start_attempt c id t1 t2 ok l)).
Proof.
  intros H. unfold start_attempt. destruct (halted l); [done|].
  destruct (_ || _) eqn:E1; [by apply bwf_stop|]. destruct (cap_attempts c <=? _) eqn:E2; [by apply bwf_stop|].
  destruct (experiment_seconds c <=? _); [by apply bwf_stop|]. apply bwf_record; [done|].
  apply orb_false_iff in E1 as [_ E1]. apply bool_decide_eq_false in E1. bool_to_prop. destruct H. split; cbn; try done.
  - lia.
  - by constructor.
  - intros k. specialize (Hc k). lia.
  - intros k. specialize (bwf_used0 k). specialize (bwf_counts0 k). specialize (Hc k). destruct (seen_attempts l); cbn in *; nia.
Qed.

Lemma bwf_reserve l k bytes op t1 t2 ok : bwf l -> bwf (fst (reserve c k bytes op t1 t2 ok l)).
Proof.
  intros H. unfold reserve. destruct (halted l); [done|]. case_bool_decide as Ea; [by apply bwf_stop|].
  destruct (remaining_seconds c t1 t2 l <=? 0); [by apply bwf_stop|].
  destruct (per_attempt c k <=? counts l k) eqn:Ec; [by apply bwf_stop|].
  unfold record. destruct ok; cbn [fst]; [|by apply bwf_halt]. bool_to_prop. destruct H.
  assert (Hne : seen_attempts l <> []) by by apply bwf_attempt0.
  split; cbn; try done.
  - intros k'. specialize (bwf_counts0 k'). case_decide; subst; lia.
  - intros k'. rewrite dispatches_snoc. unfold is_dispatch. cbn. specialize (bwf_used0 k').
    destruct (seen_attempts l); [done|]. case_bool_decide; case_decide; subst; try done; lia.
  - rewrite token_total_snoc, dispatches_snoc. unfold is_dispatch, tokens_of. cbn. rewrite bwf_tokens0.
    case_decide; case_bool_decide; try done; lia.
  - rewrite unresolved_snoc. cbn. by rewrite bwf_pending0.
Qed.

Lemma bwf_complete l op ok : bwf l -> bwf (fst (complete op ok l)).
Proof.
  intros H. unfold complete, record. destruct ok; cbn [fst]; [|by apply bwf_halt].
  assert (Hk : forall p, unresolved_step (pending l) (mkEvent (attempt l) (Z.of_nat (length (events l)) + 1) (response_complete op)) = p ->
    bwf (with_pending (mkLedger (events l ++ [mkEvent (attempt l) (Z.of_nat (length (events l)) + 1) (response_complete op)])
      (halted l) (attempt l) (seen_attempts l) (counts l) (pending l) (started l) (attempt_start l)) p)).
  { intros p Hp. destruct H. split; cbn; try done.
    - intros k. rewrite dispatches_snoc. cbn. rewrite Z.add_0_r. apply bwf_used0.
    - rewrite token_total_snoc, dispatches_snoc. cbn. by rewrite !Z.add_0_r.
    - by rewrite unresolved_snoc, bwf_pending0. }
  case_bool_decide as Hp; cbn [fst]; [by apply Hk|]. cbn in Hp. apply (Hk (pending l)). cbn. set_solver.
Qed.

Lemma bwf_unknown l op reason ok : bwf l -> bwf (fst (unknown op reason ok l)).
Proof. intros H. by apply bwf_record, bwf_halt. Qed.

Lemma bwf_with_attempt l : bwf l -> bwf (with_attempt l None).
Proof. intros []. by split. Qed.

Lemma bwf_finish l status ok : bwf l -> bwf (fst (finish_attempt status ok l)).
Proof.
  intros H. unfold finish_attempt. case_bool_decide; [by apply bwf_stop|]. case_bool_decide; [by apply bwf_stop|].
  destruct (halted l) as [h|].
  - pose proof (bwf_record l (attempt_finished "failed" (Some h)) ok eq_refl H) as Hr.
    destruct (record ok _ l) as [l1 [[]|e]]; [by apply bwf_with_attempt|done].
  - pose proof (bwf_record l (attempt_finished status None) ok eq_refl H) as Hr.
    destruct (record ok _ l) as [l1 [[]|e]]; [by apply bwf_with_attempt|done].
Qed.

Lemma bwf_complete_stop l op reason ok1 ok2 : bwf l -> bwf (fst (complete_and_stop op reason ok1 ok2 l)).
Proof.
  intros H. unfold complete_and_stop. pose proof (bwf_complete l op ok1 H) as Hr.
  destruct (complete op ok1 l) as [l1 [[]|e]]; [by apply bwf_stop|done].
Qed.

Lemma bwf_settle l k op x ok1 ok2 : bwf l -> bwf (fst (settle c k op x ok1 ok2 l)).
Proof.
  intros H. unfold settle. destruct (exchange_error c x) as [name|].
  { pose proof (bwf_unknown l op name ok1 H) as Hr. by destruct (unknown op name ok1 l). }
  destruct x as [name|b [e|] retries fallbacks usage].
  - by destruct k; apply bwf_complete.
  - destruct (halted l); [done|].
    pose proof (bwf_unknown l op ("response_close_" +:+ e) ok1 H) as Hr. by destruct (unknown op _ ok1 l).
  - destruct k; cbn [account]; [by apply bwf_complete..|]. destruct (negb _); [by apply bwf_complete_stop|].
    destruct usage as [[prompt completion]|]; [|by apply bwf_complete_stop].
    pose proof (bwf_complete l op ok1 H) as Hr. destruct (complete op ok1 l) as [l1 [[]|e]]; [|done].
    destruct (_ <? _); [by apply bwf_stop|done].
Qed.

Lemma bwf_run now evs : 0 <= cap_attempts c -> bwf (run_ops (bstep c) (ledger_init now) evs).
Proof.
  intros Hca. apply run_ops_invariant.
  - split; cbn; try done; [constructor|]. intros k. specialize (Hc k). lia.
  - intros l e H. destruct e; cbn [bstep]; [by apply bwf_start| |by apply bwf_settle|by apply bwf_finish].
    unfold dispatch. destruct refusal; [by apply bwf_stop|by apply bwf_reserve].
Qed.

End Invariants.

(** ** Stops are final *)

(** Still stopped, and no dispatch since. *)
Definition stays (l l' : Ledger) : Prop :=
  halted l' <> None /\ (forall k, dispatches k (events l') = dispatches k (events l)) /\
  forall op, op ∈ pending l' -> op ∈ pending l.

Lemma stays_refl l : halted l <> None -> stays l l.
Proof. by intros H. Qed.

Lemma stays_record l l0 st ok : neutral st = true \/ (exists op, st = response_complete op) ->
  halted l0 <> None -> events l0 = events l -> pending l0 = pending l -> stays l (fst (record ok st l0)).
Proof.
  intros Hn Hh He Hp. unfold record. destruct ok; cbn [fst]; (split; [done|]); cbn; rewrite ?He, Hp; (split; [|done]); [|done].
  intros k. rewrite dispatches_snoc. unfold is_dispatch. cbn. destruct Hn as [Hn|[op ->]]; [|lia]. destruct st; try done; lia.
Qed.

Lemma stays_stop {A} l l0 ok reason : events l0 = events l -> pending l0 = pending l -> stays l (fst (@stop A ok reason l0)).
Proof.
  intros He Hp. unfold stop.
  pose proof (stays_record l (with_halted l0 reason) (stopped reason) ok (or_introl eq_refl) ltac:(done) He Hp) as H.
  by destruct (record ok (stopped reason) _).
Qed.

Lemma stays_trans l1 l2 l3 : stays l1 l2 -> stays l2 l3 -> stays l1 l3.
Proof.
  intros (_ & H2 & H3) (H4 & H5 & H6). split_and!; [done| |auto]. intros k. by rewrite H5, H2.
Qed.

Lemma stays_complete l op ok : halted l <> None -> stays l (fst (complete op ok l)).
Proof.
  intros H. unfold complete. pose proof (stays_record l l (response_complete op) ok (or_intror (ex_intro _ op eq_refl)) H eq_refl eq_refl) as Hr.
  destruct (record ok _ l) as [l1 [[]|e]]; [|done]. cbn [fst] in *. case_bool_decide; [|done].
  destruct Hr as (H1 & H2 & H3). split_and!; [done|done|]. cbn. set_solver.
Qed.

Lemma stays_complete_stop l op reason ok1 ok2 : halted l <> None -> stays l (fst (complete_and_stop op reason ok1 ok2 l)).
Proof.
  intros H. unfold complete_and_stop. pose proof (stays_complete l op ok1 H) as Hr.
  destruct (complete op ok1 l) as [l1 [[]|e]]; [|done]. eapply stays_trans; [exact Hr|by apply stays_stop].
Qed.

Lemma stays_step c l e : halted l <> None -> stays l (bstep c l e).
Proof.
  intros H. destruct e as [id t1 t2 ok|k refusal bytes op t1 t2 ok|k op x ok1 ok2|status ok]; cbn [bstep].
  - unfold start_attempt. destruct (halted l) eqn:E; [|done]. refine (stays_refl l _); by rewrite E.
  - unfold dispatch, reserve. destruct refusal; [by apply stays_stop|]. destruct (halted l) eqn:E; [|done]. refine (stays_refl l _); by rewrite E.
  - unfold settle. destruct (exchange_error c x) as [name|].
    { pose proof (stays_record l (with_halted l "outcome_unknown") (outcome_unknown op name) ok1 (or_introl eq_refl) ltac:(done) eq_refl eq_refl) as Hr.
      unfold unknown. by destruct (record ok1 _ _). }
    destruct x as [name|b [e|] retries fallbacks usage].
    + by destruct k; apply stays_complete.
    + destruct (halted l) eqn:E; [|done]. refine (stays_refl l _); by rewrite E.
    + destruct k; cbn [account]; [by apply stays_complete..|]. destruct (negb _); [by apply stays_complete_stop|].
      destruct usage as [[prompt completion]|]; [|by apply stays_complete_stop].
      pose proof (stays_complete l op ok1 H) as Hr. destruct (complete op ok1 l) as [l1 [[]|e]]; [|done].
      destruct (_ <? _); [|done]. eapply stays_trans; [exact Hr|by apply stays_stop].
  - unfold finish_attempt. case_bool_decide; [by apply stays_stop|]. case_bool_decide; [by apply stays_stop|].
    destruct (halted l) as [h|] eqn:E; [|done].
    pose proof (stays_record l l (attempt_finished "failed" (Some h)) ok (or_introl eq_refl) ltac:(first [done|by rewrite E]) eq_refl eq_refl) as Hr.
    by destruct (record ok _ l) as [l1 [[]|e]].
Qed.

Lemma caps_valid_spec c : caps_valid c = true ->
  0 < cap_attempts c <= 6 /\ (forall k, 0 < per_attempt c k <= 4) /\ 0 < output_tokens c <= 256.
Proof.
  unfold caps_valid, within. rewrite !andb_true_iff, !Z.ltb_lt, !Z.leb_le. cbn. intros.
  split; [lia|]. split; [intros []; lia|lia].
Qed.

(** ** Theorems *)

(** The caps hold: in every interleaving of attempts, exchanges, clean-ups and
    journal failures, no attempt is started twice, there are never more attempts
    than allowed, never more dispatches of a kind than [attempts * per_attempt],
    and the output tokens reserved stay within their product. *)
Theorem calibration_within_caps c now evs :
  caps_valid c = true ->
  let l := run_ops (bstep c) (ledger_init now) evs in
  NoDup (seen_attempts l) /\ Z.of_nat (length (seen_attempts l)) <= cap_attempts c /\
  (forall k, dispatches k (events l) <= cap_attempts c * per_attempt c k) /\
  token_total (events l) <= cap_attempts c * per_attempt c model * output_tokens c <= 6144.
Proof.
  intros (Ha & Hp & Ho)%caps_valid_spec. cbn zeta. assert (Hk : forall k, 0 < per_attempt c k) by (intros k; apply Hp).
  destruct (bwf_run c Hk now evs ltac:(lia)) as [Hs Hd _ Hcnt Hu Ht _].
  assert (Hcap : forall k, dispatches k (events (run_ops (bstep c) (ledger_init now) evs)) <= cap_attempts c * per_attempt c k).
  { intros k. specialize (Hu k). specialize (Hcnt k). specialize (Hk k). destruct (seen_attempts _); nia. }
  specialize (Hp model). pose proof (Hcap model) as Hm. split_and!; [done..| |].
  - rewrite Ht. nia.
  - assert (cap_attempts c * per_attempt c model <= 24) by nia. nia.
Qed.

Definition demo_run : list bevent :=
  [BStart "a1" 1 2 true; BDispatch model None 10 "op1" 3 4 true;
   BSettle model "op1" (Response (BodyRead [100; 200]) None (Some "0") (Some "0") (Some (5, 6))) true true;
   BDispatch search None 10 "op2" 5 6 true; BSettle search "op2" (NoResponse "TimeoutError") true true;
   BDispatch search None 10 "op3" 7 8 true].

Lemma calibration_within_caps_witness :
  let l := run_ops (bstep SCREENING_MAXIMA) (ledger_init 0) demo_run in
  dispatches model (events l) = 1 /\ dispatches search (events l) = 1 /\ halted l = Some "outcome_unknown" /\
  token_total (events l) <= 6 * 4 * 256 <= 6144.
Proof.
  cbn zeta. split; [by vm_compute|]. split; [by vm_compute|]. split; [by vm_compute|].
  apply (calibration_within_caps SCREENING_MAXIMA 0 demo_run). by vm_compute.
Defined.

(** A stop is final: once the experiment is halted, whatever callers still do,
    it stays halted, no further dispatch is ever reserved, and no operation becomes
    pending. *)
Theorem calibration_stop_final c l evs :
  halted l <> None -> stays l (run_ops (bstep c) l evs).
Proof.
  intros H. revert l H. induction evs as [|e evs IH]; intros l H; [by apply stays_refl|].
  pose proof (stays_step c l e H) as Hs. eapply stays_trans; [exact Hs|]. apply IH. by destruct Hs.
Qed.

Lemma calibration_stop_final_witness :
  stays (with_halted (ledger_init 0) "deadline")
    (run_ops (bstep SCREENING_MAXIMA) (with_halted (ledger_init 0) "deadline") demo_run).
Proof. apply (calibration_stop_final SCREENING_MAXIMA). done. Defined.

(** The journal tells the truth: after any run, reading the journal back finds
    unresolved exactly the operations the ledger holds pending, never authorises a
    replay, and reports an unknown outcome exactly when there is one. *)
Theorem journal_shows_pending c now evs :
  caps_valid c = true ->
  let l := run_ops (bstep c) (ledger_init now) evs in
  let '(n, ids, replay, status) := inspect_journal (events l) in
  n = length (events l) /\ (forall op, op ∈ ids <-> op ∈ pending l) /\ NoDup ids /\ replay = false /\
  (status = "outcome_unknown" <-> pending l <> ∅).
Proof.
  intros (Ha & Hcap & _)%caps_valid_spec. cbn zeta. assert (Hk : forall k, 0 < per_attempt c k) by (intros k; apply Hcap).
  destruct (bwf_run c Hk now evs ltac:(lia)) as [_ _ _ _ _ _ Hp].
  unfold inspect_journal. rewrite Hp. set (p := pending _).
  assert (Hperm : sorted_strs (elements p) ≡ₚ elements p) by apply sorted_strs_perm.
  split_and!; [done| | |done|].
  - intros op. rewrite Hperm. apply elem_of_elements.
  - rewrite Hperm. apply NoDup_elements.
  - destruct (decide (p = ∅)); [|done]. split; [done|]. intros. done.
Qed.

Lemma journal_shows_pending_witness :
  inspect_journal (events (run_ops (bstep SCREENING_MAXIMA) (ledger_init 0) demo_run)) = (5%nat, ["op2"], false, "outcome_unknown") /\
  let l := run_ops (bstep SCREENING_MAXIMA) (ledger_init 0) demo_run in
  let '(n, ids, replay, status) := inspect_journal (events l) in
  n = length (events l) /\ (forall op, op ∈ ids <-> op ∈ pending l) /\ NoDup ids /\ replay = false /\
  (status = "outcome_unknown" <-> pending l <> ∅).
Proof. split; [by vm_compute|]. apply (journal_shows_pending SCREENING_MAXIMA 0 demo_run). by vm_compute. Defined.

(** The result of a stop. *)
Lemma stop_halts {A} ok reason l : exists e, snd (@stop A ok reason l) = Raise e /\ halted (fst (@stop A ok reason l)) <> None.
Proof. unfold stop, record. destruct ok; cbn; eauto. Qed.

(** An exchange completes or stops the experiment: when [handle_async_request]
    returns, its operation is resolved; when it raises - the service failed, the
    body was too large, closing failed, the gateway retried, the usage is missing
    or over the cap, or the journal failed - the experiment is halted. *)
Theorem settle_completes_or_stops c k op x ok1 ok2 l :
  op ∈ pending l ->
  match settle c k op x ok1 ok2 l with
  | (l', Ok _) => op ∉ pending l' /\ halted l' = halted l /\ exchange_error c x = None
  | (l', Raise _) => halted l' <> None
  end.
Proof.
  intros Hop. unfold settle. destruct (exchange_error c x) as [name|] eqn:Ex.
  { unfold unknown, record. destruct ok1, x as [n|b [e|] r f u]; done. }
  assert (Hcomplete : forall l' r, complete op ok1 l = (l', r) ->
    match r with Ok _ => op ∉ pending l' /\ halted l' = halted l | Raise _ => halted l' <> None end).
  { unfold complete, record. destruct ok1; cbn; intros l' r E.
    - rewrite bool_decide_true in E by done. injection E as <- <-. cbn. set_solver.
    - by injection E as <- <-. }
  assert (Hcs : forall reason, match complete_and_stop op reason ok1 ok2 l with
    | (l', Ok _) => op ∉ pending l' /\ halted l' = halted l /\ @None string = None
    | (l', Raise _) => halted l' <> None end).
  { intros reason. unfold complete_and_stop. destruct (complete op ok1 l) as [l1 r] eqn:Ec. specialize (Hcomplete l1 r eq_refl).
    destruct r; [|done]. destruct (@stop_halts unit ok2 reason l1) as (e & He & Hh). destruct (stop ok2 reason l1) as [l2 r]. cbn in *. by subst. }
  assert (Hc1 : match complete op ok1 l with
    | (l', Ok _) => op ∉ pending l' /\ halted l' = halted l /\ @None string = None
    | (l', Raise _) => halted l' <> None end).
  { destruct (complete op ok1 l) as [l1 r] eqn:Ec. specialize (Hcomplete l1 r eq_refl). destruct r; [|done]. by destruct Hcomplete. }
  destruct x as [n|b [e|] retries fallbacks usage]; [done| |].
  - destruct (halted l) eqn:E; [by rewrite E|]. unfold unknown, record. by destruct ok1.
  - destruct k; cbn [account]; [done..|]. destruct (negb _); [apply Hcs|]. destruct usage as [[prompt completion]|]; [|apply Hcs].
    destruct (complete op ok1 l) as [l1 r]. destruct r; [|done]. destruct (_ <? _); [|done].
    destruct (@stop_halts unit ok2 "provider_exceeded_output_cap" l1) as (e & He & Hh).
    destruct (stop ok2 _ l1) as [l2 r]. cbn in *. by subst.
Qed.

Lemma settle_completes_or_stops_witness :
  let l := run_ops (bstep SCREENING_MAXIMA) (ledger_init 0) (take 2 demo_run) in
  match settle SCREENING_MAXIMA model "op1" (Response (BodyRead [100]) None (Some "1") (Some "0") (Some (5, 6))) true true l with
  | (l', Ok _) => "op1" ∉ pending l' /\ halted l' = halted l /\
      exchange_error SCREENING_MAXIMA (Response (BodyRead [100]) None (Some "1") (Some "0") (Some (5, 6))) = None
  | (l', Raise _) => halted l' <> None
  end.
Proof.
  cbn zeta. apply (settle_completes_or_stops SCREENING_MAXIMA).
  apply (bool_decide_unpack _). by vm_compute.
Defined.
