(* ===== verification/Links.v ===== *)
(** * Link discovery ([src/agent-svc/agent/link_extractor.py] and the child-link
    filters of [crawler.py])

    BeautifulSoup is not part of the repository: a parsed page is the [href] of
    its [<base>] tag, if any, and the [href]s of its [<a>] tags in document
    order ([Page]).  [None] is the [ValueError] of [urlparse].

    The theorem: every link a crawl enqueues is in the scope the options allow,
    and a link outside the current page's domain was checked against the SSRF
    guard. *)

From S2P Require Import Prelude Strings Url HostPolicy.

Record Page := mkPage { base_href : option string; hrefs : list string }.

(** [_strip_fragment]. *)
Definition strip_fragment (url : string) : string := let '(a, _, _) := partition "#" url in a.

(** [_is_subdomain]. *)
Definition is_subdomain (host base : string) : bool :=
  if String.eqb (lower host) (lower base) then false else ends_with ("." +:+ lower base) (lower host).

(** The loop of [extract_links] over the anchors; [seen] are the URLs found. *)
Fixpoint extract_loop (base : string) (hs seen : list string) : list string :=
  match hs with
  | [] => []
  | h :: hs =>
      let href := strip h in
      if is_empty href then extract_loop base hs seen
      else match urljoin base href with
      | None => extract_loop base hs seen
      | Some full =>
          match urlparse full with
          | None => extract_loop base hs seen
          | Some r =>
              let sch := lower (scheme r) in
              if negb (is_empty sch) && negb (mem sch ["http"; "https"]) then extract_loop base hs seen
              else
                let clean := strip_fragment full in
                if mem clean seen then extract_loop base hs seen
                else clean :: extract_loop base hs (clean :: seen)
          end
      end
  end.

(** [extract_links]; the page is non-empty HTML. *)
Definition extract_links (page : Page) (base_url : string) : list string :=
  if is_empty base_url then []
  else
    let base := match base_href page with
                | Some h => if is_empty h then base_url else h
                | None => base_url end in
    extract_loop base (hrefs page) [].

(** [(urlparse(url).hostname or "").lower()]. *)
Definition host_of (url : string) : option string := (fun r => lower (hostname r)) <$> urlparse url.

(** The test of [filter_links] on one URL. *)
Definition link_allowed (base_domain : string) (allow_subdomains allow_external : bool) (host : string)
    : bool :=
  if is_empty host then true
  else
    let base := lower base_domain in
    if String.eqb host base then true
    else if is_subdomain host base && allow_subdomains then true
    else negb (is_subdomain host base) && negb (String.eqb host base) && allow_external.

(** [filter_links] with a base domain. *)
Fixpoint filter_links (base_domain : string) (allow_subdomains allow_external : bool)
    (links : list string) : option (list string) :=
  match links with
  | [] => Some []
  | u :: us =>
      match host_of u, filter_links base_domain allow_subdomains allow_external us with
      | Some h, Some r =>
          Some (if link_allowed base_domain allow_subdomains allow_external h then u :: r else r)
      | _, _ => None
      end
  end.

Record Classified := mkClassified {
  internal : list string; subdomain : list string; external : list string
}.

(** The bucket of one URL. *)
Inductive bucket := Internal | Subdomain | External.

Definition bucket_of (host base_host : string) : bucket :=
  if is_empty host then Internal
  else if String.eqb host base_host then Internal
  else if is_subdomain host base_host then Subdomain
  else External.

(** [classify_links]. *)
Fixpoint classify_from (base_host : string) (links : list string) : option Classified :=
  match links with
  | [] => Some (mkClassified [] [] [])
  | u :: us =>
      match host_of u, classify_from base_host us with
      | Some h, Some c =>
          Some (match bucket_of h base_host with
                | Internal => mkClassified (u :: internal c) (subdomain c) (external c)
                | Subdomain => mkClassified (internal c) (u :: subdomain c) (external c)
                | External => mkClassified (internal c) (subdomain c) (u :: external c)
                end)
      | _, _ => None
      end
  end.

Definition classify_links (links : list string) (base_url : string) : option Classified :=
  match host_of base_url with
  | Some b => classify_from b links
  | None => None
  end.

(** [_filter_ssrf_blocked]. *)
Fixpoint filter_ssrf_blocked (dns : Dns) (links : list string) : option (list string) :=
  match links with
  | [] => Some []
  | u :: us =>
      match is_private_host dns u, filter_ssrf_blocked dns us with
      | Some b, Some r => Some (if b then r else u :: r)
      | _, _ => None
      end
  end.

(** The test of [_filter_child_paths] on one link. *)
Definition is_child_link (current_path current_domain : string) (r : ParseResult) : bool :=
  let link_path := if is_empty (path r) then "/" else path r in
  if negb (String.eqb (lower (hostname r)) current_domain) then true
  else starts_with current_path link_path && negb (String.eqb link_path (rstrip is_slash current_path)).

(** [_filter_child_paths]. *)
Fixpoint child_paths_from (current_path current_domain : string) (links : list string)
    : option (list string) :=
  match links with
  | [] => Some []
  | u :: us =>
      match urlparse u, child_paths_from current_path current_domain us with
      | Some r, Some l => Some (if is_child_link current_path current_domain r then u :: l else l)
      | _, _ => None
      end
  end.

Definition filter_child_paths (links : list string) (current_url : string) : option (list string) :=
  match urlparse current_url with
  | Some r => child_paths_from (rstrip is_slash (path r) +:+ "/") (lower (hostname r)) links
  | None => None
  end.

Record LinkOptions := mkLinkOptions {
  allow_subdomains : bool; allow_external_links : bool; crawl_entire_domain : bool
}.

(** The child-link pipeline of [_scrape_url]. *)
Definition child_links (o : LinkOptions) (dns : Dns) (base_domain url : string) (page : Page)
    : option (list string) :=
  match filter_links base_domain (allow_subdomains o) (allow_external_links o) (extract_links page url) with
  | None => None
  | Some l =>
      match classify_links l url with
      | None => None
      | Some c =>
          let ext := match external c with [] => Some [] | _ => filter_ssrf_blocked dns (external c) end in
          match ext with
          | None => None
          | Some ext =>
              let l := internal c ++ subdomain c ++ ext in
              if crawl_entire_domain o then Some l else filter_child_paths l url
          end
      end
  end.

(** ** Theorems *)

Lemma filter_links_spec base s e l : forall r, filter_links base s e l = Some r ->
  forall u, u ∈ r -> u ∈ l /\ exists h, host_of u = Some h /\ link_allowed base s e h = true.
Proof.
  induction l as [|x l IH]; cbn; intros r Hr u Hu; [simplify_eq; by apply not_elem_of_nil in Hu|].
  destruct (host_of x) as [h|] eqn:Eh; [|done]. destruct (filter_links base s e l) as [r'|]; [|done].
  specialize (IH r' eq_refl u). injection Hr as <-.
  destruct (link_allowed base s e h) eqn:El.
  - apply elem_of_cons in Hu as [->|Hu]; [split; [by left|eauto]|].
    destruct (IH Hu). split; [by right|done].
  - destruct (IH Hu). split; [by right|done].
Qed.

Lemma classify_spec b l : forall c, classify_from b l = Some c ->
  forall u, (u ∈ internal c ++ subdomain c ++ external c -> u ∈ l) /\
    (u ∈ internal c ++ subdomain c -> exists h, host_of u = Some h /\ bucket_of h b <> External).
Proof.
  induction l as [|x l IH]; cbn; intros c Hc u.
  { simplify_eq. cbn. split; by intros ?%not_elem_of_nil. }
  destruct (host_of x) as [h|] eqn:Eh; [|done]. destruct (classify_from b l) as [c'|]; [|done].
  destruct (IH c' eq_refl u) as [IH1 IH2]. injection Hc as <-. rewrite !elem_of_app in *.
  destruct (bucket_of h b) eqn:Eb; cbn; rewrite !elem_of_cons;
    (split; [tauto|]); intros Hu; (assert (Hx : u = x \/ u ∈ internal c' \/ u ∈ subdomain c') by tauto);
    destruct Hx as [->|Hx]; try (by apply IH2); try (exists h; split; [done|congruence]).
Qed.

Lemma ssrf_spec dns l : forall r, filter_ssrf_blocked dns l = Some r ->
  forall u, u ∈ r -> u ∈ l /\ is_private_host dns u = Some false.
Proof.
  induction l as [|x l IH]; cbn; intros r Hr u Hu; [simplify_eq; by apply not_elem_of_nil in Hu|].
  destruct (is_private_host dns x) as [b|] eqn:E; [|done].
  destruct (filter_ssrf_blocked dns l) as [r'|]; [|done]. injection Hr as <-. specialize (IH r' eq_refl u).
  destruct b; [destruct (IH Hu); split; [by right|done]|].
  apply elem_of_cons in Hu as [->|Hu]; [split; [by left|done]|]. destruct (IH Hu). split; [by right|done].
Qed.

Lemma child_paths_sublist cp cd l : forall r, child_paths_from cp cd l = Some r ->
  forall u, u ∈ r -> u ∈ l /\ exists p, urlparse u = Some p /\ is_child_link cp cd p = true.
Proof.
  induction l as [|x l IH]; cbn; intros r Hr u Hu; [simplify_eq; by apply not_elem_of_nil in Hu|].
  destruct (urlparse x) as [p|] eqn:E; [|done].
  destruct (child_paths_from cp cd l) as [r'|]; [|done]. injection Hr as <-. specialize (IH r' eq_refl u).
  destruct (is_child_link cp cd p) eqn:Ec.
  - apply elem_of_cons in Hu as [->|Hu]; [split; [by left|eauto]|]. destruct (IH Hu). split; [by right|done].
  - destruct (IH Hu). split; [by right|done].
Qed.

Lemma child_links_scope o dns base_domain url page links b :
  host_of url = Some b ->
  child_links o dns base_domain url page = Some links ->
  forall u, u ∈ links -> u ∈ extract_links page url /\ exists h, host_of u = Some h /\
    link_allowed base_domain (allow_subdomains o) (allow_external_links o) h = true /\
    (bucket_of h b <> External \/ is_private_host dns u = Some false).
Proof.
  intros Hb Hl u Hu. unfold child_links in Hl.
  destruct (filter_links _ _ _ _) as [l|] eqn:Ef; [|done].
  unfold classify_links in Hl. rewrite Hb in Hl.
  destruct (classify_from b l) as [c|] eqn:Ec; [|done].
  destruct (match external c with [] => Some [] | _ => filter_ssrf_blocked dns (external c) end)
    as [ext|] eqn:Ex; [|done].
  assert (Hext : forall x, x ∈ ext -> x ∈ external c /\ is_private_host dns x = Some false).
  { intros x Hx. destruct (external c) as [|e es]; [simplify_eq; by apply not_elem_of_nil in Hx|].
    by apply (ssrf_spec dns (e :: es) ext Ex). }
  assert (Hin : u ∈ internal c ++ subdomain c ++ ext).
  { destruct (crawl_entire_domain o); [by simplify_eq|]. unfold filter_child_paths in Hl.
    destruct (urlparse url) as [r|]; [|done]. by apply (child_paths_sublist _ _ _ _ Hl u Hu). }
  destruct (classify_spec b l c Ec u) as [H1 H2].
  assert (Hul : u ∈ l).
  { apply H1. rewrite !elem_of_app in *. destruct Hin as [?|[?|Hin]]; auto. right. right. by apply Hext. }
  destruct (filter_links_spec _ _ _ _ _ Ef u Hul) as (Hx & h & Hh & Ha).
  split; [done|]. exists h. split_and!; [done|done|].
  rewrite app_assoc, elem_of_app in Hin. destruct Hin as [Hin|Hin].
  - left. destruct (H2 Hin) as (h' & Hh' & Hne). congruence.
  - right. by apply Hext.
Qed.

(** Scope of discovery: every link a page contributes to the crawl comes from
    the page, is on the crawl's domain, or on a subdomain or an external domain
    when the options allow it; and unless it is on the page's own domain or a
    subdomain of it, its host passed the SSRF guard, whatever the options. *)
Theorem child_links_in_scope o dns base_domain url page links b :
  host_of url = Some b ->
  child_links o dns base_domain url page = Some links ->
  forall u, u ∈ links -> u ∈ extract_links page url /\ exists h, host_of u = Some h /\
    link_allowed base_domain (allow_subdomains o) (allow_external_links o) h = true /\
    (bucket_of h b <> External \/ is_private_host dns u = Some false).
Proof. apply child_links_scope. Qed.

Lemma child_links_in_scope_witness :
  let page := mkPage None ["/a"; "http://127.0.0.1/x"; "https://example.com/y#z"; "mailto:x"] in
  child_links (mkLinkOptions false true true) demo_dns "h.org" "https://h.org/" page
    = Some ["https://h.org/a"; "https://example.com/y"] /\
  is_private_host demo_dns "https://example.com/y" = Some false.
Proof.
  intros page.
  assert (H : child_links (mkLinkOptions false true true) demo_dns "h.org" "https://h.org/" page
    = Some ["https://h.org/a"; "https://example.com/y"]) by (vm_compute; reflexivity).
  split; [exact H|].
  destruct (child_links_in_scope (mkLinkOptions false true true) demo_dns "h.org" "https://h.org/" page
    _ "h.org" eq_refl H "https://example.com/y" ltac:(right; left)) as (_ & h & Hh & _ & [Hb|Hp]); [|exact Hp].
  vm_compute in Hh. injection Hh as <-. vm_compute in Hb. destruct Hb. reflexivity.
Defined.
