(* ===== verification/Dedup.v ===== *)
(** * Content-level dedup ([src/agent-svc/agent/dedup.py])

    [DedupManager] with its three sets.  The [href] of the canonical tag is
    found by a regular expression in the page and is an argument here, as is
    the SHA-256 digest. *)

From S2P Require Import Prelude Strings Url.

Record DedupManager := mkDedup {
  scraped_urls : gset string;
  canonical_urls : gmap string string;
  content_hashes : gset string
}.

Definition dedup_init : DedupManager := mkDedup ∅ ∅ ∅.

Definition rstrip_slash (u : string) : string := rstrip is_slash u.

(** [mark_scraped]; [None] is the [ValueError] of [urljoin]. *)
Definition mark_scraped (url : string) (canonical content_hash : option string) (d : DedupManager)
    : option DedupManager :=
  let n := rstrip_slash url in
  let hashes := match content_hash with
                | Some h => if is_empty h then content_hashes d else {[h]} ∪ content_hashes d
                | None => content_hashes d end in
  match canonical with
  | Some c =>
      if is_empty c then Some (mkDedup ({[n]} ∪ scraped_urls d) (canonical_urls d) hashes)
      else match urljoin url c with
           | None => None
           | Some r =>
               Some (mkDedup ({[n]} ∪ scraped_urls d)
                 (if is_empty r then canonical_urls d else <[n := rstrip_slash r]> (canonical_urls d))
                 hashes)
           end
  | None => Some (mkDedup ({[n]} ∪ scraped_urls d) (canonical_urls d) hashes)
  end.

(** [_is_scraped]. *)
Definition is_scraped (url : string) (d : DedupManager) : bool :=
  let n := rstrip_slash url in
  bool_decide (n ∈ scraped_urls d)
  || existsb (fun '(s, c) => String.eqb c n && bool_decide (s ∈ scraped_urls d))
       (map_to_list (canonical_urls d)).

(** [check_canonical]; the outer [None] is a [ValueError]. *)
Definition check_canonical (href : option string) (current_url : string) (d : DedupManager)
    : option (option string) :=
  match href with
  | None => Some None
  | Some h =>
      match urljoin current_url h with
      | None => None
      | Some resolved =>
          if String.eqb (rstrip_slash resolved) (rstrip_slash current_url) then Some None
          else match urlparse current_url, urlparse resolved with
          | Some c, Some r =>
              if negb (String.eqb (lower (hostname c)) (lower (hostname r))) then Some None
              else if is_scraped (rstrip_slash resolved) d then Some (Some resolved) else Some None
          | _, _ => None
          end
      end
  end.

(** [compute_content_hash]. *)
Definition compute_content_hash (sha256 : string -> string) (markdown : string) : option string :=
  if is_empty markdown || is_empty (strip markdown) then None else Some (sha256 markdown).

Definition is_duplicate_content (h : string) (d : DedupManager) : bool :=
  bool_decide (h ∈ content_hashes d).

Definition is_scraped_url (url : string) (d : DedupManager) : bool :=
  bool_decide (rstrip_slash url ∈ scraped_urls d).

Definition get_canonical_for (url : string) (d : DedupManager) : option string :=
  canonical_urls d !! rstrip_slash url.

(** A marked page is recognised: its URL, and its content hash. *)
Lemma mark_scraped_recorded url c h d d' :
  mark_scraped url c h d = Some d' ->
  is_scraped_url url d' = true /\
  (forall k, h = Some k -> k <> "" -> is_duplicate_content k d' = true) /\
  (forall k, is_duplicate_content k d = true -> is_duplicate_content k d' = true).
Proof.
  unfold mark_scraped, is_scraped_url, is_duplicate_content. intros H.
  assert (Hs : rstrip_slash url ∈ scraped_urls d' /\ content_hashes d' =
    match h with Some k => if is_empty k then content_hashes d else {[k]} ∪ content_hashes d
               | None => content_hashes d end).
  { destruct c as [c|]; [destruct (is_empty c); [|destruct (urljoin url c); [|done]]|];
      injection H as <-; cbn; (split; [set_solver|done]). }
  destruct Hs as [H1 H2]. rewrite !bool_decide_eq_true, H2. split_and!; [done| |].
  - intros k -> Hk. destruct k; [done|]. cbn. rewrite bool_decide_eq_true. set_solver.
  - intros k. rewrite !bool_decide_eq_true. destruct h as [k'|]; [destruct (is_empty k')|]; set_solver.
Qed.
