(* ===== verification/CrawlCache.v ===== *)
(** * The crawl response cache ([src/agent-svc/agent/crawl_cache.py])

    [CrawlCache] over the Valkey interface.  An entry is the decoded document
    under [crawl:cache:{sha256(url)}], [Corrupt] one that does not decode; the
    digest and the clock are arguments.  [check_cache] reads the entry and then
    its age with a second [GET], between which the key may expire or be
    rewritten: it takes the two databases it reads. *)

From stdpp Require Import pretty.
From S2P Require Import Prelude Strings Json Valkey.

Record Entry := mkCached {
  ce_url : string;
  ce_data : json;
  cached_at : option usec;             (* [None]: absent or not a timestamp *)
  ttl_ms : Z
}.

Inductive stored := Decoded (e : Entry) | Corrupt.

Section Cache.
Context {DB : Type} `{!Valkey string stored DB} (sha256 : string -> string).

(** [_cache_key]. *)
Definition cache_key (url : string) : string := "crawl:cache:" +:+ sha256 url.

(** [get]. *)
Definition cache_get (url : string) (db : DB) : option Entry :=
  match vget (cache_key url) db with Some (Decoded e) => Some e | _ => None end.

(** [set]: the expiry in seconds. *)
Definition cache_ttl_seconds (ttl_ms : Z) : Z := Z.max 1 (Z.quot ttl_ms 1000).

Definition cache_set (url : string) (data : json) (ttl_ms : Z) (now : usec) (db : DB) : DB :=
  vset (cache_key url) (Decoded (mkCached url data (Some now) ttl_ms)) (EX (cache_ttl_seconds ttl_ms)) db.

(** [get_age_ms]. *)
Definition get_age_ms (url : string) (now : usec) (db : DB) : option Z :=
  e ← cache_get url db; c ← cached_at e; Some (Z.quot (now - c) 1000).

(** [delete]. *)
Definition cache_delete (url : string) (db : DB) : DB := vdel (cache_key url) db.

End Cache.

(** ** The decision *)

Record CacheEntry := mkEntry { entry_data : json; entry_age_ms : option Z }.

Record CacheDecision := mkDecision {
  use_cached : bool; cached_data : option json; cache_error : option string
}.

Definition positive (o : option Z) : bool := match o with Some n => 0 <? n | None => false end.
Definition unset (o : option Z) : bool := match o with Some n => n =? 0 | None => true end.

Definition cache_miss_message (url what : string) (min_age : option Z) : string :=
  "Cache miss for " +:+ url +:+ " — " +:+ what +:+ " (minAge=" +:+ pretty (default 0 min_age) +:+ "ms)".

(** The decision of [check_cache] on what it read; [Raise tt] is the failed
    assertion on a negative [maxAge]. *)
Definition cache_decision (url : string) (max_age min_age : option Z) (entry : option CacheEntry)
    : outcome CacheDecision unit :=
  if unset max_age && unset min_age then Ok (mkDecision false None None)
  else match entry with
  | None =>
      if positive min_age
      then Ok (mkDecision false None (Some (cache_miss_message url "no cached content available" min_age)))
      else Ok (mkDecision false None None)
  | Some e =>
      let stale := match max_age, entry_age_ms e with
                   | Some m, Some a => m <=? a
                   | _, _ => false end in
      if positive min_age then
        match entry_data e with
        | JNull => Ok (mkDecision false None (Some (cache_miss_message url "cached entry has no data" min_age)))
        | d =>
            if positive max_age && stale then Ok (mkDecision false (Some d) None)
            else Ok (mkDecision true (Some d) None)
        end
      else if negb (positive max_age) then Raise tt
      else
        let d := match entry_data e with JNull => None | d => Some d end in
        match entry_age_ms e, max_age with
        | Some a, Some m => Ok (mkDecision (a <? m) d None)
        | _, _ => Ok (mkDecision false d None)
        end
  end.

(** [check_cache]; [db] is read first, [db'] for the age. *)
Definition check_cache {DB} `{!Valkey string stored DB} (sha256 : string -> string) (url : string)
    (max_age min_age : option Z) (now : usec) (db db' : DB) : outcome CacheDecision unit :=
  cache_decision url max_age min_age
    ((fun e => mkEntry (ce_data e) (get_age_ms sha256 url now db')) <$> cache_get sha256 url db).

(** The cache decision follows its matrix.  Cached data is used only when an
    entry exists and, where [maxAge] is positive and the age known, is younger
    than [maxAge] (without [minAge] both are required); an error is reported
    exactly for a [minAge] request without usable data, and never together with
    cached data; without [maxAge] and [minAge] the cache is bypassed. *)
Theorem cache_decision_matrix url max_age min_age entry d :
  cache_decision url max_age min_age entry = Ok d ->
  (use_cached d = true -> exists e, entry = Some e /\
     (forall m, max_age = Some m -> 0 < m ->
        forall a, entry_age_ms e = Some a -> a < m) /\
     (positive min_age = false -> exists a m, entry_age_ms e = Some a /\ max_age = Some m /\ a < m)) /\
  (cache_error d <> None <-> positive min_age = true /\
     match entry with Some e => entry_data e = JNull | None => True end) /\
  (use_cached d = true -> cache_error d = None) /\
  (unset max_age = true -> unset min_age = true -> d = mkDecision false None None).
Proof.
  unfold cache_decision. destruct (unset max_age && unset min_age) eqn:Hu.
  { intros [= <-]. apply andb_true_iff in Hu as [_ Hmin]. split_and!; try done. split; [done|].
    intros [Hp _]. destruct min_age as [n|]; [|done]. cbn in *. bool_to_prop. lia. }
  assert (Hub : unset max_age = true -> unset min_age = true -> d = mkDecision false None None).
  { intros H1 H2. by rewrite H1, H2 in Hu. }
  destruct entry as [e|].
  2:{ destruct (positive min_age) eqn:Hm; intros [= <-];
      (split; [done|]; split; [|by split]); split; try done; by intros [? _]. }
  destruct (positive min_age) eqn:Hm.
  - destruct (entry_data e) eqn:Hd; try (intros [= <-]; split; [done|]; split; [|by split]; by split);
      (destruct (positive max_age) eqn:Hp;
       [destruct max_age as [m|]; [|done]; destruct (entry_age_ms e) as [a|] eqn:Ha;
        [destruct (m <=? a) eqn:Hma|]|]; intros [= <-]; cbn in *; bool_to_prop;
       (split_and!; [|split; [done|by intros [_ ?]]|done|done]);
       try done; intros _; exists e; (split; [done|]);
       (split; [|done]); intros m' Hm' Hpos a' Ha'; simplify_eq; try lia; try done;
       try (cbn in Hp; bool_to_prop; lia)).
  - destruct (positive max_age) eqn:Hp; [|done]. destruct max_age as [m|]; [|done].
    destruct (entry_age_ms e) as [a|] eqn:Ha; intros [= <-]; cbn in *; bool_to_prop.
    + split_and!; [|split; [done|by intros [? _]]|done|done].
      intros Hlt. bool_to_prop. exists e. split; [done|]. split; [|eauto].
      intros m' [= <-] _ a' Ha'. congruence.
    + split_and!; [done|split; [done|by intros [? _]]|done|done].
Qed.

Lemma cache_decision_matrix_witness :
  let e := mkEntry (JObj [("success", JBool true)]) (Some 500) in
  cache_decision "u" (Some 1000) None (Some e) = Ok (mkDecision true (Some (entry_data e)) None) /\
  exists e', Some e = Some e' /\ forall a, entry_age_ms e' = Some a -> a < 1000.
Proof.
  intros e. split; [reflexivity|].
  destruct (proj1 (cache_decision_matrix "u" (Some 1000) None (Some e) _ eq_refl) eq_refl)
    as (e' & He & H & _).
  exists e'. split; [exact He|]. apply (H 1000 eq_refl). reflexivity.
Defined.

Lemma cache_get_set {DB} `{!Valkey string stored DB} `{!ValkeyLaws string stored DB} sha256 url data ttl now
    (db : DB) :
  cache_get sha256 url (cache_set sha256 url data ttl now db) = Some (mkCached url data (Some now) ttl).
Proof. unfold cache_get, cache_set. by vk. Qed.

(** Store, then look up: a page stored at [t0] is served, unchanged, to every
    request that comes before it is [maxAge] milliseconds old and to none that
    comes later, whatever is stored or deleted meanwhile for URLs with another
    digest. *)
Theorem cache_serves_until_max_age {DB} `{!Valkey string stored DB} `{!ValkeyLaws string stored DB}
    sha256 url data ttl t0 now m (db db' : DB) :
  data <> JNull -> 0 < m -> t0 <= now ->
  vget (cache_key sha256 url) db' = vget (cache_key sha256 url) (cache_set sha256 url data ttl t0 db) ->
  (forall url2 data2 ttl2 t2, sha256 url2 <> sha256 url ->
     cache_get sha256 url (cache_set sha256 url2 data2 ttl2 t2 db') = cache_get sha256 url db' /\
     cache_get sha256 url (cache_delete sha256 url2 db') = cache_get sha256 url db') /\
  check_cache sha256 url (Some m) None now db' db'
    = Ok (mkDecision ((now - t0) ÷ 1000 <? m) (Some data) None).
Proof.
  intros Hd Hm Ht Hv. split.
  - intros url2 data2 ttl2 t2 Hne.
    assert (Hk : cache_key sha256 url2 <> cache_key sha256 url).
    { unfold cache_key. intros H. apply Hne. by eapply (inj (String.append "crawl:cache:")). }
    unfold cache_get, cache_set, cache_delete. by vk.
  - assert (Hg : cache_get sha256 url db' = Some (mkCached url data (Some t0) ttl)).
    { rewrite <- (cache_get_set sha256 url data ttl t0 db). unfold cache_get. by rewrite Hv. }
    unfold check_cache, get_age_ms. rewrite Hg. cbn [fmap option_fmap option_map mbind option_bind ce_data cached_at].
    unfold cache_decision. cbn [unset positive entry_data entry_age_ms].
    replace (m =? 0) with false by lia. replace (0 <? m) with true by lia. cbn [andb negb].
    by destruct data.
Qed.

Lemma cache_serves_until_max_age_witness :
  let h := fun u : string => u in
  let db := cache_set (DB := gmap string stored) h "u" (JStr "page") 1000 0 ∅ in
  check_cache h "u" (Some 1000) None (sec 1) db db = Ok (mkDecision false (Some (JStr "page")) None) /\
  check_cache h "u" (Some 1000) None 999999 db db = Ok (mkDecision true (Some (JStr "page")) None).
Proof.
  intros h db. split.
  - apply (cache_serves_until_max_age h "u" (JStr "page") 1000 0 (sec 1) 1000 ∅ db);
      [done|lia|unfold sec; lia|reflexivity].
  - apply (cache_serves_until_max_age h "u" (JStr "page") 1000 0 999999 1000 ∅ db);
      [done|lia|lia|reflexivity].
Defined.
