(* ===== verification/Crawler.v ===== *)
(** * The crawl engine ([src/agent-svc/agent/crawler.py])

    [CrawlEngine] as a state machine over its fields.  A scrape task moves
    through the phases between the awaits of [_scrape_url]; an [event] is one
    synchronous stretch of code: the main loop dispatches or reaps, or the
    event loop resumes one task with what it awaited.  Any order of events is
    a run, so the theorems cover every interleaving.

    [normalize_url], path filters, link discovery, dedup and barrier detection
    are the definitions of [Url], [PathFilter], [Links], [Dedup] and this file.
    The scraper's answer, fetched pages, DNS and the user-regex engine are
    inputs.  Timestamps, pacing delays and callbacks are left out. *)

From S2P Require Import Prelude Strings Url HostPolicy PathFilter Links Dedup Json Barrier Valkey CrawlCache.

(** ** Options *)

Inductive SitemapMode := sitemap_include | sitemap_skip | sitemap_only.

#[export] Instance SitemapMode_eq_dec : EqDecision SitemapMode.
Proof. solve_decision. Defined.

Record CrawlOptions := mkOptions {
  max_pages : Z;
  max_depth : Z;
  include_paths : list string;
  exclude_paths : list string;
  ignore_query_parameters : bool;
  regex_on_full_url : bool;
  verbose : bool;
  sitemap_mode : SitemapMode;
  link_options : LinkOptions;
  max_concurrency : Z;
  delay : option usec
}.

Definition MAX_CONCURRENCY_CAP : Z := 50.

(** [_resolve_concurrency]. *)
Definition resolve_concurrency (o : CrawlOptions) : Z :=
  match delay o with
  | Some d => if 0 <? d then 1 else Z.min (max_concurrency o) MAX_CONCURRENCY_CAP
  | None => Z.min (max_concurrency o) MAX_CONCURRENCY_CAP
  end.

(** ** Errors *)

Inductive ErrorType :=
| cache_miss | timeout | scrape_error | robots_blocked_error | dns_error | connection_error
| http_error | captcha_unresolved | barrier_detected | duplicate_canonical | duplicate_content.

#[export] Instance ErrorType_eq_dec : EqDecision ErrorType.
Proof. solve_decision. Defined.

Record ErrorEntry := mkError { e_url : string; e_error : string; e_type : ErrorType; e_code : string }.

Definition dns_patterns : list string :=
  ["name resolution"; "getaddrinfo"; "dns"; "no address found"; "nodename nor servname provided";
   "temporary name error"; "name or service not known"].
Definition connection_patterns : list string :=
  ["connection refused"; "connection reset"; "connection closed"; "connection aborted";
   "connect call failed"; "no route to host"; "network is unreachable"; "connection timed out"].
Definition http_patterns : list string :=
  ["http 4"; "http 5"; "status code 4"; "status code 5"; "400 bad request"; "401 unauthorized";
   "403 forbidden"; "404 not found"; "500 internal"; "502 bad gateway"; "503 service unavailable"].

Definition code_map (code : string) : option ErrorType :=
  if String.eqb code "TIMEOUT" then Some timeout
  else if String.eqb code "UPSTREAM_ERROR" then Some http_error
  else if String.eqb code "INVALID_REQUEST" then Some scrape_error
  else if String.eqb code "AUTH_ERROR" then Some http_error
  else if String.eqb code "CAPTCHA_UNRESOLVED" then Some captcha_unresolved
  else None.

(** [_classify_scrape_error]. *)
Definition classify_scrape_error (error_msg error_code : string) : ErrorType :=
  match code_map error_code with
  | Some t => t
  | None =>
      let msg := lower error_msg in
      if any_in dns_patterns msg then dns_error
      else if any_in connection_patterns msg then connection_error
      else if any_in http_patterns msg then http_error
      else if substring_of "timed out" msg || substring_of "timeout" msg then timeout
      else scrape_error
  end.

(** ** The page record *)

(** The dictionaries the page is built from are dictionaries. *)
Definition page_builds (result : json) : bool :=
  let data := jget_default result "data" (JObj []) in
  let metadata := jor (jget data "metadata") (JObj []) in
  is_obj data && is_obj metadata && is_obj (jor (jget metadata "og") (JObj []))
  && is_obj (jor (jget metadata "meta") (JObj [])).

(** Lines building [page] from a successful scrape. *)
Definition build_page (url : string) (result : json) : json :=
  let data := jget_default result "data" (JObj []) in
  let metadata := jor (jget data "metadata") (JObj []) in
  let og := jor (jget metadata "og") (JObj []) in
  let meta := jor (jget metadata "meta") (JObj []) in
  let title := jor (jget og "title") (jor (jget meta "title") (jor (jget data "title")
                 (jor (jget metadata "title") (JStr "")))) in
  let description := jor (jget og "description") (jor (jget meta "description")
                       (jor (jget metadata "description") (JStr ""))) in
  let language := jor (jget metadata "language") (jor (jget metadata "lang")
                    (jor (jget meta "language") (JStr ""))) in
  let status_code := jor (jget metadata "statusCode") (jor (jget data "status_code") (JNum 200)) in
  let content_type := jor (jget metadata "content-type") (jor (jget metadata "contentType")
                        (JStr "text/html")) in
  JObj [("url", JStr url); ("markdown", jget_default data "markdown" (JStr ""));
        ("metadata", JObj [("title", title); ("description", description); ("language", language);
                           ("sourceURL", JStr url); ("statusCode", status_code)]);
        ("title", title); ("status_code", status_code); ("content_type", content_type)].

(** [compute_content_hash] of the page's markdown; the outer [None] is the
    [AttributeError] of a markdown that is no string. *)
Definition page_hash (sha256 : string -> string) (result : json) : option (option string) :=
  match jget_default (jget_default result "data" (JObj [])) "markdown" (JStr "") with
  | JStr s => Some (compute_content_hash sha256 s)
  | j => if truthy j then None else Some None
  end.

(** ** State *)

Record Item := mkItem { i_url : string; i_depth : Z; i_sitemap : bool }.

(** Where a task of [_scrape_url] is. *)
Inductive Phase :=
| Scraping                            (* waiting for its slot, cache or scraper *)
| Fetching (result : json)            (* a page was scraped, waiting for its HTML *)
| Recorded (html : option Page)       (* the page is stored, waiting before the links *)
| Backoff                             (* sleeping before the retry *)
| Finished
| StartFailed                         (* raised StartUrlScrapeError *)
| Crashed.                            (* raised anything else *)

Record Task := mkTask { t_item : Item; t_norm : string; t_phase : Phase }.

Record StoredPage := mkStored {
  pg_url : string; pg_norm : string; pg_depth : Z; pg_doc : json;
  pg_result : json                    (* the scrape it was built from: for the theorems only *)
}.

Record Crawl := mkCrawl {
  seen : gset string;
  queue : list Item;
  pages : list StoredPage;
  errors : list ErrorEntry;
  robots_blocked : list ErrorEntry;
  filtered_out : list FilterReason;
  dedup : DedupManager;
  dedup_skipped : Z;
  retry_count : gmap string Z;
  completed : Z;                      (* the job's atomic counter *)
  pending : list Task;                (* _pending_tasks *)
  stopped : bool;                     (* run() left its loop *)
  tries : gmap string Z               (* scrapes started per URL: for the theorems only *)
}.

Section Engine.
Context (o : CrawlOptions) (re_search : string -> string -> option bool) (dns : Dns).
Context (sha256 : string -> string) (base_domain : string).

Definition norm (url : string) : option string := normalize_url (ignore_query_parameters o) url.

(** ** Seeding *)

(** [re.compile(r"/page/\d+").search(path)], on a lower-cased path. *)
Fixpoint page_number_in (s : string) : bool :=
  (starts_with "/page/" s && match sdrop 6 s with String c _ => is_digit c | EmptyString => false end)
  || match s with String _ s => page_number_in s | EmptyString => false end.

(** [_is_low_value_sitemap_url]. *)
Definition is_low_value_sitemap_url (url : string) : bool :=
  match urlparse url with
  | None => false
  | Some r =>
      let p := lower (path r) in
      any_in ["/tag/"; "/tags/"; "/categorie/"; "/categories/"; "/author/"; "/authors/"] p
      || page_number_in p || ends_with "/search" p || ends_with "/search/" p
  end.

(** The loop over the sitemap URLs: low-value and repeated URLs are skipped, the
    others go to the front of the queue.  [None]: [normalize_url] raised. *)
Fixpoint seed_sitemap (start_norm : string) (urls known : list string) (q : list Item)
    : option (list Item) :=
  match urls with
  | [] => Some q
  | u :: us =>
      if is_low_value_sitemap_url u then seed_sitemap start_norm us known q
      else match norm u with
      | None => None
      | Some n =>
          if mem n known || String.eqb n start_norm then seed_sitemap start_norm us known q
          else seed_sitemap start_norm us (n :: known) (mkItem u 0 true :: q)
      end
  end.

(** The initial queue of [run]; [sitemap_urls] is what the parser returned. *)
Definition seed_queue (start_url : string) (sitemap_urls : list string) : option (list Item) :=
  match norm start_url with
  | None => None
  | Some sn =>
      let q := [mkItem start_url 0 false] in
      if decide (sitemap_mode o = sitemap_skip) then Some q
      else
        let remaining := max_pages o - 1 in
        let urls := if 0 <? remaining then take (Z.to_nat remaining) sitemap_urls else sitemap_urls in
        seed_sitemap sn urls [] q
  end.

Definition crawl_init (q : list Item) : Crawl :=
  mkCrawl ∅ q [] [] [] [] dedup_init 0 ∅ 0 [] false ∅.

(** ** Record updates *)

Definition with_queue (s : Crawl) (sn : gset string) (q : list Item) : Crawl :=
  mkCrawl sn q (pages s) (errors s) (robots_blocked s) (filtered_out s) (dedup s) (dedup_skipped s)
    (retry_count s) (completed s) (pending s) (stopped s) (tries s).

Definition with_pending (s : Crawl) (ts : list Task) : Crawl :=
  mkCrawl (seen s) (queue s) (pages s) (errors s) (robots_blocked s) (filtered_out s) (dedup s)
    (dedup_skipped s) (retry_count s) (completed s) ts (stopped s) (tries s).

Definition with_errors (s : Crawl) (es : list ErrorEntry) : Crawl :=
  mkCrawl (seen s) (queue s) (pages s) es (robots_blocked s) (filtered_out s) (dedup s)
    (dedup_skipped s) (retry_count s) (completed s) (pending s) (stopped s) (tries s).

Definition stop (s : Crawl) : Crawl :=
  mkCrawl (seen s) (queue s) (pages s) (errors s) (robots_blocked s) (filtered_out s) (dedup s)
    (dedup_skipped s) (retry_count s) (completed s) (pending s) true (tries s).

(** Task [k] moves to another phase. *)
Definition set_phase (s : Crawl) (k : nat) (p : Phase) : Crawl :=
  with_pending s (alter (fun t => mkTask (t_item t) (t_norm t) p) k (pending s)).

(** ** Dispatch *)

(** The guard of the dispatch loop. *)
Definition can_dispatch (s : Crawl) : bool :=
  negb (stopped s)
  && match queue s with [] => false | _ => true end
  && (Z.of_nat (length (pending s)) <? resolve_concurrency o)
  && ((max_pages o <=? 0)
      || (Z.of_nat (length (pages s)) + Z.of_nat (length (pending s)) <? max_pages o)).

(** [urlparse(url)._replace(query="").geturl()]. *)
Definition filter_url (url : string) : option string :=
  if ignore_query_parameters o then
    (fun r => urlunparse (mkParse (scheme r) (netloc r) (path r) (params r) "" (fragment r)))
      <$> urlparse url
  else Some url.

(** [_create_scrape_task].  [None]: an exception left it, and with it [run]. *)
Definition create_scrape_task (s : Crawl) : option Crawl :=
  match queue s with
  | [] => Some s
  | it :: q =>
      match norm (i_url it) with
      | None => None
      | Some n =>
          let s1 := with_queue s (seen s) q in
          if bool_decide (n ∈ seen s) then Some s1
          else if max_depth o <? i_depth it then Some s1
          else
            let s2 := with_queue s ({[n]} ∪ seen s) q in
            match filter_url (i_url it) with
            | None => None
            | Some fu =>
                match match_path re_search (include_paths o) (exclude_paths o) (regex_on_full_url o) fu with
                | None => None
                | Some false =>
                    let fo := match get_filter_reason re_search (include_paths o) (exclude_paths o)
                                      (regex_on_full_url o) fu with
                              | Some r => filtered_out s ++ [r] | None => filtered_out s end in
                    Some (mkCrawl (seen s2) (queue s2) (pages s2) (errors s2) (robots_blocked s2) fo
                            (dedup s2) (dedup_skipped s2) (retry_count s2) (completed s2) (pending s2)
                            (stopped s2) (tries s2))
                | Some true =>
                    Some (mkCrawl (seen s2) (queue s2) (pages s2) (errors s2) (robots_blocked s2)
                            (filtered_out s2) (dedup s2) (dedup_skipped s2) (retry_count s2)
                            (completed s2) (pending s2 ++ [mkTask it n Scraping]) (stopped s2)
                            (<[n := default 0 (tries s2 !! n) + 1]> (tries s2)))
                end
            end
      end
  end.

(** ** One task *)

(** What the cache check and the scraper call give. *)
Inductive Scraped :=
| CacheRaised
| CacheMissError (msg : string)
| ScrapeTimeout (msg : string)
| ScrapeCancelled
| ScrapeException (msg : string)
| ScrapeResult (result : json).

(** The cache check in front of the scraper call, when the crawl has a cache and
    an age limit: [fresh] is the scraper's answer. *)
Definition scrape_answer {DB} `{!Valkey string stored DB} (url : string) (max_age min_age : option Z)
    (now : usec) (cache : option (DB * DB)) (fresh : Scraped) : Scraped :=
  match cache, max_age, min_age with
  | None, _, _ | _, None, None => fresh
  | Some (db, db'), _, _ =>
      match check_cache sha256 url max_age min_age now db db' with
      | Raise _ => CacheRaised
      | Ok d =>
          match cache_error d with
          | Some msg => CacheMissError msg
          | None =>
              if use_cached d then match cached_data d with Some r => ScrapeResult r | None => fresh end
              else fresh
          end
      end
  end.

(** The cache after a fresh scrape: a success is kept for [maxAge]. *)
Definition cache_fresh {DB} `{!Valkey string stored DB} (url : string) (max_age : option Z) (now : usec)
    (fresh : Scraped) (db : DB) : DB :=
  match fresh, max_age with
  | ScrapeResult result, Some m =>
      if (0 <? m) && truthy (jget result "success") then cache_set sha256 url result m now db else db
  | _, _ => db
  end.

Definition jstr (j : json) : string := match j with JStr s => s | _ => "" end.

(** The bounded retry shared by failures and barriers: forget the error just
    added and the URL, then sleep; after two retries give up. *)
Definition retry_or_skip (s : Crawl) (k : nat) (t : Task) : Crawl :=
  let n := t_norm t in
  let retries := default 0 (retry_count s !! n) in
  if retries <? 2 then
    let es := match last (errors s) with
              | Some e => if String.eqb (e_url e) (i_url (t_item t)) then take (length (errors s) - 1) (errors s)
                          else errors s
              | None => errors s end in
    set_phase (mkCrawl (seen s ∖ {[n]}) (queue s) (pages s) es (robots_blocked s) (filtered_out s)
                 (dedup s) (dedup_skipped s) (<[n := retries + 1]> (retry_count s)) (completed s)
                 (pending s) (stopped s) (tries s)) k Backoff
  else set_phase s k Finished.

(** A retryable page, or the user's start URL. *)
Definition retry_or_abort (s : Crawl) (k : nat) (t : Task) : Crawl :=
  if (0 <? i_depth (t_item t)) || i_sitemap (t_item t) then retry_or_skip s k t
  else set_phase s k StartFailed.

Definition add_error (s : Crawl) (e : ErrorEntry) : Crawl := with_errors s (errors s ++ [e]).

(** [not result.get("success")].  The client's [error] is a string or [None], on
    which [in] raises; [data] is read for its [error_detail]. *)
Definition on_failure (s : Crawl) (k : nat) (t : Task) (result : json) : Crawl :=
  let url := i_url (t_item t) in
  let error := jget_default result "error" (JStr "Unknown scrape error") in
  let msg := jstr error in
  let code := jstr (jget_default result "error_code" (JStr "")) in
  if match error with JStr _ => false | _ => negb (String.eqb code "ROBOTS_BLOCKED") end
  then set_phase s k Crashed
  else if String.eqb code "ROBOTS_BLOCKED" || substring_of "Blocked by politeness" msg
     || substring_of "ROBOTS_BLOCKED" msg
  then
    let e := mkError url msg robots_blocked_error "ROBOTS_BLOCKED" in
    set_phase (mkCrawl (seen s) (queue s) (pages s) (errors s ++ [e]) (robots_blocked s ++ [e])
                 (filtered_out s) (dedup s) (dedup_skipped s) (retry_count s) (completed s) (pending s)
                 (stopped s) (tries s)) k Finished
  else if negb (is_obj (jget_default result "data" (JObj []))) then set_phase s k Crashed
  else
    let e := mkError url msg (classify_scrape_error msg code)
               (if is_empty code then "SCRAPE_ERROR" else code) in
    retry_or_abort (add_error s e) k t.

(** The barrier refusal. *)
Definition on_barrier (s : Crawl) (k : nat) (t : Task) : Crawl :=
  retry_or_abort (add_error s (mkError (i_url (t_item t)) "Barrier/challenge content detected"
    barrier_detected "BARRIER_DETECTED")) k t.

(** The scrape step of [_scrape_url]. *)
Definition on_scraped (s : Crawl) (k : nat) (t : Task) (r : Scraped) : Crawl :=
  let url := i_url (t_item t) in
  match r with
  | CacheRaised => set_phase s k Crashed
  | CacheMissError m => set_phase (add_error s (mkError url m cache_miss "CACHE_MISS")) k Finished
  | ScrapeTimeout m => set_phase (add_error s (mkError url m timeout "TIMEOUT")) k Finished
  | ScrapeCancelled => set_phase s k Finished
  | ScrapeException m =>
      set_phase (add_error s (mkError url m scrape_error "SCRAPE_ERROR")) k
        (if i_depth (t_item t) =? 0 then Crashed else Finished)
  | ScrapeResult result =>
      if negb (is_obj result) then set_phase s k Crashed
      else if negb (truthy (jget result "success")) then on_failure s k t result
      else match is_barrier_flagged result with
      | None => set_phase s k Crashed
      | Some true =>
          match block_detected result with
          | None => set_phase s k Crashed
          | Some _ => on_barrier s k t
          end
      | Some false => set_phase s k (if page_builds result then Fetching result else Crashed)
      end
  end.

(** What [_get_html] returned: the page's links and its canonical tag. *)
Record Html := mkHtml { h_page : Page; h_canonical : option string }.

Definition skip_duplicate (s : Crawl) (k : nat) (e : ErrorEntry) : Crawl :=
  set_phase (mkCrawl (seen s) (queue s) (pages s) (errors s ++ [e]) (robots_blocked s) (filtered_out s)
    (dedup s) (dedup_skipped s + 1) (retry_count s) (completed s) (pending s) (stopped s) (tries s))
    k Finished.

(** The dedup step: canonical tag, content hash, then record the page. *)
Definition on_html (s : Crawl) (k : nat) (t : Task) (result : json) (html : option Html) : Crawl :=
  let url := i_url (t_item t) in
  let canonical := match html with
                   | Some h => check_canonical (h_canonical h) url (dedup s)
                   | None => Some None end in
  match canonical with
  | None => set_phase s k Crashed
  | Some (Some c) =>
      skip_duplicate s k (mkError url ("Duplicate canonical URL: " +:+ c) duplicate_canonical
        "DUPLICATE_CANONICAL")
  | Some None =>
      match page_hash sha256 result with
      | None => set_phase s k Crashed
      | Some hash =>
      if match hash with Some h => is_duplicate_content h (dedup s) | None => false end then
        skip_duplicate s k (mkError url "Duplicate content (identical markdown hash)" duplicate_content
          "DUPLICATE_CONTENT")
      else match mark_scraped url None hash (dedup s) with
      | None => set_phase s k Crashed
      | Some d =>
          set_phase (mkCrawl (seen s) (queue s)
            (pages s ++ [mkStored url (t_norm t) (i_depth (t_item t)) (build_page url result) result])
            (errors s) (robots_blocked s) (filtered_out s) d (dedup_skipped s) (retry_count s)
            (completed s + 1) (pending s) (stopped s) (tries s)) k (Recorded (h_page <$> html))
      end
      end
  end.

(** [for child_url in child_links]: the URLs not seen are enqueued one level
    deeper; [false]: [normalize_url] raised and the rest is lost. *)
Fixpoint enqueue_children (sn : gset string) (depth : Z) (q : list Item) (links : list string)
    : list Item * bool :=
  match links with
  | [] => (q, true)
  | u :: us =>
      match norm u with
      | None => (q, false)
      | Some n =>
          enqueue_children sn depth (if bool_decide (n ∈ sn) then q else q ++ [mkItem u (depth + 1) false]) us
      end
  end.

(** The link step; [again] is the HTML of a second fetch when the first failed. *)
Definition on_children (s : Crawl) (k : nat) (t : Task) (html again : option Page) : Crawl :=
  let depth := i_depth (t_item t) in
  if (depth <? max_depth o) && negb (bool_decide (sitemap_mode o = sitemap_only)) then
    match (match html with Some p => Some p | None => again end) with
    | None => set_phase s k Finished
    | Some p =>
        match child_links (link_options o) dns base_domain (i_url (t_item t)) p with
        | None => set_phase s k Crashed
        | Some links =>
            let '(q, ok) := enqueue_children (seen s) depth (queue s) links in
            set_phase (with_queue s (seen s) q) k (if ok then Finished else Crashed)
        end
    end
  else set_phase s k Finished.

(** The end of the backoff sleep. *)
Definition on_backoff (s : Crawl) (k : nat) (t : Task) : Crawl :=
  set_phase (with_queue s (seen s) (t_item t :: queue s)) k Finished.

(** ** Runs *)

Inductive event :=
| Dispatch
| EScraped (k : nat) (r : Scraped)
| EHtml (k : nat) (html : option Html)
| EChildren (k : nat) (again : option Page)
| EBackoff (k : nat)
| ECancel (k : nat)                   (* the task is cancelled at an await *)
| Reap (k : nat)
| Stop.                               (* cancellation, timeout or max_pages *)

Definition is_done (p : Phase) : bool :=
  match p with Finished | StartFailed | Crashed => true | _ => false end.

Definition crawl_step (s : Crawl) (e : event) : Crawl :=
  match e with
  | Dispatch => if can_dispatch s then default (stop s) (create_scrape_task s) else s
  | EScraped k r =>
      match pending s !! k with
      | Some t => match t_phase t with Scraping => on_scraped s k t r | _ => s end
      | None => s
      end
  | EHtml k html =>
      match pending s !! k with
      | Some t => match t_phase t with Fetching result => on_html s k t result html | _ => s end
      | None => s
      end
  | EChildren k again =>
      match pending s !! k with
      | Some t => match t_phase t with Recorded html => on_children s k t html again | _ => s end
      | None => s
      end
  | EBackoff k =>
      match pending s !! k with
      | Some t => match t_phase t with Backoff => on_backoff s k t | _ => s end
      | None => s
      end
  | ECancel k =>
      match pending s !! k with
      | Some t => if is_done (t_phase t) then s else set_phase s k Finished
      | None => s
      end
  | Reap k =>
      match pending s !! k with
      | Some t =>
          if is_done (t_phase t) then
            let s1 := with_pending s (delete k (pending s)) in
            match t_phase t with StartFailed => stop s1 | _ => s1 end
          else s
      | None => s
      end
  | Stop => stop s
  end.

Definition crawl_run (s : Crawl) (es : list event) : Crawl := run_ops crawl_step s es.

(** [CrawlResult]'s totals. *)
Definition result_total (s : Crawl) : Z :=
  Z.of_nat (length (pages s)) + Z.of_nat (length (queue s)) + dedup_skipped s.

(** [_outcome_summary]'s reason for an empty crawl. *)
Definition outcome_reason (s : Crawl) : option string :=
  match pages s with
  | _ :: _ => None
  | [] =>
      let count ty := length (filter (fun e => e_type e = ty) (errors s)) in
      Some (if Nat.ltb 0 (length (filtered_out s)) then "all_urls_filtered"
            else if Nat.ltb 0 (length (robots_blocked s)) then "all_urls_robots_blocked"
            else if Nat.ltb 0 (count barrier_detected) then "all_pages_barrier_rejected"
            else if Nat.ltb 0 (count duplicate_canonical + count duplicate_content) then "all_pages_duplicates"
            else if Nat.ltb 0 (count timeout + count dns_error + count http_error + count scrape_error
                               + count cache_miss) then "all_fetches_failed"
            else "no_pages_discovered")
  end.

End Engine.

(** ** The invariant *)

(** The task may still store a page. *)
Definition active (p : Phase) : bool :=
  match p with Scraping | Fetching _ => true | _ => false end.

Definition active_norms (ts : list Task) : list string :=
  omap (fun t => if active (t_phase t) then Some (t_norm t) else None) ts.

(** The URLs that are stored or being scraped. *)
Definition claims (s : Crawl) : list string := (pg_norm <$> pages s) ++ active_norms (pending s).

Section Invariant.
Context (o : CrawlOptions) (re_search : string -> string -> option bool) (dns : Dns).
Context (sha256 : string -> string) (base_domain : string).

(** The URL passes the crawl's path filters. *)
Definition passes_filter (url : string) : Prop :=
  exists fu, filter_url o url = Some fu /\
    match_path re_search (include_paths o) (exclude_paths o) (regex_on_full_url o) fu = Some true.

Definition task_ok (t : Task) : Prop :=
  norm o (i_url (t_item t)) = Some (t_norm t) /\ i_depth (t_item t) <= max_depth o /\
  passes_filter (i_url (t_item t)).

Definition page_ok (p : StoredPage) : Prop :=
  norm o (pg_url p) = Some (pg_norm p) /\ pg_depth p <= max_depth o /\ passes_filter (pg_url p).

Record crawl_inv (s : Crawl) : Prop := {
  ci_nodup : NoDup (claims s);
  ci_seen : forall n, n ∈ claims s -> n ∈ seen s;
  ci_cap : 0 < max_pages o -> Z.of_nat (length (claims s)) <= max_pages o;
  ci_conc : Z.of_nat (length (pending s)) <= Z.max 0 (resolve_concurrency o);
  ci_tasks : Forall task_ok (pending s);
  ci_pages : Forall page_ok (pages s);
  ci_tries : forall n, default 0 (tries s !! n)
               <= default 0 (retry_count s !! n) + (if bool_decide (n ∈ seen s) then 1 else 0);
  ci_retry : forall n, 0 <= default 0 (retry_count s !! n) <= 2;
  ci_completed : completed s = Z.of_nat (length (pages s))
}.

Lemma active_norms_app l1 l2 : active_norms (l1 ++ l2) = active_norms l1 ++ active_norms l2.
Proof. apply omap_app. Qed.

Lemma active_norms_cons t l :
  active_norms (t :: l) = (if active (t_phase t) then [t_norm t] else []) ++ active_norms l.
Proof. unfold active_norms. cbn. by destruct (active (t_phase t)). Qed.

Lemma active_norms_length ts : (length (active_norms ts) <= length ts)%nat.
Proof.
  induction ts as [|t ts IH]; [done|]. rewrite active_norms_cons, length_app.
  destruct (active _); cbn; lia.
Qed.

(** The pending list around task [k]. *)
Lemma pending_split (ts : list Task) k t :
  ts !! k = Some t -> exists l1 l2, ts = l1 ++ t :: l2 /\
    (forall f, alter f k ts = l1 ++ f t :: l2) /\ delete k ts = l1 ++ l2.
Proof.
  revert k; induction ts as [|x ts IH]; intros [|k] Hk; cbn in Hk; try done.
  - injection Hk as ->. by exists [], ts.
  - destruct (IH k Hk) as (l1 & l2 & -> & Ha & Hd). exists (x :: l1), l2.
    split_and!; [done| |].
    + intros f. cbn. f_equal. apply Ha.
    + cbn. f_equal. apply Hd.
Qed.

Lemma crawl_inv_init q : crawl_inv (crawl_init q).
Proof.
  split; cbn; try done; try lia; try constructor. all: intros n ?%not_elem_of_nil; done.
Qed.

(** A step of one task that stores no page: its phase changes, and possibly its
    URL is forgotten for a retry. *)
Lemma inv_task_step s s' l1 t t' l2 :
  crawl_inv s -> pending s = l1 ++ t :: l2 -> pending s' = l1 ++ t' :: l2 ->
  t_item t' = t_item t -> t_norm t' = t_norm t -> pages s' = pages s ->
  (active (t_phase t') = true -> active (t_phase t) = true) ->
  tries s' = tries s -> completed s' = completed s ->
  (seen s' = seen s /\ retry_count s' = retry_count s \/
   active (t_phase t) = true /\ active (t_phase t') = false /\
   seen s' = seen s ∖ {[t_norm t]} /\ default 0 (retry_count s !! t_norm t) < 2 /\
   retry_count s' = <[t_norm t := default 0 (retry_count s !! t_norm t) + 1]> (retry_count s)) ->
  crawl_inv s'.
Proof.
  intros [Hnd Hsn Hcap Hconc Ht Hp Htr Hre Hcp] Hpe Hpe' Hit Hn Hpg Hact Htries Hcomp Hcase.
  assert (Hcl : claims s = (pg_norm <$> pages s) ++ active_norms l1
    ++ (if active (t_phase t) then [t_norm t] else []) ++ active_norms l2).
  { unfold claims. by rewrite Hpe, active_norms_app, active_norms_cons. }
  assert (Hcl' : claims s' = (pg_norm <$> pages s) ++ active_norms l1
    ++ (if active (t_phase t') then [t_norm t] else []) ++ active_norms l2).
  { unfold claims. by rewrite Hpe', Hpg, active_norms_app, active_norms_cons, Hn. }
  assert (Hsub : claims s' `sublist_of` claims s).
  { rewrite Hcl, Hcl'. apply sublist_app; [done|]. apply sublist_app; [done|].
    destruct (active (t_phase t')); [rewrite Hact by done; done|].
    destruct (active (t_phase t)); [by apply sublist_inserts_l|done]. }
  assert (Hlen : (length (pending s') = length (pending s))%nat) by (rewrite Hpe, Hpe', !length_app; done).
  split.
  - by eapply sublist_NoDup.
  - intros n Hin. assert (Hin' : n ∈ claims s) by by eapply elem_of_sublist.
    destruct Hcase as [[-> _]|(Ha & Ha' & -> & _)]; [by apply Hsn|].
    apply elem_of_difference. split; [by apply Hsn|]. rewrite elem_of_singleton. intros ->.
    rewrite Hcl, Ha in Hnd. rewrite Hcl', Ha' in Hin. cbn in Hnd, Hin.
    rewrite app_assoc in Hnd, Hin. apply NoDup_app in Hnd as (_ & Hd & Hnd2).
    apply NoDup_cons in Hnd2 as [Hnd2 _]. apply elem_of_app in Hin as [Hin|Hin]; [|done].
    apply (Hd _ Hin). by left.
  - intros Hm. specialize (Hcap Hm). apply sublist_length in Hsub. lia.
  - by rewrite Hlen.
  - rewrite Hpe in Ht. rewrite Hpe'. apply Forall_app in Ht as [Ht1 Ht2]. apply Forall_cons in Ht2 as [Ht2 Ht3].
    apply Forall_app. split; [done|]. constructor; [|done]. unfold task_ok in *. by rewrite Hit, Hn.
  - by rewrite Hpg.
  - intros n. rewrite Htries. specialize (Htr n).
    destruct Hcase as [[-> ->]|(Ha & Ha' & -> & Hlt & ->)]; [done|].
    destruct (decide (n = t_norm t)) as [->|Hne].
    + rewrite lookup_insert_eq. cbn. rewrite (bool_decide_eq_false_2 (_ ∈ _ ∖ _)) by set_solver.
      case_bool_decide; lia.
    + rewrite lookup_insert_ne by done. replace (bool_decide (n ∈ seen s ∖ {[t_norm t]}))
        with (bool_decide (n ∈ seen s)); [done|]. apply bool_decide_ext. set_solver.
  - intros n. specialize (Hre n). destruct Hcase as [[_ ->]|(_ & _ & _ & Hlt & ->)]; [done|].
    destruct (decide (n = t_norm t)) as [->|Hne]; [rewrite lookup_insert_eq; cbn; lia|].
    by rewrite lookup_insert_ne.
  - by rewrite Hcomp, Hpg, Hcp.
Qed.

(** The fields the invariant reads agree. *)
Definition same_core (s s0 : Crawl) : Prop :=
  pages s0 = pages s /\ seen s0 = seen s /\ retry_count s0 = retry_count s /\ tries s0 = tries s /\
  completed s0 = completed s /\ pending s0 = pending s.

Lemma inv_set_phase s s0 k t p :
  crawl_inv s -> same_core s s0 -> pending s !! k = Some t ->
  (active p = true -> active (t_phase t) = true) -> crawl_inv (set_phase s0 k p).
Proof.
  intros Hi (H1 & H2 & H3 & H4 & H5 & H6) Hk Ha.
  destruct (pending_split _ _ _ Hk) as (l1 & l2 & Hpe & Hal & _).
  eapply (inv_task_step s _ l1 t (mkTask (t_item t) (t_norm t) p) l2); try done.
  - cbn. rewrite H6. apply Hal.
  - by left.
Qed.

Lemma inv_retry_or_skip s s0 k t :
  crawl_inv s -> same_core s s0 -> pending s !! k = Some t -> t_phase t = Scraping ->
  crawl_inv (retry_or_skip s0 k t).
Proof.
  intros Hi Hs Hk Hph. unfold retry_or_skip. destruct (_ <? 2) eqn:E.
  - destruct Hs as (H1 & H2 & H3 & H4 & H5 & H6). bool_to_prop. rewrite H3 in *.
    destruct (pending_split _ _ _ Hk) as (l1 & l2 & Hpe & Hal & _).
    eapply (inv_task_step s _ l1 t (mkTask (t_item t) (t_norm t) Backoff) l2); try done.
    + cbn. rewrite H6. apply Hal.
    + right. cbn. rewrite Hph, H2. by split_and!.
  - eapply inv_set_phase; try done.
Qed.

Lemma inv_retry_or_abort s s0 k t :
  crawl_inv s -> same_core s s0 -> pending s !! k = Some t -> t_phase t = Scraping ->
  crawl_inv (retry_or_abort s0 k t).
Proof.
  intros. unfold retry_or_abort. destruct (_ || _); [by eapply inv_retry_or_skip|by eapply inv_set_phase].
Qed.

Lemma same_core_refl s : same_core s s.
Proof. by split_and!. Qed.

Lemma same_core_error s e : same_core s (add_error s e).
Proof. by split_and!. Qed.

Lemma inv_on_scraped s k t r :
  crawl_inv s -> pending s !! k = Some t -> t_phase t = Scraping ->
  crawl_inv (on_scraped s k t r).
Proof.
  intros Hi Hk Hph. pose proof (same_core_refl s). unfold on_scraped, on_failure, on_barrier.
  destruct r as [|m|m| |m|result]; [by eapply inv_set_phase|..]; try (eapply inv_set_phase; [done|apply same_core_error|done|done]).
  - by eapply inv_set_phase.
  - eapply inv_set_phase; [done|apply same_core_error|done|by destruct (_ =? _)].
  - destruct (negb _); [by eapply inv_set_phase|]. destruct (negb _).
    + destruct (match jget_default result "error" _ with JStr _ => _ | _ => _ end); [by eapply inv_set_phase|].
      destruct (_ || _); [by eapply (inv_set_phase s); [|by split_and!| |]|].
      destruct (negb _); [by eapply inv_set_phase|].
      eapply inv_retry_or_abort; [done|apply same_core_error|done|done].
    + destruct (is_barrier_flagged result) as [[]|]; [destruct (block_detected result)| |]; try by eapply inv_set_phase.
      * eapply inv_retry_or_abort; [done|apply same_core_error|done|done].
      * eapply inv_set_phase; [done|done|done|by rewrite Hph].
Qed.

(** Storing the page of an active task. *)
Lemma inv_record s k t html doc result dm :
  crawl_inv s -> pending s !! k = Some t -> active (t_phase t) = true ->
  crawl_inv (set_phase (mkCrawl (seen s) (queue s)
    (pages s ++ [mkStored (i_url (t_item t)) (t_norm t) (i_depth (t_item t)) doc result])
    (errors s) (robots_blocked s) (filtered_out s) dm (dedup_skipped s) (retry_count s)
    (completed s + 1) (pending s) (stopped s) (tries s)) k (Recorded html)).
Proof.
  intros Hi Hk Ha. destruct (pending_split _ _ _ Hk) as (l1 & l2 & Hpe & Hal & _).
  destruct Hi as [Hnd Hsn Hcap Hconc Ht Hp Htr Hre Hcp]. cbn in *.
  set (s' := set_phase _ _ _).
  assert (Hpe' : pending s' = l1 ++ mkTask (t_item t) (t_norm t) (Recorded html) :: l2) by apply Hal.
  assert (Hperm : claims s' ≡ₚ claims s).
  { unfold claims. rewrite Hpe', Hpe, !active_norms_app, !active_norms_cons, Ha.
    cbn [pages s' set_phase with_pending t_phase active t_norm]. rewrite fmap_app. cbn [fmap list_fmap pg_norm].
    rewrite <- !app_assoc. apply Permutation_app; [done|]. cbn.
    apply Permutation_middle. }
  assert (Hok : task_ok t) by (rewrite Hpe in Ht; by apply Forall_app in Ht as [_ [? ?]%Forall_cons]).
  split.
  - by rewrite Hperm.
  - intros n. rewrite Hperm. apply Hsn.
  - rewrite Hperm. done.
  - rewrite Hpe'. rewrite Hpe in Hconc. rewrite length_app in *. done.
  - rewrite Hpe'. rewrite Hpe in Ht.
    apply Forall_app in Ht as [Ht1 [Ht2 Ht3]%Forall_cons]. apply Forall_app. split; [done|]. by constructor.
  - cbn. apply Forall_app. split; [done|]. apply Forall_singleton. exact Hok.
  - done.
  - done.
  - cbn. rewrite length_app. cbn. lia.
Qed.

Lemma inv_on_html s k t result html :
  crawl_inv s -> pending s !! k = Some t -> t_phase t = Fetching result ->
  crawl_inv (on_html sha256 s k t result html).
Proof.
  intros Hi Hk Hph. unfold on_html, skip_duplicate.
  destruct (match html with Some h => _ | None => _ end) as [[c|]|].
  - by eapply (inv_set_phase s); [|by split_and!| |].
  - destruct (page_hash sha256 result) as [hash|]; [|by eapply (inv_set_phase s); [|apply same_core_refl| |]].
    destruct (match hash with Some h => _ | None => false end).
    + by eapply (inv_set_phase s); [|by split_and!| |].
    + destruct (mark_scraped _ _ _ _) as [d|].
      * apply inv_record; [done|done|by rewrite Hph].
      * by eapply (inv_set_phase s); [|apply same_core_refl| |].
  - by eapply (inv_set_phase s); [|apply same_core_refl| |].
Qed.

Lemma inv_on_children s k t html again :
  crawl_inv s -> pending s !! k = Some t ->
  crawl_inv (on_children o dns base_domain s k t html again).
Proof.
  intros Hi Hk. unfold on_children. pose proof (same_core_refl s).
  destruct (_ && _); [|by eapply inv_set_phase].
  destruct (match html with Some p => _ | None => again end) as [p|]; [|by eapply inv_set_phase].
  destruct (child_links _ _ _ _ _) as [links|]; [|by eapply inv_set_phase].
  destruct (enqueue_children _ _ _ _ _) as [q ok].
  eapply inv_set_phase; [done|by split_and!|done|by destruct ok].
Qed.

Lemma filter_url_passes url fu :
  filter_url o url = Some fu ->
  match_path re_search (include_paths o) (exclude_paths o) (regex_on_full_url o) fu = Some true ->
  passes_filter url.
Proof. intros. by exists fu. Qed.

Lemma inv_dispatch s s' :
  crawl_inv s -> can_dispatch o s = true -> create_scrape_task o re_search s = Some s' -> crawl_inv s'.
Proof.
  intros [Hnd Hsn Hcap Hconc Ht Hp Htr Hre Hcp] Hg Hc. unfold create_scrape_task in Hc.
  destruct (queue s) as [|it q]; [by injection Hc as <-|].
  destruct (norm o (i_url it)) as [n|] eqn:En; [|done].
  destruct (decide (n ∈ seen s)) as [Hin|Hni].
  { rewrite bool_decide_eq_true_2 in Hc by done. injection Hc as <-. by split. }
  rewrite bool_decide_eq_false_2 in Hc by done.
  destruct (max_depth o <? i_depth it) eqn:Ed; [injection Hc as <-; by split|]. bool_to_prop.
  destruct (filter_url o (i_url it)) as [fu|] eqn:Ef; [|done].
  assert (Htr' : forall m, default 0 (tries s !! m) <= default 0 (retry_count s !! m)
            + (if bool_decide (m ∈ {[n]} ∪ seen s) then 1 else 0)).
  { intros m. specialize (Htr m). destruct (decide (m ∈ seen s)).
    - rewrite (bool_decide_eq_true_2 (m ∈ seen s)) in Htr by done.
      rewrite bool_decide_eq_true_2 by set_solver. done.
    - rewrite (bool_decide_eq_false_2 (m ∈ seen s)) in Htr by done. case_bool_decide; lia. }
  destruct (match_path _ _ _ _ _) as [[]|] eqn:Em; [| |done]; injection Hc as <-.
  2:{ split; cbn; try done. intros m Hm. apply elem_of_union. right. by apply Hsn. }
  assert (Hcl : NoDup (claims s ++ [n])).
  { apply NoDup_app. split_and!; [done| |apply NoDup_singleton].
    intros m Hm ->%list_elem_of_singleton. by apply Hni, Hsn. }
  unfold can_dispatch in Hg. bool_to_prop.
  split; cbn.
  - unfold claims. cbn. rewrite active_norms_app. cbn. rewrite app_assoc. exact Hcl.
  - intros m. unfold claims. cbn. rewrite active_norms_app, app_assoc, elem_of_app. cbn.
    intros [Hm| ->%list_elem_of_singleton]; [apply elem_of_union; right; by apply Hsn|set_solver].
  - intros Hm. unfold claims in *. cbn. rewrite active_norms_app, app_assoc, length_app. cbn.
    match goal with H : (_ || _) = true |- _ => apply orb_true_iff in H as [H|H]; bool_to_prop; [lia|] end.
    rewrite length_app, length_fmap. pose proof (active_norms_length (pending s)). lia.
  - rewrite length_app. cbn. lia.
  - apply Forall_app. split; [done|]. apply Forall_singleton. split_and!; [done|done|]. by eapply filter_url_passes.
  - done.
  - intros m. specialize (Htr m). specialize (Htr' m). destruct (decide (m = n)) as [->|Hne].
    + rewrite lookup_insert_eq. cbn. rewrite (bool_decide_eq_false_2 (n ∈ seen s)) in Htr by done.
      rewrite bool_decide_eq_true_2 by set_solver. lia.
    + by rewrite lookup_insert_ne.
  - done.
  - done.
Qed.

Lemma inv_reap s k t :
  crawl_inv s -> pending s !! k = Some t -> is_done (t_phase t) = true ->
  crawl_inv (with_pending s (delete k (pending s))).
Proof.
  intros [Hnd Hsn Hcap Hconc Ht Hp Htr Hre Hcp] Hk Hd.
  destruct (pending_split _ _ _ Hk) as (l1 & l2 & Hpe & _ & Hdel).
  assert (Hcl : claims (with_pending s (delete k (pending s))) = claims s).
  { unfold claims. cbn. rewrite Hdel, Hpe, !active_norms_app, active_norms_cons.
    by destruct (t_phase t). }
  split; rewrite ?Hcl; cbn; try done.
  - rewrite Hdel. rewrite Hpe in Hconc. rewrite length_app in *. cbn in *. lia.
  - rewrite Hdel. rewrite Hpe in Ht. apply Forall_app in Ht as [Ht1 [_ Ht2]%Forall_cons]. by apply Forall_app.
Qed.

Lemma inv_stop s : crawl_inv s -> crawl_inv (stop s).
Proof. intros []. by split. Qed.

Lemma crawl_inv_step s e : crawl_inv s -> crawl_inv (crawl_step o re_search dns sha256 base_domain s e).
Proof.
  intros Hi. destruct e as [|k r|k html|k again|k|k|k|]; cbn [crawl_step].
  - destruct (can_dispatch o s) eqn:Eg; [|done].
    destruct (create_scrape_task o re_search s) as [s'|] eqn:Ec; cbn; [by eapply inv_dispatch|by apply inv_stop].
  - destruct (pending s !! k) as [t|] eqn:Ek; [|done]. destruct (t_phase t) eqn:Ep; try done. by apply inv_on_scraped.
  - destruct (pending s !! k) as [t|] eqn:Ek; [|done]. destruct (t_phase t) eqn:Ep; try done. by apply inv_on_html.
  - destruct (pending s !! k) as [t|] eqn:Ek; [|done]. destruct (t_phase t) eqn:Ep; try done. by apply inv_on_children.
  - destruct (pending s !! k) as [t|] eqn:Ek; [|done]. destruct (t_phase t) eqn:Ep; try done.
    by eapply (inv_set_phase s); [|by split_and!| |].
  - destruct (pending s !! k) as [t|] eqn:Ek; [|done]. destruct (is_done _); [done|].
    by eapply (inv_set_phase s); [|apply same_core_refl| |].
  - destruct (pending s !! k) as [t|] eqn:Ek; [|done]. destruct (is_done (t_phase t)) eqn:Ed; [|done].
    pose proof (inv_reap _ _ _ Hi Ek Ed). destruct (t_phase t); try done. by apply inv_stop.
  - by apply inv_stop.
Qed.

Lemma crawl_inv_run q es : crawl_inv (crawl_run o re_search dns sha256 base_domain (crawl_init q) es).
Proof. unfold crawl_run. apply run_ops_invariant; [apply crawl_inv_init|apply crawl_inv_step]. Qed.

(** ** Theorems *)

(** C1. The limits of a crawl hold in every interleaving of its tasks, from any
    seed queue: never more than [max_pages] pages (when positive), no page
    deeper than [max_depth], never more tasks than the effective concurrency,
    and the job's progress counter is exactly the number of pages stored. *)
Theorem crawl_within_limits q es :
  let s := crawl_run o re_search dns sha256 base_domain (crawl_init q) es in
  (0 < max_pages o -> Z.of_nat (length (pages s)) <= max_pages o) /\
  Forall (fun p => pg_depth p <= max_depth o) (pages s) /\
  Z.of_nat (length (pending s)) <= Z.max 0 (resolve_concurrency o) /\
  resolve_concurrency o <= MAX_CONCURRENCY_CAP /\
  completed s = Z.of_nat (length (pages s)).
Proof.
  intros s. destruct (crawl_inv_run q es) as [_ _ Hcap Hconc _ Hp _ _ Hcp]. fold s in Hcap, Hconc, Hp, Hcp.
  split_and!; [| |done| |done].
  - intros Hm. specialize (Hcap Hm). unfold claims in Hcap. rewrite length_app, length_fmap in Hcap. lia.
  - eapply Forall_impl; [exact Hp|]. by intros p (_ & ? & _).
  - unfold resolve_concurrency, MAX_CONCURRENCY_CAP. destruct (delay o); [destruct (0 <? _)|]; lia.
Qed.

(** C2. No page twice: in every interleaving, retries and rediscoveries included,
    the stored pages have pairwise different normalised URLs, and each stored
    URL passed the crawl's path filters. *)
Theorem crawl_pages_distinct q es :
  let s := crawl_run o re_search dns sha256 base_domain (crawl_init q) es in
  NoDup (pg_norm <$> pages s) /\
  Forall (fun p => norm o (pg_url p) = Some (pg_norm p) /\ passes_filter (pg_url p)) (pages s).
Proof.
  intros s. destruct (crawl_inv_run q es) as [Hnd _ _ _ _ Hp _ _ _]. fold s in Hnd, Hp.
  split; [by apply NoDup_app in Hnd as (? & _)|].
  eapply Forall_impl; [exact Hp|]. by intros p (? & _ & ?).
Qed.

(** Bounded work: no URL is ever scraped more than three times, however
    often it fails, shows a barrier, or is found again while it waits for a
    retry. *)
Theorem crawl_tries_bounded q es n :
  let s := crawl_run o re_search dns sha256 base_domain (crawl_init q) es in
  default 0 (tries s !! n) <= 3.
Proof.
  intros s. destruct (crawl_inv_run q es) as [_ _ _ _ _ _ Htr Hre _]. fold s in Htr, Hre.
  specialize (Htr n). specialize (Hre n). case_bool_decide; lia.
Qed.

(** *** Scope *)

(** A seed, or a link on the crawl's domain or one the options allow. *)
Definition in_scope (url : string) (depth : Z) : Prop :=
  depth <= 0 \/ exists h, host_of url = Some h /\
    link_allowed base_domain (allow_subdomains (link_options o))
      (allow_external_links (link_options o)) h = true.

Definition item_in_scope (it : Item) : Prop := in_scope (i_url it) (i_depth it).

Definition scope_inv (s : Crawl) : Prop :=
  Forall item_in_scope (queue s) /\ Forall (fun t => item_in_scope (t_item t)) (pending s) /\
  Forall (fun p => in_scope (pg_url p) (pg_depth p)) (pages s).

Lemma alter_out_of_range (f : Task -> Task) (l : list Task) : forall k : nat, l !! k = None -> alter f k l = l.
Proof. induction l as [|x l IH]; intros [|k] Hk; cbn in *; try done. f_equal. by apply IH. Qed.

Lemma scope_set_phase s s0 k p :
  scope_inv s -> queue s0 = queue s -> pending s0 = pending s -> pages s0 = pages s ->
  scope_inv (set_phase s0 k p).
Proof.
  intros (Hq & Hp & Hg) H1 H2 H3. split_and!; cbn; [by rewrite H1| |by rewrite H3]. rewrite H2.
  destruct (pending s !! k) as [t|] eqn:E.
  - destruct (pending_split _ _ _ E) as (l1 & l2 & Hpe & Ha & _). rewrite Ha. rewrite Hpe in Hp.
    apply Forall_app in Hp as [Hp1 [Hp2 Hp3]%Forall_cons]. apply Forall_app. split; [done|]. by constructor.
  - by rewrite alter_out_of_range.
Qed.

Lemma scope_children sn depth links : forall q q' ok,
  enqueue_children o sn depth q links = (q', ok) -> Forall item_in_scope q ->
  (forall u, u ∈ links -> item_in_scope (mkItem u (depth + 1) false)) -> Forall item_in_scope q'.
Proof.
  induction links as [|u us IH]; intros q q' ok E Hq Hl; cbn in E; [by injection E as <- <-|].
  destruct (norm o u) as [n|]; [|by injection E as <- <-].
  eapply IH; [exact E| |intros v Hv; apply Hl; by right].
  destruct (bool_decide (n ∈ sn)); [done|]. apply Forall_app. split; [done|]. apply Forall_singleton.
  apply Hl. by left.
Qed.

Lemma scope_on_children s k t html again :
  scope_inv s -> pending s !! k = Some t -> (exists r, urlparse (i_url (t_item t)) = Some r) ->
  scope_inv (on_children o dns base_domain s k t html again).
Proof.
  intros Hi Hk [r Hr]. unfold on_children. destruct (_ && _); [|by eapply scope_set_phase].
  destruct (match html with Some p => _ | None => again end) as [p|]; [|by eapply scope_set_phase].
  destruct (child_links _ _ _ _ _) as [links|] eqn:El; [|by eapply scope_set_phase].
  destruct (enqueue_children _ _ _ _ _) as [q ok] eqn:Eq.
  eapply (scope_set_phase (with_queue s (seen s) q)); try done.
  destruct Hi as (Hq & Hp & Hg). split_and!; cbn; [|done|done].
  eapply scope_children; [exact Eq|done|]. intros u Hu. right. cbn [i_url].
  assert (Hb : host_of (i_url (t_item t)) = Some (lower (hostname r))) by (unfold host_of; by rewrite Hr).
  destruct (child_links_scope _ _ _ _ _ _ _ Hb El u Hu) as (_ & h & Hh & Ha & _). eauto.
Qed.

Lemma norm_parses url n : norm o url = Some n -> exists r, urlparse url = Some r.
Proof. unfold norm, normalize_url. destruct (urlparse url) as [r|]; [eauto|done]. Qed.

Lemma scope_dispatch s s' :
  scope_inv s -> create_scrape_task o re_search s = Some s' -> scope_inv s'.
Proof.
  intros (Hq & Hp & Hg) Hc. unfold create_scrape_task in Hc.
  destruct (queue s) as [|it q] eqn:Eq; [injection Hc as <-; split_and!; by rewrite ?Eq|].
  apply Forall_cons in Hq as [Hit Hq].
  destruct (norm o (i_url it)) as [n|]; [|done].
  destruct (bool_decide (n ∈ seen s)); [injection Hc as <-; by split_and!|].
  destruct (max_depth o <? i_depth it); [injection Hc as <-; by split_and!|].
  destruct (filter_url o (i_url it)) as [fu|]; [|done].
  destruct (match_path _ _ _ _ _) as [[]|]; [| |done]; injection Hc as <-; split_and!; try done.
  cbn. apply Forall_app. split; [done|]. by apply Forall_singleton.
Qed.

Lemma scope_on_scraped s k t r : scope_inv s -> scope_inv (on_scraped s k t r).
Proof.
  intros Hi. unfold on_scraped, on_failure, on_barrier, retry_or_abort, retry_or_skip.
  destruct r; repeat (case_match; try (by eapply (scope_set_phase s)));
    by eapply (scope_set_phase s).
Qed.

Lemma scope_on_html s k t result html :
  scope_inv s -> pending s !! k = Some t -> scope_inv (on_html sha256 s k t result html).
Proof.
  intros Hi Hk. unfold on_html, skip_duplicate.
  destruct (match html with Some h => _ | None => _ end) as [[c|]|]; [by eapply (scope_set_phase s)| |by eapply (scope_set_phase s)].
  destruct (page_hash sha256 result) as [hash|]; [|by eapply (scope_set_phase s)].
  destruct (match hash with Some h => _ | None => false end); [by eapply (scope_set_phase s)|].
  destruct (mark_scraped _ _ _ _) as [d|]; [|by eapply (scope_set_phase s)].
  eapply scope_set_phase; [|done|done|done]. destruct Hi as (Hq & Hp & Hg). split_and!; cbn; try done.
  apply Forall_app. split; [done|]. apply Forall_singleton.
  exact (proj1 (Forall_lookup _ _) Hp _ _ Hk).
Qed.

Lemma scope_step s e :
  crawl_inv s -> scope_inv s -> scope_inv (crawl_step o re_search dns sha256 base_domain s e).
Proof.
  intros Hc Hi. destruct e as [|k r|k html|k again|k|k|k|]; cbn [crawl_step].
  - destruct (can_dispatch o s); [|done].
    destruct (create_scrape_task o re_search s) as [s'|] eqn:E; cbn; [by eapply scope_dispatch|done].
  - destruct (pending s !! k) as [t|]; [|done]. destruct (t_phase t); try done. by apply scope_on_scraped.
  - destruct (pending s !! k) as [t|] eqn:Ek; [|done]. destruct (t_phase t); try done. by apply scope_on_html.
  - destruct (pending s !! k) as [t|] eqn:Ek; [|done]. destruct (t_phase t); try done.
    apply scope_on_children; [done|done|].
    destruct (proj1 (Forall_lookup _ _) (ci_tasks s Hc) _ _ Ek) as (Hn & _). by eapply norm_parses.
  - destruct (pending s !! k) as [t|] eqn:Ek; [|done]. destruct (t_phase t); try done.
    unfold on_backoff. eapply scope_set_phase; [|done|done|done].
    destruct Hi as (Hq & Hp & Hg). split_and!; cbn; try done. constructor; [|done].
    exact (proj1 (Forall_lookup _ _) Hp _ _ Ek).
  - destruct (pending s !! k) as [t|]; [|done]. destruct (is_done _); [done|]. by eapply (scope_set_phase s).
  - destruct (pending s !! k) as [t|] eqn:Ek; [|done]. destruct (is_done _); [|done].
    assert (Hd : scope_inv (with_pending s (delete k (pending s)))).
    { destruct Hi as (Hq & Hp & Hg). split_and!; cbn; try done. by apply Forall_delete. }
    by destruct (t_phase t).
  - done.
Qed.


(** *** Content *)

(** The scraper reported success and nothing in its answer marks a challenge
    page. *)
Definition clean_result (result : json) : Prop :=
  truthy (jget result "success") = true /\ is_barrier_flagged result = Some false.

Definition clean_task (t : Task) : Prop :=
  match t_phase t with Fetching result => clean_result result | _ => True end.

Definition clean_page (p : StoredPage) : Prop :=
  clean_result (pg_result p) /\ pg_doc p = build_page (pg_url p) (pg_result p).

(** The content hash a page is remembered by. *)
Definition stored_hash (p : StoredPage) : option string :=
  match page_hash sha256 (pg_result p) with
  | Some (Some h) => if is_empty h then None else Some h
  | _ => None
  end.

Record content_inv (s : Crawl) : Prop := {
  co_tasks : Forall clean_task (pending s);
  co_pages : Forall clean_page (pages s);
  co_nodup : NoDup (omap stored_hash (pages s));
  co_known : forall h, h ∈ omap stored_hash (pages s) -> h ∈ content_hashes (dedup s)
}.

Definition same_content (s s0 : Crawl) : Prop :=
  pending s0 = pending s /\ pages s0 = pages s /\ dedup s0 = dedup s.

Lemma content_set_phase s s0 k p :
  content_inv s -> same_content s s0 -> (forall r, p = Fetching r -> clean_result r) ->
  content_inv (set_phase s0 k p).
Proof.
  intros [Ht Hp Hn Hk] (H1 & H2 & H3) Hph. split; cbn; rewrite ?H1, ?H2, ?H3; try done.
  destruct (pending s !! k) as [t|] eqn:E; [|by rewrite alter_out_of_range].
  destruct (pending_split _ _ _ E) as (l1 & l2 & Hpe & Ha & _). rewrite Ha. rewrite Hpe in Ht.
  apply Forall_app in Ht as [Ht1 [Ht2 Ht3]%Forall_cons]. apply Forall_app. split; [done|].
  constructor; [|done]. unfold clean_task. cbn. destruct p; try done. by apply Hph.
Qed.

Lemma content_on_scraped s k t r : content_inv s -> content_inv (on_scraped s k t r).
Proof.
  intros Hi. unfold on_scraped, on_failure, on_barrier, retry_or_abort, retry_or_skip.
  destruct r as [| | | | |result];
    [by eapply (content_set_phase s)|by eapply (content_set_phase s)|by eapply (content_set_phase s)|by eapply (content_set_phase s)
    |eapply (content_set_phase s); [done|done|by destruct (_ =? 0)]|].
  destruct (negb (is_obj result)); [by eapply (content_set_phase s)|].
  destruct (truthy (jget result "success")) eqn:Es; cbn [negb].
  - destruct (is_barrier_flagged result) as [[]|] eqn:Eb.
    + repeat (case_match; try (by eapply (content_set_phase s))).
    + destruct (page_builds result); [|by eapply (content_set_phase s)].
      eapply (content_set_phase s); [done|done|]. intros r [= <-]. done.
    + by eapply (content_set_phase s).
  - repeat (case_match; try (by eapply (content_set_phase s))).
Qed.

Lemma content_record s url n d result :
  content_inv s -> clean_result result ->
  forall hash dm, page_hash sha256 result = Some hash ->
  match hash with Some h => is_duplicate_content h (dedup s) | None => false end = false ->
  mark_scraped url None hash (dedup s) = Some dm ->
  forall s0, pending s0 = pending s ->
  pages s0 = pages s ++ [mkStored url n d (build_page url result) result] -> dedup s0 = dm ->
  content_inv s0.
Proof.
  intros [Ht Hp Hn Hk] Hr hash dm Hh Hd Hm s0 H1 H2 H3.
  unfold mark_scraped in Hm. injection Hm as <-.
  assert (Hsub : content_hashes (dedup s) ⊆ content_hashes (dedup s0)).
  { rewrite H3. cbn. destruct hash as [h|]; [destruct (is_empty h)|]; set_solver. }
  split; rewrite ?H1, ?H2; [done| | |].
  - apply Forall_app. split; [done|]. by apply Forall_singleton.
  - rewrite omap_app. apply NoDup_app. split_and!; [done| |].
    + intros h Hin. cbn. unfold stored_hash. cbn. rewrite Hh.
      destruct hash as [h'|]; [|by apply not_elem_of_nil]. destruct (is_empty h'); [by apply not_elem_of_nil|].
      intros ->%list_elem_of_singleton. unfold is_duplicate_content in Hd.
      apply bool_decide_eq_false in Hd. by apply Hd, Hk.
    + cbn. destruct (stored_hash _); [apply NoDup_singleton|constructor].
  - intros h. rewrite omap_app, elem_of_app. intros [Hin|Hin]; [by apply Hsub, Hk|].
    cbn in Hin. unfold stored_hash in Hin. cbn in Hin. rewrite Hh in Hin. rewrite H3. cbn.
    destruct hash as [h'|]; [|by apply not_elem_of_nil in Hin].
    destruct (is_empty h'); [by apply not_elem_of_nil in Hin|].
    apply list_elem_of_singleton in Hin as ->. set_solver.
Qed.

Lemma content_on_html s k t result html :
  content_inv s -> pending s !! k = Some t -> t_phase t = Fetching result ->
  content_inv (on_html sha256 s k t result html).
Proof.
  intros Hi Hk Hph. unfold on_html, skip_duplicate.
  assert (Hr : clean_result result).
  { pose proof (proj1 (Forall_lookup _ _) (co_tasks _ Hi) _ _ Hk) as H. unfold clean_task in H.
    by rewrite Hph in H. }
  destruct (match html with Some h => _ | None => _ end) as [[c|]|]; [by eapply (content_set_phase s)| |by eapply (content_set_phase s)].
  destruct (page_hash sha256 result) as [hash|] eqn:Eh; [|by eapply (content_set_phase s)].
  destruct (match hash with Some h => _ | None => false end) eqn:Ed; [by eapply (content_set_phase s)|].
  destruct (mark_scraped _ _ _ _) as [d|] eqn:Em; [|by eapply (content_set_phase s)].
  eapply content_set_phase; [|by split_and!|done].
  by eapply (content_record s).
Qed.

Lemma content_step s e :
  content_inv s -> content_inv (crawl_step o re_search dns sha256 base_domain s e).
Proof.
  intros Hi. destruct e as [|k r|k html|k again|k|k|k|]; cbn [crawl_step];
    try (destruct (pending s !! k) as [t|] eqn:Ek; [|done]).
  - destruct (can_dispatch o s); [|done]. unfold create_scrape_task.
    destruct (queue s) as [|it q]; [done|]. destruct Hi as [Ht Hp Hn Hk].
    repeat (case_match; try (by split)). split; cbn; try done.
    apply Forall_app. split; [done|]. by apply Forall_singleton.
  - destruct (t_phase t); try done. by apply content_on_scraped.
  - destruct (t_phase t) eqn:E; try done. by apply content_on_html.
  - destruct (t_phase t); try done. unfold on_children.
    repeat (case_match; try (by eapply (content_set_phase s))).
  - destruct (t_phase t); try done. by eapply (content_set_phase s).
  - destruct (is_done _); [done|]. by eapply (content_set_phase s).
  - destruct (is_done _); [|done].
    assert (Hd : content_inv (with_pending s (delete k (pending s)))).
    { destruct Hi as [Ht Hp Hn Hk]. split; cbn; try done. by apply Forall_delete. }
    destruct (t_phase t); try done. by destruct Hd.
  - by destruct Hi.
Qed.

(** C17. What a crawl keeps is real and new: every stored page is the record built
    from a successful scrape that carries no challenge or degraded-content mark,
    and no two stored pages have the same content hash, in every interleaving of
    the tasks. *)
Theorem crawl_pages_clean_and_new q es :
  let s := crawl_run o re_search dns sha256 base_domain (crawl_init q) es in
  Forall (fun p => truthy (jget (pg_result p) "success") = true /\
                   is_barrier_flagged (pg_result p) = Some false /\
                   pg_doc p = build_page (pg_url p) (pg_result p)) (pages s) /\
  NoDup (omap stored_hash (pages s)).
Proof.
  intros s. assert (H : content_inv s).
  { unfold s, crawl_run. apply run_ops_invariant; [|apply content_step].
    split; cbn; try constructor. by intros h ?%not_elem_of_nil. }
  destruct H as [_ Hp Hn _]. split; [|done].
  eapply Forall_impl; [exact Hp|]. by intros p [[? ?] ?].
Qed.

End Invariant.

(** ** Seeding *)

Lemma seed_sitemap_spec o sn urls : forall known q q',
  seed_sitemap o sn urls known q = Some q' ->
  exists pre, q' = pre ++ q /\ (length pre <= length urls)%nat /\
    Forall (fun it => i_depth it = 0 /\ i_sitemap it = true /\
              exists n, norm o (i_url it) = Some n /\ n <> sn /\ n ∉ known) pre /\
    NoDup (omap (fun it => norm o (i_url it)) pre).
Proof.
  induction urls as [|u us IH]; intros known q q' H; cbn in H.
  - injection H as <-. exists []. split_and!; [done|done|constructor|constructor].
  - destruct (is_low_value_sitemap_url u).
    { destruct (IH _ _ _ H) as (pre & -> & ? & ? & ?). exists pre. split_and!; try done. cbn; lia. }
    destruct (norm o u) as [n|] eqn:En; [|done]. destruct (_ || _) eqn:Ek.
    { destruct (IH _ _ _ H) as (pre & -> & ? & ? & ?). exists pre. split_and!; try done. cbn; lia. }
    apply orb_false_iff in Ek as [Ek Es].
    assert (Hk : n ∉ known) by (rewrite <- mem_elem; by rewrite Ek).
    apply String.eqb_neq in Es.
    destruct (IH _ _ _ H) as (pre & -> & Hl & Hf & Hn). exists (pre ++ [mkItem u 0 true]).
    rewrite <- app_assoc. split_and!; [done|rewrite length_app; cbn; lia| |].
    + apply Forall_app. split; [|apply Forall_singleton; cbn; eauto 6].
      eapply Forall_impl; [exact Hf|]. intros it (? & ? & m & ? & ? & Hm). split_and!; try done.
      exists m. split_and!; try done. intros Hc. apply Hm. by right.
    + rewrite omap_app. cbn. rewrite En. apply NoDup_app. split_and!; [done| |apply NoDup_singleton].
      intros m Hm ->%list_elem_of_singleton.
      apply list_elem_of_omap in Hm as (it & Hit & Hm).
      destruct (proj1 (Forall_forall _ _) Hf _ Hit) as (_ & _ & m' & Hm' & _ & Hnk).
      rewrite Hm' in Hm. injection Hm as ->. apply Hnk. by left.
Qed.

(** Seeding respects the budget: when more than one page is allowed, the
    initial queue has at most [max_pages] URLs, all at depth zero and pairwise
    different after normalisation, and the last slot is the start URL, so
    sitemap URLs alone cannot use up the crawl. *)
Theorem seed_queue_reserves_start o start_url urls q :
  1 < max_pages o -> seed_queue o start_url urls = Some q ->
  (exists pre, q = pre ++ [mkItem start_url 0 false]) /\
  Z.of_nat (length q) <= max_pages o /\
  Forall (fun it => i_depth it = 0) q /\
  NoDup (omap (fun it => norm o (i_url it)) q).
Proof.
  intros Hm H. unfold seed_queue in H. destruct (norm o start_url) as [sn|] eqn:En; [|done].
  assert (Hs : 0 <? max_pages o - 1 = true) by (apply Z.ltb_lt; lia). rewrite Hs in H.
  destruct (decide _).
  - injection H as <-. split_and!; [by exists []|cbn; lia|by constructor|]. cbn. rewrite En.
    apply NoDup_singleton.
  - apply seed_sitemap_spec in H as (pre & -> & Hl & Hf & Hn). rewrite length_take in Hl.
    split_and!; [by exists pre|rewrite length_app; cbn; lia| |].
    + apply Forall_app. split; [|by repeat constructor].
      eapply Forall_impl; [exact Hf|]. by intros it (? & _).
    + rewrite omap_app. cbn. rewrite En. apply NoDup_app. split_and!; [done| |apply NoDup_singleton].
      intros m Hm' ->%list_elem_of_singleton. apply list_elem_of_omap in Hm' as (it & Hit & Hm').
      destruct (proj1 (Forall_forall _ _) Hf _ Hit) as (_ & _ & m & Hm2 & Hne & _). congruence.
Qed.

(** ** Concrete runs *)

Definition demo_options (mp : Z) (sm : SitemapMode) : CrawlOptions :=
  mkOptions mp 2 [] [] false false false sm (mkLinkOptions false false true) 3 None.

Definition demo_ok (md : string) : json :=
  JObj [("success", JBool true); ("data", JObj [("markdown", JStr md)])].

Definition demo_run (o : CrawlOptions) (q : list Item) (es : list event) : Crawl :=
  crawl_run o (fun _ _ => None) demo_dns (fun m => "h" +:+ m) "h.org" (crawl_init q) es.

Lemma seed_queue_reserves_start_witness :
  seed_queue (demo_options 3 sitemap_include) "https://h.org/"
    ["https://h.org/a"; "https://h.org/tag/x"; "https://h.org/b"]
    = Some [mkItem "https://h.org/a" 0 true; mkItem "https://h.org/" 0 false] /\
  Z.of_nat (length [mkItem "https://h.org/a" 0 true; mkItem "https://h.org/" 0 false]) <= 3.
Proof.
  assert (H : seed_queue (demo_options 3 sitemap_include) "https://h.org/"
    ["https://h.org/a"; "https://h.org/tag/x"; "https://h.org/b"]
    = Some [mkItem "https://h.org/a" 0 true; mkItem "https://h.org/" 0 false]) by (vm_compute; reflexivity).
  split; [exact H|].
  apply (seed_queue_reserves_start (demo_options 3 sitemap_include) "https://h.org/" _ _ ltac:(cbn; lia) H).
Defined.


(** With [max_pages = 1] the truncation that reserves a slot for the start URL is
    skipped, and the sitemap URLs are put before it: the crawl stores a sitemap
    page and never scrapes the URL the user asked for. *)
Theorem start_url_starved_by_sitemap :
  let o := demo_options 1 sitemap_include in
  let q := [mkItem "https://h.org/b" 0 true; mkItem "https://h.org/a" 0 true;
            mkItem "https://h.org/" 0 false] in
  let s := demo_run o q [Dispatch; EScraped 0 (ScrapeResult (demo_ok "b")); EHtml 0 None;
                         EChildren 0 None; Reap 0] in
  seed_queue o "https://h.org/" ["https://h.org/a"; "https://h.org/b"] = Some q /\
  pg_url <$> pages s = ["https://h.org/b"] /\ can_dispatch o s = false.
Proof. vm_compute. split_and!; reflexivity. Qed.

(** A start URL that refuses connections: the crawl is empty, its only error is a
    [connection_error], and the summary says that no pages were discovered. *)
Theorem connection_error_not_counted :
  let s := demo_run (demo_options 5 sitemap_skip) [mkItem "https://h.org/" 0 false]
    [Dispatch; EScraped 0 (ScrapeResult (JObj [("success", JBool false);
       ("error", JStr "Connection refused")])); Reap 0] in
  e_type <$> errors s = [connection_error] /\ outcome_reason s = Some "no_pages_discovered".
Proof. vm_compute. split_and!; reflexivity. Qed.

(** One link with an impossible port raises in the loop over the children: the
    links after it are lost, and so is the task. *)
Theorem bad_port_loses_links :
  enqueue_children (demo_options 5 sitemap_skip) ∅ 0 []
    ["https://h.org/a"; "https://h.org:99999/"; "https://h.org/b"]
    = ([mkItem "https://h.org/a" 1 false], false).
Proof. vm_compute. reflexivity. Qed.

(** [/category/] is not a low-value path, [/categorie/] is. *)
Theorem category_pages_not_skipped :
  is_low_value_sitemap_url "https://h.org/category/news/" = false /\
  is_low_value_sitemap_url "https://h.org/categorie/news/" = true.
Proof. vm_compute. split_and!; reflexivity. Qed.
