(* ===== verification/CrawlRoutes.v ===== *)
(** * The crawl endpoints ([src/agent-svc/agent/routes/crawl.py], [nl_params.py])

    What a request for a crawl becomes: the page cap from [max_pages], [limit] and
    the cap a model derived from a prompt, the path filters and the depth with the
    explicit parameters first; the status of a job with its pages in chunks; the
    replay of a job as an event stream; the errors of a job and its cancellation.

    The theorems: the cap that reaches the engine is the strictest one of the
    request, a model can only tighten it, and no crawl stores more pages; following
    [next] from any offset gives the pages from there, each once and in order; and a
    replayed stream gives the pages of the live one, and decodes.

    The answer of the model is given as it is after [_safe_parse_llm_response]
    ([JNull] when nothing could be parsed).  The rate limiter is in [RateLimit]; the
    duration of a job, computed from its time stamps, is left out. *)

From stdpp Require Import pretty.
From S2P Require Import Prelude Strings Url HostPolicy Json Valkey JobStore JobExecution CrawlStream Links Dedup Crawler.

Definition obj : Type := list (string * json).

(** ** The parameters of a crawl *)

(** [_resolve_effective_max_pages]. *)
Definition resolve_effective_max_pages (max_pages : Z) (limit : option Z) : Z :=
  let candidates := List.filter (fun n => 0 <? n) (max_pages :: option_list limit) in
  match candidates with
  | [] => 0
  | n :: l => foldr Z.min n l
  end.

(** [int(v)]; [None] for [ValueError] and [TypeError]. *)
Definition to_int (v : json) : option Z :=
  match v with
  | JNum n => Some n
  | JBool b => Some (if b then 1 else 0)
  | JStr s => py_int s
  | _ => None
  end.

Definition is_str (v : json) : bool := match v with JStr _ => true | _ => false end.

Definition paths_field (params : obj) (field : string) : obj :=
  match assoc field params with
  | Some (JArr l) => if forallb is_str l then [(field, JArr l)] else []
  | _ => []
  end.

Definition int_field (params : obj) (field : string) (least : Z) : obj :=
  match default JNull (assoc field params) with
  | JNull => []
  | v => match to_int v with
         | Some n => if least <=? n then [(field, JNum n)] else []
         | None => []
         end
  end.

Definition bool_field (params : obj) (field : string) : obj :=
  match assoc field params with Some (JBool b) => [(field, JBool b)] | _ => [] end.

Definition agent_field (params : obj) : obj :=
  match assoc "robots_user_agent" params with
  | Some (JStr s) => if is_empty (strip s) then [] else [("robots_user_agent", JStr (strip s))]
  | _ => []
  end.

(** [_validate_derived_params]. *)
Definition validate_derived_params (params : obj) : obj :=
  paths_field params "include_paths" ++ paths_field params "exclude_paths" ++
  int_field params "max_depth" 0 ++ int_field params "max_pages" 1 ++
  bool_field params "ignore_robots_txt" ++ agent_field params ++ bool_field params "deduplicate_similar_urls".

Definition failure (msg : string) : obj := [("error", JStr msg)].

Definition type_name (v : json) : string :=
  match v with JNull => "NoneType" | JBool _ => "bool" | JNum _ => "int" | JStr _ => "str" | JArr _ => "list" | JObj _ => "dict" end.

(** [derive_crawl_params] after the model's answer was parsed. *)
Definition derived_params (parsed : json) : obj :=
  match parsed with
  | JNull => failure "LLM returned invalid JSON. Default parameters will be used."
  | JObj p =>
      match validate_derived_params p with
      | [] => failure "LLM returned no usable parameters. Default parameters will be used."
      | r => r
      end
  | v => failure ("LLM call failed: '" +:+ type_name v +:+ "' object has no attribute 'get'. Default parameters will be used.")
  end.

Definition override_fields : list string := ["include_paths"; "exclude_paths"; "max_depth"; "max_pages"].

Definition not_null (o : option json) : option json := match o with Some JNull | None => None | v => v end.

Definition merge_field (llm explicit : obj) (k : string) : obj :=
  match not_null (assoc k explicit) with
  | Some v => [(k, v)]
  | None => match not_null (assoc k llm) with Some v => [(k, v)] | None => [] end
  end.

(** [merge_params]. *)
Definition merge_params (llm explicit : obj) : obj :=
  match assoc "error" llm with Some e => [("error", e)] | None => [] end ++
  concat (merge_field llm explicit <$> override_fields).

(** The fields of [CrawlRequest] that are used here; [set_fields] are the names the
    request gave ([model_dump(exclude_unset=True)]). *)
Record CrawlRequest := mkRequest {
  q_prompt : option string;
  q_include : option (list string);
  q_exclude : option (list string);
  q_max_depth : Z;
  q_max_pages : Z;
  q_limit : option Z;
  set_fields : list string
}.

Definition jpaths (o : option (list string)) : json := from_option (fun l => JArr (JStr <$> l)) JNull o.

Definition has_prompt (b : CrawlRequest) : bool := match q_prompt b with Some s => negb (is_empty s) | None => false end.

(** The parameters the request gave itself. *)
Definition explicit_params (b : CrawlRequest) : obj :=
  let given k := mem k (set_fields b) in
  (if given "include_paths" then match q_include b with Some _ => [("include_paths", jpaths (q_include b))] | None => [] end else []) ++
  (if given "exclude_paths" then match q_exclude b with Some _ => [("exclude_paths", jpaths (q_exclude b))] | None => [] end else []) ++
  (if given "max_depth" then [("max_depth", JNum (q_max_depth b))] else []).

Record CrawlParams := mkParams { p_include : json; p_exclude : json; p_max_depth : json; p_max_pages : Z }.

(** [isinstance(v, int)]. *)
Definition as_int (v : json) : option Z :=
  match v with JNum n => Some n | JBool b => Some (if b then 1 else 0) | _ => None end.

(** The part of [create_crawl] between the rate limiter and [create_job];
    [llm_result] is what [derive_crawl_params] returned. *)
Definition create_params (b : CrawlRequest) (llm_result : obj) : CrawlParams :=
  let effective := resolve_effective_max_pages (q_max_pages b) (q_limit b) in
  let body := mkParams (jpaths (q_include b)) (jpaths (q_exclude b)) (JNum (q_max_depth b)) effective in
  if has_prompt b then
    let merged := merge_params llm_result (explicit_params b) in
    let choose k v := match assoc k merged with Some w => if mem k (set_fields b) then v else w | None => v end in
    let cap :=
      if negb (mem "limit" (set_fields b)) && negb (mem "max_pages" (set_fields b)) then
        match as_int (default JNull (assoc "max_pages" llm_result)) with
        | Some n => if (1 <=? n) && ((effective =? 0) || (n <? effective)) then n else effective
        | None => effective
        end
      else effective in
    mkParams (choose "include_paths" (p_include body)) (choose "exclude_paths" (p_exclude body))
      (choose "max_depth" (p_max_depth body)) cap
  else body.

(** ** The status of a job *)

(** Python's [l[a:b]] and [l[a:]]. *)
Definition clamp (n i : Z) : nat := Z.to_nat (if i <? 0 then Z.max 0 (i + n) else Z.min i n).
Definition slice_from {A} (l : list A) (a : Z) : list A := drop (clamp (Z.of_nat (length l)) a) l.
Definition slice {A} (l : list A) (a b : Z) : list A :=
  let n := Z.of_nat (length l) in drop (clamp n a) (take (clamp n b) l).

Definition max_pages_per_chunk : Z := Z.max 1 (10 * 1024 * 1024 / (10 * 1024)).

(** The pages of one response and the offset of its [next] URL. *)
Definition status_chunk {A} (all_pages : list A) (offset : Z) : list A * option Z :=
  let chunk := slice_from all_pages offset in
  if max_pages_per_chunk <? Z.of_nat (length chunk) then
    let chunk := slice all_pages offset (offset + max_pages_per_chunk) in
    let next_offset := offset + max_pages_per_chunk in
    (match chunk with [] => if offset =? 0 then all_pages else [] | _ => chunk end,
     if next_offset <? Z.of_nat (length all_pages) then Some next_offset else None)
  else (match chunk with [] => if offset =? 0 then all_pages else [] | _ => chunk end, None).

Record CrawlStatus := mkStatus {
  s_status : Status; s_completed : Z; s_total : json; s_credits : Z; s_data : list json;
  s_error : option string; s_error_code : option string; s_outcome : json; s_next : option string;
  s_created : string; s_finished : option string; s_expires : string;
  s_retry : option RetryInfo; s_retryable : option bool
}.

Definition jlist (v : json) : list json := match v with JArr l => l | _ => [] end.

(** The document of a job; [job.get("data") or {}]. *)
Definition job_data (d : option JobData) : json := from_option data_rest (JObj []) d.
Definition job_pages (d : option JobData) : list json := jlist (jget (job_data d) "pages").

Section Routes.
Context {DB : Type} `{!Valkey key value DB}.

(** [get_crawl_status]; [base] is the URL of the request without its query, [None]
    stands for 404. *)
Definition get_crawl_status (base job : string) (offset : Z) (db : DB) : option CrawlStatus :=
  match get_job job db with
  | None => None
  | Some (m, d) =>
      let pages := job_pages d in
      let completed_count := default 0 (d ≫= data_completed) in
      let '(chunk, next) := status_chunk pages offset in
      Some (mkStatus (status m) completed_count (jget_default (job_data d) "total" (JNum 0))
        (if completed_count =? 0 then Z.of_nat (length pages) else completed_count) chunk
        (error m) (error_code m) (jget (job_data d) "outcome_summary")
        ((fun n => base +:+ "?offset=" +:+ pretty n) <$> next) (created_at m) (completed_at m) (expires_at m) (retry m)
        (if decide (status m = retry_scheduled) then Some true else None))
  end.

(** [get_crawl_errors]. *)
Definition get_crawl_errors (job : string) (db : DB) : option (list json * list json) :=
  match get_job job db with
  | None => None
  | Some (_, d) => Some (jlist (jget (job_data d) "errors"), jlist (jget (job_data d) "robots_blocked"))
  end.

(** [cancel_crawl]: the store after it, and whether the job was cancelled, in which
    case the tracker is told to cancel the task; [build] builds the webhook intent. *)
Definition cancel_crawl (build : string -> json -> string -> string -> json -> bool -> option string -> option WebhookIntent)
    (wid job iso : string) (db : DB) : DB * bool :=
  let payload := match get_job job db with Some (m, _) => payload m | None => JObj [] end in
  let event := build wid (jget payload "webhook") "crawl.completed" job (JArr []) true None in
  cancel_job job event iso db.

(** ** The replay of a job as a stream *)

Definition status_text (st : Status) : string :=
  match st with
  | processing => "processing" | retry_scheduled => "retry_scheduled" | JobStore.completed => "completed"
  | failed => "failed" | cancelled => "cancelled"
  end.

Definition json_obj (v : json) : obj := match v with JObj l => l | _ => [] end.

(** The events of a list, numbered from [n]. *)
Fixpoint number (n : Z) (l : list json) : list chunk :=
  match l with
  | [] => []
  | p :: l => Event n p :: number (n + 1) l
  end.

(** An error of the job's document; its default text is not that of the live stream. *)
Definition replay_error (e : json) : json :=
  JObj [("type", JStr "error"); ("url", get_or (json_obj e) "url" (JStr "")); ("error", get_or (json_obj e) "error" (JStr "Unknown error"))].

Definition replay_done (job : string) (st : string) (pages : list json) (total completed : json) : json :=
  JObj [("type", JStr "done"); ("id", JStr job); ("status", JStr st); ("pages", JArr pages); ("total", total);
        ("completed", completed); ("latency_ms", JNum 0)].

(** The last events of a replay. *)
Definition replay_end (job : string) (m : Meta) (pages : list json) (total completed_ : json) : list json :=
  match status m with
  | JobStore.completed => [replay_done job "completed" pages total completed_]
  | failed => [JObj [("type", JStr "error"); ("content", from_option JStr (JStr "Crawl failed") (error m))]]
  | st => [JObj [("type", JStr "progress"); ("completed", completed_); ("total", jor total completed_); ("status", JStr (status_text st))];
           replay_done job (status_text st) pages (jor total completed_) completed_]
  end.

(** [stream_crawl]. *)
Definition stream_crawl (job : string) (db : DB) : option (list chunk) :=
  match get_job job db with
  | None => None
  | Some (m, d) =>
      let pages := job_pages d in
      let errors := jlist (jget (job_data d) "errors") in
      let total := jget_default (job_data d) "total" (JNum 0) in
      let completed := JNum (default 0 (d ≫= data_completed)) in
      Some (number 1 (((fun p => page_payload (json_obj p)) <$> pages) ++ (replay_error <$> errors) ++
                      replay_end job m pages total completed) ++ [DoneMark])
  end.

End Routes.

(** Following [next], with a bound on the number of requests; [None] if it is used up. *)
Fixpoint follow {A} (fuel : nat) (all_pages : list A) (offset : Z) : option (list A) :=
  match fuel with
  | O => None
  | S fuel =>
      match status_chunk all_pages offset with
      | (chunk, None) => Some chunk
      | (chunk, Some next) => rest ← follow fuel all_pages next; Some (chunk ++ rest)
      end
  end.

(** ** The page cap *)

Lemma cap_resolve_spec n limit :
  let r := resolve_effective_max_pages n limit in
  0 <= r /\ (forall cap, (cap = n \/ limit = Some cap) -> 0 < cap -> 0 < r <= cap) /\
  (r = 0 \/ r = n \/ limit = Some r).
Proof.
  unfold resolve_effective_max_pages. destruct limit as [m|]; cbn.
  - destruct (Z.ltb_spec 0 n), (Z.ltb_spec 0 m); cbn; (split_and!; [lia|intros cap [->|[= ->]]; lia|auto]).
    destruct (Z.min_spec m n) as [[_ ->]|[_ ->]]; auto.
  - destruct (Z.ltb_spec 0 n); cbn; (split_and!; [lia|intros cap [->|[=]]; lia|auto]).
Qed.

Lemma cap_bounds b llm : let p := create_params b llm in
  0 <= p_max_pages p /\ forall cap, (cap = q_max_pages b \/ q_limit b = Some cap) -> 0 < cap -> 0 < p_max_pages p <= cap.
Proof.
  destruct (cap_resolve_spec (q_max_pages b) (q_limit b)) as (H1 & H2 & _). cbv zeta. unfold create_params. destruct (has_prompt b); [|done].
  cbn. destruct (_ && _); [|done]. destruct (as_int _) as [n|]; [|done]. destruct ((1 <=? n) && _) eqn:E; [|done].
  apply andb_true_iff in E as [E1%Z.leb_le E2]. split; [lia|]. intros cap Hc Hp. specialize (H2 cap Hc Hp).
  apply orb_true_iff in E2 as [E2%Z.eqb_eq|E2%Z.ltb_lt]; lia.
Qed.

(** ** Slices *)

Lemma clamp_le {A} (l : list A) b : (clamp (Z.of_nat (length l)) b <= length l)%nat.
Proof. unfold clamp. destruct (Z.ltb_spec b 0); lia. Qed.

Lemma clamp_zero n : 0 <= n -> clamp n 0 = 0%nat.
Proof. intros H. unfold clamp. rewrite Z.ltb_irrefl. lia. Qed.

Lemma slice_split {A} (l : list A) a b : (clamp (Z.of_nat (length l)) a <= clamp (Z.of_nat (length l)) b)%nat ->
  slice l a b ++ slice_from l b = slice_from l a.
Proof.
  intros H. unfold slice, slice_from. cbv zeta.
  set (x := clamp _ a) in *. set (y := clamp _ b) in *. transitivity (drop x (take y l ++ drop y l)); [|by rewrite take_drop].
  pose proof (clamp_le l b). rewrite drop_app_le; [done|]. rewrite length_take. lia.
Qed.

Lemma slice_from_length {A} (l : list A) a : length (slice_from l a) = (length l - clamp (Z.of_nat (length l)) a)%nat.
Proof. unfold slice_from. apply length_drop. Qed.

(** The data of a response, with its empty chunk read as it is meant. *)
Lemma chunk_data {A} (l : list A) a c : (a = 0 -> c = [] -> l = []) ->
  match c with [] => if a =? 0 then l else [] | _ => c end = c.
Proof. intros H. destruct c; [|done]. destruct (Z.eqb_spec a 0) as [->|]; [by apply H|done]. Qed.

Lemma chunk_size : max_pages_per_chunk = 1024.
Proof. done. Qed.

(** One response: the rest of the pages, or a chunk and where the rest begins. *)
Lemma status_chunk_spec {A} (l : list A) a :
  match status_chunk l a with
  | (c, None) => c = slice_from l a
  | (c, Some b) => c ++ slice_from l b = slice_from l a /\ b = a + 1024 /\ b < Z.of_nat (length l)
  end /\ (length (fst (status_chunk l a)) <= 1024)%nat.
Proof.
  unfold status_chunk. cbv zeta. rewrite chunk_size. pose proof (slice_from_length l a) as L.
  destruct (Z.ltb_spec 1024 (Z.of_nat (length (slice_from l a)))) as [H|H].
  - assert (C : (clamp (Z.of_nat (length l)) a <= clamp (Z.of_nat (length l)) (a + 1024))%nat /\
                (clamp (Z.of_nat (length l)) (a + 1024) <= clamp (Z.of_nat (length l)) a + 1024)%nat /\
                (a = 0 -> clamp (Z.of_nat (length l)) (a + 1024) = 1024%nat) /\ a + 1024 < Z.of_nat (length l)).
    { unfold clamp in *. destruct (Z.ltb_spec a 0), (Z.ltb_spec (a + 1024) 0); split_and!; lia. }
    destruct C as (C1 & C2 & C3 & C4).
    assert (N : length (slice l a (a + 1024)) = (clamp (Z.of_nat (length l)) (a + 1024) - clamp (Z.of_nat (length l)) a)%nat).
    { unfold slice. cbv zeta. rewrite length_drop, length_take. pose proof (clamp_le l (a + 1024)). lia. }
    rewrite chunk_data; [|intros -> E; rewrite E in N; rewrite (C3 eq_refl), clamp_zero in N by lia; cbn in N; lia].
    destruct (Z.ltb_spec (a + 1024) (Z.of_nat (length l))); [|lia]. cbn. split; [|lia]. split_and!; [by apply slice_split|done|done].
  - rewrite chunk_data; [|intros -> E; unfold slice_from in E; rewrite clamp_zero in E by lia; done].
    cbn. split; [done|lia].
Qed.

Lemma follow_spec {A} (l : list A) fuel a : Z.of_nat (length l) - a < 1024 * Z.of_nat fuel -> (0 < fuel)%nat ->
  follow fuel l a = Some (slice_from l a).
Proof.
  revert a. induction fuel as [|fuel IH]; intros a H F; [lia|]. cbn [follow].
  destruct (status_chunk_spec l a) as [S _]. destruct (status_chunk l a) as [c [b|]]; [|by rewrite S].
  destruct S as (S & -> & B). rewrite IH by lia. cbn. by rewrite S.
Qed.

(** ** The derived parameters *)

(** A validated field holds its key only, with a value of its type. *)
Definition only (k : string) (P : json -> Prop) (l : obj) : Prop := l = [] \/ exists v, l = [(k, v)] /\ P v.

Definition string_list (v : json) : Prop := exists l, v = JArr (JStr <$> l).
Definition at_least (n : Z) (v : json) : Prop := exists m, v = JNum m /\ n <= m.

Lemma only_paths params k : only k string_list (paths_field params k).
Proof.
  unfold paths_field. destruct (assoc k params) as [[| | | |l|]|]; try by left. destruct (forallb is_str l) eqn:E; [|by left].
  right. eexists. split; [done|]. clear -E. induction l as [|v l IH]; [by exists []|]. cbn in E. apply andb_true_iff in E as [E1 E2].
  destruct (IH E2) as (ss & [= ->]). destruct v as [| | |s| |]; try done. by exists (s :: ss).
Qed.

Lemma only_int params k n : only k (at_least n) (int_field params k n).
Proof.
  unfold int_field. destruct (default JNull (assoc k params)); try (by left);
    (destruct (to_int _) as [m|]; [|by left]; destruct (Z.leb_spec n m); [|by left]; right; eexists; split; [done|by eexists]).
Qed.

Lemma only_bool params k : only k (fun _ => True) (bool_field params k).
Proof. unfold bool_field. destruct (assoc k params) as [[]|]; try (by left). right. by eexists. Qed.

Lemma only_agent params : only "robots_user_agent" (fun _ => True) (agent_field params).
Proof.
  unfold agent_field. destruct (assoc _ params) as [[]|]; try (by left). destruct (is_empty _); [by left|]. right. by eexists.
Qed.

Lemma only_assoc k k' P l v : only k P l -> assoc k' l = Some v -> k' = k /\ P v.
Proof. intros [->|(w & -> & Hw)]; cbn; [done|]. destruct (String.eqb_spec k' k) as [->|]; [by intros [= ->]|done]. Qed.

(** What a key of the validated parameters holds. *)
Definition valid_param (k : string) (v : json) : Prop :=
  (k = "include_paths" \/ k = "exclude_paths" -> string_list v) /\ (k = "max_depth" -> at_least 0 v) /\ (k = "max_pages" -> at_least 1 v).

Lemma derived_valid parsed k v : assoc k (derived_params parsed) = Some v -> k <> "error" -> valid_param k v.
Proof.
  intros H Hk. assert (F : forall msg, assoc k (failure msg) <> Some v).
  { intros msg. unfold failure. cbn. by destruct (String.eqb_spec k "error"). }
  unfold derived_params in H. destruct parsed as [| | | | |p]; try (by destruct (F _ H)).
  assert (H' : assoc k (validate_derived_params p) = Some v) by (destruct (validate_derived_params p); [by destruct (F _ H)|done]).
  clear H F. unfold validate_derived_params in H'. rewrite !assoc_app in H'.
  repeat (case_match; [simplify_eq|]); [..|]; match goal with
  | H : assoc _ (bool_field p _) = Some _ |- _ => apply (only_assoc _ _ _ _ _ (only_bool p _)) in H as [-> _]
  | H : assoc _ (agent_field p) = Some _ |- _ => apply (only_assoc _ _ _ _ _ (only_agent p)) in H as [-> _]
  | H : assoc _ (int_field p _ _) = Some _ |- _ => apply (only_assoc _ _ _ _ _ (only_int p _ _)) in H as [-> H]
  | H : assoc _ (paths_field p _) = Some _ |- _ => apply (only_assoc _ _ _ _ _ (only_paths p _)) in H as [-> H]
  end; unfold valid_param; split_and!; intros; try done; naive_solver.
Qed.

Lemma merged_field llm b k v : mem k (set_fields b) = false -> k ∈ override_fields ->
  assoc k (merge_params llm (explicit_params b)) = Some v -> not_null (assoc k llm) = Some v.
Proof.
  intros Hk Ho. assert (E : assoc k (explicit_params b) = None).
  { unfold explicit_params. cbv zeta. rewrite !assoc_app.
    assert (G : forall k' (l : obj), (l = [] \/ exists w, l = [(k', w)]) -> assoc k (if mem k' (set_fields b) then l else []) = None).
    { intros k' l Hl. destruct (mem k' (set_fields b)) eqn:M; [|done]. destruct Hl as [->|[w ->]]; [done|]. cbn.
      destruct (String.eqb_spec k k') as [->|]; [congruence|done]. }
    rewrite !G; [done|..]; destruct (q_include b), (q_exclude b); eauto. }
  generalize dependent (explicit_params b). intros ex E.
  assert (M : forall k', assoc k (merge_field llm ex k') = Some v -> k' = k /\ not_null (assoc k llm) = Some v).
  { intros k'. unfold merge_field. destruct (not_null (assoc k' ex)) eqn:X.
    - cbn. destruct (String.eqb_spec k k') as [<-|]; [by rewrite E in X|done].
    - destruct (not_null (assoc k' llm)) eqn:Y; [|done]. cbn. destruct (String.eqb_spec k k') as [<-|]; [|done]. intros [= ->]. auto. }
  unfold merge_params. cbn -[assoc merge_field]. rewrite !assoc_app.
  change (assoc k []) with (@None json).
  do 4 match goal with |- context [assoc k (merge_field llm ex ?f)] =>
    destruct (assoc k (merge_field llm ex f)) eqn:?; [intros [= ->]; by eapply M|] end.
  intros H. exfalso.
  destruct (assoc "error" llm); [|done]. cbn in H. destruct (String.eqb_spec k "error") as [->|]; [|done].
  unfold override_fields in Ho. set_solver.
Qed.

(** ** Claims *)

(**  The parameters of a crawl: whatever the model answered, the page cap is
    positive and at most every positive bound of the request ([0] only if the request
    has none and no cap was derived); a parameter the request set is used as it was
    given, and without a prompt all are; a derived depth is not negative and derived
    path filters are lists of strings. *)
Theorem crawl_parameters b parsed :
  let p := create_params b (derived_params parsed) in
  (forall cap, (cap = q_max_pages b \/ q_limit b = Some cap) -> 0 < cap -> 0 < p_max_pages p <= cap) /\
  0 <= p_max_pages p /\
  (mem "include_paths" (set_fields b) || negb (has_prompt b) = true -> p_include p = jpaths (q_include b)) /\
  (mem "exclude_paths" (set_fields b) || negb (has_prompt b) = true -> p_exclude p = jpaths (q_exclude b)) /\
  (mem "max_depth" (set_fields b) || negb (has_prompt b) = true -> p_max_depth p = JNum (q_max_depth b)) /\
  (p_include p = JNull \/ string_list (p_include p)) /\ (p_exclude p = JNull \/ string_list (p_exclude p)) /\
  (p_max_depth p = JNum (q_max_depth b) \/ at_least 0 (p_max_depth p)).
Proof.
  cbv zeta. destruct (cap_bounds b (derived_params parsed)) as [C1 C2]. split; [exact C2|]. split; [exact C1|]. clear C1 C2.
  assert (J : forall o, jpaths o = JNull \/ string_list (jpaths o)) by (intros [l|]; [right; by exists l|by left]).
  unfold create_params. destruct (has_prompt b); [|cbv zeta; cbn [p_include p_exclude p_max_depth]; split_and!; auto]. cbn [negb]. rewrite !orb_false_r. cbv zeta.
  cbn [p_include p_exclude p_max_depth].
  assert (V : forall k v, k ∈ override_fields -> mem k (set_fields b) = false ->
    assoc k (merge_params (derived_params parsed) (explicit_params b)) = Some v -> valid_param k v).
  { intros k v Hk Hs H. apply (merged_field _ _ _ _ Hs Hk) in H. eapply (derived_valid parsed).
    - unfold not_null in H. destruct (assoc k _) as [[]|]; congruence.
    - intros ->. unfold override_fields in Hk. set_solver. }
  split_and!; try (intros ->; by case_match).
  - destruct (assoc "include_paths" _) eqn:E; [|auto]. destruct (mem _ _) eqn:M; [auto|]. right.
    apply (V "include_paths" _ ltac:(unfold override_fields; set_solver) M) in E as (H & _). auto.
  - destruct (assoc "exclude_paths" _) eqn:E; [|auto]. destruct (mem _ _) eqn:M; [auto|]. right.
    apply (V "exclude_paths" _ ltac:(unfold override_fields; set_solver) M) in E as (H & _). auto.
  - destruct (assoc "max_depth" _) eqn:E; [|auto]. destruct (mem _ _) eqn:M; [auto|]. right.
    apply (V "max_depth" _ ltac:(unfold override_fields; set_solver) M) in E as (_ & H & _). auto.
Qed.

(**  The cap of a request holds for the crawl it starts: an engine that runs with
    the resolved cap never stores more pages than [max_pages] or [limit] allow,
    whatever a model derived from the prompt and however the tasks interleave. *)
Theorem requested_cap_holds o re_search dns sha256 base_domain q es b parsed cap :
  Crawler.max_pages o = p_max_pages (create_params b (derived_params parsed)) ->
  cap = q_max_pages b \/ q_limit b = Some cap -> 0 < cap ->
  Z.of_nat (length (pages (crawl_run o re_search dns sha256 base_domain (crawl_init q) es))) <= cap.
Proof.
  intros Ho Hc Hp. destruct (cap_bounds b (derived_params parsed)) as [_ H]. specialize (H cap Hc Hp).
  destruct (crawl_inv_run o re_search dns sha256 base_domain q es) as [_ _ Hcap _ _ _ _ _ _].
  rewrite Ho in Hcap. specialize (Hcap ltac:(lia)). unfold claims in Hcap. rewrite length_app, length_fmap in Hcap. lia.
Qed.

(** C35.  The pages of a job are paginated without loss: each response has at most
    1024 pages, and a client that follows [next] from any offset, negative ones and
    ones outside the list included, gets after finitely many requests exactly the
    pages from that offset on, in order and each once; from [0], all of them. *)
Theorem pages_paginated {DB} `{!Valkey key value DB} base job (db : DB) m d offset :
  get_job job db = Some (m, d) ->
  let pages := job_pages d in
  (exists st, get_crawl_status base job offset db = Some st /\ s_data st = fst (status_chunk pages offset) /\
     s_next st = (fun n => base +:+ "?offset=" +:+ pretty n) <$> snd (status_chunk pages offset) /\ (length (s_data st) <= 1024)%nat) /\
  follow (Z.to_nat ((Z.of_nat (length pages) - offset) / 1024) + 1) pages offset = Some (slice_from pages offset) /\
  slice_from pages 0 = pages.
Proof.
  intros Hj. cbv zeta. split_and!.
  - unfold get_crawl_status. rewrite Hj. destruct (status_chunk_spec (job_pages d) offset) as [_ L].
    destruct (status_chunk (job_pages d) offset) as [chunk next]. by eexists.
  - apply follow_spec; [|lia]. pose proof (Z.mod_pos_bound (Z.of_nat (length (job_pages d)) - offset) 1024 ltac:(lia)).
    pose proof (Z.div_mod (Z.of_nat (length (job_pages d)) - offset) 1024 ltac:(lia)). lia.
  - unfold slice_from. by rewrite clamp_zero by lia.
Qed.

(** ** The replay *)

Lemma payloads_number n l : payloads (number n l ++ [DoneMark]) = l.
Proof. revert n. induction l as [|p l IH]; intros n; [done|]. unfold payloads in *. cbn. by rewrite IH. Qed.

Lemma ids_number n l : ids (number n l ++ [DoneMark]) = seqZ n (Z.of_nat (length l)).
Proof.
  revert n. induction l as [|p l IH]; intros n; [done|]. cbn [number app length]. unfold ids in *. cbn [omap list_omap].
  rewrite IH, (seqZ_cons n) by lia. f_equal. f_equal; lia.
Qed.

Definition page_events (l : list chunk) : list json := List.filter (has_type "page") (payloads l).

Lemma filter_pages l : List.filter (has_type "page") (entry_payload <$> l) = page_payload <$> List.filter (fun e => negb (is_error e)) l.
Proof.
  induction l as [|e l IH]; [done|]. cbn [fmap list_fmap List.filter]. rewrite IH. unfold entry_payload.
  by destruct (is_error e).
Qed.

Lemma items_pages l : List.filter (has_type "page") (items l) = page_events l.
Proof.
  unfold items, page_events. induction (payloads l) as [|p ps IH]; [done|]. cbn [List.filter].
  destruct (has_type "page" p) eqn:E; cbn [orb List.filter]; [by rewrite E, IH|].
  destruct (has_type "error" p); cbn [List.filter]; by rewrite ?E.
Qed.

Lemma no_pages (f : json -> json) l : (forall x, has_type "page" (f x) = false) -> List.filter (has_type "page") (f <$> l) = [].
Proof. intros H. induction l as [|x l IH]; [done|]. cbn. by rewrite H. Qed.

Lemma replay_end_no_pages job m pages total c : List.filter (has_type "page") (replay_end job m pages total c) = [].
Proof. unfold replay_end. by destruct (status m). Qed.

Lemma all_pages (f : json -> json) l : (forall x, has_type "page" (f x) = true) -> List.filter (has_type "page") (f <$> l) = f <$> l.
Proof. intros H. induction l as [|x l IH]; [done|]. cbn. by rewrite H, IH. Qed.

Lemma stream_crawl_spec {DB} `{!Valkey key value DB} job (db : DB) m d : get_job job db = Some (m, d) ->
  exists l, stream_crawl job db = Some l /\ page_events l = (fun p => page_payload (json_obj p)) <$> job_pages d /\
    ids l = seqZ 1 (Z.of_nat (length (ids l))) /\ sse_decode (text_of l) = events_of "" l.
Proof.
  intros H. unfold stream_crawl. rewrite H. eexists. split; [done|]. split_and!; [|by rewrite !ids_number, length_seqZ, Nat2Z.id|apply sse_decode_chunks].
  unfold page_events. rewrite payloads_number, !List.filter_app, replay_end_no_pages, app_nil_r.
  rewrite (no_pages replay_error) by done. rewrite app_nil_r. by apply all_pages.
Qed.

(**  A reconnecting client misses nothing: when a stream has sent its result and
    the job's document holds the pages of that result, which are the pages the engine
    reported, the replay of the job gives the same page events in the same order as
    the live stream, numbered from one without gaps, and its text decodes to them. *)
Theorem replay_matches_stream {DB} `{!Valkey key value DB} cjson c job url mp (d : DB) acts n r st ms (db' : DB) m dd :
  let s := stream_run cjson c job url mp (init d) acts in
  Event n (done_payload job st r ms) ∈ sent s ->
  r_pages r = JObj <$> List.filter (fun e => negb (is_error e)) (reported cjson c job url mp (init d) acts) ->
  get_job job db' = Some (m, Some dd) -> jget (data_rest dd) "pages" = JArr (r_pages r) ->
  exists l, stream_crawl job db' = Some l /\ page_events l = page_events (sent s) /\
    ids l = seqZ 1 (Z.of_nat (length (ids l))) /\ sse_decode (text_of l) = events_of "" l.
Proof.
  cbv zeta. intros Hi Hr Hj Hd. destruct (stream_crawl_spec job db' m (Some dd) Hj) as (l & E & P & I & T).
  exists l. split_and!; try done. rewrite P. unfold job_pages, job_data. cbn [from_option]. rewrite Hd. cbn [jlist]. rewrite Hr.
  destruct (done_complete cjson c job url mp d acts n _ Hi eq_refl) as (A & _).
  rewrite <- items_pages, A, filter_pages, <- list_fmap_compose. done.
Qed.

(** ** Runs *)

Definition demo_request : CrawlRequest := mkRequest (Some "the blog, five pages") None None 2 10 None ["max_pages"].
Definition demo_answer : json := JObj [("max_pages", JNum 50); ("max_depth", JStr "3"); ("include_paths", JArr [JStr "blog/.*"])].

Lemma crawl_parameters_witness :
  create_params demo_request (derived_params demo_answer) = mkParams (JArr [JStr "blog/.*"]) JNull (JNum 3) 10 /\
  0 < p_max_pages (create_params demo_request (derived_params demo_answer)) <= 10.
Proof.
  split; [reflexivity|]. destruct (crawl_parameters demo_request demo_answer) as (H & _).
  apply (H 10); [left; reflexivity|lia].
Defined.

Lemma requested_cap_holds_witness :
  let s := demo_run (demo_options 10 sitemap_skip) [mkItem "https://h.org/" 0 false] [Dispatch; EScraped 0 (ScrapeResult (demo_ok "one")); EHtml 0 None] in
  length (pages s) = 1%nat /\ Z.of_nat (length (pages s)) <= 10.
Proof.
  split; [vm_compute; reflexivity|].
  apply (requested_cap_holds (demo_options 10 sitemap_skip) (fun _ _ => None) demo_dns (fun m => "h" +:+ m) "h.org" _ _ demo_request demo_answer 10);
    [reflexivity|left; reflexivity|lia].
Defined.

(** The stream of [CrawlStream], completed and replayed. *)
Definition demo_done : list action :=
  demo_acts ++ [Next demo_tick; CrawlStream.Item; Next demo_tick; CrawlStream.Item; Next demo_tick; Next demo_tick].

Lemma pages_paginated_witness :
  get_job "j" (db (demo_stream demo_done)) = Some (default demo_meta (get_meta "j" (db (demo_stream demo_done))), get_data "j" (db (demo_stream demo_done))) /\
  follow 1 (job_pages (get_data "j" (db (demo_stream demo_done)))) 0 = Some (r_pages demo_result).
Proof.
  assert (H : get_job "j" (db (demo_stream demo_done)) =
    Some (default demo_meta (get_meta "j" (db (demo_stream demo_done))), get_data "j" (db (demo_stream demo_done)))) by (vm_compute; reflexivity).
  split; [exact H|]. destruct (pages_paginated "https://api/v2/crawl/j" "j" (db (demo_stream demo_done)) _ _ 0 H) as (_ & F & E).
  rewrite E in F. revert F. vm_compute. intros F. exact F.
Defined.

Lemma replay_matches_stream_witness :
  exists l, stream_crawl "j" (db (demo_stream demo_done)) = Some l /\ page_events l = page_events (sent (demo_stream demo_done)) /\
    length (page_events (sent (demo_stream demo_done))) = 2%nat.
Proof.
  destruct (get_data "j" (db (demo_stream demo_done))) as [dd|] eqn:D; [|exfalso; revert D; vm_compute; discriminate].
  destruct (replay_matches_stream (fun j => j) (Some demo_ctx) "j" "https://site.org" 10 demo_running demo_done 5 demo_result "completed" 1500
    (db (demo_stream demo_done)) (default demo_meta (get_meta "j" (db (demo_stream demo_done)))) dd) as (l & E & P & _).
  - apply last_Some_elem_of. vm_compute. reflexivity.
  - vm_compute. reflexivity.
  - rewrite <- D. vm_compute. reflexivity.
  - revert D. vm_compute. intros [= <-]. reflexivity.
  - exists l. split; [exact E|]. split; [exact P|]. vm_compute. reflexivity.
Defined.

(** *** What the model shows of the code *)

(** The documentation of the endpoint promises the future events of a crawl that is
    running; the stream ends at once, with an event that says it is done. *)
Lemma replay_of_running_job_ends :
  option_map (fun l => last (payloads l)) (stream_crawl "j" demo_running)
  = Some (Some (replay_done "j" "processing" [] (JNum 0) (JNum 0))).
Proof. vm_compute. reflexivity. Qed.

(** A failed crawl is announced under another key than in the live stream. *)
Lemma replayed_failure_key :
  option_map (fun l => last (payloads l)) (stream_crawl "j" (fst (fail_job None "j" "boom" None 0 "t3" demo_running)))
  = Some (Some (JObj [("type", JStr "error"); ("content", JStr "boom")])).
Proof. vm_compute. reflexivity. Qed.
