(* ===== verification/BatchScrape.v ===== *)
(** * Batch scrapes ([_process_batch_scrape_async] of [src/agent-svc/agent/worker.py])

    A batch scrape runs a fixed number of workers over a queue of numbered URLs that
    ends with one sentinel for each worker.  Results are kept by number, so that they
    can be listed in the order of the request although they arrive in any order.  The
    state machine [act] has a step for each point where a coroutine waits: a worker
    that gets an item of the queue, the answer of a scrape, the main coroutine that is
    woken when a worker has ended, its cancellation; other steps are the cancel token
    and any operation of somebody else on the job store.

    A worker ends by a sentinel, by a cancellation, or by an exception in the handling
    of an answer that is not the dictionary it expects; the latter is logged and the
    batch goes on without this worker.

    The theorems: whatever the interleaving, a batch that returns lists for every URL
    what its one scrape was answered, in the order of the request, as if the URLs had
    been scraped one after another; never more scrapes are under way than the request
    and the admission budget allow, and none begins after a cancellation; no worker ever
    waits for an item in vain, so that a batch ends after a bounded number of steps.

    Timestamps are given with the answers; the representation of a value in an error
    message is an argument. *)

From S2P Require Import Prelude Strings Json Barrier Admission Valkey JobStore.

(** What a scrape raises or returns. *)
Inductive cancellation := JobCancelled | TaskCancelled.
Inductive scraped := Answered (r : json) | Failed_ (msg : string) | Interrupted (e : cancellation).

(** How the work function of the batch ends. *)
Inductive ending := Returned (payload : json) | Raised (e : cancellation).

(** ** One answer *)

(** What the handling of an answer leaves behind; [i_lives] is false when an exception
    has ended the worker. *)
Record item := mkItem { i_page : option json; i_error : option json; i_index : option json; i_lives : bool }.

Definition died (page : option json) : item := mkItem page None None false.

Definition error_entry (url error error_type error_code timestamp : json) : json :=
  JObj [("url", url); ("error", error); ("error_type", error_type); ("error_code", error_code); ("timestamp", timestamp)].

(** [v[:2000]]. *)
Definition head2000 (v : json) : option json :=
  match v with
  | JStr s => Some (JStr (String.substring 0 2000 s))
  | JArr l => Some (JArr (take 2000 l))
  | _ => None
  end.

Definition dict (j : json) : option (list (string * json)) := match j with JObj o => Some o | _ => None end.

Section Answer.
Context (repr : json -> string).

Definition barrier_message (r block : json) : string :=
  "Barrier/challenge content detected (warning=" +:+ repr (jget r "warning") +:+ ", block_detected=" +:+ repr block +:+ ")".

(** What is indexed of a page, after the page was recorded. *)
Definition index_entry (url : string) (data : json) : option json :=
  let metadata := jor (jget data "metadata") (JObj []) in
  _ ← dict metadata;
  let og := jor (jget metadata "og") (JObj []) in
  let meta := jor (jget metadata "meta") (JObj []) in
  _ ← dict og;
  let title := jget og "title" in
  title ← (if truthy title then Some title
           else _ ← dict meta; Some (jor (jget meta "title") (jget_default data "title" (JStr ""))));
  content ← head2000 (jget_default data "markdown" (JStr ""));
  Some (JObj [("url", JStr url); ("title", title); ("content", content)]).

(** The [else] clause of the [try] around a scrape. *)
Definition on_answer (url ts : string) (r : json) : item :=
  match is_barrier_flagged r with
  | None => died None
  | Some true =>
      match block_detected r with
      | None => died None
      | Some block =>
          mkItem None (Some (error_entry (JStr url) (JStr (barrier_message r block)) (JStr "barrier_detected") (JStr "BARRIER_DETECTED") (JStr ts)))
            None true
      end
  | Some false =>
      match r with
      | JObj o =>
          if truthy (jget r "success") then
            match assoc "data" o with
            | Some (JObj d) =>
                let data := JObj d in
                let page := JObj [("url", JStr url); ("markdown", jget_default data "markdown" (JStr ""))] in
                match index_entry url data with
                | Some e => mkItem (Some page) None (Some e) true
                | None => died (Some page)
                end
            | _ => died None
            end
          else
            let code := jor (jget r "error_code") (JStr "SCRAPE_ERROR") in
            let captcha := match code with JStr s => String.eqb s "CAPTCHA_UNRESOLVED" | _ => false end in
            mkItem None
              (Some (error_entry (JStr url) (jget_default r "error" (JStr "Scrape failed"))
                       (JStr (if captcha then "captcha_unresolved" else "scrape_error")) code (JStr ts))) None true
      | _ => died None
      end
  end.

(** What one scrape contributes. *)
Definition handle (url ts : string) (o : scraped) : option item :=
  match o with
  | Interrupted _ => None
  | Failed_ msg =>
      Some (mkItem None (Some (error_entry (JStr url) (JStr msg) (JStr "scrape_error") (JStr "SCRAPE_ERROR") (JStr ts))) None true)
  | Answered r => Some (on_answer url ts r)
  end.

End Answer.

(** [effective_concurrency]. *)
Definition effective_concurrency (max_concurrency light_fetch_budget : Z) : nat :=
  Z.to_nat (if light_fetch_budget <=? 0 then Z.max 1 max_concurrency else Z.max 1 (Z.min max_concurrency light_fetch_budget)).

(** ** The pool *)

Inductive phase :=
| Idle                               (* at [queue.get] *)
| Fetching (index : nat) (url : string)
| Stopped                            (* by a sentinel *)
| Cancelled_ (e : cancellation)
| Died
| Killed.                            (* cancelled by the main coroutine *)

Inductive action :=
| Take (w : nat)
| Answer_ (w : nat) (o : scraped) (ts : string)
| Main
| CancelMain
| SetToken
| StoreOp (o : op).

Section Pool.
Context {DB : Type} `{!Valkey key value DB}.
Context (cjson : json -> json) (repr : json -> string) (job : string) (urls : list string) (concurrency : nat).

Record Pool := mkPool {
  db : DB;
  token : bool;
  queue : list (option (nat * string));
  workers : list phase;
  pages_by_index : gmap nat json;
  errors_by_index : gmap nat json;
  index_batch_by_index : gmap nat json;
  ended : option ending;
  answers : list (nat * (string * string * scraped))      (* the scrapes that were answered, the last one first *)
}.

Definition is_cancelled (d : DB) : bool :=
  match get_job job d with Some (m, _) => bool_decide (status m = cancelled) | None => false end.

(** The start of the work function, with a status that is not cancelled. *)
Definition init (d : DB) : Pool :=
  mkPool d false ((Some <$> imap (fun i u => (i, u)) urls) ++ replicate concurrency None) (replicate concurrency Idle) ∅ ∅ ∅
    (if is_cancelled d then Some (Raised JobCancelled) else None) [].

Definition with_worker (w : nat) (p : phase) (s : Pool) : Pool :=
  mkPool (db s) (token s) (queue s) (<[w := p]> (workers s)) (pages_by_index s) (errors_by_index s) (index_batch_by_index s) (ended s) (answers s).

Definition with_queue (q : list (option (nat * string))) (s : Pool) : Pool :=
  mkPool (db s) (token s) q (workers s) (pages_by_index s) (errors_by_index s) (index_batch_by_index s) (ended s) (answers s).

Definition with_db (d : DB) (s : Pool) : Pool :=
  mkPool d (token s) (queue s) (workers s) (pages_by_index s) (errors_by_index s) (index_batch_by_index s) (ended s) (answers s).

(** [[m[i] for i in sorted(m)]], for keys that are numbers of URLs. *)
Definition in_order (m : gmap nat json) : list json := omap (fun i => m !! i) (seq 0 (length urls)).

(** The item of the queue is the worker's: the end of it, the checks, or the scrape. *)
Definition take_item (w : nat) (s : Pool) : Pool :=
  match queue s with
  | [] => s
  | None :: q => with_worker w Stopped (with_queue q s)
  | Some (i, u) :: q =>
      if token s || is_cancelled (db s) then with_worker w (Cancelled_ JobCancelled) (with_queue q s)
      else with_worker w (Fetching i u) (with_queue q s)
  end.

Definition set_opt (i : nat) (o : option json) (m : gmap nat json) : gmap nat json :=
  match o with Some x => <[i := x]> m | None => m end.

(** The results of an item are recorded. *)
Definition record_item (i : nat) (x : item) (s : Pool) : Pool :=
  mkPool (db s) (token s) (queue s) (workers s) (set_opt i (i_page x) (pages_by_index s)) (set_opt i (i_error x) (errors_by_index s))
    (set_opt i (i_index x) (index_batch_by_index s)) (ended s) (answers s).

Definition progress (s : Pool) : Pool :=
  with_db (update_job_progress job (JArr (in_order (pages_by_index s))) (Some (Z.of_nat (length urls)))
             (JArr (in_order (errors_by_index s))) (JArr []) None (db s)) s.

Definition log_answer (i : nat) (u ts : string) (o : scraped) (s : Pool) : Pool :=
  mkPool (db s) (token s) (queue s) (workers s) (pages_by_index s) (errors_by_index s) (index_batch_by_index s) (ended s) ((i, (u, ts, o)) :: answers s).

(** The answer of a scrape. *)
Definition answer (w i : nat) (u : string) (o : scraped) (ts : string) (s : Pool) : Pool :=
  let s := log_answer i u ts o s in
  match handle repr u ts o with
  | None => with_worker w (Cancelled_ match o with Interrupted e => e | _ => TaskCancelled end) s
  | Some x =>
      let s := record_item i x s in
      if i_lives x then
        let s := match i_index x with Some _ => with_db (fst (increment_completed job (db s))) s | None => s end in
        with_worker w Idle (progress s)
      else with_worker w Died s
  end.

Definition is_over (p : phase) : bool := match p with Idle | Fetching _ _ => false | _ => true end.

(** The cancellation a worker has raised. *)
Definition raised (l : list phase) : option cancellation :=
  head (omap (fun p => match p with Cancelled_ e => Some e | _ => None end) l).

Definition result_payload (s : Pool) : json :=
  JObj [("completed", JNum (get_completed job (db s))); ("total", JNum (Z.of_nat (length urls)));
        ("pages", JArr (in_order (pages_by_index s))); ("errors", JArr (in_order (errors_by_index s)))].

Definition kill (l : list phase) : list phase := (fun p => if is_over p then p else Killed) <$> l.

Definition finish (e : ending) (s : Pool) : Pool :=
  mkPool (db s) (token s) (queue s) (kill (workers s)) (pages_by_index s) (errors_by_index s) (index_batch_by_index s) (Some e) (answers s).

(** The main coroutine after [asyncio.wait]. *)
Definition main (s : Pool) : Pool :=
  match raised (workers s) with
  | Some e => finish (Raised e) s
  | None => if forallb is_over (workers s) then finish (Returned (result_payload s)) s else s
  end.

Definition act (s : Pool) (a : action) : Pool :=
  match a with
  | StoreOp o => with_db (step cjson (db s) o) s
  | SetToken => mkPool (db s) true (queue s) (workers s) (pages_by_index s) (errors_by_index s) (index_batch_by_index s) (ended s) (answers s)
  | _ =>
      match ended s with
      | Some _ => s
      | None =>
          match a with
          | Take w => match workers s !! w with Some Idle => take_item w s | _ => s end
          | Answer_ w o ts => match workers s !! w with Some (Fetching i u) => answer w i u o ts s | _ => s end
          | Main => main s
          | CancelMain => finish (Raised TaskCancelled) s
          | _ => s
          end
      end
  end.

Definition batch_run (d : DB) (l : list action) : Pool := run_ops act (init d) l.

End Pool.
Arguments Pool DB : clear implicits.

#[export] Instance cancellation_eq_dec : EqDecision cancellation. Proof. solve_decision. Defined.
#[export] Instance phase_eq_dec : EqDecision phase. Proof. solve_decision. Defined.

(** ** Facts *)

(** A worker changes its phase: what stays is the same. *)
Lemma worker_update (l : list phase) w p q : l !! w = Some p -> exists l', l ≡ₚ p :: l' /\ <[w := q]> l ≡ₚ q :: l'.
Proof.
  intros H. exists (take w l ++ drop (S w) l). pose proof (lookup_lt_Some _ _ _ H) as L. split.
  - rewrite <- (take_drop_middle l w p H) at 1. symmetry. apply Permutation_middle.
  - rewrite insert_take_drop by done. symmetry. apply Permutation_middle.
Qed.

Definition in_flight (l : list phase) : list nat := omap (fun p => match p with Fetching i _ => Some i | _ => None end) l.
Definition is_stopped (p : phase) : bool := match p with Stopped => true | _ => false end.
Definition stopped (l : list phase) : nat := length (List.filter is_stopped l).
Definition unbroken (l : list phase) : Prop := forall e, Cancelled_ e ∉ l.

#[export] Instance in_flight_proper : Proper ((≡ₚ) ==> (≡ₚ)) in_flight.
Proof. intros l1 l2 H. unfold in_flight. by rewrite H. Qed.

#[export] Instance stopped_proper : Proper ((≡ₚ) ==> (=)) stopped.
Proof. intros l1 l2 H. unfold stopped. induction H as [|x l1 l2 H IH|x y l|l1 l2 l3 H1 IH1 H2 IH2]; cbn; repeat case_match; cbn; congruence. Qed.

#[export] Instance unbroken_proper : Proper ((≡ₚ) ==> iff) unbroken.
Proof. intros l1 l2 H. unfold unbroken. by setoid_rewrite H. Qed.

Lemma stopped_cons p l : stopped (p :: l) = ((if is_stopped p then 1 else 0) + stopped l)%nat.
Proof. unfold stopped. cbn. by destruct (is_stopped p). Qed.

Lemma unbroken_cons p l : unbroken (p :: l) -> unbroken l.
Proof. intros H e He. apply (H e). by right. Qed.

Lemma stopped_le l : (stopped l <= length l)%nat.
Proof. unfold stopped. apply List.filter_length_le. Qed.

(** An answer that does not end its worker is a page or an error, and not both; only a
    page is indexed; and it is no challenge page. *)
Lemma handle_alive repr url ts o x : handle repr url ts o = Some x -> i_lives x = true ->
  match i_page x, i_error x with
  | Some p, None => is_Some (i_index x) /\ exists r, o = Answered r /\ is_barrier_flagged r = Some false
  | None, Some _ => i_index x = None
  | _, _ => False
  end.
Proof.
  destruct o as [r|msg|e]; cbn; [|by intros [= <-]|done]. intros [= <-]. unfold on_answer, died.
  destruct (is_barrier_flagged r) as [[]|] eqn:B; [by destruct (block_detected r)| |done].
  destruct r as [| | | | |o]; try done. destruct (truthy _); [|done].
  destruct (assoc "data" o) as [[]|]; try done. destruct (index_entry _ _); [|done]. cbn. intros _. split; [done|]. by eexists.
Qed.

(** Even of a worker that an answer ends, only the page of no challenge is kept. *)
Lemma handle_page repr url ts o x p : handle repr url ts o = Some x -> i_page x = Some p -> exists r, o = Answered r /\ is_barrier_flagged r = Some false.
Proof.
  destruct o as [r|msg|e]; cbn; [|by intros [= <-]|done]. intros [= <-]. unfold on_answer, died.
  destruct (is_barrier_flagged r) as [[]|] eqn:B; [by destruct (block_detected r)|by eexists|done].
Qed.

Section Invariant.
Context {DB : Type} `{!Valkey key value DB}.
Context (cjson : json -> json) (repr : json -> string) (job : string) (urls : list string) (concurrency : nat).

Definition numbered : list (nat * string) := imap (fun i u => (i, u)) urls.

Definition handled (a : string * string * scraped) : option item := let '(u, ts, o) := a in handle repr u ts o.

Notation answered := (nat * (string * string * scraped))%type.

Definition got (l : list answered) (i : nat) : option item :=
  match (list_to_map l : gmap nat (string * string * scraped)) !! i with Some a => handled a | None => None end.

(** [t] items were taken. *)
Record inv (t : nat) (q : list (option (nat * string))) (ws : list phase) (l : list answered) (pages errors : gmap nat json) : Prop := {
  v_queue : q = (Some <$> drop t numbered) ++ replicate (concurrency - stopped ws) None;
  v_taken : (t <= length urls)%nat;
  v_len : length ws = concurrency;
  v_stop : (0 < stopped ws)%nat -> t = length urls;
  v_nodup : NoDup (in_flight ws ++ l.*1);
  v_below : forall i, i ∈ in_flight ws ++ l.*1 -> (i < t)%nat;
  v_urls : forall i u, Fetching i u ∈ ws -> urls !! i = Some u;
  v_answers : forall i a, (i, a) ∈ l -> urls !! i = Some (fst (fst a));
  v_all : unbroken ws -> length (in_flight ws ++ l.*1) = t /\ Forall (fun a => is_Some (handled (snd a))) l;
  v_lives : Died ∉ ws -> Forall (fun a => forall x, handled (snd a) = Some x -> i_lives x = true) l;
  v_nokill : Killed ∉ ws;
  v_pages : forall i, pages !! i = got l i ≫= i_page;
  v_errors : forall i, errors !! i = got l i ≫= i_error
}.

Definition pool_inv (t : nat) (s : Pool DB) : Prop := inv t (queue s) (workers s) (answers s) (pages_by_index s) (errors_by_index s).

Lemma inv_perm t q ws ws' l pages errors : ws ≡ₚ ws' -> inv t q ws l pages errors -> inv t q ws' l pages errors.
Proof.
  intros P [I1 I2 I3 I4 I5 I6 I7 I8 I9 I10 I11 I12 I13].
  split; try done; try setoid_rewrite <- P; done.
Qed.

Lemma idle_flight n : in_flight (replicate n Idle) = [] /\ stopped (replicate n Idle) = 0%nat.
Proof. induction n; done. Qed.

Lemma pool_init_inv d : pool_inv 0 (init job urls concurrency d).
Proof.
  assert (W : forall p, p ∈ replicate concurrency Idle -> p = Idle) by (intros p ?%elem_of_replicate; tauto).
  destruct (idle_flight concurrency) as [F S0].
  split; cbn [init queue workers answers pages_by_index errors_by_index]; rewrite ?F, ?S0; cbn.
  - by rewrite Nat.sub_0_r, drop_0.
  - lia.
  - apply length_replicate.
  - lia.
  - constructor.
  - by intros i ?%not_elem_of_nil.
  - intros i u Hi%W. done.
  - by intros i a ?%not_elem_of_nil.
  - done.
  - done.
  - by intros Hi%W.
  - done.
  - done.
Qed.

Lemma numbered_drop t : (t < length urls)%nat -> exists u, urls !! t = Some u /\ drop t numbered = (t, u) :: drop (S t) numbered.
Proof.
  intros H. destruct (lookup_lt_is_Some_2 urls t H) as [u Hu]. exists u. split; [done|]. apply drop_S. unfold numbered.
  by rewrite list_lookup_imap, Hu.
Qed.

(** An idle worker finds an item or a sentinel. *)
Lemma idle_queue t q ws' l pages errors : inv t q (Idle :: ws') l pages errors ->
  match q with
  | [] => False
  | None :: _ => t = length urls
  | Some (i, u) :: _ => i = t /\ urls !! t = Some u /\ (t < length urls)%nat
  end.
Proof.
  intros [I1 I2 I3 _ _ _ _ _ _ _ _ _ _]. destruct (decide (t < length urls)%nat) as [Ht|Ht].
  - destruct (numbered_drop t Ht) as (u & Hu & D). by rewrite I1, D.
  - rewrite I1, drop_ge by (unfold numbered; rewrite length_imap; lia). cbn in I3. rewrite stopped_cons. cbn.
    pose proof (stopped_le ws'). destruct (concurrency - stopped ws')%nat eqn:E; [lia|]. cbn. lia.
Qed.

Lemma pool_stop_inv t q ws' l pages errors : inv t (None :: q) (Idle :: ws') l pages errors -> inv t q (Stopped :: ws') l pages errors.
Proof.
  intros I. pose proof (idle_queue _ _ _ _ _ _ I) as T. destruct I as [I1 I2 I3 I4 I5 I6 I7 I8 I9 I10 I11 I12 I13]. cbn in T. subst t.
  split; try done.
  - rewrite drop_ge in * by (unfold numbered; rewrite length_imap; lia). rewrite stopped_cons in *. cbn in *.
    pose proof (stopped_le ws'). replace (concurrency - stopped ws')%nat with (S (concurrency - S (stopped ws'))) in I1 by lia. by inversion I1.
  - intros i u Hi. apply I7. set_solver.
  - intros B. apply I9. intros e He. apply (B e). set_solver.
  - intros B. apply I10. set_solver.
  - set_solver.
Qed.

Lemma inv_take t u q ws' l pages errors p : inv t (Some (t, u) :: q) (Idle :: ws') l pages errors ->
  p = Fetching t u \/ (exists e, p = Cancelled_ e) -> inv (S t) q (p :: ws') l pages errors.
Proof.
  intros I Hp. pose proof (idle_queue _ _ _ _ _ _ I) as (_ & Hu & Ht). destruct I as [I1 I2 I3 I4 I5 I6 I7 I8 I9 I10 I11 I12 I13].
  destruct (numbered_drop t Ht) as (u' & Hu' & D). rewrite D in I1. cbn in I1. injection I1 as -> I1.
  assert (S0 : stopped (p :: ws') = stopped (Idle :: ws')) by (rewrite !stopped_cons; by destruct Hp as [->|[e ->]]).
  assert (F : in_flight (p :: ws') = in_flight ws' \/ in_flight (p :: ws') = t :: in_flight ws') by (destruct Hp as [->|[e ->]]; auto).
  assert (N : t ∉ in_flight ws' ++ l.*1) by (intros Hi; specialize (I6 t Hi); lia).
  split; try done.
  - by rewrite S0.
  - rewrite S0. intros Hs. specialize (I4 Hs). lia.
  - destruct F as [->| ->]; [done|]. cbn. by constructor.
  - intros i. destruct F as [->| ->]; [intros Hi; specialize (I6 i Hi); lia|].
    cbn. rewrite elem_of_cons. intros [->|Hi]; [lia|]. specialize (I6 i Hi). lia.
  - intros i v [Hi|Hi]%elem_of_cons; [|apply I7; by right]. destruct Hp as [->|[e ->]]; by simplify_eq.
  - intros B. destruct Hp as [->|[e ->]]; [|exfalso; apply (B e); by left].
    destruct I9 as [L H]; [intros e He; apply (B e); set_solver|]. split; [|done]. cbn in *. by rewrite L.
  - intros B. apply I10. set_solver.
  - destruct Hp as [->|[e ->]]; set_solver.
Qed.

Lemma got_cons l i a j : i ∉ l.*1 -> got ((i, a) :: l) j = if decide (j = i) then handled a else got l j.
Proof.
  intros _. unfold got. cbn. case_decide as E; [subst; by rewrite lookup_insert_eq|]. by rewrite lookup_insert_ne.
Qed.

Lemma got_fresh l i : i ∉ l.*1 -> got l i = None.
Proof. intros H. unfold got. by rewrite (not_elem_of_list_to_map_1 l i H). Qed.

Lemma set_opt_spec (f : item -> option json) (m : gmap nat json) l i a :
  i ∉ l.*1 -> (forall j, m !! j = got l j ≫= f) ->
  forall j, set_opt i (handled a ≫= f) m !! j = got ((i, a) :: l) j ≫= f.
Proof.
  intros N H j. rewrite got_cons by done. case_decide as E.
  - subst j. destruct (handled a ≫= f) eqn:Ha; cbn; [by rewrite lookup_insert_eq|]. by rewrite H, got_fresh.
  - destruct (handled a ≫= f); cbn; [rewrite lookup_insert_ne by done|]; apply H.
Qed.

(** The phase of a worker after an answer. *)
Definition phase_after (a : string * string * scraped) (p : phase) : Prop :=
  match handled a with
  | None => exists e, p = Cancelled_ e
  | Some x => p = (if i_lives x then Idle else Died)
  end.

Lemma inv_answer t q i u ws' l pages errors ts o p : inv t q (Fetching i u :: ws') l pages errors -> phase_after (u, ts, o) p ->
  inv t q (p :: ws') ((i, (u, ts, o)) :: l) (set_opt i (handled (u, ts, o) ≫= i_page) pages) (set_opt i (handled (u, ts, o) ≫= i_error) errors).
Proof.
  intros [I1 I2 I3 I4 I5 I6 I7 I8 I9 I10 I11 I12 I13] Hp. set (a := (u, ts, o)) in *.
  assert (Q : p = Idle \/ p = Died \/ exists e, p = Cancelled_ e).
  { unfold phase_after in Hp. destruct (handled a) as [x|]; [destruct (i_lives x)|]; auto. }
  assert (S0 : stopped (p :: ws') = stopped (Fetching i u :: ws')) by (rewrite !stopped_cons; by destruct Q as [->|[->|[e ->]]]).
  assert (F : in_flight (p :: ws') = in_flight ws') by (by destruct Q as [->|[->|[e ->]]]).
  assert (E : in_flight ws' ++ i :: l.*1 ≡ₚ in_flight (Fetching i u :: ws') ++ l.*1) by (cbn; symmetry; apply Permutation_middle).
  assert (N : i ∉ l.*1) by (cbn in I5; inversion I5; set_solver).
  split; try done; rewrite ?S0, ?F; cbn [fmap list_fmap fst]; try done.
  - by rewrite E.
  - intros j Hj. rewrite E in Hj. by apply I6.
  - intros j v [Hj|Hj]%elem_of_cons; [|apply I7; by right]. destruct Q as [->|[->|[e ->]]]; done.
  - intros j b [Hj|Hj]%elem_of_cons; [|by apply I8]. simplify_eq. apply I7. by left.
  - intros B. destruct I9 as [L H]; [intros e He; apply (B e); set_solver|]. split; [by rewrite E|]. constructor; [|done].
    cbn [snd]. unfold phase_after in Hp. destruct (handled a); [done|]. destruct Hp as [e ->]. exfalso. apply (B e). by left.
  - intros B. constructor; [|apply I10; set_solver]. cbn [snd]. intros x Hx. unfold phase_after in Hp. rewrite Hx in Hp.
    destruct (i_lives x); [done|]. subst p. exfalso. apply B. by left.
  - destruct Q as [->|[->|[e ->]]]; set_solver.
  - by apply set_opt_spec.
  - by apply set_opt_spec.
Qed.

(** *** Steps of the pool *)

Notation pact := (act cjson repr job urls).

Definition payload_of (n : Z) (s : Pool DB) : json :=
  JObj [("completed", JNum n); ("total", JNum (Z.of_nat (length urls)));
        ("pages", JArr (in_order urls (pages_by_index s))); ("errors", JArr (in_order urls (errors_by_index s)))].

Definition sound (s : Pool DB) : Prop :=
  match ended s with
  | None => exists t, pool_inv t s
  | Some (Returned p) => (exists t, pool_inv t s) /\ forallb is_over (workers s) = true /\ raised (workers s) = None /\ exists n, p = payload_of n s
  | Some (Raised _) => length (workers s) = concurrency /\ in_flight (workers s) = [] /\ NoDup (answers s).*1
  end.

Lemma take_item_inv w t s : pool_inv t s -> workers s !! w = Some Idle -> exists t', pool_inv t' (take_item job w s).
Proof.
  intros I Hw. unfold take_item.
  assert (U : forall p, exists ws', workers s ≡ₚ Idle :: ws' /\ <[w := p]> (workers s) ≡ₚ p :: ws') by (intros p; by apply worker_update).
  destruct (queue s) as [|[[i u]|] q] eqn:Q; [by exists t| |].
  - assert (H : forall p, p = Fetching t u \/ (exists e, p = Cancelled_ e) -> inv (S t) q (<[w := p]> (workers s)) (answers s) (pages_by_index s) (errors_by_index s) /\ i = t).
    { intros p Hp. destruct (U p) as (ws' & P1 & P2). red in I. rewrite Q in I. apply (inv_perm _ _ _ _ _ _ _ P1) in I.
      pose proof (idle_queue _ _ _ _ _ _ I) as (-> & _). split; [|done]. apply (inv_perm _ _ (p :: ws')); [done|]. by eapply inv_take. }
    destruct (H (Cancelled_ JobCancelled)) as [H1 ->]; [eauto|]. exists (S t).
    destruct (token s || is_cancelled job (db s)); [exact H1|]. apply (H (Fetching t u)). by left.
  - destruct (U Stopped) as (ws' & P1 & P2). red in I. rewrite Q in I. apply (inv_perm _ _ _ _ _ _ _ P1) in I.
    exists t. apply (inv_perm _ _ (Stopped :: ws')); [done|]. by apply pool_stop_inv.
Qed.

Lemma answer_inv w i u o ts t s : pool_inv t s -> workers s !! w = Some (Fetching i u) -> pool_inv t (answer repr job urls w i u o ts s).
Proof.
  intros I Hw. destruct (worker_update _ _ _ Idle Hw) as (ws' & P1 & _). apply (inv_perm _ _ _ _ _ _ _ P1) in I.
  assert (H : forall p, phase_after (u, ts, o) p ->
    inv t (queue s) (<[w := p]> (workers s)) ((i, (u, ts, o)) :: answers s) (set_opt i (handled (u, ts, o) ≫= i_page) (pages_by_index s))
      (set_opt i (handled (u, ts, o) ≫= i_error) (errors_by_index s))).
  { intros p Hp. destruct (worker_update _ _ _ p Hw) as (ws2 & Q1 & Q2). apply (inv_perm _ _ (p :: ws2)); [done|].
    apply inv_answer; [|done]. eapply inv_perm; [|exact I]. by rewrite <- P1, Q1. }
  unfold answer, pool_inv. unfold phase_after, handled in H. destruct (handle repr u ts o) as [x|]; cbn in H |- *.
  - destruct (i_lives x) eqn:L; cbn; [|by apply H]. destruct (i_index x); by apply H.
  - apply H. eauto.
Qed.

Lemma kill_over l : forallb is_over l = true -> kill l = l.
Proof. unfold kill. induction l as [|p l IH]; [done|]. cbn. intros [-> H]%andb_true_iff. by rewrite IH. Qed.

Lemma kill_flight l : in_flight (kill l) = [] /\ length (kill l) = length l.
Proof. split; [|apply length_fmap]. induction l as [|p l IH]; [done|]. by destruct p. Qed.

Lemma finish_raised e t s : pool_inv t s -> sound (finish (Raised e) s).
Proof.
  intros I. unfold sound. cbn [finish ended workers answers]. destruct (kill_flight (workers s)) as [-> ->]. split_and!; [apply I|done|].
  apply v_nodup in I. by apply NoDup_app in I as (_ & _ & ?).
Qed.

Lemma act_sound s a : sound s -> sound (pact s a).
Proof.
  intros H. destruct a; try exact H; cbn; destruct (ended s) as [e|] eqn:E; try exact H; red in H; rewrite E in H; destruct H as [t I].
  - destruct (workers s !! w) as [[]|] eqn:Hw; try (red; rewrite E; by exists t). red.
    destruct (take_item_inv w t s I Hw) as [t' I']. unfold take_item in *. repeat case_match; cbn in *; simplify_eq; eauto; congruence.
  - destruct (workers s !! w) as [[]|] eqn:Hw; try (red; rewrite E; by exists t). red.
    assert (EE : ended (answer repr job urls w index url o ts s) = None).
    { unfold answer. destruct (handle repr url ts o) as [x|]; [|exact E]. destruct (i_lives x); [destruct (i_index x)|]; exact E. }
    rewrite EE. exists t. by apply answer_inv.
  - unfold main. destruct (raised (workers s)) as [e|] eqn:R; [by eapply finish_raised|].
    destruct (forallb is_over (workers s)) eqn:O; [|red; rewrite E; by exists t].
    unfold sound. cbn [finish ended workers]. rewrite (kill_over _ O). split_and!; [|done|done|by eexists].
    exists t. unfold pool_inv. cbn [finish queue workers answers pages_by_index errors_by_index]. by rewrite (kill_over _ O).
  - by eapply finish_raised.
Qed.

Lemma run_sound d l : sound (batch_run cjson repr job urls concurrency d l).
Proof.
  unfold batch_run. apply run_ops_invariant; [|apply act_sound]. red. cbn. destruct (is_cancelled job d).
  - pose proof (pool_init_inv d) as I. split_and!; [apply I|apply idle_flight|constructor].
  - exists 0%nat. apply pool_init_inv.
Qed.

(** *** The reference *)

(** Scraping the URLs one after another: what each answer contributes; [None] is a URL
    that was not scraped. *)
Definition one_by_one (outs : list (option (string * scraped))) : list item :=
  omap Datatypes.id (zip_with (fun u out => '(ts, o) ← out; handle repr u ts o) urls outs).

(** The answers by number. *)
Definition outcomes (l : list answered) : list (option (string * scraped)) :=
  (fun i => (fun a : string * string * scraped => (snd (fst a), snd a)) <$> (list_to_map l : gmap nat _) !! i) <$> seq 0 (length urls).

Lemma zip_seq {B C} (f : string -> B -> C) (h : nat -> B) k us :
  zip_with f us (h <$> seq k (length us)) = imap (fun i u => f u (h (k + i)%nat)) us.
Proof.
  revert k. induction us as [|u us IH]; intros k; [done|]. cbn. rewrite IH, Nat.add_0_r. f_equal. apply imap_ext. intros i x _. cbn. do 2 f_equal. lia.
Qed.

Lemma omap_seq_imap {B C} (g : nat -> option C) (f : nat -> string -> option B) (p : B -> option C) k us :
  (forall i u, us !! i = Some u -> g (k + i)%nat = f i u ≫= p) ->
  omap g (seq k (length us)) = omap p (omap Datatypes.id (imap f us)).
Proof.
  revert k f. induction us as [|u us IH]; intros k f H; [done|]. cbn. pose proof (H 0%nat u eq_refl) as H0. rewrite Nat.add_0_r in H0. rewrite H0.
  rewrite (IH (S k) (f ∘ S)); [by destruct (f 0%nat u)|]. intros i v Hv. specialize (H (S i) v Hv). cbn. rewrite <- H. f_equal. lia.
Qed.

Lemma in_order_one_by_one l (m : gmap nat json) (p : item -> option json) :
  (forall i a, (i, a) ∈ l -> urls !! i = Some (fst (fst a))) -> (forall i, m !! i = got l i ≫= p) ->
  in_order urls m = omap p (one_by_one (outcomes l)).
Proof.
  intros HU H. unfold in_order, one_by_one, outcomes. rewrite zip_seq. apply omap_seq_imap. intros i u Hu. rewrite H. cbn. unfold got.
  destruct ((list_to_map l : gmap nat (string * string * scraped)) !! i) as [[[u' ts] o]|] eqn:E; [|done].
  apply elem_of_list_to_map_2, HU in E. cbn in E |- *. by simplify_eq.
Qed.

Lemma outcomes_spec l i ts o : NoDup l.*1 -> (forall i a, (i, a) ∈ l -> urls !! i = Some (fst (fst a))) ->
  outcomes l !! i = Some (Some (ts, o)) <-> exists u, (i, (u, ts, o)) ∈ l.
Proof.
  intros N HU. unfold outcomes. rewrite list_lookup_fmap. split.
  - intros H. destruct (seq 0 (length urls) !! i) as [j|] eqn:E; [|done]. apply lookup_seq in E as [-> E]. cbn in H.
    destruct (list_to_map l !! i) as [[[u t] o']|] eqn:M; [|done]. cbn in H. simplify_eq. exists u. by apply elem_of_list_to_map_2.
  - intros [u Hu]. pose proof (HU _ _ Hu) as L%lookup_lt_Some. rewrite lookup_seq_lt by done. cbn.
    by rewrite (elem_of_list_to_map_1 l i _ N Hu).
Qed.

Lemma outcomes_length l : length (outcomes l) = length urls.
Proof. unfold outcomes. by rewrite length_fmap, length_seq. Qed.

(** When all the workers have ended and none was cancelled, they were stopped or died. *)
Lemma over_cases t s : pool_inv t s -> forallb is_over (workers s) = true -> raised (workers s) = None ->
  unbroken (workers s) /\ in_flight (workers s) = [] /\ forall p, p ∈ workers s -> p = Stopped \/ p = Died.
Proof.
  intros I O R.
  assert (U : unbroken (workers s)).
  { intros e He. unfold raised in R. apply head_None in R.
    assert (e ∈ (omap (fun p => match p with Cancelled_ e => Some e | _ => None end) (workers s))) as H by (apply list_elem_of_omap; by exists (Cancelled_ e)).
    rewrite R in H. by apply not_elem_of_nil in H. }
  rewrite forallb_forall in O. split_and!; [done| |].
  - destruct (in_flight (workers s)) as [|i l] eqn:E; [done|]. exfalso.
    assert (H : i ∈ in_flight (workers s)) by (rewrite E; by left). apply list_elem_of_omap in H as (p & Hp & Hi).
    apply list_elem_of_In, O in Hp. by destruct p.
  - intros p Hp. pose proof (O p (proj1 (list_elem_of_In _ _) Hp)) as OP. destruct p; try done; [auto|exfalso; by apply (U e)|auto|exfalso; by apply (v_nokill _ _ _ _ _ _ I)].
Qed.

(** An answer that leaves its worker alive. *)
Definition accounted (u : string) (out : option (string * scraped)) : Prop :=
  exists ts o x, out = Some (ts, o) /\ handle repr u ts o = Some x /\ i_lives x = true.

Lemma one_by_one_counts us outs : Forall2 accounted us outs ->
  let xs := omap Datatypes.id (zip_with (fun u out => '(ts, o) ← out; handle repr u ts o) us outs) in
  (length (omap i_page xs) + length (omap i_error xs))%nat = length us.
Proof.
  induction 1 as [|u out us outs (ts & o & x & -> & H & L) _ IH]; [done|]. cbn. rewrite H. cbn.
  pose proof (handle_alive _ _ _ _ _ H L) as A. destruct (i_page x), (i_error x); try done; cbn; rewrite <- IH; lia.
Qed.

(** Without a cancellation and with a live worker at the end, every URL was answered. *)
Lemma all_answered t s : (0 < concurrency)%nat -> pool_inv t s -> forallb is_over (workers s) = true -> raised (workers s) = None ->
  (t < length urls)%nat /\ Forall (eq Died) (workers s) \/ t = length urls /\ (answers s).*1 ≡ₚ seq 0 (length urls).
Proof.
  intros C I O R. destruct (over_cases t s I O R) as (U & F & P).
  destruct (decide (t < length urls)%nat) as [Ht|Ht].
  - left. split; [done|]. apply Forall_forall. intros p Hp. destruct (P p Hp) as [->|]; [|done]. exfalso.
    assert (0 < stopped (workers s))%nat as S0.
    { unfold stopped. apply list_elem_of_In in Hp. destruct (List.filter is_stopped (workers s)) eqn:E; [|cbn; lia].
      assert (In Stopped (List.filter is_stopped (workers s))) as H by (by apply filter_In). by rewrite E in H. }
    apply (v_stop _ _ _ _ _ _ I) in S0. lia.
  - right. pose proof (v_taken _ _ _ _ _ _ I). split; [lia|]. assert (t = length urls) as -> by lia.
    destruct (v_all _ _ _ _ _ _ I U) as [L _]. pose proof (v_nodup _ _ _ _ _ _ I) as N. pose proof (v_below _ _ _ _ _ _ I) as B.
    rewrite F in *. cbn in *. apply NoDup_Permutation_bis; [by apply NoDup_ListNoDup|rewrite length_seq; lia|].
    intros i Hi%list_elem_of_In. apply in_seq. specialize (B i Hi). lia.
Qed.

Lemma outcomes_all l : l.*1 ≡ₚ seq 0 (length urls) -> Forall is_Some (outcomes l).
Proof.
  intros P. apply Forall_forall. intros x Hx. unfold outcomes in Hx. apply list_elem_of_fmap in Hx as (i & -> & Hi).
  rewrite <- P in Hi. apply list_elem_of_fmap in Hi as ([j a] & -> & Hi).
  cbn [fst]. destruct ((list_to_map l : gmap nat (string * string * scraped)) !! j) as [b|] eqn:E; [by eexists|]. apply not_elem_of_list_to_map in E. exfalso. apply E. apply list_elem_of_fmap. by exists (j, a).
Qed.

Lemma accounted_all t s : pool_inv t s -> unbroken (workers s) -> Died ∉ workers s -> Forall is_Some (outcomes (answers s)) ->
  Forall2 accounted urls (outcomes (answers s)).
Proof.
  intros I U D A. apply Forall2_same_length_lookup_2; [by rewrite outcomes_length|]. intros i u out Hu Ho.
  rewrite Forall_lookup in A. destruct (A i out Ho) as [[ts o] ->].
  assert (N : NoDup (answers s).*1) by (pose proof (v_nodup _ _ _ _ _ _ I) as N; by apply NoDup_app in N as (_ & _ & ?)).
  apply (outcomes_spec _ _ _ _ N (v_answers _ _ _ _ _ _ I)) in Ho as [u' Ha].
  pose proof (v_answers _ _ _ _ _ _ I _ _ Ha) as Hu'. cbn in Hu'. simplify_eq.
  destruct (v_all _ _ _ _ _ _ I U) as [_ H]. rewrite Forall_forall in H. destruct (H _ Ha) as [x Hx].
  pose proof (v_lives _ _ _ _ _ _ I D) as L. rewrite Forall_forall in L. exists ts, o, x. split_and!; [done|exact Hx|by apply (L _ Ha)].
Qed.

(** *** Termination *)

(** The action is one that a coroutine of the batch is ready for. *)
Definition moves (s : Pool DB) (a : action) : bool :=
  match ended s, a with
  | None, Take w => match workers s !! w, queue s with Some Idle, _ :: _ => true | _, _ => false end
  | None, Answer_ w _ _ => match workers s !! w with Some (Fetching _ _) => true | _ => false end
  | None, Main => match raised (workers s) with Some _ => true | None => forallb is_over (workers s) end
  | _, _ => false
  end.

Fixpoint moved (s : Pool DB) (l : list action) : nat :=
  match l with
  | [] => 0
  | a :: l => (if moves s a then 1 else 0) + moved (pact s a) l
  end.

Definition left_over (s : Pool DB) : nat :=
  match ended s with Some _ => 0 | None => S (2 * length (queue s) + length (in_flight (workers s))) end.

Definition busy (p : phase) : nat := match p with Fetching _ _ => 1 | _ => 0 end.

Lemma flight_update (ws : list phase) w p q : ws !! w = Some p ->
  (length (in_flight (<[w := q]> ws)) + busy p = length (in_flight ws) + busy q)%nat.
Proof.
  intros H. destruct (worker_update _ _ _ q H) as (l' & P1 & P2). rewrite P2, P1. destruct p, q; cbn; lia.
Qed.

#[local] Arguments in_flight : simpl never.

Lemma answer_left w i u o ts s : workers s !! w = Some (Fetching i u) -> ended s = None -> (left_over (answer repr job urls w i u o ts s) < left_over s)%nat.
Proof.
  intros Hw E. assert (H : forall p, is_over p = true \/ p = Idle -> (length (in_flight (<[w := p]> (workers s))) < length (in_flight (workers s)))%nat).
  { intros p Hp. pose proof (flight_update _ _ _ p Hw) as F. cbn in F. destruct p; cbn in F; try lia. by destruct Hp. }
  unfold answer, left_over. destruct (handle repr u ts o) as [x|]; cbn; [destruct (i_lives x); [destruct (i_index x)|]|]; cbn; rewrite E.
  - specialize (H Idle (or_intror eq_refl)). lia.
  - specialize (H Idle (or_intror eq_refl)). lia.
  - specialize (H Died (or_introl eq_refl)). lia.
  - match goal with |- context [<[w := ?p]> _] => specialize (H p (or_introl eq_refl)) end. lia.
Qed.

Lemma act_left s a : ((if moves s a then 1 else 0) + left_over (pact s a) <= left_over s)%nat.
Proof.
  unfold moves. destruct (ended s) as [e|] eqn:E; [destruct a; cbn; rewrite ?E; unfold left_over; cbn; rewrite ?E; lia|].
  destruct a; cbn [act]; rewrite ?E; try (unfold left_over; cbn; rewrite ?E; lia).
  - destruct (workers s !! w) as [[]|] eqn:Hw; try lia. unfold take_item. destruct (queue s) as [|[[i u]|] q] eqn:Q; [lia| |].
    + pose proof (flight_update _ _ _ (Fetching i u) Hw) as F1. pose proof (flight_update _ _ _ (Cancelled_ JobCancelled) Hw) as F2. cbn in F1, F2.
      unfold left_over. destruct (token s || is_cancelled job (db s)); cbn; rewrite E, Q; cbn; lia.
    + pose proof (flight_update _ _ _ Stopped Hw) as F1. cbn in F1. unfold left_over. cbn. rewrite E, Q. cbn. lia.
  - destruct (workers s !! w) as [[]|] eqn:Hw; try lia. pose proof (answer_left w index url o ts s Hw E). lia.
  - unfold main. destruct (raised (workers s)); [unfold left_over; cbn; rewrite E; lia|].
    destruct (forallb is_over (workers s)); [unfold left_over; cbn; rewrite E; lia|lia].
Qed.

Lemma moved_left l s : (moved s l + left_over (run_ops pact s l) <= left_over s)%nat.
Proof.
  revert s. induction l as [|a l IH]; intros s; [done|]. cbn. specialize (IH (pact s a)). pose proof (act_left s a). unfold run_ops in *. lia.
Qed.

End Invariant.

Lemma effective_concurrency_bounds mc budget :
  (0 < effective_concurrency mc budget)%nat /\ Z.of_nat (effective_concurrency mc budget) <= Z.max 1 mc /\
  (0 < budget -> Z.of_nat (effective_concurrency mc budget) <= budget).
Proof. unfold effective_concurrency. case_match; lia. Qed.

Lemma in_flight_le l : (length (in_flight l) <= length l)%nat.
Proof. induction l as [|p l IH]; [done|]. unfold in_flight in *. cbn. destruct p; cbn; lia. Qed.

Lemma in_flight_insert ws w p i : i ∈ in_flight (<[w := p]> ws) -> i ∈ in_flight ws \/ exists u, p = Fetching i u.
Proof.
  intros (q & Hq & Hi)%list_elem_of_omap. apply list_elem_of_lookup in Hq as [k Hk]. apply list_lookup_insert_Some in Hk as [(_ & <- & _)|[_ Hk]].
  - destruct p; simplify_eq; eauto.
  - left. apply list_elem_of_omap. exists q. split; [by eapply list_elem_of_lookup_2|done].
Qed.

Section Theorems.
Context {DB : Type} `{!Valkey key value DB}.
Context (cjson : json -> json) (repr : json -> string) (job : string) (urls : list string) (mc budget : Z).

Definition batch (d : DB) (l : list action) : Pool DB := batch_run cjson repr job urls (effective_concurrency mc budget) d l.

(**  At any moment of a batch no more scrapes are under way than the request asks for
    (at least one) and the admission budget, if there is one, allows; no URL is scraped
    twice; and a scrape begins only while the batch runs, its token is not set and the
    job is not cancelled in the store. *)
Theorem batch_discipline d l a :
  let s := batch d l in
  Z.of_nat (length (in_flight (workers s))) <= Z.max 1 mc /\
  (0 < budget -> Z.of_nat (length (in_flight (workers s))) <= budget) /\
  NoDup (in_flight (workers s) ++ (answers s).*1) /\
  (forall i, i ∈ in_flight (workers (act cjson repr job urls s a)) ->
     i ∈ in_flight (workers s) \/ ended s = None /\ token s = false /\ is_cancelled job (db s) = false).
Proof.
  cbv zeta. set (s := batch d l). pose proof (run_sound cjson repr job urls (effective_concurrency mc budget) d l) as H. red in H.
  change (batch_run _ _ _ _ _ d l) with s in H.
  assert (L : length (workers s) = effective_concurrency mc budget /\ NoDup (in_flight (workers s) ++ (answers s).*1)).
  { destruct (ended s) as [[]|]; [destruct H as ([t I] & _)|destruct H as (L & F & N); by rewrite F|destruct H as [t I]]; split; apply I. }
  destruct L as [L N]. pose proof (in_flight_le (workers s)). destruct (effective_concurrency_bounds mc budget) as (C & C1 & C2). split_and!; [lia|lia|done|].
  intros i. destruct a; cbn [act]; try (cbn; tauto); destruct (ended s) eqn:E; try tauto.
  - destruct (workers s !! w) as [[]|]; try tauto. unfold take_item. destruct (queue s) as [|[[j u]|] q]; [tauto| |].
    + destruct (token s || is_cancelled job (db s)) eqn:T; cbn.
      * intros [?|[? ?]]%in_flight_insert; [tauto|done].
      * intros _. apply orb_false_iff in T. tauto.
    + cbn. intros [?|[? ?]]%in_flight_insert; [tauto|done].
  - destruct (workers s !! w) as [[]|]; try tauto. unfold answer. destruct (handle repr url ts o) as [x|]; [|intros [?|[? ?]]%in_flight_insert; [tauto|done]].
    destruct (i_lives x); [destruct (i_index x)|]; (intros [?|[? ?]]%in_flight_insert; [tauto|done]).
  - unfold main. destruct (raised (workers s)); [|destruct (forallb is_over (workers s)); [|tauto]]; cbn [finish workers];
      rewrite (proj1 (kill_flight (workers s))); by intros ?%not_elem_of_nil.
  - cbn [finish workers]. rewrite (proj1 (kill_flight (workers s))). by intros ?%not_elem_of_nil.
Qed.

(**  A batch ends.  While it runs some coroutine of it can take its next step, and a
    worker at the queue always can: there is an item or a sentinel for it.  And in any
    run its coroutines take at most twice as many steps as there are URLs and workers,
    and one. *)
Theorem batch_ends d l :
  (ended (batch d l) = None ->
     (exists a, moves (batch d l) a = true) /\ (forall w, workers (batch d l) !! w = Some Idle -> moves (batch d l) (Take w) = true)) /\
  (moved cjson repr job urls (init job urls (effective_concurrency mc budget) d) l <= 2 * (length urls + effective_concurrency mc budget) + 1)%nat.
Proof.
  split.
  - set (s := batch d l). intros E. pose proof (run_sound cjson repr job urls (effective_concurrency mc budget) d l) as H. red in H.
    change (batch_run _ _ _ _ _ d l) with s in H. rewrite E in H. destruct H as [t I].
    assert (W : forall w, workers s !! w = Some Idle -> moves s (Take w) = true).
    { intros w Hw. unfold moves. rewrite E, Hw. destruct (worker_update _ _ _ Idle Hw) as (ws' & P & _).
      pose proof (idle_queue _ _ _ _ _ _ _ _ _ (inv_perm _ _ _ _ _ _ _ _ _ _ P I)) as Q. by destruct (queue s). }
    split; [|done]. destruct (forallb is_over (workers s)) eqn:O; [exists Main; unfold moves; rewrite E; by destruct (raised (workers s))|].
    assert (exists p, p ∈ workers s /\ is_over p = false) as (p & Hp & Op).
    { clear -O. induction (workers s) as [|q ws IH]; [done|]. cbn in O. apply andb_false_iff in O as [O|O]; [exists q; split; [by left|done]|].
      destruct (IH O) as (p & ? & ?). exists p. split; [by right|done]. }
    apply list_elem_of_lookup in Hp as [w Hw]. destruct p as [|i u| | | |]; try done; [exists (Take w); by apply W|].
    exists (Answer_ w (Failed_ "") ""). unfold moves. by rewrite E, Hw.
  - pose proof (moved_left cjson repr job urls l (init job urls (effective_concurrency mc budget) d)) as M.
    assert (left_over (init job urls (effective_concurrency mc budget) d) <= 2 * (length urls + effective_concurrency mc budget) + 1)%nat; [|lia].
    unfold left_over, init. cbn [ended queue workers]. destruct (is_cancelled job d); [lia|].
    rewrite (proj1 (idle_flight _)), length_app, length_fmap, length_imap, length_replicate. cbn. lia.
Qed.

End Theorems.

(** ** Runs *)

Definition demo_repr (j : json) : string := match j with JStr s => "'" +:+ s +:+ "'" | _ => "None" end.
Definition demo_page (text : string) : scraped := Answered (JObj [("success", JBool true); ("data", JObj [("markdown", JStr text)])]).
Definition demo_challenge : scraped := Answered (JObj [("success", JBool true); ("warning", JStr "captcha"); ("data", JObj [])]).

(** Two workers, three URLs, the answers out of order. *)
Definition demo_steps : list action :=
  [Take 0; Take 1; Answer_ 1 demo_challenge "t1"; Take 1; Answer_ 1 (demo_page "three") "t2"; Take 1; Answer_ 0 (demo_page "one") "t3"; Take 0; Main].
Definition demo_urls : list string := ["https://a.org/"; "https://b.org/"; "https://c.org/"].

Notation demo_batch := (batch (fun j => j) demo_repr "j" demo_urls 2 0 demo_running demo_steps).

Definition demo_result : json :=
  JObj [("completed", JNum 2); ("total", JNum 3);
        ("pages", JArr [JObj [("url", JStr "https://a.org/"); ("markdown", JStr "one")]; JObj [("url", JStr "https://c.org/"); ("markdown", JStr "three")]]);
        ("errors", JArr [error_entry (JStr "https://b.org/") (JStr "Barrier/challenge content detected (warning='captcha', block_detected=None)")
                           (JStr "barrier_detected") (JStr "BARRIER_DETECTED") (JStr "t1")])].

Lemma demo_ended : ended demo_batch = Some (Returned demo_result).
Proof. vm_compute. reflexivity. Qed.

Lemma demo_alive : Died ∉ workers demo_batch.
Proof. apply (bool_decide_unpack _). vm_compute. exact Logic.I. Qed.


(** ** What the model shows of the code *)

(** An answer without data ends its worker: its URL, and every URL that no worker is left
    for, is missing from the pages and from the errors of a batch that completes. *)
Lemma batch_loses_urls :
  exists s, s = batch (fun j => j) demo_repr "j" demo_urls 1 0 demo_running [Take 0; Answer_ 0 (Answered (JObj [("success", JBool true)])) "t"; Main] /\
  ended s = Some (Returned (JObj [("completed", JNum 0); ("total", JNum 3); ("pages", JArr []); ("errors", JArr [])])).
Proof. eexists. split; [reflexivity|]. vm_compute. reflexivity. Qed.
