(* ===== verification/JobBodies.v ===== *)
(** * The bodies of jobs ([_process_crawl_async], [_process_agent_async] and [_process_plan_execution_async] of [src/agent-svc/agent/worker.py])

    Each body is a program over what it awaits and over the job store (Program.v).  A
    crawl announces its start, runs the engine, hands its pages to the index, and writes
    its own outcome.  A research job first looks into the research memory and may be
    answered from it; otherwise its work function runs under the retry loop of Worker.v.
    A plan execution walks through the phases of a plan.

    The theorems: a crawl announces itself before the engine runs, writes an outcome only
    when it may, and announces exactly one end; an answer comes from the memory only when
    the request allows it and the entry is fresh enough, and otherwise the job is left to
    the work function; a plan execution checks for a cancellation before every phase,
    scrapes a URL at most once, and lists as sources exactly what it found.

    The engine, the memory, the search, the scraper and the model are asked; an operation
    on the store may fail.  Deliveries are requests, whether they are awaited or run in
    the background.  Metrics, logs and latencies are left out. *)

From stdpp Require Import pretty.
From S2P Require Import Prelude Strings Url Json Sources Program Answer BatchScrape.
Open Scope program_scope.

(** ** What is asked *)

Inductive jexn :=
| JobCancelledExn                          (* JobCancelledError *)
| TaskCancelledExn                         (* asyncio.CancelledError *)
| RateLimitExn (detail : string)           (* RetryableRateLimitError *)
| OtherExn (detail : string).

Record crawl_result := mkCrawlResult {
  cr_completed : Z; cr_total : Z; cr_pages : list json; cr_errors : list json; cr_blocked : list json; cr_summary : json; cr_filtered : list json
}.

(** An entry of the research memory: the text, the sources, their URLs. *)
Record memory_entry := mkEntry {
  me_freshness : string; me_text : string; me_sources : list json; me_urls : list string;
  me_coverage : json; me_evidence : json; me_similarity : json; me_id : json; me_age : json; me_swr : bool
}.

Record found_page := mkFound { fp_url : string; fp_title : json; fp_description : json }.

Inductive JReq :=
| JDeliver (event : string) (data : json) (success : bool) (error : option string)
| JCancelled                                              (* [store.get_job], is it cancelled *)
| JComplete (data : json) (event : string) (event_data : json)
| JFail (error event : string) (event_data : json)
| JCrawl
| JIndex (url content : json)
| JClose
| JMemory
| JRefresh (key : string)
| JResearch
| JAdopt (result : list (string * json))                  (* [finalize_and_admit] *)
| JSearch (query : string)
| JScrape (urls : list string) (max_attempts : Z)
| JEvidence (parts : list string) (query : string)
| JGenerate (prompt : string) (context : option string).

Definition jreply (q : JReq) : Type :=
  match q with
  | JDeliver _ _ _ _ | JIndex _ _ | JClose | JRefresh _ => unit
  | JCancelled | JComplete _ _ _ | JFail _ _ _ => outcome bool jexn
  | JCrawl => outcome crawl_result jexn
  | JMemory => outcome (option memory_entry) jexn
  | JResearch => outcome (list (string * json)) jexn
  | JAdopt _ => outcome (list (string * json)) jexn
  | JSearch _ => outcome (list found_page) jexn
  | JScrape _ _ => outcome (list SourceArtifact) jexn
  | JEvidence _ _ => outcome (string * json) jexn
  | JGenerate _ _ => outcome string jexn
  end.

Notation jprog := (prog jreply jexn).

Definition jraised {A} (o : outcome A jexn) : jprog A := match o with Ok a => Ret a | Raise e => Throw e end.

(** [try: p except: h]. *)
Fixpoint catch {A} (p : jprog A) (h : jexn -> jprog A) : jprog A :=
  match p with
  | Ret a => Ret a
  | Throw e => h e
  | Ask q k => Ask q (fun r => catch (k r) h)
  end.

(** [try: p finally: f]. *)
Fixpoint finally {A} (p : jprog A) (f : jprog unit) : jprog A :=
  match p with
  | Ret a => f ;; Ret a
  | Throw e => f ;; Throw e
  | Ask q k => Ask q (fun r => finally (k r) f)
  end.

Definition message (e : jexn) : string :=
  match e with JobCancelledExn | TaskCancelledExn => "" | RateLimitExn s | OtherExn s => s end.

(** ** Crawls *)

Section Crawl.
Context (verbose : bool).

(** [_index_page_async(page.get("url", ""), "", page.get("markdown", "")[:2000])] for each page. *)
Fixpoint index_pages (l : list json) : jprog unit :=
  match l with
  | [] => Ret tt
  | p :: l =>
      match dict p, head2000 (jget_default p "markdown" (JStr "")) with
      | Some _, Some text => ask (JIndex (jget_default p "url" (JStr "")) text) ;; index_pages l
      | _, _ => Throw (OtherExn "object is not subscriptable")
      end
  end.

Definition crawl_payload (r : crawl_result) : json :=
  JObj ([("completed", JNum (cr_completed r)); ("total", JNum (cr_total r)); ("pages", JArr (cr_pages r)); ("errors", JArr (cr_errors r));
         ("robots_blocked", JArr (cr_blocked r)); ("outcome_summary", cr_summary r)]
        ++ if verbose then [("filtered_out", JArr (cr_filtered r))] else []).

(** [_deliver_crawl_completed_webhook]. *)
Definition announce_end : jprog unit := ask (JDeliver "crawl.completed" (JArr []) true None).

(** The [try] block. *)
Definition crawl_block : jprog unit :=
  ask (JDeliver "crawl.started" (JArr []) true None) ;;
  await o <- ask JCrawl;
  await r <- jraised o;
  index_pages (cr_pages r) ;;
  await o <- ask JCancelled;
  await was_cancelled <- jraised o;
  if was_cancelled : bool then announce_end
  else
    await o <- ask (JComplete (crawl_payload r) "crawl.completed" (JArr []));
    await _ <- jraised o;
    announce_end.

(** [_process_crawl_async]. *)
Definition process_crawl : jprog unit :=
  finally
    (catch crawl_block (fun e =>
       match e with
       | JobCancelledExn => announce_end
       | TaskCancelledExn => announce_end ;; Throw e
       | _ =>
           await o <- ask (JFail (message e) "crawl.failed" (JArr []));
           await _ <- jraised o;
           ask (JDeliver "crawl.failed" (JArr []) false (Some (message e)))
       end))
    (ask JClose).

End Crawl.

(** ** Research jobs *)

Section Agent.
Context (style : CitationStyle) (force_fresh include_source_content stale_while_revalidate : bool).
Context (prompt : string) (fingerprint : option string).

Definition number_sources (urls : list string) : json :=
  JArr (imap (fun i u => JObj [("index", JNum (Z.of_nat i + 1)); ("url", JStr u)]) urls).

(** The parts of an answer that depend on the citation style. *)
Definition styled (e : memory_entry) (fields : list (string * json)) : list (string * json) :=
  match style with
  | compact_style => oset "source_details" (JArr []) (oset "sources_compact" (number_sources (me_urls e)) fields)
  | inline => fields
  end.

Definition entry_coverage (e : memory_entry) : json :=
  jor (me_coverage e)
    (JObj [("scope", JStr "cached_answer"); ("coverage_complete", JBool false); ("evidence", JObj [("status", JStr "not_retained")])]).

Definition answer_fields (e : memory_entry) : list (string * json) :=
  [("result", JStr (fst (apply_citation_style (me_text e) (me_urls e) style))); ("sources", JArr (JStr <$> me_urls e));
   ("source_details", JArr (me_sources e)); ("from_cache", JBool true); ("coverage", entry_coverage e)].

Definition cached_payload (e : memory_entry) : json :=
  JObj (styled e (answer_fields e ++ [("freshness", JStr (me_freshness e)); ("similarity", me_similarity e); ("memory_id", me_id e);
                                      ("evidence_coverage", me_evidence e)])).

Definition stale_payload (e : memory_entry) : json :=
  JObj (styled e (answer_fields e ++ [("freshness", JStr "stale"); ("evidence_coverage", me_evidence e); ("refreshed", JBool false);
                                      ("age_hours", me_age e); ("similarity", me_similarity e); ("memory_id", me_id e)])).

(** [fingerprint or f"prompt:{prompt}"]. *)
Definition refresh_key : string :=
  match fingerprint with Some f => if is_empty f then "prompt:" +:+ prompt else f | None => "prompt:" +:+ prompt end.

Definition fresh_enough (e : memory_entry) : bool := String.eqb (me_freshness e) "fresh" || String.eqb (me_freshness e) "aging".
Definition revalidated (e : memory_entry) : bool := String.eqb (me_freshness e) "stale" && stale_while_revalidate && me_swr e.

(** The job is completed with an answer of the memory. *)
Definition serve (payload : json) : jprog unit :=
  await o <- ask (JComplete payload "completed" payload);
  await _ <- jraised o;
  ask (JDeliver "completed" payload true None).

(** The look into the memory: [None] when the job was answered, otherwise the entry that
    is too old. *)
Definition consult : jprog (option (option memory_entry)) :=
  await o <- ask JMemory;
  await hit <- jraised o;
  match hit with
  | None => Ret (Some None)
  | Some e =>
      if fresh_enough e then serve (cached_payload e) ;; Ret None
      else if revalidated e then serve (stale_payload e) ;; ask (JRefresh refresh_key) ;; Ret None
      else Ret (Some (Some e))
  end.

Definition memory_phase : jprog (option (option memory_entry)) :=
  if force_fresh || include_source_content then Ret (Some None)
  else catch consult (fun e => match e with TaskCancelledExn => Throw e | _ => Ret (Some None) end).

Definition stop_if_cancelled : jprog unit :=
  await o <- ask JCancelled;
  await b <- jraised o;
  if b : bool then Throw JobCancelledExn else Ret tt.

(** The work function. *)
Definition agent_work (stale : option memory_entry) : jprog (list (string * json)) :=
  stop_if_cancelled ;;
  await o <- ask JResearch;
  await result <- jraised o;
  stop_if_cancelled ;;
  await o <- ask (JAdopt result);
  await result <- jraised o;
  Ret match stale with
      | None => result
      | Some e => oset "cached_version_freshness" (JStr (me_freshness e))
                    (oset "cached_version_age_hours" (me_age e) (oset "cached_version_exists" (JBool true) result))
      end.

End Agent.

(** ** Plan executions *)

Record phase_ := mkPhase { ph_action : string; ph_description : string }.
Record modifications := mkMods { mo_narrow : string; mo_queries : list (Z * string); mo_add : list string; mo_remove : list string }.

Section Plan.
Context (prompt : string) (phases : list phase_) (dimensions : list string) (mods : option modifications).
(** [SourceArtifact.to_document]. *)
Context (to_document : SourceArtifact -> string).

Record progress_ := mkProgress {
  all_sources : list found_page;
  parts : list string;                       (* [accumulated_context_parts] *)
  seen_urls : list string;
  synthesis : string;
  evidence : json
}.

Definition start_progress : progress_ := mkProgress [] [] [] "" (JObj []).

(** The query of a search phase. *)
Definition phase_query (i : nat) (ph : phase_) : string :=
  let query := if is_empty (ph_description ph) then prompt else ph_description ph in
  match mods with
  | None => query
  | Some m =>
      let query := if is_empty (mo_narrow m) then query else mo_narrow m +:+ " " +:+ query in
      match List.find (fun mq => (fst mq =? Z.of_nat i) && negb (is_empty (snd mq))) (mo_queries m) with
      | Some mq => snd mq
      | None => query
      end
  end.

(** [for r in results]: the URLs that are new, and the progress with them. *)
Fixpoint add_results (l : list found_page) (new : list string) (s : progress_) : list string * progress_ :=
  match l with
  | [] => (new, s)
  | r :: l =>
      if is_empty (fp_url r) || mem (fp_url r) (seen_urls s) then add_results l new s
      else add_results l (new ++ [fp_url r])
             (mkProgress (all_sources s ++ [r]) (parts s) (seen_urls s ++ [fp_url r]) (synthesis s) (evidence s))
  end.

Definition search_phase (i : nat) (ph : phase_) (s : progress_) : jprog progress_ :=
  await o <- ask (JSearch (phase_query i ph));
  await results <- match o with
                   | Ok l => Ret l
                   | Raise (RateLimitExn d) => Throw (RateLimitExn d)
                   | Raise TaskCancelledExn => Throw TaskCancelledExn
                   | Raise _ => Ret []
                   end;
  let '(new, s) := add_results results [] s in
  match new with
  | [] => Ret s
  | _ =>
      await o <- ask (JScrape (take 5 new) (Z.min 5 (Z.of_nat (length new))));
      await artifacts <- jraised o;
      Ret (mkProgress (all_sources s) (parts s ++ (to_document <$> artifacts)) (seen_urls s) (synthesis s) (evidence s))
  end.

(** The dimensions of the synthesis. *)
Definition plan_dimensions : list string :=
  match mods with
  | None => dimensions
  | Some m =>
      let added := foldl (fun acc d => if mem d acc then acc else acc ++ [d]) dimensions (mo_add m) in
      List.filter (fun d => negb (mem d (mo_remove m))) added
  end.

Definition lf2 : string := String (Ascii.ascii_of_nat 10) (String (Ascii.ascii_of_nat 10) EmptyString).

Definition synthesis_prompt (ph : phase_) : string :=
  let p := if is_empty (ph_description ph) then "Synthesise findings for: " +:+ prompt else ph_description ph in
  let p := match plan_dimensions with
           | [] => p
           | ds => p +:+ lf2 +:+ "CRITICAL: Address each of these analysis dimensions: " +:+ String.concat ", " ds
                   +:+ ". For each dimension, provide specific evidence from the sources below."
           end in
  p +:+ lf2 +:+ "Base your answer ONLY on the source content provided below. Cite sources by their URL. Be thorough and precise.".

Definition synthesize_phase (ph : phase_) (s : progress_) : jprog progress_ :=
  await o <- ask (JEvidence (parts s) (prompt +:+ " " +:+ ph_description ph));
  await selected <- jraised o;
  await o <- ask (JGenerate (synthesis_prompt ph) (if is_empty (fst selected) then None else Some (fst selected)));
  await text <- jraised o;
  Ret (mkProgress (all_sources s) (if is_empty text then parts s else parts s ++ [text]) (seen_urls s) text (snd selected)).

Definition one_phase (i : nat) (ph : phase_) (s : progress_) : jprog progress_ :=
  stop_if_cancelled ;;
  if String.eqb (ph_action ph) "search" then search_phase i ph s
  else if String.eqb (ph_action ph) "synthesize" then synthesize_phase ph s
  else Ret s.

Fixpoint run_phases (i : nat) (l : list phase_) (s : progress_) : jprog progress_ :=
  match l with
  | [] => Ret s
  | ph :: l => await s <- one_phase i ph s; run_phases (S i) l s
  end.

Definition source_doc (r : found_page) : json := JObj [("url", JStr (fp_url r)); ("title", fp_title r); ("relevance", fp_description r)].

Definition plan_payload (s : progress_) : json :=
  JObj [("result", JStr (synthesis s)); ("sources", JArr (JStr <$> (fp_url <$> all_sources s))); ("source_details", JArr (source_doc <$> all_sources s));
        ("phases_completed", JNum (Z.of_nat (length phases))); ("evidence_coverage", evidence s);
        ("total_sources", JNum (Z.of_nat (length (all_sources s))))].

(** The work function of [_process_plan_execution_async]. *)
Definition plan_work : jprog json := finally (await s <- run_phases 0 phases start_progress; Ret (plan_payload s)) (ask JClose).

End Plan.

(** ** Reasoning about exceptions *)

#[local] Arguments String.eqb : simpl never.

(** Comparisons of literals are evaluated. *)
Ltac literals :=
  cbn; repeat match goal with
  | |- context [String.eqb ?a ?b] => let v := eval vm_compute in (String.eqb a b) in change (String.eqb a b) with v; cbn
  end.

Section Rules.
Context {S : Type} (note : S -> happened jreply -> S) (P : S -> JReq -> Prop).

Lemma swp_catch {A} (X : A -> S -> Prop) (Y : jexn -> S -> Prop) p h s :
  swp note P X (fun e s => swp note P X Y (h e) s) p s -> swp note P X Y (catch p h) s.
Proof. revert s. induction p as [a|e|q k IH]; intros s H; cbn in *; [done|done|]. destruct H as [H1 H2]. split; [done|]. intros r. by apply IH. Qed.

Lemma swp_finally {A} (X : A -> S -> Prop) (Y : jexn -> S -> Prop) p f s :
  swp note P (fun a s => swp note P (fun _ s => X a s) Y f s) (fun e s => swp note P (fun _ s => Y e s) Y f s) p s ->
  swp note P X Y (finally p f) s.
Proof.
  revert s. induction p as [a|e|q k IH]; intros s H; cbn in *.
  - by apply swp_bind.
  - by apply swp_bind.
  - destruct H as [H1 H2]. split; [done|]. intros r. by apply IH.
Qed.

Lemma swp_raised {A} (X : A -> S -> Prop) (Y : jexn -> S -> Prop) (o : outcome A jexn) s :
  match o with Ok a => X a s | Raise e => Y e s end -> swp note P X Y (jraised o) s.
Proof. by destruct o. Qed.

(** What a run shows of the questions and of the result. *)
Lemma swp_run {A} (X : A -> S -> Prop) (Y : jexn -> S -> Prop) (p : jprog A) s0 env : swp note P X Y p s0 ->
  let t := snd (run env [] p) in
  (forall i q r, t !! i = Some (Did q r) -> P (foldl note s0 (take i t)) q) /\
  match fst (run env [] p) with Ok a => X a (foldl note s0 t) | Raise e => Y e (foldl note s0 t) end.
Proof.
  intros H. apply (swp_wp note P X Y p s0 []) in H. cbv zeta. split; [intros i q r E; exact (wp_trace _ _ _ env p i q r H E)|].
  exact (wp_result _ _ _ env p H).
Qed.

End Rules.

(** ** Crawls *)

(** What a crawl has done. *)
Record crawl_sum := mkCS {
  k_started : bool;
  k_crawl : option (outcome unit jexn);          (* how the engine ended *)
  k_checked : option bool;                       (* whether the store said cancelled *)
  k_complete : option (outcome bool jexn);
  k_fail : option (outcome bool jexn);
  k_events : list string;                        (* the events of an end *)
  k_closed : bool
}.

Definition no_crawl : crawl_sum := mkCS false None None None None [] false.

Definition forget {A} (o : outcome A jexn) : outcome unit jexn := match o with Ok _ => Ok tt | Raise e => Raise e end.

Definition crawl_note (g : crawl_sum) (x : happened jreply) : crawl_sum :=
  match x with
  | Did q r =>
      match q return jreply q -> crawl_sum with
      | JDeliver ev _ _ _ => fun _ =>
          if String.eqb ev "crawl.started" then mkCS true (k_crawl g) (k_checked g) (k_complete g) (k_fail g) (k_events g) (k_closed g)
          else mkCS (k_started g) (k_crawl g) (k_checked g) (k_complete g) (k_fail g) (k_events g ++ [ev]) (k_closed g)
      | JCrawl => fun r => mkCS (k_started g) (Some (forget r)) (k_checked g) (k_complete g) (k_fail g) (k_events g) (k_closed g)
      | JCancelled => fun r =>
          mkCS (k_started g) (k_crawl g) (match r with Ok b => Some b | Raise _ => None end) (k_complete g) (k_fail g) (k_events g) (k_closed g)
      | JComplete _ _ _ => fun r => mkCS (k_started g) (k_crawl g) (k_checked g) (Some r) (k_fail g) (k_events g) (k_closed g)
      | JFail _ _ _ => fun r => mkCS (k_started g) (k_crawl g) (k_checked g) (k_complete g) (Some r) (k_events g) (k_closed g)
      | JClose => fun _ => mkCS (k_started g) (k_crawl g) (k_checked g) (k_complete g) (k_fail g) (k_events g) true
      | _ => fun _ => g
      end r
  end.

(** The question is in order. *)
Definition crawl_allowed (g : crawl_sum) (q : JReq) : Prop :=
  k_closed g = false /\
  match q with
  | JDeliver ev data _ err =>
      data = JArr [] /\ k_events g = [] /\
      (if String.eqb ev "crawl.started" then g = no_crawl
       else if String.eqb ev "crawl.failed" then (exists b, k_fail g = Some (Ok b)) /\ err <> None
       else ev = "crawl.completed" /\ k_fail g = None /\ k_started g = true)
  | JCrawl => k_started g = true /\ k_crawl g = None
  | JIndex _ _ | JCancelled => k_crawl g = Some (Ok tt) /\ k_checked g = None /\ k_complete g = None
  | JComplete _ ev _ => ev = "crawl.completed" /\ k_crawl g = Some (Ok tt) /\ k_checked g = Some false /\ k_complete g = None /\ k_fail g = None
  | JFail _ ev _ => ev = "crawl.failed" /\ k_fail g = None /\ k_checked g <> Some true /\ (forall b, k_complete g <> Some (Ok b)) /\
                    k_crawl g <> Some (Raise JobCancelledExn) /\ k_crawl g <> Some (Raise TaskCancelledExn)
  | JClose => True
  | _ => False
  end.

Definition one_end (g : crawl_sum) : Prop := k_closed g = true /\ (k_events g = ["crawl.completed"] \/ k_events g = ["crawl.failed"]).
Definition failed_end (e : jexn) (g : crawl_sum) : Prop := k_closed g = true /\ (e = TaskCancelledExn \/ k_events g = []).

(** The [try] block: what is known when it returns and when it raises. *)
Lemma index_pages_swp l g (X : unit -> crawl_sum -> Prop) (Y : jexn -> crawl_sum -> Prop) :
  k_closed g = false -> k_crawl g = Some (Ok tt) -> k_checked g = None -> k_complete g = None -> X tt g -> (forall s, Y (OtherExn s) g) ->
  swp crawl_note crawl_allowed X Y (index_pages l) g.
Proof.
  intros H1 H2 H3 H4 HX HY. induction l as [|p l IH]; [done|]. cbn [index_pages]. destruct (dict p); [|apply HY].
  destruct (head2000 _); [|apply HY]. cbn. split; [done|]. intros r. exact IH.
Qed.

Definition block_raised (e : jexn) (g : crawl_sum) : Prop :=
  k_closed g = false /\ k_started g = true /\ k_fail g = None /\ k_events g = [] /\
  match e with
  | JobCancelledExn | TaskCancelledExn => True
  | _ => k_checked g <> Some true /\ (forall b, k_complete g <> Some (Ok b)) /\ k_crawl g <> Some (Raise JobCancelledExn) /\
         k_crawl g <> Some (Raise TaskCancelledExn)
  end.

Lemma crawl_block_swp verbose :
  swp crawl_note crawl_allowed (fun _ g => k_closed g = false /\ k_events g = ["crawl.completed"]) block_raised (crawl_block verbose) no_crawl.
Proof.
  unfold crawl_block. cbn [ask bind swp]. split; [done|]. intros []. cbn [bind swp]. split; [done|]. intros [r|e]; cbn [jraised bind swp].
  2:{ by destruct e. }
  apply swp_bind. apply index_pages_swp; try done. cbn. split; [done|]. intros [[]|e]; cbn.
  - split; [done|]. by intros [].
  - split; [done|]. intros [b|e]; cbn; [split; [done|]; by intros []|]. by destruct e.
  - by destruct e.
Qed.

Lemma process_crawl_swp verbose : swp crawl_note crawl_allowed (fun _ => one_end) failed_end (process_crawl verbose) no_crawl.
Proof.
  unfold process_crawl. apply swp_finally, swp_catch.
  assert (H := crawl_block_swp verbose). revert H. generalize (crawl_block verbose) no_crawl. intros p. induction p as [a|e|q k IH]; intros g H; cbn in H |- *.
  - destruct H as [H1 H2]. split; [done|]. intros []. cbn. split; [done|]. by left.
  - destruct H as (H1 & H2 & H3 & H4 & H5).
    destruct e as [| |d|d]; literals; [split; [done|]; intros []; literals; split; [done|]; intros []; split; [done|]; cbn; rewrite H4; by left..| |].
    all: split; [unfold crawl_allowed; tauto|]; intros [b|e]; literals; [|split; [done|]; intros []; split; [done|]; by right].
    all: split; [split_and!; [done|done|done|literals; by eauto]|]; intros []; literals; split; [done|]; intros []; split; [done|]; right; cbn; by rewrite H4.
  - destruct H as [H1 H2]. split; [done|]. intros r. by apply IH.
Qed.

(**  A crawl job keeps its protocol, whatever the engine, the store and the moment of
    a cancellation: it announces its start before the engine runs, and once; it writes
    its result only after the engine has ended and the store did not say that the job is
    cancelled, and an error only when no result was accepted, nobody was told of a
    cancellation, and the engine was not cancelled; it announces one end and no second
    one, as failed exactly when the error was written; and the clients are closed last,
    however it ends. *)
Theorem crawl_job_protocol verbose env i :
  let t := snd (run env [] (process_crawl verbose)) in
  match t !! i with Some (Did q r) => crawl_allowed (foldl crawl_note no_crawl (take i t)) q | None => True end /\
  match fst (run env [] (process_crawl verbose)) with
  | Ok _ => one_end (foldl crawl_note no_crawl t)
  | Raise e => failed_end e (foldl crawl_note no_crawl t)
  end.
Proof.
  destruct (swp_run _ _ _ _ _ _ env (process_crawl_swp verbose)) as [H1 H2]. cbv zeta. split; [|exact H2].
  destruct (_ !! i) as [[q r]|] eqn:E; [|done]. exact (H1 i q r E).
Qed.

(** ** Plan executions *)

(** The pages found, each URL once, in the order in which they were found. *)
Definition add_page (acc : list found_page) (r : found_page) : list found_page :=
  if is_empty (fp_url r) || mem (fp_url r) (fp_url <$> acc) then acc else acc ++ [r].
Definition first_found (l : list found_page) : list found_page := foldl add_page [] l.

Record plan_sum := mkPS {
  p_clear : bool;                        (* the store has just said that the job is not cancelled *)
  p_found : list found_page;             (* the results of the searches *)
  p_scraped : list string;
  p_scrapes : nat; p_searches : nat; p_texts : list string; p_closed : bool
}.
Definition no_plan : plan_sum := mkPS false [] [] 0 0 [] false.

Definition plan_note (g : plan_sum) (x : happened jreply) : plan_sum :=
  match x with
  | Did q r =>
      match q return jreply q -> plan_sum with
      | JCancelled => fun r =>
          mkPS (match r with Ok b => negb b | Raise _ => false end) (p_found g) (p_scraped g) (p_scrapes g) (p_searches g) (p_texts g) (p_closed g)
      | JSearch _ => fun r =>
          mkPS false (p_found g ++ match r with Ok l => l | Raise _ => [] end) (p_scraped g) (p_scrapes g) (S (p_searches g)) (p_texts g) (p_closed g)
      | JScrape us _ => fun _ => mkPS (p_clear g) (p_found g) (p_scraped g ++ us) (S (p_scrapes g)) (p_searches g) (p_texts g) (p_closed g)
      | JEvidence _ _ => fun _ => mkPS false (p_found g) (p_scraped g) (p_scrapes g) (p_searches g) (p_texts g) (p_closed g)
      | JGenerate _ _ => fun r =>
          mkPS (p_clear g) (p_found g) (p_scraped g) (p_scrapes g) (p_searches g) (p_texts g ++ match r with Ok s => [s] | Raise _ => [] end) (p_closed g)
      | JClose => fun _ => mkPS (p_clear g) (p_found g) (p_scraped g) (p_scrapes g) (p_searches g) (p_texts g) true
      | _ => fun _ => g
      end r
  end.

Definition plan_allowed (g : plan_sum) (q : JReq) : Prop :=
  p_closed g = false /\
  match q with
  | JCancelled | JClose | JGenerate _ _ => True
  | JSearch _ | JEvidence _ _ => p_clear g = true
  | JScrape us n => us <> [] /\ (length us <= 5)%nat /\ Z.of_nat (length us) = n /\ NoDup (p_scraped g ++ us) /\
                    us ⊆ (fp_url <$> first_found (p_found g)) /\ (p_scrapes g < p_searches g)%nat
  | _ => False
  end.

Section PlanProofs.
Context (prompt : string) (phases : list phase_) (dimensions : list string) (mods : option modifications) (to_document : SourceArtifact -> string).

(** What the progress and the history have in common. *)
Record in_step (s : progress_) (g : plan_sum) : Prop := {
  w_found : all_sources s = first_found (p_found g);
  w_seen : seen_urls s = fp_url <$> all_sources s;
  w_nodup : NoDup (seen_urls s);
  w_scraped : NoDup (p_scraped g) /\ p_scraped g ⊆ seen_urls s;
  w_scrapes : (p_scrapes g <= p_searches g)%nat;
  w_text : synthesis s = default "" (last (p_texts g));
  w_open : p_closed g = false
}.

Lemma mem_spec x l : mem x l = true <-> x ∈ l.
Proof.
  unfold mem. rewrite existsb_exists. split.
  - intros (y & Hy & E%String.eqb_eq). subst y. by apply list_elem_of_In.
  - intros H%list_elem_of_In. exists x. split; [done|]. apply String.eqb_refl.
Qed.

Lemma take_NoDup {A} n (l : list A) : NoDup l -> NoDup (take n l).
Proof. rewrite <- (take_drop n l) at 1. by intros (? & _ & _)%NoDup_app. Qed.

Lemma add_results_spec l new s new' s' : add_results l new s = (new', s') ->
  seen_urls s = fp_url <$> all_sources s -> NoDup (seen_urls s) ->
  exists added, new' = new ++ added /\ seen_urls s' = seen_urls s ++ added /\ all_sources s' = foldl add_page (all_sources s) l /\
    seen_urls s' = fp_url <$> all_sources s' /\ NoDup (seen_urls s') /\
    parts s' = parts s /\ synthesis s' = synthesis s.
Proof.
  revert new s. induction l as [|r l IH]; intros new s; cbn [add_results foldl]; intros E HS HN.
  - simplify_eq. exists []. rewrite !app_nil_r. by split_and!.
  - unfold add_page at 2. rewrite <- HS. destruct (is_empty (fp_url r) || mem (fp_url r) (seen_urls s)) eqn:D; [by apply IH in E|].
    apply orb_false_iff in D as [_ D].
    assert (N : fp_url r ∉ seen_urls s) by (intros H%mem_spec; congruence).
    apply IH in E as (added & -> & E2 & E3 & E4 & E5 & E6 & E7); cbn in *.
    + exists (fp_url r :: added). rewrite <- !app_assoc in *. cbn in *. by split_and!.
    + by rewrite fmap_app, HS.
    + apply NoDup_app. split_and!; [done|intros x Hx ->%list_elem_of_singleton; done|apply NoDup_singleton].
Qed.

Notation pswp := (swp plan_note plan_allowed).
Definition broken (e : jexn) (g : plan_sum) : Prop := p_closed g = false.

Lemma stop_swp s g (X : unit -> plan_sum -> Prop) : in_step s g ->
  (forall g', in_step s g' -> p_clear g' = true -> p_searches g' = p_searches g -> X tt g') -> pswp X broken stop_if_cancelled g.
Proof.
  intros [] HX. unfold stop_if_cancelled. cbn. split; [done|]. intros [[]|e]; cbn; [done| |done]. apply HX; by constructor.
Qed.

Lemma search_swp i ph s g : in_step s g -> p_clear g = true -> pswp in_step broken (search_phase prompt mods to_document i ph s) g.
Proof.
  intros [W1 W2 W3 [W4 W5] W6 W7 W8] C. unfold search_phase. cbn [ask bind swp]. split; [done|]. intros o.
  set (g1 := plan_note g (Did (JSearch (phase_query prompt mods i ph)) o)).
  assert (M : forall results, results = match o with Ok l => l | Raise _ => [] end ->
    pswp in_step broken (let '(new, s) := add_results results [] s in
      match new with
      | [] => Ret s
      | _ => await o <- ask (JScrape (take 5 new) (Z.min 5 (Z.of_nat (length new))));
             await artifacts <- jraised o;
             Ret (mkProgress (all_sources s) (parts s ++ (to_document <$> artifacts)) (seen_urls s) (synthesis s) (evidence s))
      end) g1).
  { intros results R. destruct (add_results results [] s) as [new s'] eqn:E.
    destruct (add_results_spec _ _ _ _ _ E W2 W3) as (added & -> & E2 & E3 & E4 & E5 & E6 & E7). cbn [app].
    assert (F : all_sources s' = first_found (p_found g1)).
    { rewrite E3, W1. unfold first_found. cbn. by rewrite foldl_app, R. }
    assert (I1 : in_step s' g1) by (constructor; cbn; [done|done|done|split; [done|rewrite E2; set_solver]|lia|by rewrite E7|done]).
    destruct added as [|u added]; [exact I1|]. rewrite E2 in E5. apply NoDup_app in E5 as (_ & N1 & N2). cbn [ask bind swp].
    assert (T : take 5 (u :: added) ⊆ u :: added) by (apply subseteq_take).
    split.
    - split; [done|]. split_and!; [done|rewrite length_take; lia|rewrite length_take; lia| | |cbn; lia].
      + apply NoDup_app. split_and!; [done| |by apply take_NoDup]. intros x Hx Hx'. cbn in Hx. apply (N1 x); [by apply W5|by apply T].
      + rewrite <- F, <- E4, E2. set_solver.
    - intros [l|e]; cbn; [|done]. constructor; cbn; [done|done| |split|lia|by rewrite E7|done].
      + rewrite E2. apply NoDup_app. by split_and!.
      + apply NoDup_app. split_and!; [done|intros x Hx Hx'; apply (N1 x); [by apply W5|by apply T]|exact (take_NoDup 5 (u :: added) N2)].
      + rewrite E2. pose proof T as T'. cbn in T'. set_solver. }
  destruct o as [l|[]]; cbn [bind]; first [exact (M _ eq_refl)|done].
Qed.

Lemma synthesize_swp ph s g : in_step s g -> p_clear g = true -> pswp in_step broken (synthesize_phase prompt dimensions mods ph s) g.
Proof.
  intros [W1 W2 W3 [W4 W5] W6 W7 W8] C. unfold synthesize_phase. cbn. split; [done|]. intros [sel|e]; cbn; [|done]. split; [done|].
  intros [text|e]; cbn; [|done]. constructor; cbn; try done. by rewrite last_snoc.
Qed.

Lemma phases_swp l i s g : in_step s g -> pswp in_step broken (run_phases prompt dimensions mods to_document i l s) g.
Proof.
  revert i s g. induction l as [|ph l IH]; intros i s g I; [done|]. cbn [run_phases]. apply swp_bind.
  eapply swp_conseq; [intros s' g' I'; apply (IH (S i) s' g' I')|]. unfold one_phase. apply swp_bind. apply (stop_swp s); [done|]. intros g' I' C _.
  destruct (String.eqb _ _); [by apply search_swp|]. destruct (String.eqb _ _); [by apply synthesize_swp|done].
Qed.

Definition plan_result (j : json) (g : plan_sum) : Prop :=
  p_closed g = true /\
  exists ev, j = JObj [("result", JStr (default "" (last (p_texts g)))); ("sources", JArr (JStr <$> (fp_url <$> first_found (p_found g))));
                       ("source_details", JArr (source_doc <$> first_found (p_found g))); ("phases_completed", JNum (Z.of_nat (length phases)));
                       ("evidence_coverage", ev); ("total_sources", JNum (Z.of_nat (length (first_found (p_found g)))))].

Lemma plan_swp : pswp plan_result (fun _ g => p_closed g = true) (plan_work prompt phases dimensions mods to_document) no_plan.
Proof.
  unfold plan_work. apply swp_finally. apply swp_bind.
  assert (I0 : in_step start_progress no_plan) by (constructor; cbn; try done; [constructor|split; [constructor|done]]).
  pose proof (phases_swp phases 0 _ _ I0) as H. revert H. generalize (run_phases prompt dimensions mods to_document 0 phases start_progress) no_plan.
  intros p. induction p as [s|e|q k IH]; intros g H; cbn in H |- *.
  - destruct H as [W1 W2 W3 W4 W5 W6 W7]. split; [done|]. intros []. split; [done|]. exists (evidence s). unfold plan_payload. by rewrite W6, W1.
  - split; [done|]. by intros [].
  - destruct H as [H1 H2]. split; [done|]. intros r. by apply IH.
Qed.

(**  A plan execution keeps to its plan, whatever the search, the pages and the model
    answer: before the first request of each phase the store has said that the job is not
    cancelled; a scrape follows a search and takes at most five URLs, none that was
    scraped before and only URLs that were found; when the execution returns, its sources
    are exactly the pages found, each URL once in the order of discovery, and its text is
    the last one that was synthesized; and the clients are closed however it ends. *)
Theorem plan_execution_faithful env i :
  let t := snd (run env [] (plan_work prompt phases dimensions mods to_document)) in
  match t !! i with Some (Did q r) => plan_allowed (foldl plan_note no_plan (take i t)) q | None => True end /\
  match fst (run env [] (plan_work prompt phases dimensions mods to_document)) with
  | Ok payload => plan_result payload (foldl plan_note no_plan t)
  | Raise _ => p_closed (foldl plan_note no_plan t) = true
  end.
Proof.
  destruct (swp_run _ _ _ _ _ _ env plan_swp) as [H1 H2]. cbv zeta. split; [|exact H2].
  destruct (_ !! i) as [[q r]|] eqn:E; [|done]. exact (H1 i q r E).
Qed.

End PlanProofs.

(** ** Research jobs *)

Record mem_sum := mkMS {
  m_hit : option (option memory_entry);               (* the answer of the memory *)
  m_complete : option (json * outcome bool jexn);
  m_told : option json;                               (* what was delivered *)
  m_refreshed : bool
}.
Definition no_memory : mem_sum := mkMS None None None false.

Definition mem_note (g : mem_sum) (x : happened jreply) : mem_sum :=
  match x with
  | Did q r =>
      match q return jreply q -> mem_sum with
      | JMemory => fun r => mkMS (match r with Ok h => Some h | Raise _ => None end) (m_complete g) (m_told g) (m_refreshed g)
      | JComplete d _ _ => fun r => mkMS (m_hit g) (Some (d, r)) (m_told g) (m_refreshed g)
      | JDeliver _ d _ _ => fun _ => mkMS (m_hit g) (m_complete g) (Some d) (m_refreshed g)
      | JRefresh _ => fun _ => mkMS (m_hit g) (m_complete g) (m_told g) true
      | _ => fun _ => g
      end r
  end.

Section AgentProofs.
Context (style : CitationStyle) (force_fresh include_source_content swr : bool) (prompt : string) (fingerprint : option string).

(** The entry may be served, with this answer. *)
Definition servable (e : memory_entry) (payload : json) : Prop :=
  fresh_enough e = true /\ payload = cached_payload style e \/
  fresh_enough e = false /\ revalidated swr e = true /\ payload = stale_payload style e.

Definition mem_allowed (g : mem_sum) (q : JReq) : Prop :=
  match q with
  | JMemory => force_fresh = false /\ include_source_content = false /\ g = no_memory
  | JComplete payload ev d => ev = "completed" /\ d = payload /\ m_complete g = None /\ exists e, m_hit g = Some (Some e) /\ servable e payload
  | JDeliver ev d ok err => ev = "completed" /\ ok = true /\ err = None /\ m_told g = None /\ exists b, m_complete g = Some (d, Ok b)
  | JRefresh key => key = refresh_key prompt fingerprint /\ m_refreshed g = false /\
                    exists e, m_hit g = Some (Some e) /\ swr = true /\ me_swr e = true /\ me_freshness e = "stale" /\ m_told g = Some (stale_payload style e)
  | _ => False
  end.

(** [None]: the job was answered; otherwise the work function is to run. *)
Definition mem_result (r : option (option memory_entry)) (g : mem_sum) : Prop :=
  match r with
  | None => exists e payload b, m_hit g = Some (Some e) /\ servable e payload /\ m_complete g = Some (payload, Ok b) /\ m_told g = Some payload /\
              m_refreshed g = negb (fresh_enough e)
  | Some (Some e) => m_hit g = Some (Some e) /\ fresh_enough e = false /\ revalidated swr e = false /\ m_complete g = None
  | Some None => match m_complete g with None => m_hit g = None \/ m_hit g = Some None | Some (_, o) => exists e, o = Raise e end
  end.

Lemma serve_swp e payload g (X : unit -> mem_sum -> Prop) (Y : jexn -> mem_sum -> Prop) :
  m_hit g = Some (Some e) -> m_complete g = None -> m_told g = None -> servable e payload ->
  (forall b, X tt (mkMS (m_hit g) (Some (payload, Ok b)) (Some payload) (m_refreshed g))) ->
  (forall x, Y x (mkMS (m_hit g) (Some (payload, Raise x)) (m_told g) (m_refreshed g))) ->
  swp mem_note mem_allowed X Y (serve payload) g.
Proof.
  intros H1 H2 H3 S HX HY. unfold serve. cbn. split; [split_and!; eauto|]. intros [b|x]; cbn; [|apply HY]. split; [split_and!; eauto|]. intros []. apply HX.
Qed.

Lemma memory_swp :
  swp mem_note mem_allowed mem_result (fun e _ => e = TaskCancelledExn) (memory_phase style force_fresh include_source_content swr prompt fingerprint) no_memory.
Proof.
  unfold memory_phase. destruct (force_fresh || include_source_content) eqn:FF; [cbn; by left|]. apply orb_false_iff in FF as [F1 F2].
  apply swp_catch. unfold consult. cbn [ask bind swp]. split; [done|]. intros [[e|]|x]; cbn [jraised bind swp mem_note].
  - destruct (fresh_enough e) eqn:FE; [|destruct (revalidated swr e) eqn:RV].
    + apply swp_bind. eapply (serve_swp e); try done; [by left| |].
      * intros b. cbn. exists e, (cached_payload style e), b. rewrite FE. split_and!; try done. by left.
      * intros x. destruct x; cbn; eauto.
    + apply swp_bind. assert (SV : servable e (stale_payload style e)) by (by right). eapply (serve_swp e); try done.
      * intros b. cbn. unfold revalidated in RV. apply andb_true_iff in RV as [[R1%String.eqb_eq R2]%andb_true_iff R3].
        split; [split_and!; [done|done|exists e; by split_and!]|]. intros []. cbn. exists e, (stale_payload style e), b. rewrite FE. by split_and!.
      * intros x. destruct x; cbn; eauto.
    + by split_and!.
  - by right.
  - destruct x; cbn; auto.
Qed.

(**  A research job is answered from the memory only as the request allows: a request
    for fresh results or for source contents does not look; otherwise the job is
    completed from the memory at most once and only with a fresh or aging entry, or with
    a stale one if the request accepts it, the entry is eligible, and, after it was
    announced, one refresh under the key of the request is started.  When the look ends
    without an answer, no answer was accepted by the store and the work function runs; it
    knows an old entry exactly when one was found that may not be served; and only the
    cancellation of the task gets out. *)
Theorem memory_answers_guarded env i :
  let p := memory_phase style force_fresh include_source_content swr prompt fingerprint in
  let t := snd (run env [] p) in
  match t !! i with Some (Did q r) => mem_allowed (foldl mem_note no_memory (take i t)) q | None => True end /\
  match fst (run env [] p) with
  | Ok r => mem_result r (foldl mem_note no_memory t)
  | Raise e => e = TaskCancelledExn
  end.
Proof.
  destruct (swp_run _ _ _ _ _ _ env memory_swp) as [H1 H2]. cbv zeta. split; [|exact H2].
  destruct (_ !! i) as [[q r]|] eqn:E; [|done]. exact (H1 i q r E).
Qed.

End AgentProofs.

(** ** Runs *)

Definition demo_found (u : string) : found_page := mkFound u (JStr "") (JStr "").
Definition demo_plan_env (h : list (happened jreply)) (q : JReq) : jreply q :=
  match q with
  | JSearch _ => Ok [demo_found "https://a.org/"; demo_found "https://b.org/"; demo_found "https://a.org/"]
  | JCancelled => Ok false
  | JEvidence _ _ => Ok ("ctx", JObj [])
  | JGenerate _ _ => Ok "text"
  | JScrape _ _ => Ok []
  | JDeliver _ _ _ _ | JIndex _ _ | JClose | JRefresh _ => tt
  | JComplete _ _ _ | JFail _ _ _ => Ok true
  | JCrawl => Raise (OtherExn "engine")
  | JMemory => Ok None
  | JResearch | JAdopt _ => Ok []
  end.

(** Two searches find the same pages: they are listed and scraped once. *)
Lemma demo_plan_run :
  fst (run demo_plan_env [] (plan_work "q" [mkPhase "search" ""; mkPhase "search" "again"; mkPhase "synthesize" ""] [] None (fun _ => "doc"))) =
    Ok (JObj [("result", JStr "text"); ("sources", JArr [JStr "https://a.org/"; JStr "https://b.org/"]);
              ("source_details", JArr (source_doc <$> [demo_found "https://a.org/"; demo_found "https://b.org/"])); ("phases_completed", JNum 3);
              ("evidence_coverage", JObj []); ("total_sources", JNum 2)]).
Proof. reflexivity. Qed.

(** A crawl whose engine fails. *)
Lemma demo_crawl_run :
  snd (run demo_plan_env [] (process_crawl false)) =
    [Did (JDeliver "crawl.started" (JArr []) true None) tt; Did JCrawl (Raise (OtherExn "engine")); Did (JFail "engine" "crawl.failed" (JArr [])) (Ok true);
     Did (JDeliver "crawl.failed" (JArr []) false (Some "engine")) tt; Did JClose tt].
Proof. reflexivity. Qed.
